(* ===== verification/_CoqProject ===== *)
-Q . S2P
Prelude.v
Bytes.v
UInt256.v
Utils.v
Emission.v
Crypto.v
Transaction.v
Autolykos2.v
Block.v
BalanceSheet.v
Ledger.v
Difficulty.v
DagEpochs.v
Mempool.v
Storage.v
Chain.v
ChainInvariant.v
History.v
ChainTheorems.v
OrphanPool.v
Framing.v
Deliveries.v
Peers.v
UdpNode.v
Discovery.v
DiscoveryTheorems.v
Protocol.v
ProtocolTheorems.v
NetNode.v
NetInvariant.v
NetTheorems.v
Miner.v
FullVerify.v
Startup.v
Sync.v
KHash.v
KHashInvariant.v
Tables.v
Vector.v
DSet.v
DSetTheorems.v
CommandLine.v
Identity.v
Console.v
ConsoleTheorems.v
Lifecycle.v
Concurrency.v
Locking.v
LockingTheorems.v
BlockMemory.v
MemoryLogic.v
MemoryTheorems.v
Helpers.v
SaveFailure.v
