(* ===== verification/Prelude.v ===== *)
(** * Skalacoin: a verification development

    Skalacoin is a proof-of-work cryptocurrency node written in C: an account-based ledger, blocks
    mined with a home-grown Autolykos2, a difficulty and DAG-size schedule folded from the headers,
    reorganisations by cumulative work with a delay penalty, a transaction pool, three files on disk,
    and a peer-to-peer network over TCP with UDP pings.  This library models the consensus
    core, the network node and the program around them as executable functions and proves what makes them correct.

    ** The program and the files that model it

    Each file models the source named with it; definitions keep the source's names, and a loop or
    block of a long C function that has a definition of its own says which.

    - [Prelude], [Bytes]: machine integers as [Z] with the wrap written out ([u64], [+u64]), the
      arithmetic and boolean tactics, byte strings ([memcmp], little- and big-endian images).
    - [UInt256] ([include/uint256.h]): 256-bit integers as four 64-bit limbs.
    - [Utils] ([include/utils.h]): the compact target codec, hash comparison, address parsing.
    - [Emission] ([include/constants.h]): the reward schedule; the global [g_currentReward] it reads
      and writes is an argument and a result.
    - [Crypto] ([src/crypto/crypto.c], [src/blake2/blake2.c]): the wrappers.  OpenSSL and secp256k1 are
      outside the sources: class [CryptoOps] lists the calls, class [CryptoLaws] what is relied on
      (digest sizes; a signature verifies under its own key).  Module [Toy] is a computable instance
      on which every conditional theorem is exercised.
    - [Transaction] ([src/block/transaction.c]): the packed 168- and 232-byte layouts, hashing,
      signing, verification.
    - [Autolykos2] ([src/autolykos2/autolykos2.c]): the heavy hash over a DAG buffer, the light hash
      over the seed, DAG generation, the nonce search.
    - [Block] ([src/block/block.c]): headers, Merkle roots, the coinbase and fee check, proof of work
      with the process-global DAG cache ([pow_state], [pow_step]).
    - [BalanceSheet] ([src/balance_sheet.c]): the accounts as a finite map, the simulation overlay of
      transaction selection, the file.
    - [Ledger] ([src/block/chain.c]): crediting and debiting, the ledger pass of an append, the replay of
      a rollback, the sender-ordering check.
    - [Difficulty] ([chain.c], [src/nets/fetch_scheduler.c]): retargeting, work, the reorganisation
      penalty.
    - [DagEpochs] ([chain.c]): the memoised recurrence of DAG sizes and the epoch seeds.
    - [Mempool] ([src/txmempool.c]): the pool.
    - [Storage] ([chain.c], [include/storage/block_table.h]): saving and loading [chain.meta],
      [chain.data] and [chain.table] as byte strings.
    - [Chain] ([chain.c], [include/block/chain.h], [include/runtime_state.h]): the state [node] -- blocks,
      memo table, sheet, pool, supply, reward, target, files, DAG cache -- and every operation on it.
    - [ChainInvariant], [History], [ChainTheorems]: the invariants of that state machine and its theorems.
    - [OrphanPool] ([src/nets/orphan_pool.c]): blocks waiting for their parents, and the attach attempts
      that offer them to the chain; [system_step] is the chain and the pool together.
    - [Framing] ([src/tcpd/tcpconnection.c], the io loops): length-prefixed frames over a byte stream; the
      state of a receiver, [SendRaw] against a script of partial writes.
    - [Deliveries] ([src/nets/net_node.c]): the ring of delivery receipts.
    - [Peers] ([net_node.c], [tcpconnection.c], [tcpserver.c], [tcpclient.c]): socket addresses, connection
      objects in a heap of pointers, the two connection tables, the queries over them, the choice of
      relay targets, the reaper.  Class [AddrText] stands for [inet_pton] and [inet_ntop].
    - [UdpNode] ([src/udpd/udpnode.c]): pings, pongs, retries, timeouts.
    - [Discovery], [DiscoveryTheorems] ([src/nets/nodediscovery.c]): the peer table, the dial history, our own
      endpoints, peer exchange and the periodic tick; its steps and theorems.
    - [Protocol], [ProtocolTheorems] ([net_node.c]): packets, the handshake, blocks on the wire and
      [Node_ParseAndAcceptBlock] over chain, orphan pool and files.
    - [NetNode], [NetInvariant], [NetTheorems] ([net_node.c], [tcpserver.c], [tcpclient.c]): the whole node
      ([system]) and one handler per event; class [Sockets] stands for the outcome of dials and writes.
      [sys_step] is any event on any input.
    - [Miner] ([src/main.c]): choosing and ordering pooled payments, assembling a block, the nonce search and
      appending the result.
    - [FullVerify] ([main.c]): the [fullverify] command, which checks a stored chain from scratch.
    - [Startup] ([main.c]): flushing, start-up over what is on disk, wiping, the wallet file; [life_step] is the
      life of a data directory over many runs.
    - [Sync] ([main.c]): the [sync] command and [RequestForkWindow] as programs over the shared state; class
      [Environment] says what the other threads do before each access and what the clock shows apart from
      the time slept, which a sleep adds to it.
    - [KHash], [KHashInvariant] ([include/khash/khash.h]): the open-addressing table down to its flag words and
      bucket arrays, with failing allocations; its invariant.
    - [Tables] ([balance_sheet.c], [txmempool.c]): the balance sheet and the pool written on those tables (module
      [Tbl]), and that they refine the finite maps of [BalanceSheet] and [Mempool].
    - [Vector] ([include/dlibc/vector.h]): growable arrays of bytes with pointers into themselves, overflow
      checks and destructors.
    - [DSet], [DSetTheorems] ([include/dlibc/set.h]): unordered sets on the same buffers, and the set algebra.
    - [CommandLine] ([main.c], [main] and [ApplyRuntimeConfigFromEnv]): lines, words and numbers, the environment and
      the start-up argument.
    - [Identity] ([src/numgen.c], [include/utils.h]): random numbers, key pairs and addresses.
    - [Console], [ConsoleTheorems] ([main.c], [main]): every command and the loop, as programs over the shared
      state like [Sync]; class [Operator] stands for the bytes of an uninitialised buffer, the nonce search's
      clock, [rand()] and [getaddrinfo].
    - [Lifecycle] ([tcpserver.c], [tcpclient.c], [udpnode.c], [net_node.c]): descriptors, threads and memory from
      [Node_Create] to [Node_Destroy], every call allowed to fail.
    - [SaveFailure] ([chain.c], [Chain_SaveToFile]): the save with every exit, and the three files one by one.
    - [BlockMemory] (module [Bm]), [MemoryLogic], [MemoryTheorems] ([chain.c], [block.c], [orphan_pool.c],
      [net_node.c], [main.c]): who owns the heap blocks and the vectors of transactions, and a small separation
      logic to follow them through appends, rollbacks, swaps, saves, the orphan pool and the commands.
    - [Concurrency]: pools of threads that run code reduced to locks, tables, sockets and joins; a check of such
      code and what checked threads can never do.  [Locking] (module [Lk]), [LockingTheorems]: the fifteen locks and
      fourteen tables of the program and every function that takes, touches or waits ([chain.c], [src/nets],
      [src/tcpd], [src/udpd], [main.c]).
    - [Helpers] ([utils.h], [chain.c]): clocks, hexadecimal output, paths and the growth of the epoch table.

    ** How the parts interact

    [Chain_AddBlockLocked] is the only way into the chain.  It checks linkage, proof of work against
    [Chain_DagParamsForHeightLocked], the target of [Chain_GetTargetForHeight], runs selection over the
    sheet, the coinbase check against [g_currentReward] and the ordering check, pushes the block, runs
    the ledger pass, removes mined transactions from the pool and advances supply and reward.
    [Chain_RollbackToHeightLocked] returns discarded payments to the pool and replays the rest;
    [Chain_ReplaceBranch] compares work and penalty and composes the two; [Chain_SaveToFile] leaves only
    headers in memory, so every replay may read transactions back from disk.  [node_step] is any of
    these on any input; [live_step] leaves out what only the operator and start-up do (rolling back, recomputing,
    wiping).  [good_step] is the same on well-formed blocks: [Transaction_Verify] admits a transaction with a second
    amount and no second recipient, at which the ledger pass stops half-way with the block already on the chain, so
    the theorems on the ledger are about states reached without such blocks ([good_block]) and without a failed save;
    [reachable] is that.

    On the network side, [io_recv] feeds received bytes to the framing state of a connection and hands
    each complete frame to [Node_Server_OnData] or [Node_Client_OnData] by the role of the connection;
    these call the chain, the pools, discovery, the receipts and the relay.  [udp_packet] and
    [udp_retry] route pongs and timeouts into discovery, and [maintenance_round] attaches orphans,
    prunes the pool, reaps dead connections and runs the discovery tick, which dials new peers.

    ** What the theorems show

    - The chain (file [ChainTheorems]): every reachable chain is valid at every height whatever blocks
      were offered.  On [reachable] states: coins are conserved and the sheet is the replay of the chain; no
      payment is applied twice; exactly which blocks, well formed or not, are accepted, and what an append
      does in each of its three outcomes; what a rollback, a reorganisation, a failed reorganisation, a save
      and a recomputation do; when a node counts as catching up.  A running node keeps its genesis block, and
      keeps its chain or exchanges it for a heavier one, unless a failed reorganisation cannot be undone
      ([outcome]).
    - The orphan pool: bounded, duplicate-free, evicting the oldest; the branches it offers are linked
      and maximal; attach attempts terminate and keep the chain within its own transitions.
    - The ledger: an admitted block always applies; selection is the greedy choice; the ordering
      check is exact; the one transaction shape that validation admits and the ledger refuses.
    - Proof of work and the schedules: heavy and light hashes agree in every state of the DAG cache, the
      nonce search is exact, retargeting is bounded, targets and DAG parameters are functions of the
      chain below, DAG sizes stay in their band, work and penalty are exact, emission reaches its cap.
    - The node (file [NetTheorems]): whatever arrives from the network, the chain moves only by its own
      operations and stays valid; the connection tables, pin counts and tables of the node stay well
      formed and shutdown frees every connection; one connection per advertised identity and role; who a
      block is relayed to; what a block request is answered with.  A node that fetches the blocks of
      another ends with its chain, sheet and supply, up to the first block too large for a frame
      ([ProtocolTheorems]).
    - Mining and auditing ([Miner], [FullVerify]): a block assembled from the pool and mined is accepted by the
      node's own chain and well-formed for its peers, if the pool holds no payment that is stale, malformed or
      of the same time as another of its sender; [fullverify] accepts exactly the chains every block of which is in order, and accepts what
      a node saved.
    - Runs of the program ([Startup], [Sync]): the ledger is sound across restarts and wipes, and a restart
      loses nothing but the pools; what an interrupted save leaves behind; synchronising never loses the
      chain but for a heavier one, its walk back to a common block ends, and with a dead peer that is ahead it
      does not end.
    - The wire: frames are reassembled independently of how the stream is cut and cross partial writes
      intact; the handshake, blocks and peer lists round-trip; a receipt outlives 511 others.
    - Discovery: the peer table is bounded, free of duplicates and of our own endpoints; entries follow the
      life cycle of a peer; a tick dials only what it may; an unanswered ping times out.
    - The console ([ConsoleTheorems]): nothing that is typed breaks the chain, and only [wipechain] throws it away,
      whatever the other threads do; a payment printed by [send] is the one [sendrawtx] reads elsewhere; the payments [send] should have refused,
      and what [sendrawtx] makes of characters that are no digits.
    - Resources ([Lifecycle]): everything taken from the system is given back once, with the exact exceptions, if
      accepted clients get their threads.
    - Memory ([MemoryTheorems]): no block or vector of transactions is used after it was freed or freed twice, and
      none is lost except the one each [send] builds.  A save that fails loses transactions, and no later save
      succeeds while the block stays on the chain ([SaveFailure]).
    - Threads ([LockingTheorems]): locks and the ends of threads are never waited for in a circle, ten shared tables are never touched by
      two threads at once with one writing; four can be, and one peer that does not read can stop the node.
    - Containers ([Tables], [Vector], [DSetTheorems]): tables are finite maps, the ledger and the pool on tables
      are the ledger and the pool of the other theorems, vectors are lists, sets are sets.
    - Data: 256-bit arithmetic is exact with its overflow flags, targets decode as specified, hashes
      commit to blocks up to an exhibited collision, transactions, sheets and chains round-trip.

    ** Modelling choices

    Outside the containers, [Lifecycle], [SaveFailure] and [BlockMemory], allocation and system calls succeed, pointers
    are not null and memory ownership is left out.  [BlockMemory] and [Locking] leave the outcome of checks open
    instead: the theorems that something never happens hold for every outcome, and those that something can happen
    give the outcomes it takes.  In [Locking] a join waits for some thread of the level its
    handle belongs to, no thread is started later than the others, and counters such as the supply are not among
    the tables.  What a command prints is a value, without its wording.  Every function that takes the chain lock is one transition, and so is every event of the node
    (a chunk received, a datagram, an accepted or closed connection, a retry or maintenance round); the
    clock and random numbers are arguments.  Hash
    tables are finite maps and vectors are lists, as [Tables] and [Vector] justify; the size field that always equals the vector's size is
    not repeated.  The optional reference backend of Autolykos2 is compiled out.  Loops with a counter
    are structural; the others carry fuel that is proved sufficient where a result is claimed: 256
    steps for the division, 78 digits for decimal printing, the length of the remaining input for the
    file readers, the length of a chunk for the framing loop,
    the 250 sleeps of 20 ms in the five seconds of a request for the walk back to a common block, twice the buckets for a probe and one
    more than the buckets for a chain of evictions, the size of a set for the removal of duplicates, one line
    more than the input has bytes for the command loop, the mantissa width for the two
    normalisation loops of the retarget.

    ** Not modelled

    The wording and layout of what is printed and logged; the interleaving of threads within one event other than
    by locks, tables and waiting; the handler of SIGINT; the observer callbacks of [Node_SetCallbacks]; the
    string and integer hashes of khash and the C++ wrapper macros of the containers, which the program does not use; the optional
    reference backend of Autolykos2. *)

From stdpp Require Export base list gmap numbers option.
From Stdlib Require Export ZArith Lia.

#[global] Open Scope Z_scope.

(** ** Machine integers

    A [w]-bit unsigned integer is a [Z] in [[0, 2^w)]; wrap-around is written out. *)

Definition U8_MAX : Z := 2 ^ 8 - 1.
Definition U16_MAX : Z := 2 ^ 16 - 1.
Definition U32_MAX : Z := 2 ^ 32 - 1.
Definition UINT64_MAX : Z := 2 ^ 64 - 1.
Definition LONG_MAX : Z := 2 ^ 63 - 1.

Definition u8 (x : Z) : Z := x mod 2 ^ 8.
Definition u16 (x : Z) : Z := x mod 2 ^ 16.
Definition u32 (x : Z) : Z := x mod 2 ^ 32.
Definition u64 (x : Z) : Z := x mod 2 ^ 64.

Definition is_u8 (x : Z) : Prop := 0 <= x < 2 ^ 8.
Definition is_u16 (x : Z) : Prop := 0 <= x < 2 ^ 16.
Definition is_u32 (x : Z) : Prop := 0 <= x < 2 ^ 32.
Definition is_u64 (x : Z) : Prop := 0 <= x < 2 ^ 64.

Declare Scope cint_scope.
Delimit Scope cint_scope with cint.
Notation "x '+u64' y" := (u64 (x + y)) (at level 50, left associativity) : cint_scope.
Notation "x '-u64' y" := (u64 (x - y)) (at level 50, left associativity) : cint_scope.
Notation "x '*u64' y" := (u64 (x * y)) (at level 40, left associativity) : cint_scope.
#[global] Open Scope cint_scope.

(** Powers of two as numerals, so that [lia] sees them. *)
Lemma pow2_8 : 2 ^ 8 = 256. Proof. reflexivity. Qed.
Lemma pow2_16 : 2 ^ 16 = 65536. Proof. reflexivity. Qed.
Lemma pow2_32 : 2 ^ 32 = 4294967296. Proof. reflexivity. Qed.
Lemma pow2_64 : 2 ^ 64 = 18446744073709551616. Proof. reflexivity. Qed.

Create HintDb cint.
Create Rewrite HintDb pow2.
#[export] Hint Rewrite pow2_8 pow2_16 pow2_32 pow2_64 : pow2.

(** Unfold every width predicate and wrap into plain arithmetic. *)
Ltac unfold_cint :=
  unfold is_u8, is_u16, is_u32, is_u64, u8, u16, u32, u64,
    U8_MAX, U16_MAX, U32_MAX, UINT64_MAX, LONG_MAX in *;
  change (2 ^ 8) with 256 in *; change (2 ^ 16) with 65536 in *;
  change (2 ^ 32) with 4294967296 in *; change (2 ^ 63) with 9223372036854775808 in *;
  change (2 ^ 64) with 18446744073709551616 in *.

(** Case analysis on every boolean comparison in sight. *)
Ltac zbool :=
  repeat match goal with
  | H : (_ && _)%bool = true |- _ => apply andb_true_iff in H; destruct H
  | H : (_ || _)%bool = false |- _ => apply orb_false_iff in H; destruct H
  | H : (_ =? _) = true |- _ => apply Z.eqb_eq in H
  | H : (_ =? _) = false |- _ => apply Z.eqb_neq in H
  | H : (_ <? _) = true |- _ => apply Z.ltb_lt in H
  | H : (_ <? _) = false |- _ => apply Z.ltb_ge in H
  | H : (_ <=? _) = true |- _ => apply Z.leb_le in H
  | H : (_ <=? _) = false |- _ => apply Z.leb_gt in H
  | H : negb _ = true |- _ => apply negb_true_iff in H
  | H : negb _ = false |- _ => apply negb_false_iff in H
  end.

Ltac zcases :=
  repeat match goal with
  | |- context [?x =? ?y] => destruct (Z.eqb_spec x y)
  | |- context [?x <? ?y] => destruct (Z.ltb_spec x y)
  | |- context [?x <=? ?y] => destruct (Z.leb_spec x y)
  end.

(** Linear arithmetic modulo div/mod by constants. *)
Ltac zdiv := zify; Z.div_mod_to_equations; lia.

Lemma u64_range x : is_u64 (u64 x).
Proof. unfold_cint. zdiv. Qed.

Lemma u64_small x : is_u64 x -> u64 x = x.
Proof. intros. apply Z.mod_small. assumption. Qed.

Lemma u64_add_wrap x y :
  is_u64 x -> is_u64 y ->
  x +u64 y = x + y /\ x + y < 2 ^ 64 \/ x +u64 y = x + y - 2 ^ 64 /\ 2 ^ 64 <= x + y.
Proof.
  intros. unfold_cint.
  destruct (Z.lt_ge_cases (x + y) 18446744073709551616); [left | right]; split; try lia; zdiv.
Qed.

Lemma u64_sub_wrap x y :
  is_u64 x -> is_u64 y ->
  x -u64 y = x - y /\ y <= x \/ x -u64 y = x - y + 2 ^ 64 /\ x < y.
Proof.
  intros. unfold_cint.
  destruct (Z.lt_ge_cases x y); [right | left]; split; try lia; zdiv.
Qed.

#[export] Hint Resolve u64_range : cint.

(** ** Bit operations as arithmetic *)

Lemma testbit_above x k n : 0 <= x < 2 ^ k -> k <= n -> 0 <= k -> Z.testbit x n = false.
Proof.
  intros Hx Hn Hk. destruct (Z.eq_dec x 0) as [->|]; [apply Z.bits_0|].
  apply Z.bits_above_log2; [lia|]. apply Z.lt_le_trans with k; [|lia].
  apply Z.log2_lt_pow2; lia.
Qed.

(** A shifted high part or-ed with a low part that fits below it is their sum. *)
Lemma lor_shiftl_add hi lo k : 0 <= k -> 0 <= lo < 2 ^ k -> Z.lor (Z.shiftl hi k) lo = hi * 2 ^ k + lo.
Proof.
  intros Hk Hlo. rewrite <- Z.shiftl_mul_pow2 by lia. pose proof (Z.add_lor_land (Z.shiftl hi k) lo) as E.
  replace (Z.land (Z.shiftl hi k) lo) with 0 in E; [lia|].
  symmetry. apply Z.bits_inj'. intros n Hn. rewrite Z.land_spec, Z.bits_0.
  destruct (Z.lt_ge_cases n k).
  - rewrite Z.shiftl_spec_low by lia. reflexivity.
  - rewrite (testbit_above lo k n), andb_false_r by lia. reflexivity.
Qed.

(** The two clamping idioms of the code. *)
Lemma if_ltb_max a b : (if a <? b then b else a) = Z.max a b.
Proof. zcases; lia. Qed.

Lemma if_ltb_min a b : (if a <? b then a else b) = Z.min a b.
Proof. zcases; lia. Qed.

(** ** Deciding well-formedness by computation *)

#[export] Instance is_u8_dec x : Decision (is_u8 x). Proof. unfold is_u8; apply _. Defined.
#[export] Instance is_u16_dec x : Decision (is_u16 x). Proof. unfold is_u16; apply _. Defined.
#[export] Instance is_u32_dec x : Decision (is_u32 x). Proof. unfold is_u32; apply _. Defined.
#[export] Instance is_u64_dec x : Decision (is_u64 x). Proof. unfold is_u64; apply _. Defined.

(** Close a decidable goal about concrete data by evaluation. *)
Ltac vm_decide := apply (bool_decide_unpack _); vm_compute; exact I.

(** Induction by pairs of elements. *)
Lemma list_ind2 {A} (P : list A -> Prop) :
  P [] -> (forall a, P [a]) -> (forall a b r, P r -> P (a :: b :: r)) -> forall l, P l.
Proof.
  intros H0 H1 H2. assert (H : forall l, P l /\ forall a, P (a :: l)); [|intros l; apply H].
  induction l as [|a l [IH1 IH2]]; split; auto.
Qed.

(** ** Lists *)

Lemma sublist_elem_of {A} (x : A) l k : x ∈ l -> l `sublist_of` k -> x ∈ k.
Proof. intros Hx Hs. revert Hx. induction Hs; [done|set_solver|set_solver]. Qed.

Lemma delete_sublist {A} (i : nat) (l : list A) : delete i l `sublist_of` l.
Proof.
  revert i; induction l as [|x l IH]; intros [|i]; cbn; [done|done|by apply sublist_cons|by apply sublist_skip].
Qed.

Lemma sublist_forall {A} (P : A -> Prop) l k : l `sublist_of` k -> Forall P k -> Forall P l.
Proof.
  induction 1 as [|x l k _ IH|x l k _ IH]; intros H; [done| |]; apply Forall_cons_iff in H as [Hx Hk].
  - constructor; [done|by apply IH].
  - by apply IH.
Qed.

Lemma NoDup_snoc {A} (x : A) l : NoDup l -> x ∉ l -> NoDup (l ++ [x]).
Proof.
  intros Hl Hx. apply list.NoDup_app. split; [done|]. split; [|by apply NoDup_singleton].
  intros y Hy Hy'. apply list_elem_of_singleton in Hy'. by subst.
Qed.

Lemma NoDup_insert_fresh {A} (x : A) l k : NoDup l -> x ∉ l -> NoDup (<[k := x]> l).
Proof.
  intros Hl Hx. apply NoDup_alt. intros i j y Hi Hj. rewrite list_lookup_insert_Some in Hi, Hj.
  destruct Hi as [(? & ? & _)|(_ & Hi)], Hj as [(? & ? & _)|(_ & Hj)]; subst; [done| | |by eapply NoDup_lookup].
  - destruct Hx. by eapply list_elem_of_lookup_2.
  - destruct Hx. by eapply list_elem_of_lookup_2.
Qed.
