(* ===== verification/Bytes.v ===== *)
(** * Byte strings

    Byte arrays are lists of integers in [[0, 256)].  The structs of the code are stored, hashed and
    sent as their packed little-endian image (x86-64 layout), so this file has the little-endian
    encoding of fixed-width integers with its round trips, the big-endian value of a byte string,
    and the field-slicing lemmas the struct decoders share. *)
From S2P Require Import Prelude.

Abbreviation bytes := (list Z).

Create HintDb bytes.

Definition bytes_ok (bs : bytes) : Prop := Forall is_u8 bs.
Definition bytes_n (n : nat) (bs : bytes) : Prop := length bs = n /\ bytes_ok bs.

#[export] Instance bytes_ok_dec bs : Decision (bytes_ok bs). Proof. unfold bytes_ok; apply _. Defined.
#[export] Instance bytes_n_dec n bs : Decision (bytes_n n bs). Proof. unfold bytes_n; apply _. Defined.

(** [memcmp(a, b, n) == 0]. *)
Definition memeq (a b : bytes) : bool := bool_decide (a = b).

Lemma memeq_true a b : memeq a b = true <-> a = b.
Proof. unfold memeq. by rewrite bool_decide_eq_true. Qed.

Lemma memeq_false a b : memeq a b = false <-> a <> b.
Proof. unfold memeq. by rewrite bool_decide_eq_false. Qed.

Definition zeros (n : nat) : bytes := replicate n 0.

Fixpoint be_val (bs : bytes) : Z :=
  match bs with
  | [] => 0
  | b :: r => b * 256 ^ Z.of_nat (length r) + be_val r
  end.

Lemma be_val_app a b : be_val (a ++ b) = be_val a * 256 ^ Z.of_nat (length b) + be_val b.
Proof.
  induction a as [|x a IH]; cbn [be_val app]; [lia|].
  rewrite IH, length_app, Nat2Z.inj_add, Z.pow_add_r by lia. ring.
Qed.

Lemma be_val_bounds bs : bytes_ok bs -> 0 <= be_val bs < 256 ^ Z.of_nat (length bs).
Proof.
  induction bs as [|b bs IH]; intros H; [cbn; lia|].
  apply Forall_cons_iff in H as [Hb H]. specialize (IH H). cbn [be_val length].
  rewrite Nat2Z.inj_succ, Z.pow_succ_r by lia. unfold is_u8 in Hb. nia.
Qed.

Lemma bytes_ok_take n bs : bytes_ok bs -> bytes_ok (take n bs).
Proof. apply Forall_take. Qed.
Lemma bytes_ok_drop n bs : bytes_ok bs -> bytes_ok (drop n bs).
Proof. apply Forall_drop. Qed.
#[export] Hint Resolve bytes_ok_take bytes_ok_drop : bytes.


(** ** Little-endian integers *)

Fixpoint le_bytes (n : nat) (v : Z) : bytes :=
  match n with
  | O => []
  | S m => v mod 256 :: le_bytes m (v / 256)
  end.

Fixpoint le_val (bs : bytes) : Z :=
  match bs with
  | [] => 0
  | b :: r => b + 256 * le_val r
  end.

Lemma length_le_bytes n v : length (le_bytes n v) = n.
Proof. revert v; induction n; intros; cbn; auto. Qed.

Lemma le_bytes_ok n v : bytes_ok (le_bytes n v).
Proof.
  revert v; induction n; intros v; constructor; [|apply IHn].
  unfold is_u8. apply Z.mod_pos_bound. lia.
Qed.

Lemma le_val_bytes n v : 0 <= v < 256 ^ Z.of_nat n -> le_val (le_bytes n v) = v.
Proof.
  revert v; induction n as [|n IH]; intros v Hv; cbn [le_bytes le_val]; [cbn in Hv; lia|].
  rewrite Nat2Z.inj_succ, Z.pow_succ_r in Hv by lia. rewrite IH; [zdiv|].
  split; [zdiv|]. apply Z.div_lt_upper_bound; lia.
Qed.

Lemma le_bytes_val bs : bytes_ok bs -> le_bytes (length bs) (le_val bs) = bs.
Proof.
  induction bs as [|b bs IH]; intros H; [done|]. apply Forall_cons_iff in H as [Hb H].
  cbn [le_bytes le_val length]. unfold is_u8 in Hb.
  replace ((b + 256 * le_val bs) mod 256) with b by zdiv.
  replace ((b + 256 * le_val bs) / 256) with (le_val bs) by zdiv. by rewrite IH.
Qed.

Lemma le_val_bounds bs : bytes_ok bs -> 0 <= le_val bs < 256 ^ Z.of_nat (length bs).
Proof.
  induction bs as [|b bs IH]; intros H; [cbn; lia|]. apply Forall_cons_iff in H as [Hb H].
  specialize (IH H). cbn [le_val length]. rewrite Nat2Z.inj_succ, Z.pow_succ_r by lia.
  unfold is_u8 in Hb. lia.
Qed.

#[export] Hint Resolve le_bytes_ok : bytes.
Create Rewrite HintDb bytes.
#[export] Hint Rewrite length_le_bytes (@length_app Z) (@length_take Z) (@length_drop Z) (@length_replicate Z) : bytes.

(** ** Cutting a struct image into fields *)

(** The first [n] bytes and the rest, or nothing when there are fewer. *)
Definition cut (n : nat) (bs : bytes) : option (bytes * bytes) :=
  if (length bs <? n)%nat then None else Some (take n bs, drop n bs).

Lemma cut_app n a b : length a = n -> cut n (a ++ b) = Some (a, b).
Proof.
  intros <-. unfold cut. rewrite length_app.
  destruct (Nat.ltb_spec (length a + length b) (length a)); [lia|].
  by rewrite take_app_length, drop_app_length.
Qed.

Lemma cut_Some n bs a b : cut n bs = Some (a, b) -> bs = a ++ b /\ length a = n.
Proof.
  unfold cut. destruct (Nat.ltb_spec (length bs) n); [done|]. intros [= <- <-].
  split; [by rewrite take_drop|]. rewrite length_take. lia.
Qed.

Lemma cut_ok n bs a b : bytes_ok bs -> cut n bs = Some (a, b) -> bytes_ok a /\ bytes_ok b.
Proof. intros H E. apply cut_Some in E as [-> _]. by apply Forall_app in H. Qed.

Lemma bytes_ok_app a b : bytes_ok (a ++ b) <-> bytes_ok a /\ bytes_ok b.
Proof. apply Forall_app. Qed.

Lemma zeros_ok n : bytes_n n (zeros n).
Proof.
  split; [apply length_replicate|]. apply Forall_replicate. unfold is_u8; lia.
Qed.
#[export] Hint Resolve zeros_ok : bytes.

Lemma be_val_zeros n : be_val (zeros n) = 0.
Proof.
  induction n as [|n IH]; [done|]. unfold zeros in *. cbn [replicate be_val]. rewrite IH. lia.
Qed.

(** Invert a struct reader: name every field cut off, with its length and range. *)
Ltac invert_cuts H :=
  repeat match type of H with
  | context [cut ?n ?b] =>
      let E := fresh "E" in let a := fresh "a" in let r := fresh "r" in
      destruct (cut n b) as [[a r]|] eqn:E; cbn [mbind option_bind] in H; [|discriminate H];
      let Ha := fresh "Ha" in let Hr := fresh "Hr" in
      destruct (cut_ok n b a r ltac:(assumption) E) as [Ha Hr];
      apply cut_Some in E as [-> E]
  end.

(** Ranges of the fields an inverted reader produced. *)
Ltac solve_field_ranges :=
  repeat match goal with |- _ /\ _ => split end; try (split; assumption);
  match goal with |- ?P (le_val ?b) =>
    let Hb := fresh in pose proof (le_val_bounds b ltac:(assumption)) as Hb;
    match goal with E : length b = _ |- _ => rewrite E in Hb end; exact Hb end.

(** Re-encoding the integer fields an inverted reader produced. *)
Ltac rewrite_fields :=
  repeat match goal with |- context [le_bytes ?n (le_val ?b)] =>
    replace (le_bytes n (le_val b)) with b
      by (match goal with E : length b = n |- _ => rewrite <- E end; symmetry; apply le_bytes_val; assumption)
  end.

(** A reader that fails ran out of bytes. *)
Ltac solve_short E :=
  repeat match type of E with
  | context [cut ?n ?b] => destruct (cut n b) as [[? ?]|] eqn:?; cbn [mbind option_bind] in E
  end; try discriminate;
  repeat match goal with
  | H : cut _ _ = Some _ |- _ => apply cut_Some in H as [-> ?]
  | H : cut ?n ?b = None |- _ => unfold cut in H; destruct (Nat.ltb_spec (length b) n); [clear H|discriminate H]
  end; rewrite ?length_app; lia.

Lemma le_val_8 v : is_u64 v -> le_val (le_bytes 8 v) = v.
Proof. intros. by apply le_val_bytes. Qed.

Lemma le_val_4 v : is_u32 v -> le_val (le_bytes 4 v) = v.
Proof. intros. by apply le_val_bytes. Qed.

Lemma le_val_1 v : is_u8 v -> le_val (le_bytes 1 v) = v.
Proof. intros. by apply le_val_bytes. Qed.
