(* ===== verification/UInt256.v ===== *)
(** * 256-bit unsigned integers ([include/uint256.h])

    A [uint256_t] is its array of limbs, least significant first.  The C code fixes the number of
    limbs at four; the loops are recursions over the limb list, so the arithmetic lemmas are proved
    for any number of limbs and specialised to four.  [val] is the abstract integer and every
    operation is related to it, overflow and borrow flags included. *)
From S2P Require Import Prelude Bytes.

Abbreviation uint256 := (list Z).

(** ** Operations *)

Definition uint256_from_u64 (v : Z) : uint256 := [v; 0; 0; 0].

(** The carry loop of [uint256_add_u64]: [limbs[i]++] until one does not wrap to 0. *)
Fixpoint carry_limbs (l : uint256) : uint256 * bool :=
  match l with
  | [] => ([], true)
  | x :: r =>
      let x' := x +u64 1 in
      if negb (x' =? 0) then (x' :: r, false)
      else let '(r', o) := carry_limbs r in (x' :: r', o)
  end.

(** Result and overflow flag. *)
Definition uint256_add_u64 (b : uint256) (amount : Z) : uint256 * bool :=
  match b with
  | [] => ([], false)
  | x :: r =>
      let x' := x +u64 amount in
      if x' <? x then let '(r', o) := carry_limbs r in (x' :: r', o) else (x' :: r, false)
  end.

(** The full-adder loop of [uint256_add]; [carry] is the C variable (0 or 1). *)
Fixpoint add_limbs (a b : uint256) (carry : Z) : uint256 * Z :=
  match a, b with
  | x :: a', y :: b' =>
      let s := x +u64 (y +u64 carry) in
      let c := if negb (carry =? 0) then Z.b2z (s <=? x) else Z.b2z (s <? x) in
      let '(r, o) := add_limbs a' b' c in (s :: r, o)
  | _, _ => ([], carry)
  end.

Definition uint256_add (a b : uint256) : uint256 * bool :=
  let '(r, c) := add_limbs a b 0 in (r, 0 <? c).

(** The borrow loop of [uint256_subtract_u64]. *)
Fixpoint borrow_limbs (l : uint256) : uint256 * bool :=
  match l with
  | [] => ([], true)
  | x :: r =>
      if 0 <? x then (x -u64 1 :: r, false)
      else let '(r', o) := borrow_limbs r in (UINT64_MAX :: r', o)
  end.

Definition uint256_subtract_u64 (b : uint256) (amount : Z) : uint256 * bool :=
  match b with
  | [] => ([], false)
  | x :: r =>
      if amount <=? x then (x -u64 amount :: r, false)
      else
        let borrow := amount -u64 x in
        let '(r', o) := borrow_limbs r in (u64 (UINT64_MAX - borrow + 1) :: r', o)
  end.

(** Three-way comparison from the most significant limb: the first difference decides. *)
Fixpoint uint256_cmp (a b : uint256) : Z :=
  match a, b with
  | x :: a', y :: b' =>
      let c := uint256_cmp a' b' in
      if negb (c =? 0) then c else if y <? x then 1 else if x <? y then -1 else 0
  | _, _ => 0
  end.

Fixpoint sub_limbs (a b : uint256) (borrow : Z) : uint256 :=
  match a, b with
  | x :: a', y :: b' =>
      let d := x -u64 (y +u64 borrow) in
      let c := if negb (borrow =? 0) then Z.b2z (x <=? d) else Z.b2z (x <? d) in
      d :: sub_limbs a' b' c
  | _, _ => []
  end.

(** [false] (and [a] unchanged) on underflow. *)
Definition uint256_subtract (a b : uint256) : bool * uint256 :=
  if uint256_cmp a b <? 0 then (false, a) else (true, sub_limbs a b 0).

Definition uint256_is_zero (a : uint256) : bool := forallb (Z.eqb 0) a.

Definition be_combine (bs : list Z) : Z :=
  fold_left (fun v b => Z.lor (u64 (Z.shiftl v 8)) b) bs 0.

(** [limbs[0]] is read from the last eight bytes. *)
Definition uint256_from_be_bytes (bytes : list Z) : uint256 :=
  map (fun limb => be_combine (take 8 (drop ((3 - limb) * 8) bytes))) (seq 0 4).

Definition uint256_bitwise_not (a : uint256) : uint256 := map (fun x => u64 (Z.lnot x)) a.

(** [remainder << 1], each limb taking the top bit of the limb below; [low] is the incoming bit. *)
Fixpoint shl1_limbs (l : uint256) (low : Z) : uint256 :=
  match l with
  | [] => []
  | x :: r => Z.lor (u64 (Z.shiftl x 1)) low :: shl1_limbs r (Z.shiftr x 63)
  end.

Definition get_bit (a : uint256) (bit : nat) : Z :=
  Z.land (Z.shiftr (nth (bit / 64) a 0) (Z.of_nat (bit mod 64))) 1.

Definition set_bit (a : uint256) (bit : nat) : uint256 :=
  alter (fun x => Z.lor x (u64 (Z.shiftl 1 (Z.of_nat (bit mod 64))))) (bit / 64)%nat a.

(** The restoring-division loop, from bit [n - 1] down to bit 0. *)
Fixpoint divide_loop (n : nat) (num den q r : uint256) : uint256 * uint256 :=
  match n with
  | O => (q, r)
  | S bit =>
      let r1 := shl1_limbs r (get_bit num bit) in
      if 0 <=? uint256_cmp r1 den
      then divide_loop bit num den (set_bit q bit) (snd (uint256_subtract r1 den))
      else divide_loop bit num den q r1
  end.

Definition uint256_divide (num den : uint256) : option uint256 :=
  if uint256_is_zero den then None
  else Some (fst (divide_loop 256 num den (uint256_from_u64 0) (uint256_from_u64 0))).

(** One pass of the decimal conversion: limbs most significant first, remainder carried down. *)
Fixpoint div10_limbs (l : uint256) : uint256 * Z :=
  match l with
  | [] => ([], 0)
  | x :: r =>
      let '(q, rem) := div10_limbs r in
      let cur := Z.lor (Z.shiftl rem 64) x in
      (u64 (cur / 10) :: q, cur mod 10)
  end.

(** The digit loop shared by [uint256_serialize] and [Uint256ToDecimal]: digits least significant
    first, at most 79 of them ([sizeof(digits) - 1]). *)
Fixpoint digit_loop (fuel : nat) (tmp : uint256) (digits : list Z) : list Z :=
  match fuel with
  | O => digits
  | S f =>
      if uint256_is_zero tmp then digits
      else
        let '(q, rem) := div10_limbs tmp in
        if (length digits <? 79)%nat then digit_loop f q (digits ++ [48 + rem]) else digits
  end.

(** The characters written before the terminating NUL. *)
Definition uint256_serialize (value : uint256) : list Z :=
  rev (digit_loop 80 value []).

Definition Uint256ToDecimal (value : uint256) (outSize : nat) : list Z :=
  if (outSize =? 0)%nat then []
  else if uint256_is_zero value then (if (2 <=? outSize)%nat then [48] else [])
  else take (outSize - 1) (rev (digit_loop 80 value [])).

(** ** Abstract value and well-formedness *)

Definition B64 : Z := 2 ^ 64.

Fixpoint val (l : uint256) : Z :=
  match l with
  | [] => 0
  | x :: r => x + B64 * val r
  end.

Definition limbs_ok (l : uint256) : Prop := Forall is_u64 l.
Definition uint256_ok (a : uint256) : Prop := length a = 4%nat /\ limbs_ok a.

#[export] Instance uint256_ok_dec a : Decision (uint256_ok a).
Proof. unfold uint256_ok, limbs_ok; apply _. Defined.

(** Capacity of a limb list: [2^(64 n)]. *)
Definition cap (l : uint256) : Z := 2 ^ (64 * Z.of_nat (length l)).

Definition M256 : Z := 2 ^ 256.

Create HintDb u256.

Lemma cap_cons x l : cap (x :: l) = B64 * cap l.
Proof.
  unfold cap, B64. cbn [length]. rewrite Nat2Z.inj_succ, Z.mul_succ_r, Z.add_comm, Z.pow_add_r by lia.
  reflexivity.
Qed.

Lemma cap_pos l : 0 < cap l.
Proof. unfold cap. apply Z.pow_pos_nonneg; lia. Qed.

Lemma uint256_cap a : uint256_ok a -> cap a = M256.
Proof. intros [H _]. unfold cap. rewrite H. reflexivity. Qed.

Lemma limbs_ok_cons x l : limbs_ok (x :: l) <-> is_u64 x /\ limbs_ok l.
Proof. apply Forall_cons_iff. Qed.

Lemma val_bounds l : limbs_ok l -> 0 <= val l < cap l.
Proof.
  induction l as [|x l IH]; intros H.
  - unfold cap; cbn; lia.
  - apply limbs_ok_cons in H as [Hx Hl]. specialize (IH Hl). rewrite cap_cons. cbn [val].
    unfold is_u64 in Hx. unfold B64 in *. nia.
Qed.

Lemma uint256_val_bounds a : uint256_ok a -> 0 <= val a < M256.
Proof. intros H. rewrite <- (uint256_cap a H). apply val_bounds, H. Qed.

(** The representation is canonical: equal values, equal limbs. *)
Lemma val_inj a b : length a = length b -> limbs_ok a -> limbs_ok b -> val a = val b -> a = b.
Proof.
  revert b; induction a as [|x a IH]; intros [|y b] Hlen Ha Hb Hv; try discriminate; [done|].
  apply limbs_ok_cons in Ha as [Hx Ha]. apply limbs_ok_cons in Hb as [Hy Hb].
  cbn [val] in Hv. unfold is_u64 in *. unfold B64 in *.
  assert (x = y /\ val a = val b) as [-> Hv'] by nia.
  f_equal. apply IH; auto.
Qed.

Lemma uint256_val_inj a b : uint256_ok a -> uint256_ok b -> val a = val b -> a = b.
Proof. intros [? ?] [? ?]. apply val_inj; congruence. Qed.

(** ** Addition *)

Lemma carry_limbs_spec l :
  limbs_ok l ->
  let '(r, o) := carry_limbs l in
  length r = length l /\ limbs_ok r /\ val r = val l + 1 - Z.b2z o * cap l.
Proof.
  induction l as [|x l IH]; intros Hok; cbn -[Z.add u64]; [unfold cap; cbn; auto|].
  apply limbs_ok_cons in Hok as [Hx Hl]. specialize (IH Hl).
  assert (H1 : is_u64 1) by (unfold_cint; lia).
  pose proof (u64_range (x + 1)) as Hr.
  destruct (u64_add_wrap x 1 Hx H1) as [[E ?]|[E ?]]; rewrite E in *.
  - destruct (Z.eqb_spec (x + 1) 0); [unfold_cint; lia|].
    repeat split; [by apply limbs_ok_cons|]. cbn [Z.b2z val]. lia.
  - destruct (Z.eqb_spec (x + 1 - 2 ^ 64) 0); [|unfold_cint; lia].
    destruct (carry_limbs l) as [r o]. destruct IH as (Hlen & Hrok & Hv).
    repeat split; [cbn; congruence | by apply limbs_ok_cons|].
    rewrite cap_cons. cbn [val]. rewrite Hv. unfold B64. lia.
Qed.

Lemma add_u64_spec l amount :
  l <> [] -> limbs_ok l -> is_u64 amount ->
  let '(r, o) := uint256_add_u64 l amount in
  length r = length l /\ limbs_ok r /\ val r = val l + amount - Z.b2z o * cap l.
Proof.
  destruct l as [|x l]; [done|]. intros _ Hok Ha.
  apply limbs_ok_cons in Hok as [Hx Hl]. cbn [uint256_add_u64].
  pose proof (u64_range (x + amount)) as Hr.
  destruct (u64_add_wrap x amount Hx Ha) as [[E ?]|[E ?]]; rewrite E in *.
  - destruct (Z.ltb_spec (x + amount) x); [unfold_cint; lia|].
    repeat split; [by apply limbs_ok_cons|]. cbn [Z.b2z val]. lia.
  - destruct (Z.ltb_spec (x + amount - 2 ^ 64) x); [|unfold_cint; lia].
    pose proof (carry_limbs_spec l Hl) as IH. destruct (carry_limbs l) as [r o].
    destruct IH as (Hlen & Hrok & Hv).
    repeat split; [cbn; congruence | by apply limbs_ok_cons|].
    rewrite cap_cons. cbn [val]. rewrite Hv. unfold B64. lia.
Qed.

Lemma b2z_carry (c : Z) (p q : bool) :
  c = 0 \/ c = 1 -> (if negb (c =? 0) then Z.b2z p else Z.b2z q) = Z.b2z (if c =? 0 then q else p).
Proof. intros [-> | ->]; reflexivity. Qed.

(** One full-adder step: the carry test of the C code detects exactly the wrap. *)
Lemma add_step x y c :
  is_u64 x -> is_u64 y -> c = 0 \/ c = 1 ->
  let s := x +u64 (y +u64 c) in
  let c' := if negb (c =? 0) then Z.b2z (s <=? x) else Z.b2z (s <? x) in
  is_u64 s /\ (c' = 0 \/ c' = 1) /\ s + B64 * c' = x + y + c.
Proof.
  intros Hx Hy Hc s c'. split; [apply u64_range|].
  subst s c'. unfold B64. unfold_cint.
  destruct Hc as [-> | ->]; cbn [Z.eqb negb]; zcases; cbn [Z.b2z]; split; auto; zdiv.
Qed.

Lemma add_limbs_spec a b c :
  length a = length b -> limbs_ok a -> limbs_ok b -> c = 0 \/ c = 1 ->
  let '(r, o) := add_limbs a b c in
  length r = length a /\ limbs_ok r /\ (o = 0 \/ o = 1) /\ val r + o * cap a = val a + val b + c.
Proof.
  revert b c; induction a as [|x a IH]; intros [|y b] c Hlen Ha Hb Hc; try discriminate.
  - repeat split; auto. cbn. unfold cap; cbn. lia.
  - apply limbs_ok_cons in Ha as [Hx Ha]. apply limbs_ok_cons in Hb as [Hy Hb].
    destruct (add_step x y c Hx Hy Hc) as (Hs & Hc' & He). cbn [add_limbs].
    set (s := x +u64 (y +u64 c)) in *.
    set (c' := if negb (c =? 0) then Z.b2z (s <=? x) else Z.b2z (s <? x)) in *.
    specialize (IH b c' ltac:(by injection Hlen) Ha Hb Hc').
    destruct (add_limbs a b c') as [r o]. destruct IH as (Hl & Hr & Ho & Hv).
    repeat split; [cbn; congruence | by apply limbs_ok_cons | done |].
    rewrite cap_cons. cbn [val]. unfold B64 in *. nia.
Qed.

(** ** Comparison and subtraction *)

Lemma cmp_spec a b :
  length a = length b -> limbs_ok a -> limbs_ok b ->
  uint256_cmp a b = match val a ?= val b with Lt => -1 | Eq => 0 | Gt => 1 end.
Proof.
  revert b; induction a as [|x a IH]; intros [|y b] Hlen Ha Hb; try discriminate; [done|].
  apply limbs_ok_cons in Ha as [Hx Ha]. apply limbs_ok_cons in Hb as [Hy Hb].
  cbn [uint256_cmp val]. rewrite IH by (auto; by injection Hlen).
  unfold is_u64 in *. unfold B64.
  destruct (Z.compare_spec (val a) (val b)) as [E|E|E]; cbn [Z.eqb negb];
    destruct (Z.compare_spec (x + 2 ^ 64 * val a) (y + 2 ^ 64 * val b));
    zcases; try reflexivity; exfalso; nia.
Qed.

Lemma cmp_lt_iff a b : uint256_ok a -> uint256_ok b -> uint256_cmp a b < 0 <-> val a < val b.
Proof.
  intros [La Ha] [Lb Hb]. rewrite cmp_spec by congruence.
  destruct (Z.compare_spec (val a) (val b)); lia.
Qed.

Lemma cmp_le_iff a b : uint256_ok a -> uint256_ok b -> uint256_cmp a b <= 0 <-> val a <= val b.
Proof.
  intros [La Ha] [Lb Hb]. rewrite cmp_spec by congruence.
  destruct (Z.compare_spec (val a) (val b)); lia.
Qed.

Lemma sub_step x y c :
  is_u64 x -> is_u64 y -> c = 0 \/ c = 1 ->
  let d := x -u64 (y +u64 c) in
  let c' := if negb (c =? 0) then Z.b2z (x <=? d) else Z.b2z (x <? d) in
  is_u64 d /\ (c' = 0 \/ c' = 1) /\ d = x - y - c + B64 * c'.
Proof.
  intros Hx Hy Hc d c'. split; [apply u64_range|].
  subst d c'. unfold B64. unfold_cint.
  destruct Hc as [-> | ->]; cbn [Z.eqb negb]; zcases; cbn [Z.b2z]; split; auto; zdiv.
Qed.

Lemma sub_limbs_spec a b c :
  length a = length b -> limbs_ok a -> limbs_ok b -> c = 0 \/ c = 1 ->
  length (sub_limbs a b c) = length a /\ limbs_ok (sub_limbs a b c) /\
  exists o, (o = 0 \/ o = 1) /\ val (sub_limbs a b c) = val a - val b - c + o * cap a.
Proof.
  revert b c; induction a as [|x a IH]; intros [|y b] c Hlen Ha Hb Hc; try discriminate.
  - repeat split; auto. exists c. split; [done|]. cbn. unfold cap; cbn. lia.
  - apply limbs_ok_cons in Ha as [Hx Ha]. apply limbs_ok_cons in Hb as [Hy Hb].
    destruct (sub_step x y c Hx Hy Hc) as (Hs & Hc' & He). cbn [sub_limbs].
    set (d := x -u64 (y +u64 c)) in *.
    set (c' := if negb (c =? 0) then Z.b2z (x <=? d) else Z.b2z (x <? d)) in *.
    destruct (IH b c' ltac:(by injection Hlen) Ha Hb Hc') as (Hl & Hr & o & Ho & Hv).
    repeat split; [cbn; congruence | by apply limbs_ok_cons |].
    exists o. split; [done|]. rewrite cap_cons. cbn [val]. rewrite Hv, He. unfold B64. ring.
Qed.

Lemma borrow_limbs_spec l :
  limbs_ok l ->
  let '(r, o) := borrow_limbs l in
  length r = length l /\ limbs_ok r /\ val r = val l - 1 + Z.b2z o * cap l.
Proof.
  induction l as [|x l IH]; intros Hok; cbn -[Z.sub u64 UINT64_MAX]; [unfold cap; cbn; auto|].
  apply limbs_ok_cons in Hok as [Hx Hl]. specialize (IH Hl).
  destruct (Z.ltb_spec 0 x).
  - rewrite u64_small by (unfold_cint; lia).
    repeat split; [apply limbs_ok_cons; split; [unfold_cint; lia|done]|]. cbn [Z.b2z val]. lia.
  - destruct (borrow_limbs l) as [r o]. destruct IH as (Hlen & Hrok & Hv).
    repeat split; [cbn; congruence | apply limbs_ok_cons; split; [unfold_cint; lia|done]|].
    rewrite cap_cons. cbn [val]. rewrite Hv. unfold_cint. unfold B64. lia.
Qed.

Lemma subtract_u64_spec l amount :
  l <> [] -> limbs_ok l -> is_u64 amount ->
  let '(r, o) := uint256_subtract_u64 l amount in
  length r = length l /\ limbs_ok r /\ val r = val l - amount + Z.b2z o * cap l.
Proof.
  destruct l as [|x l]; [done|]. intros _ Hok Ha.
  apply limbs_ok_cons in Hok as [Hx Hl]. cbn [uint256_subtract_u64].
  destruct (Z.leb_spec amount x).
  - rewrite u64_small by (unfold_cint; lia).
    repeat split; [apply limbs_ok_cons; split; [unfold_cint; lia|done]|]. cbn [Z.b2z val]. lia.
  - pose proof (borrow_limbs_spec l Hl) as IH. destruct (borrow_limbs l) as [r o].
    destruct IH as (Hlen & Hrok & Hv).
    rewrite (u64_small (amount - x)) by (unfold_cint; lia).
    rewrite (u64_small (UINT64_MAX - _ + 1)) by (unfold_cint; lia).
    repeat split; [cbn; congruence | apply limbs_ok_cons; split; [unfold_cint; lia|done]|].
    rewrite cap_cons. cbn [val]. rewrite Hv. unfold_cint. unfold B64. lia.
Qed.

(** ** The interface to the rest of the development: operations on [uint256_ok] values *)

Lemma from_u64_ok v : is_u64 v -> uint256_ok (uint256_from_u64 v).
Proof. intros. split; [done|]. repeat constructor; unfold_cint; lia. Qed.

Lemma val_from_u64 v : val (uint256_from_u64 v) = v.
Proof. cbn. lia. Qed.

Lemma ok_nonnil a : uint256_ok a -> a <> [].
Proof. intros [H _] ->. discriminate. Qed.

Lemma uint256_add_u64_spec a amount :
  uint256_ok a -> is_u64 amount ->
  uint256_ok (fst (uint256_add_u64 a amount)) /\
  val (fst (uint256_add_u64 a amount)) = (val a + amount) mod M256 /\
  snd (uint256_add_u64 a amount) = (M256 <=? val a + amount).
Proof.
  intros Ha Hm. pose proof (add_u64_spec a amount (ok_nonnil a Ha) (proj2 Ha) Hm) as H.
  destruct (uint256_add_u64 a amount) as [r o]. destruct H as (Hl & Hr & Hv). cbn [fst snd].
  assert (Hok : uint256_ok r) by (split; [destruct Ha; congruence|done]).
  pose proof (uint256_val_bounds _ Ha). pose proof (uint256_val_bounds _ Hok).
  rewrite (uint256_cap a Ha) in Hv. split; [done|].
  assert (amount < M256) by (unfold is_u64, M256 in *; lia). unfold is_u64 in Hm.
  destruct o; cbn [Z.b2z] in Hv.
  - split; [|symmetry; apply Z.leb_le; lia].
    apply (Z.mod_unique _ _ 1); lia.
  - split; [|symmetry; apply Z.leb_gt; lia]. rewrite Z.mod_small; lia.
Qed.

Lemma uint256_add_spec a b :
  uint256_ok a -> uint256_ok b ->
  uint256_ok (fst (uint256_add a b)) /\
  val (fst (uint256_add a b)) = (val a + val b) mod M256 /\
  snd (uint256_add a b) = (M256 <=? val a + val b).
Proof.
  intros Ha Hb. pose proof (add_limbs_spec a b 0 ltac:(destruct Ha, Hb; congruence)
    (proj2 Ha) (proj2 Hb) (or_introl eq_refl)) as H. unfold uint256_add.
  destruct (add_limbs a b 0) as [r o]. destruct H as (Hl & Hr & Ho & Hv). cbn [fst snd].
  assert (Hok : uint256_ok r) by (split; [destruct Ha; congruence|done]).
  pose proof (uint256_val_bounds _ Ha). pose proof (uint256_val_bounds _ Hb).
  pose proof (uint256_val_bounds _ Hok).
  rewrite (uint256_cap a Ha) in Hv. split; [done|].
  destruct Ho as [-> | ->].
  - split; [|symmetry; apply Z.leb_gt; lia]. rewrite Z.mod_small; lia.
  - split; [|symmetry; apply Z.leb_le; lia].
    apply (Z.mod_unique _ _ 1); lia.
Qed.

Lemma uint256_subtract_spec a b :
  uint256_ok a -> uint256_ok b ->
  uint256_ok (snd (uint256_subtract a b)) /\
  fst (uint256_subtract a b) = (val b <=? val a) /\
  val (snd (uint256_subtract a b)) = (if val b <=? val a then val a - val b else val a).
Proof.
  intros Ha Hb. unfold uint256_subtract. pose proof (cmp_lt_iff a b Ha Hb) as Hlt.
  destruct (Z.ltb_spec (uint256_cmp a b) 0), (Z.leb_spec (val b) (val a)); try lia;
    cbn [fst snd]; [done|].
  destruct (sub_limbs_spec a b 0 ltac:(destruct Ha, Hb; congruence) (proj2 Ha) (proj2 Hb)
    (or_introl eq_refl)) as (Hl & Hr & o & Ho & Hv).
  assert (Hok : uint256_ok (sub_limbs a b 0)) by (split; [destruct Ha; congruence|done]).
  pose proof (uint256_val_bounds _ Ha). pose proof (uint256_val_bounds _ Hb).
  pose proof (uint256_val_bounds _ Hok).
  rewrite (uint256_cap a Ha) in Hv. repeat split; try apply Hok. lia.
Qed.

#[export] Hint Resolve from_u64_ok val_from_u64 : u256.

(** ** Zero test, complement and big-endian decoding *)

Lemma is_zero_spec l : limbs_ok l -> uint256_is_zero l = (val l =? 0).
Proof.
  induction l as [|x l IH]; intros H; [done|].
  apply limbs_ok_cons in H as [Hx Hl]. cbn [uint256_is_zero forallb val].
  fold (uint256_is_zero l). rewrite IH by done. pose proof (val_bounds l Hl).
  unfold is_u64 in Hx. unfold B64. zcases; cbn; try reflexivity; nia.
Qed.

Lemma lnot_u64 x : is_u64 x -> u64 (Z.lnot x) = UINT64_MAX - x.
Proof.
  intros. unfold u64, UINT64_MAX. replace (Z.lnot x) with (2 ^ 64 - 1 - x + -1 * 2 ^ 64)
    by (pose proof (Z.add_lnot_diag x); lia).
  rewrite Z.mod_add by lia. apply Z.mod_small. unfold is_u64 in *. lia.
Qed.

Lemma bitwise_not_spec l :
  limbs_ok l ->
  length (uint256_bitwise_not l) = length l /\ limbs_ok (uint256_bitwise_not l) /\
  val (uint256_bitwise_not l) = cap l - 1 - val l.
Proof.
  induction l as [|x l IH]; intros H; [repeat split; auto|].
  apply limbs_ok_cons in H as [Hx Hl]. destruct (IH Hl) as (Hlen & Hok & Hv).
  cbn [uint256_bitwise_not map]. fold (uint256_bitwise_not l). rewrite lnot_u64 by done.
  rewrite cap_cons. repeat split; [cbn; congruence | |].
  - apply limbs_ok_cons. split; [unfold_cint; lia|done].
  - cbn [val]. rewrite Hv. unfold UINT64_MAX, B64. lia.
Qed.

(** [(v << 8) | b] is [256 v + b] while it fits. *)
Lemma shl_lor_byte v b :
  0 <= v < 2 ^ 56 -> is_u8 b -> Z.lor (u64 (Z.shiftl v 8)) b = v * 256 + b.
Proof.
  intros Hv Hb. rewrite u64_small by (rewrite Z.shiftl_mul_pow2 by lia; unfold_cint; lia).
  rewrite lor_shiftl_add by (lia || apply Hb). reflexivity.
Qed.

Lemma be_combine_acc bs v :
  bytes_ok bs -> 0 <= v -> v * 256 ^ Z.of_nat (length bs) + be_val bs < 2 ^ 64 ->
  fold_left (fun v b => Z.lor (u64 (Z.shiftl v 8)) b) bs v = v * 256 ^ Z.of_nat (length bs) + be_val bs.
Proof.
  revert v; induction bs as [|b bs IH]; intros v H Hv Hlt; cbn [fold_left be_val length] in *; [lia|].
  apply Forall_cons_iff in H as [Hb H]. pose proof (be_val_bounds bs H) as Hbv.
  rewrite Nat2Z.inj_succ, Z.pow_succ_r in * by lia.
  assert (0 < 256 ^ Z.of_nat (length bs)) by (apply Z.pow_pos_nonneg; lia).
  assert (0 <= v < 2 ^ 56) by (unfold is_u8 in Hb; nia).
  rewrite shl_lor_byte by done. unfold is_u8 in Hb.
  rewrite IH by (done || nia). ring.
Qed.

Lemma be_combine_spec bs :
  bytes_ok bs -> (length bs <= 8)%nat -> be_combine bs = be_val bs.
Proof.
  intros H Hl. unfold be_combine. rewrite be_combine_acc; [lia | done | lia |].
  pose proof (be_val_bounds bs H).
  assert (256 ^ Z.of_nat (length bs) <= 2 ^ 64)
    by (change (2 ^ 64) with (256 ^ 8); apply Z.pow_le_mono_r; lia).
  lia.
Qed.

(** Reading 32 big-endian bytes yields exactly the number they denote. *)
Lemma from_be_bytes_spec bs :
  length bs = 32%nat -> bytes_ok bs ->
  uint256_ok (uint256_from_be_bytes bs) /\ val (uint256_from_be_bytes bs) = be_val bs.
Proof.
  intros Hl Hok. unfold uint256_from_be_bytes. cbn [seq map Nat.sub Nat.mul Nat.add].
  do 4 rewrite be_combine_spec by (auto with bytes; rewrite length_take, length_drop; lia).
  assert (Hchunk : forall k, is_u64 (be_val (take 8 (drop k bs)))).
  { intros k. pose proof (be_val_bounds (take 8 (drop k bs)) ltac:(auto with bytes)) as Hb.
    assert (256 ^ Z.of_nat (length (take 8 (drop k bs))) <= 2 ^ 64)
      by (change (2 ^ 64) with (256 ^ 8); apply Z.pow_le_mono_r; rewrite ?length_take, ?length_drop; lia).
    unfold is_u64. lia. }
  split; [split; [done | repeat constructor; apply Hchunk]|].
  replace bs with (take 8 (drop 0 bs) ++ take 8 (drop 8 bs) ++ take 8 (drop 16 bs) ++ take 8 (drop 24 bs))
    at 5.
  2:{ do 33 (destruct bs as [|? bs]; [discriminate Hl || reflexivity|]). discriminate Hl. }
  rewrite !be_val_app, !length_app, !length_take, !length_drop, Hl.
  set (x0 := be_val (take 8 (drop 0 bs))). set (x1 := be_val (take 8 (drop 8 bs))).
  set (x2 := be_val (take 8 (drop 16 bs))). set (x3 := be_val (take 8 (drop 24 bs))).
  clearbody x0 x1 x2 x3. clear.
  repeat match goal with |- context [256 ^ Z.of_nat ?e] =>
    let v := eval vm_compute in (256 ^ Z.of_nat e) in change (256 ^ Z.of_nat e) with v end.
  cbn [val]. unfold B64. lia.
Qed.

(** ** Division *)

Lemma u64_shl1 x : is_u64 x -> u64 (Z.shiftl x 1) = 2 * (x mod 2 ^ 63).
Proof. intros. rewrite Z.shiftl_mul_pow2 by lia. unfold_cint. change (2 ^ 1) with 2. zdiv. Qed.

Lemma lor_low_bit x low : low = 0 \/ low = 1 -> Z.lor (2 * x) low = 2 * x + low.
Proof.
  intros H. replace (2 * x) with (Z.shiftl x 1) by (rewrite Z.shiftl_mul_pow2; lia).
  rewrite lor_shiftl_add by lia. rewrite Z.shiftl_mul_pow2; lia.
Qed.

Lemma shl1_limbs_spec l low :
  limbs_ok l -> low = 0 \/ low = 1 ->
  length (shl1_limbs l low) = length l /\ limbs_ok (shl1_limbs l low) /\
  exists o, 0 <= o /\ val (shl1_limbs l low) = 2 * val l + low - o * cap l.
Proof.
  revert low; induction l as [|x l IH]; intros low H Hlow; cbn [shl1_limbs].
  - repeat split; auto. exists low. unfold cap; cbn. lia.
  - apply limbs_ok_cons in H as [Hx Hl].
    assert (Hhi : Z.shiftr x 63 = 0 \/ Z.shiftr x 63 = 1).
    { rewrite Z.shiftr_div_pow2 by lia. unfold_cint. zdiv. }
    destruct (IH _ Hl Hhi) as (Hlen & Hok & o & Ho & Hv).
    rewrite u64_shl1, lor_low_bit by done. repeat split; [cbn; congruence| |].
    + apply limbs_ok_cons. split; [|done]. unfold_cint. change (2 ^ 63) with 9223372036854775808. zdiv.
    + exists o. split; [done|]. rewrite cap_cons. cbn [val]. rewrite Hv.
      rewrite Z.shiftr_div_pow2 by lia. unfold B64. pose proof (Z.div_mod x (2 ^ 63)). lia.
Qed.

Lemma nth_limb_testbit (l : uint256) (i : nat) (b : Z) :
  limbs_ok l -> 0 <= b < 64 ->
  Z.testbit (nth i l 0) b = Z.testbit (val l) (64 * Z.of_nat i + b).
Proof.
  revert i; induction l as [|x l IH]; intros i H Hb; cbn [nth val].
  - destruct i; by rewrite !Z.bits_0.
  - apply limbs_ok_cons in H as [Hx Hl].
    assert (E : x + B64 * val l = Z.lor (Z.shiftl (val l) 64) x).
    { rewrite lor_shiftl_add by (lia || apply Hx). unfold B64. lia. }
    rewrite E, Z.lor_spec. destruct i as [|i].
    + rewrite Z.shiftl_spec_low by lia. f_equal; lia.
    + rewrite IH by done. rewrite Z.shiftl_spec by lia.
      rewrite (testbit_above x 64) by (apply Hx || lia). rewrite orb_false_r. f_equal; lia.
Qed.

Lemma bit_split bit :
  Z.of_nat bit = 64 * Z.of_nat (bit / 64) + Z.of_nat (bit mod 64) /\
  0 <= Z.of_nat (bit mod 64) < 64.
Proof.
  pose proof (Nat.div_mod_eq bit 64). pose proof (Nat.mod_upper_bound bit 64). lia.
Qed.

Lemma get_bit_spec l bit : limbs_ok l -> get_bit l bit = Z.b2z (Z.testbit (val l) (Z.of_nat bit)).
Proof.
  intros H. unfold get_bit. change 1 with (Z.ones 1). rewrite Z.land_ones by lia.
  rewrite <- Z.bit0_mod, Z.shiftr_spec by lia.
  destruct (bit_split bit) as [E Hb]. rewrite nth_limb_testbit by done.
  do 2 f_equal. lia.
Qed.

Lemma shiftr_step x k :
  0 <= k -> Z.shiftr x k = 2 * Z.shiftr x (k + 1) + Z.b2z (Z.testbit x k).
Proof.
  intros Hk. rewrite <- Z.shiftr_shiftr by lia.
  rewrite (Z.shiftr_div_pow2 _ 1), Z.testbit_spec', (Z.shiftr_div_pow2 x k) by lia.
  change (2 ^ 1) with 2. pose proof (Z.div_mod (x / 2 ^ k) 2). lia.
Qed.

(** Setting a clear bit adds its weight. *)
Lemma set_bit_spec q bit :
  limbs_ok q -> (bit / 64 < length q)%nat -> Z.testbit (val q) (Z.of_nat bit) = false ->
  length (set_bit q bit) = length q /\ limbs_ok (set_bit q bit) /\
  val (set_bit q bit) = val q + 2 ^ Z.of_nat bit.
Proof.
  intros Hok Hlt Hbit. unfold set_bit. destruct (bit_split bit) as [Es Hbb].
  assert (E : Z.testbit (nth (bit / 64) q 0) (Z.of_nat (bit mod 64)) = false).
  { rewrite nth_limb_testbit by done. rewrite <- Hbit. f_equal. lia. }
  assert (Hb : (bit mod 64 < 64)%nat) by lia.
  assert (Hpow : 2 ^ Z.of_nat bit = B64 ^ Z.of_nat (bit / 64) * 2 ^ Z.of_nat (bit mod 64)).
  { unfold B64. rewrite <- Z.pow_mul_r, <- Z.pow_add_r by lia. f_equal. lia. }
  rewrite Hpow. clear Hpow Hbit Es Hbb. generalize dependent (bit mod 64)%nat.
  generalize dependent (bit / 64)%nat. clear bit.
  induction q as [|x q IH]; intros i Hi b E Hb; [cbn in Hi; lia|].
  apply limbs_ok_cons in Hok as [Hx Hq]. destruct i as [|i]; cbn [nth] in E.
  - change (alter ?f 0%nat (x :: q)) with (f x :: q).
    rewrite Z.shiftl_1_l. assert (0 < 2 ^ Z.of_nat b) by (apply Z.pow_pos_nonneg; lia).
    assert (2 ^ Z.of_nat b < 2 ^ 64) by (apply Z.pow_lt_mono_r; lia).
    rewrite u64_small by (unfold is_u64; lia).
    assert (El : Z.lor x (2 ^ Z.of_nat b) = x + 2 ^ Z.of_nat b).
    { pose proof (Z.add_lor_land x (2 ^ Z.of_nat b)) as H1.
      replace (Z.land x (2 ^ Z.of_nat b)) with 0 in H1; [lia|]. symmetry.
      apply Z.bits_inj'. intros n Hn. rewrite Z.land_spec, Z.bits_0, Z.pow2_bits_eqb by lia.
      destruct (Z.eqb_spec (Z.of_nat b) n) as [<-|]; [by rewrite E|apply andb_false_r]. }
    repeat split; [|cbn [val]; rewrite El; cbn; lia].
    apply limbs_ok_cons. split; [|done]. split; [rewrite El; unfold is_u64 in Hx; lia|].
    destruct (Z.eq_dec (Z.lor x (2 ^ Z.of_nat b)) 0) as [->|]; [lia|].
    apply Z.log2_lt_pow2; [rewrite El; unfold is_u64 in Hx; lia|].
    rewrite Z.log2_lor by (unfold is_u64 in Hx; lia). rewrite Z.log2_pow2 by lia.
    apply Z.max_lub_lt; [|lia]. destruct (Z.eq_dec x 0) as [->|]; [cbn; lia|].
    apply Z.log2_lt_pow2; unfold is_u64 in Hx; lia.
  - change (alter ?f (S i) (x :: q)) with (x :: alter f i q).
    destruct (IH Hq i ltac:(cbn in Hi; lia) b E Hb) as (Hl & Ho & Hv).
    repeat split; [cbn; congruence | by apply limbs_ok_cons |].
    cbn [val]. rewrite Hv. rewrite Nat2Z.inj_succ, Z.pow_succ_r by lia. ring.
Qed.

(** Loop invariant of the long division.  With [n] bits left the quotient is [Q * 2^n], and the
    bits already consumed, [num >> n], equal [Q * den + r] with [r < den].  The remainder is at
    most the consumed prefix of the numerator, so shifting it never loses its top bit. *)
Definition div_inv (n : nat) (num den q r : uint256) : Prop :=
  uint256_ok q /\ uint256_ok r /\ 0 <= val r < val den /\
  exists Q, 0 <= Q /\ val q = Q * 2 ^ Z.of_nat n /\
            Z.shiftr (val num) (Z.of_nat n) = Q * val den + val r.

Lemma div_shift bit num den q r :
  uint256_ok num -> uint256_ok den -> div_inv (S bit) num den q r ->
  let r1 := shl1_limbs r (get_bit num bit) in
  uint256_ok r1 /\ val r1 = 2 * val r + Z.b2z (Z.testbit (val num) (Z.of_nat bit)).
Proof.
  intros Hnum Hden (Hq & Hr & Hrem & Q & HQ & Eq & Einv) r1. subst r1.
  rewrite get_bit_spec by apply Hnum. set (b := Z.testbit _ _).
  destruct (shl1_limbs_spec r (Z.b2z b) (proj2 Hr) ltac:(destruct b; auto)) as (Hl & Hlo & o & Ho & Hv).
  rewrite (uint256_cap r Hr) in Hv.
  assert (Hr1 : uint256_ok (shl1_limbs r (Z.b2z b))) by (split; [destruct Hr; congruence|done]).
  split; [done|]. pose proof (uint256_val_bounds _ Hr1). pose proof (uint256_val_bounds _ Hnum).
  assert (Hpre : Z.shiftr (val num) (Z.of_nat bit) < M256).
  { rewrite Z.shiftr_div_pow2 by lia. apply Z.div_lt_upper_bound; [lia|].
    assert (1 <= 2 ^ Z.of_nat bit) by (apply (Z.pow_le_mono_r 2 0); lia). nia. }
  rewrite shiftr_step in Hpre by lia. replace (Z.of_nat bit + 1) with (Z.of_nat (S bit)) in Hpre by lia.
  fold b in Hpre. rewrite Einv in Hpre. assert (0 <= Q * val den) by nia.
  assert (o = 0) by nia. subst o. lia.
Qed.

Lemma div_inv_step bit num den q r :
  (bit < 256)%nat -> uint256_ok num -> uint256_ok den -> div_inv (S bit) num den q r ->
  let r1 := shl1_limbs r (get_bit num bit) in
  if 0 <=? uint256_cmp r1 den
  then div_inv bit num den (set_bit q bit) (snd (uint256_subtract r1 den))
  else div_inv bit num den q r1.
Proof.
  intros Hbit Hnum Hden Hinv. destruct (div_shift bit num den q r Hnum Hden Hinv) as [Hr1 Ev].
  cbv zeta. set (r1 := shl1_limbs r (get_bit num bit)) in *. clearbody r1.
  destruct Hinv as (Hq & _ & Hrem & Q & HQ & Eq & Einv).
  pose proof (shiftr_step (val num) (Z.of_nat bit) ltac:(lia)) as Hs.
  rewrite Nat2Z.inj_succ, Z.pow_succ_r in Eq by lia.
  replace (Z.of_nat bit + 1) with (Z.of_nat (S bit)) in Hs by lia. rewrite Einv in Hs.
  assert (Hb : 0 <= Z.b2z (Z.testbit (val num) (Z.of_nat bit)) <= 1) by (destruct (Z.testbit _ _); cbn; lia).
  set (b := Z.b2z _) in *. clearbody b. pose proof (uint256_val_bounds _ Hr1).
  pose proof (cmp_lt_iff r1 den Hr1 Hden) as Hc.
  destruct (Z.leb_spec 0 (uint256_cmp r1 den)).
  - destruct (uint256_subtract_spec r1 den Hr1 Hden) as (Hs1 & _ & Hs3).
    rewrite (proj2 (Z.leb_le (val den) (val r1))) in Hs3 by lia.
    destruct (set_bit_spec q bit (proj2 Hq)) as (Sl & So & Sv).
    { rewrite (proj1 Hq). apply Nat.Div0.div_lt_upper_bound; lia. }
    { rewrite Eq. replace (Q * (2 * 2 ^ Z.of_nat bit)) with (Q * 2 * 2 ^ Z.of_nat bit) by ring.
      rewrite Z.mul_pow2_bits, Z.sub_diag, Z.mul_comm by lia. apply Z.testbit_even_0. }
    split; [split; [destruct Hq; congruence|done]|]. split; [done|].
    split; [lia|]. exists (2 * Q + 1). split; [lia|]. split; [rewrite Sv, Eq; ring|lia].
  - split; [done|]. split; [done|]. split; [lia|].
    exists (2 * Q). split; [lia|]. split; [rewrite Eq; ring|lia].
Qed.

Lemma divide_loop_spec n num den q r :
  (n <= 256)%nat -> uint256_ok num -> uint256_ok den -> div_inv n num den q r ->
  div_inv 0 num den (fst (divide_loop n num den q r)) (snd (divide_loop n num den q r)).
Proof.
  revert q r; induction n as [|bit IH]; intros q r Hn Hnum Hden Hinv; cbn [divide_loop]; [done|].
  pose proof (div_inv_step bit num den q r ltac:(lia) Hnum Hden Hinv) as Hs. cbv zeta in Hs.
  destruct (0 <=? _); apply IH; auto; lia.
Qed.

Lemma uint256_divide_spec num den :
  uint256_ok num -> uint256_ok den -> 0 < val den ->
  exists q, uint256_divide num den = Some q /\ uint256_ok q /\ val q = val num / val den.
Proof.
  intros Hnum Hden Hpos. unfold uint256_divide.
  rewrite is_zero_spec by apply Hden. destruct (Z.eqb_spec (val den) 0); [lia|].
  eexists; split; [reflexivity|].
  assert (H0 : uint256_ok (uint256_from_u64 0)) by (apply from_u64_ok; unfold_cint; lia).
  destruct (divide_loop_spec 256 num den (uint256_from_u64 0) (uint256_from_u64 0))
    as (Hq & Hr & Hrem & Q & HQ & Eq & Einv); auto.
  { split; [done|]. split; [done|]. split; [cbn; lia|]. exists 0. rewrite val_from_u64.
    split; [lia|]. split; [lia|]. pose proof (uint256_val_bounds _ Hnum).
    rewrite Z.shiftr_div_pow2 by lia. rewrite Z.div_small by (unfold M256 in *; lia). lia. }
  split; [done|]. revert Hrem Eq Einv. generalize (divide_loop 256 num den (uint256_from_u64 0) (uint256_from_u64 0)).
  intros [q r] Hrem Eq Einv. cbn [fst snd] in *. rewrite Z.shiftr_0_r in Einv.
  change (2 ^ Z.of_nat 0) with 1 in Eq. apply (Z.div_unique _ _ _ (val r)); lia.
Qed.

(** ** Decimal conversion *)

Lemma div10_limbs_spec l :
  limbs_ok l ->
  length (fst (div10_limbs l)) = length l /\ limbs_ok (fst (div10_limbs l)) /\
  val (fst (div10_limbs l)) = val l / 10 /\ snd (div10_limbs l) = val l mod 10.
Proof.
  induction l as [|x l IH]; intros H; [repeat split; auto|].
  apply limbs_ok_cons in H as [Hx Hl]. specialize (IH Hl). cbn [div10_limbs].
  destruct (div10_limbs l) as [q rem]. cbn [fst snd] in *. destruct IH as (Hlen & Hok & Hq & Hr).
  pose proof (val_bounds l Hl).
  assert (Hrem : 0 <= rem < 10) by (rewrite Hr; apply Z.mod_pos_bound; lia).
  rewrite lor_shiftl_add by (lia || apply Hx).
  assert (Hcur : is_u64 ((rem * 2 ^ 64 + x) / 10)) by (unfold_cint; zdiv).
  rewrite u64_small by done. repeat split; [cbn; congruence | by apply limbs_ok_cons | |].
  - cbn [val]. rewrite Hq. unfold B64. clear Hcur Hq Hlen Hok. rewrite Hr. zdiv.
  - cbn [val]. rewrite Hr. unfold B64. clear. zdiv.
Qed.

(** The number a string of ASCII digits denotes, most significant digit first. *)
Fixpoint dec_val_lsf (ds : list Z) : Z :=
  match ds with
  | [] => 0
  | d :: r => (d - 48) + 10 * dec_val_lsf r
  end.

Definition dec_val (s : list Z) : Z := dec_val_lsf (rev s).
Definition is_digit (c : Z) : Prop := 48 <= c <= 57.

Lemma dec_val_lsf_app a b :
  dec_val_lsf (a ++ b) = dec_val_lsf a + 10 ^ Z.of_nat (length a) * dec_val_lsf b.
Proof.
  induction a as [|x a IH]; cbn [dec_val_lsf app length]; [lia|].
  rewrite IH, Nat2Z.inj_succ, Z.pow_succ_r by lia. ring.
Qed.

(** [k] bounds the number of digits still to come. *)
Lemma digit_loop_spec k fuel tmp digits :
  limbs_ok tmp -> val tmp < 10 ^ Z.of_nat k -> (k < fuel)%nat -> (length digits + k <= 79)%nat ->
  exists ds, digit_loop fuel tmp digits = digits ++ ds /\ (length ds <= k)%nat /\
    dec_val_lsf ds = val tmp /\ Forall is_digit ds /\
    (0 < val tmp -> exists ds' d, ds = ds' ++ [d] /\ 49 <= d).
Proof.
  revert fuel tmp digits; induction k as [|k IH]; intros fuel tmp digits Hok Hlt Hf Hlen;
    (destruct fuel as [|fuel]; [lia|]); cbn [digit_loop]; rewrite is_zero_spec by done;
    pose proof (val_bounds tmp Hok); destruct (Z.eqb_spec (val tmp) 0).
  1,3: exists []; rewrite app_nil_r; cbn; repeat split; auto; lia.
  1: cbn in Hlt; lia.
  destruct (div10_limbs_spec tmp Hok) as (Hl & Hqok & Hq & Hr). destruct (div10_limbs tmp) as [q rem].
  cbn [fst snd] in *. destruct (Nat.ltb_spec (length digits) 79); [|lia].
  rewrite Nat2Z.inj_succ, Z.pow_succ_r in Hlt by lia.
  destruct (IH fuel q (digits ++ [48 + rem]) Hqok) as (ds & E & Hlds & Hv & Hd & Hlead); try lia.
  { rewrite Hq. zdiv. }
  { rewrite length_app. cbn. lia. }
  assert (0 <= rem < 10) by (rewrite Hr; apply Z.mod_pos_bound; lia).
  exists ((48 + rem) :: ds). rewrite E, <- app_assoc. split; [done|]. split; [cbn; lia|].
  split; [cbn [dec_val_lsf]; rewrite Hv, Hq, Hr; zdiv|].
  split; [constructor; [unfold is_digit; lia|done]|]. intros _.
  destruct (Z.lt_ge_cases 0 (val q)) as [Hpos|Hz].
  - destruct (Hlead Hpos) as (ds' & d & -> & Hd9). exists ((48 + rem) :: ds'), d. done.
  - pose proof (val_bounds q Hqok). exists [], (48 + rem).
    assert (ds = []) as ->; [|split; [done|]; rewrite Hr, Z.mod_small; zdiv].
    assert (E' : digit_loop fuel q (digits ++ [48 + rem]) = digits ++ [48 + rem]).
    { destruct fuel; [done|]. cbn [digit_loop]. rewrite is_zero_spec by done.
      replace (val q) with 0 by lia. done. }
    rewrite E' in E. apply (f_equal length) in E. rewrite !length_app in E.
    destruct ds; [done|]. cbn in E. lia.
Qed.

Lemma digits_of_ok a :
  uint256_ok a ->
  exists ds, digit_loop 80 a [] = ds /\ (length ds <= 78)%nat /\ dec_val_lsf ds = val a /\
    Forall is_digit ds /\ (0 < val a -> exists ds' d, ds = ds' ++ [d] /\ 49 <= d).
Proof.
  intros Ha. pose proof (uint256_val_bounds a Ha).
  assert (M256 < 10 ^ Z.of_nat 78) by (vm_compute; reflexivity).
  destruct (digit_loop_spec 78 80 a [] (proj2 Ha)) as (ds & E & Hl & Hv & Hd & Hlead);
    [lia | lia | cbn; lia |]. exists ds. auto.
Qed.

(** ** Properties *)

(** Both additions compute [a + b] modulo [2^256] on well-formed limbs, keep the limbs
    well-formed, and raise the overflow flag exactly when the exact sum does not fit. *)
Theorem uint256_addition_correct (a b : uint256) (amount : Z) :
  uint256_ok a -> uint256_ok b -> is_u64 amount ->
  (let '(r, o) := uint256_add a b in
   uint256_ok r /\ val r = (val a + val b) mod M256 /\ o = (M256 <=? val a + val b)) /\
  (let '(r, o) := uint256_add_u64 a amount in
   uint256_ok r /\ val r = (val a + amount) mod M256 /\ o = (M256 <=? val a + amount)).
Proof.
  intros Ha Hb Hm.
  pose proof (uint256_add_spec a b Ha Hb) as H1. pose proof (uint256_add_u64_spec a amount Ha Hm) as H2.
  destruct (uint256_add a b), (uint256_add_u64 a amount). auto.
Qed.

(** Ripple through every limb: [2^256 - 1] plus one overflows to zero. *)
Lemma uint256_addition_correct_witness :
  let m := [UINT64_MAX; UINT64_MAX; UINT64_MAX; UINT64_MAX] in
  (let '(r, o) := uint256_add m (uint256_from_u64 1) in
   uint256_ok r /\ val r = (val m + val (uint256_from_u64 1)) mod M256 /\ o = (M256 <=? val m + val (uint256_from_u64 1))) /\
  (let '(r, o) := uint256_add_u64 m 1 in
   uint256_ok r /\ val r = (val m + 1) mod M256 /\ o = (M256 <=? val m + 1)).
Proof.
  apply (uint256_addition_correct [UINT64_MAX; UINT64_MAX; UINT64_MAX; UINT64_MAX] (uint256_from_u64 1) 1).
  - vm_decide.
  - vm_decide.
  - vm_decide.
Defined.

(** [uint256_subtract] refuses (and leaves its operand alone) exactly when the result would be
    negative, otherwise computes the exact difference; [uint256_cmp] is the order of the values;
    [uint256_subtract_u64] computes the difference modulo [2^256] with its borrow flag. *)
Theorem uint256_subtraction_correct (a b : uint256) (amount : Z) :
  uint256_ok a -> uint256_ok b -> is_u64 amount ->
  (uint256_cmp a b = match val a ?= val b with Lt => -1 | Eq => 0 | Gt => 1 end) /\
  (let '(ok, r) := uint256_subtract a b in
   uint256_ok r /\ ok = (val b <=? val a) /\
   (ok = true -> val r = val a - val b) /\ (ok = false -> r = a)) /\
  (let '(r, under) := uint256_subtract_u64 a amount in
   uint256_ok r /\ val r = val a - amount + Z.b2z under * M256 /\ under = (val a <? amount)).
Proof.
  intros Ha Hb Hm. split; [apply cmp_spec; [destruct Ha, Hb; congruence|apply Ha|apply Hb]|]. split.
  - pose proof (uint256_subtract_spec a b Ha Hb) as (H1 & H2 & H3).
    destruct (uint256_subtract a b) as [ok r] eqn:E. cbn [fst snd] in *. subst ok.
    split; [done|]. split; [done|]. split; [intros Ht; by rewrite Ht in H3|].
    intros Hf. unfold uint256_subtract in E. destruct (uint256_cmp a b <? 0); congruence.
  - pose proof (subtract_u64_spec a amount (ok_nonnil a Ha) (proj2 Ha) Hm) as H.
    destruct (uint256_subtract_u64 a amount) as [r u]. destruct H as (Hl & Hr & Hv).
    assert (Hok : uint256_ok r) by (split; [destruct Ha; congruence|done]).
    pose proof (uint256_val_bounds _ Ha). pose proof (uint256_val_bounds _ Hok).
    rewrite (uint256_cap a Ha) in Hv. split; [done|]. split; [done|].
    unfold is_u64 in Hm. destruct u; cbn [Z.b2z] in Hv; symmetry; [apply Z.ltb_lt|apply Z.ltb_ge]; lia.
Qed.

Lemma uint256_subtraction_correct_witness :
  let a := [0; 0; 0; 1] in let b := uint256_from_u64 1 in
  (uint256_cmp a b = match val a ?= val b with Lt => -1 | Eq => 0 | Gt => 1 end) /\
  (let '(ok, r) := uint256_subtract a b in
   uint256_ok r /\ ok = (val b <=? val a) /\
   (ok = true -> val r = val a - val b) /\ (ok = false -> r = a)) /\
  (let '(r, under) := uint256_subtract_u64 a 7 in
   uint256_ok r /\ val r = val a - 7 + Z.b2z under * M256 /\ under = (val a <? 7)).
Proof.
  apply (uint256_subtraction_correct [0; 0; 0; 1] (uint256_from_u64 1) 7).
  - vm_decide.
  - vm_decide.
  - vm_decide.
Defined.

(** The 256-step restoring division returns the exact quotient for every non-zero
    denominator -- also above [2^255], where a shifted remainder might be feared to lose its top
    bit -- and refuses a zero denominator. *)
Theorem uint256_divide_correct (num den : uint256) :
  uint256_ok num -> uint256_ok den ->
  match uint256_divide num den with
  | None => val den = 0
  | Some q => val den <> 0 /\ uint256_ok q /\ val q = val num / val den
  end.
Proof.
  intros Hn Hd. pose proof (uint256_val_bounds den Hd). destruct (Z.eq_dec (val den) 0) as [E|E].
  - unfold uint256_divide. rewrite is_zero_spec by apply Hd. by rewrite E.
  - destruct (uint256_divide_spec num den Hn Hd ltac:(lia)) as (q & -> & Hq & Hv). auto.
Qed.

Lemma uint256_divide_correct_witness :
  let n := [UINT64_MAX; UINT64_MAX; UINT64_MAX; UINT64_MAX] in let d := [1; 0; 0; 2 ^ 63] in
  uint256_divide n d = Some (uint256_from_u64 1) /\
  match uint256_divide n d with
  | None => val d = 0
  | Some q => val d <> 0 /\ uint256_ok q /\ val q = val n / val d
  end.
Proof.
  split; [vm_compute; reflexivity|].
  apply (uint256_divide_correct [UINT64_MAX; UINT64_MAX; UINT64_MAX; UINT64_MAX] [1; 0; 0; 2 ^ 63]);
    vm_decide.
Defined.

(** The printed decimal is the value: [uint256_serialize] emits only digits, at most 78 of
    them, with no leading zero, and they denote [val a]; [Uint256ToDecimal] prints the same string
    for non-zero values and ["0"] for zero whenever the buffer holds 79 characters and the NUL. *)
Theorem uint256_decimal_correct (a : uint256) (outSize : nat) :
  uint256_ok a -> (80 <= outSize)%nat ->
  (length (uint256_serialize a) <= 78)%nat /\ Forall is_digit (uint256_serialize a) /\
  dec_val (uint256_serialize a) = val a /\
  (val a <> 0 -> exists d r, uint256_serialize a = d :: r /\ 49 <= d) /\
  Uint256ToDecimal a outSize = (if val a =? 0 then [48] else uint256_serialize a).
Proof.
  intros Ha Hs. destruct (digits_of_ok a Ha) as (ds & E & Hl & Hv & Hd & Hlead).
  pose proof (uint256_val_bounds a Ha).
  unfold uint256_serialize, Uint256ToDecimal, dec_val. rewrite E, rev_involutive, length_rev.
  repeat split; auto.
  - by apply Forall_rev.
  - intros Hnz. destruct (Hlead ltac:(lia)) as (ds' & d & -> & Hd9).
    exists d, (rev ds'). split; [by rewrite rev_app_distr|done].
  - destruct (Nat.eqb_spec outSize 0); [lia|]. rewrite is_zero_spec by apply Ha.
    destruct (Z.eqb_spec (val a) 0); [destruct (Nat.leb_spec 2 outSize); [done|lia]|].
    rewrite take_ge; [done|]. rewrite length_rev. lia.
Qed.

Lemma uint256_decimal_correct_witness :
  let a := [0; 1; 0; 0] in
  (length (uint256_serialize a) <= 78)%nat /\ Forall is_digit (uint256_serialize a) /\
  dec_val (uint256_serialize a) = val a /\
  (val a <> 0 -> exists d r, uint256_serialize a = d :: r /\ 49 <= d) /\
  Uint256ToDecimal a 80 = (if val a =? 0 then [48] else uint256_serialize a).
Proof.
  apply (uint256_decimal_correct [0; 1; 0; 0] 80); [|lia].
  vm_decide.
Defined.
