(* ===== verification/Utils.v ===== *)
(** * Target and address encodings ([include/utils.h], [to_hex] of [src/crypto/crypto.c])

    Big-endian comparison of hashes, the compact difficulty-target decoder, and the hexadecimal
    form of an address. *)
From S2P Require Import Prelude Bytes.

(** ** Comparison *)

(** [CompareHashToTarget], and its two private copies [Uint256_CompareBE] (block.c) and [Cmp256BE]
    (autolykos2.c): the first differing byte decides. *)
Fixpoint CompareHashToTarget (hash target : bytes) : Z :=
  match hash, target with
  | h :: hs, t :: ts => if h <? t then -1 else if t <? h then 1 else CompareHashToTarget hs ts
  | _, _ => 0
  end.

Definition Uint256_CompareBE : bytes -> bytes -> Z := CompareHashToTarget.
Definition Cmp256BE : bytes -> bytes -> Z := CompareHashToTarget.

(** ** The compact target *)

(** The 32-byte target with the three mantissa bytes ending [byteIndex] bytes from the right. *)
Definition place_mantissa (mantissa byteIndex : Z) : bytes :=
  let i := Z.to_nat (32 - byteIndex - 3) in
  let b2 := u8 (Z.land (Z.shiftr mantissa 16) 255) in
  let b1 := u8 (Z.land (Z.shiftr mantissa 8) 255) in
  let b0 := u8 (Z.land mantissa 255) in
  <[(i + 2)%nat := b0]> (<[(i + 1)%nat := b1]> (<[i := b2]> (zeros 32))).

Definition DecodeCompactTarget (nBits : Z) : option bytes :=
  let exponent := Z.shiftr nBits 24 in
  let mantissa := Z.land nBits 8388607 in
  let negative := negb (Z.land nBits 8388608 =? 0) in
  if negative || (mantissa =? 0) then None
  else if exponent <=? 3 then
    Some (place_mantissa (Z.shiftr mantissa (8 * (3 - exponent))) 0)
  else
    let byteIndex := exponent - 3 in
    if 29 <? byteIndex then None else Some (place_mantissa mantissa byteIndex).

(** ** Hexadecimal addresses *)

Definition hex_digit (v : Z) : Z := if v <? 10 then 48 + v else 97 + (v - 10).

(** [to_hex]: the 64 characters before the NUL. *)
Definition to_hex (a : bytes) : bytes :=
  concat (map (fun b => [hex_digit (Z.shiftr b 4); hex_digit (Z.land b 15)]) a).

Definition hex_value (c : Z) : Z :=
  if (48 <=? c) && (c <=? 57) then c - 48
  else if (97 <=? c) && (c <=? 102) then 10 + c - 97
  else if (65 <=? c) && (c <=? 70) then 10 + c - 65
  else -1.

(** The digit loop of [ParseHexAddress32]; stops with failure at the first bad digit. *)
Fixpoint parse_hex_pairs (s : bytes) : option bytes :=
  match s with
  | [] => Some []
  | hi :: lo :: r =>
      let hiVal := hex_value hi in
      let loVal := hex_value lo in
      if (hiVal <? 0) || (loVal <? 0) then None
      else rest ← parse_hex_pairs r; Some (u8 (Z.lor (Z.shiftl hiVal 4) loVal) :: rest)
  | _ => None
  end.

(** The optional [0x] prefix. *)
Definition skip_0x (s : bytes) : bytes :=
  match s with
  | c0 :: c1 :: r => if (c0 =? 48) && ((c1 =? 120) || (c1 =? 88)) then r else s
  | _ => s
  end.

Definition ParseHexAddress32 (s : bytes) : option bytes :=
  let p := skip_0x s in
  if negb (length p =? 64)%nat then None else parse_hex_pairs p.

(** ** Lemmas *)

Lemma compare_spec h t :
  length h = length t -> bytes_ok h -> bytes_ok t ->
  CompareHashToTarget h t = match be_val h ?= be_val t with Lt => -1 | Eq => 0 | Gt => 1 end.
Proof.
  revert t; induction h as [|x h IH]; intros [|y t] Hl Hh Ht; try discriminate; [done|].
  injection Hl as Hl. apply Forall_cons_iff in Hh as [Hx Hh]. apply Forall_cons_iff in Ht as [Hy Ht].
  cbn [CompareHashToTarget be_val]. rewrite IH by done. rewrite Hl.
  pose proof (be_val_bounds h Hh) as B1. pose proof (be_val_bounds t Ht) as B2. rewrite Hl in B1.
  set (p := 256 ^ Z.of_nat (length t)) in *.
  destruct (Z.compare_spec (be_val h) (be_val t)), (Z.compare_spec (x * p + be_val h) (y * p + be_val t));
    zcases; try reflexivity; exfalso; nia.
Qed.

Lemma mantissa_bytes m :
  0 <= m < 2 ^ 24 ->
  u8 (Z.land (Z.shiftr m 16) 255) = m / 65536 /\
  u8 (Z.land (Z.shiftr m 8) 255) = m / 256 mod 256 /\
  u8 (Z.land m 255) = m mod 256.
Proof.
  intros Hm. change 255 with (Z.ones 8). rewrite !Z.land_ones, !Z.shiftr_div_pow2 by lia.
  unfold u8. rewrite !Z.mod_mod by lia. change (2 ^ 16) with 65536. change (2 ^ 8) with 256.
  repeat split. apply Z.mod_small. zdiv.
Qed.

(** Every case of the position, so that the inserts compute. *)
Lemma place_mantissa_spec m k :
  0 <= m < 2 ^ 24 -> 0 <= k <= 29 ->
  bytes_n 32 (place_mantissa m k) /\ be_val (place_mantissa m k) = m * 256 ^ k.
Proof.
  intros Hm Hk. unfold place_mantissa. destruct (mantissa_bytes m Hm) as (-> & -> & ->).
  assert (H2 : is_u8 (m / 65536)) by (unfold_cint; zdiv).
  assert (H1 : is_u8 (m / 256 mod 256)) by (unfold_cint; zdiv).
  assert (H0 : is_u8 (m mod 256)) by (unfold_cint; zdiv).
  assert (E : m = 65536 * (m / 65536) + 256 * (m / 256 mod 256) + m mod 256) by zdiv.
  revert H2 H1 H0 E. generalize (m / 65536) (m / 256 mod 256) (m mod 256). intros b2 b1 b0 H2 H1 H0 E.
  split.
  - split; [rewrite !length_insert; apply length_replicate|].
    repeat apply Forall_insert; try done. apply zeros_ok.
  - set (i := Z.to_nat (32 - k - 3)).
    assert (Ei : zeros 32 = zeros i ++ [0; 0; 0] ++ zeros (Z.to_nat k)).
    { unfold zeros. change [0; 0; 0] with (replicate 3 0). rewrite <- !replicate_add. f_equal. lia. }
    assert (Hz : length (zeros i) = i) by apply length_replicate.
    rewrite Ei, !insert_app_r_alt by (rewrite Hz; lia). rewrite Hz.
    replace (i - i)%nat with 0%nat by lia. replace (i + 1 - i)%nat with 1%nat by lia.
    replace (i + 2 - i)%nat with 2%nat by lia. cbn [app insert list_insert].
    rewrite be_val_app, be_val_zeros. cbn [be_val length]. rewrite be_val_zeros. unfold zeros. rewrite length_replicate.
    rewrite !Nat2Z.inj_succ, !Z.pow_succ_r, Z2Nat.id by lia. rewrite E. ring.
Qed.

(** The integer a compact encoding stands for. *)
Definition compact_value (nBits : Z) : Z :=
  let exponent := nBits / 2 ^ 24 in
  let mantissa := nBits mod 2 ^ 23 in
  if exponent <=? 3 then mantissa / 256 ^ (3 - exponent) else mantissa * 256 ^ (exponent - 3).

(** The encodings the decoder accepts: sign bit clear, mantissa non-zero, exponent at most 32. *)
Definition compact_valid (nBits : Z) : bool :=
  (nBits mod 2 ^ 24 / 2 ^ 23 =? 0) && negb (nBits mod 2 ^ 23 =? 0) && (nBits / 2 ^ 24 <=? 32).

Lemma sign_bit_spec nBits : (Z.land nBits 8388608 =? 0) = (nBits mod 2 ^ 24 / 2 ^ 23 =? 0).
Proof.
  assert (E : Z.land nBits 8388608 = 2 ^ 23 * (nBits mod 2 ^ 24 / 2 ^ 23)).
  { change 8388608 with (Z.shiftl (Z.ones 1) 23). rewrite <- Z.land_ones by lia.
    replace (Z.land nBits (Z.shiftl (Z.ones 1) 23))
      with (Z.shiftl (Z.shiftr (Z.land nBits (Z.ones 24)) 23) 23).
    - rewrite Z.shiftl_mul_pow2, Z.shiftr_div_pow2 by lia. lia.
    - apply Z.bits_inj'. intros n Hn. rewrite !Z.shiftl_spec, !Z.land_spec, Z.shiftl_spec by lia.
      destruct (Z.lt_ge_cases n 23).
      + rewrite !(Z.testbit_neg_r _ (n - 23)) by lia. by rewrite andb_false_r.
      + rewrite Z.shiftr_spec, Z.land_spec, !Z.testbit_ones_nonneg by lia.
        replace (n - 23 + 23) with n by lia. f_equal. zcases; lia. }
  rewrite E. zcases; lia.
Qed.

Lemma DecodeCompactTarget_spec nBits :
  is_u32 nBits ->
  match DecodeCompactTarget nBits with
  | Some t => compact_valid nBits = true /\ bytes_n 32 t /\ be_val t = compact_value nBits
  | None => compact_valid nBits = false
  end.
Proof.
  intros Hn. unfold DecodeCompactTarget, compact_valid, compact_value. rewrite sign_bit_spec.
  change 8388607 with (Z.ones 23). rewrite Z.land_ones, Z.shiftr_div_pow2 by lia.
  set (e := nBits / 2 ^ 24). set (m := nBits mod 2 ^ 23).
  assert (Hm : 0 <= m < 2 ^ 23) by (apply Z.mod_pos_bound; lia).
  assert (He : 0 <= e < 256) by (unfold e; unfold is_u32 in Hn; change (2 ^ 24) with 16777216; zdiv).
  destruct (_ / 2 ^ 23 =? 0), (Z.eqb_spec m 0); cbn [negb orb andb]; try done.
  destruct (Z.leb_spec e 3), (Z.leb_spec e 32); try lia.
  - split; [done|]. rewrite Z.shiftr_div_pow2 by lia. rewrite Z.pow_mul_r by lia. change (2 ^ 8) with 256.
    destruct (place_mantissa_spec (m / 256 ^ (3 - e)) 0) as [? E]; [|lia|].
    + assert (1 <= 256 ^ (3 - e)) by (apply (Z.pow_le_mono_r 256 0); lia).
      split; [apply Z.div_pos; lia|]. apply Z.div_lt_upper_bound; nia.
    + split; [done|]. rewrite E. lia.
  - destruct (Z.ltb_spec 29 (e - 3)); [lia|]. split; [done|]. apply place_mantissa_spec; lia.
  - destruct (Z.ltb_spec 29 (e - 3)); [done|lia].
Qed.

(** A decoded target is below [2^255]: the mantissa has 23 bits. *)
Lemma compact_value_bound nBits :
  is_u32 nBits -> compact_valid nBits = true -> 0 <= compact_value nBits < 2 ^ 255.
Proof.
  intros Hn Hv. unfold compact_valid, compact_value in *. zbool.
  set (e := nBits / 2 ^ 24) in *. assert (Hm := Z.mod_pos_bound nBits (2 ^ 23) ltac:(lia)).
  set (m := nBits mod 2 ^ 23) in *.
  assert (He : 0 <= e) by (apply Z.div_pos; unfold is_u32 in Hn; lia).
  destruct (Z.leb_spec e 3).
  - assert (1 <= 256 ^ (3 - e)) by (apply (Z.pow_le_mono_r 256 0); lia).
    split; [apply Z.div_pos; lia|]. apply Z.div_lt_upper_bound; nia.
  - assert (1 <= 256 ^ (e - 3)) by (apply (Z.pow_le_mono_r 256 0); lia).
    assert (256 ^ (e - 3) <= 256 ^ 29) by (apply Z.pow_le_mono_r; lia).
    change (2 ^ 255) with (2 ^ 23 * 256 ^ 29). nia.
Qed.

Lemma hex_value_digit v : 0 <= v < 16 -> hex_value (hex_digit v) = v.
Proof. intros Hv. unfold hex_value, hex_digit. zcases; cbn [andb]; lia. Qed.

Lemma hex_digit_not_x v : 0 <= v < 16 -> hex_digit v <> 120 /\ hex_digit v <> 88.
Proof. intros Hv. unfold hex_digit. zcases; lia. Qed.

Lemma hex_pair b :
  is_u8 b -> 0 <= Z.shiftr b 4 < 16 /\ 0 <= Z.land b 15 < 16 /\
  u8 (Z.lor (Z.shiftl (Z.shiftr b 4) 4) (Z.land b 15)) = b.
Proof.
  intros Hb. change 15 with (Z.ones 4). rewrite Z.land_ones, Z.shiftr_div_pow2 by lia.
  change (2 ^ 4) with 16. rewrite lor_shiftl_add by (change (2 ^ 4) with 16; zdiv).
  change (2 ^ 4) with 16. unfold_cint. repeat split; zdiv.
Qed.

Lemma length_to_hex a : length (to_hex a) = (2 * length a)%nat.
Proof. induction a as [|b a IH]; [done|]. unfold to_hex in *. cbn. rewrite IH. lia. Qed.

Lemma parse_to_hex a : bytes_ok a -> parse_hex_pairs (to_hex a) = Some a.
Proof.
  induction a as [|b a IH]; intros H; [done|]. apply Forall_cons_iff in H as [Hb H].
  destruct (hex_pair b Hb) as (Hhi & Hlo & E).
  change (to_hex (b :: a)) with (hex_digit (Z.shiftr b 4) :: hex_digit (Z.land b 15) :: to_hex a).
  cbn [parse_hex_pairs]. rewrite !hex_value_digit, E, IH by done.
  destruct (Z.ltb_spec (Z.shiftr b 4) 0), (Z.ltb_spec (Z.land b 15) 0); try lia. done.
Qed.

(** ** Properties *)

(** The compact-target decoder accepts exactly the encodings with a clear sign bit, a
    non-zero mantissa and an exponent of at most 32, and the 32 bytes it writes denote
    [mantissa * 256^(exponent-3)] (truncated for exponents below 3), which is below [2^255]. *)
Theorem decode_compact_correct (nBits : Z) :
  is_u32 nBits ->
  match DecodeCompactTarget nBits with
  | Some t => compact_valid nBits = true /\ bytes_n 32 t /\ be_val t = compact_value nBits /\
              compact_value nBits < 2 ^ 255
  | None => compact_valid nBits = false
  end.
Proof.
  intros Hn. pose proof (DecodeCompactTarget_spec nBits Hn) as H.
  destruct (DecodeCompactTarget nBits); [|done]. destruct H as (Hv & Hb & E).
  pose proof (compact_value_bound nBits Hn Hv).
  split; [done|]. split; [done|]. split; [done|]. lia.
Qed.

Lemma decode_compact_correct_witness :
  match DecodeCompactTarget 520885282 with
  | Some t => compact_valid 520885282 = true /\ bytes_n 32 t /\ be_val t = compact_value 520885282 /\
              compact_value 520885282 < 2 ^ 255
  | None => compact_valid 520885282 = false
  end.
Proof. apply (decode_compact_correct 520885282). vm_decide. Defined.

(** Hexadecimal addresses round-trip: printing any 32-byte address and parsing the result,
    with or without a [0x] prefix, gives the address back. *)
Theorem hex_address_roundtrip (a : bytes) :
  bytes_n 32 a ->
  ParseHexAddress32 (to_hex a) = Some a /\ ParseHexAddress32 (48 :: 120 :: to_hex a) = Some a.
Proof.
  intros [Hl Ha]. assert (Hlen := length_to_hex a). rewrite Hl in Hlen.
  assert (Hp : skip_0x (to_hex a) = to_hex a).
  { destruct a as [|b a]; [discriminate|]. apply Forall_cons_iff in Ha as [Hb _].
    destruct (hex_pair b Hb) as (_ & Hlo & _). destruct (hex_digit_not_x _ Hlo).
    cbn. rewrite (proj2 (Z.eqb_neq _ 120)), (proj2 (Z.eqb_neq _ 88)) by done. by rewrite andb_false_r. }
  unfold ParseHexAddress32. rewrite Hp. cbn [skip_0x Z.eqb andb orb]. cbn.
  rewrite Hlen. cbn. by rewrite parse_to_hex.
Qed.

Lemma hex_address_roundtrip_witness :
  ParseHexAddress32 (to_hex (replicate 32 171)) = Some (replicate 32 171) /\
  ParseHexAddress32 (48 :: 120 :: to_hex (replicate 32 171)) = Some (replicate 32 171).
Proof.
  apply (hex_address_roundtrip (replicate 32 171)). vm_decide.
Defined.
