(* ===== verification/Emission.v ===== *)
(** * Economic constants and the emission schedule ([include/constants.h])

    The reward functions read and write the global [g_currentReward]; the model passes it
    explicitly: a function takes the old global and returns the reward together with the new one. *)
From S2P Require Import Prelude Bytes UInt256.

Definition DIFFICULTY_ADJUSTMENT_INTERVAL : Z := 3840.
Definition TARGET_BLOCK_TIME : Z := 90.
Definition INITIAL_DIFFICULTY : Z := 520885282. (* 0x1f0c1422 *)
Definition EMISSION_ACCELERATION_FACTOR : Z := 1.
Definition PHASE1_TARGET_BLOCKS : Z := 3000000.
Definition INFLATION_PERCENTAGE_PER_EPOCH_TENTHS : nat := 15.
Definition MONERO_EMISSION_SPEED_FACTOR : Z := 20.
Definition EPOCH_LENGTH : Z := 350000.
Definition M_CAP : Z := 18446744073709551615.
Definition TAIL_EMISSION : Z := 750000000000.

Definition effectiveEpochLength : Z :=
  if 0 <? EPOCH_LENGTH / EMISSION_ACCELERATION_FACTOR
  then EPOCH_LENGTH / EMISSION_ACCELERATION_FACTOR else 1.

Definition effectivePhase1Blocks : Z :=
  if 0 <? PHASE1_TARGET_BLOCKS / EMISSION_ACCELERATION_FACTOR
  then PHASE1_TARGET_BLOCKS / EMISSION_ACCELERATION_FACTOR else 1.

(** [for (i = 0; i < n; ++i) uint256_add(&multiplied, &currentSupply)], overflow flag ignored. *)
Fixpoint add_times (n : nat) (acc supply : uint256) : uint256 :=
  match n with
  | O => acc
  | S m => add_times m (fst (uint256_add acc supply)) supply
  end.

(** Long division by a 64-bit divisor, most significant limb first, with a 128-bit accumulator. *)
Fixpoint div_limbs (l : uint256) (divisor : Z) : uint256 * Z :=
  match l with
  | [] => ([], 0)
  | x :: r =>
      let '(q, rem) := div_limbs r divisor in
      let current := Z.lor (Z.shiftl rem 64) x in
      (u64 (current / divisor) :: q, current mod divisor)
  end.

Definition inflation_per_block (currentSupply : uint256) : Z :=
  let multiplied := add_times INFLATION_PERCENTAGE_PER_EPOCH_TENTHS (uint256_from_u64 0) currentSupply in
  let divisor := 1000 *u64 effectiveEpochLength in
  nth 0 (fst (div_limbs multiplied divisor)) 0.

(** Reward, and the new value of [g_currentReward]. *)
Definition GetInflationRateRewardAtHeight (currentSupply : uint256) (height g_currentReward : Z) : Z * Z :=
  if height =? 0 then (TAIL_EMISSION, TAIL_EMISSION)
  else if height mod effectiveEpochLength =? 0 then
    let infl := inflation_per_block currentSupply in
    let g := if TAIL_EMISSION <? infl then infl else TAIL_EMISSION in (g, g)
  else ((if TAIL_EMISSION <? g_currentReward then g_currentReward else TAIL_EMISSION), g_currentReward).

(** The phase-one reward for [remaining] units over [blocksLeft] blocks. *)
Definition phase1_reward (remaining blocksLeft : Z) : Z :=
  let reward := Z.shiftr remaining MONERO_EMISSION_SPEED_FACTOR in
  let reward :=
    if (1 <? EMISSION_ACCELERATION_FACTOR) && (0 <? reward)
    then (let accelerated := reward * EMISSION_ACCELERATION_FACTOR in
          if remaining <? accelerated then remaining else u64 accelerated)
    else reward in
  let minRewardToFinish := u64 (u64 (remaining + blocksLeft) - 1) / blocksLeft in
  let reward := if reward <? minRewardToFinish then minRewardToFinish else reward in
  if remaining <? reward then remaining else reward.

Definition supply_past_cap (s : uint256) : bool :=
  (0 <? nth 1 s 0) || (0 <? nth 2 s 0) || (0 <? nth 3 s 0) || (M_CAP <=? nth 0 s 0).

Definition CalculateBlockRewardAtHeight (currentSupply : uint256) (height g_currentReward : Z) : Z * Z :=
  if effectivePhase1Blocks <=? height
  then GetInflationRateRewardAtHeight currentSupply height g_currentReward
  else if supply_past_cap currentSupply
  then GetInflationRateRewardAtHeight currentSupply height g_currentReward
  else
    let remaining := M_CAP -u64 nth 0 currentSupply 0 in
    let reward := phase1_reward remaining (effectivePhase1Blocks - height) in
    if TAIL_EMISSION <? reward then (reward, g_currentReward)
    else GetInflationRateRewardAtHeight currentSupply height g_currentReward.

(** The assignment every caller makes: [g_currentReward = CalculateBlockRewardAtHeight(...)]. *)
Definition next_reward (currentSupply : uint256) (height g_currentReward : Z) : Z :=
  fst (CalculateBlockRewardAtHeight currentSupply height g_currentReward).

(** ** Lemmas *)

Lemma add_times_spec n acc supply :
  uint256_ok acc -> uint256_ok supply ->
  uint256_ok (add_times n acc supply) /\
  val (add_times n acc supply) = (val acc + Z.of_nat n * val supply) mod M256.
Proof.
  intros Ha Hs. revert acc Ha; induction n as [|n IH]; intros acc Ha; cbn [add_times].
  - split; [done|]. rewrite Z.mod_small; [lia|]. pose proof (uint256_val_bounds acc Ha). lia.
  - destruct (uint256_add_spec acc supply Ha Hs) as (Hok & Hv & _).
    destruct (IH _ Hok) as [H1 H2]. split; [done|]. rewrite H2, Hv.
    rewrite Zplus_mod_idemp_l. f_equal. lia.
Qed.

Lemma div_limbs_spec l d :
  limbs_ok l -> 0 < d < 2 ^ 64 ->
  length (fst (div_limbs l d)) = length l /\ limbs_ok (fst (div_limbs l d)) /\
  val (fst (div_limbs l d)) = val l / d /\ snd (div_limbs l d) = val l mod d.
Proof.
  intros H Hd. induction l as [|x l IH]; [cbn; rewrite Z.div_0_l, Z.mod_0_l by lia; auto|].
  apply limbs_ok_cons in H as [Hx Hl]. specialize (IH Hl). cbn [div_limbs].
  destruct (div_limbs l d) as [q rem]. cbn [fst snd] in *. destruct IH as (Hlen & Hok & Hq & Hr).
  pose proof (val_bounds l Hl) as Hb.
  assert (Hrem : 0 <= rem < d) by (rewrite Hr; apply Z.mod_pos_bound; lia).
  rewrite lor_shiftl_add by (lia || apply Hx). unfold is_u64 in Hx.
  assert (Hval : val l = d * val q + rem) by (rewrite Hq, Hr; apply Z.div_mod; lia).
  assert (Hcur : is_u64 ((rem * 2 ^ 64 + x) / d)).
  { split; [apply Z.div_pos; lia|]. apply Z.div_lt_upper_bound; nia. }
  rewrite u64_small by done. repeat split; [cbn; congruence | by apply limbs_ok_cons | |];
    cbn [val]; rewrite Hval; unfold B64;
    replace (x + 2 ^ 64 * (d * val q + rem)) with (rem * 2 ^ 64 + x + 2 ^ 64 * val q * d) by ring.
  - rewrite Z.div_add by lia. reflexivity.
  - by rewrite Z.mod_add by lia.
Qed.

Lemma nth0_val l : limbs_ok l -> nth 0 l 0 = val l mod B64.
Proof.
  destruct l as [|x l]; intros H; [done|]. apply limbs_ok_cons in H as [Hx _].
  cbn [nth val]. rewrite Z.mul_comm. unfold B64. rewrite Z.mod_add by lia. symmetry. by apply Z.mod_small.
Qed.

Lemma inflation_per_block_spec s :
  uint256_ok s ->
  inflation_per_block s = (15 * val s) mod M256 / 350000000 mod B64.
Proof.
  intros Hs. unfold inflation_per_block.
  destruct (add_times_spec INFLATION_PERCENTAGE_PER_EPOCH_TENTHS (uint256_from_u64 0) s) as [H1 H2];
    [apply from_u64_ok; unfold_cint; lia|done|].
  change (1000 *u64 effectiveEpochLength) with 350000000.
  destruct (div_limbs_spec _ 350000000 (proj2 H1)) as (_ & Hok & Hv & _); [lia|].
  rewrite nth0_val by done. by rewrite Hv, H2, val_from_u64.
Qed.

(** [supply < M_CAP], read off the limbs. *)
Lemma supply_past_cap_spec s : uint256_ok s -> supply_past_cap s = (M_CAP <=? val s).
Proof.
  intros [Hl Hs]. destruct s as [|a [|b [|c [|d [|]]]]]; try discriminate.
  do 4 (apply limbs_ok_cons in Hs as [? Hs]). unfold supply_past_cap, M_CAP. cbn [nth val].
  unfold B64. unfold_cint. zcases; cbn [orb]; (reflexivity || (exfalso; lia)).
Qed.

(** The ceiling [remaining + blocksLeft - 1] may wrap while nothing has been mined; with two million
    blocks or more to go the Monero term dominates and the wrap does not show. *)
Lemma phase1_reward_spec remaining blocksLeft :
  0 < remaining <= M_CAP -> 0 < blocksLeft <= PHASE1_TARGET_BLOCKS ->
  remaining + blocksLeft <= 2 ^ 64 \/ 2 ^ 21 <= blocksLeft ->
  phase1_reward remaining blocksLeft =
  Z.min remaining (Z.max (remaining / 2 ^ 20) ((remaining + blocksLeft - 1) / blocksLeft)).
Proof.
  intros Hr Hb Hs. unfold phase1_reward, M_CAP, PHASE1_TARGET_BLOCKS in *.
  change (1 <? EMISSION_ACCELERATION_FACTOR) with false. cbn [andb].
  rewrite Z.shiftr_div_pow2 by (unfold MONERO_EMISSION_SPEED_FACTOR; lia).
  unfold MONERO_EMISSION_SPEED_FACTOR, u64. rewrite Zminus_mod_idemp_l, if_ltb_max, if_ltb_min.
  destruct (Z.le_gt_cases (remaining + blocksLeft) (2 ^ 64)) as [Hle|Hgt].
  - rewrite (Z.mod_small (remaining + blocksLeft - 1)) by lia. reflexivity.
  - replace ((remaining + blocksLeft - 1) mod 2 ^ 64) with (remaining + blocksLeft - 1 - 2 ^ 64)
      by (apply (Z.mod_unique _ _ 1); lia).
    rewrite (Z.div_small (_ - 2 ^ 64)) by lia.
    assert ((remaining + blocksLeft - 1) / blocksLeft <= 2 ^ 43 + 1).
    { apply Z.div_le_upper_bound; [lia|]. change (2 ^ 21) with 2097152 in Hs. nia. }
    assert (2 ^ 44 - 3 <= remaining / 2 ^ 20) by (apply Z.div_le_lower_bound; lia).
    f_equal. rewrite !Z.max_l; lia.
Qed.

Lemma phase1_reward_bounds remaining blocksLeft :
  0 < remaining <= M_CAP -> 0 < blocksLeft <= PHASE1_TARGET_BLOCKS ->
  remaining + blocksLeft <= 2 ^ 64 \/ 2 ^ 21 <= blocksLeft ->
  0 < phase1_reward remaining blocksLeft <= remaining /\
  remaining <= phase1_reward remaining blocksLeft * blocksLeft.
Proof.
  intros Hr Hb Hs. rewrite phase1_reward_spec by done.
  assert (Hc : remaining <= (remaining + blocksLeft - 1) / blocksLeft * blocksLeft).
  { pose proof (Z.div_mod (remaining + blocksLeft - 1) blocksLeft ltac:(lia)).
    pose proof (Z.mod_pos_bound (remaining + blocksLeft - 1) blocksLeft ltac:(lia)). lia. }
  assert (0 < (remaining + blocksLeft - 1) / blocksLeft) by nia.
  split; [lia|].
  destruct (Z.min_spec remaining (Z.max (remaining / 2 ^ 20) ((remaining + blocksLeft - 1) / blocksLeft)))
    as [[_ ->]|[_ ->]]; nia.
Qed.

Lemma inflation_per_block_u64 s : uint256_ok s -> is_u64 (inflation_per_block s).
Proof. intros H. rewrite inflation_per_block_spec by done. apply Z.mod_pos_bound. unfold B64; lia. Qed.

Lemma inflation_reward_bounds s h g :
  uint256_ok s -> is_u64 g ->
  TAIL_EMISSION <= fst (GetInflationRateRewardAtHeight s h g) < 2 ^ 64.
Proof.
  intros Hs Hg. pose proof (inflation_per_block_u64 s Hs). unfold is_u64 in *.
  unfold GetInflationRateRewardAtHeight. repeat destruct (_ =? 0); cbn [fst];
    rewrite ?if_ltb_max; unfold TAIL_EMISSION; lia.
Qed.

(** Phase one as a function of the supply alone. *)
Lemma phase1_case s h g :
  uint256_ok s -> val s < M_CAP -> 0 <= h < PHASE1_TARGET_BLOCKS ->
  CalculateBlockRewardAtHeight s h g =
  (let r := phase1_reward (M_CAP - val s) (PHASE1_TARGET_BLOCKS - h) in
   if TAIL_EMISSION <? r then (r, g) else GetInflationRateRewardAtHeight s h g).
Proof.
  intros Hs Hv Hh. unfold CalculateBlockRewardAtHeight.
  change effectivePhase1Blocks with PHASE1_TARGET_BLOCKS.
  destruct (Z.leb_spec PHASE1_TARGET_BLOCKS h); [lia|].
  rewrite supply_past_cap_spec by done. destruct (Z.leb_spec M_CAP (val s)); [lia|].
  pose proof (uint256_val_bounds s Hs). rewrite nth0_val by apply Hs.
  unfold M_CAP, B64 in *. rewrite (Z.mod_small (val s)) by lia. rewrite u64_small by (unfold is_u64; lia).
  reflexivity.
Qed.

Lemma next_reward_bounds s h g :
  uint256_ok s -> is_u64 g -> 0 <= h ->
  (h = 0 \/ M_CAP - val s + (PHASE1_TARGET_BLOCKS - h) <= 2 ^ 64) ->
  TAIL_EMISSION <= next_reward s h g < 2 ^ 64.
Proof.
  intros Hs Hg Hh Hw. pose proof (inflation_reward_bounds s h g Hs Hg) as HI.
  unfold next_reward. pose proof (uint256_val_bounds s Hs).
  destruct (Z.lt_ge_cases h PHASE1_TARGET_BLOCKS) as [Hlt|Hge].
  - destruct (Z.lt_ge_cases (val s) M_CAP) as [Hv|Hv].
    + rewrite phase1_case by (done || lia). cbv zeta.
      destruct (Z.ltb_spec TAIL_EMISSION (phase1_reward (M_CAP - val s) (PHASE1_TARGET_BLOCKS - h))); [|done].
      cbn [fst]. destruct (phase1_reward_bounds (M_CAP - val s) (PHASE1_TARGET_BLOCKS - h)) as [Hb _];
        unfold M_CAP, PHASE1_TARGET_BLOCKS in *; lia.
    + unfold CalculateBlockRewardAtHeight. rewrite supply_past_cap_spec by done.
      rewrite (proj2 (Z.leb_le M_CAP (val s))) by done. by destruct (_ <=? h).
  - unfold CalculateBlockRewardAtHeight. change effectivePhase1Blocks with PHASE1_TARGET_BLOCKS.
    by rewrite (proj2 (Z.leb_le PHASE1_TARGET_BLOCKS h)).
Qed.

Lemma phase1_reward_le remaining left :
  0 <= remaining -> 0 < left -> 0 <= phase1_reward remaining left <= remaining.
Proof.
  intros Hr Hl. unfold phase1_reward. change (1 <? EMISSION_ACCELERATION_FACTOR) with false. cbn [andb].
  rewrite if_ltb_max, if_ltb_min. pose proof (proj2 (Z.shiftr_nonneg remaining MONERO_EMISSION_SPEED_FACTOR) Hr). lia.
Qed.

(** The global stays a 64-bit value at every height, whatever wraps. *)
Lemma next_reward_u64 s h g : uint256_ok s -> is_u64 g -> is_u64 (next_reward s h g).
Proof.
  intros Hs Hg. pose proof (inflation_reward_bounds s h g Hs Hg) as HI. unfold TAIL_EMISSION in HI.
  assert (HI' : is_u64 (fst (GetInflationRateRewardAtHeight s h g))) by (unfold is_u64; lia).
  unfold next_reward, CalculateBlockRewardAtHeight. destruct (Z.leb_spec effectivePhase1Blocks h); [done|].
  destruct (supply_past_cap s); [done|]. cbv zeta. destruct (_ <? _); [|done]. cbn [fst].
  pose proof (u64_range (M_CAP - nth 0 s 0)) as Hu. unfold is_u64 in *.
  pose proof (phase1_reward_le (M_CAP -u64 nth 0 s 0) (effectivePhase1Blocks - h) ltac:(lia) ltac:(lia)). lia.
Qed.

(** Heights and supplies at which the reward does not depend on the cached value. *)
Definition settled (s : uint256) (h : Z) : Prop := forall g g', next_reward s h g = next_reward s h g'.

Lemma phase1_settled s h :
  uint256_ok s -> val s < M_CAP -> 0 <= h < PHASE1_TARGET_BLOCKS ->
  TAIL_EMISSION < phase1_reward (M_CAP - val s) (PHASE1_TARGET_BLOCKS - h) -> settled s h.
Proof.
  intros Hs Hv Hh Hr g g'. unfold next_reward. rewrite !phase1_case by done. cbv zeta.
  by rewrite (proj2 (Z.ltb_lt _ _) Hr).
Qed.

(** [n] fee-less blocks from height [h]: each pays [g_currentReward], which is then recomputed from
    the new supply at the new height, exactly as [Chain_AddBlockLocked] does. *)
Fixpoint emission_run (n : nat) (h : Z) (s : uint256) (g : Z) : uint256 * Z :=
  match n with
  | O => (s, g)
  | S k => let s' := fst (uint256_add_u64 s g) in emission_run k (h + 1) s' (next_reward s' (h + 1) g)
  end.

(** While something remains, the reward pays at least its share of the gap. *)
Lemma next_reward_share s h g :
  uint256_ok s -> is_u64 g -> val s < M_CAP -> 0 <= h < PHASE1_TARGET_BLOCKS ->
  (h = 0 \/ M_CAP - val s + (PHASE1_TARGET_BLOCKS - h) <= 2 ^ 64) ->
  M_CAP - val s <= next_reward s h g * (PHASE1_TARGET_BLOCKS - h).
Proof.
  intros Hs Hg Hv Hh Hw. pose proof (inflation_reward_bounds s h g Hs Hg).
  pose proof (uint256_val_bounds s Hs).
  destruct (phase1_reward_bounds (M_CAP - val s) (PHASE1_TARGET_BLOCKS - h)) as [Hb Hshare];
    [unfold M_CAP, PHASE1_TARGET_BLOCKS in *; lia..|].
  unfold next_reward. rewrite phase1_case by (done || lia). cbv zeta.
  destruct (Z.ltb_spec TAIL_EMISSION (phase1_reward (M_CAP - val s) (PHASE1_TARGET_BLOCKS - h)));
    cbn [fst]; nia.
Qed.

Lemma emission_run_reaches_cap n h s g :
  h = PHASE1_TARGET_BLOCKS - Z.of_nat n -> 0 <= h -> uint256_ok s -> TAIL_EMISSION <= g < 2 ^ 64 ->
  val s + Z.of_nat n * 2 ^ 64 < M256 -> (h = 0 \/ M_CAP - val s + Z.of_nat n <= 2 ^ 64) ->
  M_CAP - val s <= g * Z.of_nat n ->
  M_CAP <= val (fst (emission_run n h s g)).
Proof.
  revert h s g; induction n as [|n IH]; intros h s g Eh Hh Hs Hg Hov Hw Hgap; cbn [emission_run fst]; [lia|].
  assert (Hg64 : is_u64 g) by (unfold is_u64, TAIL_EMISSION in *; lia).
  destruct (uint256_add_u64_spec s g Hs Hg64) as (Hs' & Hv' & _).
  pose proof (uint256_val_bounds s Hs). rewrite Z.mod_small in Hv' by (unfold TAIL_EMISSION in *; lia).
  set (s' := fst (uint256_add_u64 s g)) in *. clearbody s'.
  assert (Hw' : M_CAP - val s' + Z.of_nat n <= 2 ^ 64)
    by (unfold TAIL_EMISSION, M_CAP, PHASE1_TARGET_BLOCKS in *; lia).
  assert (Hn : Z.of_nat n = PHASE1_TARGET_BLOCKS - (h + 1)) by lia.
  pose proof (next_reward_bounds s' (h + 1) g Hs' Hg64 ltac:(lia) ltac:(right; lia)) as Hb.
  apply IH; try done; try lia.
  destruct (Z.lt_ge_cases (val s') M_CAP) as [Hlt|Hge].
  - destruct n as [|n]; [lia|]. rewrite Hn. apply next_reward_share; auto; lia.
  - unfold TAIL_EMISSION in *. nia.
Qed.

(** ** Properties *)

(** The tail floor: whatever the supply, the height and the cached reward, the schedule never
    pays less than [TAIL_EMISSION]. *)
Theorem reward_never_below_tail (s : uint256) (h g : Z) :
  TAIL_EMISSION <= next_reward s h g.
Proof.
  assert (HI : TAIL_EMISSION <= fst (GetInflationRateRewardAtHeight s h g)).
  { unfold GetInflationRateRewardAtHeight. repeat destruct (_ =? 0); cbn [fst]; rewrite ?if_ltb_max; lia. }
  unfold next_reward, CalculateBlockRewardAtHeight.
  destruct (_ <=? h); [done|]. destruct (supply_past_cap s); [done|].
  destruct (Z.ltb_spec TAIL_EMISSION (phase1_reward (M_CAP -u64 nth 0 s 0) (effectivePhase1Blocks - h)));
    cbn [fst]; [lia|done].
Qed.

(** Phase one in closed form: below the cap and the horizon, with [r = min(remaining,
    max(remaining >> 20, ceil(remaining / blocksLeft)))], the reward is [r] as long as [r] exceeds
    the tail -- whatever [g_currentReward] holds, and despite the possible wrap of the ceiling's
    numerator at genesis -- and paying it never takes the supply past [M_CAP]. *)
Theorem phase1_reward_closed_form (s : uint256) (h g : Z) :
  uint256_ok s -> val s < M_CAP -> 0 <= h < PHASE1_TARGET_BLOCKS ->
  (h = 0 \/ M_CAP - val s + (PHASE1_TARGET_BLOCKS - h) <= 2 ^ 64) ->
  let remaining := M_CAP - val s in
  let left := PHASE1_TARGET_BLOCKS - h in
  let r := Z.min remaining (Z.max (remaining / 2 ^ 20) ((remaining + left - 1) / left)) in
  TAIL_EMISSION < r ->
  CalculateBlockRewardAtHeight s h g = (r, g) /\ val s + r <= M_CAP.
Proof.
  intros Hs Hv Hh Hw remaining left r Hr. pose proof (uint256_val_bounds s Hs).
  rewrite phase1_case by (done || lia). cbv zeta.
  rewrite phase1_reward_spec by (unfold M_CAP, PHASE1_TARGET_BLOCKS in *; lia).
  fold remaining left r. rewrite (proj2 (Z.ltb_lt _ _) Hr). split; [done|]. subst r remaining. lia.
Qed.

Lemma phase1_reward_closed_form_witness :
  CalculateBlockRewardAtHeight (uint256_from_u64 0) 0 5 = (17592186044415, 5) /\
  val (uint256_from_u64 0) + 17592186044415 <= M_CAP.
Proof.
  apply (phase1_reward_closed_form (uint256_from_u64 0) 0 5).
  - vm_decide.
  - reflexivity.
  - vm_decide.
  - left. reflexivity.
  - reflexivity.
Defined.

(** Phase one finishes on time: from genesis, or from any later point of the schedule, the
    fee-less blocks up to height 3,000,000 bring the emitted supply to [M_CAP]. *)
Theorem emission_reaches_cap_by_horizon (n : nat) (s : uint256) (g0 : Z) :
  let h := PHASE1_TARGET_BLOCKS - Z.of_nat n in
  0 <= h -> uint256_ok s -> is_u64 g0 -> val s < M_CAP -> (0 < n)%nat ->
  (h = 0 \/ M_CAP - val s + Z.of_nat n <= 2 ^ 64) ->
  M_CAP <= val (fst (emission_run n h s (next_reward s h g0))).
Proof.
  intros h Hh Hs Hg Hv Hn Hw. subst h.
  assert (Hw' : PHASE1_TARGET_BLOCKS - Z.of_nat n = 0 \/
    M_CAP - val s + (PHASE1_TARGET_BLOCKS - (PHASE1_TARGET_BLOCKS - Z.of_nat n)) <= 2 ^ 64) by lia.
  pose proof (next_reward_bounds s _ g0 Hs Hg Hh Hw') as Hb.
  pose proof (uint256_val_bounds s Hs).
  apply emission_run_reaches_cap; try done; try lia.
  - apply Z.lt_trans with (10000000 * 2 ^ 64); [|vm_compute; reflexivity].
    unfold M_CAP, PHASE1_TARGET_BLOCKS in *. lia.
  - pose proof (next_reward_share s (PHASE1_TARGET_BLOCKS - Z.of_nat n) g0 Hs Hg Hv ltac:(lia) Hw') as Hshare.
    by replace (PHASE1_TARGET_BLOCKS - (PHASE1_TARGET_BLOCKS - Z.of_nat n)) with (Z.of_nat n) in Hshare by lia.
Qed.

Lemma emission_reaches_cap_by_horizon_witness :
  let s := uint256_from_u64 (M_CAP - 1000) in
  M_CAP <= val (fst (emission_run 2 2999998 s (next_reward s 2999998 0))).
Proof.
  apply (emission_reaches_cap_by_horizon 2 (uint256_from_u64 (M_CAP - 1000)) 0).
  - vm_compute; congruence.
  - vm_decide.
  - vm_decide.
  - reflexivity.
  - lia.
  - right. vm_compute. congruence.
Defined.

(** The epoch reward: on an epoch boundary of the tail phase the reward is
    [max(TAIL_EMISSION, supply * 15 / (1000 * 350000))] -- 1.5% of the supply spread over the epoch
    -- as long as that product fits in 256 bits and the quotient in 64. *)
Theorem epoch_reward_is_inflation (s : uint256) (k g : Z) :
  uint256_ok s -> 0 < k -> PHASE1_TARGET_BLOCKS <= k * EPOCH_LENGTH ->
  15 * val s < M256 -> 15 * val s / 350000000 < 2 ^ 64 ->
  let r := Z.max TAIL_EMISSION (15 * val s / 350000000) in
  CalculateBlockRewardAtHeight s (k * EPOCH_LENGTH) g = (r, r).
Proof.
  intros Hs Hk Hh Hm Hq r. pose proof (uint256_val_bounds s Hs).
  unfold CalculateBlockRewardAtHeight. change effectivePhase1Blocks with PHASE1_TARGET_BLOCKS.
  rewrite (proj2 (Z.leb_le _ _) Hh). unfold GetInflationRateRewardAtHeight.
  destruct (Z.eqb_spec (k * EPOCH_LENGTH) 0) as [E|_]; [unfold EPOCH_LENGTH in E; lia|].
  change effectiveEpochLength with EPOCH_LENGTH. rewrite Z.mod_mul by (unfold EPOCH_LENGTH; lia).
  rewrite inflation_per_block_spec by done. rewrite (Z.mod_small (15 * val s)) by lia.
  assert (0 <= 15 * val s / 350000000) by (apply Z.div_pos; lia).
  rewrite Z.mod_small by (unfold B64; lia). cbn [Z.eqb]. rewrite if_ltb_max. done.
Qed.

Lemma epoch_reward_is_inflation_witness :
  let s := [0; 2; 0; 0] in
  let r := Z.max TAIL_EMISSION (15 * val s / 350000000) in
  CalculateBlockRewardAtHeight s (9 * EPOCH_LENGTH) 0 = (r, r).
Proof.
  apply (epoch_reward_is_inflation [0; 2; 0; 0] 9 0).
  - vm_decide.
  - reflexivity.
  - vm_compute; congruence.
  - reflexivity.
  - reflexivity.
Defined.

(** Between epoch boundaries of the tail phase the reward is whatever the node's own
    [g_currentReward] was, so it is not a function of the chain: for every height past the horizon
    that is not a boundary there are two cached values for which the same supply and height give
    different rewards. *)
Theorem tail_reward_depends_on_cache (s : uint256) (h : Z) :
  PHASE1_TARGET_BLOCKS <= h -> h mod EPOCH_LENGTH <> 0 ->
  forall g, TAIL_EMISSION <= g -> next_reward s h g = g.
Proof.
  intros Hh Hm g Hg. unfold next_reward, CalculateBlockRewardAtHeight.
  change effectivePhase1Blocks with PHASE1_TARGET_BLOCKS. rewrite (proj2 (Z.leb_le _ _) Hh).
  unfold GetInflationRateRewardAtHeight. change effectiveEpochLength with EPOCH_LENGTH.
  destruct (Z.eqb_spec h 0) as [->|]; [unfold PHASE1_TARGET_BLOCKS in Hh; lia|].
  rewrite (proj2 (Z.eqb_neq _ _) Hm). cbn [fst]. rewrite if_ltb_max. lia.
Qed.

(** The boundary of epoch 9 (height 3,150,000) raised the reward; a node that rolls back below it
    keeps the raised value at height 3,149,999, where a node that never crossed it has 0.75 coins. *)
Lemma tail_reward_depends_on_cache_witness :
  next_reward [0; 2; 0; 0] 3149999 TAIL_EMISSION = TAIL_EMISSION /\
  next_reward [0; 2; 0; 0] 3149999 (fst (CalculateBlockRewardAtHeight [0; 2; 0; 0] 3150000 TAIL_EMISSION))
    = 1581149492032 /\
  next_reward [0; 2; 0; 0] 3149999 1581149492032 = 1581149492032.
Proof.
  split; [vm_compute; reflexivity|]. split; [vm_compute; reflexivity|].
  apply (tail_reward_depends_on_cache [0; 2; 0; 0] 3149999); vm_compute; congruence.
Defined.
