(* ===== verification/Crypto.v ===== *)
(** * The cryptographic libraries, as an interface

    OpenSSL (SHA-256, BLAKE2b) and libsecp256k1 are not part of the repository.  [CryptoOps] is the
    record of the functions the code calls; every definition that hashes or verifies takes it as a
    class argument.  [CryptoLaws] states the documented behaviour the code relies on: digest sizes,
    and that a signature made with a valid secret key verifies under its public key.  [Toy] is a
    concrete instance that satisfies the laws and computes, used to evaluate witnesses.

    The wrappers of [src/crypto/crypto.c] and [src/blake2/blake2.c] are modelled on top. *)
From S2P Require Import Prelude Bytes.

Class CryptoOps := {
  SHA256 : bytes -> bytes;
  EVP_blake2b512 : bytes -> bytes;
  EVP_blake2s256 : bytes -> bytes;
  secp256k1_ec_pubkey_parse : bytes -> option bytes;
  secp256k1_ecdsa_signature_parse_compact : bytes -> option bytes;
  secp256k1_ecdsa_signature_serialize_compact : bytes -> bytes;
  secp256k1_ecdsa_verify : bytes -> bytes -> bytes -> bool; (* signature, digest, public key *)
  secp256k1_ec_seckey_verify : bytes -> bool;
  secp256k1_ecdsa_sign : bytes -> bytes -> option bytes;    (* digest, secret key *)
  secp256k1_ec_pubkey_create : bytes -> bytes               (* compressed key of a secret key *)
}.

Class CryptoLaws (ops : CryptoOps) : Prop := {
  sha256_size : forall m, bytes_n 32 (SHA256 m);
  blake2b_size : forall m, bytes_n 64 (EVP_blake2b512 m);
  sign_verifies : forall sk d s,
    secp256k1_ec_seckey_verify sk = true -> secp256k1_ecdsa_sign d sk = Some s ->
    exists pk, secp256k1_ec_pubkey_parse (secp256k1_ec_pubkey_create sk) = Some pk /\
      secp256k1_ecdsa_signature_parse_compact (secp256k1_ecdsa_signature_serialize_compact s) = Some s /\
      secp256k1_ecdsa_verify s d pk = true
}.

Section Wrappers.
Context {ops : CryptoOps}.

(** ** [src/blake2/blake2.c] *)

Definition Blake2_HashInternal (md : bytes -> bytes) (maxDigestLen : nat) (input : bytes) (outLen : nat) : option bytes :=
  if (outLen =? 0)%nat || (maxDigestLen <? outLen)%nat then None
  else
    let digest := md input in
    if (length digest <? outLen)%nat then None else Some (take outLen digest).

Definition Blake2b_Hash (input : bytes) (outLen : nat) : option bytes :=
  Blake2_HashInternal EVP_blake2b512 64 input outLen.

Definition Blake2s_Hash (input : bytes) (outLen : nat) : option bytes :=
  Blake2_HashInternal EVP_blake2s256 32 input outLen.

(** ** [src/crypto/crypto.c] *)

Definition Crypto_VerifySignature (data signature publicKey : bytes) : bool :=
  let digest := SHA256 data in
  match secp256k1_ec_pubkey_parse publicKey, secp256k1_ecdsa_signature_parse_compact signature with
  | Some pubkey, Some sig => secp256k1_ecdsa_verify sig digest pubkey
  | _, _ => false
  end.

Definition Crypto_SignData (data privateKey : bytes) : bytes :=
  let digest := SHA256 data in
  if negb (secp256k1_ec_seckey_verify privateKey) then zeros 64
  else match secp256k1_ecdsa_sign digest privateKey with
       | None => zeros 64
       | Some sig => secp256k1_ecdsa_signature_serialize_compact sig
       end.

(** The double hash used for transactions, blocks and Merkle nodes. *)
Definition sha256d (m : bytes) : bytes := SHA256 (SHA256 m).

Context {laws : CryptoLaws ops}.

Lemma sha256d_size m : bytes_n 32 (sha256d m).
Proof. apply sha256_size. Qed.

Lemma Blake2b_Hash_spec m n :
  (0 < n <= 64)%nat -> Blake2b_Hash m n = Some (take n (EVP_blake2b512 m)).
Proof.
  intros Hn. unfold Blake2b_Hash, Blake2_HashInternal. destruct (blake2b_size m) as [Hl _]. rewrite Hl.
  destruct (Nat.eqb_spec n 0), (Nat.ltb_spec 64 n); cbn; done || lia.
Qed.

Lemma sign_then_verify data sk :
  secp256k1_ec_seckey_verify sk = true -> secp256k1_ecdsa_sign (SHA256 data) sk <> None ->
  Crypto_VerifySignature data (Crypto_SignData data sk) (secp256k1_ec_pubkey_create sk) = true.
Proof.
  intros Hk Hs. unfold Crypto_SignData, Crypto_VerifySignature. rewrite Hk. cbn [negb].
  destruct (secp256k1_ecdsa_sign (SHA256 data) sk) as [s|] eqn:E; [|done].
  destruct (sign_verifies sk (SHA256 data) s Hk E) as (pk & -> & -> & Hv). done.
Qed.
End Wrappers.

(** ** A computable instance *)
Module Toy.
Definition mix (m : bytes) : Z := fold_left (fun h b => (h * 31 + b + 1) mod 65521) m 0.
Definition sha (m : bytes) : bytes := le_bytes 32 (mix m).
Definition blake (m : bytes) : bytes := zeros 8 ++ le_bytes 56 (mix m).

(** A signature is the digest masked with the key's hash, the public key 33 bytes derived from it. *)
Definition pub (sk : bytes) : bytes := 2 :: sha sk.
Definition sign (d sk : bytes) : bytes := sha (d ++ pub sk) ++ zeros 32.

#[export] Instance ops : CryptoOps := {|
  SHA256 := sha;
  EVP_blake2b512 := blake;
  EVP_blake2s256 := sha;
  secp256k1_ec_pubkey_parse pk := Some pk;
  secp256k1_ecdsa_signature_parse_compact s := Some s;
  secp256k1_ecdsa_signature_serialize_compact s := s;
  secp256k1_ecdsa_verify s d pk := memeq s (sha (d ++ pk) ++ zeros 32);
  secp256k1_ec_seckey_verify sk := (length sk =? 32)%nat;
  secp256k1_ecdsa_sign d sk := Some (sign d sk);
  secp256k1_ec_pubkey_create := pub
|}.

#[export] Instance laws : CryptoLaws ops.
Proof.
  constructor.
  - intros m. split; [apply length_le_bytes|apply le_bytes_ok].
  - intros m. cbn [EVP_blake2b512 ops]. unfold blake. split.
    + autorewrite with bytes. unfold zeros. rewrite length_replicate. done.
    + apply bytes_ok_app. split; [apply zeros_ok|apply le_bytes_ok].
  - intros sk d s _ [= <-]. exists (pub sk). repeat split. by apply memeq_true.
Qed.
End Toy.
