(* ===== verification/Transaction.v ===== *)
(** * Transactions ([include/block/transaction.h], [src/block/transaction.c])

    The packed 168-byte [transaction_t], the 232-byte [signed_transaction_t], hashing, signing and
    the stateless validity check. *)
From S2P Require Import Prelude Bytes UInt256 Utils Crypto.

Record transaction := mkTx {
  tx_timestamp : Z;
  tx_fee : Z;
  tx_amount1 : Z;
  tx_amount2 : Z;
  senderAddress : bytes;
  recipientAddress1 : bytes;
  recipientAddress2 : bytes;
  compressedPublicKey : bytes;
  tx_version : Z;
  tx_reserved : bytes
}.

Record signed_transaction := mkSigned {
  stx : transaction;
  stx_signature : bytes
}.

#[export] Instance transaction_eq_dec : EqDecision transaction.
Proof. solve_decision. Defined.
#[export] Instance signed_transaction_eq_dec : EqDecision signed_transaction.
Proof. solve_decision. Defined.

(** Field widths of the struct. *)
Definition tx_ok (t : transaction) : Prop :=
  is_u64 (tx_timestamp t) /\ is_u64 (tx_fee t) /\ is_u64 (tx_amount1 t) /\ is_u64 (tx_amount2 t) /\
  bytes_n 32 (senderAddress t) /\ bytes_n 32 (recipientAddress1 t) /\ bytes_n 32 (recipientAddress2 t) /\
  bytes_n 33 (compressedPublicKey t) /\ is_u8 (tx_version t) /\ bytes_n 6 (tx_reserved t).

Definition stx_ok (s : signed_transaction) : Prop := tx_ok (stx s) /\ bytes_n 64 (stx_signature s).

#[export] Instance stx_ok_dec s : Decision (stx_ok s).
Proof. unfold stx_ok, tx_ok; apply _. Defined.

(** ** Struct images *)

Definition transaction_bytes (t : transaction) : bytes :=
  le_bytes 8 (tx_timestamp t) ++ le_bytes 8 (tx_fee t) ++ le_bytes 8 (tx_amount1 t) ++
  le_bytes 8 (tx_amount2 t) ++ senderAddress t ++ recipientAddress1 t ++ recipientAddress2 t ++
  compressedPublicKey t ++ le_bytes 1 (tx_version t) ++ tx_reserved t.

Definition signed_transaction_bytes (s : signed_transaction) : bytes :=
  transaction_bytes (stx s) ++ stx_signature s.

Definition SIZEOF_TRANSACTION : nat := 168.
Definition SIZEOF_SIGNED_TRANSACTION : nat := 232.

(** Read a [signed_transaction_t] from the front of a byte string ([memcpy]/[fread] of the struct). *)
Definition read_signed_transaction (bs : bytes) : option (signed_transaction * bytes) :=
  '(ts, bs) ← cut 8 bs;
  '(fee, bs) ← cut 8 bs;
  '(a1, bs) ← cut 8 bs;
  '(a2, bs) ← cut 8 bs;
  '(sender, bs) ← cut 32 bs;
  '(r1, bs) ← cut 32 bs;
  '(r2, bs) ← cut 32 bs;
  '(pk, bs) ← cut 33 bs;
  '(ver, bs) ← cut 1 bs;
  '(res, bs) ← cut 6 bs;
  '(sig, bs) ← cut 64 bs;
  Some (mkSigned (mkTx (le_val ts) (le_val fee) (le_val a1) (le_val a2) sender r1 r2 pk (le_val ver) res) sig, bs).

(** ** Operations *)

(** 32 bytes of [0xFF]. *)
Definition COINBASE_ADDRESS : bytes := replicate 32 255.

Definition Address_IsCoinbase (address : bytes) : bool := forallb (Z.eqb 255) address.

Definition Transaction_Init : signed_transaction :=
  mkSigned (mkTx 0 0 0 0 (zeros 32) (zeros 32) (zeros 32) (zeros 33) 0 (zeros 6)) (zeros 64).

Definition is_coinbase (s : signed_transaction) : bool := Address_IsCoinbase (senderAddress (stx s)).

Section Operations.
Context {ops : CryptoOps}.

Definition Transaction_CalculateHash (s : signed_transaction) : bytes :=
  sha256d (transaction_bytes (stx s)).

Definition Transaction_Sign (s : signed_transaction) (privateKey : bytes) : signed_transaction :=
  mkSigned (stx s) (Crypto_SignData (Transaction_CalculateHash s) privateKey).

Definition Transaction_Verify (s : signed_transaction) : bool :=
  let t := stx s in
  if Address_IsCoinbase (senderAddress t) then
    if tx_amount1 t =? 0 then false
    else if negb (tx_amount2 t =? 0) then false
    else if Address_IsCoinbase (recipientAddress1 t) || Address_IsCoinbase (recipientAddress2 t) then false
    else if negb (memeq (recipientAddress2 t) (zeros 32)) then false
    else true
  else
    let computeAddress := SHA256 (compressedPublicKey t) in
    if negb (memeq computeAddress (senderAddress t)) then false
    else if tx_amount1 t =? 0 then false
    else if tx_amount1 t <? tx_fee t then false
    else if negb (tx_version t =? 1) then false
    else if Address_IsCoinbase (recipientAddress1 t) || Address_IsCoinbase (recipientAddress2 t) then false
    else if (tx_amount2 t =? 0) && negb (memeq (recipientAddress2 t) (zeros 32)) then false
    else Crypto_VerifySignature (Transaction_CalculateHash s) (stx_signature s) (compressedPublicKey t).
End Operations.

(** ** Lemmas *)

Lemma coinbase_address_iff a : length a = 32%nat -> Address_IsCoinbase a = true <-> a = COINBASE_ADDRESS.
Proof.
  intros Hl. split.
  - unfold Address_IsCoinbase, COINBASE_ADDRESS. rewrite <- Hl. clear Hl.
    induction a as [|x a IH]; intros H; [done|]. cbn [forallb] in H. apply andb_true_iff in H as [Hx H].
    apply Z.eqb_eq in Hx. cbn [length replicate]. rewrite <- (IH H), Hx. done.
  - intros ->. reflexivity.
Qed.

Lemma length_transaction_bytes t : tx_ok t -> length (transaction_bytes t) = SIZEOF_TRANSACTION.
Proof.
  intros (_ & _ & _ & _ & [H1 _] & [H2 _] & [H3 _] & [H4 _] & _ & [H5 _]).
  unfold transaction_bytes. autorewrite with bytes. rewrite H1, H2, H3, H4, H5. reflexivity.
Qed.

Lemma length_signed_transaction_bytes s :
  stx_ok s -> length (signed_transaction_bytes s) = SIZEOF_SIGNED_TRANSACTION.
Proof.
  intros [Ht [Hs _]]. unfold signed_transaction_bytes. rewrite length_app, length_transaction_bytes, Hs by done.
  reflexivity.
Qed.

Lemma bytes_ok_signed s : stx_ok s -> bytes_ok (signed_transaction_bytes s).
Proof.
  intros [(_ & _ & _ & _ & [_ H1] & [_ H2] & [_ H3] & [_ H4] & _ & [_ H5]) [_ H6]].
  unfold signed_transaction_bytes, transaction_bytes. rewrite !bytes_ok_app.
  repeat split; auto with bytes.
Qed.

Lemma read_signed_app s rest :
  stx_ok s -> read_signed_transaction (signed_transaction_bytes s ++ rest) = Some (s, rest).
Proof.
  destruct s as [[ts f a1 a2 sd r1 r2 pk v rs] sg].
  intros [(Hts & Hf & Ha1 & Ha2 & [L1 _] & [L2 _] & [L3 _] & [L4 _] & Hv & [L5 _]) [L6 _]].
  cbn [stx stx_signature tx_timestamp tx_fee tx_amount1 tx_amount2 senderAddress recipientAddress1
       recipientAddress2 compressedPublicKey tx_version tx_reserved] in *.
  unfold read_signed_transaction, signed_transaction_bytes, transaction_bytes.
  cbn [stx stx_signature tx_timestamp tx_fee tx_amount1 tx_amount2 senderAddress recipientAddress1
       recipientAddress2 compressedPublicKey tx_version tx_reserved].
  rewrite <- !app_assoc.
  repeat (rewrite cut_app by (apply length_le_bytes || done); cbn [mbind option_bind]).
  by rewrite !le_val_8, le_val_1 by done.
Qed.

(** Conversely, what is read writes back to the bytes it was read from, with fields in range. *)
Lemma read_signed_inv bs s rest :
  bytes_ok bs -> read_signed_transaction bs = Some (s, rest) ->
  stx_ok s /\ bs = signed_transaction_bytes s ++ rest.
Proof.
  intros Hbs H. unfold read_signed_transaction in H.
  invert_cuts H.
  injection H as <- <-. split.
  - split; [|by split]. cbn. unfold tx_ok. cbn.
    solve_field_ranges.
  - unfold signed_transaction_bytes, transaction_bytes. cbn [stx stx_signature tx_timestamp tx_fee
      tx_amount1 tx_amount2 senderAddress recipientAddress1 recipientAddress2 compressedPublicKey
      tx_version tx_reserved]. rewrite <- !app_assoc.
    rewrite_fields. reflexivity.
Qed.

(** What [Transaction_Verify] accepts, declaratively. *)
Definition tx_valid {ops : CryptoOps} (s : signed_transaction) : Prop :=
  let t := stx s in
  tx_amount1 t <> 0 /\ recipientAddress1 t <> COINBASE_ADDRESS /\ recipientAddress2 t <> COINBASE_ADDRESS /\
  (tx_amount2 t = 0 -> recipientAddress2 t = zeros 32) /\
  if decide (senderAddress t = COINBASE_ADDRESS)
  then tx_amount2 t = 0
  else senderAddress t = SHA256 (compressedPublicKey t) /\ tx_fee t <= tx_amount1 t /\ tx_version t = 1 /\
       Crypto_VerifySignature (Transaction_CalculateHash s) (stx_signature s) (compressedPublicKey t) = true.

Lemma is_coinbase_iff s : stx_ok s -> is_coinbase s = true <-> senderAddress (stx s) = COINBASE_ADDRESS.
Proof. intros [(_ & _ & _ & _ & [Hl _] & _) _]. by apply coinbase_address_iff. Qed.

Lemma coinbase_address_false a :
  length a = 32%nat -> Address_IsCoinbase a = false <-> a <> COINBASE_ADDRESS.
Proof. intros H. rewrite <- (coinbase_address_iff a H). by destruct (Address_IsCoinbase a). Qed.

Lemma Transaction_Verify_iff {ops : CryptoOps} s :
  stx_ok s -> Transaction_Verify s = true <-> tx_valid s.
Proof.
  intros [(_ & _ & _ & _ & [L0 _] & [L1 _] & [L2 _] & _) _].
  unfold Transaction_Verify, tx_valid. cbv zeta.
  set (t := stx s) in *.
  destruct (decide (senderAddress t = COINBASE_ADDRESS)) as [E|E].
  - rewrite (proj2 (coinbase_address_iff _ L0) E).
    rewrite <- (coinbase_address_false _ L1), <- (coinbase_address_false _ L2), <- memeq_true.
    destruct (Z.eqb_spec (tx_amount1 t) 0), (Z.eqb_spec (tx_amount2 t) 0),
      (Address_IsCoinbase (recipientAddress1 t)), (Address_IsCoinbase (recipientAddress2 t)),
      (memeq (recipientAddress2 t) (zeros 32)); cbn; intuition congruence.
  - rewrite (proj2 (coinbase_address_false _ L0) E).
    rewrite <- (coinbase_address_false _ L1), <- (coinbase_address_false _ L2), <- memeq_true.
    assert (Em : memeq (SHA256 (compressedPublicKey t)) (senderAddress t) = true
                 <-> senderAddress t = SHA256 (compressedPublicKey t)) by (rewrite memeq_true; intuition congruence).
    rewrite <- Em.
    destruct (Z.eqb_spec (tx_amount1 t) 0), (Z.eqb_spec (tx_amount2 t) 0), (Z.eqb_spec (tx_version t) 1),
      (Z.ltb_spec (tx_amount1 t) (tx_fee t)),
      (memeq (SHA256 (compressedPublicKey t)) (senderAddress t)),
      (Address_IsCoinbase (recipientAddress1 t)), (Address_IsCoinbase (recipientAddress2 t)),
      (memeq (recipientAddress2 t) (zeros 32)); cbn [negb andb orb]; intuition (congruence || lia).
Qed.

(** The hash covers the transaction, not the signature: signing leaves it unchanged. *)
Lemma Transaction_Sign_hash {ops : CryptoOps} s sk :
  Transaction_CalculateHash (Transaction_Sign s sk) = Transaction_CalculateHash s.
Proof. reflexivity. Qed.

(** ** Fees and coinbases of a transaction list *)

Definition fee_of (tx : signed_transaction) : Z := if is_coinbase tx then 0 else tx_fee (stx tx).
Definition fee_sum (txs : list signed_transaction) : Z := foldr (fun tx acc => fee_of tx + acc) 0 txs.
Definition coinbase_count (txs : list signed_transaction) : nat := length (filter (fun tx => is_coinbase tx = true) txs).

Lemma fee_sum_nonneg txs : Forall stx_ok txs -> 0 <= fee_sum txs.
Proof.
  induction 1 as [|tx r Hx _ IH]; cbn [fee_sum foldr] in *; [lia|]. fold (fee_sum r) in *.
  destruct Hx as [(_ & Hf & _) _]. unfold fee_of. unfold_cint. destruct (is_coinbase tx); lia.
Qed.

Lemma fee_sum_cons tx r : fee_sum (tx :: r) = fee_of tx + fee_sum r.
Proof. reflexivity. Qed.

Lemma coinbase_count_cons tx r :
  coinbase_count (tx :: r) = ((if is_coinbase tx then 1 else 0) + coinbase_count r)%nat.
Proof. unfold coinbase_count. cbn. destruct (is_coinbase tx); cbn; done. Qed.

(** ** Properties *)

(** The 232-byte struct image round-trips in both directions: reading back a written
    transaction returns it and the bytes behind it, and whatever can be read from a byte string is a
    transaction in range whose image is exactly the bytes consumed -- so two different transactions
    never share an image, and the hash preimage is unambiguous. *)
Theorem signed_transaction_roundtrip (s : signed_transaction) (rest bs : bytes) :
  stx_ok s -> bytes_ok bs ->
  length (signed_transaction_bytes s) = SIZEOF_SIGNED_TRANSACTION /\
  read_signed_transaction (signed_transaction_bytes s ++ rest) = Some (s, rest) /\
  match read_signed_transaction bs with
  | Some (s', rest') => stx_ok s' /\ bs = signed_transaction_bytes s' ++ rest'
  | None => (length bs < SIZEOF_SIGNED_TRANSACTION)%nat
  end.
Proof.
  intros Hs Hbs. split; [by apply length_signed_transaction_bytes|].
  split; [by apply read_signed_app|].
  destruct (read_signed_transaction bs) as [[s' r]|] eqn:E; [by apply read_signed_inv|].
  unfold read_signed_transaction in E.
  unfold SIZEOF_SIGNED_TRANSACTION. solve_short E.
Qed.

Definition sample_tx : signed_transaction :=
  mkSigned (mkTx 1700000000000 7 1000 0 (replicate 32 1) (replicate 32 2) (zeros 32) (replicate 33 3) 1 (zeros 6))
    (replicate 64 9).

Lemma sample_tx_ok : stx_ok sample_tx.
Proof. vm_decide. Qed.

Lemma signed_transaction_roundtrip_witness :
  length (signed_transaction_bytes sample_tx) = SIZEOF_SIGNED_TRANSACTION /\
  read_signed_transaction (signed_transaction_bytes sample_tx ++ [5; 6]) = Some (sample_tx, [5; 6]) /\
  match read_signed_transaction (zeros 231) with
  | Some (s', rest') => stx_ok s' /\ zeros 231 = signed_transaction_bytes s' ++ rest'
  | None => (length (zeros 231) < SIZEOF_SIGNED_TRANSACTION)%nat
  end.
Proof. apply (signed_transaction_roundtrip sample_tx [5; 6] (zeros 231)); [apply sample_tx_ok|apply zeros_ok]. Defined.

(** A wallet's own transaction is accepted: signing a well-formed version-1 payment from the
    address of the key (positive amount, fee within the amount, no payment to the coinbase address,
    empty second recipient when unused) yields a transaction that [Transaction_Verify] accepts, and
    leaves its hash unchanged. *)
Theorem signed_payment_verifies {ops : CryptoOps} {laws : CryptoLaws ops} (s : signed_transaction) (sk : bytes) :
  stx_ok s -> secp256k1_ec_seckey_verify sk = true ->
  secp256k1_ecdsa_sign (SHA256 (Transaction_CalculateHash s)) sk <> None ->
  compressedPublicKey (stx s) = secp256k1_ec_pubkey_create sk ->
  senderAddress (stx s) = SHA256 (compressedPublicKey (stx s)) ->
  senderAddress (stx s) <> COINBASE_ADDRESS ->
  0 < tx_amount1 (stx s) -> tx_fee (stx s) <= tx_amount1 (stx s) -> tx_version (stx s) = 1 ->
  recipientAddress1 (stx s) <> COINBASE_ADDRESS -> recipientAddress2 (stx s) <> COINBASE_ADDRESS ->
  (tx_amount2 (stx s) = 0 -> recipientAddress2 (stx s) = zeros 32) ->
  Transaction_Verify (Transaction_Sign s sk) = true /\
  Transaction_CalculateHash (Transaction_Sign s sk) = Transaction_CalculateHash s.
Proof.
  intros [Ht Hsig] Hk Hsign Hpk Hsender Hncb Ha Hf Hv Hr1 Hr2 Hz. split; [|done].
  destruct Ht as (_ & _ & _ & _ & [L0 _] & [L1 _] & [L2 _] & _).
  unfold Transaction_Verify. cbn [Transaction_Sign stx stx_signature].
  rewrite (proj2 (coinbase_address_false _ L0) Hncb), (proj2 (coinbase_address_false _ L1) Hr1),
    (proj2 (coinbase_address_false _ L2) Hr2), Transaction_Sign_hash.
  rewrite (proj2 (memeq_true _ _) (eq_sym Hsender)).
  destruct (Z.eqb_spec (tx_amount1 (stx s)) 0); [lia|].
  destruct (Z.ltb_spec (tx_amount1 (stx s)) (tx_fee (stx s))); [lia|].
  rewrite Hv. cbn [negb orb Z.eqb].
  assert (E : (tx_amount2 (stx s) =? 0) && negb (memeq (recipientAddress2 (stx s)) (zeros 32)) = false).
  { destruct (Z.eqb_spec (tx_amount2 (stx s)) 0); [|done].
    by rewrite (proj2 (memeq_true _ _) (Hz e)). }
  rewrite E, Hpk. by apply sign_then_verify.
Qed.

Definition sample_key : bytes := replicate 32 5.
Definition sample_payment : signed_transaction :=
  mkSigned (mkTx 1700000000000 7 1000 0 (Toy.sha (Toy.pub sample_key)) (replicate 32 2) (zeros 32)
    (Toy.pub sample_key) 1 (zeros 6)) (zeros 64).

Lemma sample_payment_ok : stx_ok sample_payment.
Proof. vm_decide. Qed.

#[local] Existing Instances Toy.ops Toy.laws.

Lemma signed_payment_verifies_witness :
  Transaction_Verify (Transaction_Sign sample_payment sample_key) = true /\
  Transaction_CalculateHash (Transaction_Sign sample_payment sample_key) = Transaction_CalculateHash sample_payment.
Proof.
  apply (signed_payment_verifies sample_payment sample_key); try reflexivity; try (vm_compute; congruence).
  apply sample_payment_ok.
Defined.
