(* ===== verification/Autolykos2.v ===== *)
(** * The proof-of-work hash ([src/autolykos2/autolykos2.c])

    The memory-hard hash reads 32 pseudo-random 32-byte lanes, either from the generated DAG of a
    context or recomputed from the epoch seed, and folds them into the message hash.  The optional
    reference backend ([SKALACOIN_AUTOLYKOS2_REF_AVAILABLE]) and the throttling sleep are left out.
    The main result is that the two lane sources agree, so the heavy and the light hash are equal. *)
From S2P Require Import Prelude Bytes Utils Crypto.

(** ** State *)

Record dag_buffer := mkDag { dag_buf : option bytes; dag_cap : Z; dag_len : Z }.
Record Autolykos2Context := mkCtx { dag : dag_buffer }.

Definition slice (off n : nat) (bs : bytes) : bytes := take n (drop off bs).

(** [memcpy(buf + off, data, length data)]. *)
Definition memcpy_at (off : nat) (data buf : bytes) : bytes :=
  take off buf ++ data ++ drop (off + length data) buf.

Definition WriteU64LE (v : Z) : bytes :=
  map (fun k => u8 (Z.land (Z.shiftr v (8 * k)) 255)) [0; 1; 2; 3; 4; 5; 6; 7].

Definition WriteU32LE (v : Z) : bytes :=
  map (fun k => u8 (Z.land (Z.shiftr v (8 * k)) 255)) [0; 1; 2; 3].

Definition ROUNDS : nat := 32.

Section Hash.
Context {ops : CryptoOps}.

(** ** Hashing *)

Definition Autolykos2_FallbackHash (seed32 message : bytes) (nonce height : Z) : option bytes :=
  let nonceBytes := le_bytes 8 nonce in
  let heightBytes := le_bytes 8 height in
  Blake2b_Hash (seed32 ++ message ++ nonceBytes ++ heightBytes) 32.

Definition DeriveSeedFromMessage (message : bytes) : option bytes := Blake2b_Hash message 32.

Definition ComputeLaneIndex (seed32 : bytes) (nonce height round laneCount : Z) : option Z :=
  if laneCount =? 0 then None
  else
    digest ← Blake2b_Hash (seed32 ++ WriteU64LE nonce ++ WriteU64LE height ++ WriteU32LE round) 32;
    let raw :=
      Z.lor (Z.lor (Z.lor (nth 0 digest 0) (Z.shiftl (nth 1 digest 0) 8))
        (Z.shiftl (nth 2 digest 0) 16)) (Z.shiftl (nth 3 digest 0) 24) in
    Some (raw mod laneCount).

Definition ReadDagLaneFromContext (ctx : option Autolykos2Context) (laneIndex : Z) : option bytes :=
  c ← ctx;
  buf ← dag_buf (dag c);
  let offset := laneIndex * 32 in
  if dag_len (dag c) <? offset + 32 then None else Some (slice (Z.to_nat offset) 32 buf).

Definition ReadDagLaneFromSeed (seed32 : bytes) (laneIndex : Z) : option bytes :=
  let counter := laneIndex / 2 in
  let upperHalf := negb (Z.land laneIndex 1 =? 0) in
  digest ← Blake2b_Hash (seed32 ++ WriteU64LE counter) 64;
  Some (slice (if upperHalf then 32 else 0) 32 digest).

Definition xor_bytes (a b : bytes) : bytes := zip_with Z.lxor a b.

(** One round: pick a lane, read it from the chosen source. *)
Definition read_lane (messageSeed32 : bytes) (dagSeed32 : option bytes) (ctx : option Autolykos2Context)
    (useContextDag : bool) (laneIndex : Z) : option bytes :=
  if useContextDag then ReadDagLaneFromContext ctx laneIndex
  else ReadDagLaneFromSeed (default messageSeed32 dagSeed32) laneIndex.

Fixpoint hash_rounds (n : nat) (round : Z) (messageSeed32 : bytes) (dagSeed32 : option bytes)
    (nonce height laneCount : Z) (ctx : option Autolykos2Context) (useContextDag : bool) (acc : bytes) : option bytes :=
  match n with
  | O => Some acc
  | S m =>
      laneIndex ← ComputeLaneIndex messageSeed32 nonce height round laneCount;
      lane ← read_lane messageSeed32 dagSeed32 ctx useContextDag laneIndex;
      hash_rounds m (round + 1) messageSeed32 dagSeed32 nonce height laneCount ctx useContextDag (xor_bytes acc lane)
  end.

Definition Autolykos2_HashCore (messageSeed32 : bytes) (dagSeed32 : option bytes) (message : bytes)
    (nonce height laneCount : Z) (ctx : option Autolykos2Context) (useContextDag : bool) : option bytes :=
  if laneCount =? 0 then None
  else
    acc ← hash_rounds ROUNDS 0 messageSeed32 dagSeed32 nonce height laneCount ctx useContextDag (zeros 32);
    baseHash ← Autolykos2_FallbackHash messageSeed32 message nonce height;
    accHash ← Blake2b_Hash acc 32;
    Blake2b_Hash (baseHash ++ accHash ++ WriteU64LE nonce ++ WriteU64LE height) 32.

(** ** Context operations *)

Definition Autolykos2_Create : Autolykos2Context := mkCtx (mkDag None 0 0).

Definition Autolykos2_DagAllocate (ctx : Autolykos2Context) (size : Z) : Autolykos2Context :=
  mkCtx (mkDag (Some (zeros (Z.to_nat size))) size
           (if size <? dag_len (dag ctx) then size else dag_len (dag ctx))).

Definition Autolykos2_DagAppend (ctx : Autolykos2Context) (data : bytes) : option Autolykos2Context :=
  let len := Z.of_nat (length data) in
  if len =? 0 then None
  else if dag_cap (dag ctx) <? dag_len (dag ctx) + len then None
  else buf ← dag_buf (dag ctx);
       Some (mkCtx (mkDag (Some (memcpy_at (Z.to_nat (dag_len (dag ctx))) data buf))
                      (dag_cap (dag ctx)) (dag_len (dag ctx) + len))).

(** The generation loop; [fuel] bounds the number of 64-byte chunks. *)
Fixpoint dag_fill (fuel : nat) (seed32 : bytes) (cap offset : nat) (counter : Z) (buf : bytes) : option bytes :=
  if (cap <=? offset)%nat then Some buf
  else match fuel with
  | O => None
  | S f =>
      digest ← Blake2b_Hash (seed32 ++ WriteU64LE counter) 64;
      let chunk := Nat.min (cap - offset) 64 in
      dag_fill f seed32 cap (offset + chunk) (counter + 1) (memcpy_at offset (take chunk digest) buf)
  end.

Definition Autolykos2_DagGenerate (ctx : Autolykos2Context) (seed32 : bytes) : option Autolykos2Context :=
  buf ← dag_buf (dag ctx);
  if dag_cap (dag ctx) =? 0 then None
  else
    let cap := Z.to_nat (dag_cap (dag ctx)) in
    buf' ← dag_fill cap seed32 cap 0 0 buf;
    Some (mkCtx (mkDag (Some buf') (dag_cap (dag ctx)) (dag_cap (dag ctx)))).

Definition Autolykos2_DagClear (ctx : Autolykos2Context) : Autolykos2Context :=
  match dag_buf (dag ctx) with
  | None => ctx
  | Some _ => mkCtx (mkDag (Some (zeros (Z.to_nat (dag_cap (dag ctx))))) (dag_cap (dag ctx)) 0)
  end.

Definition Autolykos2_DagSize (ctx : option Autolykos2Context) : Z :=
  match ctx with Some c => dag_len (dag c) | None => 0 end.

(** ** Entry points *)

Definition Autolykos2_Hash (ctx : Autolykos2Context) (message : bytes) (nonce height : Z) : option bytes :=
  match dag_buf (dag ctx) with
  | None => None
  | Some _ =>
      if (dag_len (dag ctx) <? 32) || negb (dag_len (dag ctx) mod 32 =? 0) then None
      else
        seed32 ← DeriveSeedFromMessage message;
        let laneCount64 := dag_len (dag ctx) / 32 in
        if (laneCount64 =? 0) || (U32_MAX <? laneCount64) then None
        else Autolykos2_HashCore seed32 None message nonce height laneCount64 (Some ctx) true
  end.

Definition Autolykos2_LightHashAtHeight (seed32 message : bytes) (nonce height dagBytes : Z) : option bytes :=
  if (dagBytes <? 32) || negb (dagBytes mod 32 =? 0) then None
  else
    let laneCount64 := dagBytes / 32 in
    if (laneCount64 =? 0) || (U32_MAX <? laneCount64) then None
    else
      messageSeed32 ← DeriveSeedFromMessage message;
      Autolykos2_HashCore messageSeed32 (Some seed32) message nonce height laneCount64 None false.

(** [Some hash] when the target is met. *)
Definition Autolykos2_CheckTarget (ctx : Autolykos2Context) (message32 : bytes) (nonce height : Z)
    (target32 : bytes) : option bytes :=
  outHash ← Autolykos2_Hash ctx message32 nonce height;
  if Cmp256BE outHash target32 <=? 0 then Some outHash else None.

(** The nonce search: at most [n] consecutive nonces, wrapping at [2^64]. *)
Fixpoint find_nonce (n : nat) (ctx : Autolykos2Context) (message32 : bytes) (height : Z) (target32 : bytes)
    (nonce : Z) : option (Z * bytes) :=
  match n with
  | O => None
  | S m =>
      match Autolykos2_CheckTarget ctx message32 nonce height target32 with
      | Some h => Some (nonce, h)
      | None => find_nonce m ctx message32 height target32 (nonce +u64 1)
      end
  end.

Definition Autolykos2_FindNonceSingleCore (ctx : Autolykos2Context) (message32 : bytes) (height : Z)
    (target32 : bytes) (startNonce maxIterations : Z) : option (Z * bytes) :=
  find_nonce (Z.to_nat maxIterations) ctx message32 height target32 startNonce.
End Hash.

(** ** The generated DAG holds, in lane [i], what the seed yields for lane [i] *)

Lemma length_memcpy_at off data buf :
  (off + length data <= length buf)%nat -> length (memcpy_at off data buf) = length buf.
Proof. intros H. unfold memcpy_at. rewrite !length_app, length_take, length_drop. lia. Qed.

Lemma lookup_slice i n (bs : bytes) k :
  slice i n bs !! k = if (k <? n)%nat then bs !! (i + k)%nat else None.
Proof.
  unfold slice. destruct (Nat.ltb_spec k n).
  - rewrite lookup_take_lt by done. apply lookup_drop.
  - apply lookup_take_ge. lia.
Qed.

Lemma lookup_memcpy_at off data buf k :
  (off + length data <= length buf)%nat ->
  memcpy_at off data buf !! k =
  if (k <? off)%nat then buf !! k
  else if (k <? off + length data)%nat then data !! (k - off)%nat else buf !! k.
Proof.
  intros H. unfold memcpy_at. destruct (Nat.ltb_spec k off).
  - rewrite lookup_app_l by (rewrite length_take; lia). by apply lookup_take_lt.
  - rewrite lookup_app_r by (rewrite length_take; lia). rewrite length_take, Nat.min_l by lia.
    destruct (Nat.ltb_spec k (off + length data)).
    + apply lookup_app_l. lia.
    + rewrite lookup_app_r by lia. rewrite lookup_drop. f_equal. lia.
Qed.

Lemma slice_memcpy_before i n off data buf :
  (i + n <= off)%nat -> (off + length data <= length buf)%nat ->
  slice i n (memcpy_at off data buf) = slice i n buf.
Proof.
  intros H1 H2. apply list_eq. intros k. rewrite !lookup_slice. destruct (Nat.ltb_spec k n); [|done].
  rewrite lookup_memcpy_at by done. destruct (Nat.ltb_spec (i + k) off); [done|lia].
Qed.

Lemma slice_memcpy_inside i n off data buf :
  (off <= i)%nat -> (i + n <= off + length data)%nat -> (off + length data <= length buf)%nat ->
  slice i n (memcpy_at off data buf) = slice (i - off) n data.
Proof.
  intros H1 H2 H3. apply list_eq. intros k. rewrite !lookup_slice. destruct (Nat.ltb_spec k n); [|done].
  rewrite lookup_memcpy_at by done. destruct (Nat.ltb_spec (i + k) off); [lia|].
  destruct (Nat.ltb_spec (i + k) (off + length data)); [f_equal; lia|lia].
Qed.

Lemma slice_take i n m (bs : bytes) : (i + n <= m)%nat -> slice i n (take m bs) = slice i n bs.
Proof.
  intros H. apply list_eq. intros k. rewrite !lookup_slice. destruct (Nat.ltb_spec k n); [|done].
  apply lookup_take_lt. lia.
Qed.

Section Equivalence.
Context {ops : CryptoOps} {laws : CryptoLaws ops}.

(** Lane [i] of the DAG of [seed]. *)
Definition seed_lane (seed : bytes) (i : nat) : bytes :=
  slice (if (i mod 2 =? 0)%nat then 0 else 32) 32 (EVP_blake2b512 (seed ++ WriteU64LE (Z.of_nat (i / 2)))).

Lemma ReadDagLaneFromSeed_spec seed (i : nat) :
  ReadDagLaneFromSeed seed (Z.of_nat i) = Some (seed_lane seed i).
Proof.
  unfold ReadDagLaneFromSeed, seed_lane. rewrite Blake2b_Hash_spec by lia. cbn [mbind option_bind].
  rewrite take_ge by (destruct (blake2b_size (seed ++ WriteU64LE (Z.of_nat i / 2))) as [-> _]; lia).
  change 1 with (Z.ones 1). rewrite Z.land_ones by lia. change (2 ^ 1) with 2.
  replace (Z.of_nat i / 2) with (Z.of_nat (i / 2)) by apply Nat2Z.inj_div.
  replace (Z.of_nat i mod 2) with (Z.of_nat (i mod 2)) by apply Nat2Z.inj_mod.
  destruct (Nat.eqb_spec (i mod 2) 0) as [E|E], (Z.eqb_spec (Z.of_nat (i mod 2)) 0); done || lia.
Qed.

(** Loop invariant of the generation: every lane below the offset is in place. *)
Definition lanes_below (seed : bytes) (limit : nat) (buf : bytes) : Prop :=
  forall i, (32 * i + 32 <= limit)%nat -> slice (32 * i) 32 buf = seed_lane seed i.

Lemma lanes_below_step seed cap c buf :
  length buf = cap -> (64 * c < cap)%nat -> (cap mod 32 = 0)%nat -> lanes_below seed (64 * c) buf ->
  let chunk := Nat.min (cap - 64 * c) 64 in
  let buf' := memcpy_at (64 * c) (take chunk (EVP_blake2b512 (seed ++ WriteU64LE (Z.of_nat c)))) buf in
  length buf' = cap /\ lanes_below seed (64 * c + chunk) buf'.
Proof.
  intros Hl Hlt Hm Hinv chunk buf'. subst buf'. set (d := EVP_blake2b512 _).
  assert (Hd : length (take chunk d) = chunk).
  { rewrite length_take. destruct (blake2b_size (seed ++ WriteU64LE (Z.of_nat c))) as [E _]. fold d in E. lia. }
  split; [rewrite length_memcpy_at; lia|]. intros i Hi.
  destruct (Nat.le_gt_cases (32 * i + 32) (64 * c)) as [Hlow|Hhigh].
  - rewrite slice_memcpy_before by lia. by apply Hinv.
  - assert (Ei : i = (2 * c)%nat \/ i = (2 * c + 1)%nat) by lia.
    rewrite slice_memcpy_inside by lia. rewrite slice_take by lia.
    unfold seed_lane. destruct Ei as [-> | ->].
    + replace ((2 * c) / 2)%nat with c by (apply (Nat.div_unique _ _ _ 0); lia).
      replace ((2 * c) mod 2)%nat with 0%nat by (apply (Nat.mod_unique _ _ c); lia).
      cbn [Nat.eqb]. fold d. f_equal. lia.
    + replace ((2 * c + 1) / 2)%nat with c by (apply (Nat.div_unique _ _ _ 1); lia).
      replace ((2 * c + 1) mod 2)%nat with 1%nat by (apply (Nat.mod_unique _ _ c); lia).
      cbn [Nat.eqb]. fold d. f_equal. lia.
Qed.

Lemma dag_fill_done fuel seed cap off c buf :
  (cap <= off)%nat -> dag_fill fuel seed cap off c buf = Some buf.
Proof. intros H. destruct fuel; cbn [dag_fill]; by rewrite (proj2 (Nat.leb_le cap off)). Qed.

Lemma dag_fill_spec fuel seed cap c buf :
  length buf = cap -> (cap mod 32 = 0)%nat -> (cap <= 64 * c + 64 * fuel)%nat ->
  lanes_below seed (Nat.min cap (64 * c)) buf -> (64 * c <= cap)%nat ->
  exists buf', dag_fill fuel seed cap (64 * c) (Z.of_nat c) buf = Some buf' /\
    length buf' = cap /\ lanes_below seed cap buf'.
Proof.
  revert c buf; induction fuel as [|fuel IH]; intros c buf Hl Hm Hf Hinv Hle.
  - exists buf. rewrite dag_fill_done by lia. rewrite Nat.min_l in Hinv by lia. auto.
  - destruct (Nat.le_gt_cases cap (64 * c)) as [Hge|Hlt].
    { exists buf. rewrite dag_fill_done by lia. rewrite Nat.min_l in Hinv by lia. auto. }
    rewrite Nat.min_r in Hinv by lia.
    destruct (lanes_below_step seed cap c buf Hl Hlt Hm Hinv) as [Hl' Hinv'].
    cbn [dag_fill]. rewrite (proj2 (Nat.leb_gt cap (64 * c))) by lia.
    rewrite Blake2b_Hash_spec by lia. cbn [mbind option_bind].
    rewrite (take_ge _ 64) by (destruct (blake2b_size (seed ++ WriteU64LE (Z.of_nat c))) as [-> _]; lia).
    destruct (Nat.le_gt_cases (cap - 64 * c) 64) as [Hlast|Hmore].
    + rewrite Nat.min_l in * by lia. replace (64 * c + (cap - 64 * c))%nat with cap in * by lia.
      eexists. rewrite dag_fill_done by lia. eauto.
    + rewrite Nat.min_r in * by lia. replace (64 * c + 64)%nat with (64 * (c + 1))%nat in * by lia.
      replace (Z.of_nat c + 1) with (Z.of_nat (c + 1)) by lia.
      apply IH; auto; try lia. by rewrite Nat.min_r by lia.
Qed.

(** ** Heavy and light hash *)

(** The context holds the DAG generated from [seed] at [size] bytes. *)
Definition ctx_holds (ctx : Autolykos2Context) (seed : bytes) (size : Z) : Prop :=
  exists buf, dag_buf (dag ctx) = Some buf /\ dag_len (dag ctx) = size /\ dag_cap (dag ctx) = size /\
    Z.of_nat (length buf) = size /\ lanes_below seed (length buf) buf.

Lemma DagGenerate_holds ctx seed size :
  0 < size -> size mod 32 = 0 ->
  exists ctx', Autolykos2_DagGenerate (Autolykos2_DagAllocate ctx size) seed = Some ctx' /\
    ctx_holds ctx' seed size.
Proof.
  intros Hs Hm. unfold Autolykos2_DagGenerate, Autolykos2_DagAllocate. cbn [dag dag_buf dag_cap mbind option_bind].
  rewrite (proj2 (Z.eqb_neq size 0)) by lia.
  assert (Hz : length (zeros (Z.to_nat size)) = Z.to_nat size) by apply length_replicate.
  destruct (dag_fill_spec (Z.to_nat size) seed (Z.to_nat size) 0 (zeros (Z.to_nat size))) as (buf' & E & Hl & Hinv);
    [done| |lia|intros i Hi; lia|lia|].
  { apply Nat2Z.inj. rewrite Nat2Z.inj_mod, Z2Nat.id by lia. exact Hm. }
  change (64 * 0)%nat with 0%nat in E. change (Z.of_nat 0) with 0 in E. rewrite E. cbn [mbind option_bind].
  eexists. split; [done|]. exists buf'. cbn. rewrite Hl. repeat split; try lia. done.
Qed.

Lemma read_lane_agree ctx seed size mseed i :
  ctx_holds ctx seed size -> 0 <= i -> i * 32 + 32 <= size ->
  read_lane mseed None (Some ctx) true i = read_lane mseed (Some seed) None false i.
Proof.
  intros (buf & Hb & Hlen & _ & Hl & Hinv) Hi Hsz. unfold read_lane, ReadDagLaneFromContext.
  cbn [mbind option_bind default]. rewrite Hb. cbn [mbind option_bind].
  rewrite Hlen. rewrite (proj2 (Z.ltb_ge _ _)) by lia.
  rewrite <- (Z2Nat.id i) at 2 by lia. rewrite ReadDagLaneFromSeed_spec. f_equal.
  rewrite <- Hinv by lia. f_equal. lia.
Qed.

Lemma ComputeLaneIndex_bound s n h r lc i :
  0 < lc -> ComputeLaneIndex s n h r lc = Some i -> 0 <= i < lc.
Proof.
  intros Hlc. unfold ComputeLaneIndex. destruct (lc =? 0); [done|].
  destruct (Blake2b_Hash _ _); [|done]. intros [= <-]. apply Z.mod_pos_bound. done.
Qed.

Lemma hash_rounds_agree n r ctx seed size mseed nonce height acc :
  ctx_holds ctx seed size -> 32 <= size -> size mod 32 = 0 ->
  hash_rounds n r mseed None nonce height (size / 32) (Some ctx) true acc =
  hash_rounds n r mseed (Some seed) nonce height (size / 32) None false acc.
Proof.
  intros Hc Hs Hm. revert r acc; induction n as [|n IH]; intros r acc; cbn [hash_rounds]; [done|].
  destruct (ComputeLaneIndex mseed nonce height r (size / 32)) as [i|] eqn:E; cbn [mbind option_bind]; [|done].
  apply ComputeLaneIndex_bound in E; [|apply Z.div_str_pos; lia].
  pose proof (Z.div_mod size 32 ltac:(lia)).
  rewrite (read_lane_agree ctx seed size) by (done || lia).
  destruct (read_lane mseed (Some seed) None false i); cbn [mbind option_bind]; [apply IH|done].
Qed.

Lemma heavy_eq_light ctx seed size message nonce height :
  ctx_holds ctx seed size ->
  Autolykos2_Hash ctx message nonce height = Autolykos2_LightHashAtHeight seed message nonce height size.
Proof.
  intros Hc. pose proof Hc as (buf & Hb & Hlen & _). unfold Autolykos2_Hash, Autolykos2_LightHashAtHeight.
  rewrite Hb, Hlen.
  destruct (Z.ltb_spec size 32), (Z.eqb_spec (size mod 32) 0); cbn [orb negb]; try done.
  destruct ((size / 32 =? 0) || (U32_MAX <? size / 32)); [by destruct (DeriveSeedFromMessage message)|].
  destruct (DeriveSeedFromMessage message) as [ms|]; cbn [mbind option_bind]; [|done].
  unfold Autolykos2_HashCore. by rewrite (hash_rounds_agree _ _ ctx seed size) by done.
Qed.
End Equivalence.

(** ** Properties *)

(** A DAG allocated and generated from [seed] at [size] bytes (a positive multiple of 32, on any
    previous context) exists, and every heavy hash computed through it, for any message, nonce and
    height, is the light hash computed from [seed] and [size] alone: failure and success coincide
    and the digests are equal.  Mining on the DAG and validating without it agree. *)
Theorem heavy_hash_is_light_hash {ops : CryptoOps} {laws : CryptoLaws ops} ctx seed size :
  0 < size -> size mod 32 = 0 ->
  exists ctx', Autolykos2_DagGenerate (Autolykos2_DagAllocate ctx size) seed = Some ctx' /\
    Autolykos2_DagSize (Some ctx') = size /\
    forall message nonce height,
      Autolykos2_Hash ctx' message nonce height = Autolykos2_LightHashAtHeight seed message nonce height size.
Proof.
  intros Hs Hm. destruct (DagGenerate_holds ctx seed size Hs Hm) as (ctx' & E & Hc).
  exists ctx'. split; [done|]. split; [by destruct Hc as (? & _ & ? & _)|]. intros. by apply heavy_eq_light.
Qed.

#[local] Existing Instances Toy.ops Toy.laws.

Lemma heavy_hash_is_light_hash_witness :
  exists ctx', Autolykos2_DagGenerate (Autolykos2_DagAllocate Autolykos2_Create 96) (zeros 32) = Some ctx' /\
    Autolykos2_Hash ctx' [1; 2; 3] 7 9 = Autolykos2_LightHashAtHeight (zeros 32) [1; 2; 3] 7 9 96.
Proof.
  destruct (heavy_hash_is_light_hash Autolykos2_Create (zeros 32) 96) as (c & E & _ & H); [lia|done|].
  exists c. split; [exact E|apply H].
Defined.

(** The nonces a search visits: [start], [start + 1], ... wrapping at [2^64]. *)
Definition nonce_at (start : Z) (k : nat) : Z := match k with O => start | _ => start +u64 Z.of_nat k end.

Lemma nonce_at_succ start k : nonce_at (start +u64 1) k = nonce_at start (S k).
Proof.
  unfold nonce_at, u64. destruct k; [done|]. rewrite Zplus_mod_idemp_l. f_equal. lia.
Qed.

Lemma find_nonce_spec {ops : CryptoOps} n ctx msg height target start :
  match find_nonce n ctx msg height target start with
  | Some (nonce, h) => exists k, (k < n)%nat /\ nonce = nonce_at start k /\
      Autolykos2_CheckTarget ctx msg nonce height target = Some h /\
      forall j, (j < k)%nat -> Autolykos2_CheckTarget ctx msg (nonce_at start j) height target = None
  | None => forall j, (j < n)%nat -> Autolykos2_CheckTarget ctx msg (nonce_at start j) height target = None
  end.
Proof.
  revert start; induction n as [|n IH]; intros start; cbn [find_nonce]; [intros; lia|].
  destruct (Autolykos2_CheckTarget ctx msg start height target) as [h|] eqn:E.
  { exists 0%nat. split; [lia|]. split; [done|]. split; [done|]. intros; lia. }
  specialize (IH (start +u64 1)). destruct (find_nonce n ctx msg height target (start +u64 1)) as [[m h]|].
  - destruct IH as (k & Hk & -> & Hc & Hf). exists (S k). split; [lia|].
    rewrite nonce_at_succ in *. split; [done|]. split; [done|].
    intros [|j] Hj; [exact E|]. rewrite <- nonce_at_succ. apply Hf. lia.
  - intros [|j] Hj; [exact E|]. rewrite <- nonce_at_succ. apply IH. lia.
Qed.

(** The nonce search is exact.  It returns a nonce precisely when one of the [maxIterations]
    consecutive nonces from [startNonce] (wrapping at [2^64]) hashes at or below the target, it
    returns the first of them, and the hash it returns is that nonce's hash and meets the target. *)
Theorem find_nonce_exact {ops : CryptoOps} ctx msg height target start maxIterations :
  match Autolykos2_FindNonceSingleCore ctx msg height target start maxIterations with
  | Some (nonce, h) => exists k, Z.of_nat k < maxIterations /\ nonce = nonce_at start k /\
      Autolykos2_Hash ctx msg nonce height = Some h /\ Cmp256BE h target <= 0 /\
      forall j, (j < k)%nat -> Autolykos2_CheckTarget ctx msg (nonce_at start j) height target = None
  | None => forall j, Z.of_nat j < maxIterations ->
      Autolykos2_CheckTarget ctx msg (nonce_at start j) height target = None
  end.
Proof.
  unfold Autolykos2_FindNonceSingleCore.
  pose proof (find_nonce_spec (Z.to_nat maxIterations) ctx msg height target start) as H.
  destruct (find_nonce _ _ _ _ _ _) as [[nonce h]|]; [|intros j Hj; apply H; lia].
  destruct H as (k & Hk & -> & Hc & Hf). exists k. split; [lia|]. split; [done|].
  unfold Autolykos2_CheckTarget in Hc. destruct (Autolykos2_Hash _ _ _ _) as [h'|]; cbn [mbind option_bind] in Hc; [|done].
  destruct (Z.leb_spec (Cmp256BE h' target) 0); [|done]. injection Hc as <-. auto.
Qed.
