(* ===== verification/Block.v ===== *)
(** * Blocks ([include/block/block.h], [src/block/block.c])

    The 96-byte header, Merkle root, structural validity, coinbase and fee accounting, and the proof
    of work with its process-global DAG cache.  The transaction vector of a block may be unloaded
    ([NULL] in the code, [None] here). *)
From S2P Require Import Prelude Bytes Utils Crypto Transaction Autolykos2.

Record block_header := mkHeader {
  blockNumber : Z;
  timestamp : Z;
  nonce : Z;
  prevHash : bytes;
  merkleRoot : bytes;
  difficultyTarget : Z;
  version : Z;
  reserved : bytes
}.

Record block := mkBlock {
  header : block_header;
  transactions : option (list signed_transaction)
}.

#[export] Instance block_header_eq_dec : EqDecision block_header.
Proof. solve_decision. Defined.
#[export] Instance block_eq_dec : EqDecision block.
Proof. solve_decision. Defined.

Definition header_ok (h : block_header) : Prop :=
  is_u64 (blockNumber h) /\ is_u64 (timestamp h) /\ is_u64 (nonce h) /\ bytes_n 32 (prevHash h) /\
  bytes_n 32 (merkleRoot h) /\ is_u32 (difficultyTarget h) /\ is_u8 (version h) /\ bytes_n 3 (reserved h).

Definition block_ok (b : block) : Prop :=
  header_ok (header b) /\ match transactions b with Some txs => Forall stx_ok txs | None => True end.

#[export] Instance header_ok_dec h : Decision (header_ok h).
Proof. unfold header_ok; apply _. Defined.

(** ** Struct image *)

Definition SIZEOF_HEADER : nat := 96.

Definition header_bytes (h : block_header) : bytes :=
  le_bytes 8 (blockNumber h) ++ le_bytes 8 (timestamp h) ++ le_bytes 8 (nonce h) ++ prevHash h ++
  merkleRoot h ++ le_bytes 4 (difficultyTarget h) ++ le_bytes 1 (version h) ++ reserved h.

Definition read_header (bs : bytes) : option (block_header * bytes) :=
  '(num, bs) ← cut 8 bs;
  '(ts, bs) ← cut 8 bs;
  '(nc, bs) ← cut 8 bs;
  '(prev, bs) ← cut 32 bs;
  '(root, bs) ← cut 32 bs;
  '(tgt, bs) ← cut 4 bs;
  '(ver, bs) ← cut 1 bs;
  '(res, bs) ← cut 3 bs;
  Some (mkHeader (le_val num) (le_val ts) (le_val nc) prev root (le_val tgt) (le_val ver) res, bs).

(** ** Construction *)

Definition Block_Create : block :=
  mkBlock (mkHeader 0 0 0 (zeros 32) (zeros 32) 0 0 (zeros 3)) (Some []).

Definition Block_Copy (src : block) : block := mkBlock (header src) (transactions src).

Definition Block_AddTransaction (b : block) (tx : signed_transaction) : block :=
  match transactions b with
  | None => b
  | Some txs => mkBlock (header b) (Some (txs ++ [tx]))
  end.

Definition DAG_VOTE_MAX : Z := 2.

(** A recognised vote, and zero spare bytes. *)
Definition Block_HasValidVote (b : block) : bool :=
  let r := reserved (header b) in
  (nth 0 r 0 <=? DAG_VOTE_MAX) && (nth 1 r 0 =? 0) && (nth 2 r 0 =? 0).

Section Operations.
Context {ops : CryptoOps}.

Definition Block_CalculateHash (b : block) : bytes := sha256d (header_bytes (header b)).

(** Remove the first transaction with the given hash. *)
Fixpoint remove_tx (txHash : bytes) (txs : list signed_transaction) : list signed_transaction :=
  match txs with
  | [] => []
  | t :: r => if memeq (Transaction_CalculateHash t) txHash then r else t :: remove_tx txHash r
  end.

Definition Block_RemoveTransaction (b : block) (txHash : bytes) : block :=
  match transactions b with
  | None => b
  | Some txs => mkBlock (header b) (Some (remove_tx txHash txs))
  end.

(** ** Merkle root *)

(** One level: hash adjacent pairs; an odd last node is paired with itself. *)
Fixpoint merkle_level (current : list bytes) : list bytes :=
  match current with
  | lhs :: rhs :: r => sha256d (lhs ++ rhs) :: merkle_level r
  | [lhs] => [sha256d (lhs ++ lhs)]
  | [] => []
  end.

(** The level loop; [None] only when the fuel runs out (see [merkle_loop_total]). *)
Fixpoint merkle_loop (fuel : nat) (current : list bytes) : option bytes :=
  match current with
  | [h] => Some h
  | _ => match fuel with O => None | S f => merkle_loop f (merkle_level current) end
  end.

Definition merkle_root (txs : list signed_transaction) : bytes :=
  match txs with
  | [] => zeros 32
  | [tx] => Transaction_CalculateHash tx
  | _ => default [] (merkle_loop (length txs) (map Transaction_CalculateHash txs))
  end.

(** [None] when the vector is unloaded: the output buffer is left untouched. *)
Definition Block_CalculateMerkleRoot (b : block) : option bytes := merkle_root <$> transactions b.

(** ** Structural validity *)

(** The loop of [Block_AllTransactionsValid], carrying [hasCoinbase]. *)
Fixpoint all_tx_valid (txs : list signed_transaction) (hasCoinbase : bool) : bool :=
  match txs with
  | [] => hasCoinbase
  | tx :: r =>
      if negb (Transaction_Verify tx) then false
      else if Address_IsCoinbase (senderAddress (stx tx)) then
        if hasCoinbase then false else all_tx_valid r true
      else all_tx_valid r hasCoinbase
  end.

Definition Block_AllTransactionsValid (b : block) : bool :=
  match transactions b with
  | None => false
  | Some txs => all_tx_valid txs false && negb (length txs =? 0)%nat
  end.

(** The loop of [Block_ValidateCoinbaseAndFees]; the result is the fee total. *)
Fixpoint coinbase_and_fees (txs : list signed_transaction) (expectedCoinbaseAmount : Z)
    (hasCoinbase : bool) (totalFees : Z) : option Z :=
  match txs with
  | [] => if hasCoinbase then Some totalFees else None
  | tx :: r =>
      let t := stx tx in
      if Address_IsCoinbase (senderAddress t) then
        if hasCoinbase then None
        else if negb (Transaction_Verify tx) then None
        else if negb (tx_fee t =? 0) || negb (tx_amount2 t =? 0) then None
        else if negb (tx_amount1 t =? expectedCoinbaseAmount) then None
        else if Address_IsCoinbase (recipientAddress1 t) then None
        else if negb (memeq (recipientAddress2 t) (zeros 32)) then None
        else coinbase_and_fees r expectedCoinbaseAmount true totalFees
      else if negb (Transaction_Verify tx) then None
      else if UINT64_MAX - totalFees <? tx_fee t then None
      else coinbase_and_fees r expectedCoinbaseAmount hasCoinbase (totalFees +u64 tx_fee t)
  end.

Definition Block_ValidateCoinbaseAndFees (b : block) (expectedCoinbaseAmount : Z) : option Z :=
  txs ← transactions b; coinbase_and_fees txs expectedCoinbaseAmount false 0.

Definition Block_HasValidStructure (b : block) : bool :=
  match transactions b with
  | None => false
  | Some txs =>
      if negb (memeq (merkle_root txs) (merkleRoot (header b))) then false
      else Block_HasValidVote b && Block_AllTransactionsValid b && negb (length txs =? 0)%nat
  end.

(** ** Proof of work *)

(** The process-global mining DAG. *)
Record pow_state := mkPow {
  g_autolykos2Ctx : option Autolykos2Context;
  g_dagEpoch : Z;
  g_dagSeed : bytes;
  g_dagReady : bool
}.

Definition pow_init : pow_state := mkPow None 0 (zeros 32) false.

Definition GetAutolykos2CtxLocked (p : pow_state) : Autolykos2Context :=
  default Autolykos2_Create (g_autolykos2Ctx p).

Definition Block_ShutdownPowContext (p : pow_state) : pow_state :=
  mkPow None (g_dagEpoch p) (g_dagSeed p) false.

(** The cached DAG is the one for this epoch, size and seed. *)
Definition dag_usable (p : pow_state) (epochIndex dagBytes : Z) (seed32 : bytes) : bool :=
  g_dagReady p && bool_decide (is_Some (g_autolykos2Ctx p)) && (g_dagEpoch p =? epochIndex) &&
  (Autolykos2_DagSize (g_autolykos2Ctx p) =? dagBytes) && memeq (g_dagSeed p) seed32.

Definition Block_EnsureAutolykos2Dag (p : pow_state) (epochIndex dagBytes : Z) (seed32 : bytes) : bool * pow_state :=
  if (dagBytes <? 32) || negb (dagBytes mod 32 =? 0) then (false, p)
  else if dag_usable p epochIndex dagBytes seed32 then (true, p)
  else
    let ctx := Autolykos2_DagAllocate (Autolykos2_DagClear (GetAutolykos2CtxLocked p)) dagBytes in
    match Autolykos2_DagGenerate ctx seed32 with
    | Some ctx' => (true, mkPow (Some ctx') epochIndex seed32 true)
    | None => (false, mkPow (Some ctx) (g_dagEpoch p) (g_dagSeed p) false)
    end.

Definition Block_PowHashHeavy (p : pow_state) (b : block) (epochIndex dagBytes : Z) (seed32 : bytes) : option bytes :=
  if dag_usable p epochIndex dagBytes seed32 then
    ctx ← g_autolykos2Ctx p;
    Autolykos2_Hash ctx (header_bytes (header b)) (nonce (header b)) (blockNumber (header b))
  else None.

Definition Block_PowHashLight (b : block) (dagBytes : Z) (seed32 : bytes) : option bytes :=
  Autolykos2_LightHashAtHeight seed32 (header_bytes (header b)) (nonce (header b)) (blockNumber (header b)) dagBytes.

Definition Block_HasValidProofOfWorkWithParams (p : pow_state) (b : block) (epochIndex dagBytes : Z) (seed32 : bytes) : bool :=
  match DecodeCompactTarget (difficultyTarget (header b)) with
  | None => false
  | Some target =>
      let hash := match Block_PowHashHeavy p b epochIndex dagBytes seed32 with
                  | Some h => Some h
                  | None => Block_PowHashLight b dagBytes seed32
                  end in
      match hash with
      | None => false
      | Some h => Uint256_CompareBE h target <=? 0
      end
  end.
End Operations.

(** ** The header image *)

Lemma length_header_bytes h : header_ok h -> length (header_bytes h) = SIZEOF_HEADER.
Proof.
  intros (_ & _ & _ & [H1 _] & [H2 _] & _ & _ & [H3 _]).
  unfold header_bytes. autorewrite with bytes. rewrite H1, H2, H3. reflexivity.
Qed.

Lemma bytes_ok_header h : header_ok h -> bytes_ok (header_bytes h).
Proof.
  intros (_ & _ & _ & [_ H1] & [_ H2] & _ & _ & [_ H3]).
  unfold header_bytes. rewrite !bytes_ok_app. repeat split; auto with bytes.
Qed.

Lemma read_header_app h rest : header_ok h -> read_header (header_bytes h ++ rest) = Some (h, rest).
Proof.
  destruct h as [num ts nc prev root tgt ver res].
  intros (H1 & H2 & H3 & [L1 _] & [L2 _] & H4 & H5 & [L3 _]).
  cbn [blockNumber timestamp nonce prevHash merkleRoot difficultyTarget version reserved] in *.
  unfold read_header, header_bytes.
  cbn [blockNumber timestamp nonce prevHash merkleRoot difficultyTarget version reserved].
  rewrite <- !app_assoc.
  repeat (rewrite cut_app by (apply length_le_bytes || done); cbn [mbind option_bind]).
  by rewrite !le_val_8, le_val_4, le_val_1 by done.
Qed.

Lemma read_header_inv bs h rest :
  bytes_ok bs -> read_header bs = Some (h, rest) -> header_ok h /\ bs = header_bytes h ++ rest.
Proof.
  intros Hbs H. unfold read_header in H. invert_cuts H. injection H as <- <-. split.
  - unfold header_ok. cbn [blockNumber timestamp nonce prevHash merkleRoot difficultyTarget version reserved].
    solve_field_ranges.
  - unfold header_bytes. cbn [blockNumber timestamp nonce prevHash merkleRoot difficultyTarget version reserved].
    rewrite <- !app_assoc. rewrite_fields. reflexivity.
Qed.

Lemma header_bytes_inj h1 h2 : header_ok h1 -> header_ok h2 -> header_bytes h1 = header_bytes h2 -> h1 = h2.
Proof.
  intros H1 H2 E. pose proof (read_header_app h1 [] H1) as R1. pose proof (read_header_app h2 [] H2) as R2.
  rewrite E in R1. congruence.
Qed.

(** ** Merkle lemmas *)

Section Merkle.
Context {ops : CryptoOps} {laws : CryptoLaws ops}.

(** Two different preimages of one double hash, one from each list. *)
Definition collision_between (xs ys : list bytes) : Prop :=
  exists x y, x ∈ xs /\ y ∈ ys /\ x <> y /\ sha256d x = sha256d y.

Lemma collision_sub xs ys xs' ys' :
  xs ⊆ xs' -> ys ⊆ ys' -> collision_between xs ys -> collision_between xs' ys'.
Proof. intros Hx Hy (x & y & ? & ? & ? & ?). exists x, y. auto. Qed.

Lemma map_sha256d_inj xs ys :
  map sha256d xs = map sha256d ys -> xs = ys \/ collision_between xs ys.
Proof.
  revert ys; induction xs as [|x xs IH]; intros [|y ys] E; try done; [by left|].
  cbn in E. injection E as E1 E2. destruct (decide (x = y)) as [->|].
  - destruct (IH ys E2) as [->|Hc]; [by left|right]. revert Hc. apply collision_sub; set_solver.
  - right. exists x, y. set_solver.
Qed.

(** The inputs of one level's hashes, and of the whole tree. *)
Fixpoint merkle_pairs (current : list bytes) : list bytes :=
  match current with
  | lhs :: rhs :: r => (lhs ++ rhs) :: merkle_pairs r
  | [lhs] => [lhs ++ lhs]
  | [] => []
  end.

Fixpoint merkle_preimages (fuel : nat) (current : list bytes) : list bytes :=
  match current with
  | [h] => []
  | _ => match fuel with
         | O => []
         | S f => merkle_pairs current ++ merkle_preimages f (merkle_level current)
         end
  end.

(** Everything that is double-hashed to compute a block's hash and Merkle root. *)
Definition block_preimages (b : block) : list bytes :=
  let txs := default [] (transactions b) in
  header_bytes (header b) :: map (fun s => transaction_bytes (stx s)) txs ++
  merkle_preimages (length txs) (map Transaction_CalculateHash txs).

Lemma merkle_level_pairs l : merkle_level l = map sha256d (merkle_pairs l).
Proof. induction l as [|a|a b r IH] using list_ind2; cbn [merkle_level merkle_pairs map]; congruence. Qed.

Lemma length_merkle_level l : length (merkle_level l) = Nat.div2 (S (length l)).
Proof.
  induction l as [|a|a b r IH] using list_ind2; cbn [merkle_level length]; [done|done|].
  rewrite IH. done.
Qed.

Lemma length_merkle_level_half l :
  (length l <= 2 * length (merkle_level l) <= S (length l))%nat.
Proof. induction l as [|a|a b r IH] using list_ind2; cbn [merkle_level length] in *; lia. Qed.

Lemma length_merkle_level_lt l : (1 < length l)%nat -> (0 < length (merkle_level l) < length l)%nat.
Proof. pose proof (length_merkle_level_half l). lia. Qed.

Lemma merkle_level_sizes l : Forall (bytes_n 32) (merkle_level l).
Proof.
  induction l as [|a|a b r IH] using list_ind2; cbn [merkle_level]; auto using sha256d_size.
Qed.

(** The loop ends within as many levels as there are leaves, and extra fuel changes nothing. *)
Lemma merkle_loop_total f l :
  l <> [] -> (length l <= S f)%nat -> exists h, forall k, merkle_loop (f + k) l = Some h.
Proof.
  revert l; induction f as [|f IH]; intros l Hne Hl.
  - destruct l as [|a [|b r]]; cbn [length] in *; [done| |lia]. exists a. by destruct k.
  - destruct l as [|a [|b r]]; [done|by exists a; destruct k|].
    pose proof (length_merkle_level_lt (a :: b :: r) ltac:(cbn; lia)) as [H1 H2].
    destruct (IH (merkle_level (a :: b :: r))) as [h Hh].
    + intros E. rewrite E in H1. cbn in H1. lia.
    + lia.
    + exists h. intros k. rewrite Nat.add_succ_l. cbn [merkle_loop]. apply Hh.
Qed.

Lemma merkle_loop_step f l : (1 < length l)%nat -> merkle_loop (S f) l = merkle_loop f (merkle_level l).
Proof. destruct l as [|a [|b r]]; cbn [length]; intros; lia || done. Qed.

Lemma merkle_pairs_inj l1 l2 :
  length l1 = length l2 -> Forall (bytes_n 32) l1 -> Forall (bytes_n 32) l2 ->
  merkle_pairs l1 = merkle_pairs l2 -> l1 = l2.
Proof.
  revert l2; induction l1 as [|a|a b r IH] using list_ind2; intros [|x [|y s]] Hl H1 H2 E; cbn in Hl; try lia.
  - done.
  - cbn in E. injection E as E. apply Forall_inv in H1 as [Ha _]. apply Forall_inv in H2 as [Hx _].
    apply app_inj_1 in E as [-> _]; [done|congruence].
  - cbn [merkle_pairs] in E. injection E as E1 E2.
    apply Forall_cons_iff in H1 as [[Ha _] H1]. apply Forall_cons_iff in H2 as [[Hx _] H2].
    apply Forall_cons_iff in H1 as [_ H1]. apply Forall_cons_iff in H2 as [_ H2].
    apply app_inj_1 in E1 as [-> ->]; [|congruence]. rewrite (IH s); auto with lia.
Qed.

Lemma merkle_loop_inj f l1 l2 h :
  length l1 = length l2 -> Forall (bytes_n 32) l1 -> Forall (bytes_n 32) l2 ->
  merkle_loop f l1 = Some h -> merkle_loop f l2 = Some h ->
  l1 = l2 \/ collision_between (merkle_preimages f l1) (merkle_preimages f l2).
Proof.
  revert l1 l2; induction f as [|f IH]; intros l1 l2 Hl H1 H2 E1 E2.
  - destruct l1 as [|a [|? ?]], l2 as [|x [|? ?]]; cbn in *; try done. left; congruence.
  - destruct l1 as [|a [|b r]], l2 as [|x [|y s]]; try (cbn in Hl; lia); [by left|cbn in *; left; congruence|].
    destruct (IH (merkle_level (a :: b :: r)) (merkle_level (x :: y :: s))) as [E|Hc]; auto using merkle_level_sizes.
    + rewrite !length_merkle_level. congruence.
    + rewrite !merkle_level_pairs in E. apply map_sha256d_inj in E as [E|Hc].
      * left. by apply merkle_pairs_inj.
      * right. revert Hc. apply collision_sub; intros z Hz; apply list_elem_of_In, in_or_app; left;
          by apply list_elem_of_In.
    + right. revert Hc. apply collision_sub; intros z Hz; apply list_elem_of_In, in_or_app; right;
        by apply list_elem_of_In.
Qed.

Lemma merkle_root_loop txs :
  txs <> [] -> merkle_loop (length txs) (map Transaction_CalculateHash txs) = Some (merkle_root txs).
Proof.
  intros Hne. destruct txs as [|a [|b r]]; [done|done|].
  destruct (merkle_loop_total (length (a :: b :: r)) (map Transaction_CalculateHash (a :: b :: r))) as [h Hh];
    [done|rewrite length_map; lia|].
  specialize (Hh 0%nat). rewrite Nat.add_0_r in Hh. unfold merkle_root. by rewrite Hh.
Qed.

Lemma transaction_bytes_inj s1 s2 :
  tx_ok s1 -> tx_ok s2 -> transaction_bytes s1 = transaction_bytes s2 -> s1 = s2.
Proof.
  intros H1 H2 E.
  pose proof (read_signed_app (mkSigned s1 (zeros 64)) [] (conj H1 (zeros_ok 64))) as R1.
  pose proof (read_signed_app (mkSigned s2 (zeros 64)) [] (conj H2 (zeros_ok 64))) as R2.
  unfold signed_transaction_bytes in *. cbn [stx stx_signature] in *. rewrite E in R1. congruence.
Qed.

Lemma tx_images_inj txs1 txs2 :
  Forall stx_ok txs1 -> Forall stx_ok txs2 ->
  map (fun s => transaction_bytes (stx s)) txs1 = map (fun s => transaction_bytes (stx s)) txs2 ->
  map stx txs1 = map stx txs2.
Proof.
  revert txs2; induction txs1 as [|a r IH]; intros [|b s] H1 H2 E; try done.
  apply Forall_cons_iff in H1 as [[Ha _] H1]. apply Forall_cons_iff in H2 as [[Hb _] H2]. cbn [map] in E.
  assert (E1 : transaction_bytes (stx a) = transaction_bytes (stx b)) by congruence.
  apply transaction_bytes_inj in E1; [|done|done]. cbn [map]. rewrite E1. f_equal. apply IH; [done..|congruence].
Qed.

Lemma tx_hashes_inj txs1 txs2 :
  Forall stx_ok txs1 -> Forall stx_ok txs2 ->
  map Transaction_CalculateHash txs1 = map Transaction_CalculateHash txs2 ->
  map stx txs1 = map stx txs2 \/
  collision_between (map (fun s => transaction_bytes (stx s)) txs1) (map (fun s => transaction_bytes (stx s)) txs2).
Proof.
  intros H1 H2 E. unfold Transaction_CalculateHash in E.
  rewrite <- (map_map (fun s => transaction_bytes (stx s)) sha256d txs1) in E.
  rewrite <- (map_map (fun s => transaction_bytes (stx s)) sha256d txs2) in E.
  apply map_sha256d_inj in E as [E|]; [left|by right]. by apply tx_images_inj.
Qed.

Lemma tx_hash_sizes txs : Forall (bytes_n 32) (map Transaction_CalculateHash txs).
Proof. apply Forall_map. apply Forall_true. intros x. apply sha256d_size. Qed.

(** What the structural check established. *)
Lemma structure_inv b :
  Block_HasValidStructure b = true ->
  exists txs, transactions b = Some txs /\ merkle_root txs = merkleRoot (header b) /\ txs <> [] /\
    Block_HasValidVote b = true /\ all_tx_valid txs false = true.
Proof.
  unfold Block_HasValidStructure, Block_AllTransactionsValid. destruct (transactions b) as [txs|]; [|done].
  destruct (memeq (merkle_root txs) (merkleRoot (header b))) eqn:E; cbn [negb]; [|done].
  apply memeq_true in E. intros H. apply andb_true_iff in H as [H Hne]. apply andb_true_iff in H as [Hv Ha].
  apply andb_true_iff in Ha as [Ha _]. exists txs. repeat split; auto. by intros ->.
Qed.

(** Pairing an odd last node with itself is the same as having it twice. *)
Lemma merkle_level_dup l x :
  Nat.Even (length l) -> merkle_level (l ++ [x]) = merkle_level (l ++ [x; x]).
Proof.
  induction l as [|a|a b r IH] using list_ind2; intros He; [done| |].
  - exfalso. destruct He as [k Hk]. cbn in Hk. lia.
  - cbn [app merkle_level]. f_equal. apply IH. destruct He as [k Hk]. cbn in Hk. exists (k - 1)%nat. lia.
Qed.
End Merkle.

(** ** Coinbase and fees, declaratively *)

(** What the coinbase transaction of a block paying [amount] must look like. *)
Definition coinbase_pays (amount : Z) (tx : signed_transaction) : Prop :=
  is_coinbase tx = true ->
  tx_fee (stx tx) = 0 /\ tx_amount2 (stx tx) = 0 /\ tx_amount1 (stx tx) = amount /\
  Address_IsCoinbase (recipientAddress1 (stx tx)) = false /\ recipientAddress2 (stx tx) = zeros 32.

Lemma coinbase_and_fees_iff {ops : CryptoOps} txs amount hc tot f :
  Forall stx_ok txs -> is_u64 tot ->
  coinbase_and_fees txs amount hc tot = Some f <->
  Forall (fun tx => Transaction_Verify tx = true) txs /\ Forall (coinbase_pays amount) txs /\
  ((if hc then 1 else 0) + coinbase_count txs = 1)%nat /\ f = tot + fee_sum txs /\ f < 2 ^ 64.
Proof.
  intros Hok; revert hc tot; induction Hok as [|tx r Hx Hr IH]; intros hc tot Htot.
  { cbn. unfold_cint. destruct hc; split; intros H; [injection H as <-; repeat split; auto; lia|f_equal; lia| |];
      [done|destruct H as (_ & _ & H & _); done]. }
  rewrite !Forall_cons_iff, fee_sum_cons, coinbase_count_cons. unfold coinbase_pays at 1, fee_of.
  cbn [coinbase_and_fees]. cbv zeta. fold (is_coinbase tx). pose proof (fee_sum_nonneg r Hr) as Hs.
  destruct (is_coinbase tx) eqn:Ec.
  - destruct hc; [split; [done|intros (_ & _ & H & _); lia]|].
    destruct (Transaction_Verify tx); cbn [negb]; [|split; [done|intros ([? _] & _); done]].
    destruct (Z.eqb_spec (tx_fee (stx tx)) 0), (Z.eqb_spec (tx_amount2 (stx tx)) 0); cbn [negb orb];
      try (split; [done|intros (_ & [H _] & _); destruct (H eq_refl) as (? & ? & _); done]).
    destruct (Z.eqb_spec (tx_amount1 (stx tx)) amount); cbn [negb];
      [|split; [done|intros (_ & [H _] & _); destruct (H eq_refl) as (_ & _ & ? & _); done]].
    destruct (Address_IsCoinbase (recipientAddress1 (stx tx))) eqn:Ea;
      [split; [done|intros (_ & [H _] & _); destruct (H eq_refl) as (_ & _ & _ & ? & _); done]|].
    destruct (memeq (recipientAddress2 (stx tx)) (zeros 32)) eqn:Em; cbn [negb];
      [|split; [done|intros (_ & [H _] & _); destruct (H eq_refl) as (_ & _ & _ & _ & Hz);
          apply memeq_true in Hz; congruence]].
    apply memeq_true in Em. rewrite (IH true tot Htot). intuition lia.
  - destruct (Transaction_Verify tx); cbn [negb]; [|split; [done|intros ([? _] & _); done]].
    destruct Hx as [(_ & Hf & _) _].
    destruct (Z.ltb_spec (UINT64_MAX - tot) (tx_fee (stx tx))) as [Ho|Ho].
    + split; [done|]. intros (_ & _ & _ & -> & Hlt). unfold_cint. lia.
    + rewrite u64_small by (unfold_cint; lia). rewrite IH by (unfold_cint; lia).
      rewrite Z.add_assoc. intuition (done || lia).
Qed.

(** ** The DAG cache *)

Section PowCache.
Context {ops : CryptoOps} {laws : CryptoLaws ops}.

(** The operations that change the process-global DAG. *)
Inductive pow_step : pow_state -> pow_state -> Prop :=
| step_ensure p epochIndex dagBytes seed32 :
    pow_step p (snd (Block_EnsureAutolykos2Dag p epochIndex dagBytes seed32))
| step_shutdown p : pow_step p (Block_ShutdownPowContext p).

(** A ready cache holds the DAG of the seed it records. *)
Definition pow_ok (p : pow_state) : Prop :=
  g_dagReady p = true -> forall ctx, g_autolykos2Ctx p = Some ctx ->
  ctx_holds ctx (g_dagSeed p) (Autolykos2_DagSize (Some ctx)).

Lemma ensure_ok p e n s : pow_ok p -> pow_ok (snd (Block_EnsureAutolykos2Dag p e n s)).
Proof.
  intros Hp. unfold Block_EnsureAutolykos2Dag.
  destruct (Z.ltb_spec n 32), (Z.eqb_spec (n mod 32) 0); cbn [orb negb snd]; try done.
  destruct (dag_usable p e n s); [done|].
  destruct (DagGenerate_holds (Autolykos2_DagClear (GetAutolykos2CtxLocked p)) s n) as (c & -> & Hc); [lia|done|].
  intros _ ctx [= <-]. cbn [snd g_dagSeed Autolykos2_DagSize]. pose proof Hc as (b & _ & Hlen & _). by rewrite Hlen.
Qed.

Lemma pow_reachable_ok p : rtc pow_step pow_init p -> pow_ok p.
Proof.
  intros Hr. assert (H0 : pow_ok pow_init) by (by intros ?). revert H0.
  induction Hr as [|x y z Hs _ IH]; [done|]. intros Hx. apply IH. destruct Hs; [by apply ensure_ok|by intros ?].
Qed.

Lemma heavy_agrees p b e n s h :
  pow_ok p -> Block_PowHashHeavy p b e n s = Some h -> Block_PowHashLight b n s = Some h.
Proof.
  intros Hp. unfold Block_PowHashHeavy, Block_PowHashLight, dag_usable.
  destruct (g_dagReady p) eqn:Er; [|done]. destruct (g_autolykos2Ctx p) as [c|] eqn:Ec; [|done].
  destruct (bool_decide (is_Some (Some c))); [|done]. cbn [andb mbind option_bind].
  destruct (g_dagEpoch p =? e); [|done]. cbn [andb].
  destruct (Z.eqb_spec (Autolykos2_DagSize (Some c)) n) as [<-|]; [|done]. cbn [andb].
  destruct (memeq (g_dagSeed p) s) eqn:Es; [|done]. apply memeq_true in Es as <-.
  by rewrite (heavy_eq_light c (g_dagSeed p) _ _ _ _ (Hp Er c Ec)).
Qed.
End PowCache.

(** ** Properties *)

(** The block hash commits to the block.  Two structurally valid blocks with the same hash and
    the same number of transactions have the same header and the same transactions (signatures
    apart, which the transaction hash leaves out), unless two different strings hashed while
    computing the two blocks' hashes and Merkle roots collide under double SHA-256. *)
Theorem block_hash_commits {ops : CryptoOps} {laws : CryptoLaws ops} b1 b2 txs1 txs2 :
  block_ok b1 -> block_ok b2 -> transactions b1 = Some txs1 -> transactions b2 = Some txs2 ->
  Block_HasValidStructure b1 = true -> Block_HasValidStructure b2 = true ->
  Block_CalculateHash b1 = Block_CalculateHash b2 -> length txs1 = length txs2 ->
  (header b1 = header b2 /\ map stx txs1 = map stx txs2) \/
  collision_between (block_preimages b1) (block_preimages b2).
Proof.
  intros [Hh1 Ht1] [Hh2 Ht2] E1 E2 V1 V2 Hhash Hlen. unfold block_preimages. rewrite E1, E2. cbn [default from_option]. unfold id.
  rewrite E1 in Ht1. rewrite E2 in Ht2.
  destruct (decide (header_bytes (header b1) = header_bytes (header b2))) as [Hb|Hb];
    [|right; eexists _, _; split; [apply list_elem_of_here|]; split; [apply list_elem_of_here|done]].
  apply header_bytes_inj in Hb; [|done|done].
  apply structure_inv in V1 as (txs & E & Hr1 & Hne & _). rewrite E1 in E. injection E as <-.
  apply structure_inv in V2 as (txs & E & Hr2 & Hne2 & _). rewrite E2 in E. injection E as <-.
  pose proof (merkle_root_loop txs1 Hne) as L1. pose proof (merkle_root_loop txs2 Hne2) as L2.
  rewrite Hr2, <- Hb, <- Hr1, <- Hlen in L2. rewrite <- Hlen.
  assert (Hlm : length (map Transaction_CalculateHash txs1) = length (map Transaction_CalculateHash txs2))
    by (by rewrite !length_map).
  destruct (merkle_loop_inj _ _ _ _ Hlm (tx_hash_sizes txs1) (tx_hash_sizes txs2) L1 L2) as [E|Hc].
  - destruct (tx_hashes_inj _ _ Ht1 Ht2 E) as [Et|Hc]; [by left|right].
    revert Hc. apply collision_sub; set_solver.
  - right. revert Hc. apply collision_sub; set_solver.
Qed.

#[local] Existing Instances Toy.ops Toy.laws.

(** A block with one coinbase and one payment, valid under the computable instance. *)
Definition sample_coinbase (amount : Z) : signed_transaction :=
  mkSigned (mkTx 1700000000000 0 amount 0 COINBASE_ADDRESS (replicate 32 2) (zeros 32) (zeros 33) 1 (zeros 6)) (zeros 64).
Definition sample_txs : list signed_transaction :=
  [sample_coinbase 50; Transaction_Sign sample_payment sample_key].
Definition sample_block : block :=
  mkBlock (mkHeader 0 1700000000 11 (zeros 32) (merkle_root sample_txs) 520885282 1 (zeros 3)) (Some sample_txs).

Lemma sample_txs_ok : Forall stx_ok sample_txs.
Proof. vm_decide. Qed.
Lemma sample_block_ok : block_ok sample_block.
Proof. split; [vm_decide|apply sample_txs_ok]. Qed.
Lemma sample_block_structure : Block_HasValidStructure sample_block = true.
Proof. vm_compute. reflexivity. Qed.

Lemma block_hash_commits_witness :
  (header sample_block = header sample_block /\ map stx sample_txs = map stx sample_txs) \/
  collision_between (block_preimages sample_block) (block_preimages sample_block).
Proof.
  exact (block_hash_commits sample_block sample_block sample_txs sample_txs sample_block_ok sample_block_ok
    eq_refl eq_refl sample_block_structure sample_block_structure eq_refl eq_refl).
Defined.

(** The Merkle root alone does not fix the transaction list.  Repeating the last transaction of
    a list with an odd number (at least three) of transactions leaves the root, hence the header and
    the block hash, unchanged: the number of transactions is not committed to. *)
Theorem merkle_root_duplicate_last {ops : CryptoOps} {laws : CryptoLaws ops} (txs : list signed_transaction) tx :
  Nat.Even (length txs) -> txs <> [] -> merkle_root (txs ++ [tx; tx]) = merkle_root (txs ++ [tx]).
Proof.
  intros He Hne. assert (Hlen : (0 < length txs)%nat) by (destruct txs; [done|cbn; lia]).
  set (l := map Transaction_CalculateHash txs). set (x := Transaction_CalculateHash tx).
  assert (Hl : length l = length txs) by apply length_map.
  assert (H1 : merkle_loop (S (length txs)) (l ++ [x]) = Some (merkle_root (txs ++ [tx]))).
  { rewrite <- (merkle_root_loop (txs ++ [tx])) by (by destruct txs).
    rewrite length_app, map_app, Nat.add_1_r. done. }
  assert (H2 : merkle_loop (S (S (length txs))) (l ++ [x; x]) = Some (merkle_root (txs ++ [tx; tx]))).
  { rewrite <- (merkle_root_loop (txs ++ [tx; tx])) by (by destruct txs).
    rewrite length_app, map_app. cbn [length]. rewrite Nat.add_comm. done. }
  rewrite merkle_loop_step in H1, H2 by (rewrite length_app; cbn [length]; lia).
  rewrite <- merkle_level_dup in H2 by (by rewrite Hl).
  pose proof (length_merkle_level_half (l ++ [x])) as Hh. rewrite length_app in Hh. cbn [length] in Hh.
  destruct (merkle_loop_total (length txs) (merkle_level (l ++ [x]))) as [h Hk].
  - intros E. rewrite E in Hh. cbn in Hh. lia.
  - lia.
  - pose proof (Hk 0%nat) as K0. pose proof (Hk 1%nat) as K1. rewrite Nat.add_0_r in K0. rewrite Nat.add_1_r in K1.
    congruence.
Qed.

Lemma merkle_root_duplicate_last_witness :
  merkle_root (sample_txs ++ [sample_tx; sample_tx]) = merkle_root (sample_txs ++ [sample_tx]).
Proof. apply (merkle_root_duplicate_last sample_txs sample_tx); [by exists 1%nat|done]. Defined.

(** The coinbase and fee check is exact.  On well-formed transactions it returns [Some f]
    precisely when every transaction verifies, exactly one is a coinbase, that one carries no fee,
    no second output and pays exactly the expected amount to a real address, and the fees of the
    others sum (over the integers, below [2^64]) to [f]; otherwise it rejects.  The wrap-around guard
    therefore never loses a fee. *)
Theorem coinbase_and_fees_exact {ops : CryptoOps} b txs amount f :
  block_ok b -> transactions b = Some txs ->
  Block_ValidateCoinbaseAndFees b amount = Some f <->
  Forall (fun tx => Transaction_Verify tx = true) txs /\ coinbase_count txs = 1%nat /\
  Forall (coinbase_pays amount) txs /\ f = fee_sum txs /\ fee_sum txs < 2 ^ 64.
Proof.
  intros [_ Hok] E. rewrite E in Hok. unfold Block_ValidateCoinbaseAndFees. rewrite E. cbn [mbind option_bind].
  rewrite coinbase_and_fees_iff by (done || (unfold_cint; lia)). rewrite Z.add_0_l, Nat.add_0_l.
  intuition congruence.
Qed.

Lemma coinbase_and_fees_exact_witness :
  Block_ValidateCoinbaseAndFees sample_block 50 = Some 7 /\
  fee_sum sample_txs = 7 /\ coinbase_count sample_txs = 1%nat.
Proof.
  assert (H : Block_ValidateCoinbaseAndFees sample_block 50 = Some 7) by (vm_compute; reflexivity).
  destruct (proj1 (coinbase_and_fees_exact sample_block sample_txs 50 7 sample_block_ok eq_refl) H)
    as (_ & Hc & _ & Hf & _). auto.
Defined.

(** C28: whether the mining DAG is warm is invisible to consensus.  In every state of the
    process-global DAG reachable from start-up through any sequence of generations (for any epoch,
    size and seed) and shutdowns, the proof-of-work verdict on any block, for any epoch, size and
    seed, is the verdict of the light path alone. *)
Theorem pow_verdict_ignores_dag {ops : CryptoOps} {laws : CryptoLaws ops} p b epochIndex dagBytes seed32 :
  rtc pow_step pow_init p ->
  Block_HasValidProofOfWorkWithParams p b epochIndex dagBytes seed32 =
  match DecodeCompactTarget (difficultyTarget (header b)), Block_PowHashLight b dagBytes seed32 with
  | Some target, Some h => Uint256_CompareBE h target <=? 0
  | _, _ => false
  end.
Proof.
  intros Hr. apply pow_reachable_ok in Hr. unfold Block_HasValidProofOfWorkWithParams.
  destruct (DecodeCompactTarget _); [|done].
  destruct (Block_PowHashHeavy p b epochIndex dagBytes seed32) as [h|] eqn:E; [|done].
  by rewrite (heavy_agrees p b epochIndex dagBytes seed32 h Hr E).
Qed.

Definition sample_pow : pow_state := snd (Block_EnsureAutolykos2Dag pow_init 0 96 (zeros 32)).

Lemma pow_verdict_ignores_dag_witness :
  dag_usable sample_pow 0 96 (zeros 32) = true /\
  Block_HasValidProofOfWorkWithParams sample_pow sample_block 0 96 (zeros 32) =
  match DecodeCompactTarget (difficultyTarget (header sample_block)), Block_PowHashLight sample_block 96 (zeros 32) with
  | Some target, Some h => Uint256_CompareBE h target <=? 0
  | _, _ => false
  end.
Proof.
  split; [vm_compute; reflexivity|]. apply (pow_verdict_ignores_dag sample_pow). apply rtc_once.
  apply (step_ensure pow_init 0 96 (zeros 32)).
Defined.
