(* ===== verification/BalanceSheet.v ===== *)
(** * The balance sheet ([include/balance_sheet.h], [src/balance_sheet.c])

    The account map, the simulation overlay that selects spendable transactions, and the file form.
    The hash table is a finite map from 32-byte addresses to entries; the table is initialised and
    insertion does not fail for lack of memory.

    The abstraction is [bal]: an account's balance as an integer, zero when it has no entry.  A
    transaction's meaning is [tx_effect], its change of every account's balance; the simulation and
    (in the ledger file) the block application are shown to realise it. *)
From S2P Require Import Prelude Bytes UInt256 Utils Crypto Transaction.

Record balance_sheet_entry := mkEntry {
  address : bytes;
  balance : uint256;
  lastTxTimestamp : Z
}.

#[export] Instance balance_sheet_entry_eq_dec : EqDecision balance_sheet_entry.
Proof. solve_decision. Defined.

Abbreviation sheet := (gmap (list Z) balance_sheet_entry).

(** [memset(&entry, 0, ...)] with the address filled in. *)
Definition fresh_entry (addr : bytes) : balance_sheet_entry := mkEntry addr (uint256_from_u64 0) 0.

(** ** Operations on the global map *)

Definition BalanceSheet_Init : sheet := ∅.

Definition BalanceSheet_InsertLocked (m : sheet) (entry : balance_sheet_entry) : sheet := <[address entry := entry]> m.
Definition BalanceSheet_Insert (m : sheet) (entry : balance_sheet_entry) : sheet := BalanceSheet_InsertLocked m entry.
Definition BalanceSheet_Lookup (m : sheet) (addr : bytes) : option balance_sheet_entry := m !! addr.

(** ** The simulation overlay *)

(** The entry seen through the overlay, which caches what it reads. *)
Definition BalanceSheet_GetSimEntry (m simMap : sheet) (addr : bytes) : balance_sheet_entry * sheet :=
  match simMap !! addr with
  | Some e => (e, simMap)
  | None =>
      match BalanceSheet_Lookup m addr with
      | Some e => (e, <[addr := e]> simMap)
      | None => (fresh_entry addr, <[addr := fresh_entry addr]> simMap)
      end
  end.

Definition BalanceSheet_StoreSimEntry (simMap : sheet) (e : balance_sheet_entry) : sheet := <[address e := e]> simMap.

(** [amount1 + amount2 + fee], or failure on 256-bit overflow. *)
Definition add_spend (tx : signed_transaction) : option uint256 :=
  let '(s1, o1) := uint256_add_u64 (uint256_from_u64 0) (tx_amount1 (stx tx)) in
  if o1 : bool then None else
  let '(s2, o2) := uint256_add_u64 s1 (tx_amount2 (stx tx)) in
  if o2 : bool then None else
  let '(s3, o3) := uint256_add_u64 s2 (tx_fee (stx tx)) in
  if o3 : bool then None else Some s3.

(** Credit one account in the overlay; the overlay keeps what was read even on failure. *)
Definition sim_credit (m simMap : sheet) (addr : bytes) (amount : Z) : bool * sheet :=
  let '(e, simMap) := BalanceSheet_GetSimEntry m simMap addr in
  let '(b, overflow) := uint256_add_u64 (balance e) amount in
  if overflow : bool then (false, simMap)
  else (true, BalanceSheet_StoreSimEntry simMap (mkEntry (address e) b (lastTxTimestamp e))).

Section Operations.
Context {ops : CryptoOps}.

Definition BalanceSheet_ApplyCandidateTransaction (m simMap : sheet) (tx : signed_transaction) : bool * sheet :=
  let t := stx tx in
  if Address_IsCoinbase (senderAddress t) then (true, simMap)
  else if negb (Transaction_Verify tx) then (false, simMap)
  else
    let '(senderEntry, simMap) := BalanceSheet_GetSimEntry m simMap (senderAddress t) in
    match add_spend tx with
    | None => (false, simMap)
    | Some spend =>
        if uint256_cmp (balance senderEntry) spend <? 0 then (false, simMap)
        else
          let '(ok, b) := uint256_subtract (balance senderEntry) spend in
          if negb ok then (false, simMap)
          else
            let simMap := BalanceSheet_StoreSimEntry simMap
                            (mkEntry (address senderEntry) b (lastTxTimestamp senderEntry)) in
            let '(ok1, simMap) := sim_credit m simMap (recipientAddress1 t) (tx_amount1 t) in
            if negb ok1 then (false, simMap)
            else if 0 <? tx_amount2 t then sim_credit m simMap (recipientAddress2 t) (tx_amount2 t)
            else (true, simMap)
    end.

(** The selection loop: accepted transactions in order, and the wrapping fee total. *)
Fixpoint select_loop (m simMap : sheet) (candidates accepted : list signed_transaction) (totalFees : Z)
  : list signed_transaction * Z :=
  match candidates with
  | [] => (accepted, totalFees)
  | tx :: r =>
      if Address_IsCoinbase (senderAddress (stx tx)) then select_loop m simMap r accepted totalFees
      else
        let '(ok, simMap') := BalanceSheet_ApplyCandidateTransaction m simMap tx in
        if ok then select_loop m simMap' r (accepted ++ [tx]) (totalFees +u64 tx_fee (stx tx))
        else select_loop m simMap' r accepted totalFees
  end.

Definition BalanceSheet_SelectSpendableTransactions (m : sheet) (candidates : list signed_transaction)
  : list signed_transaction * Z := select_loop m ∅ candidates [] 0.
End Operations.

(** ** File form: the 72-byte entries one after another *)

Definition SIZEOF_ENTRY : nat := 72.

Definition uint256_bytes (v : uint256) : bytes := concat (map (le_bytes 8) v).

Definition entry_bytes (e : balance_sheet_entry) : bytes :=
  address e ++ uint256_bytes (balance e) ++ le_bytes 8 (lastTxTimestamp e).

Definition read_entry (bs : bytes) : option (balance_sheet_entry * bytes) :=
  '(addr, bs) ← cut 32 bs;
  '(l0, bs) ← cut 8 bs;
  '(l1, bs) ← cut 8 bs;
  '(l2, bs) ← cut 8 bs;
  '(l3, bs) ← cut 8 bs;
  '(ts, bs) ← cut 8 bs;
  Some (mkEntry addr [le_val l0; le_val l1; le_val l2; le_val l3] (le_val ts), bs).

(** The bytes of [balance_sheet.data]; the hash table's iteration order is the map's. *)
Definition BalanceSheet_SaveToFile (m : sheet) : bytes := concat (map (fun p => entry_bytes p.2) (map_to_list m)).

(** Insert entries until fewer than 72 bytes are left; [fuel] bounds their number. *)
Fixpoint load_entries (fuel : nat) (m : sheet) (file : bytes) : sheet :=
  match fuel with
  | O => m
  | S f =>
      match read_entry file with
      | None => m
      | Some (e, rest) => load_entries f (BalanceSheet_InsertLocked m e) rest
      end
  end.

Definition BalanceSheet_LoadFromFile (m : sheet) (file : bytes) : sheet := load_entries (length file) m file.

(** ** Abstraction *)

Definition bal (m : sheet) (a : bytes) : Z := match m !! a with Some e => val (balance e) | None => 0 end.
Definition last_ts (m : sheet) (a : bytes) : Z := match m !! a with Some e => lastTxTimestamp e | None => 0 end.

Definition entry_ok (a : bytes) (e : balance_sheet_entry) : Prop :=
  address e = a /\ bytes_n 32 a /\ uint256_ok (balance e) /\ is_u64 (lastTxTimestamp e).
Definition sheet_ok (m : sheet) : Prop := map_Forall entry_ok m.

(** All the coins there are. *)
Definition total (m : sheet) : Z := map_fold (fun _ e acc => val (balance e) + acc) 0 m.

(** What an entry-by-entry update does to every balance. *)
Definition at_address (a : bytes) (v : Z) (x : bytes) : Z := if decide (x = a) then v else 0.

(** [amount1 + amount2 + fee] as an integer, and a transaction's effect on every account. *)
Definition spend_of (tx : signed_transaction) : Z := tx_amount1 (stx tx) + tx_amount2 (stx tx) + tx_fee (stx tx).

Definition tx_effect (tx : signed_transaction) (x : bytes) : Z :=
  at_address (recipientAddress1 (stx tx)) (tx_amount1 (stx tx)) x +
  at_address (recipientAddress2 (stx tx)) (tx_amount2 (stx tx)) x -
  (if is_coinbase tx then 0 else at_address (senderAddress (stx tx)) (spend_of tx) x).

(** ** Lemmas on the abstraction *)

Lemma bal_insert m a e x : bal (<[a := e]> m) x = if decide (x = a) then val (balance e) else bal m x.
Proof.
  unfold bal. destruct (decide (x = a)) as [->|Hne].
  - by rewrite lookup_insert_eq.
  - by rewrite lookup_insert_ne by congruence.
Qed.

Lemma last_ts_insert m a e x : last_ts (<[a := e]> m) x = if decide (x = a) then lastTxTimestamp e else last_ts m x.
Proof.
  unfold last_ts. destruct (decide (x = a)) as [->|Hne].
  - by rewrite lookup_insert_eq.
  - by rewrite lookup_insert_ne by congruence.
Qed.

Lemma total_insert_fresh m a e : m !! a = None -> total (<[a := e]> m) = val (balance e) + total m.
Proof. intros H. unfold total. rewrite map_fold_insert_L; [done| |done]. intros. lia. Qed.

Lemma total_delete m a : total m = bal m a + total (delete a m).
Proof.
  unfold bal. destruct (m !! a) as [e|] eqn:E.
  - rewrite <- (insert_delete_id m a e E) at 1. apply total_insert_fresh. by rewrite lookup_delete_eq.
  - by rewrite delete_id by done.
Qed.

Lemma total_insert m a e : total (<[a := e]> m) = total m - bal m a + val (balance e).
Proof.
  rewrite <- insert_delete_eq, total_insert_fresh by apply lookup_delete_eq.
  rewrite (total_delete m a). lia.
Qed.

Lemma sheet_ok_insert m a e : sheet_ok m -> entry_ok a e -> sheet_ok (<[a := e]> m).
Proof. intros Hm He. by apply map_Forall_insert_2. Qed.

Lemma sheet_ok_delete m a : sheet_ok m -> sheet_ok (delete a m).
Proof. apply map_Forall_delete. Qed.

Lemma bal_nonneg m a : sheet_ok m -> 0 <= bal m a.
Proof.
  intros Hm. unfold bal. destruct (m !! a) as [e|] eqn:E; [|lia].
  destruct (Hm a e E) as (_ & _ & Hb & _). apply uint256_val_bounds in Hb. lia.
Qed.

Lemma total_nonneg m : sheet_ok m -> 0 <= total m.
Proof.
  induction m as [|a e m Ha IH] using map_ind; intros Hok; [by unfold total; rewrite map_fold_empty|].
  rewrite total_insert_fresh by done. assert (Hm : sheet_ok m) by (by eapply map_Forall_insert_1_2).
  pose proof (bal_nonneg _ a Hok) as H. rewrite bal_insert, decide_True in H by done. specialize (IH Hm). lia.
Qed.

Lemma bal_le_total m a : sheet_ok m -> bal m a <= total m.
Proof.
  intros Hm. rewrite (total_delete m a). pose proof (total_nonneg (delete a m) (sheet_ok_delete m a Hm)). lia.
Qed.

Lemma entry_ok_mk a b t : bytes_n 32 a -> uint256_ok b -> is_u64 t -> entry_ok a (mkEntry a b t).
Proof. intros. split; [done|]. split; [done|]. split; done. Qed.
#[export] Hint Resolve entry_ok_mk : bytes.

Lemma fresh_entry_ok a : bytes_n 32 a -> entry_ok a (fresh_entry a).
Proof. intros H. split; [done|]. split; [done|]. split; [by apply from_u64_ok|by unfold is_u64; cbn]. Qed.

(** ** Balance shifts

    [shifts v v' d D]: going from sheet [v] to [v'] keeps it well-formed and adds [d x] to every
    account [x], hence [D] in total. *)
Definition shifts (v v' : sheet) (d : bytes -> Z) (D : Z) : Prop :=
  sheet_ok v' /\ (forall x, bal v' x = bal v x + d x) /\ total v' = total v + D.

Lemma shifts_trans v1 v2 v3 d1 d2 d D1 D2 D :
  shifts v1 v2 d1 D1 -> shifts v2 v3 d2 D2 -> (forall x, d x = d1 x + d2 x) -> D = D1 + D2 -> shifts v1 v3 d D.
Proof.
  intros (_ & B1 & T1) (Hok & B2 & T2) Hd ->. split; [done|]. split; [|lia].
  intros x. rewrite B2, B1, Hd. lia.
Qed.

Lemma shifts_refl v d : sheet_ok v -> (forall x, d x = 0) -> shifts v v d 0.
Proof. intros Hv Hd. split; [done|]. split; [intros x; rewrite Hd; lia|lia]. Qed.

Lemma shifts_store v a e amount :
  sheet_ok v -> entry_ok a e -> val (balance e) = bal v a + amount ->
  shifts v (<[a := e]> v) (at_address a amount) amount.
Proof.
  intros Hv He Hval. split; [by apply sheet_ok_insert|]. split.
  - intros x. rewrite bal_insert. unfold at_address. destruct (decide (x = a)) as [->|]; lia.
  - rewrite total_insert. lia.
Qed.

Lemma at_address_0 a x : at_address a 0 x = 0.
Proof. unfold at_address. by destruct (decide (x = a)). Qed.

Lemma add_u64_no_overflow a amount :
  uint256_ok a -> is_u64 amount -> val a + amount < M256 ->
  exists r, uint256_add_u64 a amount = (r, false) /\ uint256_ok r /\ val r = val a + amount.
Proof.
  intros Ha Hm Hlt. destruct (uint256_add_u64_spec a amount Ha Hm) as (Hok & Hv & Ho).
  destruct (uint256_add_u64 a amount) as [r o]; cbn [fst snd] in *. exists r.
  rewrite (proj2 (Z.leb_gt _ _)) in Ho by lia. subst o. split; [done|]. split; [done|].
  rewrite Hv. apply Z.mod_small. apply uint256_val_bounds in Ha. unfold_cint. lia.
Qed.

Lemma spend_bounds tx : stx_ok tx -> 0 <= spend_of tx < 3 * 2 ^ 64.
Proof. intros [(_ & H1 & H2 & H3 & _) _]. unfold spend_of. unfold_cint. lia. Qed.

Lemma M256_big : 4 * 2 ^ 64 < M256.
Proof. unfold M256. reflexivity. Qed.

Lemma add_spend_spec tx :
  stx_ok tx -> exists s, add_spend tx = Some s /\ uint256_ok s /\ val s = spend_of tx.
Proof.
  intros Hok. pose proof M256_big as HM. destruct Hok as [(_ & Hf & H1 & H2 & _) _]. unfold add_spend, spend_of.
  assert (H0 : uint256_ok (uint256_from_u64 0)) by (apply from_u64_ok; unfold_cint; lia).
  destruct (add_u64_no_overflow _ (tx_amount1 (stx tx)) H0 H1) as (s1 & -> & O1 & V1);
    [rewrite val_from_u64; unfold_cint; lia|]. rewrite val_from_u64 in V1.
  destruct (add_u64_no_overflow _ (tx_amount2 (stx tx)) O1 H2) as (s2 & -> & O2 & V2); [unfold_cint; lia|].
  destruct (add_u64_no_overflow _ (tx_fee (stx tx)) O2 Hf) as (s3 & -> & O3 & V3); [unfold_cint; lia|].
  exists s3. split; [done|]. split; [done|lia].
Qed.

(** ** The overlay is a sheet of its own: [simMap ∪ m] *)

Lemma GetSimEntry_overlay m simMap a e simMap' :
  sheet_ok (simMap ∪ m) -> bytes_n 32 a ->
  BalanceSheet_GetSimEntry m simMap a = (e, simMap') ->
  entry_ok a e /\ val (balance e) = bal (simMap ∪ m) a /\ (simMap' ∪ m) !! a = Some e /\
  shifts (simMap ∪ m) (simMap' ∪ m) (fun _ => 0) 0.
Proof.
  intros Hok Ha. unfold BalanceSheet_GetSimEntry, BalanceSheet_Lookup.
  destruct (simMap !! a) as [e0|] eqn:Es.
  { intros [= <- <-]. assert (El : (simMap ∪ m) !! a = Some e0) by (by apply lookup_union_Some_l).
    unfold bal. rewrite El. split; [by apply Hok|]. split; [done|]. split; [done|]. by apply shifts_refl. }
  destruct (m !! a) as [e0|] eqn:Em; intros [= <- <-]; rewrite <- insert_union_l, lookup_insert_eq.
  - assert (El : (simMap ∪ m) !! a = Some e0) by (by rewrite lookup_union_r).
    unfold bal. rewrite El, insert_id by done. split; [by apply Hok|]. split; [done|]. split; [done|].
    by apply shifts_refl.
  - assert (El : (simMap ∪ m) !! a = None) by (by rewrite lookup_union_r).
    assert (Hb : bal (simMap ∪ m) a = 0) by (unfold bal; by rewrite El).
    split; [by apply fresh_entry_ok|]. split; [by rewrite Hb|]. split; [done|].
    destruct (shifts_store (simMap ∪ m) a (fresh_entry a) 0 Hok (fresh_entry_ok a Ha)) as (H1 & H2 & H3).
    + rewrite Hb. reflexivity.
    + split; [done|]. split; [|done]. intros x. by rewrite H2, at_address_0.
Qed.

Lemma sim_credit_spec m simMap a amount :
  sheet_ok (simMap ∪ m) -> bytes_n 32 a -> is_u64 amount -> bal (simMap ∪ m) a + amount < M256 ->
  exists simMap', sim_credit m simMap a amount = (true, simMap') /\
    shifts (simMap ∪ m) (simMap' ∪ m) (at_address a amount) amount.
Proof.
  intros Hok Ha Hm Hlt. unfold sim_credit.
  destruct (BalanceSheet_GetSimEntry m simMap a) as [e s1] eqn:E.
  destruct (GetSimEntry_overlay m simMap a e s1 Hok Ha E) as ((Ea & _ & Hb & Ht) & Hv & Hl & Hs).
  destruct (add_u64_no_overflow (balance e) amount Hb Hm) as (r & -> & Hr & Vr); [lia|].
  unfold BalanceSheet_StoreSimEntry. cbn [address]. rewrite Ea. eexists. split; [done|]. rewrite <- insert_union_l.
  eapply (shifts_trans _ _ _ _ (at_address a amount)); [exact Hs| | |].
  - apply shifts_store; [apply Hs|by apply entry_ok_mk|]. cbn [balance]. destruct Hs as (_ & HB & _). rewrite HB. lia.
  - intros x. cbv beta. lia.
  - lia.
Qed.

Lemma sim_debit_spec m simMap a e b spend :
  sheet_ok (simMap ∪ m) -> entry_ok a e -> val (balance e) = bal (simMap ∪ m) a ->
  uint256_ok b -> val b = val (balance e) - spend ->
  shifts (simMap ∪ m) (BalanceSheet_StoreSimEntry simMap (mkEntry (address e) b (lastTxTimestamp e)) ∪ m)
    (at_address a (- spend)) (- spend).
Proof.
  intros Hok (Ea & Ha & _ & Ht) Hv Hb Vb. unfold BalanceSheet_StoreSimEntry. cbn [address]. rewrite Ea, <- insert_union_l.
  apply shifts_store; [done|by apply entry_ok_mk|]. cbn [balance]. lia.
Qed.

Lemma at_address_neg a v x : at_address a (- v) x = - at_address a v x.
Proof. unfold at_address. destruct (decide (x = a)); lia. Qed.

(** The value that leaves circulation with a non-coinbase transaction is its fee. *)
Lemma apply_candidate_spec {ops : CryptoOps} m simMap tx :
  stx_ok tx -> is_coinbase tx = false -> sheet_ok (simMap ∪ m) -> total (simMap ∪ m) < M256 ->
  exists simMap', 
    if Transaction_Verify tx && (spend_of tx <=? bal (simMap ∪ m) (senderAddress (stx tx))) then
      BalanceSheet_ApplyCandidateTransaction m simMap tx = (true, simMap') /\
      shifts (simMap ∪ m) (simMap' ∪ m) (tx_effect tx) (- tx_fee (stx tx))
    else
      BalanceSheet_ApplyCandidateTransaction m simMap tx = (false, simMap') /\
      shifts (simMap ∪ m) (simMap' ∪ m) (fun _ => 0) 0.
Proof.
  intros Htx Hcb Hok Htot. unfold BalanceSheet_ApplyCandidateTransaction, tx_effect.
  unfold is_coinbase in Hcb |- *. rewrite Hcb.
  destruct (Transaction_Verify tx); cbn [andb negb]; [|exists simMap; split; [done|by apply shifts_refl]].
  pose proof Htx as [(_ & Hfee & Ha1 & Ha2 & Hs & Hr1 & Hr2 & _) _].
  destruct (BalanceSheet_GetSimEntry m simMap (senderAddress (stx tx))) as [e s1] eqn:Eg.
  destruct (GetSimEntry_overlay _ _ _ _ _ Hok Hs Eg) as (He & Hv & _ & S1).
  destruct (add_spend_spec tx Htx) as (spend & -> & Hsp & Vsp).
  pose proof He as (_ & _ & Hbe & _).
  destruct (Z.leb_spec (spend_of tx) (bal (simMap ∪ m) (senderAddress (stx tx)))) as [Hle|Hgt].
  2: { exists s1. rewrite (proj2 (Z.ltb_lt _ _)) by (apply cmp_lt_iff; [done|done|lia]). split; [done|exact S1]. }
  assert (Hc : ~ uint256_cmp (balance e) spend < 0) by (rewrite cmp_lt_iff by done; lia).
  rewrite (proj2 (Z.ltb_ge _ _)) by lia.
  destruct (uint256_subtract_spec (balance e) spend Hbe Hsp) as (Hob & Hfl & Hvb).
  destruct (uint256_subtract (balance e) spend) as [fl b]. cbn [fst snd] in *.
  rewrite (proj2 (Z.leb_le _ _)) in Hfl, Hvb by lia. subst fl. cbn [negb].
  pose proof S1 as (Hok1 & B1 & T1).
  assert (S2 := sim_debit_spec m s1 _ e b (spend_of tx) Hok1 He ltac:(rewrite B1; lia) Hob ltac:(lia)).
  set (s2 := BalanceSheet_StoreSimEntry s1 _) in *. pose proof S2 as (Hok2 & B2 & T2).
  pose proof (bal_le_total _ (recipientAddress1 (stx tx)) Hok2) as L2.
  pose proof (spend_bounds tx Htx) as Hspb.
  assert (Hsum : spend_of tx = tx_amount1 (stx tx) + tx_amount2 (stx tx) + tx_fee (stx tx)) by reflexivity.
  destruct (sim_credit_spec m s2 _ _ Hok2 Hr1 Ha1) as (s3 & -> & S3); [unfold_cint; lia|]. cbn [negb].
  pose proof (shifts_trans _ _ _ _ _ (fun x => at_address (recipientAddress1 (stx tx)) (tx_amount1 (stx tx)) x
    - at_address (senderAddress (stx tx)) (spend_of tx) x) _ _ (tx_amount1 (stx tx) - spend_of tx)
    S2 S3 ltac:(intros x; cbv beta; rewrite at_address_neg; lia) ltac:(lia)) as S23.
  pose proof (shifts_trans _ _ _ _ _ _ _ _ _ S1 S23 ltac:(intros x; reflexivity) ltac:(reflexivity)) as S123.
  pose proof S3 as (Hok3 & B3 & T3). pose proof (bal_le_total _ (recipientAddress2 (stx tx)) Hok3) as L3.
  destruct (Z.ltb_spec 0 (tx_amount2 (stx tx))) as [Hp|Hz].
  - destruct (sim_credit_spec m s3 _ _ Hok3 Hr2 Ha2) as (s4 & -> & S4); [unfold_cint; lia|].
    exists s4. split; [done|]. eapply shifts_trans; [exact S123|exact S4|intros x; cbv beta; lia|lia].
  - exists s3. split; [done|]. assert (Ez : tx_amount2 (stx tx) = 0) by (unfold_cint; lia).
    destruct S123 as (? & HB & HT). split; [done|]. split; [|lia]. intros x. rewrite HB, Ez, at_address_0. lia.
Qed.

(** ** Selection refines a greedy choice over abstract balances *)

Section Selection.
Context {ops : CryptoOps}.

(** Take each non-coinbase transaction that verifies and is covered at its turn. *)
Fixpoint greedy (b : bytes -> Z) (candidates : list signed_transaction) : list signed_transaction :=
  match candidates with
  | [] => []
  | tx :: r =>
      if is_coinbase tx then greedy b r
      else if Transaction_Verify tx && (spend_of tx <=? b (senderAddress (stx tx)))
      then tx :: greedy (fun x => b x + tx_effect tx x) r
      else greedy b r
  end.

#[export] Instance greedy_proper : Proper (pointwise_relation _ eq ==> eq ==> eq) greedy.
Proof.
  intros b b' Hb l l' <-. revert b b' Hb. induction l as [|tx r IH]; intros b b' Hb; cbn [greedy]; [done|].
  rewrite (IH b b' Hb), (Hb (senderAddress (stx tx))).
  rewrite (IH (fun x => b x + tx_effect tx x) (fun x => b' x + tx_effect tx x)); [done|].
  intros x. by rewrite (Hb x).
Qed.

Lemma greedy_accepted b l tx : tx ∈ greedy b l -> is_coinbase tx = false /\ Transaction_Verify tx = true.
Proof.
  revert b; induction l as [|t r IH]; intros b; cbn [greedy]; [by intros ?%not_elem_of_nil|].
  destruct (is_coinbase t) eqn:Ec; [apply IH|].
  destruct (Transaction_Verify t) eqn:Ev; cbn [andb]; [|apply IH].
  destruct (spend_of t <=? b (senderAddress (stx t))); [|apply IH].
  intros [->|H]%elem_of_cons; [done|by apply IH in H].
Qed.

Lemma select_loop_spec m simMap l acc tot :
  Forall stx_ok l -> sheet_ok (simMap ∪ m) -> total (simMap ∪ m) < M256 -> is_u64 tot ->
  select_loop m simMap l acc tot =
  (acc ++ greedy (bal (simMap ∪ m)) l, tot +u64 fee_sum (greedy (bal (simMap ∪ m)) l)).
Proof.
  intros Hl; revert simMap acc tot; induction Hl as [|tx r Htx _ IH]; intros simMap acc tot Hok Htot Hu.
  { cbn. rewrite app_nil_r, Z.add_0_r, u64_small by done. done. }
  cbn [select_loop greedy]. fold (is_coinbase tx). destruct (is_coinbase tx) eqn:Ec; [by apply IH|].
  destruct (apply_candidate_spec m simMap tx Htx Ec Hok Htot) as (s' & Hspec).
  pose proof Htx as [(_ & Hf & _) _].
  destruct (Transaction_Verify tx && (spend_of tx <=? bal (simMap ∪ m) (senderAddress (stx tx)))).
  - destruct Hspec as (-> & Hok' & HB & HT). rewrite IH by (done || apply u64_range || (unfold_cint; lia)).
    assert (E : greedy (bal (s' ∪ m)) r = greedy (fun x => bal (simMap ∪ m) x + tx_effect tx x) r)
      by (by apply greedy_proper).
    rewrite E, <- app_assoc, fee_sum_cons. unfold fee_of. rewrite Ec. f_equal.
    unfold u64. rewrite Zplus_mod_idemp_l. f_equal. lia.
  - destruct Hspec as (-> & Hok' & HB & HT). rewrite IH by (done || lia).
    assert (E : greedy (bal (s' ∪ m)) r = greedy (bal (simMap ∪ m)) r)
      by (apply greedy_proper; [intros x; rewrite HB; lia|done]).
    by rewrite E.
Qed.
End Selection.

(** ** File round trip *)

Lemma entry_bytes_read a e rest : entry_ok a e -> read_entry (entry_bytes e ++ rest) = Some (e, rest).
Proof.
  intros (Ea & [La _] & [L4 Hb] & Ht). destruct e as [ad b ts]. cbn [address balance lastTxTimestamp] in *. subst ad.
  destruct b as [|l0 [|l1 [|l2 [|l3 [|? ?]]]]]; try discriminate L4.
  apply Forall_cons_iff in Hb as [H0 Hb]. apply Forall_cons_iff in Hb as [H1 Hb].
  apply Forall_cons_iff in Hb as [H2 Hb]. apply Forall_cons_iff in Hb as [H3 _].
  unfold read_entry, entry_bytes, uint256_bytes. cbn [address balance lastTxTimestamp map concat].
  rewrite app_nil_r, <- !app_assoc.
  repeat (rewrite cut_app by (apply length_le_bytes || done); cbn [mbind option_bind]).
  by rewrite !le_val_8 by done.
Qed.

Lemma length_entry_bytes a e : entry_ok a e -> length (entry_bytes e) = SIZEOF_ENTRY.
Proof.
  intros (Ea & [La _] & [L4 _] & _). unfold entry_bytes, uint256_bytes. rewrite Ea, !length_app, La, length_le_bytes.
  destruct (balance e) as [|l0 [|l1 [|l2 [|l3 [|? ?]]]]]; try discriminate L4.
  cbn [map concat]. rewrite app_nil_r, !length_app, !length_le_bytes. reflexivity.
Qed.

(** Loading a list of written entries inserts them one after another. *)
Lemma load_entries_written (l : list (bytes * balance_sheet_entry)) fuel m :
  Forall (fun p => entry_ok p.1 p.2) l -> (length l <= fuel)%nat ->
  load_entries fuel m (concat (map (fun p => entry_bytes p.2) l)) =
  fold_left (fun acc p => <[p.1 := p.2]> acc) l m.
Proof.
  intros Hl; revert fuel m; induction Hl as [|[a e] r He _ IH]; intros fuel m Hf.
  { destruct fuel; [done|]. cbn [map concat load_entries]. done. }
  destruct fuel as [|fuel]; [cbn in Hf; lia|]. cbn [map concat load_entries fold_left fst snd] in *.
  rewrite (entry_bytes_read a e _ He). unfold BalanceSheet_InsertLocked. destruct He as (-> & _).
  apply IH. cbn [length] in Hf. lia.
Qed.

Lemma fold_insert_list (l : list (bytes * balance_sheet_entry)) (m : sheet) :
  fold_left (fun (acc : sheet) p => <[p.1 := p.2]> acc) (rev l) m = (list_to_map l : sheet) ∪ m.
Proof.
  induction l as [|[a e] r IH]; cbn [rev list_to_map foldr]; [by rewrite map_empty_union|].
  rewrite fold_left_app, IH. cbn [fold_left fst snd]. by rewrite insert_union_l.
Qed.

Lemma concat_length_ge (l : list (bytes * balance_sheet_entry)) :
  Forall (fun p => entry_ok p.1 p.2) l -> (length l <= length (concat (map (fun p => entry_bytes p.2) l)))%nat.
Proof.
  induction 1 as [|[a e] r He _ IH]; cbn [map concat length fst snd] in *; [lia|].
  rewrite length_app, (length_entry_bytes a e He). unfold SIZEOF_ENTRY. lia.
Qed.

Lemma load_saved m : sheet_ok m -> BalanceSheet_LoadFromFile BalanceSheet_Init (BalanceSheet_SaveToFile m) = m.
Proof.
  intros Hok. unfold BalanceSheet_LoadFromFile, BalanceSheet_SaveToFile, BalanceSheet_Init.
  assert (Hl : Forall (fun p => entry_ok p.1 p.2) (map_to_list m)) by (apply Forall_forall; intros [a e] Hin; apply list_elem_of_In, elem_of_map_to_list in Hin; by apply Hok).
  rewrite load_entries_written by (done || by apply concat_length_ge).
  rewrite <- (rev_involutive (map_to_list m)), fold_insert_list, map_union_empty.
  transitivity (list_to_map (map_to_list m) : sheet); [|apply list_to_map_to_list].
  symmetry. apply list_to_map_proper; [apply NoDup_fst_map_to_list|apply Permutation_rev].
Qed.

(** ** Properties *)

(** C24: transaction selection is exact.  On a well-formed sheet whose coins fit in 256 bits,
    [BalanceSheet_SelectSpendableTransactions] returns exactly the greedy choice over the abstract
    balances: in order, each non-coinbase candidate that verifies and whose amounts plus fee are
    covered by its sender's balance after the transactions already taken.  The simulation overlay
    never rejects for any other reason, and the fee total is the chosen fees' sum modulo [2^64]. *)
Theorem selection_is_greedy {ops : CryptoOps} m candidates :
  Forall stx_ok candidates -> sheet_ok m -> total m < M256 ->
  BalanceSheet_SelectSpendableTransactions m candidates =
  (greedy (bal m) candidates, u64 (fee_sum (greedy (bal m) candidates))).
Proof.
  intros Hc Hok Ht. unfold BalanceSheet_SelectSpendableTransactions.
  rewrite select_loop_spec; rewrite ?map_empty_union; done.
Qed.

#[local] Existing Instances Toy.ops Toy.laws.

Definition sample_sheet : sheet :=
  <[senderAddress (stx sample_payment) := mkEntry (senderAddress (stx sample_payment)) (uint256_from_u64 5000) 3]>
  (<[replicate 32 2 := mkEntry (replicate 32 2) (uint256_from_u64 10) 0]> ∅).

Lemma sample_sheet_ok : sheet_ok sample_sheet.
Proof.
  repeat apply sheet_ok_insert; [by intros ? ?| |]; apply entry_ok_mk; vm_decide.
Qed.

Lemma selection_is_greedy_witness :
  BalanceSheet_SelectSpendableTransactions sample_sheet [Transaction_Sign sample_payment sample_key] =
  ([Transaction_Sign sample_payment sample_key], 7) /\
  BalanceSheet_SelectSpendableTransactions sample_sheet [Transaction_Sign sample_payment sample_key] =
  (greedy (bal sample_sheet) [Transaction_Sign sample_payment sample_key],
   u64 (fee_sum (greedy (bal sample_sheet) [Transaction_Sign sample_payment sample_key]))).
Proof.
  split; [vm_compute; reflexivity|].
  apply (selection_is_greedy sample_sheet); [vm_decide|apply sample_sheet_ok|vm_compute; reflexivity].
Defined.

(** Saving the balance sheet and loading it into an empty one restores it, replay guards
    included, whatever order the entries are written in. *)
Theorem sheet_save_load m :
  sheet_ok m -> BalanceSheet_LoadFromFile BalanceSheet_Init (BalanceSheet_SaveToFile m) = m.
Proof. apply load_saved. Qed.

Lemma sheet_save_load_witness :
  BalanceSheet_LoadFromFile BalanceSheet_Init (BalanceSheet_SaveToFile sample_sheet) = sample_sheet.
Proof. apply (sheet_save_load sample_sheet). apply sample_sheet_ok. Defined.
