(* ===== verification/Ledger.v ===== *)
(** * Applying blocks to the balance sheet ([src/block/chain.c])

    Three pieces of [chain.c] move coins: the ledger pass of [Chain_AddBlockLocked], the replay of
    [Chain_RollbackToHeightLocked], and (in the balance-sheet file) the selection that admits a block.
    Here are the first two, with the sender-ordering check that guards against replays.  They are
    related: an admitted block's ledger pass succeeds and realises the abstract effect of its
    transactions, and replaying it rebuilds the same sheet. *)
From S2P Require Import Prelude Bytes UInt256 Utils Crypto Transaction Block BalanceSheet.

(** ** Debit and credit *)

Definition BuildSpendAmount (tx : signed_transaction) : option uint256 := add_spend tx.

Definition CreditAddress (m : sheet) (addr : bytes) (amount : Z) : bool * sheet :=
  if amount =? 0 then (true, m)
  else match BalanceSheet_Lookup m addr with
       | Some entry =>
           let '(b, overflow) := uint256_add_u64 (balance entry) amount in
           if overflow : bool then (false, m)
           else (true, BalanceSheet_Insert m (mkEntry (address entry) b (lastTxTimestamp entry)))
       | None => (true, BalanceSheet_Insert m (mkEntry addr (uint256_from_u64 amount) 0))
       end.

Definition DebitAddress (m : sheet) (addr : bytes) (amount : uint256) (txTimestamp : Z) : bool * sheet :=
  match BalanceSheet_Lookup m addr with
  | None => (false, m)
  | Some entry =>
      if uint256_cmp (balance entry) amount <? 0 then (false, m)
      else
        let '(ok, b) := uint256_subtract (balance entry) amount in
        if negb ok then (false, m)
        else
          let last := if lastTxTimestamp entry <? txTimestamp then txTimestamp else lastTxTimestamp entry in
          (true, BalanceSheet_Insert m (mkEntry (address entry) b last))
  end.

(** ** The ledger pass *)

(** One transaction; on failure the sheet keeps what was already moved. *)
Definition ledger_tx (m : sheet) (tx : signed_transaction) : bool * sheet :=
  let t := stx tx in
  let '(ok, m) :=
    if negb (Address_IsCoinbase (senderAddress t)) then
      match BuildSpendAmount tx with
      | None => (false, m)
      | Some spend => DebitAddress m (senderAddress t) spend (tx_timestamp t)
      end
    else (true, m) in
  if negb ok then (false, m)
  else
    let '(ok, m) := CreditAddress m (recipientAddress1 t) (tx_amount1 t) in
    if negb ok then (false, m)
    else if 0 <? tx_amount2 t then
      if memeq (recipientAddress2 t) (zeros 32) then (false, m)
      else CreditAddress m (recipientAddress2 t) (tx_amount2 t)
    else (true, m).

(** The whole block; stops at the first failure. *)
Fixpoint ledger_pass (m : sheet) (txs : list signed_transaction) : bool * sheet :=
  match txs with
  | [] => (true, m)
  | tx :: r => let '(ok, m) := ledger_tx m tx in if ok then ledger_pass m r else (false, m)
  end.

(** ** The rollback replay *)

(** Credit without checking for overflow, creating the account if needed. *)
Definition replay_credit (m : sheet) (addr : bytes) (amount : Z) : sheet :=
  BalanceSheet_Insert m
    (match BalanceSheet_Lookup m addr with
     | None => mkEntry addr (uint256_from_u64 amount) 0
     | Some entry => mkEntry (address entry) (fst (uint256_add_u64 (balance entry) amount)) (lastTxTimestamp entry)
     end).

Definition replay_debit (m : sheet) (tx : signed_transaction) : sheet :=
  let t := stx tx in
  let spend := fst (uint256_add_u64 (uint256_from_u64 0) (tx_amount1 t)) in
  let spend := if 0 <? tx_amount2 t then fst (uint256_add_u64 spend (tx_amount2 t)) else spend in
  let spend := if 0 <? tx_fee t then fst (uint256_add_u64 spend (tx_fee t)) else spend in
  let senderEntry := match BalanceSheet_Lookup m (senderAddress t) with
                     | Some e => e
                     | None => fresh_entry (senderAddress t)
                     end in
  let last := if lastTxTimestamp senderEntry <? tx_timestamp t then tx_timestamp t else lastTxTimestamp senderEntry in
  BalanceSheet_Insert m (mkEntry (address senderEntry) (snd (uint256_subtract (balance senderEntry) spend)) last).

(** One transaction of the replay, carrying the rebuilt supply. *)
Definition replay_tx (st : uint256 * sheet) (tx : signed_transaction) : uint256 * sheet :=
  let '(rebuiltSupply, m) := st in
  let t := stx tx in
  if Address_IsCoinbase (senderAddress t) then
    (fst (uint256_add_u64 rebuiltSupply (tx_amount1 t)), replay_credit m (recipientAddress1 t) (tx_amount1 t))
  else
    let m := replay_debit m tx in
    let m := replay_credit m (recipientAddress1 t) (tx_amount1 t) in
    let m := if 0 <? tx_amount2 t then replay_credit m (recipientAddress2 t) (tx_amount2 t) else m in
    (rebuiltSupply, m).

Definition replay_txs (st : uint256 * sheet) (txs : list signed_transaction) : uint256 * sheet :=
  fold_left replay_tx txs st.

(** ** The replay guard *)

(** The newest timestamp of [sender] among the sheet's [lastSeen] and earlier transactions of the block. *)
Definition fold_last_seen (sender : bytes) (lastSeen : Z) (prev : signed_transaction) : Z :=
  if Address_IsCoinbase (senderAddress (stx prev)) then lastSeen
  else if negb (memeq (senderAddress (stx prev)) sender) then lastSeen
  else if lastSeen <? tx_timestamp (stx prev) then tx_timestamp (stx prev) else lastSeen.

(** [before] are the transactions already visited, in block order. *)
Fixpoint ordering_loop (m : sheet) (before txs : list signed_transaction) : bool :=
  match txs with
  | [] => true
  | tx :: r =>
      if Address_IsCoinbase (senderAddress (stx tx)) then ordering_loop m (before ++ [tx]) r
      else
        let lastSeen := match BalanceSheet_Lookup m (senderAddress (stx tx)) with
                        | Some e => lastTxTimestamp e
                        | None => 0
                        end in
        let lastSeen := fold_left (fold_last_seen (senderAddress (stx tx))) before lastSeen in
        if tx_timestamp (stx tx) <=? lastSeen then false else ordering_loop m (before ++ [tx]) r
  end.

Definition Chain_BlockRespectsSenderOrdering (m : sheet) (txs : option (list signed_transaction)) : bool :=
  match txs with
  | None => false
  | Some l => ordering_loop m [] l
  end.

(** ** Debit and credit lemmas *)

Lemma credit_spec m a amount :
  sheet_ok m -> bytes_n 32 a -> is_u64 amount -> total m + amount < M256 ->
  exists m', CreditAddress m a amount = (true, m') /\ shifts m m' (at_address a amount) amount /\
    forall x, last_ts m' x = last_ts m x.
Proof.
  intros Hok Ha Hm Hlt. unfold CreditAddress. destruct (Z.eqb_spec amount 0) as [->|Hne].
  { exists m. split; [done|]. split; [|done]. apply shifts_refl; [done|]. intros x. apply at_address_0. }
  pose proof (bal_le_total m a Hok) as Hb. unfold BalanceSheet_Lookup, BalanceSheet_Insert, BalanceSheet_InsertLocked.
  unfold bal in Hb. destruct (m !! a) as [e|] eqn:E.
  - destruct (Hok a e E) as (Ea & _ & He & Ht).
    destruct (add_u64_no_overflow (balance e) amount He Hm) as (r & -> & Hr & Vr); [lia|].
    cbn [address]. rewrite Ea. eexists. split; [done|]. split.
    + apply shifts_store; [done|by apply entry_ok_mk|]. unfold bal. rewrite E. cbn. lia.
    + intros x. rewrite last_ts_insert. destruct (decide (x = a)) as [->|]; [|done]. unfold last_ts. by rewrite E.
  - cbn [address]. eexists. split; [done|]. split.
    + apply shifts_store; [done|apply entry_ok_mk; [done|by apply from_u64_ok|unfold_cint; lia]|].
      unfold bal. rewrite E. cbn [balance]. rewrite val_from_u64. lia.
    + intros x. rewrite last_ts_insert. destruct (decide (x = a)) as [->|]; [|done]. unfold last_ts. by rewrite E.
Qed.

Lemma debit_spec m a spend ts :
  sheet_ok m -> uint256_ok spend -> is_u64 ts -> 0 < val spend <= bal m a ->
  exists m', DebitAddress m a spend ts = (true, m') /\ shifts m m' (at_address a (- val spend)) (- val spend) /\
    forall x, last_ts m' x = if decide (x = a) then Z.max (last_ts m x) ts else last_ts m x.
Proof.
  intros Hok Hs Hts Hb. unfold DebitAddress, BalanceSheet_Lookup, BalanceSheet_Insert, BalanceSheet_InsertLocked.
  pose proof Hb as Hb'. unfold bal in Hb'. destruct (m !! a) as [e|] eqn:E; [|lia].
  destruct (Hok a e E) as (Ea & Ha & He & Ht).
  assert (Hc : ~ uint256_cmp (balance e) spend < 0) by (rewrite cmp_lt_iff by done; lia).
  rewrite (proj2 (Z.ltb_ge _ _)) by lia.
  destruct (uint256_subtract_spec (balance e) spend He Hs) as (Hob & Hfl & Hvb).
  destruct (uint256_subtract (balance e) spend) as [fl b]. cbn [fst snd] in *.
  rewrite (proj2 (Z.leb_le _ _)) in Hfl, Hvb by lia. subst fl. cbn [negb address]. rewrite Ea, if_ltb_max.
  eexists. split; [done|]. split.
  - apply shifts_store; [done|apply entry_ok_mk; [done|done|unfold_cint; lia]|]. unfold bal. rewrite E. cbn. lia.
  - intros x. rewrite last_ts_insert. destruct (decide (x = a)) as [->|]; [|done]. unfold last_ts. by rewrite E.
Qed.

(** ** One transaction *)

(** Coins created (coinbase) or destroyed (fee) by a transaction. *)
Definition tx_mint (tx : signed_transaction) : Z := if is_coinbase tx then tx_amount1 (stx tx) else - tx_fee (stx tx).

(** The effect of a transaction on the replay guard of [x]. *)
Definition tx_guard (tx : signed_transaction) (last : Z) (x : bytes) : Z :=
  if negb (is_coinbase tx) && bool_decide (x = senderAddress (stx tx)) then Z.max last (tx_timestamp (stx tx)) else last.

(** What block validation establishes of a transaction before the ledger pass sees it. *)
Definition tx_admitted (tx : signed_transaction) : Prop :=
  stx_ok tx /\ 0 < tx_amount1 (stx tx) /\ (is_coinbase tx = true -> tx_amount2 (stx tx) = 0).

(** The one malformed shape validation lets through: a second amount with no second recipient. *)
Definition second_output_ok (tx : signed_transaction) : Prop :=
  0 < tx_amount2 (stx tx) -> recipientAddress2 (stx tx) <> zeros 32.

Definition affordable (b : bytes -> Z) (tx : signed_transaction) : Prop :=
  is_coinbase tx = false -> spend_of tx <= b (senderAddress (stx tx)).

Lemma shifts_mint_last m m' d D : shifts m m' d D -> sheet_ok m'.
Proof. by intros [? _]. Qed.

(** After the debit, the coins a transaction credits fit. *)
Lemma ledger_tx_spec m tx :
  sheet_ok m -> tx_admitted tx -> second_output_ok tx -> affordable (bal m) tx ->
  total m + Z.max 0 (tx_mint tx) < M256 ->
  exists m', ledger_tx m tx = (true, m') /\ shifts m m' (tx_effect tx) (tx_mint tx) /\
    forall x, last_ts m' x = tx_guard tx (last_ts m x) x.
Proof.
  intros Hok (Htx & Hpos & Hcb2) Hso Haff Htot. unfold tx_mint, tx_guard, affordable, tx_effect, ledger_tx in *.
  pose proof Htx as [(Hts & Hfee & Ha1 & Ha2 & Hs & Hr1 & Hr2 & _) _].
  pose proof (spend_bounds tx Htx) as Hspb.
  assert (Hsum : spend_of tx = tx_amount1 (stx tx) + tx_amount2 (stx tx) + tx_fee (stx tx)) by reflexivity.
  fold (is_coinbase tx). set (debit := if negb (is_coinbase tx) then _ else _).
  set (D := if is_coinbase tx then 0 else spend_of tx).
  assert (Hd : exists m1, debit = (true, m1) /\ shifts m m1 (at_address (senderAddress (stx tx)) (- D)) (- D) /\
      forall x, last_ts m1 x = tx_guard tx (last_ts m x) x).
  { subst debit D. unfold tx_guard. destruct (is_coinbase tx) eqn:Ec; cbn [negb andb].
    - exists m. split; [done|]. split; [|done]. apply shifts_refl; [done|]. intros x. apply at_address_0.
    - unfold BuildSpendAmount. destruct (add_spend_spec tx Htx) as (sp & -> & Hsp & Vsp).
      specialize (Haff eq_refl). unfold_cint.
      destruct (debit_spec m (senderAddress (stx tx)) sp (tx_timestamp (stx tx)) Hok Hsp Hts) as (m1 & E & S & L); [lia|].
      exists m1. rewrite E, <- Vsp. split; [done|]. split; [done|]. intros x. rewrite L.
      destruct (decide (x = senderAddress (stx tx))); [by rewrite bool_decide_true|by rewrite bool_decide_false]. }
  destruct Hd as (m1 & -> & S1 & L1). cbn [negb].
  pose proof S1 as (Hok1 & B1 & T1). unfold_cint.
  destruct (credit_spec m1 _ _ Hok1 Hr1 Ha1) as (m2 & -> & S2 & L2).
  { subst D. destruct (is_coinbase tx); lia. }
  cbn [negb]. pose proof S2 as (Hok2 & B2 & T2).
  pose proof (shifts_trans _ _ _ _ _ (fun x => at_address (recipientAddress1 (stx tx)) (tx_amount1 (stx tx)) x
    - at_address (senderAddress (stx tx)) D x) _ _ (tx_amount1 (stx tx) - D)
    S1 S2 ltac:(intros x; cbv beta; rewrite at_address_neg; lia) ltac:(lia)) as S12.
  destruct (Z.ltb_spec 0 (tx_amount2 (stx tx))) as [Hp|Hz].
  - rewrite (proj2 (memeq_false _ _)) by (by apply Hso).
    assert (Ec : is_coinbase tx = false) by (destruct (is_coinbase tx); [specialize (Hcb2 eq_refl); lia|done]).
    subst D. rewrite Ec in *.
    destruct (credit_spec m2 _ _ Hok2 Hr2 Ha2) as (m3 & -> & S3 & L3); [lia|].
    exists m3. split; [done|]. split.
    + eapply shifts_trans; [exact S12|exact S3|intros x; cbv beta; lia|lia].
    + intros x. rewrite L3, L2, L1. unfold tx_guard. by rewrite Ec.
  - assert (Ez : tx_amount2 (stx tx) = 0) by lia. exists m2. split; [done|]. split; [|intros x; by rewrite L2, L1].
    destruct S12 as (_ & HB & HT). split; [done|]. subst D. rewrite Ez.
    destruct (is_coinbase tx); (split; [intros x; rewrite HB, at_address_0, ?at_address_0; lia|lia]).
Qed.

(** ** A whole block *)

Definition block_effect (txs : list signed_transaction) (x : bytes) : Z := foldr (fun tx acc => tx_effect tx x + acc) 0 txs.
Definition block_mint (txs : list signed_transaction) : Z := foldr (fun tx acc => tx_mint tx + acc) 0 txs.
Definition coinbase_sum (txs : list signed_transaction) : Z :=
  foldr (fun tx acc => (if is_coinbase tx then tx_amount1 (stx tx) else 0) + acc) 0 txs.
Definition block_guard (txs : list signed_transaction) (last : Z) (x : bytes) : Z :=
  fold_left (fun acc tx => tx_guard tx acc x) txs last.

(** Every spend is covered at its turn. *)
Fixpoint solvent (b : bytes -> Z) (txs : list signed_transaction) : Prop :=
  match txs with
  | [] => True
  | tx :: r => affordable b tx /\ solvent (fun x => b x + tx_effect tx x) r
  end.

#[export] Instance solvent_proper : Proper (pointwise_relation _ eq ==> eq ==> iff) solvent.
Proof.
  intros b b' Hb l l' <-. revert b b' Hb. induction l as [|tx r IH]; intros b b' Hb; cbn [solvent]; [done|].
  unfold affordable. rewrite (Hb (senderAddress (stx tx))).
  rewrite (IH (fun x => b x + tx_effect tx x) (fun x => b' x + tx_effect tx x)); [done|].
  intros x. by rewrite (Hb x).
Qed.

Lemma coinbase_sum_nonneg txs : Forall stx_ok txs -> 0 <= coinbase_sum txs.
Proof.
  induction 1 as [|tx r Hx _ IH]; cbn [coinbase_sum foldr] in *; [lia|]. fold (coinbase_sum r) in *.
  destruct Hx as [(_ & _ & Ha & _) _]. unfold_cint. destruct (is_coinbase tx); lia.
Qed.

Lemma coinbase_sum_cons tx r :
  coinbase_sum (tx :: r) = (if is_coinbase tx then tx_amount1 (stx tx) else 0) + coinbase_sum r.
Proof. reflexivity. Qed.

Lemma block_mint_eq txs : block_mint txs = coinbase_sum txs - fee_sum txs.
Proof.
  induction txs as [|tx r IH]; [done|]. rewrite fee_sum_cons, coinbase_sum_cons.
  change (block_mint (tx :: r)) with (tx_mint tx + block_mint r). rewrite IH.
  unfold tx_mint, fee_of. destruct (is_coinbase tx); lia.
Qed.

Lemma ledger_pass_spec m txs :
  sheet_ok m -> Forall tx_admitted txs -> Forall second_output_ok txs -> solvent (bal m) txs ->
  total m + coinbase_sum txs < M256 ->
  exists m', ledger_pass m txs = (true, m') /\ shifts m m' (block_effect txs) (block_mint txs) /\
    forall x, last_ts m' x = block_guard txs (last_ts m x) x.
Proof.
  intros Hok Had; revert m Hok; induction Had as [|tx r Htx Hr IH]; intros m Hok Hso Hsol Htot.
  { exists m. split; [done|]. split; [by apply shifts_refl|done]. }
  apply Forall_cons_iff in Hso as [Hs1 Hso]. destruct Hsol as [Haff Hsol]. rewrite coinbase_sum_cons in Htot.
  pose proof Htx as ([(_ & Hf & _) _] & Hpos & _).
  assert (Hcn : 0 <= coinbase_sum r).
  { apply coinbase_sum_nonneg. eapply Forall_impl; [|exact Hr]. by intros t (? & _). }
  destruct (ledger_tx_spec m tx Hok Htx Hs1 Haff) as (m1 & E1 & S1 & L1).
  { unfold tx_mint. unfold_cint. destruct (is_coinbase tx); lia. }
  pose proof S1 as (Hok1 & B1 & T1).
  destruct (IH m1 Hok1 Hso) as (m' & E' & S' & L').
  - revert Hsol. apply solvent_proper; [|done]. intros x. by rewrite B1.
  - rewrite T1. unfold tx_mint. unfold_cint. destruct (is_coinbase tx); lia.
  - cbn [ledger_pass]. rewrite E1. exists m'. split; [exact E'|]. split.
    + eapply shifts_trans; [exact S1|exact S'|intros x; reflexivity|reflexivity].
    + intros x. rewrite L', L1. reflexivity.
Qed.

(** ** Selection of everything means solvency *)

Definition noncoinbase (txs : list signed_transaction) : list signed_transaction :=
  filter (fun tx => is_coinbase tx = false) txs.

Lemma noncoinbase_cons tx r :
  noncoinbase (tx :: r) = if is_coinbase tx then noncoinbase r else tx :: noncoinbase r.
Proof. unfold noncoinbase. cbn. by destruct (is_coinbase tx). Qed.

Section Selected.
Context {ops : CryptoOps}.

Lemma greedy_length b l : (length (greedy b l) <= length (noncoinbase l))%nat.
Proof.
  revert b; induction l as [|tx r IH]; intros b; cbn [greedy]; [done|]. rewrite noncoinbase_cons.
  destruct (is_coinbase tx); [done|]. destruct (_ && _); cbn [length].
  - specialize (IH (fun x => b x + tx_effect tx x)). lia.
  - specialize (IH b). lia.
Qed.

Lemma coinbase_effect_nonneg tx x : stx_ok tx -> is_coinbase tx = true -> 0 <= tx_effect tx x.
Proof.
  intros [(_ & _ & H1 & H2 & _) _] Ec. unfold tx_effect, at_address. rewrite Ec. unfold_cint.
  destruct (decide _), (decide _); lia.
Qed.

(** Coinbase credits, which selection leaves out, only help. *)
Lemma greedy_all b b' l :
  Forall stx_ok l -> (forall x, b x <= b' x) -> length (greedy b l) = length (noncoinbase l) ->
  solvent b' l /\ greedy b l = noncoinbase l.
Proof.
  intros Hl; revert b b'; induction Hl as [|tx r Hx _ IH]; intros b b' Hle; [done|].
  cbn [greedy solvent]. rewrite noncoinbase_cons. unfold affordable. destruct (is_coinbase tx) eqn:Ec.
  - intros Hlen. destruct (IH b (fun x => b' x + tx_effect tx x)) as [H1 H2]; [|done|].
    + intros x. pose proof (coinbase_effect_nonneg tx x Hx Ec). specialize (Hle x). lia.
    + split; [|done]. split; [done|exact H1].
  - destruct (Transaction_Verify tx); cbn [andb].
    2: { intros Hlen. pose proof (greedy_length b r). cbn [length] in Hlen. lia. }
    destruct (Z.leb_spec (spend_of tx) (b (senderAddress (stx tx)))) as [Hs|Hs].
    2: { intros Hlen. pose proof (greedy_length b r). cbn [length] in Hlen. lia. }
    cbn [length]. intros Hlen.
    destruct (IH (fun x => b x + tx_effect tx x) (fun x => b' x + tx_effect tx x)) as [H1 H2]; [|lia|].
    + intros x. specialize (Hle x). lia.
    + split; [|by rewrite H2]. split; [|exact H1]. intros _. specialize (Hle (senderAddress (stx tx))). lia.
Qed.
End Selected.

(** ** The replay rebuilds what the ledger pass built *)

Lemma add_u64_zero a : uint256_ok a -> fst (uint256_add_u64 a 0) = a.
Proof.
  intros Ha. destruct (uint256_add_u64_spec a 0 Ha) as (Hok & Hv & _); [unfold_cint; lia|].
  apply uint256_val_inj; [done|done|]. rewrite Hv, Z.add_0_r. apply Z.mod_small. by apply uint256_val_bounds.
Qed.

Lemma replay_credit_eq m a amount m' :
  amount <> 0 -> CreditAddress m a amount = (true, m') -> replay_credit m a amount = m'.
Proof.
  intros Hne. unfold CreditAddress, replay_credit. rewrite (proj2 (Z.eqb_neq _ _) Hne).
  destruct (BalanceSheet_Lookup m a) as [e|]; [|by intros [= <-]].
  destruct (uint256_add_u64 (balance e) amount) as [b [|]]; [done|]. by intros [= <-].
Qed.

(** The guarded additions of the replay compute the same spend. *)
Lemma replay_spend_eq tx sp :
  stx_ok tx -> add_spend tx = Some sp ->
  (let spend := fst (uint256_add_u64 (uint256_from_u64 0) (tx_amount1 (stx tx))) in
   let spend := if 0 <? tx_amount2 (stx tx) then fst (uint256_add_u64 spend (tx_amount2 (stx tx))) else spend in
   if 0 <? tx_fee (stx tx) then fst (uint256_add_u64 spend (tx_fee (stx tx))) else spend) = sp.
Proof.
  intros [(_ & Hf & H1 & H2 & _) _] E. unfold add_spend in E. cbv zeta.
  assert (H0 : uint256_ok (uint256_from_u64 0)) by (apply from_u64_ok; unfold_cint; lia).
  destruct (uint256_add_u64_spec _ (tx_amount1 (stx tx)) H0 H1) as (O1 & _ & _).
  destruct (uint256_add_u64 (uint256_from_u64 0) (tx_amount1 (stx tx))) as [s1 [|]]; [done|]. cbn [fst] in *.
  destruct (uint256_add_u64_spec s1 (tx_amount2 (stx tx)) O1 H2) as (O2 & _ & _).
  assert (E2 : (if 0 <? tx_amount2 (stx tx) then fst (uint256_add_u64 s1 (tx_amount2 (stx tx))) else s1)
               = fst (uint256_add_u64 s1 (tx_amount2 (stx tx)))).
  { destruct (Z.ltb_spec 0 (tx_amount2 (stx tx))); [done|].
    replace (tx_amount2 (stx tx)) with 0 by (unfold_cint; lia). by rewrite add_u64_zero. }
  rewrite E2. destruct (uint256_add_u64 s1 (tx_amount2 (stx tx))) as [s2 [|]]; [done|]. cbn [fst] in *.
  assert (E3 : (if 0 <? tx_fee (stx tx) then fst (uint256_add_u64 s2 (tx_fee (stx tx))) else s2)
               = fst (uint256_add_u64 s2 (tx_fee (stx tx)))).
  { destruct (Z.ltb_spec 0 (tx_fee (stx tx))); [done|].
    replace (tx_fee (stx tx)) with 0 by (unfold_cint; lia). by rewrite add_u64_zero. }
  rewrite E3. destruct (uint256_add_u64 s2 (tx_fee (stx tx))) as [s3 [|]]; [done|]. by injection E as <-.
Qed.

Lemma replay_debit_eq m tx sp m' :
  stx_ok tx -> add_spend tx = Some sp ->
  DebitAddress m (senderAddress (stx tx)) sp (tx_timestamp (stx tx)) = (true, m') -> replay_debit m tx = m'.
Proof.
  intros Htx Es. unfold DebitAddress, replay_debit. pose proof (replay_spend_eq tx sp Htx Es) as Ep. cbv zeta in *.
  rewrite Ep. destruct (BalanceSheet_Lookup m (senderAddress (stx tx))) as [e|]; [|done].
  destruct (uint256_cmp (balance e) sp <? 0); [done|].
  destruct (uint256_subtract (balance e) sp) as [[|] b]; cbn [negb snd]; [|done]. by intros [= <-].
Qed.

Lemma replay_tx_eq s m tx m' :
  tx_admitted tx -> ledger_tx m tx = (true, m') ->
  replay_tx (s, m) tx =
  (if is_coinbase tx then fst (uint256_add_u64 s (tx_amount1 (stx tx))) else s, m').
Proof.
  intros (Htx & Hpos & Hcb2) E. unfold ledger_tx in E. unfold replay_tx. fold (is_coinbase tx) in *.
  destruct (is_coinbase tx) eqn:Ec; cbn [negb] in E.
  - f_equal. destruct (CreditAddress m _ _) as [[|] m2] eqn:E2; cbn [negb] in E; [|done].
    rewrite (Hcb2 eq_refl) in E. cbn in E. injection E as <-. apply replay_credit_eq; [lia|done].
  - f_equal. unfold BuildSpendAmount in E. destruct (add_spend tx) as [sp|] eqn:Es; [|done].
    destruct (DebitAddress m _ sp _) as [[|] m1] eqn:E1; cbn [negb] in E; [|done].
    rewrite (replay_debit_eq m tx sp m1 Htx Es E1).
    destruct (CreditAddress m1 _ _) as [[|] m2] eqn:E2; cbn [negb] in E; [|done].
    rewrite (replay_credit_eq m1 (recipientAddress1 (stx tx)) (tx_amount1 (stx tx)) m2) by (lia || done).
    destruct (Z.ltb_spec 0 (tx_amount2 (stx tx))); [|by injection E].
    destruct (memeq _ _); [done|]. apply replay_credit_eq; [lia|done].
Qed.

(** The supply the replay rebuilds. *)
Definition replay_supply (s : uint256) (txs : list signed_transaction) : uint256 :=
  fold_left (fun acc tx => if is_coinbase tx then fst (uint256_add_u64 acc (tx_amount1 (stx tx))) else acc) txs s.

Lemma replay_supply_val s txs :
  Forall stx_ok txs -> uint256_ok s -> val s + coinbase_sum txs < M256 ->
  uint256_ok (replay_supply s txs) /\ val (replay_supply s txs) = val s + coinbase_sum txs.
Proof.
  intros Hl; revert s; induction Hl as [|tx r Hx Hr IH]; intros s Hs Hlt; [split; [done|cbn; lia]|].
  rewrite coinbase_sum_cons in *. unfold replay_supply. cbn [fold_left].
  destruct (is_coinbase tx); [|by apply IH].
  pose proof Hx as [(_ & _ & Ha & _) _]. pose proof (coinbase_sum_nonneg r Hr) as Hn.
  destruct (add_u64_no_overflow s _ Hs Ha) as (q & E & Hq & Vq); [lia|]. rewrite E. cbn [fst].
  destruct (IH q Hq ltac:(lia)) as [H1 H2]. split; [done|]. unfold replay_supply in H2. lia.
Qed.

Lemma replay_txs_eq s m txs m' :
  Forall tx_admitted txs -> ledger_pass m txs = (true, m') ->
  replay_txs (s, m) txs = (replay_supply s txs, m').
Proof.
  intros Had; revert s m; induction Had as [|tx r Htx _ IH]; intros s m E; [by injection E as <-|].
  cbn [ledger_pass] in E. destruct (ledger_tx m tx) as [[|] m1] eqn:E1; [|done].
  unfold replay_txs in *. cbn [fold_left]. rewrite (replay_tx_eq s m tx m1 Htx E1).
  rewrite (IH _ _ E). reflexivity.
Qed.

(** ** The sender-ordering check *)

(** Timestamps strictly above the running guard [g], sender by sender. *)
Fixpoint in_order (g : bytes -> Z) (txs : list signed_transaction) : Prop :=
  match txs with
  | [] => True
  | tx :: r => (is_coinbase tx = false -> g (senderAddress (stx tx)) < tx_timestamp (stx tx)) /\
               in_order (fun x => tx_guard tx (g x) x) r
  end.

Lemma in_order_ext g g' txs : (forall x, g x = g' x) -> in_order g txs <-> in_order g' txs.
Proof.
  revert g g'; induction txs as [|tx r IH]; intros g g' Hg; cbn [in_order]; [done|].
  rewrite (Hg (senderAddress (stx tx))), (IH _ (fun x => tx_guard tx (g' x) x)); [done|]. intros x. by rewrite Hg.
Qed.

Lemma fold_last_seen_guard s l before : fold_left (fold_last_seen s) before l = block_guard before l s.
Proof.
  unfold block_guard. revert l; induction before as [|p r IH]; intros l; [done|]. cbn [fold_left]. rewrite IH.
  f_equal. unfold fold_last_seen, tx_guard. fold (is_coinbase p). destruct (is_coinbase p); cbn [negb andb]; [done|].
  unfold memeq. destruct (decide (senderAddress (stx p) = s)) as [E|E].
  - rewrite bool_decide_true by done. rewrite bool_decide_true by done. cbn [negb]. apply if_ltb_max.
  - rewrite bool_decide_false by done. rewrite bool_decide_false by congruence. done.
Qed.

Lemma ordering_loop_iff m before txs :
  ordering_loop m before txs = true <-> in_order (fun x => block_guard before (last_ts m x) x) txs.
Proof.
  revert before; induction txs as [|tx r IH]; intros before; cbn [ordering_loop in_order]; [done|].
  fold (is_coinbase tx).
  assert (Hnext : ordering_loop m (before ++ [tx]) r = true <->
    in_order (fun x => tx_guard tx (block_guard before (last_ts m x) x) x) r).
  { rewrite IH. apply in_order_ext. intros x. unfold block_guard. by rewrite fold_left_app. }
  destruct (is_coinbase tx) eqn:Ec; [rewrite Hnext; intuition done|].
  rewrite fold_last_seen_guard. unfold BalanceSheet_Lookup. fold (last_ts m (senderAddress (stx tx))).
  destruct (Z.leb_spec (tx_timestamp (stx tx)) (block_guard before (last_ts m (senderAddress (stx tx))) (senderAddress (stx tx)))).
  - split; [done|]. intros [Hlt _]. specialize (Hlt eq_refl). lia.
  - rewrite Hnext. intuition lia.
Qed.

Lemma tx_guard_ge tx l x : l <= tx_guard tx l x.
Proof. unfold tx_guard. destruct (_ && _); lia. Qed.

Lemma block_guard_ge txs l x : l <= block_guard txs l x.
Proof.
  unfold block_guard. revert l; induction txs as [|tx r IH]; intros l; cbn [fold_left]; [lia|].
  pose proof (tx_guard_ge tx l x). specialize (IH (tx_guard tx l x)). lia.
Qed.

(** Once applied, a block's transactions are at or below their senders' guards. *)
Lemma block_guard_covers txs l tx :
  tx ∈ txs -> is_coinbase tx = false -> tx_timestamp (stx tx) <= block_guard txs l (senderAddress (stx tx)).
Proof.
  unfold block_guard. revert l; induction txs as [|t r IH]; intros l Hin Hc; [by apply not_elem_of_nil in Hin|].
  cbn [fold_left]. apply elem_of_cons in Hin as [->|Hin]; [|by apply IH].
  pose proof (block_guard_ge r (tx_guard t l (senderAddress (stx t))) (senderAddress (stx t))) as H.
  assert (Hg : tx_guard t l (senderAddress (stx t)) = Z.max l (tx_timestamp (stx t)))
    by (unfold tx_guard; by rewrite Hc, bool_decide_true).
  unfold block_guard in H. rewrite Hg in *. lia.
Qed.

Lemma in_order_above g txs tx :
  in_order g txs -> tx ∈ txs -> is_coinbase tx = false -> g (senderAddress (stx tx)) < tx_timestamp (stx tx).
Proof.
  revert g; induction txs as [|t r IH]; intros g H Hin Hc; [by apply not_elem_of_nil in Hin|].
  destruct H as [H1 H2].
  apply elem_of_cons in Hin as [->|Hin]; [by apply H1|].
  specialize (IH _ H2 Hin Hc). cbv beta in IH. pose proof (tx_guard_ge t (g (senderAddress (stx tx))) (senderAddress (stx tx))). lia.
Qed.

(** ** What validation establishes *)

Lemma verify_amount1 {ops : CryptoOps} tx : stx_ok tx -> Transaction_Verify tx = true -> 0 < tx_amount1 (stx tx).
Proof.
  intros Hok Hv. pose proof Hok as [(_ & _ & Ha & _) _]. apply Transaction_Verify_iff in Hv; [|done].
  destruct Hv as [Hne _]. unfold_cint. lia.
Qed.

Lemma verify_admitted {ops : CryptoOps} tx : stx_ok tx -> Transaction_Verify tx = true -> tx_admitted tx.
Proof.
  intros Hok Hv. split; [done|]. split; [by apply verify_amount1|]. intros Hc.
  apply Transaction_Verify_iff in Hv; [|done]. destruct Hv as (_ & _ & _ & _ & Hv).
  apply is_coinbase_iff in Hc; [|done]. by rewrite decide_True in Hv.
Qed.

Lemma coinbase_sum_one txs amount :
  Forall (coinbase_pays amount) txs -> coinbase_sum txs = amount * Z.of_nat (coinbase_count txs).
Proof.
  induction 1 as [|tx r Hx _ IH]; [cbn; lia|]. rewrite coinbase_sum_cons, coinbase_count_cons, IH.
  unfold coinbase_pays in Hx. destruct (is_coinbase tx); [|lia].
  destruct (Hx eq_refl) as (_ & _ & -> & _). lia.
Qed.

Lemma admitted_facts {ops : CryptoOps} m b txs amount f :
  block_ok b -> transactions b = Some txs -> sheet_ok m -> total m < M256 ->
  length (fst (BalanceSheet_SelectSpendableTransactions m txs)) = length (noncoinbase txs) ->
  Block_ValidateCoinbaseAndFees b amount = Some f ->
  Forall tx_admitted txs /\ solvent (bal m) txs /\ coinbase_sum txs = amount /\ f = fee_sum txs.
Proof.
  intros [_ Hb] Et Hok Htot Hsel Hcb. rewrite Et in Hb. unfold BalanceSheet_SelectSpendableTransactions in Hsel.
  rewrite select_loop_spec in Hsel by (rewrite ?map_empty_union; done). rewrite map_empty_union in Hsel.
  cbn [fst app] in Hsel. destruct (greedy_all (bal m) (bal m) txs Hb) as [Hsol _]; [done|done|].
  unfold Block_ValidateCoinbaseAndFees in Hcb. rewrite Et in Hcb. cbn [mbind option_bind] in Hcb.
  apply coinbase_and_fees_iff in Hcb as (Hv & Hp & Hc & -> & _); [|done|done].
  split. { apply Forall_forall. intros tx Hin. eapply Forall_forall in Hb, Hv; eauto using verify_admitted. }
  split; [done|]. rewrite (coinbase_sum_one txs amount Hp). split; lia.
Qed.

(** ** Properties *)

(** An admitted block always applies.  If selection over the sheet accepts every non-coinbase
    transaction of a block, the coinbase and fee check accepts it for [amount] with fees [f], no
    transaction pays a second amount to the empty address, and the sheet's coins leave room for the
    new ones, then the ledger pass succeeds; every account [x] gains exactly the sum of the
    transactions' effects on it, the total grows by [amount - f] (the block reward: fees move, they
    are not created), and every sender's replay guard advances to its newest transaction. *)
Theorem admitted_block_applies {ops : CryptoOps} m b txs amount f :
  block_ok b -> transactions b = Some txs -> sheet_ok m -> total m + amount < M256 -> total m < M256 ->
  length (fst (BalanceSheet_SelectSpendableTransactions m txs)) = length (noncoinbase txs) ->
  Block_ValidateCoinbaseAndFees b amount = Some f -> Forall second_output_ok txs ->
  exists m', ledger_pass m txs = (true, m') /\ sheet_ok m' /\
    (forall x, bal m' x = bal m x + block_effect txs x) /\ total m' = total m + (amount - f) /\
    (forall x, last_ts m' x = block_guard txs (last_ts m x) x).
Proof.
  intros Hb Et Hok Htot Htot0 Hsel Hcb Hso.
  destruct (admitted_facts m b txs amount f Hb Et Hok Htot0 Hsel Hcb) as (Had & Hsol & Hsum & Hf).
  destruct (ledger_pass_spec m txs Hok Had Hso Hsol ltac:(lia)) as (m' & E & (Hok' & B & T) & L).
  exists m'. rewrite block_mint_eq in T. split; [done|]. split; [done|]. split; [done|]. split; [lia|done].
Qed.

#[local] Existing Instances Toy.ops Toy.laws.

Lemma admitted_block_applies_witness :
  exists m', ledger_pass sample_sheet sample_txs = (true, m') /\ total m' = total sample_sheet + 43.
Proof.
  destruct (admitted_block_applies sample_sheet sample_block sample_txs 50 7) as (m' & E & _ & _ & T & _).
  - apply sample_block_ok.
  - reflexivity.
  - apply sample_sheet_ok.
  - vm_compute; reflexivity.
  - vm_compute; reflexivity.
  - vm_compute; reflexivity.
  - vm_compute; reflexivity.
  - repeat constructor; intros H; vm_compute in H; discriminate H.
  - exists m'. split; [exact E|rewrite T; lia].
Defined.

(** Rollback's replay rebuilds the ledger.  Whenever the ledger pass over a list of admitted
    transactions succeeds, the (unchecked) replay of the same list from the same sheet ends in
    exactly the same sheet, balances and replay guards alike, and adds precisely the coinbase
    amounts to the rebuilt supply. *)
Theorem replay_rebuilds_ledger s m txs m' :
  Forall tx_admitted txs -> ledger_pass m txs = (true, m') -> uint256_ok s -> val s + coinbase_sum txs < M256 ->
  snd (replay_txs (s, m) txs) = m' /\ val (fst (replay_txs (s, m) txs)) = val s + coinbase_sum txs.
Proof.
  intros Had E Hs Hlt. rewrite (replay_txs_eq s m txs m' Had E). split; [done|]. cbn [fst].
  apply replay_supply_val; [|done|done]. eapply Forall_impl; [|exact Had]. by intros t (? & _).
Qed.

Definition sample_after : sheet := snd (ledger_pass sample_sheet sample_txs).

Lemma sample_pass : ledger_pass sample_sheet sample_txs = (true, sample_after).
Proof.
  assert (H : fst (ledger_pass sample_sheet sample_txs) = true) by (vm_compute; reflexivity).
  unfold sample_after. destruct (ledger_pass sample_sheet sample_txs). cbn [fst snd] in *. by rewrite H.
Qed.

Lemma sample_admitted : Forall tx_admitted sample_txs.
Proof.
  constructor; [|constructor; [|constructor]];
    (split; [vm_decide|split; [vm_compute; reflexivity|vm_compute; congruence]]).
Qed.

Lemma replay_rebuilds_ledger_witness :
  snd (replay_txs (uint256_from_u64 0, sample_sheet) sample_txs) = sample_after /\
  val (fst (replay_txs (uint256_from_u64 0, sample_sheet) sample_txs)) = val (uint256_from_u64 0) + coinbase_sum sample_txs.
Proof.
  apply (replay_rebuilds_ledger (uint256_from_u64 0) sample_sheet sample_txs sample_after sample_admitted sample_pass).
  - apply from_u64_ok; vm_decide.
  - vm_compute; reflexivity.
Defined.

(** The replay guard is exact.  A block passes the sender-ordering check precisely when, going
    through it in order, each non-coinbase timestamp is strictly above its own sender's guard and
    above that sender's earlier transactions in the block; and once a transaction list has been
    applied, no block that contains one of its non-coinbase transactions again passes the check. *)
Theorem ordering_check_exact m txs :
  (Chain_BlockRespectsSenderOrdering m (Some txs) = true <-> in_order (last_ts m) txs) /\
  forall m' again tx, (forall x, last_ts m' x = block_guard txs (last_ts m x) x) ->
    tx ∈ txs -> is_coinbase tx = false -> tx ∈ again ->
    Chain_BlockRespectsSenderOrdering m' (Some again) = false.
Proof.
  unfold Chain_BlockRespectsSenderOrdering. split; [by rewrite ordering_loop_iff|].
  intros m' again tx Hl Hin Hc Hag. destruct (ordering_loop m' [] again) eqn:E; [|done].
  apply ordering_loop_iff in E. pose proof (in_order_above _ _ tx E Hag Hc) as H. cbv beta in H.
  unfold block_guard in H. cbn [fold_left] in H. rewrite Hl in H.
  pose proof (block_guard_covers txs (last_ts m (senderAddress (stx tx))) tx Hin Hc). lia.
Qed.

(** A verified transaction can still stop the ledger pass half-way.  When the second amount is
    positive and the second recipient is the zero address (which [Transaction_Verify] accepts), the
    pass debits the sender, credits the first recipient and then fails: the second amount and the
    fee are gone from the sheet, and nothing is rolled back. *)
Theorem empty_second_recipient_stops_pass m tx :
  sheet_ok m -> total m < M256 -> tx_admitted tx -> is_coinbase tx = false -> affordable (bal m) tx ->
  0 < tx_amount2 (stx tx) -> recipientAddress2 (stx tx) = zeros 32 ->
  exists m', ledger_tx m tx = (false, m') /\
    total m' = total m - tx_amount2 (stx tx) - tx_fee (stx tx) /\
    forall x, bal m' x = bal m x + at_address (recipientAddress1 (stx tx)) (tx_amount1 (stx tx)) x
                         - at_address (senderAddress (stx tx)) (spend_of tx) x.
Proof.
  intros Hok Htot (Htx & Hpos & _) Hc Haff Hp Hz. unfold ledger_tx. fold (is_coinbase tx). rewrite Hc. cbn [negb].
  pose proof Htx as [(Hts & Hfee & Ha1 & Ha2 & _ & Hr1 & _) _].
  assert (Hsum : spend_of tx = tx_amount1 (stx tx) + tx_amount2 (stx tx) + tx_fee (stx tx)) by reflexivity.
  unfold BuildSpendAmount. destruct (add_spend_spec tx Htx) as (sp & -> & Hsp & Vsp). specialize (Haff Hc). unfold_cint.
  destruct (debit_spec m (senderAddress (stx tx)) sp (tx_timestamp (stx tx)) Hok Hsp Hts) as (m1 & -> & S1 & _); [lia|].
  cbn [negb]. pose proof S1 as (Hok1 & B1 & T1).
  destruct (credit_spec m1 _ _ Hok1 Hr1 Ha1) as (m2 & -> & S2 & _); [lia|]. cbn [negb].
  rewrite (proj2 (Z.ltb_lt _ _) Hp), (proj2 (memeq_true _ _) Hz). exists m2. split; [done|].
  destruct S2 as (_ & B2 & T2). split; [lia|]. intros x. rewrite B2, B1, Vsp, at_address_neg. lia.
Qed.

#[export] Instance second_output_ok_dec tx : Decision (second_output_ok tx).
Proof. unfold second_output_ok. apply _. Defined.

(** The transaction at which the pass stops: it has a second amount and no second recipient. *)
Definition stuck (tx : signed_transaction) : Prop := 0 < tx_amount2 (stx tx) /\ recipientAddress2 (stx tx) = zeros 32.

Lemma not_second_output_ok tx : ~ second_output_ok tx -> stuck tx.
Proof. unfold second_output_ok, stuck. destruct (decide (0 < tx_amount2 (stx tx))), (decide (recipientAddress2 (stx tx) = zeros 32)); tauto. Qed.

(** What the sheet is left as: everything before the stuck transaction is applied, of the stuck one
    only the debit and the first credit, and nothing behind it. *)
Lemma ledger_pass_stuck m txs :
  sheet_ok m -> Forall tx_admitted txs -> ~ Forall second_output_ok txs -> solvent (bal m) txs ->
  total m + coinbase_sum txs < M256 ->
  exists pre tx post m', txs = pre ++ tx :: post /\ Forall second_output_ok pre /\ stuck tx /\ is_coinbase tx = false /\
    ledger_pass m txs = (false, m') /\
    forall x, bal m' x = bal m x + block_effect pre x + at_address (recipientAddress1 (stx tx)) (tx_amount1 (stx tx)) x
                         - at_address (senderAddress (stx tx)) (spend_of tx) x.
Proof.
  intros Hok Had; revert m Hok; induction Had as [|tx r Htx Hr IH]; intros m Hok Hn Hsol Htot; [by destruct Hn|].
  destruct Hsol as [Haff Hsol]. rewrite coinbase_sum_cons in Htot. pose proof Htx as ([(_ & Hf & Ha1 & _) _] & _ & Hcb2). unfold_cint.
  assert (Hcn : 0 <= coinbase_sum r).
  { apply coinbase_sum_nonneg. eapply Forall_impl; [|exact Hr]. by intros t (? & _). }
  destruct (decide (second_output_ok tx)) as [Hs1|Hs1].
  - destruct (ledger_tx_spec m tx Hok Htx Hs1 Haff) as (m1 & E1 & S1 & _).
    { unfold tx_mint. destruct (is_coinbase tx); lia. }
    pose proof S1 as (Hok1 & B1 & T1).
    destruct (IH m1 Hok1) as (pre & t & post & m' & -> & Hpre & Ht & Hc & E & B).
    + intros H. apply Hn. by constructor.
    + revert Hsol. apply solvent_proper; [|done]. intros x. by rewrite B1.
    + rewrite T1. unfold tx_mint. destruct (is_coinbase tx); lia.
    + exists (tx :: pre), t, post, m'. split; [done|]. split; [by constructor|]. do 2 (split; [done|]).
      split; [cbn [ledger_pass]; by rewrite E1|].
      intros x. rewrite B, B1. change (block_effect (tx :: pre) x) with (tx_effect tx x + block_effect pre x). lia.
  - apply not_second_output_ok in Hs1 as [Hp Hz].
    assert (Hc : is_coinbase tx = false) by (destruct (is_coinbase tx); [specialize (Hcb2 eq_refl); lia|done]).
    rewrite Hc in Htot. destruct (empty_second_recipient_stops_pass m tx Hok ltac:(lia) Htx Hc Haff Hp Hz) as (m' & E & _ & B).
    exists [], tx, r, m'. do 4 (split; [done|]). split; [cbn [ledger_pass]; by rewrite E|].
    intros x. rewrite B. cbn. lia.
Qed.

Definition stuck_payment : signed_transaction :=
  mkSigned (mkTx 1700000000001 7 1000 5 (senderAddress (stx sample_payment)) (replicate 32 2) (zeros 32)
    (compressedPublicKey (stx sample_payment)) 1 (zeros 6)) (zeros 64).

Lemma empty_second_recipient_stops_pass_witness :
  Transaction_Verify (Transaction_Sign stuck_payment sample_key) = true /\
  fst (BalanceSheet_SelectSpendableTransactions sample_sheet [Transaction_Sign stuck_payment sample_key])
    = [Transaction_Sign stuck_payment sample_key] /\
  exists m', ledger_tx sample_sheet (Transaction_Sign stuck_payment sample_key) = (false, m') /\
    total m' = total sample_sheet - 5 - 7.
Proof.
  split; [vm_compute; reflexivity|]. split; [vm_compute; reflexivity|].
  destruct (empty_second_recipient_stops_pass sample_sheet (Transaction_Sign stuck_payment sample_key)) as (m' & E & T & _).
  - apply sample_sheet_ok.
  - vm_compute; reflexivity.
  - split; [vm_decide|]. split; [vm_compute; reflexivity|vm_compute; congruence].
  - vm_compute; reflexivity.
  - intros _. vm_compute. congruence.
  - vm_compute; reflexivity.
  - reflexivity.
  - exists m'. split; [exact E|exact T].
Defined.
