(* ===== verification/Difficulty.v ===== *)
(** * Difficulty, work and the reorganisation penalty
    ([src/block/chain.c], [src/nets/fetch_scheduler.c])

    The target of a height is a function of the chain's headers: every 3840 blocks the compact target
    is scaled by the measured time span.  A block's work is [2^256 / (target + 1)], computed with
    256-bit integers only.  The penalty holds back deep reorganisations. *)
From S2P Require Import Prelude Bytes UInt256 Utils Crypto Transaction Autolykos2 Block Emission.

(** ** Retargeting *)

Definition MANTISSA_MAX : Z := 8388607. (* 0x007fffff *)

(** [while (newMantissa > 0x007fffff)]: at most eight rounds shrink a 64-bit value. *)
Fixpoint normalise_down (fuel : nat) (newMantissa exponent : Z) : Z * Z :=
  match fuel with
  | O => (newMantissa, exponent)
  | S f => if MANTISSA_MAX <? newMantissa then normalise_down f (newMantissa / 256) (exponent + 1)
           else (newMantissa, exponent)
  end.

(** [while (newMantissa > 0 && newMantissa < 32768 && exponent > 3)]: at most two rounds. *)
Fixpoint normalise_up (fuel : nat) (newMantissa exponent : Z) : Z * Z :=
  match fuel with
  | O => (newMantissa, exponent)
  | S f => if (0 <? newMantissa) && (newMantissa <? 32768) && (3 <? exponent)
           then normalise_up f (newMantissa * 256) (exponent - 1)
           else (newMantissa, exponent)
  end.

Definition measuredIntervals : Z := DIFFICULTY_ADJUSTMENT_INTERVAL - 1.
Definition targetTime : Z := TARGET_BLOCK_TIME * 1000 * measuredIntervals.

Definition clamp_time (actualTime : Z) : Z :=
  if targetTime * 2 <? actualTime then targetTime * 2
  else if actualTime <? targetTime / 2 then targetTime / 2
  else actualTime.

(** Pack exponent and coefficient, with the range corrections at the end of the function. *)
Definition pack_target (newMantissa exponent : Z) : Z :=
  if 32 <? exponent then Z.lor (Z.shiftl 32 24) MANTISSA_MAX
  else
    let exponent := if exponent <? 1 then 1 else exponent in
    let newCoeff := u32 newMantissa in
    let newCoeff := if newCoeff =? 0 then 1 else newCoeff in
    let newCoeff := if MANTISSA_MAX <? newCoeff then MANTISSA_MAX else newCoeff in
    Z.lor (Z.shiftl exponent 24) (Z.land newCoeff MANTISSA_MAX).

(** The arithmetic half of [Chain_ComputeTargetAtHeight], for a measured span. *)
Definition retarget (actualTime currentTarget : Z) : Z :=
  let clampedTime := clamp_time actualTime in
  let exponent := Z.shiftr currentTarget 24 in
  let mantissa := Z.land currentTarget MANTISSA_MAX in
  if (mantissa =? 0) || (exponent =? 0) then INITIAL_DIFFICULTY
  else
    let newMantissa := (mantissa *u64 clampedTime) / targetTime in
    let '(newMantissa, exponent) := normalise_down 8 newMantissa exponent in
    let '(newMantissa, exponent) := normalise_up 2 newMantissa exponent in
    pack_target newMantissa exponent.

Definition Chain_ComputeTargetAtHeight (blocks : list block) (height currentTarget : Z) : Z :=
  if height <? DIFFICULTY_ADJUSTMENT_INTERVAL then INITIAL_DIFFICULTY
  else if Z.of_nat (length blocks) <? height then 0
  else
    match blocks !! Z.to_nat (height - 1), blocks !! Z.to_nat (height - DIFFICULTY_ADJUSTMENT_INTERVAL) with
    | Some lastBlock, Some adjustmentBlock =>
        let actualTime :=
          if timestamp (header adjustmentBlock) <? timestamp (header lastBlock)
          then timestamp (header lastBlock) - timestamp (header adjustmentBlock) else 0 in
        if actualTime =? 0 then currentTarget else retarget actualTime currentTarget
    | _, _ => 0
    end.

(** The replay of every adjustment boundary; [n] is the number of boundaries left. *)
Fixpoint target_loop (n : nat) (blocks : list block) (h target : Z) : Z :=
  match n with
  | O => target
  | S m => target_loop m blocks (h + DIFFICULTY_ADJUSTMENT_INTERVAL) (Chain_ComputeTargetAtHeight blocks h target)
  end.

Definition Chain_GetTargetForHeight (blocks : list block) (height : Z) : Z :=
  target_loop (Z.to_nat (height / DIFFICULTY_ADJUSTMENT_INTERVAL)) blocks DIFFICULTY_ADJUSTMENT_INTERVAL INITIAL_DIFFICULTY.

(** ** Work *)

Definition Chain_ComputeBlockWork (difficultyTargetBits : Z) : option uint256 :=
  targetBytes ← DecodeCompactTarget difficultyTargetBits;
  let target := uint256_from_be_bytes targetBytes in
  let '(denominator, overflow) := uint256_add_u64 target 1 in
  if overflow || uint256_is_zero denominator then None
  else
    let numerator := uint256_bitwise_not target in
    work ← uint256_divide numerator denominator;
    let '(work, overflow) := uint256_add_u64 work 1 in
    if overflow : bool then None else Some work.

(** The summation loop the two work functions share. *)
Fixpoint sum_work (blocks : list block) (acc : uint256) : option uint256 :=
  match blocks with
  | [] => Some acc
  | blk :: r =>
      work ← Chain_ComputeBlockWork (difficultyTarget (header blk));
      let '(acc', overflow) := uint256_add acc work in
      if overflow : bool then None else sum_work r acc'
  end.

Definition Chain_ComputeWorkRange (blocks : list block) (from to : nat) : option uint256 :=
  if (to <? from)%nat then None
  else if (length blocks <? to)%nat then None
  else sum_work (take (to - from) (drop from blocks)) (uint256_from_u64 0).

Definition Chain_ComputeBranchWork (blocks : list block) : option uint256 := sum_work blocks (uint256_from_u64 0).

(** ** The reorganisation penalty *)

Definition REORG_PENALTY_GRACE_BLOCKS : Z := 3.
Definition REORG_PENALTY_FACTOR_NUM : Z := 1.
Definition REORG_PENALTY_FACTOR_DEN : Z := 1.
Definition REORG_PENALTY_EXPONENT : nat := 2.
Definition REORG_PENALTY_REF_BLOCK_TIME : Z := 150.
Definition REORG_PENALTY_MAX_DEPTH : Z := 1000.

(** [depth^EXPONENT]; [None] when the saturation return fires. *)
Fixpoint raise_depth (n : nat) (depth raised : Z) : option Z :=
  match n with
  | O => Some raised
  | S m => if negb (depth =? 0) && (UINT64_MAX / depth <? raised) then None else raise_depth m depth (raised *u64 depth)
  end.

Definition FetchScheduler_ComputeReorgPenaltyBlocks (delayBlocks : Z) : Z :=
  if delayBlocks <=? REORG_PENALTY_GRACE_BLOCKS then 0
  else
    let depth := if REORG_PENALTY_MAX_DEPTH <? delayBlocks then REORG_PENALTY_MAX_DEPTH else delayBlocks in
    match raise_depth REORG_PENALTY_EXPONENT depth 1 with
    | None => UINT64_MAX
    | Some raised =>
        let numeratorScale := REORG_PENALTY_FACTOR_NUM *u64 REORG_PENALTY_REF_BLOCK_TIME in
        let denominator := REORG_PENALTY_FACTOR_DEN *u64 TARGET_BLOCK_TIME in
        if denominator =? 0 then 0
        else if negb (numeratorScale =? 0) && (UINT64_MAX / numeratorScale <? raised) then UINT64_MAX
        else
          let numerator := raised *u64 numeratorScale in
          let penalty := numerator / denominator in
          if negb (numerator mod denominator =? 0) then penalty +u64 1 else penalty
    end.

Definition Chain_ReorgPenaltyForDepth (reorgDepth : Z) : Z := FetchScheduler_ComputeReorgPenaltyBlocks reorgDepth.

(** ** Retarget lemmas *)

(** A compact target as mantissa times a power of 256 (the decoder divides by [256^3]). *)
Definition mantissa_of (c : Z) : Z := c mod 2 ^ 23.
Definition exponent_of (c : Z) : Z := c / 2 ^ 24.
Definition raw (c : Z) : Z := mantissa_of c * 256 ^ exponent_of c.

(** Encodings the decoder accepts, with a non-zero exponent. *)
Definition good_target (c : Z) : Prop := is_u32 c /\ compact_valid c = true /\ 1 <= exponent_of c.

Lemma targetTime_eq : targetTime = 345510000. Proof. reflexivity. Qed.
Lemma initial_good : good_target INITIAL_DIFFICULTY.
Proof. split; [vm_decide|]. split; [done|]. vm_compute. congruence. Qed.

Lemma clamp_time_bounds t : 172755000 <= clamp_time t <= 691020000.
Proof. unfold clamp_time. rewrite targetTime_eq. change (345510000 / 2) with 172755000. zcases; lia. Qed.

Lemma normalise_down_spec nm e :
  0 <= nm <= 2 * MANTISSA_MAX ->
  normalise_down 8 nm e = if MANTISSA_MAX <? nm then (nm / 256, e + 1) else (nm, e).
Proof.
  unfold MANTISSA_MAX. intros H. cbn [normalise_down]. unfold MANTISSA_MAX.
  destruct (Z.ltb_spec 8388607 nm) as [Hb|Hb]; [|done].
  destruct (Z.ltb_spec 8388607 (nm / 256)) as [Hc|Hc]; [|done]. exfalso. zdiv.
Qed.

(** The second loop only moves weight between mantissa and exponent. *)
Lemma normalise_up_spec nm e nm' e' :
  0 <= nm <= MANTISSA_MAX -> 1 <= e -> normalise_up 2 nm e = (nm', e') ->
  0 <= nm' <= MANTISSA_MAX /\ 1 <= e' <= e /\ (0 < nm -> 0 < nm') /\ (nm = 0 -> nm' = 0 /\ e' = e) /\
  nm' * 256 ^ e' = nm * 256 ^ e /\ ~ (0 < nm' < 32768 /\ 3 < e').
Proof.
  unfold MANTISSA_MAX. intros Hn He E. cbn [normalise_up] in E.
  destruct (Z.ltb_spec 0 nm), (Z.ltb_spec nm 32768), (Z.ltb_spec 3 e); cbn [andb] in E;
    try (injection E as <- <-; repeat split; lia).
  destruct (Z.ltb_spec 0 (nm * 256)), (Z.ltb_spec (nm * 256) 32768), (Z.ltb_spec 3 (e - 1)); cbn [andb] in E;
    injection E as <- <-; try lia.
  - assert (P : 256 ^ e = 256 * 256 * 256 ^ (e - 1 - 1)).
    { replace e with (Z.succ (Z.succ (e - 1 - 1))) at 1 by lia. rewrite !Z.pow_succ_r by lia. lia. }
    rewrite P. repeat split; try lia.
  - assert (P : 256 ^ e = 256 * 256 ^ (e - 1)) by (rewrite <- Z.pow_succ_r by lia; f_equal; lia).
    rewrite P. repeat split; try lia.
  - assert (P : 256 ^ e = 256 * 256 ^ (e - 1)) by (rewrite <- Z.pow_succ_r by lia; f_equal; lia).
    rewrite P. repeat split; try lia.
  - assert (P : 256 ^ e = 256 * 256 ^ (e - 1)) by (rewrite <- Z.pow_succ_r by lia; f_equal; lia).
    rewrite P. repeat split; try lia.
Qed.

Lemma pack_fields e nm :
  0 <= e -> 0 <= nm <= MANTISSA_MAX ->
  exponent_of (e * 2 ^ 24 + nm) = e /\ mantissa_of (e * 2 ^ 24 + nm) = nm /\ (e * 2 ^ 24 + nm) mod 2 ^ 24 / 2 ^ 23 = 0.
Proof.
  unfold MANTISSA_MAX, exponent_of, mantissa_of. intros He Hn. change (2 ^ 24) with 16777216. change (2 ^ 23) with 8388608.
  repeat split; zdiv.
Qed.

Lemma pack_target_eq nm e :
  0 <= nm <= MANTISSA_MAX -> 1 <= e ->
  pack_target nm e = if 32 <? e then 32 * 2 ^ 24 + MANTISSA_MAX else e * 2 ^ 24 + Z.max nm 1.
Proof.
  intros Hn He. unfold pack_target. destruct (Z.ltb_spec 32 e).
  - apply lor_shiftl_add; unfold MANTISSA_MAX; lia.
  - rewrite (proj2 (Z.ltb_ge e 1)) by lia.
    unfold u32. rewrite (Z.mod_small nm) by (unfold MANTISSA_MAX in Hn; lia).
    replace (if nm =? 0 then 1 else nm) with (Z.max nm 1) by (zcases; lia).
    rewrite (proj2 (Z.ltb_ge _ _)) by (unfold MANTISSA_MAX in *; lia).
    change MANTISSA_MAX with (Z.ones 23) in *. rewrite Z.land_ones by lia.
    change (Z.ones 23) with 8388607 in Hn.
    rewrite (Z.mod_small (Z.max nm 1)) by lia. apply lor_shiftl_add; lia.
Qed.

Lemma packed_good e nm : 1 <= e <= 32 -> 1 <= nm <= MANTISSA_MAX -> good_target (e * 2 ^ 24 + nm).
Proof.
  intros He Hn. destruct (pack_fields e nm) as (E1 & E2 & E3); [lia|lia|]. unfold good_target, compact_valid.
  unfold exponent_of, mantissa_of in *. rewrite E1, E2, E3. unfold MANTISSA_MAX in *.
  split; [unfold_cint; lia|]. split; [|lia].
  rewrite (proj2 (Z.eqb_neq nm 0)), (proj2 (Z.leb_le e 32)) by lia. done.
Qed.

Lemma good_fields c : good_target c -> 1 <= mantissa_of c <= MANTISSA_MAX /\ 1 <= exponent_of c <= 32.
Proof.
  intros (Hc & Hv & He). unfold compact_valid in Hv. zbool. unfold mantissa_of, exponent_of, MANTISSA_MAX in *.
  pose proof (Z.mod_pos_bound c (2 ^ 23) ltac:(lia)). lia.
Qed.

(** The scaled mantissa before normalisation. *)
Lemma scaled_mantissa m t :
  1 <= m <= MANTISSA_MAX ->
  let nm := (m *u64 clamp_time t) / targetTime in
  0 <= nm <= 2 * m /\ m <= 2 * nm + 1.
Proof.
  unfold MANTISSA_MAX. intros Hm. pose proof (clamp_time_bounds t) as Hc. cbv zeta.
  rewrite u64_small by (unfold_cint; nia). rewrite targetTime_eq.
  set (p := m * clamp_time t). assert (Hp : m * 172755000 <= p <= m * 691020000) by (subst p; nia).
  clearbody p. zdiv.
Qed.

Lemma retarget_eq t c :
  good_target c ->
  exists nm e, retarget t c = (if 32 <? e then 32 * 2 ^ 24 + MANTISSA_MAX else e * 2 ^ 24 + Z.max nm 1) /\
    0 <= nm <= MANTISSA_MAX /\ 1 <= e /\
    let s := (mantissa_of c *u64 clamp_time t) / targetTime in
    nm * 256 ^ e <= s * 256 ^ exponent_of c <= nm * 256 ^ e + 255 * 256 ^ exponent_of c /\
    (nm = 0 -> e = exponent_of c) /\ (32 < e -> exponent_of c = 32 /\ MANTISSA_MAX < s) /\
    (32768 <= s <= MANTISSA_MAX -> nm = s /\ e = exponent_of c).
Proof.
  intros Hg. destruct (good_fields c Hg) as [Hm He]. unfold retarget.
  change MANTISSA_MAX with (Z.ones 23) at 1 2. rewrite Z.land_ones, Z.shiftr_div_pow2 by lia.
  fold (mantissa_of c) (exponent_of c). destruct (scaled_mantissa (mantissa_of c) t Hm) as [Hs1 Hs2]. cbv zeta.
  rewrite (proj2 (Z.eqb_neq (mantissa_of c) 0)), (proj2 (Z.eqb_neq (exponent_of c) 0)) by lia. cbn [orb].
  set (s := (mantissa_of c *u64 clamp_time t) / targetTime) in *.
  rewrite normalise_down_spec by lia.
  pose proof (Z.pow_pos_nonneg 256 (exponent_of c) ltac:(lia) ltac:(lia)) as Hpow.
  destruct (Z.ltb_spec MANTISSA_MAX s) as [Hbig|Hsmall].
  - destruct (normalise_up 2 (s / 256) (exponent_of c + 1)) as [nm e] eqn:E.
    assert (Hq : 32768 <= s / 256 <= MANTISSA_MAX) by (unfold MANTISSA_MAX in *; zdiv).
    assert (E' : nm = s / 256 /\ e = exponent_of c + 1).
    { cbn [normalise_up] in E. rewrite (proj2 (Z.ltb_ge _ 32768)), andb_false_r in E by lia. cbn [andb] in E.
      by injection E as <- <-. }
    destruct E' as [-> ->]. exists (s / 256), (exponent_of c + 1). rewrite pack_target_eq by lia.
    rewrite Z.pow_add_r by lia. change (256 ^ 1) with 256.
    assert (Hd : 256 * (s / 256) <= s <= 256 * (s / 256) + 255) by zdiv.
    split; [done|]. repeat split; try lia; nia.
  - destruct (normalise_up 2 s (exponent_of c)) as [nm e] eqn:E.
    destruct (normalise_up_spec s (exponent_of c) nm e) as (H1 & H2 & H3 & H4 & H5 & _); [lia|lia|done|].
    exists nm, e. rewrite pack_target_eq by lia. split; [done|]. split; [lia|]. split; [lia|].
    split; [lia|]. split; [intros Hz; destruct (Z.eq_dec s 0) as [E0|]; [by apply H4|lia]|]. split; [lia|].
    intros Hr. cbn [normalise_up] in E. rewrite (proj2 (Z.ltb_ge s 32768)), andb_false_r in E by lia. cbn [andb] in E.
    by injection E as <- <-.
Qed.

Lemma retarget_good t c : good_target c -> good_target (retarget t c).
Proof.
  intros Hg. destruct (retarget_eq t c Hg) as (nm & e & -> & Hn & He & _).
  destruct (Z.ltb_spec 32 e); apply packed_good; unfold MANTISSA_MAX in *; lia.
Qed.

Lemma raw_packed e nm : 0 <= e -> 0 <= nm <= MANTISSA_MAX -> raw (e * 2 ^ 24 + nm) = nm * 256 ^ e.
Proof. intros He Hn. unfold raw. by destruct (pack_fields e nm) as (-> & -> & _). Qed.

Lemma retarget_bounds t c :
  good_target c -> raw (retarget t c) <= 2 * raw c /\ raw c <= 2 * raw (retarget t c) + 511 * 256 ^ exponent_of c.
Proof.
  intros Hg. destruct (good_fields c Hg) as [Hm He].
  destruct (scaled_mantissa (mantissa_of c) t Hm) as [Hs1 Hs2].
  destruct (retarget_eq t c Hg) as (nm & e & -> & Hn & He' & Hr & Hz & Hbig & _). cbv zeta in *.
  set (s := (mantissa_of c *u64 clamp_time t) / targetTime) in *.
  pose proof (Z.pow_pos_nonneg 256 (exponent_of c) ltac:(lia) ltac:(lia)) as Hpow.
  unfold raw at 2 3. set (P := 256 ^ exponent_of c) in *. unfold MANTISSA_MAX in *.
  destruct (Z.ltb_spec 32 e) as [Hlt|Hle].
  - destruct (Hbig Hlt) as [E32 Hs]. rewrite raw_packed by (unfold MANTISSA_MAX; lia).
    assert (EP : P = 256 ^ 32) by (subst P; by rewrite E32). rewrite EP in *. nia.
  - rewrite raw_packed by (unfold MANTISSA_MAX; lia).
    destruct (Z.eq_dec nm 0) as [->|Hne].
    + rewrite (Hz eq_refl) in *. change (Z.max 0 1) with 1. fold P. nia.
    + rewrite Z.max_l by lia. nia.
Qed.

Lemma retarget_on_schedule c :
  good_target c -> 32768 <= mantissa_of c -> retarget targetTime c = c.
Proof.
  intros Hg Hm. destruct (good_fields c Hg) as [Hm' He].
  destruct (retarget_eq targetTime c Hg) as (nm & e & -> & _ & _ & _ & _ & _ & Hfix). cbv zeta in *.
  assert (Ec : clamp_time targetTime = targetTime) by reflexivity. rewrite Ec in Hfix.
  rewrite u64_small in Hfix by (rewrite targetTime_eq; unfold MANTISSA_MAX in *; unfold_cint; lia).
  rewrite Z.div_mul in Hfix by (rewrite targetTime_eq; lia).
  destruct (Hfix ltac:(lia)) as [-> ->]. rewrite (proj2 (Z.ltb_ge _ _)) by lia. rewrite Z.max_l by lia.
  destruct Hg as (Hc & Hv & _). unfold compact_valid in Hv. zbool.
  unfold exponent_of, mantissa_of in *. change (2 ^ 24) with 16777216 in *. change (2 ^ 23) with 8388608 in *. zdiv.
Qed.

(** ** The target of a height *)

Lemma ComputeTarget_good blocks h c :
  good_target c -> h <= Z.of_nat (length blocks) -> good_target (Chain_ComputeTargetAtHeight blocks h c).
Proof.
  intros Hg Hh. unfold Chain_ComputeTargetAtHeight.
  destruct (Z.ltb_spec h DIFFICULTY_ADJUSTMENT_INTERVAL) as [|Hge]; [apply initial_good|].
  unfold DIFFICULTY_ADJUSTMENT_INTERVAL in *. rewrite (proj2 (Z.ltb_ge _ _)) by lia.
  destruct (lookup_lt_is_Some_2 blocks (Z.to_nat (h - 1)) ltac:(lia)) as [b1 ->].
  destruct (lookup_lt_is_Some_2 blocks (Z.to_nat (h - 3840)) ltac:(lia)) as [b2 ->].
  destruct (_ =? 0); [done|by apply retarget_good].
Qed.

Lemma target_loop_good n blocks h c :
  good_target c -> h + (Z.of_nat n - 1) * DIFFICULTY_ADJUSTMENT_INTERVAL <= Z.of_nat (length blocks) ->
  good_target (target_loop n blocks h c).
Proof.
  revert h c; induction n as [|n IH]; intros h c Hg Hh; [done|]. cbn [target_loop].
  unfold DIFFICULTY_ADJUSTMENT_INTERVAL in *. apply IH; [|lia]. apply ComputeTarget_good; [done|lia].
Qed.

Lemma GetTarget_good blocks h :
  0 <= h <= Z.of_nat (length blocks) -> good_target (Chain_GetTargetForHeight blocks h).
Proof.
  intros Hh. unfold Chain_GetTargetForHeight. apply target_loop_good; [apply initial_good|].
  unfold DIFFICULTY_ADJUSTMENT_INTERVAL. rewrite Z2Nat.id by (apply Z.div_pos; lia). zdiv.
Qed.

(** Only the blocks below [height] matter. *)
Lemma ComputeTarget_prefix blocks more h c :
  h <= Z.of_nat (length blocks) ->
  Chain_ComputeTargetAtHeight (blocks ++ more) h c = Chain_ComputeTargetAtHeight blocks h c.
Proof.
  intros Hh. unfold Chain_ComputeTargetAtHeight.
  destruct (Z.ltb_spec h DIFFICULTY_ADJUSTMENT_INTERVAL); [done|]. unfold DIFFICULTY_ADJUSTMENT_INTERVAL in *.
  rewrite length_app, !(proj2 (Z.ltb_ge _ _)) by lia. by rewrite !lookup_app_l by lia.
Qed.

Lemma target_loop_prefix n blocks more h c :
  h + (Z.of_nat n - 1) * DIFFICULTY_ADJUSTMENT_INTERVAL <= Z.of_nat (length blocks) ->
  target_loop n (blocks ++ more) h c = target_loop n blocks h c.
Proof.
  revert h c; induction n as [|n IH]; intros h c Hh; [done|]. cbn [target_loop].
  unfold DIFFICULTY_ADJUSTMENT_INTERVAL in *. rewrite ComputeTarget_prefix by lia. apply IH. lia.
Qed.

Lemma GetTarget_prefix blocks more h :
  0 <= h <= Z.of_nat (length blocks) ->
  Chain_GetTargetForHeight (blocks ++ more) h = Chain_GetTargetForHeight blocks h.
Proof.
  intros Hh. unfold Chain_GetTargetForHeight. apply target_loop_prefix.
  unfold DIFFICULTY_ADJUSTMENT_INTERVAL. rewrite Z2Nat.id by (apply Z.div_pos; lia). zdiv.
Qed.

(** ** Work lemmas *)

(** The work of an encoding, as an integer. *)
Definition work_of (c : Z) : Z := 2 ^ 256 / (compact_value c + 1).

Lemma work_nonneg c : 0 <= work_of c.
Proof.
  unfold work_of, compact_value. pose proof (Z.mod_pos_bound c (2 ^ 23) ltac:(lia)).
  destruct (Z.leb_spec (c / 2 ^ 24) 3).
  - assert (Hp : 0 < 256 ^ (3 - c / 2 ^ 24)) by (apply Z.pow_pos_nonneg; lia).
    pose proof (Z.div_pos (c mod 2 ^ 23) (256 ^ (3 - c / 2 ^ 24)) ltac:(lia) Hp). apply Z.div_pos; lia.
  - pose proof (Z.pow_nonneg 256 (c / 2 ^ 24 - 3) ltac:(lia)). apply Z.div_pos; nia.
Qed.

Lemma work_identity t : 0 <= t < M256 -> (M256 - 1 - t) / (t + 1) + 1 = M256 / (t + 1).
Proof.
  intros Ht. replace M256 with ((M256 - 1 - t) + 1 * (t + 1)) at 2 by lia. by rewrite Z.div_add by lia.
Qed.

Lemma ComputeBlockWork_spec c :
  is_u32 c ->
  match Chain_ComputeBlockWork c with
  | Some w => compact_valid c = true /\ 0 < compact_value c /\ uint256_ok w /\ val w = work_of c
  | None => compact_valid c = false \/ compact_value c = 0
  end.
Proof.
  intros Hc. unfold Chain_ComputeBlockWork. pose proof (DecodeCompactTarget_spec c Hc) as Hd.
  destruct (DecodeCompactTarget c) as [tb|]; cbn [mbind option_bind]; [|by left].
  destruct Hd as (Hv & [Hl Hok] & Hval). pose proof (compact_value_bound c Hc Hv) as Hb.
  destruct (from_be_bytes_spec tb Hl Hok) as [Ot Vt]. rewrite Hval in Vt.
  set (t := uint256_from_be_bytes tb) in *.
  assert (HM : M256 = 2 * 2 ^ 255) by reflexivity.
  destruct (uint256_add_u64_spec t 1 Ot ltac:(vm_decide)) as (Od & Vd & Fd).
  destruct (uint256_add_u64 t 1) as [den o]. cbn [fst snd] in *.
  rewrite Z.mod_small in Vd by lia. rewrite (proj2 (Z.leb_gt _ _)) in Fd by lia. subst o. cbn [orb].
  rewrite is_zero_spec by apply Od. rewrite (proj2 (Z.eqb_neq _ _)) by lia.
  destruct (bitwise_not_spec t (proj2 Ot)) as (Ln & On & Vn).
  assert (Onot : uint256_ok (uint256_bitwise_not t)) by (split; [by rewrite Ln; apply Ot|done]).
  rewrite (uint256_cap t Ot) in Vn.
  destruct (uint256_divide_spec _ den Onot Od ltac:(lia)) as (q & -> & Oq & Vq). cbn [mbind option_bind].
  pose proof (work_identity (compact_value c) ltac:(lia)) as Hw.
  assert (Eq : val q + 1 = work_of c) by (unfold work_of; fold M256; rewrite Vq, Vn, Vd, Vt; exact Hw).
  destruct (uint256_add_u64_spec q 1 Oq ltac:(vm_decide)) as (Or & Vr & Fr).
  destruct (uint256_add_u64 q 1) as [w o]. cbn [fst snd] in *. rewrite Eq in Vr, Fr.
  destruct (Z.eq_dec (compact_value c) 0) as [Ez|Hne].
  - (* a zero target has work 2^256, which does not fit *)
    assert (Ew : work_of c = M256) by (unfold work_of; rewrite Ez; reflexivity).
    rewrite Ew, Z.leb_refl in Fr. subst o. by right.
  - assert (Hwb : 0 < work_of c < M256).
    { unfold work_of. fold M256. split; [apply Z.div_str_pos; lia|]. apply Z.div_lt_upper_bound; lia. }
    rewrite (proj2 (Z.leb_gt _ _)) in Fr by lia. subst o. rewrite Z.mod_small in Vr by lia.
    split; [done|]. split; [lia|]. split; [done|]. exact Vr.
Qed.

(** Encodings with computable work. *)
Definition has_work (c : Z) : Prop := compact_valid c = true /\ 0 < compact_value c.

Lemma work_pos c : is_u32 c -> has_work c -> 0 < work_of c < M256.
Proof.
  intros Hc [Hv Hp]. pose proof (compact_value_bound c Hc Hv). assert (HM : M256 = 2 * 2 ^ 255) by reflexivity.
  unfold work_of. fold M256. split; [apply Z.div_str_pos; lia|]. apply Z.div_lt_upper_bound; lia.
Qed.

Definition work_sum (blocks : list block) : Z := foldr (fun b acc => work_of (difficultyTarget (header b)) + acc) 0 blocks.

Lemma sum_work_spec blocks acc :
  Forall (fun b => is_u32 (difficultyTarget (header b))) blocks -> uint256_ok acc ->
  match sum_work blocks acc with
  | Some w => Forall (fun b => has_work (difficultyTarget (header b))) blocks /\ uint256_ok w /\
              val w = val acc + work_sum blocks
  | None => ~ Forall (fun b => has_work (difficultyTarget (header b))) blocks \/ M256 <= val acc + work_sum blocks
  end.
Proof.
  intros Hb; revert acc; induction Hb as [|b r Hc Hr IH]; intros acc Ha; cbn [sum_work].
  { split; [done|]. split; [done|]. cbn. lia. }
  change (work_sum (b :: r)) with (work_of (difficultyTarget (header b)) + work_sum r).
  pose proof (ComputeBlockWork_spec _ Hc) as Hw.
  destruct (Chain_ComputeBlockWork (difficultyTarget (header b))) as [w|]; cbn [mbind option_bind].
  2: { left. intros HF. apply Forall_cons_iff in HF as [[H1 H2] _]. destruct Hw; [congruence|lia]. }
  destruct Hw as (Hv & Hp & Ow & Vw).
  destruct (uint256_add_spec acc w Ha Ow) as (O' & V' & F').
  destruct (uint256_add acc w) as [acc' o]. cbn [fst snd] in *. rewrite Vw in *.
  destruct (Z.leb_spec M256 (val acc + work_of (difficultyTarget (header b)))) as [Hov|Hno]; subst o.
  { right. assert (0 <= work_sum r); [|lia]. clear -Hr. induction Hr as [|b r Hc _ IH]; [done|].
    change (work_sum (b :: r)) with (work_of (difficultyTarget (header b)) + work_sum r).
    pose proof (work_nonneg (difficultyTarget (header b))). lia. }
  pose proof (uint256_val_bounds acc Ha). pose proof (work_pos _ Hc (conj Hv Hp)).
  rewrite Z.mod_small in V' by lia. specialize (IH acc' O').
  destruct (sum_work r acc') as [tot|].
  - destruct IH as (HF & Ot & Vt). split; [constructor; [by split|done]|]. split; [done|]. lia.
  - destruct IH as [HF|HF]; [left|right; lia]. intros H'. apply Forall_cons_iff in H' as [_ H']. done.
Qed.

Lemma work_sum_app a b : work_sum (a ++ b) = work_sum a + work_sum b.
Proof.
  induction a as [|x a IH]; [done|]. cbn [app].
  change (work_sum (x :: a ++ b)) with (work_of (difficultyTarget (header x)) + work_sum (a ++ b)).
  change (work_sum (x :: a)) with (work_of (difficultyTarget (header x)) + work_sum a). lia.
Qed.

(** ** The penalty *)

Lemma penalty_closed d :
  is_u64 d -> 3 < d ->
  FetchScheduler_ComputeReorgPenaltyBlocks d = (Z.min d 1000 * Z.min d 1000 * 150 + 89) / 90.
Proof.
  intros Hd Hg. unfold FetchScheduler_ComputeReorgPenaltyBlocks, REORG_PENALTY_GRACE_BLOCKS, REORG_PENALTY_MAX_DEPTH.
  rewrite (proj2 (Z.leb_gt _ _)) by lia.
  replace (if 1000 <? d then 1000 else d) with (Z.min d 1000) by (zcases; lia).
  set (x := Z.min d 1000). assert (Hx : 4 <= x <= 1000) by (subst x; lia). clearbody x.
  unfold REORG_PENALTY_EXPONENT. cbn [raise_depth]. rewrite (proj2 (Z.eqb_neq x 0)) by lia. cbn [negb andb].
  assert (Hq : 1000000 <= UINT64_MAX / x) by (apply Z.div_le_lower_bound; unfold_cint; lia).
  rewrite !u64_small by (unfold_cint; nia).
  rewrite (proj2 (Z.ltb_ge _ 1)), (proj2 (Z.ltb_ge _ (1 * x))) by lia.
  change (REORG_PENALTY_FACTOR_NUM *u64 REORG_PENALTY_REF_BLOCK_TIME) with 150.
  change (REORG_PENALTY_FACTOR_DEN *u64 TARGET_BLOCK_TIME) with 90.
  assert (H150 : 1000000 <= UINT64_MAX / 150) by (vm_compute; congruence).
  change (90 =? 0) with false. change (150 =? 0) with false. cbn [negb andb].
  rewrite (proj2 (Z.ltb_ge _ _)) by nia. rewrite u64_small by (unfold_cint; nia).
  set (n := 1 * x * x * 150). assert (Hn : 0 <= n <= 150000000) by (subst n; nia).
  replace (x * x * 150) with n by (subst n; lia). clearbody n.
  destruct (Z.eqb_spec (n mod 90) 0); cbn [negb]; [zdiv|]. rewrite u64_small; [zdiv|]. unfold_cint. zdiv.
Qed.

(** ** Properties *)

(** C33: one retarget at most doubles the target and halves it up to truncation, and never leaves the
    encoding.  For every accepted encoding [c] with a non-zero exponent and any measured span, the new
    encoding is accepted again; its value is at most twice the old one; twice its value plus 511 units of
    the last place of the old mantissa is at least the old one (the compact format truncates, so the
    target can fall to slightly less than half); and a window that took exactly the scheduled time leaves
    a normalised target unchanged. *)
Theorem retarget_bounded c actualTime :
  good_target c ->
  good_target (retarget actualTime c) /\
  raw (retarget actualTime c) <= 2 * raw c /\
  raw c <= 2 * raw (retarget actualTime c) + 511 * 256 ^ exponent_of c /\
  (32768 <= mantissa_of c -> retarget targetTime c = c).
Proof.
  intros Hg. split; [by apply retarget_good|]. destruct (retarget_bounds actualTime c Hg).
  split; [done|]. split; [done|]. by apply retarget_on_schedule.
Qed.

Lemma retarget_bounded_witness :
  good_target INITIAL_DIFFICULTY /\
  raw (retarget 1 INITIAL_DIFFICULTY) <= 2 * raw INITIAL_DIFFICULTY /\
  raw INITIAL_DIFFICULTY <= 2 * raw (retarget 1 INITIAL_DIFFICULTY) + 511 * 256 ^ exponent_of INITIAL_DIFFICULTY.
Proof.
  split; [apply initial_good|]. destruct (retarget_bounded INITIAL_DIFFICULTY 1 initial_good) as (_ & H1 & H2 & _).
  split; assumption.
Defined.

(** The required target is a function of the chain below the height.  At any height up to the
    chain's length it is an encoding the decoder accepts, and appending blocks does not change it. *)
Theorem target_is_chain_function blocks height :
  0 <= height <= Z.of_nat (length blocks) ->
  (exists t, DecodeCompactTarget (Chain_GetTargetForHeight blocks height) = Some t) /\
  forall more, Chain_GetTargetForHeight (blocks ++ more) height = Chain_GetTargetForHeight blocks height.
Proof.
  intros Hh. split; [|intros more; by apply GetTarget_prefix].
  destruct (GetTarget_good blocks height Hh) as (Hu & Hv & _).
  pose proof (DecodeCompactTarget_spec _ Hu) as Hd.
  destruct (DecodeCompactTarget _) as [t|]; [by exists t|congruence].
Qed.

Lemma target_is_chain_function_witness :
  Chain_GetTargetForHeight (replicate 3840 Block_Create ++ [Block_Create]) 3840 =
  Chain_GetTargetForHeight (replicate 3840 Block_Create) 3840.
Proof.
  apply (target_is_chain_function (replicate 3840 Block_Create) 3840).
  rewrite length_replicate. lia.
Defined.

(** Work is exact.  A block's work is the integer [2^256 / (target + 1)] of its decoded target,
    and is refused exactly when the target does not decode or is zero (its work would not fit); a
    branch's work is the sum over its blocks, refused exactly when a block's is or when the sum
    reaches [2^256]; the work of a range of the chain is the branch work of that range. *)
Theorem work_exact blocks :
  Forall (fun b => is_u32 (difficultyTarget (header b))) blocks ->
  match Chain_ComputeBranchWork blocks with
  | Some w => Forall (fun b => has_work (difficultyTarget (header b))) blocks /\ uint256_ok w /\ val w = work_sum blocks
  | None => ~ Forall (fun b => has_work (difficultyTarget (header b))) blocks \/ M256 <= work_sum blocks
  end /\
  forall from to, (from <= to <= length blocks)%nat ->
    Chain_ComputeWorkRange blocks from to = Chain_ComputeBranchWork (take (to - from) (drop from blocks)).
Proof.
  intros Hb. split.
  - unfold Chain_ComputeBranchWork. pose proof (sum_work_spec blocks (uint256_from_u64 0) Hb (from_u64_ok 0 ltac:(vm_decide))) as H.
    rewrite val_from_u64 in H. exact H.
  - intros from to Hft. unfold Chain_ComputeWorkRange, Chain_ComputeBranchWork.
    destruct (Nat.ltb_spec to from), (Nat.ltb_spec (length blocks) to); done || lia.
Qed.

Definition initial_block : block :=
  mkBlock (mkHeader 0 0 0 (zeros 32) (zeros 32) INITIAL_DIFFICULTY 1 (zeros 3)) (Some []).

Lemma work_exact_witness :
  exists w, Chain_ComputeBranchWork [initial_block] = Some w /\ val w = work_sum [initial_block].
Proof.
  assert (H : Forall (fun b => is_u32 (difficultyTarget (header b))) [initial_block]) by (constructor; [vm_decide|constructor]).
  destruct (work_exact [initial_block] H) as [Hw _].
  destruct (Chain_ComputeBranchWork [initial_block]) as [w|].
  - exists w. split; [reflexivity|]. destruct Hw as (_ & _ & Hv). exact Hv.
  - exfalso. destruct Hw as [Hw|Hw].
    + apply Hw. constructor; [split; vm_compute; reflexivity|constructor].
    + vm_compute in Hw. apply Hw. reflexivity.
Defined.

(** The penalty is [ceil(150 d^2 / 90)] blocks for a depth [d] beyond the grace of three, capped at
    depth 1000; it never saturates or wraps, and it is monotone in the depth. *)
Theorem reorg_penalty_exact d d' :
  is_u64 d -> is_u64 d' -> d <= d' ->
  FetchScheduler_ComputeReorgPenaltyBlocks d =
    (if d <=? 3 then 0 else (150 * Z.min d 1000 ^ 2 + 89) / 90) /\
  FetchScheduler_ComputeReorgPenaltyBlocks d <= FetchScheduler_ComputeReorgPenaltyBlocks d' <= 1666667.
Proof.
  intros Hd Hd' Hle.
  assert (Hform : forall x, is_u64 x -> FetchScheduler_ComputeReorgPenaltyBlocks x =
    (if x <=? 3 then 0 else (150 * Z.min x 1000 ^ 2 + 89) / 90)).
  { intros x Hx. destruct (Z.leb_spec x 3) as [Hs|Hs].
    - unfold FetchScheduler_ComputeReorgPenaltyBlocks, REORG_PENALTY_GRACE_BLOCKS. by rewrite (proj2 (Z.leb_le _ _) Hs).
    - rewrite penalty_closed by (done || lia). f_equal. nia. }
  split; [by apply Hform|]. rewrite (Hform d Hd), (Hform d' Hd').
  assert (Hm : forall x, 3 < x -> is_u64 x -> 0 <= Z.min x 1000 ^ 2 <= 1000000) by (intros; unfold_cint; nia).
  destruct (Z.leb_spec d 3), (Z.leb_spec d' 3); try lia.
  - pose proof (Hm d' ltac:(lia) Hd'). zdiv.
  - pose proof (Hm d ltac:(lia) Hd). pose proof (Hm d' ltac:(lia) Hd').
    assert (Hq : Z.min d 1000 ^ 2 <= Z.min d' 1000 ^ 2) by (apply Z.pow_le_mono_l; unfold_cint; lia). zdiv.
Qed.

Lemma reorg_penalty_exact_witness :
  FetchScheduler_ComputeReorgPenaltyBlocks 10 = 167 /\
  FetchScheduler_ComputeReorgPenaltyBlocks 10 <= FetchScheduler_ComputeReorgPenaltyBlocks 2000 <= 1666667.
Proof.
  destruct (reorg_penalty_exact 10 2000) as [H1 H2]; [vm_decide|vm_decide|lia|]. split; [exact H1|exact H2].
Defined.
