(* ===== verification/DagEpochs.v ===== *)
(** * The DAG size schedule ([src/block/chain.c], DAG helpers)

    Each epoch's DAG size is folded from the votes in the headers of the epochs before it and memoised
    on the chain.  The abstract specification [dag_size] is the plain recurrence; the memo table is
    shown to hold exactly its values, to survive appended blocks, and the epoch parameters to be a
    function of the chain alone. *)
From S2P Require Import Prelude Bytes Utils Crypto Transaction Autolykos2 Block Emission.

Definition DAG_MIN_SIZE : Z := 2147483648.   (* 2 GiB *)
Definition DAG_BASE_SIZE : Z := 2147483648.  (* 2 GiB *)
Definition DAG_MAX_SIZE : Z := 8589934592.   (* 8 GiB *)
Definition DAG_EPOCH_STEP : Z := 1073741824. (* 1 GiB *)
Definition DAG_BRAKE_NUM : Z := 1.
Definition DAG_BRAKE_DEN : Z := 2.
Definition DAG_DOWN_NUM : Z := 7.
Definition DAG_DOWN_DEN : Z := 8.
Definition DAG_VOTE_HOLD : Z := 1.
Definition DAG_VOTE_DOWN : Z := 2.

Definition epochLength : nat := Z.to_nat EPOCH_LENGTH.

(** ** The memo table *)

Record dag_epoch_state := mkEpoch { sizeBytes : Z; downQualified : bool }.

(** The valid entries of [chain->dagEpochs]; their number is [dagEpochsComputed]. *)
Abbreviation dag_cache := (list dag_epoch_state).

Definition Chain_InvalidateDagEpochs (c : dag_cache) : dag_cache := [].

Definition vote_of (b : block) : Z := nth 0 (reserved (header b)) 0.

(** The vote loop over one epoch: hold and down counts. *)
Fixpoint count_votes (blocks : list block) (holdVotes downVotes : Z) : Z * Z :=
  match blocks with
  | [] => (holdVotes, downVotes)
  | b :: r =>
      if vote_of b =? DAG_VOTE_HOLD then count_votes r (holdVotes + 1) downVotes
      else if vote_of b =? DAG_VOTE_DOWN then count_votes r holdVotes (downVotes + 1)
      else count_votes r holdVotes downVotes
  end.

(** The size of the next epoch. *)
Definition next_size (prevSize : Z) (brake down priorDown : bool) : Z :=
  if down && priorDown then
    if DAG_MIN_SIZE + DAG_EPOCH_STEP <? prevSize then prevSize - DAG_EPOCH_STEP else DAG_MIN_SIZE
  else if brake then prevSize
  else if prevSize + DAG_EPOCH_STEP <? DAG_MAX_SIZE then prevSize + DAG_EPOCH_STEP else DAG_MAX_SIZE.

(** The body of the loop, folding entry [k = length c]; [None] when epoch [k - 1] is not complete. *)
Definition extend_step (blocks : list block) (c : dag_cache) : option dag_cache :=
  let prev := (length c - 1)%nat in
  let from := (prev * epochLength)%nat in
  let to := (from + epochLength)%nat in
  if (length blocks <? to)%nat then None
  else
    let '(holdVotes, downVotes) := count_votes (take epochLength (drop from blocks)) 0 0 in
    let brake := EPOCH_LENGTH * DAG_BRAKE_NUM <? (holdVotes + downVotes) * DAG_BRAKE_DEN in
    let down := EPOCH_LENGTH * DAG_DOWN_NUM <? downVotes * DAG_DOWN_DEN in
    match c !! prev with
    | None => None
    | Some e =>
        let c := <[prev := mkEpoch (sizeBytes e) down]> c in
        let priorDown := if (1 <=? prev)%nat
                         then match c !! (prev - 1)%nat with Some p => downQualified p | None => false end
                         else false in
        Some (c ++ [mkEpoch (next_size (sizeBytes e) brake down priorDown) false])
    end.

(** [n] rounds; the table keeps what was folded before a failure. *)
Fixpoint extend_loop (n : nat) (blocks : list block) (c : dag_cache) : bool * dag_cache :=
  match n with
  | O => (true, c)
  | S m => match extend_step blocks c with
           | None => (false, c)
           | Some c' => extend_loop m blocks c'
           end
  end.

Definition Chain_ExtendDagEpochsLocked (blocks : list block) (c : dag_cache) (epochIndex : nat) : bool * dag_cache :=
  let c := match c with [] => [mkEpoch DAG_BASE_SIZE false] | _ => c end in
  extend_loop (S epochIndex - length c) blocks c.

Section Seeds.
Context {ops : CryptoOps}.

Definition Chain_EpochDagSeedForHeightLocked (blocks : list block) (blockHeight : Z) : option bytes :=
  let epochIndex := blockHeight / EPOCH_LENGTH in
  if epochIndex =? 0 then Some (zeros 32)
  else
    let seedBlockNumber := epochIndex * EPOCH_LENGTH - 1 in
    if Z.of_nat (length blocks) <=? seedBlockNumber then None
    else seedBlock ← blocks !! Z.to_nat seedBlockNumber; Some (Block_CalculateHash seedBlock).

(** Size and seed for a height, with the table as left behind. *)
Definition Chain_DagParamsForHeightLocked (blocks : list block) (c : dag_cache) (blockHeight : Z)
  : option (Z * bytes) * dag_cache :=
  let epochIndex := Z.to_nat (blockHeight / EPOCH_LENGTH) in
  let '(ok, c) := Chain_ExtendDagEpochsLocked blocks c epochIndex in
  if negb ok then (None, c)
  else
    match c !! epochIndex with
    | None => (None, c)
    | Some e =>
        match Chain_EpochDagSeedForHeightLocked blocks blockHeight with
        | None => (None, c)
        | Some seed =>
            if (sizeBytes e <? 32) || negb (sizeBytes e mod 32 =? 0) then (None, c)
            else (Some (sizeBytes e, seed), c)
        end
    end.
End Seeds.

(** ** Specification: the recurrence *)

Definition epoch_votes (blocks : list block) (p : nat) : Z * Z :=
  count_votes (take epochLength (drop (p * epochLength) blocks)) 0 0.
Definition epoch_brake (blocks : list block) (p : nat) : bool :=
  let '(h, d) := epoch_votes blocks p in EPOCH_LENGTH * DAG_BRAKE_NUM <? (h + d) * DAG_BRAKE_DEN.
Definition epoch_down (blocks : list block) (p : nat) : bool :=
  let '(h, d) := epoch_votes blocks p in EPOCH_LENGTH * DAG_DOWN_NUM <? d * DAG_DOWN_DEN.

Fixpoint dag_size (blocks : list block) (k : nat) : Z :=
  match k with
  | O => DAG_BASE_SIZE
  | S p => next_size (dag_size blocks p) (epoch_brake blocks p) (epoch_down blocks p)
             (match p with O => false | S q => epoch_down blocks q end)
  end.

(** The parameters of a height, from the chain alone. *)
Definition dag_params {ops : CryptoOps} (blocks : list block) (blockHeight : Z) : option (Z * bytes) :=
  let k := Z.to_nat (blockHeight / EPOCH_LENGTH) in
  if (length blocks <? k * epochLength)%nat then None
  else seed ← Chain_EpochDagSeedForHeightLocked blocks blockHeight; Some (dag_size blocks k, seed).

(** ** Size bounds *)

Definition size_ok (s : Z) : Prop := DAG_MIN_SIZE <= s <= DAG_MAX_SIZE /\ s mod DAG_EPOCH_STEP = 0.

Lemma next_size_ok s b d p : size_ok s -> size_ok (next_size s b d p).
Proof.
  unfold size_ok, next_size, DAG_MIN_SIZE, DAG_MAX_SIZE, DAG_EPOCH_STEP. intros [H1 H2].
  destruct (d && p); [zcases; zdiv|]. destruct b; [done|]. zcases; zdiv.
Qed.

Lemma dag_size_ok blocks k : size_ok (dag_size blocks k).
Proof.
  induction k as [|k IH]; [|by apply next_size_ok]. split; [vm_compute; split; congruence|done].
Qed.

Lemma size_ok_usable s : size_ok s -> 32 <= s /\ s mod 32 = 0.
Proof. unfold size_ok, DAG_MIN_SIZE, DAG_MAX_SIZE, DAG_EPOCH_STEP. intros [H1 H2]. zdiv. Qed.

(** ** Coherence of the table *)

Definition coherent (blocks : list block) (c : dag_cache) : Prop :=
  (forall i e, c !! i = Some e -> sizeBytes e = dag_size blocks i) /\
  (forall i e, c !! i = Some e -> (S i < length c)%nat -> downQualified e = epoch_down blocks i) /\
  ((length c - 1) * epochLength <= length blocks)%nat.

Lemma epoch_votes_prefix blocks more p :
  (S p * epochLength <= length blocks)%nat -> epoch_votes (blocks ++ more) p = epoch_votes blocks p.
Proof.
  intros H. unfold epoch_votes. rewrite drop_app_le by lia. by rewrite take_app_le by (rewrite length_drop; lia).
Qed.

Lemma epoch_down_prefix blocks more p :
  (S p * epochLength <= length blocks)%nat -> epoch_down (blocks ++ more) p = epoch_down blocks p.
Proof. intros H. unfold epoch_down. by rewrite epoch_votes_prefix. Qed.

Lemma dag_size_prefix blocks more k :
  (k * epochLength <= length blocks)%nat -> dag_size (blocks ++ more) k = dag_size blocks k.
Proof.
  induction k as [|p IH]; intros H; [done|]. cbn [dag_size]. unfold epoch_brake.
  rewrite IH, epoch_votes_prefix, epoch_down_prefix by lia.
  destruct p as [|q]; [done|]. by rewrite epoch_down_prefix by lia.
Qed.

Lemma coherent_app blocks more c : coherent blocks c -> coherent (blocks ++ more) c.
Proof.
  intros (H1 & H2 & H3). split; [|split].
  - intros i e Hi. rewrite dag_size_prefix; [by apply H1|]. apply lookup_lt_Some in Hi. nia.
  - intros i e Hi Hl. rewrite epoch_down_prefix; [by apply H2|]. nia.
  - rewrite length_app. lia.
Qed.

Lemma coherent_nil blocks : coherent blocks [].
Proof. split; [|split]; [done..|cbn; lia]. Qed.

Lemma coherent_base blocks : coherent blocks [mkEpoch DAG_BASE_SIZE false].
Proof.
  split; [|split].
  - intros [|i] e Hi; [by injection Hi as <-|done].
  - intros [|i] e Hi Hl; cbn in Hl; lia.
  - cbn [length]. lia.
Qed.

Lemma extend_step_spec blocks c :
  coherent blocks c -> c <> [] ->
  match extend_step blocks c with
  | Some c' => (length c * epochLength <= length blocks)%nat /\ coherent blocks c' /\ length c' = S (length c)
  | None => (length blocks < length c * epochLength)%nat
  end.
Proof.
  intros (H1 & H2 & H3) Hne. unfold extend_step. cbv zeta.
  assert (Hl : (0 < length c)%nat) by (destruct c; [done|cbn; lia]).
  destruct (lookup_lt_is_Some_2 c (length c - 1) ltac:(lia)) as [e He].
  fold (epoch_votes blocks (length c - 1)).
  destruct (Nat.ltb_spec (length blocks) ((length c - 1) * epochLength + epochLength)) as [Hs|Hs]; [nia|].
  destruct (epoch_votes blocks (length c - 1)) as [hv dv] eqn:Ev. rewrite He.
  set (p := (length c - 1)%nat) in *. assert (Ep : length c = S p) by lia.
  split; [nia|]. set (c1 := <[p := mkEpoch (sizeBytes e) _]> c).
  assert (Ed : epoch_down blocks p = (EPOCH_LENGTH * DAG_DOWN_NUM <? dv * DAG_DOWN_DEN)) by (unfold epoch_down; by rewrite Ev).
  assert (Eb : epoch_brake blocks p = (EPOCH_LENGTH * DAG_BRAKE_NUM <? (hv + dv) * DAG_BRAKE_DEN)) by (unfold epoch_brake; by rewrite Ev).
  rewrite <- Ed, <- Eb in *.
  assert (L1 : length c1 = S p) by (subst c1; rewrite length_insert; done).
  assert (Eprior : (if (1 <=? p)%nat then match c1 !! (p - 1)%nat with Some q => downQualified q | None => false end else false)
                   = match p with O => false | S q => epoch_down blocks q end).
  { destruct p as [|q]; [done|]. cbn [Nat.leb]. replace (S q - 1)%nat with q by lia.
    subst c1. rewrite list_lookup_insert_ne by lia.
    destruct (lookup_lt_is_Some_2 c q ltac:(lia)) as [eq Hq]. rewrite Hq. apply H2; [done|lia]. }
  rewrite Eprior. split; [|rewrite length_app, L1; cbn; lia]. split; [|split].
  - intros i x Hi. destruct (Nat.lt_trichotomy i (S p)) as [Hlt|[->|Hgt]].
    + rewrite lookup_app_l in Hi by lia. subst c1. destruct (Nat.eq_dec i p) as [->|Hne'].
      * rewrite list_lookup_insert_eq in Hi by lia. injection Hi as <-. exact (H1 p e He).
      * rewrite list_lookup_insert_ne in Hi by lia. by apply H1.
    + rewrite lookup_app_r, L1, Nat.sub_diag in Hi by lia. injection Hi as <-. cbn [sizeBytes dag_size].
      by rewrite (H1 p e He).
    + rewrite lookup_app_r, L1 in Hi by lia. apply lookup_lt_Some in Hi. cbn in Hi. lia.
  - intros i x Hi Hlt. rewrite length_app, L1 in Hlt. cbn in Hlt. rewrite lookup_app_l in Hi by lia. subst c1.
    destruct (Nat.eq_dec i p) as [->|Hne'].
    + rewrite list_lookup_insert_eq in Hi by lia. by injection Hi as <-.
    + rewrite list_lookup_insert_ne in Hi by lia. apply H2; [done|lia].
  - rewrite length_app, L1. cbn [length]. nia.
Qed.

Lemma extend_loop_spec n blocks c :
  coherent blocks c -> c <> [] ->
  let '(ok, c') := extend_loop n blocks c in
  coherent blocks c' /\ c' <> [] /\
  if ok then length c' = (length c + n)%nat else (length blocks < (length c + n - 1) * epochLength)%nat.
Proof.
  revert c; induction n as [|n IH]; intros c Hc Hne; cbn [extend_loop].
  { split; [done|]. split; [done|lia]. }
  pose proof (extend_step_spec blocks c Hc Hne) as Hs. destruct (extend_step blocks c) as [c1|].
  - destruct Hs as (Hle & Hc1 & Hl1). specialize (IH c1 Hc1 ltac:(intros ->; cbn in Hl1; lia)).
    destruct (extend_loop n blocks c1) as [ok c']. destruct IH as (H1 & H2 & H3).
    split; [done|]. split; [done|]. destruct ok; [lia|]. rewrite Hl1 in H3.
    replace (length c + S n - 1)%nat with (S (length c) + n - 1)%nat by lia. done.
  - split; [done|]. split; [done|]. nia.
Qed.

Lemma ExtendDagEpochs_spec blocks c k :
  coherent blocks c ->
  let '(ok, c') := Chain_ExtendDagEpochsLocked blocks c k in
  coherent blocks c' /\
  if ok then exists e, c' !! k = Some e /\ sizeBytes e = dag_size blocks k /\ (k * epochLength <= length blocks)%nat
  else (length blocks < k * epochLength)%nat.
Proof.
  intros Hc. unfold Chain_ExtendDagEpochsLocked.
  set (c0 := match c with [] => _ | _ => c end).
  assert (H0 : coherent blocks c0 /\ c0 <> []) by (subst c0; destruct c; [split; [apply coherent_base|done]|done]).
  destruct H0 as [H0 Hne0]. pose proof (extend_loop_spec (S k - length c0) blocks c0 H0 Hne0) as H.
  destruct (extend_loop (S k - length c0) blocks c0) as [ok c']. destruct H as (Hc' & Hne' & H).
  split; [done|]. destruct ok.
  - destruct (lookup_lt_is_Some_2 c' k ltac:(lia)) as [e He]. exists e. split; [done|].
    pose proof Hc' as (P1 & _ & P3). split; [by apply P1|]. nia.
  - destruct (Nat.le_gt_cases (length c0) (S k)).
    + replace (length c0 + (S k - length c0) - 1)%nat with k in H by lia. done.
    + exfalso. destruct H0 as (_ & _ & H3). nia.
Qed.

Lemma DagParams_spec {ops : CryptoOps} blocks c h :
  coherent blocks c ->
  fst (Chain_DagParamsForHeightLocked blocks c h) = dag_params blocks h /\
  coherent blocks (snd (Chain_DagParamsForHeightLocked blocks c h)).
Proof.
  intros Hc. unfold Chain_DagParamsForHeightLocked, dag_params. set (k := Z.to_nat (h / EPOCH_LENGTH)).
  pose proof (ExtendDagEpochs_spec blocks c k Hc) as H.
  destruct (Chain_ExtendDagEpochsLocked blocks c k) as [ok c']. destruct H as [Hc' H]. destruct ok; cbn [negb].
  - destruct H as (e & -> & Es & Hk). destruct (Nat.ltb_spec (length blocks) (k * epochLength)); [lia|].
    destruct (Chain_EpochDagSeedForHeightLocked blocks h) as [seed|]; cbn [mbind option_bind]; [|done].
    destruct (size_ok_usable (sizeBytes e)) as [Hs1 Hs2]; [rewrite Es; apply dag_size_ok|].
    rewrite (proj2 (Z.ltb_ge _ _)), (proj2 (Z.eqb_eq _ _) Hs2) by lia. cbn [orb negb fst snd]. by rewrite Es.
  - destruct (Nat.ltb_spec (length blocks) (k * epochLength)); [done|lia].
Qed.

(** ** How the chain drives the table *)

(** Blocks are appended, the parameters of some height are asked for, or the tail of the chain is cut
    off, which drops the table. *)
Inductive dag_step {ops : CryptoOps} : list block * dag_cache -> list block * dag_cache -> Prop :=
| step_append blocks c b : dag_step (blocks, c) (blocks ++ [b], c)
| step_query blocks c h : dag_step (blocks, c) (blocks, snd (Chain_DagParamsForHeightLocked blocks c h))
| step_truncate blocks c n : dag_step (blocks, c) (take n blocks, Chain_InvalidateDagEpochs c).

Lemma dag_reachable_coherent {ops : CryptoOps} s :
  rtc dag_step ([], []) s -> coherent (fst s) (snd s).
Proof.
  intros Hr. assert (H0 : coherent (fst (([], []) : list block * dag_cache)) (snd (([], []) : list block * dag_cache)))
    by apply coherent_nil.
  revert H0. induction Hr as [|x y z Hs _ IH]; [done|]. intros Hx. apply IH. destruct Hs; cbn [fst snd] in *.
  - by apply coherent_app.
  - by apply DagParams_spec.
  - apply coherent_nil.
Qed.

Lemma dag_params_size {ops : CryptoOps} blocks h n s :
  dag_params blocks h = Some (n, s) -> dag_size blocks (Z.to_nat (h / EPOCH_LENGTH)) = n.
Proof.
  unfold dag_params. destruct (_ <? _)%nat; [done|].
  destruct (Chain_EpochDagSeedForHeightLocked blocks h); cbn [mbind option_bind]; [|done]. by intros [= <- _].
Qed.

(** The recurrence walks in its band. *)
Lemma dag_size_walk blocks k :
  DAG_MIN_SIZE <= dag_size blocks k <= DAG_MAX_SIZE /\ dag_size blocks k mod DAG_EPOCH_STEP = 0 /\
  dag_size blocks k mod 32 = 0 /\
  Z.abs (dag_size blocks (S k) - dag_size blocks k) <= DAG_EPOCH_STEP /\
  (dag_size blocks (S k) < dag_size blocks k ->
   exists q, k = S q /\ epoch_down blocks k = true /\ epoch_down blocks q = true).
Proof.
  pose proof (dag_size_ok blocks k) as Hk. pose proof (size_ok_usable _ Hk) as [_ H32].
  destruct Hk as [Hb Hm]. split; [done|]. split; [done|]. split; [done|]. cbn [dag_size].
  set (s := dag_size blocks k) in *. set (pd := match k with O => false | S q => epoch_down blocks q end).
  unfold next_size, DAG_MIN_SIZE, DAG_MAX_SIZE, DAG_EPOCH_STEP in *. split.
  - destruct (epoch_down blocks k && pd); [zcases; zdiv|]. destruct (epoch_brake blocks k); [lia|zcases; lia].
  - destruct (epoch_down blocks k) eqn:Ed, pd eqn:Ep; cbn [andb]; subst pd.
    2-4: destruct (epoch_brake blocks k); zcases; lia.
    intros _. destruct k as [|q]; [done|]. by exists q.
Qed.

(** ** Properties *)

(** The memoised DAG parameters are a function of the chain.  In every state reached by appending
    blocks, asking for parameters and cutting the chain back, the answer for any height is the pure
    recurrence over the headers' votes together with the epoch seed, whatever the table holds. *)
Theorem dag_params_pure {ops : CryptoOps} blocks c height :
  rtc dag_step ([], []) (blocks, c) ->
  fst (Chain_DagParamsForHeightLocked blocks c height) = dag_params blocks height.
Proof. intros Hr. apply DagParams_spec. exact (dag_reachable_coherent _ Hr). Qed.

#[local] Existing Instances Toy.ops Toy.laws.

Lemma dag_params_pure_witness :
  fst (Chain_DagParamsForHeightLocked [sample_block] [mkEpoch DAG_BASE_SIZE false] 1) = dag_params [sample_block] 1.
Proof.
  apply dag_params_pure. eapply rtc_l; [apply (step_append [] [] sample_block)|].
  apply rtc_once. apply (step_query [sample_block] [] 0).
Defined.

(** The size walks inside its band.  In every state reached as above, a size handed out for a
    height is between 2 and 8 GiB and a multiple of 1 GiB, so of the 32-byte lane; one epoch later
    it has moved by at most 1 GiB; and it falls only after two consecutive epochs whose down votes
    exceeded seven eighths. *)
Theorem dag_size_band {ops : CryptoOps} blocks c h n s :
  rtc dag_step ([], []) (blocks, c) -> 0 <= h -> fst (Chain_DagParamsForHeightLocked blocks c h) = Some (n, s) ->
  DAG_MIN_SIZE <= n <= DAG_MAX_SIZE /\ n mod DAG_EPOCH_STEP = 0 /\ n mod 32 = 0 /\
  forall n' s', fst (Chain_DagParamsForHeightLocked blocks c (h + EPOCH_LENGTH)) = Some (n', s') ->
    Z.abs (n' - n) <= DAG_EPOCH_STEP /\
    (n' < n -> exists q, h / EPOCH_LENGTH = Z.of_nat (S q) /\ epoch_down blocks (S q) = true /\ epoch_down blocks q = true).
Proof.
  intros Hr Hh. pose proof (dag_reachable_coherent _ Hr) as Hc. cbn [fst snd] in Hc.
  rewrite !(proj1 (DagParams_spec blocks c _ Hc)).
  intros <-%dag_params_size. destruct (dag_size_walk blocks (Z.to_nat (h / EPOCH_LENGTH))) as (W1 & W2 & W3 & W4 & W5).
  split; [done|]. split; [done|]. split; [done|]. intros n' s' <-%dag_params_size.
  assert (Hq : 0 <= h / EPOCH_LENGTH) by (apply Z.div_pos; unfold EPOCH_LENGTH; lia).
  replace (Z.to_nat ((h + EPOCH_LENGTH) / EPOCH_LENGTH)) with (S (Z.to_nat (h / EPOCH_LENGTH)))
    by (rewrite <- (Z.mul_1_l EPOCH_LENGTH) at 2; rewrite Z.div_add by done; lia).
  split; [done|]. intros Hlt. destruct (W5 Hlt) as (q & E & H1 & H2). exists q. rewrite E in H1. split; [lia|done].
Qed.

Lemma dag_size_band_witness :
  DAG_MIN_SIZE <= DAG_BASE_SIZE <= DAG_MAX_SIZE /\ DAG_BASE_SIZE mod 32 = 0.
Proof.
  destruct (dag_size_band [sample_block] [mkEpoch DAG_BASE_SIZE false] 1 DAG_BASE_SIZE (zeros 32)) as (H1 & _ & H2 & _).
  - eapply rtc_l; [apply (step_append [] [] sample_block)|]. apply rtc_once. apply (step_query [sample_block] [] 0).
  - lia.
  - vm_compute. reflexivity.
  - split; [exact H1|exact H2].
Defined.
