(* ===== verification/Mempool.v ===== *)
(** * The transaction pool ([src/txmempool.c])

    Pending transactions keyed by their hash.  The hash table is a finite map; its iteration order is
    the map's.  The clock is an argument. *)
From S2P Require Import Prelude Bytes UInt256 Utils Crypto Transaction.

Abbreviation mempool := (gmap (list Z) signed_transaction).

Definition TX_MAX_FUTURE_DRIFT_MS : Z := 2 * 60 * 60 * 1000.
Definition TX_EXPIRY_MS : Z := 4 * 24 * 60 * 60 * 1000.

Definition TxMempool_Init : mempool := ∅.

Definition TxMempool_PolicyAccepts (tx : signed_transaction) (nowMs : Z) : bool :=
  let ts := tx_timestamp (stx tx) in
  if (nowMs <? ts) && (TX_MAX_FUTURE_DRIFT_MS <? ts - nowMs) then false
  else if (ts <? nowMs) && (TX_EXPIRY_MS <? nowMs - ts) then false
  else true.

(** The prune loop's test. *)
Definition expired (nowMs : Z) (tx : signed_transaction) : bool :=
  let ts := tx_timestamp (stx tx) in (ts <? nowMs) && (TX_EXPIRY_MS <? nowMs - ts).

(** The number removed, and the pool left. *)
Definition TxMempool_PruneExpired (pool : mempool) (nowMs : Z) : nat * mempool :=
  (size (filter (fun p => expired nowMs p.2 = true) pool), filter (fun p => expired nowMs p.2 = false) pool).

Section Operations.
Context {ops : CryptoOps}.

(** The result is khash's: 0 when the key was present, positive when it is new. *)
Definition TxMempool_Insert (pool : mempool) (tx : signed_transaction) : Z * mempool :=
  let key := Transaction_CalculateHash tx in
  (match pool !! key with Some _ => 0 | None => 1 end, <[key := tx]> pool).
End Operations.

Definition TxMempool_Lookup (pool : mempool) (txHash : bytes) : option signed_transaction := pool !! txHash.

Definition TxMempool_Snapshot (pool : mempool) : list signed_transaction := map snd (map_to_list pool).

Definition TxMempool_Remove (pool : mempool) (txHash : bytes) : bool * mempool :=
  match pool !! txHash with
  | None => (false, pool)
  | Some _ => (true, delete txHash pool)
  end.

(** ** Invariant *)

Section Invariant.
Context {ops : CryptoOps}.

(** Every transaction is stored under its own hash. *)
Definition mempool_ok (pool : mempool) : Prop := map_Forall (fun k tx => k = Transaction_CalculateHash tx) pool.

Inductive mempool_step : mempool -> mempool -> Prop :=
| pool_insert pool tx : mempool_step pool (snd (TxMempool_Insert pool tx))
| pool_remove pool h : mempool_step pool (snd (TxMempool_Remove pool h))
| pool_prune pool now : mempool_step pool (snd (TxMempool_PruneExpired pool now)).

Lemma insert_pool_ok pool tx : mempool_ok pool -> mempool_ok (snd (TxMempool_Insert pool tx)).
Proof. intros H. by apply map_Forall_insert_2. Qed.

Lemma remove_pool_ok pool h : mempool_ok pool -> mempool_ok (snd (TxMempool_Remove pool h)).
Proof.
  intros H. unfold TxMempool_Remove. destruct (pool !! h); [by apply map_Forall_delete|done].
Qed.

Lemma prune_lookup pool now k tx :
  snd (TxMempool_PruneExpired pool now) !! k = Some tx <-> pool !! k = Some tx /\ expired now tx = false.
Proof. cbn [snd TxMempool_PruneExpired]. by rewrite map_lookup_filter_Some. Qed.

Lemma prune_pool_ok pool now : mempool_ok pool -> mempool_ok (snd (TxMempool_PruneExpired pool now)).
Proof. intros H k tx Hk. apply prune_lookup in Hk as [Hk _]. by apply H. Qed.

Lemma mempool_reachable_ok pool : rtc mempool_step TxMempool_Init pool -> mempool_ok pool.
Proof.
  intros Hr. assert (H0 : mempool_ok TxMempool_Init) by apply map_Forall_empty. revert H0.
  induction Hr as [|x y z Hs _ IH]; [done|]. intros Hx. apply IH.
  destruct Hs; auto using insert_pool_ok, remove_pool_ok, prune_pool_ok.
Qed.
End Invariant.

(** ** Properties *)

(** The pool is a set of transactions indexed by hash.  In every state reachable by insertions,
    removals and pruning, a lookup under a hash returns a transaction with that hash; the snapshot
    lists the pool's transactions, each hash once; inserting makes the transaction retrievable and
    removing by hash makes that one, and only that one, irretrievable. *)
Theorem mempool_is_hash_indexed {ops : CryptoOps} pool :
  rtc mempool_step TxMempool_Init pool ->
  (forall h tx, TxMempool_Lookup pool h = Some tx -> Transaction_CalculateHash tx = h) /\
  NoDup (map Transaction_CalculateHash (TxMempool_Snapshot pool)) /\
  (forall tx, tx ∈ TxMempool_Snapshot pool <-> TxMempool_Lookup pool (Transaction_CalculateHash tx) = Some tx) /\
  (forall tx, TxMempool_Lookup (snd (TxMempool_Insert pool tx)) (Transaction_CalculateHash tx) = Some tx) /\
  (forall h h', TxMempool_Lookup (snd (TxMempool_Remove pool h)) h' =
                if decide (h' = h) then None else TxMempool_Lookup pool h').
Proof.
  intros Hr. apply mempool_reachable_ok in Hr. unfold TxMempool_Lookup, TxMempool_Snapshot, TxMempool_Remove.
  split; [intros h tx E; symmetry; by apply Hr|]. split; [|split; [|split]].
  - rewrite map_map. rewrite (map_ext_in _ fst).
    + apply NoDup_fst_map_to_list.
    + intros [k tx] Hin. apply list_elem_of_In, elem_of_map_to_list in Hin. symmetry. by apply Hr.
  - intros tx. rewrite list_elem_of_In, in_map_iff. split.
    + intros ([k t] & <- & Hin). apply list_elem_of_In, elem_of_map_to_list in Hin. cbn [snd]. by rewrite <- (Hr k t Hin).
    + intros Hl. exists (Transaction_CalculateHash tx, tx). split; [done|]. by apply list_elem_of_In, elem_of_map_to_list.
  - intros tx. apply lookup_insert_eq.
  - intros h h'. destruct (pool !! h) eqn:E; cbn [snd]; destruct (decide (h' = h)) as [->|]; try done.
    + by rewrite lookup_delete_eq.
    + by rewrite lookup_delete_ne by done.
Qed.

#[local] Existing Instances Toy.ops Toy.laws.

Lemma mempool_is_hash_indexed_witness :
  NoDup (map Transaction_CalculateHash (TxMempool_Snapshot (snd (TxMempool_Insert TxMempool_Init sample_tx)))).
Proof.
  apply (mempool_is_hash_indexed (snd (TxMempool_Insert TxMempool_Init sample_tx))). apply rtc_once, pool_insert.
Defined.

(** Pool policy is a time window around the clock: a transaction is admitted exactly when its
    timestamp lies within two hours ahead and four days behind, a pruned pool holds exactly the
    entries not older than four days, and a transaction the policy admits at a time is not pruned
    at that time. *)
Theorem mempool_policy_window pool tx nowMs :
  (TxMempool_PolicyAccepts tx nowMs = true <->
   nowMs - TX_EXPIRY_MS <= tx_timestamp (stx tx) <= nowMs + TX_MAX_FUTURE_DRIFT_MS) /\
  (forall k t, TxMempool_Lookup (snd (TxMempool_PruneExpired pool nowMs)) k = Some t <->
     TxMempool_Lookup pool k = Some t /\ nowMs - TX_EXPIRY_MS <= tx_timestamp (stx t)) /\
  (TxMempool_PolicyAccepts tx nowMs = true -> expired nowMs tx = false) /\
  (fst (TxMempool_PruneExpired pool nowMs) + size (snd (TxMempool_PruneExpired pool nowMs)) = size pool)%nat.
Proof.
  assert (Hex : forall t, expired nowMs t = false <-> nowMs - TX_EXPIRY_MS <= tx_timestamp (stx t)).
  { intros t. unfold expired, TX_EXPIRY_MS. zcases; cbn [andb]; split; intros; done || lia. }
  assert (Hp : TxMempool_PolicyAccepts tx nowMs = true <->
     nowMs - TX_EXPIRY_MS <= tx_timestamp (stx tx) <= nowMs + TX_MAX_FUTURE_DRIFT_MS).
  { unfold TxMempool_PolicyAccepts, TX_EXPIRY_MS, TX_MAX_FUTURE_DRIFT_MS.
    zcases; cbn [andb]; split; intros; done || lia. }
  split; [exact Hp|]. split; [|split].
  - intros k t. unfold TxMempool_Lookup. by rewrite prune_lookup, Hex.
  - intros Ha. apply Hex. apply Hp in Ha. lia.
  - cbn [fst snd TxMempool_PruneExpired].
    assert (E : filter (fun p => expired nowMs p.2 = false) pool = filter (fun p => ~ expired nowMs p.2 = true) pool).
    { apply map_eq. intros k. apply option_eq. intros t. rewrite !map_lookup_filter_Some. cbn [snd].
      destruct (expired nowMs t); intuition congruence. }
    rewrite E, <- map_size_disj_union by apply map_disjoint_filter_complement.
    f_equal. apply map_filter_union_complement.
Qed.
