(* ===== verification/Storage.v ===== *)
(** * The chain on disk ([src/block/chain.c], [include/storage/block_table.h])

    [chain.meta], [chain.data] and [chain.table] as byte strings.  Opening, writing and renaming files
    do not fail here; reading past the end of a file does.  The missing directory or file is [None]. *)
From S2P Require Import Prelude Bytes UInt256 Utils Crypto Transaction Autolykos2 Block Emission BalanceSheet.

Record chain_files := mkFiles { chain_meta : bytes; chain_data : bytes; chain_table : bytes }.

Record block_table_entry := mkLoc { te_blockNumber : Z; te_byteNumber : Z; te_blockSize : Z }.

Definition SIZEOF_TABLE_ENTRY : Z := 24.

Definition table_entry_bytes (e : block_table_entry) : bytes :=
  le_bytes 8 (te_blockNumber e) ++ le_bytes 8 (te_byteNumber e) ++ le_bytes 8 (te_blockSize e).

Definition read_u64 (bs : bytes) : option (Z * bytes) := '(a, bs) ← cut 8 bs; Some (le_val a, bs).

Definition read_table_entry (bs : bytes) : option (block_table_entry * bytes) :=
  '(n, bs) ← read_u64 bs; '(o, bs) ← read_u64 bs; '(s, bs) ← read_u64 bs; Some (mkLoc n o s, bs).

(** The position [off] bytes into a file. *)
Definition seek (off : Z) (file : bytes) : bytes := drop (Z.to_nat off) file.

(** Read [n] transactions; [fuel] bounds the reads by the bytes there are. *)
Fixpoint read_txs (fuel : nat) (n : Z) (bs : bytes) : option (list signed_transaction) :=
  if n =? 0 then Some []
  else match fuel with
  | O => None
  | S f => '(tx, rest) ← read_signed_transaction bs; txs ← read_txs f (n - 1) rest; Some (tx :: txs)
  end.

(** ** Loading one block *)

Definition Chain_LoadBlockFromFile (files : option chain_files) (n : Z) (loadTransactions : bool) : option (block * Z) :=
  f ← files;
  '(savedSize, _) ← read_u64 (chain_meta f);
  if savedSize <=? n then None
  else
    let tableOffset := n *u64 SIZEOF_TABLE_ENTRY in
    if negb (n =? 0) && negb (tableOffset / n =? SIZEOF_TABLE_ENTRY) then None
    else if LONG_MAX <? tableOffset then None
    else
      '(loc, _) ← read_table_entry (seek tableOffset (chain_table f));
      if negb (te_blockNumber loc =? n) then None
      else if LONG_MAX <? te_byteNumber loc then None
      else
        '(hdr, rest) ← read_header (seek (te_byteNumber loc) (chain_data f));
        '(txSize, rest) ← read_u64 rest;
        if loadTransactions then
          txs ← read_txs (length rest) txSize rest;
          Some (mkBlock hdr (Some txs), txSize)
        else if 0 <? txSize then
          let skipBytes := txSize *u64 232 in
          if negb (skipBytes / txSize =? 232) then None
          else if LONG_MAX <? skipBytes then None
          else Some (mkBlock hdr None, txSize)
        else Some (mkBlock hdr None, txSize).

(** ** Saving *)

(** The bytes of one block in [chain.data]. *)
Definition block_image (hdr : block_header) (txs : list signed_transaction) : bytes :=
  header_bytes hdr ++ le_bytes 8 (Z.of_nat (length txs)) ++ concat (map signed_transaction_bytes txs).

(** Drop a block's transactions from memory. *)
Definition compact (b : block) : block := mkBlock (header b) None.

(** The block to be written: the one in memory, or the old file's when only the header is left. *)
Definition disk_copy (old : option chain_files) (i : Z) (b : block) : option block :=
  match transactions b with
  | Some _ => Some b
  | None => '(d, _) ← Chain_LoadBlockFromFile old i true; Some d
  end.

(** The block loop: success flag, blocks as left in memory, data and table written.  A failure stops
    the loop with the blocks before it already compacted. *)
Fixpoint save_loop (old : option chain_files) (i byteCount : Z) (blocks : list block) : bool * list block * bytes * bytes :=
  match blocks with
  | [] => (true, [], [], [])
  | b :: r =>
      match disk_copy old i b with
      | Some (mkBlock hdr (Some txs)) =>
          let blockStart := byteCount in
          let byteCount := byteCount +u64 (96 + 8) in
          let byteCount := byteCount +u64 (Z.of_nat (length txs) * 232) in
          let entry := mkLoc i blockStart (byteCount -u64 blockStart) in
          let '(ok, r', data, table) := save_loop old (i + 1) byteCount r in
          (ok, compact b :: r', block_image hdr txs ++ data, table_entry_bytes entry ++ table)
      | _ => (false, b :: r, [], [])
      end
  end.

Definition meta_bytes (size : Z) (lastHash : bytes) (supply : uint256) (difficulty reward : Z) : bytes :=
  le_bytes 8 size ++ lastHash ++ uint256_bytes supply ++ le_bytes 4 difficulty ++ le_bytes 8 reward.

Section Files.
Context {ops : CryptoOps}.

(** Hash and target of the last block, for the metadata. *)
Definition tip_fields (blocks : list block) : bytes * Z :=
  match blocks !! (length blocks - 1)%nat with
  | Some b => (Block_CalculateHash b, difficultyTarget (header b))
  | None => (zeros 32, INITIAL_DIFFICULTY)
  end.

(** On success the new files replace the old and every block is header-only in memory. *)
Definition Chain_SaveToFile (old : option chain_files) (blocks : list block) (currentSupply : uint256) (currentReward : Z)
  : bool * option chain_files * list block :=
  let '(ok, blocks', data, table) := save_loop old 0 0 blocks in
  if negb ok then (false, old, blocks')
  else
    let '(lastHash, difficulty) := tip_fields blocks in
    (true, Some (mkFiles (meta_bytes (Z.of_nat (length blocks)) lastHash currentSupply difficulty currentReward) data table), blocks').
End Files.

(** ** Loading the whole chain *)

Record chain_metadata := mkMeta {
  lastSavedHash : bytes; savedSupply : uint256; savedDifficulty : Z; savedReward : Z
}.

Definition read_meta (bs : bytes) : option (Z * chain_metadata) :=
  '(size, bs) ← read_u64 bs;
  '(hash, bs) ← cut 32 bs;
  '(l0, bs) ← cut 8 bs; '(l1, bs) ← cut 8 bs; '(l2, bs) ← cut 8 bs; '(l3, bs) ← cut 8 bs;
  '(d, bs) ← cut 4 bs;
  '(r, bs) ← cut 8 bs;
  Some (size, mkMeta hash [le_val l0; le_val l1; le_val l2; le_val l3] (le_val d) (le_val r)).

(** One block through its table entry. *)
Definition load_one (data : bytes) (i : Z) (loc : block_table_entry) (loadTransactions : bool) : option block :=
  if negb (te_blockNumber loc =? i) then None
  else if LONG_MAX <? te_byteNumber loc then None
  else
    '(hdr, rest) ← read_header (seek (te_byteNumber loc) data);
    '(txSize, rest) ← read_u64 rest;
    if loadTransactions then txs ← read_txs (length rest) txSize rest; Some (mkBlock hdr (Some txs))
    else
      (* the skip is relative and signed: it must not leave the file offset range *)
      let skip := txSize *u64 232 in
      let off := te_byteNumber loc + 104 + (if LONG_MAX <? skip then skip - 2 ^ 64 else skip) in
      if (0 <? txSize) && ((off <? 0) || (LONG_MAX <? off)) then None
      else Some (mkBlock hdr None).

(** The table loop: success flag and the blocks pushed so far. *)
Fixpoint load_loop (fuel : nat) (savedSize i : Z) (data table : bytes) (loadTransactions : bool) : bool * list block :=
  if savedSize <=? i then (true, [])
  else match fuel with
  | O => (false, [])
  | S f =>
      match read_table_entry table with
      | None => (false, [])
      | Some (loc, table') =>
          match load_one data i loc loadTransactions with
          | None => (false, [])
          | Some b => let '(ok, r) := load_loop f savedSize (i + 1) data table' loadTransactions in (ok, b :: r)
          end
      end
  end.

(** The metadata when it could be read, the success flag, and the chain's new blocks (the chain is
    cleared once the metadata has been read). *)
Definition Chain_LoadFromFile (files : option chain_files) (blocks : list block) (loadTransactions : bool)
  : bool * option chain_metadata * list block :=
  match files with
  | None => (false, None, blocks)
  | Some f =>
      match read_meta (chain_meta f) with
      | None => (false, None, blocks)
      | Some (savedSize, md) =>
          let '(ok, blocks') := load_loop (S (length (chain_table f))) savedSize 0 (chain_data f) (chain_table f) loadTransactions in
          (ok, Some md, blocks')
      end
  end.

(** ** Layout of a saved chain *)

Abbreviation full_block := (block_header * list signed_transaction)%type.

Definition full_ok (p : full_block) : Prop := header_ok p.1 /\ Forall stx_ok p.2.
Definition image (p : full_block) : bytes := block_image p.1 p.2.
Definition data_of (L : list full_block) : bytes := concat (map image L).

Fixpoint table_of (i off : Z) (L : list full_block) : bytes :=
  match L with
  | [] => []
  | p :: r => table_entry_bytes (mkLoc i off (Z.of_nat (length (image p)))) ++
              table_of (i + 1) (off + Z.of_nat (length (image p))) r
  end.

(** The full blocks a chain in memory stands for, given the old files. *)
Fixpoint resolve_all (old : option chain_files) (i : Z) (blocks : list block) : option (list full_block) :=
  match blocks with
  | [] => Some []
  | b :: r =>
      match disk_copy old i b with
      | Some (mkBlock hdr (Some txs)) => L ← resolve_all old (i + 1) r; Some ((hdr, txs) :: L)
      | _ => None
      end
  end.

Lemma length_concat_tx txs :
  Forall stx_ok txs -> length (concat (map signed_transaction_bytes txs)) = (232 * length txs)%nat.
Proof.
  induction 1 as [|tx r Hx _ IH]; [done|]. cbn [map concat length]. rewrite length_app, IH.
  rewrite length_signed_transaction_bytes by done. unfold SIZEOF_SIGNED_TRANSACTION. lia.
Qed.

Lemma length_image p : full_ok p -> length (image p) = (104 + 232 * length p.2)%nat.
Proof.
  intros [Hh Ht]. unfold image, block_image. rewrite !length_app, length_header_bytes, length_le_bytes, length_concat_tx by done.
  unfold SIZEOF_HEADER. lia.
Qed.

Lemma data_of_cons p r : data_of (p :: r) = image p ++ data_of r.
Proof. reflexivity. Qed.

Lemma save_loop_spec old i bc blocks L :
  resolve_all old i blocks = Some L -> Forall full_ok L -> 0 <= bc -> bc + Z.of_nat (length (data_of L)) < 2 ^ 64 ->
  save_loop old i bc blocks = (true, map compact blocks, data_of L, table_of i bc L).
Proof.
  revert i bc L; induction blocks as [|b r IH]; intros i bc L E Hok Hbc Hlt; cbn [resolve_all] in E.
  { by injection E as <-. }
  cbn [save_loop]. destruct (disk_copy old i b) as [[hdr [txs|]]|]; [|done..].
  destruct (resolve_all old (i + 1) r) as [L'|] eqn:E'; cbn [mbind option_bind] in E; [|done].
  injection E as <-. apply Forall_cons_iff in Hok as [Hp Hok]. rewrite data_of_cons, length_app in Hlt.
  pose proof (length_image _ Hp) as Hl. cbn [snd] in Hl. rewrite Hl in Hlt.
  assert (E1 : bc +u64 (96 + 8) = bc + 104) by (apply u64_small; unfold_cint; lia). rewrite E1.
  assert (E2 : bc + 104 +u64 Z.of_nat (length txs) * 232 = bc + Z.of_nat (length (image (hdr, txs))))
    by (rewrite u64_small; unfold_cint; lia). rewrite E2.
  rewrite (IH (i + 1) _ L') by (done || lia). cbn [map table_of]. rewrite u64_small by (unfold_cint; lia).
  replace (bc + Z.of_nat (length (image (hdr, txs))) - bc) with (Z.of_nat (length (image (hdr, txs)))) by lia. done.
Qed.

(** ** Reading it back *)

Lemma read_u64_app v rest : is_u64 v -> read_u64 (le_bytes 8 v ++ rest) = Some (v, rest).
Proof. intros Hv. unfold read_u64. rewrite cut_app by apply length_le_bytes. cbn [mbind option_bind]. by rewrite le_val_8. Qed.

Lemma read_table_entry_app e rest :
  is_u64 (te_blockNumber e) -> is_u64 (te_byteNumber e) -> is_u64 (te_blockSize e) ->
  read_table_entry (table_entry_bytes e ++ rest) = Some (e, rest).
Proof.
  intros H1 H2 H3. unfold read_table_entry, table_entry_bytes. rewrite <- !app_assoc.
  rewrite !read_u64_app by done. cbn [mbind option_bind]. rewrite read_u64_app by done. cbn [mbind option_bind].
  rewrite read_u64_app by done. cbn [mbind option_bind]. by destruct e.
Qed.

Lemma read_txs_app fuel txs rest :
  Forall stx_ok txs -> (length txs <= fuel)%nat ->
  read_txs fuel (Z.of_nat (length txs)) (concat (map signed_transaction_bytes txs) ++ rest) = Some txs.
Proof.
  intros Hok; revert fuel; induction Hok as [|tx r Hx _ IH]; intros fuel Hf; [by destruct fuel|].
  destruct fuel as [|fuel]; [cbn in Hf; lia|]. cbn [length] in Hf. cbn [read_txs].
  rewrite (proj2 (Z.eqb_neq _ _)) by (cbn [length]; lia). cbn [map concat]. rewrite <- app_assoc, read_signed_app by done.
  cbn [mbind option_bind]. replace (Z.of_nat (length (tx :: r)) - 1) with (Z.of_nat (length r)) by (cbn [length]; lia).
  rewrite IH by lia. done.
Qed.

Lemma length_table_entry e : length (table_entry_bytes e) = 24%nat.
Proof. unfold table_entry_bytes. by rewrite !length_app, !length_le_bytes. Qed.

Lemma table_of_nth L i off k p :
  L !! k = Some p ->
  exists rest, drop (24 * k) (table_of i off L) =
    table_entry_bytes (mkLoc (i + Z.of_nat k) (off + Z.of_nat (length (data_of (take k L)))) (Z.of_nat (length (image p)))) ++ rest.
Proof.
  revert i off k; induction L as [|q r IH]; intros i off [|k] E; try done.
  - injection E as ->. cbn [take]. exists (table_of (i + 1) (off + Z.of_nat (length (image p))) r).
    rewrite Nat.mul_0_r, drop_0. cbn [table_of]. f_equal. f_equal. f_equal; cbn; lia.
  - cbn [lookup list_lookup] in E. destruct (IH (i + 1) (off + Z.of_nat (length (image q))) k E) as [rest Hr].
    exists rest. cbn [table_of take]. replace (24 * S k)%nat with (24 + 24 * k)%nat by lia.
    rewrite <- drop_drop, drop_app_length' by (by rewrite length_table_entry). rewrite Hr. do 2 f_equal.
    rewrite data_of_cons, length_app. f_equal; lia.
Qed.

Lemma data_of_nth L k p :
  L !! k = Some p -> exists rest, drop (length (data_of (take k L))) (data_of L) = image p ++ rest.
Proof.
  intros E. exists (data_of (drop (S k) L)). rewrite <- (take_drop_middle L k p E) at 2.
  unfold data_of. rewrite map_app, concat_app. cbn [map concat]. by rewrite drop_app_length.
Qed.

(** Reading the image of a full block. *)
Lemma read_image p rest :
  full_ok p -> Z.of_nat (length p.2) < 2 ^ 64 ->
  exists r1, read_header (image p ++ rest) = Some (p.1, r1) /\
    read_u64 r1 = Some (Z.of_nat (length p.2), concat (map signed_transaction_bytes p.2) ++ rest).
Proof.
  intros [Hh Ht] Hn. unfold image, block_image. rewrite <- !app_assoc. rewrite read_header_app by done.
  eexists. split; [done|]. apply read_u64_app. unfold_cint. lia.
Qed.

(** Files that hold the chain [L], small enough for signed 64-bit file offsets. *)
Definition files_hold (f : chain_files) (L : list full_block) : Prop :=
  chain_data f = data_of L /\ chain_table f = table_of 0 0 L /\
  (exists rest, chain_meta f = le_bytes 8 (Z.of_nat (length L)) ++ rest) /\
  Forall full_ok L /\ Z.of_nat (length (data_of L)) <= LONG_MAX.

Lemma data_of_prefix L k p :
  L !! k = Some p -> (length (data_of (take k L)) + length (image p) <= length (data_of L))%nat.
Proof.
  intros E. rewrite <- (take_drop_middle L k p E) at 2. unfold data_of. rewrite map_app, concat_app. cbn [map concat].
  rewrite !length_app. lia.
Qed.

Lemma length_data_ge L : Forall full_ok L -> (104 * length L <= length (data_of L))%nat.
Proof.
  induction 1 as [|p r Hp _ IH]; [cbn; lia|]. rewrite data_of_cons, length_app, length_image by done. cbn [length]. lia.
Qed.

(** Facts about the [k]-th saved block that both loaders need. *)
Lemma saved_block_facts f L k p :
  files_hold f L -> L !! k = Some p ->
  full_ok p /\ Z.of_nat k < Z.of_nat (length L) /\ 104 * Z.of_nat (length L) <= LONG_MAX /\
  Z.of_nat (length (data_of (take k L))) + 104 + 232 * Z.of_nat (length p.2) <= LONG_MAX.
Proof.
  intros (_ & _ & _ & Hok & Hlen) E. pose proof (lookup_lt_Some _ _ _ E) as Hk.
  pose proof (length_data_ge L Hok) as Hge. pose proof (data_of_prefix L k p E) as Hpre.
  assert (Hp : full_ok p) by (by eapply Forall_lookup_1). rewrite (length_image p Hp) in Hpre.
  split; [done|]. lia.
Qed.

Lemma read_saved_txs p rest :
  full_ok p ->
  read_txs (length (concat (map signed_transaction_bytes p.2) ++ rest)) (Z.of_nat (length p.2))
    (concat (map signed_transaction_bytes p.2) ++ rest) = Some p.2.
Proof. intros [_ Ht]. apply read_txs_app; [done|]. rewrite length_app, length_concat_tx by done. lia. Qed.

Lemma LoadBlock_saved f L k p loadTx :
  files_hold f L -> L !! k = Some p ->
  Chain_LoadBlockFromFile (Some f) (Z.of_nat k) loadTx =
  Some (mkBlock p.1 (if loadTx then Some p.2 else None), Z.of_nat (length p.2)).
Proof.
  intros Hf E. destruct (saved_block_facts f L k p Hf E) as (Hp & Hk & HL & Hoff).
  destruct Hf as (Hd & Ht & [mrest Hm] & _). unfold Chain_LoadBlockFromFile. cbn [mbind option_bind].
  rewrite Hm, read_u64_app by (unfold_cint; lia). cbn [mbind option_bind].
  rewrite (proj2 (Z.leb_gt _ _)) by lia. unfold SIZEOF_TABLE_ENTRY. rewrite u64_small by (unfold_cint; lia).
  assert (Hchk : negb (Z.of_nat k =? 0) && negb (Z.of_nat k * 24 / Z.of_nat k =? 24) = false).
  { destruct (Z.eqb_spec (Z.of_nat k) 0); [done|]. rewrite Z.mul_comm, Z.div_mul by done. done. }
  rewrite Hchk. rewrite (proj2 (Z.ltb_ge _ _)) by (unfold_cint; lia).
  destruct (table_of_nth L 0 0 k p E) as [trest Htr]. unfold seek. rewrite Ht.
  replace (Z.to_nat (Z.of_nat k * 24)) with (24 * k)%nat by lia. rewrite Htr.
  rewrite read_table_entry_app; cbn [te_blockNumber te_byteNumber te_blockSize];
    [|unfold_cint; lia|unfold_cint; lia|rewrite (length_image p Hp); unfold_cint; lia].
  cbn [mbind option_bind te_blockNumber te_byteNumber]. rewrite !Z.add_0_l, Z.eqb_refl. cbn [negb].
  rewrite (proj2 (Z.ltb_ge _ _)) by lia. rewrite Hd, Nat2Z.id.
  destruct (data_of_nth L k p E) as [drest Hdr]. rewrite Hdr.
  destruct (read_image p drest Hp) as (r1 & -> & Hr1); [unfold_cint; lia|]. cbn [mbind option_bind]. rewrite Hr1.
  cbn [mbind option_bind]. destruct loadTx.
  - by rewrite read_saved_txs.
  - destruct (Z.ltb_spec 0 (Z.of_nat (length p.2))); [|done].
    rewrite u64_small by (unfold_cint; lia).
    assert (Ediv : Z.of_nat (length p.2) * 232 / Z.of_nat (length p.2) = 232) by (rewrite Z.mul_comm, Z.div_mul by lia; done).
    rewrite Ediv. cbn [Z.eqb Pos.eqb negb]. rewrite (proj2 (Z.ltb_ge _ _)) by lia. done.
Qed.

Lemma load_one_saved f L k p loadTx :
  files_hold f L -> L !! k = Some p ->
  load_one (chain_data f) (Z.of_nat k)
    (mkLoc (Z.of_nat k) (Z.of_nat (length (data_of (take k L)))) (Z.of_nat (length (image p)))) loadTx =
  Some (mkBlock p.1 (if loadTx then Some p.2 else None)).
Proof.
  intros Hf E. destruct (saved_block_facts f L k p Hf E) as (Hp & Hk & HL & Hoff). destruct Hf as (Hd & _).
  unfold load_one. cbn [te_blockNumber te_byteNumber]. rewrite Z.eqb_refl. cbn [negb].
  rewrite (proj2 (Z.ltb_ge _ _)) by lia. unfold seek. rewrite Hd, Nat2Z.id.
  destruct (data_of_nth L k p E) as [drest Hdr]. rewrite Hdr.
  destruct (read_image p drest Hp) as (r1 & -> & Hr1); [unfold_cint; lia|]. cbn [mbind option_bind]. rewrite Hr1.
  cbn [mbind option_bind]. destruct loadTx; [by rewrite read_saved_txs|].
  rewrite u64_small by (unfold_cint; lia). rewrite (proj2 (Z.ltb_ge LONG_MAX _)) by lia.
  rewrite (proj2 (Z.ltb_ge _ 0)), (proj2 (Z.ltb_ge LONG_MAX _)) by lia. by rewrite andb_false_r.
Qed.

Definition loaded_block (loadTx : bool) (p : full_block) : block := mkBlock p.1 (if loadTx then Some p.2 else None).

Lemma length_table i off L : length (table_of i off L) = (24 * length L)%nat.
Proof.
  revert i off; induction L as [|q L IH]; intros i off; [done|]. cbn [table_of length]. rewrite length_app, length_table_entry, IH. lia.
Qed.

(** The table entry of block [k], and the rest of the table. *)
Lemma read_saved_entry f L k p :
  files_hold f L -> L !! k = Some p ->
  read_table_entry (drop (24 * k) (chain_table f)) =
  Some (mkLoc (Z.of_nat k) (Z.of_nat (length (data_of (take k L)))) (Z.of_nat (length (image p))), drop (24 * S k) (chain_table f)).
Proof.
  intros Hf E. destruct (saved_block_facts f L k p Hf E) as (Hp & Hk & HL & Hoff).
  pose proof Hf as (_ & Ht & _). destruct (table_of_nth L 0 0 k p E) as [trest Htr]. rewrite Ht, Htr.
  rewrite read_table_entry_app; cbn [te_blockNumber te_byteNumber te_blockSize];
    [|unfold_cint; lia|unfold_cint; lia|rewrite (length_image p Hp); unfold_cint; lia].
  rewrite !Z.add_0_l. f_equal. f_equal. replace (24 * S k)%nat with (24 * k + 24)%nat by lia. rewrite <- drop_drop, Htr.
  by rewrite drop_app_length' by (by rewrite length_table_entry).
Qed.

Lemma load_loop_saved f L loadTx n k fuel :
  files_hold f L -> (n + k = length L)%nat -> (n < fuel)%nat ->
  load_loop fuel (Z.of_nat (length L)) (Z.of_nat k) (chain_data f) (drop (24 * k) (chain_table f)) loadTx =
  (true, map (loaded_block loadTx) (drop k L)).
Proof.
  intros Hf. revert k fuel; induction n as [|n IH]; intros k fuel Hn Hfu.
  - rewrite (drop_ge L k) by lia. destruct fuel as [|fuel]; cbn [load_loop]; by rewrite (proj2 (Z.leb_le _ _)) by lia.
  - destruct fuel as [|fuel]; [lia|]. cbn [load_loop]. rewrite (proj2 (Z.leb_gt _ _)) by lia.
    destruct (lookup_lt_is_Some_2 L k ltac:(lia)) as [p E].
    rewrite (read_saved_entry f L k p Hf E), (load_one_saved f L k p loadTx Hf E).
    replace (Z.of_nat k + 1) with (Z.of_nat (S k)) by lia. rewrite IH by lia.
    rewrite (drop_S L p k E). done.
Qed.

(** ** Saving then loading *)

Lemma length_resolve old i blocks L : resolve_all old i blocks = Some L -> length L = length blocks.
Proof.
  revert i L; induction blocks as [|b r IH]; intros i L E; cbn [resolve_all] in E; [by injection E as <-|].
  destruct (disk_copy old i b) as [[h [t|]]|]; [|done..].
  destruct (resolve_all old (i + 1) r) as [L'|] eqn:E'; cbn [mbind option_bind] in E; [|done].
  injection E as <-. cbn [length]. by rewrite (IH _ _ E').
Qed.

(** Header-only blocks resolve to what the files hold. *)
Lemma resolve_compact f L (blocks : list block) n k :
  files_hold f L -> length blocks = length L -> (n + k = length L)%nat ->
  resolve_all (Some f) (Z.of_nat k) (map compact (drop k blocks)) = Some (drop k L).
Proof.
  intros Hf Hlen. revert k; induction n as [|n IH]; intros k Hn.
  - rewrite !drop_ge by lia. done.
  - destruct (lookup_lt_is_Some_2 L k ltac:(lia)) as [p E].
    destruct (lookup_lt_is_Some_2 blocks k ltac:(lia)) as [b Eb].
    rewrite (drop_S blocks b k Eb), (drop_S L p k E). cbn [map resolve_all].
    unfold disk_copy, compact at 1. cbn [transactions]. rewrite (LoadBlock_saved f L k p true Hf E). cbn [mbind option_bind].
    replace (Z.of_nat k + 1) with (Z.of_nat (S k)) by lia. rewrite IH by lia. cbn [mbind option_bind]. by destruct p.
Qed.

Section SaveLoad.
Context {ops : CryptoOps} {laws : CryptoLaws ops}.

Lemma tip_fields_ok blocks :
  Forall (fun b => header_ok (header b)) blocks -> bytes_n 32 (fst (tip_fields blocks)) /\ is_u32 (snd (tip_fields blocks)).
Proof.
  intros H. unfold tip_fields. destruct (blocks !! (length blocks - 1)%nat) as [b|] eqn:E; cbn [fst snd].
  - split; [apply sha256d_size|]. assert (Hb : header_ok (header b)) by (by eapply Forall_lookup_1 in H).
    by destruct Hb as (_ & _ & _ & _ & _ & ? & _).
  - split; [apply zeros_ok|vm_decide].
Qed.

Lemma read_meta_bytes size hash supply d r :
  is_u64 size -> bytes_n 32 hash -> uint256_ok supply -> is_u32 d -> is_u64 r ->
  read_meta (meta_bytes size hash supply d r) = Some (size, mkMeta hash supply d r).
Proof.
  intros Hs [Hh _] [L4 Hu] Hd Hr. destruct supply as [|l0 [|l1 [|l2 [|l3 [|? ?]]]]]; try discriminate L4.
  apply Forall_cons_iff in Hu as [H0 Hu]. apply Forall_cons_iff in Hu as [H1 Hu].
  apply Forall_cons_iff in Hu as [H2 Hu]. apply Forall_cons_iff in Hu as [H3 _].
  unfold read_meta, meta_bytes, uint256_bytes. cbn [map concat]. rewrite app_nil_r, <- !app_assoc.
  rewrite read_u64_app by done. cbn [mbind option_bind].
  repeat (rewrite cut_app by (apply length_le_bytes || done); cbn [mbind option_bind]).
  rewrite <- (app_nil_r (le_bytes 8 r)), cut_app by apply length_le_bytes. cbn [mbind option_bind].
  rewrite !le_val_8, le_val_4 by done. done.
Qed.

Lemma save_spec old blocks L supply reward :
  resolve_all old 0 blocks = Some L -> Forall full_ok L -> Z.of_nat (length (data_of L)) <= LONG_MAX ->
  let '(hash, d) := tip_fields blocks in
  let f := mkFiles (meta_bytes (Z.of_nat (length blocks)) hash supply d reward) (data_of L) (table_of 0 0 L) in
  Chain_SaveToFile old blocks supply reward = (true, Some f, map compact blocks) /\ files_hold f L.
Proof.
  intros E Hok Hlen. destruct (tip_fields blocks) as [hash d] eqn:Et. unfold Chain_SaveToFile.
  rewrite (save_loop_spec old 0 0 blocks L E Hok) by (unfold_cint; lia). cbn [negb]. rewrite Et.
  split; [done|]. split; [done|]. split; [done|]. split; [|done].
  cbn [chain_meta]. unfold meta_bytes. rewrite (length_resolve old 0 blocks L E). eauto.
Qed.
End SaveLoad.

Lemma save_load_chain {ops : CryptoOps} {laws : CryptoLaws ops} old blocks L supply reward anything loadTx :
  resolve_all old 0 blocks = Some L -> Forall full_ok L -> Forall (fun b => header_ok (header b)) blocks ->
  Z.of_nat (length (data_of L)) <= LONG_MAX -> uint256_ok supply -> is_u64 reward ->
  exists f, Chain_SaveToFile old blocks supply reward = (true, Some f, map compact blocks) /\
    (forall k p, L !! k = Some p ->
       Chain_LoadBlockFromFile (Some f) (Z.of_nat k) loadTx = Some (loaded_block loadTx p, Z.of_nat (length p.2))) /\
    Chain_LoadFromFile (Some f) anything loadTx =
      (true, Some (mkMeta (fst (tip_fields blocks)) supply (snd (tip_fields blocks)) reward), map (loaded_block loadTx) L) /\
    resolve_all (Some f) 0 (map compact blocks) = Some L.
Proof.
  intros E Hok Hh Hlen Hs Hr. pose proof (save_spec old blocks L supply reward E Hok Hlen) as Hsave.
  destruct (tip_fields_ok blocks Hh) as [Hhash Hd]. pose proof (length_resolve old 0 blocks L E) as HL.
  destruct (tip_fields blocks) as [hash d]. cbn [fst snd] in *. destruct Hsave as [Hsave Hf].
  eexists. split; [exact Hsave|]. split; [|split].
  - intros k p Ek. by apply LoadBlock_saved with L.
  - unfold Chain_LoadFromFile. cbn [chain_meta]. pose proof (length_data_ge L Hok) as Hge.
    rewrite read_meta_bytes by (done || (unfold_cint; lia)).
    pose proof (load_loop_saved _ L loadTx (length L) 0 (S (length (table_of 0 0 L))) Hf ltac:(lia)) as Hload.
    cbn [chain_table chain_data] in *. rewrite Nat.mul_0_r, !drop_0, HL in Hload. change (Z.of_nat 0) with 0 in Hload. rewrite Hload; [done|].
    rewrite length_table. lia.
  - pose proof (resolve_compact _ L blocks (length L) 0 Hf ltac:(lia) ltac:(lia)) as Hres. by rewrite !drop_0 in Hres.
Qed.

(** ** Properties *)

(** The chain files round-trip.  Saving a chain whose blocks are in memory or recoverable from the
    old files succeeds and leaves header-only blocks in memory; afterwards every block can be read
    back on its own, with or without transactions, exactly as it was; loading the whole chain
    restores every block, the supply, reward, tip hash and target; and the header-only chain
    resolves to the same full chain, so a later save rewrites the same blocks. *)
Theorem chain_save_load {ops : CryptoOps} {laws : CryptoLaws ops} old blocks L supply reward anything loadTx :
  resolve_all old 0 blocks = Some L -> Forall full_ok L -> Forall (fun b => header_ok (header b)) blocks ->
  Z.of_nat (length (data_of L)) <= LONG_MAX -> uint256_ok supply -> is_u64 reward ->
  exists f, Chain_SaveToFile old blocks supply reward = (true, Some f, map compact blocks) /\
    (forall k p, L !! k = Some p ->
       Chain_LoadBlockFromFile (Some f) (Z.of_nat k) loadTx = Some (loaded_block loadTx p, Z.of_nat (length p.2))) /\
    Chain_LoadFromFile (Some f) anything loadTx =
      (true, Some (mkMeta (fst (tip_fields blocks)) supply (snd (tip_fields blocks)) reward), map (loaded_block loadTx) L) /\
    resolve_all (Some f) 0 (map compact blocks) = Some L.
Proof. apply save_load_chain. Qed.

#[local] Existing Instances Toy.ops Toy.laws.

Lemma chain_save_load_witness :
  exists f, Chain_SaveToFile None [sample_block] (uint256_from_u64 50) 7 = (true, Some f, map compact [sample_block]) /\
    Chain_LoadBlockFromFile (Some f) 0 true = Some (sample_block, 2).
Proof.
  destruct (chain_save_load None [sample_block] [(header sample_block, sample_txs)] (uint256_from_u64 50) 7 [] true)
    as (f & H1 & H2 & _).
  - reflexivity.
  - constructor; [split; [apply sample_block_ok|apply sample_txs_ok]|constructor].
  - constructor; [apply sample_block_ok|constructor].
  - vm_compute. congruence.
  - apply from_u64_ok; vm_decide.
  - vm_decide.
  - exists f. split; [exact H1|]. exact (H2 0%nat (header sample_block, sample_txs) eq_refl).
Defined.
