(* ===== verification/Chain.v ===== *)
(** * The chain ([src/block/chain.c], [include/block/chain.h], [include/runtime_state.h])

    The node's consensus state and the operations that move it: appending a block, rolling back,
    replacing a branch, recomputing the runtime state, saving.  Every operation runs under the chain
    lock in the code, so it is one transition here; the clock is an argument.  [chain->size] always
    equals the vector's size and is not a field of its own. *)
From S2P Require Import Prelude Bytes UInt256 Utils Crypto Transaction Autolykos2 Block Emission.
From S2P Require Import BalanceSheet Ledger Difficulty DagEpochs Mempool Storage.

Record node := mkNode {
  blocks : list block;          (* chain->blocks *)
  dagEpochs : dag_cache;        (* chain->dagEpochs *)
  g_sheetMap : sheet;
  g_txMempool : mempool;
  g_currentSupply : uint256;
  g_currentReward : Z;
  g_currentBlockHeight : Z;
  g_difficultyTarget : Z;
  g_files : option chain_files; (* the files under g_chainDataDir *)
  g_pow : pow_state
}.

Definition set_dag (st : node) (c : dag_cache) : node :=
  mkNode (blocks st) c (g_sheetMap st) (g_txMempool st) (g_currentSupply st) (g_currentReward st)
    (g_currentBlockHeight st) (g_difficultyTarget st) (g_files st) (g_pow st).

Definition set_target (st : node) (t : Z) : node :=
  mkNode (blocks st) (dagEpochs st) (g_sheetMap st) (g_txMempool st) (g_currentSupply st) (g_currentReward st)
    (g_currentBlockHeight st) t (g_files st) (g_pow st).

Definition Chain_Size (st : node) : nat := length (blocks st).
Definition Chain_GetBlock (st : node) (index : nat) : option block := blocks st !! index.
Definition Chain_GetBlockCopy (st : node) (index : nat) : option block := Block_Copy <$> blocks st !! index.

Definition Chain_ClearBlocks (st : node) : node :=
  mkNode [] (Chain_InvalidateDagEpochs (dagEpochs st)) (g_sheetMap st) (g_txMempool st) (g_currentSupply st)
    (g_currentReward st) (g_currentBlockHeight st) (g_difficultyTarget st) (g_files st) (g_pow st).

Definition Chain_Wipe (st : node) : node :=
  let st := Chain_ClearBlocks st in
  mkNode (blocks st) (dagEpochs st) (g_sheetMap st) (g_txMempool st) (g_currentSupply st) (g_currentReward st)
    0 INITIAL_DIFFICULTY (g_files st) (g_pow st).

(** Refresh the cached target for the block that comes next. *)
Definition Chain_OnTipAdvanced (st : node) : node :=
  set_target st (Chain_GetTargetForHeight (blocks st) (Z.of_nat (length (blocks st)))).

Section Operations.
Context {ops : CryptoOps}.

(** ** Appending *)

(** The number and parent checks (the caller guarantees [block->transactions]). *)
Definition links_to_tip (chain : list block) (b : block) : bool :=
  let expectedIndex := length chain in
  (blockNumber (header b) =? Z.of_nat expectedIndex) &&
  (if (0 <? expectedIndex)%nat then
     match chain !! (expectedIndex - 1)%nat with
     | None => false
     | Some parent => memeq (Block_CalculateHash parent) (prevHash (header b))
     end
   else true).

(** Proof of work against the epoch parameters of the block's own height; the memo table is updated. *)
Definition check_pow (st : node) (b : block) : bool * node :=
  let '(params, c) := Chain_DagParamsForHeightLocked (blocks st) (dagEpochs st) (blockNumber (header b)) in
  let st := set_dag st c in
  match params with
  | None => (false, st)
  | Some (dagBytes, dagSeed) =>
      let epochIndex := blockNumber (header b) / EPOCH_LENGTH in
      (Block_HasValidProofOfWorkWithParams (g_pow st) b epochIndex dagBytes dagSeed, st)
  end.

Definition Chain_DagParamsForHeight (st : node) (height : Z) : option (Z * bytes) * node :=
  let '(params, c) := Chain_DagParamsForHeightLocked (blocks st) (dagEpochs st) height in (params, set_dag st c).

(** The check of a block on its own, against the chain as it stands. *)
Definition Block_HasValidProofOfWork (st : node) (b : block) : bool * node :=
  let '(params, st) := Chain_DagParamsForHeight st (blockNumber (header b)) in
  match params with
  | None => (false, st)
  | Some (dagBytes, seed) =>
      let epochIndex := blockNumber (header b) / EPOCH_LENGTH in
      (Block_HasValidProofOfWorkWithParams (g_pow st) b epochIndex dagBytes seed, st)
  end.
Definition Block_IsFullyValid (st : node) (b : block) : bool * node :=
  if Block_HasValidStructure b then Block_HasValidProofOfWork st b else (false, st).

(** Selection over the whole block: the expected coinbase amount and the fees. *)
Definition expected_coinbase (m : sheet) (reward : Z) (txs : list signed_transaction) : option (Z * Z) :=
  if (length txs =? 0)%nat then None
  else
    let nonCoinbaseCount := length (noncoinbase txs) in
    let '(spendable, totalFees) := BalanceSheet_SelectSpendableTransactions m txs in
    if negb (length spendable =? nonCoinbaseCount)%nat then None
    else if UINT64_MAX - reward <? totalFees then None
    else Some (reward +u64 totalFees, totalFees).

(** The transaction checks before the block is pushed; the result is the expected coinbase amount. *)
Definition admission (st : node) (b : block) (txs : list signed_transaction) : option Z :=
  '(expected, totalFees) ← expected_coinbase (g_sheetMap st) (g_currentReward st) txs;
  observedFees ← Block_ValidateCoinbaseAndFees b expected;
  if negb (observedFees =? totalFees) then None
  else if negb (Chain_BlockRespectsSenderOrdering (g_sheetMap st) (transactions b)) then None
  else Some expected.

(** Mined transactions leave the pool. *)
Definition remove_mined (pool : mempool) (txs : list signed_transaction) : mempool :=
  fold_left (fun pool tx => if Address_IsCoinbase (senderAddress (stx tx)) then pool
                            else snd (TxMempool_Remove pool (Transaction_CalculateHash tx))) txs pool.

(** Push the block, apply the ledger, clean the pool, advance supply and reward. *)
Definition commit (st : node) (b : block) (txs : list signed_transaction) (expected : Z) : bool * node :=
  let chain := blocks st ++ [b] in
  let '(ok, m) := ledger_pass (g_sheetMap st) txs in
  let pool := remove_mined (g_txMempool st) txs in
  let height := Z.of_nat (length chain) in
  let supply := if ok then fst (uint256_add_u64 (g_currentSupply st) expected) else g_currentSupply st in
  let reward := if ok then fst (CalculateBlockRewardAtHeight supply height (g_currentReward st)) else g_currentReward st in
  (ok, mkNode chain (dagEpochs st) m pool supply reward (height - 1) (g_difficultyTarget st) (g_files st) (g_pow st)).

Definition Chain_AddBlockLocked (st : node) (b : block) : bool * node :=
  match transactions b with
  | None => (false, st)
  | Some txs =>
      if negb (links_to_tip (blocks st) b) then (false, st)
      else
        let '(pow, st) := check_pow st b in
        if negb pow then (false, st)
        else if negb (difficultyTarget (header b) =? Chain_GetTargetForHeight (blocks st) (Z.of_nat (length (blocks st))))
        then (false, st)
        else match admission st b txs with
             | None => (false, st)
             | Some expected => commit st b txs expected
             end
  end.

Definition Chain_AddBlock (st : node) (b : block) : bool * node :=
  let '(ok, st) := Chain_AddBlockLocked st b in
  (ok, if ok then Chain_OnTipAdvanced st else st).

(** ** Borrowing transactions *)

Definition Chain_BorrowBlockTransactions (st : node) (index : nat) : option (list signed_transaction) :=
  match blocks st !! index ≫= transactions with
  | Some txs => Some txs
  | None => '(b, _) ← Chain_LoadBlockFromFile (g_files st) (Z.of_nat index) true; transactions b
  end.

(** ** Rolling back *)

(** Return one discarded block's payments to the pool. *)
Definition restore_txs (pool : mempool) (txs : list signed_transaction) : mempool :=
  fold_left (fun pool tx => if Address_IsCoinbase (senderAddress (stx tx)) then pool
                            else snd (TxMempool_Insert pool tx)) txs pool.

(** Blocks [height .. height + n - 1], from the top down; unreadable ones are skipped. *)
Fixpoint restore_discarded (st : node) (height n : nat) (pool : mempool) : mempool :=
  match n with
  | O => pool
  | S m =>
      let pool := match Chain_BorrowBlockTransactions st (height + m) with
                  | Some txs => restore_txs pool txs
                  | None => pool
                  end in
      restore_discarded st height m pool
  end.

(** The replay loop over blocks [i .. i + n - 1]; a failure keeps the sheet rebuilt so far. *)
Fixpoint replay_blocks (st : node) (i n : nat) (acc : uint256 * sheet) : bool * (uint256 * sheet) :=
  match n with
  | O => (true, acc)
  | S m => match Chain_BorrowBlockTransactions st i with
           | None => (false, acc)
           | Some txs => replay_blocks st (S i) m (replay_txs acc txs)
           end
  end.

Definition Chain_RollbackToHeightLocked (st : node) (height : nat) : bool * node :=
  let cur := length (blocks st) in
  if (cur <=? height)%nat then (true, st)
  else
    let pool := restore_discarded st height (cur - height) (g_txMempool st) in
    let chain := take height (blocks st) in
    let tipHeight := if (length chain =? 0)%nat then 0 else Z.of_nat (length chain) - 1 in
    let st := mkNode chain (Chain_InvalidateDagEpochs (dagEpochs st)) BalanceSheet_Init pool (g_currentSupply st)
                (g_currentReward st) tipHeight (g_difficultyTarget st) (g_files st) (g_pow st) in
    let '(ok, (rebuiltSupply, m)) := replay_blocks st 0 (length chain) (uint256_from_u64 0, BalanceSheet_Init) in
    let supply := if ok then rebuiltSupply else g_currentSupply st in
    let reward := if ok then fst (CalculateBlockRewardAtHeight rebuiltSupply (Z.of_nat (length chain)) (g_currentReward st))
                  else g_currentReward st in
    (ok, mkNode chain (dagEpochs st) m pool supply reward tipHeight (g_difficultyTarget st) (g_files st) (g_pow st)).

Definition Chain_RollbackToHeight (st : node) (height : nat) : bool * node :=
  let '(ok, st) := Chain_RollbackToHeightLocked st height in (ok, Chain_OnTipAdvanced st).

(** ** Recomputing supply and reward *)

(** Coinbase amounts of one block; [None] on overflow. *)
Fixpoint add_coinbases (supply : uint256) (txs : list signed_transaction) : option uint256 :=
  match txs with
  | [] => Some supply
  | tx :: r =>
      if Address_IsCoinbase (senderAddress (stx tx)) then
        let '(s, overflow) := uint256_add_u64 supply (tx_amount1 (stx tx)) in
        if overflow : bool then None else add_coinbases s r
      else add_coinbases supply r
  end.

Fixpoint rebuild_supply (st : node) (i n : nat) (supply : uint256) : option uint256 :=
  match n with
  | O => Some supply
  | S m => txs ← Chain_BorrowBlockTransactions st i; s ← add_coinbases supply txs; rebuild_supply st (S i) m s
  end.

Definition Chain_RecomputeRuntimeState (st : node) : bool * node :=
  match rebuild_supply st 0 (length (blocks st)) (uint256_from_u64 0) with
  | None => (false, st)
  | Some s =>
      (true, mkNode (blocks st) (dagEpochs st) (g_sheetMap st) (g_txMempool st) s
               (fst (CalculateBlockRewardAtHeight s (Z.of_nat (length (blocks st))) (g_currentReward st)))
               (g_currentBlockHeight st) (g_difficultyTarget st) (g_files st) (g_pow st))
  end.

(** ** Chain validity *)

(** Blocks 1, 2, ... against their predecessors. *)
Fixpoint links_from (i : Z) (prev : block) (r : list block) : bool :=
  match r with
  | [] => true
  | b :: r' =>
      if negb (blockNumber (header b) =? i) then false
      else if negb (memeq (prevHash (header b)) (Block_CalculateHash prev)) then false
      else links_from (i + 1) b r'
  end.

Definition Chain_IsValid (chain : list block) : bool :=
  match chain with
  | [] => true
  | genesis :: r => if links_from 1 genesis r then blockNumber (header genesis) =? 0 else false
  end.

(** ** Initial block download *)

Definition MEDIAN_TIME_SPAN : nat := 11.
Definition IBD_TIP_AGE_BLOCKS : Z := 20.

(** [qsort] with [Chain_CompareTimestamps]. *)
Fixpoint insert_sorted (t : Z) (l : list Z) : list Z :=
  match l with
  | [] => [t]
  | x :: r => if t <=? x then t :: l else x :: insert_sorted t r
  end.
Definition sort_timestamps (l : list Z) : list Z := foldr insert_sorted [] l.

Definition Chain_MedianTimePastLocked (chain : list block) : Z :=
  let span := Nat.min (length chain) MEDIAN_TIME_SPAN in
  let samples := map (fun b => timestamp (header b)) (take span (rev chain)) in
  if (length samples =? 0)%nat then 0
  else nth (length samples / 2) (sort_timestamps samples) 0.

Definition Chain_IsInitialBlockDownload (chain : list block) (now : Z) : bool :=
  if (length chain =? 0)%nat then true
  else
    let medianTime := Chain_MedianTimePastLocked chain in
    if (medianTime =? 0) || (now <=? medianTime) then false
    else
      let ageMs := now - medianTime in
      let thresholdMs := IBD_TIP_AGE_BLOCKS * TARGET_BLOCK_TIME * 1000 in
      thresholdMs <? ageMs.

(** ** Replacing a branch *)

(** Numbers, parents and loaded transactions of a candidate branch. *)
Fixpoint branch_links (height : Z) (expectedPrevHash : bytes) (newBlocks : list block) : bool :=
  match newBlocks with
  | [] => true
  | b :: r =>
      match transactions b with
      | None => false
      | Some _ =>
          if negb (blockNumber (header b) =? height) then false
          else if negb (memeq (prevHash (header b)) expectedPrevHash) then false
          else branch_links (height + 1) (Block_CalculateHash b) r
      end
  end.

Definition Chain_BranchIsLinkedLocked (chain : list block) (forkHeight : nat) (newBlocks : list block) : bool :=
  if (length newBlocks =? 0)%nat || (forkHeight =? 0)%nat then false
  else match chain !! (forkHeight - 1)%nat with
       | None => false
       | Some parent => branch_links (Z.of_nat forkHeight) (Block_CalculateHash parent) newBlocks
       end.

(** The delayed-submission rule: has the branch served its penalty? *)
Definition penalty_served (tipCount forkHeight count : nat) (observedAtTipHeight : Z) : bool :=
  let tipHeight := if (0 <? tipCount)%nat then Z.of_nat tipCount - 1 else 0 in
  let observedTip := if tipHeight <? observedAtTipHeight then tipHeight else observedAtTipHeight in
  let depth := if Z.of_nat forkHeight <=? observedTip then observedTip - Z.of_nat forkHeight + 1 else 1 in
  let penalty := FetchScheduler_ComputeReorgPenaltyBlocks depth in
  let localGrowth := if observedTip <=? tipHeight then tipHeight - observedTip else 0 in
  let candidateTip := Z.of_nat forkHeight + Z.of_nat count - 1 in
  let branchLead := if tipHeight <? candidateTip then candidateTip - tipHeight else 0 in
  let elapsed := if branchLead <? localGrowth then localGrowth else branchLead in
  penalty <=? elapsed.

(** Strictly more work than the blocks it replaces. *)
Definition heavier (chain : list block) (forkHeight : nat) (newBlocks : list block) : bool :=
  match Chain_ComputeWorkRange chain forkHeight (length chain), Chain_ComputeBranchWork newBlocks with
  | Some incumbentWork, Some candidateWork => 0 <? uint256_cmp candidateWork incumbentWork
  | _, _ => false
  end.

(** Copies of the blocks about to be discarded, transactions included. *)
Fixpoint snapshot_blocks (st : node) (i n : nat) : option (list block) :=
  match n with
  | O => Some []
  | S m =>
      txs ← Chain_BorrowBlockTransactions st i;
      hdr ← (match blocks st !! i ≫= transactions with
             | Some _ => header <$> blocks st !! i
             | None => '(b, _) ← Chain_LoadBlockFromFile (g_files st) (Z.of_nat i) true; Some (header b)
             end);
      r ← snapshot_blocks st (S i) m;
      Some (mkBlock hdr (Some txs) :: r)
  end.

(** Append blocks until one is refused. *)
Fixpoint apply_blocks (st : node) (l : list block) : bool * node :=
  match l with
  | [] => (true, st)
  | b :: r => let '(ok, st) := Chain_AddBlockLocked st b in if ok then apply_blocks st r else (false, st)
  end.

(** The decision part: is the swap to be attempted? *)
Definition branch_wins (st : node) (forkHeight : nat) (newBlocks : list block) (observedAtTipHeight : Z)
    (bypassPenalty : bool) (now : Z) : bool :=
  let tipCount := length (blocks st) in
  (forkHeight <=? tipCount)%nat &&
  Chain_BranchIsLinkedLocked (blocks st) forkHeight newBlocks &&
  (bypassPenalty || Chain_IsInitialBlockDownload (blocks st) now || (tipCount <=? forkHeight)%nat ||
   penalty_served tipCount forkHeight (length newBlocks) observedAtTipHeight) &&
  heavier (blocks st) forkHeight newBlocks.

(** The swap itself, with the restore on a failed apply. *)
Definition swap_branch (st : node) (forkHeight : nat) (snapshot newBlocks : list block) : bool * node :=
  let '(rolled, st) := Chain_RollbackToHeightLocked st forkHeight in
  if negb rolled then (false, st)
  else
    let '(applied, st) := apply_blocks st newBlocks in
    if applied then (true, st)
    else
      let '(rolled, st) := Chain_RollbackToHeightLocked st forkHeight in
      if negb rolled then (false, st)
      else (false, snd (apply_blocks st snapshot)).

Definition Chain_ReplaceBranch (st : node) (forkHeight : nat) (newBlocks : list block) (observedAtTipHeight : Z)
    (bypassPenalty : bool) (now : Z) : bool * node :=
  if (length newBlocks =? 0)%nat || (forkHeight =? 0)%nat then (false, st)
  else
    let '(ok, st') :=
      if negb (branch_wins st forkHeight newBlocks observedAtTipHeight bypassPenalty now) then (false, st)
      else match snapshot_blocks st forkHeight (length (blocks st) - forkHeight) with
           | None => (false, st)
           | Some snapshot => swap_branch st forkHeight snapshot (map Block_Copy newBlocks)
           end in
    (ok, Chain_OnTipAdvanced st').

(** ** Saving *)

Definition node_save (st : node) : bool * node :=
  let '(ok, files, chain) := Chain_SaveToFile (g_files st) (blocks st) (g_currentSupply st) (g_currentReward st) in
  (ok, mkNode chain (dagEpochs st) (g_sheetMap st) (g_txMempool st) (g_currentSupply st) (g_currentReward st)
         (g_currentBlockHeight st) (g_difficultyTarget st) files (g_pow st)).
End Operations.
