(* ===== verification/ChainInvariant.v ===== *)
(** * What every reachable node satisfies

    Two invariants of [chain.c]'s state machine, proved by induction over its operations.  The
    header-level one: numbers, parent hashes, targets and proofs of work are right at every height,
    whatever blocks peers supply and whether operations succeed or fail.  The ledger-level one: the
    balance sheet is exactly what the chain's transactions produce, the supply counter is the sum of
    the coinbases, and no payment occurs twice. *)
From S2P Require Import Prelude Bytes UInt256 Utils Crypto Transaction Autolykos2 Block Emission.
From S2P Require Import BalanceSheet Ledger Difficulty DagEpochs Mempool Storage Chain.

(** ** Header functions ignore the transactions in memory *)

Lemma lookup_compact l i : map compact l !! i = compact <$> l !! i.
Proof. apply list_lookup_fmap. Qed.

Section Headers.
Context {ops : CryptoOps}.

Lemma hash_compact b : Block_CalculateHash (compact b) = Block_CalculateHash b.
Proof. reflexivity. Qed.

Lemma ComputeTarget_compact l h t :
  Chain_ComputeTargetAtHeight (map compact l) h t = Chain_ComputeTargetAtHeight l h t.
Proof.
  unfold Chain_ComputeTargetAtHeight. rewrite length_map, !lookup_compact.
  by destruct (l !! Z.to_nat (h - 1)), (l !! Z.to_nat (h - DIFFICULTY_ADJUSTMENT_INTERVAL)).
Qed.

Lemma target_loop_compact n l k t : target_loop n (map compact l) k t = target_loop n l k t.
Proof. revert k t; induction n as [|n IH]; intros k t; cbn [target_loop]; [done|]. by rewrite ComputeTarget_compact, IH. Qed.

Lemma GetTarget_compact l h : Chain_GetTargetForHeight (map compact l) h = Chain_GetTargetForHeight l h.
Proof. apply target_loop_compact. Qed.

Lemma count_votes_compact l a b : count_votes (map compact l) a b = count_votes l a b.
Proof. revert a b; induction l as [|x l IH]; intros a b; cbn [map count_votes]; [done|]. by rewrite !IH. Qed.

Lemma epoch_votes_compact l p : epoch_votes (map compact l) p = epoch_votes l p.
Proof. unfold epoch_votes. rewrite skipn_map, firstn_map. apply count_votes_compact. Qed.

Lemma epoch_down_compact l p : epoch_down (map compact l) p = epoch_down l p.
Proof. unfold epoch_down. by rewrite epoch_votes_compact. Qed.

Lemma dag_size_compact l k : dag_size (map compact l) k = dag_size l k.
Proof.
  induction k as [|p IH]; [done|]. cbn [dag_size]. unfold epoch_brake. rewrite IH, epoch_votes_compact, epoch_down_compact.
  destruct p; [done|]. by rewrite epoch_down_compact.
Qed.

Lemma dag_params_compact l h : dag_params (map compact l) h = dag_params l h.
Proof.
  unfold dag_params, Chain_EpochDagSeedForHeightLocked. rewrite length_map, dag_size_compact, lookup_compact.
  destruct (_ <? _)%nat; [done|]. destruct (_ =? 0); [done|]. destruct (_ <=? _); [done|].
  by destruct (l !! _).
Qed.

Lemma coherent_compact l c : coherent (map compact l) c <-> coherent l c.
Proof.
  unfold coherent. rewrite length_map. split; intros (H1 & H2 & H3); (split; [|split; [|done]]).
  - intros i e Hi. rewrite <- dag_size_compact. by apply H1.
  - intros i e Hi Hl. rewrite <- epoch_down_compact. by apply H2.
  - intros i e Hi. rewrite dag_size_compact. by apply H1.
  - intros i e Hi Hl. rewrite epoch_down_compact. by apply H2.
Qed.

Lemma links_to_tip_compact l b : links_to_tip (map compact l) (compact b) = links_to_tip l b.
Proof.
  unfold links_to_tip. rewrite length_map, lookup_compact. cbn [compact header].
  destruct (blockNumber (header b) =? Z.of_nat (length l)); cbn [andb]; [|done].
  destruct (0 <? length l)%nat; [|done]. by destruct (l !! (length l - 1)%nat).
Qed.

(** ** The consensus rules for one block on top of a chain *)

(** The light-path verdict. *)
Definition pow_light (b : block) (dagBytes : Z) (seed : bytes) : bool :=
  match DecodeCompactTarget (difficultyTarget (header b)), Block_PowHashLight b dagBytes seed with
  | Some target, Some h => Uint256_CompareBE h target <=? 0
  | _, _ => false
  end.

Definition extends (pre : list block) (b : block) : Prop :=
  links_to_tip pre b = true /\
  difficultyTarget (header b) = Chain_GetTargetForHeight pre (Z.of_nat (length pre)) /\
  exists dagBytes seed, dag_params pre (blockNumber (header b)) = Some (dagBytes, seed) /\ pow_light b dagBytes seed = true.

Definition consensus_ok (chain : list block) : Prop :=
  forall i b, chain !! i = Some b -> extends (take i chain) b.

Lemma extends_compact pre b : extends (map compact pre) (compact b) <-> extends pre b.
Proof. unfold extends. rewrite links_to_tip_compact, GetTarget_compact, length_map, dag_params_compact. done. Qed.

Lemma consensus_compact chain : consensus_ok (map compact chain) <-> consensus_ok chain.
Proof.
  split; intros H i b Hi.
  - rewrite <- extends_compact, <- firstn_map. apply H. by rewrite lookup_compact, Hi.
  - rewrite lookup_compact in Hi. destruct (chain !! i) as [b0|] eqn:E; [|done]. injection Hi as <-.
    rewrite firstn_map. by apply extends_compact, H.
Qed.

Lemma consensus_nil : consensus_ok [].
Proof. by intros i b Hi. Qed.

Lemma consensus_snoc chain b : consensus_ok chain -> extends chain b -> consensus_ok (chain ++ [b]).
Proof.
  intros Hc Hb i x Hi. destruct (Nat.lt_trichotomy i (length chain)) as [Hlt|[->|Hgt]].
  - rewrite lookup_app_l in Hi by done. rewrite take_app_le by lia. by apply Hc.
  - rewrite lookup_app_r, Nat.sub_diag in Hi by done. injection Hi as <-. by rewrite take_app_length.
  - apply lookup_lt_Some in Hi. rewrite length_app in Hi. cbn in Hi. lia.
Qed.

Lemma consensus_take n chain : consensus_ok chain -> consensus_ok (take n chain).
Proof.
  intros Hc i x Hi. pose proof (lookup_lt_Some _ _ _ Hi) as Hl. rewrite length_take in Hl.
  rewrite lookup_take_lt in Hi by lia. rewrite take_take, Nat.min_l by lia. by apply Hc.
Qed.

(** ** The header-level node invariant *)

Definition node_ok (st : node) : Prop :=
  consensus_ok (blocks st) /\ coherent (blocks st) (dagEpochs st) /\ pow_ok (g_pow st).

Context {laws : CryptoLaws ops}.

Lemma verdict_light p b e n s :
  pow_ok p -> Block_HasValidProofOfWorkWithParams p b e n s = pow_light b n s.
Proof.
  intros Hp. unfold Block_HasValidProofOfWorkWithParams, pow_light. destruct (DecodeCompactTarget _); [|done].
  destruct (Block_PowHashHeavy p b e n s) as [h|] eqn:E; [|done]. by rewrite (heavy_agrees p b e n s h Hp E).
Qed.

Lemma check_pow_spec st b :
  node_ok st ->
  exists c, coherent (blocks st) c /\ snd (check_pow st b) = set_dag st c /\
    (fst (check_pow st b) = true <->
     exists n s, dag_params (blocks st) (blockNumber (header b)) = Some (n, s) /\ pow_light b n s = true).
Proof.
  intros (_ & Hc & Hp). unfold check_pow.
  destruct (DagParams_spec (blocks st) (dagEpochs st) (blockNumber (header b)) Hc) as [E1 E2].
  destruct (Chain_DagParamsForHeightLocked _ _ _) as [params c]. cbn [fst snd] in *. subst params.
  exists c. split; [done|]. destruct (dag_params _ _) as [[n s]|]; cbn [fst snd].
  - split; [done|]. rewrite verdict_light by done. split; [by exists n, s|]. by intros (n' & s' & [= <- <-] & H).
  - split; [done|]. split; [done|]. by intros (? & ? & ? & _).
Qed.

(** Every outcome of an append: nothing but the memo table changed, or the block was pushed after
    passing all checks (and the flag is then the ledger pass's). *)
Lemma AddBlockLocked_cases st b :
  node_ok st ->
  exists c, coherent (blocks st) c /\
    (Chain_AddBlockLocked st b = (false, set_dag st c) \/
     Chain_AddBlockLocked st b = (false, st) \/
     exists txs expected, transactions b = Some txs /\ extends (blocks st) b /\
       admission (set_dag st c) b txs = Some expected /\
       Chain_AddBlockLocked st b = commit (set_dag st c) b txs expected).
Proof.
  intros Hok. unfold Chain_AddBlockLocked.
  destruct (check_pow_spec st b Hok) as (c & Hc & Es & Hpow). exists c. split; [done|].
  destruct (transactions b) as [txs|]; [|by right; left].
  destruct (links_to_tip (blocks st) b) eqn:El; cbn [negb]; [|by right; left].
  destruct (check_pow st b) as [ok st']. cbn [fst snd] in *. subst st'.
  destruct ok; cbn [negb]; [|by left]. cbn [blocks set_dag].
  destruct (Z.eqb_spec (difficultyTarget (header b)) (Chain_GetTargetForHeight (blocks st) (Z.of_nat (length (blocks st)))));
    cbn [negb]; [|by left].
  destruct (admission (set_dag st c) b txs) as [expected|] eqn:Ea; [|by left].
  right. right. exists txs, expected. split; [done|]. split; [|done].
  split; [done|]. split; [done|]. by apply Hpow.
Qed.

Lemma DagParamsForHeight_spec st h :
  node_ok st ->
  exists c, coherent (blocks st) c /\ snd (Chain_DagParamsForHeight st h) = set_dag st c /\
    fst (Chain_DagParamsForHeight st h) = dag_params (blocks st) h.
Proof.
  intros (_ & Hc & _). unfold Chain_DagParamsForHeight. destruct (DagParams_spec (blocks st) (dagEpochs st) h Hc) as [E1 E2].
  destruct (Chain_DagParamsForHeightLocked _ _ _) as [params c]. by exists c.
Qed.

(** ** Preservation *)

Lemma set_dag_ok st c : node_ok st -> coherent (blocks st) c -> node_ok (set_dag st c).
Proof. intros (H1 & _ & H3) Hc. by split. Qed.

Lemma AddBlockLocked_ok st b : node_ok st -> node_ok (snd (Chain_AddBlockLocked st b)).
Proof.
  intros Hok. destruct (AddBlockLocked_cases st b Hok) as (c & Hc & [->|[->|(txs & e & _ & Hx & _ & ->)]]).
  - by apply set_dag_ok.
  - done.
  - unfold commit. destruct (ledger_pass _ txs) as [ok m]. cbn [snd].
    destruct Hok as (H1 & _ & H3). split; [by apply consensus_snoc|]. split; [by apply coherent_app|done].
Qed.

Lemma AddBlock_ok st b : node_ok st -> node_ok (snd (Chain_AddBlock st b)).
Proof.
  intros Hok. unfold Chain_AddBlock. pose proof (AddBlockLocked_ok st b Hok) as H.
  destruct (Chain_AddBlockLocked st b) as [[|] st']; done.
Qed.

Lemma RollbackLocked_ok st h : node_ok st -> node_ok (snd (Chain_RollbackToHeightLocked st h)).
Proof.
  intros Hok. unfold Chain_RollbackToHeightLocked. destruct (_ <=? _)%nat; [done|].
  destruct (replay_blocks _ _ _ _) as [ok [s m]]. cbn [snd]. destruct Hok as (H1 & _ & H3).
  split; [by apply consensus_take|]. split; [apply coherent_nil|done].
Qed.

Lemma apply_blocks_ok st l : node_ok st -> node_ok (snd (apply_blocks st l)).
Proof.
  revert st; induction l as [|b r IH]; intros st Hok; cbn [apply_blocks]; [done|].
  pose proof (AddBlockLocked_ok st b Hok) as H. destruct (Chain_AddBlockLocked st b) as [[|] st']; [by apply IH|done].
Qed.

Lemma swap_branch_ok st h snap l : node_ok st -> node_ok (snd (swap_branch st h snap l)).
Proof.
  intros Hok. unfold swap_branch. pose proof (RollbackLocked_ok st h Hok) as H1.
  destruct (Chain_RollbackToHeightLocked st h) as [[|] st1]; cbn [negb snd] in *; [|done].
  pose proof (apply_blocks_ok st1 l H1) as H2. destruct (apply_blocks st1 l) as [[|] st2]; cbn [snd] in *; [done|].
  pose proof (RollbackLocked_ok st2 h H2) as H3.
  destruct (Chain_RollbackToHeightLocked st2 h) as [[|] st3]; cbn [negb snd] in *; [|done].
  by apply apply_blocks_ok.
Qed.

Lemma ReplaceBranch_ok st f l o bp now : node_ok st -> node_ok (snd (Chain_ReplaceBranch st f l o bp now)).
Proof.
  intros Hok. unfold Chain_ReplaceBranch. destruct (_ || _); [done|].
  set (r := if negb _ then _ else _). assert (Hr : node_ok (snd r)).
  { subst r. destruct (negb _); [done|]. destruct (snapshot_blocks _ _ _) as [snap|]; [by apply swap_branch_ok|done]. }
  clearbody r. by destruct r as [ok st'].
Qed.

Lemma save_loop_compact old i bc l : map compact (snd (fst (fst (save_loop old i bc l)))) = map compact l.
Proof.
  revert i bc; induction l as [|b r IH]; intros i bc; cbn [save_loop]; [done|].
  destruct (disk_copy old i b) as [[h [t|]]|]; [|done..].
  match goal with |- context [save_loop old (i + 1) ?x r] => specialize (IH (i + 1) x); destruct (save_loop old (i + 1) x r) as [[[ok r'] d] tb] end.
  cbn [fst snd map] in *. by rewrite IH.
Qed.

Lemma same_headers_ok st st' :
  node_ok st -> map compact (blocks st') = map compact (blocks st) -> dagEpochs st' = dagEpochs st -> g_pow st' = g_pow st ->
  node_ok st'.
Proof.
  intros (H1 & H2 & H3) Eb Ed Ep. unfold node_ok. rewrite Ed, Ep.
  rewrite <- consensus_compact, <- coherent_compact, Eb, consensus_compact, coherent_compact. done.
Qed.

Lemma node_save_ok st : node_ok st -> node_ok (snd (node_save st)).
Proof.
  intros Hok. unfold node_save, Chain_SaveToFile. pose proof (save_loop_compact (g_files st) 0 0 (blocks st)) as Hc.
  destruct (save_loop (g_files st) 0 0 (blocks st)) as [[[ok l] d] t]. cbn [fst snd] in Hc.
  destruct ok; cbn [negb]; [destruct (tip_fields (blocks st))|]; cbn [snd]; by eapply same_headers_ok.
Qed.

(** ** The node's transitions *)

(** The pool is filled and pruned by the node between chain operations. *)
Definition set_pool (st : node) (pool : mempool) : node :=
  mkNode (blocks st) (dagEpochs st) (g_sheetMap st) pool (g_currentSupply st) (g_currentReward st)
    (g_currentBlockHeight st) (g_difficultyTarget st) (g_files st) (g_pow st).

Definition set_pow (st : node) (p : pow_state) : node :=
  mkNode (blocks st) (dagEpochs st) (g_sheetMap st) (g_txMempool st) (g_currentSupply st) (g_currentReward st)
    (g_currentBlockHeight st) (g_difficultyTarget st) (g_files st) p.

(** The node before genesis. *)
Definition node_init (files : option chain_files) (reward : Z) : node :=
  mkNode [] [] BalanceSheet_Init TxMempool_Init (uint256_from_u64 0) reward 0 INITIAL_DIFFICULTY files pow_init.

Inductive node_step : node -> node -> Prop :=
| step_add st b : node_step st (snd (Chain_AddBlock st b))
| step_rollback st h : node_step st (snd (Chain_RollbackToHeight st h))
| step_replace st f l o bp now : node_step st (snd (Chain_ReplaceBranch st f l o bp now))
| step_recompute st : node_step st (snd (Chain_RecomputeRuntimeState st))
| step_save st : node_step st (snd (node_save st))
| step_wipe st : node_step st (Chain_Wipe st)
| step_pow st p : pow_step (g_pow st) p -> node_step st (set_pow st p)
| step_dag st h : node_step st (snd (Chain_DagParamsForHeight st h))
| step_pool st pool : mempool_step (g_txMempool st) pool -> node_step st (set_pool st pool).

(** What a running node does to its chain: it appends, swaps branches, saves, and keeps its pool and
    DAG.  It never rolls back on its own, recomputes or wipes. *)
Inductive live_step : node -> node -> Prop :=
| live_add st b : live_step st (snd (Chain_AddBlock st b))
| live_replace st f l o bp now : live_step st (snd (Chain_ReplaceBranch st f l o bp now))
| live_save st : live_step st (snd (node_save st))
| live_pow st p : pow_step (g_pow st) p -> live_step st (set_pow st p)
| live_dag st h : live_step st (snd (Chain_DagParamsForHeight st h))
| live_pool st pool : mempool_step (g_txMempool st) pool -> live_step st (set_pool st pool).

Lemma live_node_step st st' : live_step st st' -> node_step st st'.
Proof. by destruct 1; constructor. Qed.

Lemma live_node_steps st st' : rtc live_step st st' -> rtc node_step st st'.
Proof. apply rtc_subrel. exact live_node_step. Qed.

Lemma node_step_ok st st' : node_step st st' -> node_ok st -> node_ok st'.
Proof.
  intros Hs Hok. destruct Hs as [st b|st h|st f l o bp now|st|st|st|st p Hp|st h|st pool _]; [..|exact Hok].
  - by apply AddBlock_ok.
  - unfold Chain_RollbackToHeight. pose proof (RollbackLocked_ok st h Hok) as H.
    by destruct (Chain_RollbackToHeightLocked st h).
  - by apply ReplaceBranch_ok.
  - unfold Chain_RecomputeRuntimeState. by destruct (rebuild_supply _ _ _ _).
  - by apply node_save_ok.
  - split; [apply consensus_nil|]. split; [apply coherent_nil|apply Hok].
  - destruct Hok as (H1 & H2 & H3). split; [done|]. split; [done|]. cbn [g_pow set_pow].
    destruct Hp; [by apply ensure_ok|by intros ?].
  - destruct (DagParamsForHeight_spec st h Hok) as (c & Hc & -> & _). by apply set_dag_ok.
Qed.

Lemma node_reachable_ok files reward st : rtc node_step (node_init files reward) st -> node_ok st.
Proof.
  intros Hr. assert (H0 : node_ok (node_init files reward)).
  { split; [apply consensus_nil|]. split; [apply coherent_nil|by intros ?]. }
  revert H0. induction Hr as [|x y z Hs _ IH]; [done|]. intros Hx. by apply IH, (node_step_ok x y).
Qed.

(** ** From the invariant to [Chain_IsValid] *)

Lemma links_from_ok chain i prev r :
  consensus_ok chain -> chain !! i = Some prev -> drop (S i) chain = r -> links_from (Z.of_nat (S i)) prev r = true.
Proof.
  intros Hc. revert i prev; induction r as [|b r IH]; intros i prev Hp Hd; cbn [links_from]; [done|].
  assert (Hb : chain !! S i = Some b) by (rewrite <- (Nat.add_0_r (S i)), <- lookup_drop, Hd; done).
  destruct (Hc _ _ Hb) as (Hl & _). unfold links_to_tip in Hl.
  pose proof (lookup_lt_Some _ _ _ Hb) as Hlt. rewrite length_take, Nat.min_l in Hl by lia.
  apply andb_true_iff in Hl as [Hn Hh]. rewrite Hn. cbn [negb Nat.ltb Nat.leb] in *.
  replace (S i - 1)%nat with i in Hh by lia. rewrite lookup_take_lt, Hp in Hh by lia.
  apply memeq_true in Hh. rewrite (proj2 (memeq_true _ _)) by congruence. cbn [negb].
  replace (Z.of_nat (S i) + 1) with (Z.of_nat (S (S i))) by lia. apply IH; [done|].
  rewrite <- (drop_drop chain (S i) 1)  || rewrite <- Nat.add_1_r, <- drop_drop. by rewrite Hd.
Qed.

Lemma consensus_valid chain : consensus_ok chain -> Chain_IsValid chain = true.
Proof.
  intros Hc. destruct chain as [|g r]; [done|]. cbn [Chain_IsValid].
  change 1 with (Z.of_nat 1). rewrite (links_from_ok (g :: r) 0 g r Hc eq_refl eq_refl).
  destruct (Hc 0%nat g eq_refl) as (Hl & _). unfold links_to_tip in Hl. apply andb_true_iff in Hl as [Hn _]. exact Hn.
Qed.
End Headers.

(** ** Ledgers of whole chains *)

Definition all_txs (L : list full_block) : list signed_transaction := concat (map snd L).

Lemma all_txs_snoc L p : all_txs (L ++ [p]) = all_txs L ++ p.2.
Proof. unfold all_txs. rewrite map_app, concat_app. cbn. by rewrite app_nil_r. Qed.

(** [ledger_valid L m]: the full blocks [L], each admitted on the sheet before it, produce [m]. *)
Inductive ledger_valid : list full_block -> sheet -> Prop :=
| lv_nil : ledger_valid [] BalanceSheet_Init
| lv_snoc L m hdr txs m' :
    ledger_valid L m -> full_ok (hdr, txs) -> Forall tx_admitted txs -> Forall second_output_ok txs ->
    solvent (bal m) txs -> in_order (last_ts m) txs -> coinbase_sum txs < 2 ^ 64 ->
    Z.of_nat (length L) < 2 ^ 64 -> ledger_pass m txs = (true, m') ->
    ledger_valid (L ++ [(hdr, txs)]) m'.

Lemma ledger_pass_app m a b :
  ledger_pass m (a ++ b) = let '(ok, m1) := ledger_pass m a in if ok then ledger_pass m1 b else (false, m1).
Proof.
  revert m; induction a as [|tx a IH]; intros m; cbn [app ledger_pass]; [done|].
  destruct (ledger_tx m tx) as [[|] m1]; [apply IH|done].
Qed.

Lemma coinbase_sum_app a b : coinbase_sum (a ++ b) = coinbase_sum a + coinbase_sum b.
Proof. induction a as [|tx a IH]; [done|]. cbn [app]. rewrite !coinbase_sum_cons, IH. lia. Qed.

Lemma fee_sum_app a b : fee_sum (a ++ b) = fee_sum a + fee_sum b.
Proof. induction a as [|tx a IH]; [done|]. cbn [app]. rewrite !fee_sum_cons, IH. lia. Qed.

Lemma in_order_app g a b : in_order g (a ++ b) <-> in_order g a /\ in_order (fun x => block_guard a (g x) x) b.
Proof.
  revert g; induction a as [|tx a IH]; intros g; cbn [app in_order]; [by unfold block_guard; cbn; intuition|].
  rewrite IH. unfold block_guard. cbn [fold_left]. intuition.
Qed.

(** Everything a valid ledger gives. *)
Lemma ledger_valid_facts L m :
  ledger_valid L m ->
  Forall full_ok L /\ Forall tx_admitted (all_txs L) /\ ledger_pass BalanceSheet_Init (all_txs L) = (true, m) /\
  sheet_ok m /\ total m = coinbase_sum (all_txs L) - fee_sum (all_txs L) /\
  0 <= coinbase_sum (all_txs L) <= 2 ^ 64 * Z.of_nat (length L) /\ 0 <= fee_sum (all_txs L) /\
  Z.of_nat (length L) <= 2 ^ 64 /\ (forall x, last_ts m x = block_guard (all_txs L) 0 x) /\
  in_order (fun _ => 0) (all_txs L).
Proof.
  induction 1 as [|L m hdr txs m' _ IH Hf Had Hso Hsol Hord Hcb Hlen Hp].
  { split; [constructor|]. split; [constructor|]. split; [done|]. split; [apply map_Forall_empty|].
    split; [done|]. split; [cbn; lia|]. split; [cbn; lia|]. split; [cbn; lia|]. split; [done|done]. }
  destruct IH as (F1 & F2 & F3 & F4 & F5 & F6 & F7 & F8 & F9 & F10). rewrite all_txs_snoc. cbn [snd].
  assert (Hst : Forall stx_ok txs) by apply Hf. pose proof (coinbase_sum_nonneg txs Hst) as Hc0.
  pose proof (fee_sum_nonneg txs Hst) as Hf0.
  destruct (ledger_pass_spec m txs F4 Had Hso Hsol) as (m1 & E1 & (S1 & S2 & S3) & S4).
  { assert (HM : 2 ^ 64 * 2 ^ 64 + 2 ^ 64 < M256) by reflexivity. nia. }
  rewrite Hp in E1. injection E1 as <-. rewrite block_mint_eq in S3.
  rewrite coinbase_sum_app, fee_sum_app, length_app. cbn [length].
  split; [apply Forall_app; auto|]. split; [by apply Forall_app|].
  split; [by rewrite ledger_pass_app, F3|]. split; [done|]. split; [lia|]. split; [lia|]. split; [lia|].
  split; [lia|]. split.
  - intros x. rewrite S4, F9. unfold block_guard. by rewrite fold_left_app.
  - apply in_order_app. split; [done|]. revert Hord. apply in_order_ext. intros x. by rewrite F9.
Qed.

Lemma ledger_valid_take L m n : ledger_valid L m -> exists m', ledger_valid (take n L) m'.
Proof.
  intros H. revert n. induction H as [|L m hdr txs m' Hl IH ? ? ? ? ? ? ? ?]; intros n.
  { exists BalanceSheet_Init. rewrite firstn_nil. constructor. }
  destruct (Nat.le_gt_cases n (length L)).
  - rewrite take_app_le by done. apply IH.
  - exists m'. rewrite take_ge by (rewrite length_app; cbn; lia). by eapply lv_snoc.
Qed.

(** The replay of a valid ledger rebuilds its sheet and supply. *)
Lemma replay_valid L m :
  ledger_valid L m ->
  exists s, replay_txs (uint256_from_u64 0, BalanceSheet_Init) (all_txs L) = (s, m) /\ uint256_ok s /\
    val s = coinbase_sum (all_txs L).
Proof.
  intros H. destruct (ledger_valid_facts L m H) as (_ & F2 & F3 & _ & _ & F6 & _ & F8 & _).
  rewrite (replay_txs_eq _ _ _ m F2 F3). eexists. split; [done|].
  destruct (replay_supply_val (uint256_from_u64 0) (all_txs L)) as [O V].
  - eapply Forall_impl; [|exact F2]. by intros t (? & _).
  - apply from_u64_ok. vm_decide.
  - rewrite val_from_u64. assert (HM : 2 ^ 64 * 2 ^ 64 < M256) by reflexivity. nia.
  - split; [done|]. by rewrite V, val_from_u64.
Qed.

(** ** Recoverability: the transactions of every block are in memory or on disk *)

Definition recovers (l : list block) (files : option chain_files) (L : list full_block) : Prop :=
  length L = length l /\
  forall i p, L !! i = Some p -> exists b, l !! i = Some b /\ header b = p.1 /\
    disk_copy files (Z.of_nat i) b = Some (mkBlock p.1 (Some p.2)).

Lemma borrow_recovers st L i p :
  recovers (blocks st) (g_files st) L -> L !! i = Some p -> Chain_BorrowBlockTransactions st i = Some p.2.
Proof.
  intros [_ H] Hi. destruct (H i p Hi) as (b & Hb & _ & Hd). unfold Chain_BorrowBlockTransactions.
  rewrite Hb. cbn [mbind option_bind]. unfold disk_copy in Hd. destruct (transactions b) as [t|] eqn:Et.
  - injection Hd as ->. cbn [transactions] in Et. congruence.
  - destruct (Chain_LoadBlockFromFile _ _ _) as [[d n]|]; cbn [mbind option_bind] in *; [|done]. by injection Hd as ->.
Qed.

Lemma recovers_snoc l files L b txs :
  recovers l files L -> transactions b = Some txs -> recovers (l ++ [b]) files (L ++ [(header b, txs)]).
Proof.
  intros [Hl H] Ht. split; [rewrite !length_app; cbn; lia|]. intros i p Hi.
  destruct (Nat.lt_trichotomy i (length L)) as [Hlt|[->|Hgt]].
  - rewrite lookup_app_l in Hi by done. rewrite lookup_app_l by lia. by apply H.
  - rewrite lookup_app_r, Nat.sub_diag in Hi by done. injection Hi as <-. exists b.
    rewrite lookup_app_r, Hl, Nat.sub_diag by lia. split; [done|]. split; [done|]. unfold disk_copy. rewrite Ht.
    cbn [fst snd]. rewrite <- Ht. by destruct b.
  - apply lookup_lt_Some in Hi. rewrite length_app in Hi. cbn in Hi. lia.
Qed.

Lemma recovers_take l files L n : recovers l files L -> recovers (take n l) files (take n L).
Proof.
  intros [Hl H]. split; [rewrite !length_take; lia|]. intros i p Hi.
  pose proof (lookup_lt_Some _ _ _ Hi) as Hlt. rewrite length_take in Hlt.
  rewrite lookup_take_lt in Hi by lia. rewrite lookup_take_lt by lia. by apply H.
Qed.

Lemma recovers_resolve l files L n k :
  recovers l files L -> (n + k = length L)%nat -> resolve_all files (Z.of_nat k) (drop k l) = Some (drop k L).
Proof.
  intros HR. pose proof HR as [Hl H]. revert k; induction n as [|n IH]; intros k Hn; [by rewrite !drop_ge by lia|].
  destruct (lookup_lt_is_Some_2 L k ltac:(lia)) as [p Hp]. destruct (H k p Hp) as (b & Hb & _ & Hd).
  rewrite (drop_S l b k Hb), (drop_S L p k Hp). cbn [resolve_all]. rewrite Hd.
  replace (Z.of_nat k + 1) with (Z.of_nat (S k)) by lia. rewrite IH by lia. cbn [mbind option_bind]. by destruct p.
Qed.

Lemma recovers_saved l files L f :
  recovers l files L -> files_hold f L -> recovers (map compact l) (Some f) L.
Proof.
  intros [Hl H] Hf. split; [by rewrite length_map|]. intros i p Hi. destruct (H i p Hi) as (b & Hb & Eh & _).
  exists (compact b). rewrite lookup_compact, Hb. split; [done|]. split; [done|].
  unfold disk_copy. cbn [transactions compact]. by rewrite (LoadBlock_saved f L i p true Hf Hi).
Qed.

(** ** The ledger-level node invariant *)

Section LedgerLevel.
Context {ops : CryptoOps} {laws : CryptoLaws ops}.

Definition ledger_ok (st : node) (L : list full_block) : Prop :=
  ledger_valid L (g_sheetMap st) /\ recovers (blocks st) (g_files st) L /\
  uint256_ok (g_currentSupply st) /\ val (g_currentSupply st) = coinbase_sum (all_txs L).

(** A block in range without the malformed second output. *)
Definition good_block (b : block) : Prop :=
  block_ok b /\ forall txs, transactions b = Some txs -> Forall second_output_ok txs.

Lemma admit_inv st b txs expected :
  transactions b = Some txs -> admission st b txs = Some expected ->
  exists fees, length (fst (BalanceSheet_SelectSpendableTransactions (g_sheetMap st) txs)) = length (noncoinbase txs) /\
    Block_ValidateCoinbaseAndFees b expected = Some fees /\ in_order (last_ts (g_sheetMap st)) txs /\
    expected = g_currentReward st +u64 fees /\ g_currentReward st + fees <= UINT64_MAX.
Proof.
  intros Et. unfold admission, expected_coinbase. destruct (length txs =? 0)%nat; [done|].
  destruct (BalanceSheet_SelectSpendableTransactions (g_sheetMap st) txs) as [sp tf].
  destruct (Nat.eqb_spec (length sp) (length (noncoinbase txs))); cbn [negb mbind option_bind]; [|done].
  destruct (Z.ltb_spec (UINT64_MAX - g_currentReward st) tf) as [|Hle]; cbn [mbind option_bind]; [done|].
  destruct (Block_ValidateCoinbaseAndFees b (g_currentReward st +u64 tf)) as [obs|] eqn:Ev; cbn [mbind option_bind]; [|done].
  destruct (Z.eqb_spec obs tf) as [->|]; cbn [negb]; [|done].
  destruct (Chain_BlockRespectsSenderOrdering (g_sheetMap st) (transactions b)) eqn:Eo; cbn [negb]; [|done].
  intros [= <-]. exists tf. split; [done|]. split; [done|]. split; [|split; [done|lia]].
  rewrite Et in Eo. by apply ordering_loop_iff in Eo.
Qed.

Lemma ledger_room L m : ledger_valid L m -> total m + 2 ^ 64 < M256.
Proof.
  intros H. destruct (ledger_valid_facts L m H) as (_ & _ & _ & _ & -> & F6 & F7 & F8 & _).
  assert (HM : 2 ^ 64 * 2 ^ 64 + 2 ^ 64 < M256) by reflexivity. nia.
Qed.

(** An admitted good block commits, and extends the ledger. *)
Lemma commit_ok st L b txs expected :
  ledger_ok st L -> good_block b -> transactions b = Some txs -> links_to_tip (blocks st) b = true ->
  admission st b txs = Some expected ->
  exists st', commit st b txs expected = (true, st') /\ ledger_ok st' (L ++ [(header b, txs)]) /\
    blocks st' = blocks st ++ [b] /\ total (g_sheetMap st') = total (g_sheetMap st) + (expected - fee_sum txs) /\
    val (g_currentSupply st') = val (g_currentSupply st) + expected.
Proof.
  intros (HL & HR & Hs & Hv) [Hb Hso] Et Hlink Ha. destruct (admit_inv st b txs expected Et Ha) as (fees & Hsel & Hval & Hord & _).
  pose proof (ledger_valid_facts _ _ HL) as (_ & _ & _ & Hok & _ & F6 & _ & F8 & _).
  pose proof (ledger_room _ _ HL) as Hroom.
  destruct (admitted_facts _ b txs expected fees Hb Et Hok ltac:(lia) Hsel Hval) as (Had & Hsol & Hsum & ->).
  pose proof Hb as [Hh Hst]. rewrite Et in Hst. pose proof (coinbase_sum_nonneg txs Hst) as Hc0.
  assert (Hexp : expected < 2 ^ 64).
  { destruct (admit_inv st b txs expected Et Ha) as (? & _ & _ & _ & -> & _). apply u64_range. }
  assert (Hlen : Z.of_nat (length L) < 2 ^ 64).
  { destruct HR as [-> _]. unfold links_to_tip in Hlink. apply andb_true_iff in Hlink as [Hn _].
    apply Z.eqb_eq in Hn. destruct Hh as (Hn' & _). unfold_cint. lia. }
  destruct (ledger_pass_spec (g_sheetMap st) txs Hok Had (Hso _ Et) Hsol ltac:(lia)) as (m' & E & (S1 & S2 & S3) & _).
  rewrite block_mint_eq in S3.
  assert (HM : 2 ^ 64 * 2 ^ 64 + 2 ^ 64 < M256) by reflexivity.
  destruct (add_u64_no_overflow (g_currentSupply st) expected Hs) as (s' & Es & Os & Vs); [unfold_cint; lia|nia|].
  unfold commit. rewrite E, Es. cbn [fst]. eexists. split; [done|].
  split; [|split; [done|split; [cbn [g_sheetMap]; lia|exact Vs]]].
  split; [|split; [by apply recovers_snoc|split; [done|]]].
  - cbn [g_sheetMap]. by eapply lv_snoc; eauto; try lia.
  - cbn [g_currentSupply]. rewrite Vs, Hv, all_txs_snoc, coinbase_sum_app. cbn [snd]. lia.
Qed.

Lemma set_dag_ledger st c L : ledger_ok st L -> ledger_ok (set_dag st c) L.
Proof. done. Qed.

(** Appending: either nothing but the memo table changes, or the block is on the chain and in the
    ledger. *)
Lemma AddBlockLocked_ledger st L b :
  node_ok st -> ledger_ok st L -> good_block b ->
  (exists c, Chain_AddBlockLocked st b = (false, set_dag st c)) \/
  (exists st' txs expected, Chain_AddBlockLocked st b = (true, st') /\ transactions b = Some txs /\
     extends (blocks st) b /\ ledger_ok st' (L ++ [(header b, txs)]) /\ blocks st' = blocks st ++ [b] /\
     admission st b txs = Some expected /\ total (g_sheetMap st') = total (g_sheetMap st) + (expected - fee_sum txs) /\
     val (g_currentSupply st') = val (g_currentSupply st) + expected).
Proof.
  intros Hok HL Hb. destruct (AddBlockLocked_cases st b Hok) as (c & Hc & [E|[E|(txs & e & Et & Hx & Ha & E)]]).
  - left. by exists c.
  - left. exists (dagEpochs st). rewrite E. by destruct st.
  - right. destruct (commit_ok (set_dag st c) L b txs e (set_dag_ledger st c L HL) Hb Et (proj1 Hx) Ha)
      as (st' & Ec & H1 & H2 & H3 & H4).
    exists st', txs, e. rewrite E, Ec. repeat (split; [done|]). done.
Qed.

(** ** Rolling back *)

Lemma all_txs_cons p L : all_txs (p :: L) = p.2 ++ all_txs L.
Proof. reflexivity. Qed.

Lemma replay_blocks_spec st L n i acc :
  recovers (blocks st) (g_files st) L -> (n + i = length L)%nat ->
  replay_blocks st i n acc = (true, replay_txs acc (all_txs (drop i L))).
Proof.
  intros HR. revert i acc; induction n as [|n IH]; intros i acc Hn; cbn [replay_blocks].
  { rewrite drop_ge by lia. done. }
  destruct (lookup_lt_is_Some_2 L i ltac:(lia)) as [p Hp]. rewrite (borrow_recovers st L i p HR Hp).
  rewrite IH by lia. rewrite (drop_S L p i Hp), all_txs_cons. unfold replay_txs. by rewrite fold_left_app.
Qed.

Lemma RollbackLocked_ledger st L h :
  ledger_ok st L ->
  exists st', Chain_RollbackToHeightLocked st h = (true, st') /\ ledger_ok st' (take h L) /\
    blocks st' = take h (blocks st).
Proof.
  intros (HL & HR & Hs & Hv). unfold Chain_RollbackToHeightLocked. pose proof HR as [Hlen _].
  destruct (Nat.leb_spec (length (blocks st)) h) as [Hge|Hlt].
  { exists st. rewrite !take_ge by lia. split; [done|]. split; [|done]. exact (conj HL (conj HR (conj Hs Hv))). }
  destruct (ledger_valid_take L _ h HL) as [m HLh]. destruct (replay_valid _ _ HLh) as (s & Er & Os & Vs).
  set (st1 := mkNode (take h (blocks st)) _ _ _ _ _ _ _ _ _).
  assert (HR1 : recovers (blocks st1) (g_files st1) (take h L)) by (by apply recovers_take).
  rewrite (replay_blocks_spec st1 (take h L) (length (take h (blocks st))) 0 _ HR1)
    by (rewrite Nat.add_0_r, !length_take; lia).
  rewrite drop_0. rewrite Er. eexists. split; [done|]. split; [|done].
  split; [done|]. split; [done|]. by split.
Qed.

Lemma apply_blocks_ledger st L l :
  node_ok st -> ledger_ok st L -> Forall good_block l ->
  exists L', ledger_ok (snd (apply_blocks st l)) L' /\
    (fst (apply_blocks st l) = true -> blocks (snd (apply_blocks st l)) = blocks st ++ l).
Proof.
  intros Hok HL Hg; revert st L Hok HL; induction Hg as [|b r Hb _ IH]; intros st L Hok HL; cbn [apply_blocks].
  { exists L. split; [done|]. cbn. by rewrite app_nil_r. }
  pose proof (AddBlockLocked_ok st b Hok) as Hok'.
  destruct (AddBlockLocked_ledger st L b Hok HL Hb) as [[c E]|(st' & txs & e & E & _ & _ & HL' & Eb & _)]; rewrite E in *.
  - exists L. by split; [apply set_dag_ledger|].
  - destruct (IH st' _ Hok' HL') as (L' & H1 & H3). exists L'. split; [done|].
    intros Ht. rewrite (H3 Ht), Eb, <- app_assoc. done.
Qed.

(** ** Replacing a branch *)

Definition full (p : full_block) : block := mkBlock p.1 (Some p.2).

Lemma snapshot_spec st L n i :
  recovers (blocks st) (g_files st) L -> (n + i = length L)%nat -> snapshot_blocks st i n = Some (map full (drop i L)).
Proof.
  intros HR. revert i; induction n as [|n IH]; intros i Hn; cbn [snapshot_blocks]; [by rewrite drop_ge by lia|].
  destruct (lookup_lt_is_Some_2 L i ltac:(lia)) as [p Hp]. rewrite (borrow_recovers st L i p HR Hp). cbn [mbind option_bind].
  destruct HR as [Hl H]. destruct (H i p Hp) as (b & Hb & Eh & Hd). rewrite Hb. cbn [mbind option_bind].
  rewrite IH by lia. rewrite (drop_S L p i Hp). cbn [map].
  unfold disk_copy in Hd. destruct (transactions b) as [t|] eqn:Et.
  - cbn. by rewrite Eh.
  - destruct (Chain_LoadBlockFromFile _ _ _) as [[d k]|]; cbn [mbind option_bind] in *; [|done]. by injection Hd as ->.
Qed.

Lemma ledger_valid_good L m : ledger_valid L m -> Forall good_block (map full L).
Proof.
  induction 1 as [|L m hdr txs m' _ IH Hf _ Hso _ _ _ _ _]; [constructor|]. rewrite map_app. apply Forall_app. split; [done|].
  constructor; [|constructor]. split; [exact Hf|]. by intros t [= <-].
Qed.

Lemma swap_branch_ledger st L h l :
  node_ok st -> ledger_ok st L -> Forall good_block l ->
  exists L', ledger_ok (snd (swap_branch st h (map full (drop h L)) l)) L' /\
    (fst (swap_branch st h (map full (drop h L)) l) = true ->
     blocks (snd (swap_branch st h (map full (drop h L)) l)) = take h (blocks st) ++ l).
Proof.
  intros Hok HL Hg. unfold swap_branch. pose proof (RollbackLocked_ok st h Hok) as Hok1.
  destruct (RollbackLocked_ledger st L h HL) as (st1 & E1 & HL1 & Eb1). rewrite E1 in *. cbn [negb snd] in *.
  pose proof (apply_blocks_ok st1 l Hok1) as Hok2.
  destruct (apply_blocks_ledger st1 (take h L) l Hok1 HL1 Hg) as (L2 & HL2 & Eb2).
  destruct (apply_blocks st1 l) as [[|] st2]; cbn [fst snd] in *.
  { exists L2. split; [done|]. intros _. by rewrite Eb2, Eb1. }
  pose proof (RollbackLocked_ok st2 h Hok2) as Hok3.
  destruct (RollbackLocked_ledger st2 L2 h HL2) as (st3 & E3 & HL3 & _). rewrite E3 in *. cbn [negb snd fst] in *.
  assert (Hsnap : Forall good_block (map full (drop h L))).
  { rewrite <- skipn_map. apply Forall_drop. by apply (ledger_valid_good L (g_sheetMap st)), HL. }
  destruct (apply_blocks_ledger st3 _ (map full (drop h L)) Hok3 HL3 Hsnap) as (L4 & HL4 & _).
  by exists L4.
Qed.

Lemma copy_blocks l : map Block_Copy l = l.
Proof. induction l as [|b l IH]; [done|]. cbn [map]. rewrite IH. by destruct b. Qed.

Lemma ReplaceBranch_ledger st L f l o bp now :
  node_ok st -> ledger_ok st L -> Forall good_block l ->
  exists L', ledger_ok (snd (Chain_ReplaceBranch st f l o bp now)) L' /\
    (fst (Chain_ReplaceBranch st f l o bp now) = true ->
     branch_wins st f l o bp now = true /\ blocks (snd (Chain_ReplaceBranch st f l o bp now)) = take f (blocks st) ++ l) /\
    (branch_wins st f l o bp now = false -> blocks (snd (Chain_ReplaceBranch st f l o bp now)) = blocks st).
Proof.
  intros Hok HL Hg. unfold Chain_ReplaceBranch. destruct (_ || _); [by exists L|].
  destruct (branch_wins st f l o bp now) eqn:Ew; cbn [negb]; [|by exists L].
  assert (Hf : (f <= length L)%nat).
  { unfold branch_wins in Ew. repeat (apply andb_true_iff in Ew as [Ew _]). apply Nat.leb_le in Ew.
    destruct HL as (_ & [-> _] & _). done. }
  pose proof HL as (_ & HR & _). rewrite (snapshot_spec st L (length (blocks st) - f) f HR)
    by (destruct HR as [<- _]; lia).
  rewrite copy_blocks. destruct (swap_branch_ledger st L f l Hok HL Hg) as (L' & H1 & H2).
  exists L'. destruct (swap_branch st f (map full (drop f L)) l) as [ok st']. cbn [fst snd] in *.
  split; [exact H1|]. split; [|done]. intros Ht. split; [done|exact (H2 Ht)].
Qed.

(** ** Recomputing *)

Lemma add_coinbases_spec s txs :
  Forall stx_ok txs -> uint256_ok s -> val s + coinbase_sum txs < M256 -> add_coinbases s txs = Some (replay_supply s txs).
Proof.
  intros Hl; revert s; induction Hl as [|tx r Hx Hr IH]; intros s Hs Hlt; [done|]. rewrite coinbase_sum_cons in Hlt.
  cbn [add_coinbases]. unfold replay_supply. cbn [fold_left]. fold (is_coinbase tx).
  destruct (is_coinbase tx); [|by apply IH]. pose proof Hx as [(_ & _ & Ha & _) _].
  pose proof (coinbase_sum_nonneg r Hr).
  destruct (add_u64_no_overflow s _ Hs Ha) as (q & E & Hq & Vq); [lia|]. rewrite E. cbn [fst]. apply IH; [done|lia].
Qed.

Lemma rebuild_supply_spec st L n i s :
  recovers (blocks st) (g_files st) L -> Forall full_ok L -> (n + i <= length L)%nat -> uint256_ok s ->
  val s + coinbase_sum (all_txs (take n (drop i L))) < M256 ->
  rebuild_supply st i n s = Some (replay_supply s (all_txs (take n (drop i L)))).
Proof.
  intros HR Hf. revert i s; induction n as [|n IH]; intros i s Hn Hs Hlt; cbn [rebuild_supply]; [done|].
  destruct (lookup_lt_is_Some_2 L i ltac:(lia)) as [p Hp]. rewrite (borrow_recovers st L i p HR Hp). cbn [mbind option_bind].
  rewrite (drop_S L p i Hp) in *. cbn [take firstn] in *. rewrite all_txs_cons, coinbase_sum_app in *.
  assert (Hst : Forall stx_ok p.2) by (eapply Forall_lookup_1 in Hf; [apply Hf|done]).
  assert (Hn0 : 0 <= coinbase_sum (all_txs (take n (drop (S i) L)))).
  { apply coinbase_sum_nonneg. apply Forall_concat, Forall_map. apply Forall_take, Forall_drop.
    eapply Forall_impl; [|exact Hf]. by intros q [_ ?]. }
  destruct (replay_supply_val s p.2 Hst Hs ltac:(lia)) as [O V].
  rewrite add_coinbases_spec by (done || lia). cbn [mbind option_bind]. rewrite IH by (done || lia).
  unfold replay_supply. by rewrite fold_left_app.
Qed.

Lemma Recompute_ledger st L :
  ledger_ok st L -> exists st', Chain_RecomputeRuntimeState st = (true, st') /\ ledger_ok st' L /\
    g_currentSupply st' = g_currentSupply st.
Proof.
  intros (HL & HR & Hs & Hv). unfold Chain_RecomputeRuntimeState. pose proof HR as [<- _].
  pose proof (ledger_valid_facts _ _ HL) as (Hf & Had & _ & _ & _ & F6 & _ & F8 & _).
  assert (H0 : uint256_ok (uint256_from_u64 0)) by (apply from_u64_ok; vm_decide).
  assert (HM : 2 ^ 64 * 2 ^ 64 < M256) by reflexivity.
  rewrite (rebuild_supply_spec st L (length L) 0 _ HR Hf) by (done || (rewrite drop_0, firstn_all, val_from_u64; nia) || lia).
  rewrite drop_0, firstn_all. destruct (replay_supply_val (uint256_from_u64 0) (all_txs L)) as [O V].
  - eapply Forall_impl; [|exact Had]. by intros t (? & _).
  - done.
  - rewrite val_from_u64. nia.
  - rewrite val_from_u64, Z.add_0_l in V.
    assert (E : replay_supply (uint256_from_u64 0) (all_txs L) = g_currentSupply st) by (apply uint256_val_inj; [done|done|congruence]).
    rewrite E. eexists. split; [done|]. by split.
Qed.

(** ** Saving *)

Lemma node_save_ledger st L :
  ledger_ok st L -> Z.of_nat (length (data_of L)) <= LONG_MAX ->
  fst (node_save st) = true /\ ledger_ok (snd (node_save st)) L /\ blocks (snd (node_save st)) = map compact (blocks st).
Proof.
  intros (HL & HR & Hs & Hv) Hfit. unfold node_save.
  pose proof (ledger_valid_facts _ _ HL) as (Hf & _). pose proof HR as [Hlen _].
  pose proof (recovers_resolve (blocks st) (g_files st) L (length L) 0 HR ltac:(lia)) as Hres. rewrite !drop_0 in Hres.
  pose proof (save_spec (g_files st) (blocks st) L (g_currentSupply st) (g_currentReward st) Hres Hf Hfit) as Hsv.
  destruct (tip_fields (blocks st)) as [hash d]. destruct Hsv as [-> Hhold]. cbn [fst snd].
  split; [done|]. split; [|done]. split; [done|]. split; [|done]. cbn [blocks g_files].
  by eapply recovers_saved.
Qed.

(** ** Transitions on well-formed input *)

Inductive good_step : node -> node -> Prop :=
| good_add st b : good_block b -> good_step st (snd (Chain_AddBlock st b))
| good_rollback st h : good_step st (snd (Chain_RollbackToHeight st h))
| good_replace st f l o bp now : Forall good_block l -> good_step st (snd (Chain_ReplaceBranch st f l o bp now))
| good_recompute st : good_step st (snd (Chain_RecomputeRuntimeState st))
| good_save st :
    (forall L, resolve_all (g_files st) 0 (blocks st) = Some L -> Z.of_nat (length (data_of L)) <= LONG_MAX) ->
    good_step st (snd (node_save st))
| good_pow st p : pow_step (g_pow st) p -> good_step st (set_pow st p)
| good_dag st h : good_step st (snd (Chain_DagParamsForHeight st h))
| good_pool st pool : mempool_step (g_txMempool st) pool -> good_step st (set_pool st pool).

Lemma good_step_node_step st st' : good_step st st' -> node_step st st'.
Proof. by destruct 1; constructor. Qed.

Lemma good_step_ledger st st' L :
  good_step st st' -> node_ok st -> ledger_ok st L -> exists L', ledger_ok st' L'.
Proof.
  intros Hs Hok HL. destruct Hs as [st b Hb|st h|st f l o bp now Hl|st|st Hfit|st p Hp|st h|st pool _]; [..|by exists L].
  - unfold Chain_AddBlock.
    destruct (AddBlockLocked_ledger st L b Hok HL Hb) as [[c ->]|(st' & txs & e & -> & _ & _ & HL' & _)]; eauto.
  - unfold Chain_RollbackToHeight. destruct (RollbackLocked_ledger st L h HL) as (st' & -> & HL' & _). eauto.
  - destruct (ReplaceBranch_ledger st L f l o bp now Hok HL Hl) as (L' & H & _). eauto.
  - destruct (Recompute_ledger st L HL) as (st' & -> & HL' & _). eauto.
  - exists L. apply node_save_ledger; [done|]. apply Hfit. pose proof HL as (_ & HR & _).
    pose proof (recovers_resolve (blocks st) (g_files st) L (length L) 0 HR ltac:(lia)) as Hres. by rewrite !drop_0 in Hres.
  - by exists L.
  - exists L. destruct (DagParamsForHeight_spec st h Hok) as (c & _ & -> & _). by apply set_dag_ledger.
Qed.

(** Nodes reached from genesis on well-formed input: no block offered has a transaction with a second
    amount and no second recipient ([good_block]), and no save fails. *)
Definition reachable (st : node) : Prop := exists reward, is_u64 reward /\ rtc good_step (node_init None reward) st.

Lemma reachable_inv st : reachable st -> node_ok st /\ exists L, ledger_ok st L.
Proof.
  intros (reward & _ & Hr). assert (H0 : node_ok (node_init None reward) /\ exists L, ledger_ok (node_init None reward) L).
  { split; [split; [apply consensus_nil|]; split; [apply coherent_nil|by intros ?]|].
    exists []. split; [constructor|]. split; [by split|]. split; [apply from_u64_ok; vm_decide|done]. }
  revert H0. induction Hr as [|x y z Hs _ IH]; [done|]. intros [Hx [L HL]]. apply IH. split.
  - by apply (node_step_ok x y); [apply good_step_node_step|].
  - by eapply good_step_ledger.
Qed.
End LedgerLevel.
