(* ===== verification/History.v ===== *)
(** * The history of a chain: admission, rewards and the restoring of branches

    When a block was appended it was acceptable on the sheet below it for the reward of its height.
    The invariant [inv] records this along the chain, so that a branch taken off by a failed
    reorganisation can be put back.  Rewards are the delicate part: the schedule reads its own cached
    value, so a rewind reproduces them only where the schedule is [settled]. *)
From S2P Require Import Prelude Bytes UInt256 Utils Crypto Transaction Autolykos2 Block Emission.
From S2P Require Import BalanceSheet Ledger Difficulty DagEpochs Mempool Storage Chain ChainInvariant.

Section History.
Context {ops : CryptoOps} {laws : CryptoLaws ops}.

(** ** Admission, exactly *)

(** The rules a block's transactions must meet on a sheet [m] when the block reward is [reward]. *)
Definition acceptable (m : sheet) (reward : Z) (txs : list signed_transaction) : Prop :=
  Forall (fun tx => Transaction_Verify tx = true) txs /\ coinbase_count txs = 1%nat /\
  greedy (bal m) txs = noncoinbase txs /\ Forall (coinbase_pays (reward + fee_sum txs)) txs /\
  reward + fee_sum txs < 2 ^ 64 /\ in_order (last_ts m) txs.

Lemma fee_sum_noncoinbase txs : fee_sum (noncoinbase txs) = fee_sum txs.
Proof.
  induction txs as [|tx r IH]; [done|]. rewrite noncoinbase_cons, !fee_sum_cons. unfold fee_of.
  destruct (is_coinbase tx) eqn:E; [lia|]. rewrite fee_sum_cons. unfold fee_of. rewrite E. lia.
Qed.

Lemma select_spec m txs :
  Forall stx_ok txs -> sheet_ok m -> total m < M256 ->
  BalanceSheet_SelectSpendableTransactions m txs = (greedy (bal m) txs, u64 (fee_sum (greedy (bal m) txs))).
Proof.
  intros H1 H2 H3. unfold BalanceSheet_SelectSpendableTransactions.
  rewrite select_loop_spec by (rewrite ?map_empty_union; done || vm_decide). by rewrite !map_empty_union.
Qed.

Lemma validate_iff b txs amount f :
  block_ok b -> transactions b = Some txs ->
  Block_ValidateCoinbaseAndFees b amount = Some f <->
  Forall (fun tx => Transaction_Verify tx = true) txs /\ Forall (coinbase_pays amount) txs /\
  coinbase_count txs = 1%nat /\ f = fee_sum txs /\ f < 2 ^ 64.
Proof.
  intros [_ Hok] E. rewrite E in Hok. unfold Block_ValidateCoinbaseAndFees. rewrite E. cbn [mbind option_bind].
  rewrite coinbase_and_fees_iff by (done || vm_decide). by rewrite Z.add_0_l, Nat.add_0_l.
Qed.

Lemma admit_acceptable st b txs expected :
  block_ok b -> transactions b = Some txs -> sheet_ok (g_sheetMap st) -> total (g_sheetMap st) < M256 ->
  is_u64 (g_currentReward st) ->
  admission st b txs = Some expected ->
  acceptable (g_sheetMap st) (g_currentReward st) txs /\ expected = g_currentReward st + fee_sum txs.
Proof.
  intros Hb Et Hm Htot Hr Ha. destruct (admit_inv st b txs expected Et Ha) as (fees & Hsel & Hval & Hord & Eexp & Hle).
  pose proof Hb as [_ Hst]. rewrite Et in Hst. rewrite select_spec in Hsel by done. cbn [fst] in Hsel.
  destruct (greedy_all (bal (g_sheetMap st)) (bal (g_sheetMap st)) txs Hst ltac:(done) Hsel) as [_ Hg].
  apply validate_iff with (txs := txs) in Hval as (V1 & V2 & V3 & -> & V4); [|done|done].
  pose proof (fee_sum_nonneg txs Hst). unfold_cint.
  assert (E : expected = g_currentReward st + fee_sum txs) by (rewrite Eexp; apply u64_small; unfold_cint; lia).
  split; [|done]. subst expected. rewrite E in V2.
  split; [done|]. split; [done|]. split; [done|]. split; [done|]. split; [lia|done].
Qed.

Lemma acceptable_admit st b txs :
  block_ok b -> transactions b = Some txs -> sheet_ok (g_sheetMap st) -> total (g_sheetMap st) < M256 ->
  is_u64 (g_currentReward st) -> acceptable (g_sheetMap st) (g_currentReward st) txs ->
  admission st b txs = Some (g_currentReward st + fee_sum txs).
Proof.
  intros Hb Et Hm Htot Hr (V1 & V3 & Hg & V2 & Hlt & Hord).
  pose proof Hb as [_ Hst]. rewrite Et in Hst. pose proof (fee_sum_nonneg txs Hst) as Hf.
  unfold admission, expected_coinbase. destruct (Nat.eqb_spec (length txs) 0) as [E0|_].
  { destruct txs; [done|cbn in E0; lia]. }
  rewrite select_spec, Hg, fee_sum_noncoinbase, Nat.eqb_refl by done. cbn [negb mbind option_bind].
  rewrite u64_small by (unfold_cint; lia). destruct (Z.ltb_spec (UINT64_MAX - g_currentReward st) (fee_sum txs)).
  { unfold UINT64_MAX in *. lia. }
  cbn [mbind option_bind]. rewrite u64_small by (unfold_cint; lia).
  rewrite (proj2 (validate_iff b txs _ (fee_sum txs) Hb Et)) by (unfold_cint; intuition lia).
  cbn [mbind option_bind]. rewrite Z.eqb_refl, Et. cbn [negb Chain_BlockRespectsSenderOrdering].
  rewrite (proj2 (ordering_loop_iff _ [] txs)) by done. done.
Qed.

(** A block that extends the tip and is admitted gets as far as the commit. *)
Lemma AddBlockLocked_commits st b txs expected :
  node_ok st -> transactions b = Some txs -> extends (blocks st) b -> admission st b txs = Some expected ->
  exists c, Chain_AddBlockLocked st b = commit (set_dag st c) b txs expected.
Proof.
  intros Hok Et (Hl & Ht & Hp) Ha. unfold Chain_AddBlockLocked. rewrite Et, Hl. cbn [negb].
  destruct (check_pow_spec st b Hok) as (c & _ & Es & Hpow). destruct (check_pow st b) as [ok st']. cbn [fst snd] in *.
  rewrite (proj2 Hpow Hp). cbn [negb]. subst st'. cbn [blocks set_dag]. rewrite Ht, Z.eqb_refl. cbn [negb].
  change (admission (set_dag st c) b txs) with (admission st b txs). rewrite Ha. by exists c.
Qed.

Lemma AddBlockLocked_accepts st L b txs expected :
  node_ok st -> ledger_ok st L -> good_block b -> transactions b = Some txs -> extends (blocks st) b ->
  admission st b txs = Some expected -> fst (Chain_AddBlockLocked st b) = true.
Proof.
  intros Hok HL Hb Et Hx Ha. destruct (AddBlockLocked_commits st b txs expected Hok Et Hx Ha) as [c ->].
  destruct (commit_ok (set_dag st c) L b txs expected (set_dag_ledger st c L HL) Hb Et (proj1 Hx) Ha) as (st' & -> & _). done.
Qed.

(** What an append leaves behind when the ledger pass stops: the block is on the chain, its payments
    are out of the pool, the sheet is [m], and neither supply nor reward nor target moved. *)
Definition half_applied (st : node) (b : block) (txs : list signed_transaction) (c : dag_cache) (m : sheet) : node :=
  mkNode (blocks st ++ [b]) c m (remove_mined (g_txMempool st) txs) (g_currentSupply st) (g_currentReward st)
    (Z.of_nat (length (blocks st))) (g_difficultyTarget st) (g_files st) (g_pow st).

Lemma commit_stuck st L b txs expected :
  ledger_ok st L -> block_ok b -> transactions b = Some txs -> admission st b txs = Some expected ->
  ~ Forall second_output_ok txs ->
  exists pre tx post m, txs = pre ++ tx :: post /\ Forall second_output_ok pre /\ stuck tx /\ is_coinbase tx = false /\
    commit st b txs expected = (false, half_applied st b txs (dagEpochs st) m) /\
    forall x, bal m x = bal (g_sheetMap st) x + block_effect pre x
                        + at_address (recipientAddress1 (stx tx)) (tx_amount1 (stx tx)) x
                        - at_address (senderAddress (stx tx)) (spend_of tx) x.
Proof.
  intros (HL & _) Hb Et Ha Hn. destruct (admit_inv st b txs expected Et Ha) as (fees & Hsel & Hval & _ & -> & _).
  pose proof (ledger_valid_facts _ _ HL) as (_ & _ & _ & Hok & _). pose proof (ledger_room _ _ HL) as Hroom.
  destruct (admitted_facts _ b txs _ fees Hb Et Hok ltac:(lia) Hsel Hval) as (Had & Hsol & Hsum & ->).
  pose proof (u64_range (g_currentReward st + fee_sum txs)) as Hu. unfold_cint. rewrite <- Hsum in Hu.
  destruct (ledger_pass_stuck (g_sheetMap st) txs Hok Had Hn Hsol ltac:(lia)) as (pre & tx & post & m & E & H1 & H2 & H3 & Ep & B).
  exists pre, tx, post, m. do 4 (split; [done|]). split; [|done].
  unfold commit, half_applied. rewrite Ep, length_app. cbn [length]. do 2 f_equal. lia.
Qed.

Lemma ledger_sheet_ok st L : ledger_ok st L -> sheet_ok (g_sheetMap st) /\ total (g_sheetMap st) < M256.
Proof.
  intros (HL & _). pose proof (ledger_room _ _ HL). destruct (ledger_valid_facts _ _ HL) as (_ & _ & _ & Hok & _).
  split; [done|lia].
Qed.

(** ** The invariant *)

(** The supply a chain's coinbases add up to. *)
Definition supply_of (L : list full_block) : uint256 := replay_supply (uint256_from_u64 0) (all_txs L).

Definition history (st : node) (L : list full_block) : Prop :=
  is_u64 (g_currentReward st) /\
  (L <> [] -> exists g, g_currentReward st = next_reward (supply_of L) (Z.of_nat (length L)) g) /\
  forall i p m, L !! i = Some p -> (0 < i)%nat -> ledger_valid (take i L) m ->
    exists g, acceptable m (next_reward (supply_of (take i L)) (Z.of_nat i) g) p.2.

Definition inv (st : node) (L : list full_block) : Prop := node_ok st /\ ledger_ok st L /\ history st L.

Lemma ledger_supply st L : ledger_ok st L -> g_currentSupply st = supply_of L.
Proof.
  intros (HL & _ & Hs & Hv). destruct (replay_valid L _ HL) as (s & Er & Os & Vs).
  destruct (ledger_valid_facts L _ HL) as (_ & Had & Hp & _). rewrite (replay_txs_eq _ _ _ _ Had Hp) in Er.
  injection Er as Er. unfold supply_of. rewrite Er. apply uint256_val_inj; [done|done|congruence].
Qed.

Lemma ledger_valid_unique L m m' : ledger_valid L m -> ledger_valid L m' -> m = m'.
Proof.
  intros H H'. apply ledger_valid_facts in H as (_ & _ & H & _). apply ledger_valid_facts in H' as (_ & _ & H' & _).
  rewrite H in H'. by injection H'.
Qed.

Lemma AddBlockLocked_reward st b st' :
  Chain_AddBlockLocked st b = (true, st') ->
  g_currentReward st' = next_reward (g_currentSupply st') (Z.of_nat (length (blocks st'))) (g_currentReward st).
Proof.
  unfold Chain_AddBlockLocked, check_pow. intros E. destruct (transactions b) as [txs|]; [|done].
  destruct (links_to_tip _ b); cbn [negb] in E; [|done].
  destruct (Chain_DagParamsForHeightLocked _ _ _) as [[[n s]|] c]; [|done].
  destruct (Block_HasValidProofOfWorkWithParams _ _ _ _ _); cbn [negb] in E; [|done].
  destruct (_ =? _); cbn [negb] in E; [|done]. destruct (admission _ b txs) as [e|]; [|done]. unfold commit in E.
  destruct (ledger_pass _ txs) as [ok m]. injection E as -> <-. reflexivity.
Qed.

(** ** Preservation *)

Lemma history_snoc st st' L p :
  inv st L -> ledger_ok st' (L ++ [p]) -> acceptable (g_sheetMap st) (g_currentReward st) p.2 ->
  g_currentReward st' = next_reward (g_currentSupply st') (Z.of_nat (length (L ++ [p]))) (g_currentReward st) ->
  history st' (L ++ [p]).
Proof.
  intros (_ & HL & (Hu & Hg & Hh)) HL' Hacc Er. pose proof (ledger_supply _ _ HL') as Es. rewrite Es in Er.
  split; [rewrite Er, <- Es; apply next_reward_u64; [apply HL'|done]|]. split; [intros _; by exists (g_currentReward st)|].
  intros i q m Hi Hpos Hm. pose proof (lookup_lt_Some _ _ _ Hi) as Hlt. rewrite length_app in Hlt. cbn in Hlt.
  rewrite take_app_le in * by lia. destruct (decide (i = length L)) as [->|Hne].
  - rewrite list_lookup_middle in Hi by done. injection Hi as <-. rewrite take_ge in * by lia.
    rewrite (ledger_valid_unique L m (g_sheetMap st) Hm (proj1 HL)).
    destruct Hg as [g Eg]; [intros ->; cbn in Hpos; lia|]. exists g. by rewrite <- Eg.
  - rewrite lookup_app_l in Hi by lia. by apply (Hh i q m).
Qed.

Lemma inv_add st L b :
  inv st L -> good_block b ->
  (exists c, Chain_AddBlockLocked st b = (false, set_dag st c) /\ inv (set_dag st c) L) \/
  (exists st' txs, Chain_AddBlockLocked st b = (true, st') /\ transactions b = Some txs /\
     inv st' (L ++ [(header b, txs)]) /\ blocks st' = blocks st ++ [b]).
Proof.
  intros Hinv Hb. pose proof Hinv as (Hok & HL & Hh). pose proof (AddBlockLocked_ok st b Hok) as Hok'.
  destruct (AddBlockLocked_ledger st L b Hok HL Hb) as [[c E]|(st' & txs & e & E & Et & _ & HL' & Eb & Ha & _)].
  - left. exists c. split; [done|]. rewrite E in Hok'. exact (conj Hok' (conj (set_dag_ledger st c L HL) Hh)).
  - right. exists st', txs. split; [done|]. split; [done|]. split; [|done]. rewrite E in Hok'.
    split; [done|]. split; [done|]. destruct (ledger_sheet_ok st L HL) as [Hm Ht]. pose proof Hh as (Hu & _).
    apply (history_snoc st); [done|done| |].
    + apply (admit_acceptable st b txs e (proj1 Hb) Et Hm Ht Hu Ha).
    + rewrite (AddBlockLocked_reward st b st' E), Eb, !length_app. destruct HL as (_ & [-> _] & _). done.
Qed.

Lemma history_take st st' L h :
  history st L -> is_u64 (g_currentReward st') ->
  (take h L <> [] -> exists g, g_currentReward st' = next_reward (supply_of (take h L)) (Z.of_nat (length (take h L))) g) ->
  history st' (take h L).
Proof.
  intros (_ & _ & Hh) Hu Hg. split; [done|]. split; [done|]. intros i p m Hi Hpos Hm.
  pose proof (lookup_lt_Some _ _ _ Hi) as Hlt. rewrite length_take in Hlt. rewrite lookup_take_lt in Hi by lia.
  rewrite take_take, Nat.min_l in * by lia. by apply (Hh i p m).
Qed.

Lemma RollbackLocked_reward st h st' :
  Chain_RollbackToHeightLocked st h = (true, st') -> (h < length (blocks st))%nat ->
  g_currentReward st' = next_reward (g_currentSupply st') (Z.of_nat (length (blocks st'))) (g_currentReward st).
Proof.
  unfold Chain_RollbackToHeightLocked. intros E Hlt. destruct (Nat.leb_spec (length (blocks st)) h); [lia|].
  destruct (replay_blocks _ _ _ _) as [ok [s m]]. injection E as -> <-. reflexivity.
Qed.

Lemma inv_rollback st L h :
  inv st L ->
  exists st', Chain_RollbackToHeightLocked st h = (true, st') /\ inv st' (take h L) /\ blocks st' = take h (blocks st).
Proof.
  intros (Hok & HL & Hh). pose proof (RollbackLocked_ok st h Hok) as Hok'.
  destruct (RollbackLocked_ledger st L h HL) as (st' & E & HL' & Eb). exists st'. split; [done|]. split; [|done].
  rewrite E in Hok'. split; [done|]. split; [done|]. pose proof HL as (_ & [Hlen _] & _).
  destruct (Nat.le_gt_cases (length (blocks st)) h) as [Hge|Hlt].
  { unfold Chain_RollbackToHeightLocked in E. rewrite (proj2 (Nat.leb_le _ _) Hge) in E. injection E as <-.
    by rewrite take_ge by lia. }
  pose proof (RollbackLocked_reward st h st' E Hlt) as Er. pose proof Hh as (Hu & _).
  apply (history_take st); [done| |].
  - rewrite Er. apply next_reward_u64; [apply HL'|done].
  - intros _. exists (g_currentReward st). rewrite Er, (ledger_supply _ _ HL'), Eb, !length_take, Hlen. done.
Qed.

Lemma inv_apply st L l :
  inv st L -> Forall good_block l ->
  exists ext, inv (snd (apply_blocks st l)) (L ++ ext) /\
    take (length (blocks st)) (blocks (snd (apply_blocks st l))) = blocks st.
Proof.
  intros Hinv Hg; revert st L Hinv; induction Hg as [|b r Hb _ IH]; intros st L Hinv; cbn [apply_blocks].
  { exists []. rewrite app_nil_r. split; [done|]. cbn [snd]. by rewrite take_ge. }
  destruct (inv_add st L b Hinv Hb) as [(c & -> & Hi)|(st' & txs & -> & _ & Hi & Eb)].
  - exists []. rewrite app_nil_r. split; [done|]. cbn [snd blocks set_dag]. by rewrite take_ge.
  - destruct (IH st' _ Hi) as (ext & H1 & H2). exists ((header b, txs) :: ext).
    rewrite <- app_assoc in H1. split; [done|].
    rewrite Eb, length_app in H2. cbn [length] in H2.
    apply (f_equal (take (length (blocks st)))) in H2. rewrite take_take, Nat.min_l in H2 by lia.
    by rewrite H2, take_app_length.
Qed.

(** ** Restoring *)

(** Blocks with the same headers in the same order. *)
Definition same_headers (l k : list block) : Prop := map compact l = map compact k.

Lemma recovers_compact st L i p b :
  ledger_ok st L -> L !! i = Some p -> blocks st !! i = Some b -> compact (full p) = compact b.
Proof.
  intros (_ & [_ HR] & _) Hp Hb. destruct (HR i p Hp) as (b' & Hb' & Eh & _).
  replace b with b' by congruence. unfold compact, full. cbn [header]. by rewrite Eh.
Qed.

Lemma extends_restored st L i p (pre : list block) :
  inv st L -> L !! i = Some p -> same_headers pre (take i (blocks st)) -> extends pre (full p).
Proof.
  intros ((Hc & _) & HL & _) Hp Hpre. pose proof HL as (_ & [Hlen _] & _).
  destruct (lookup_lt_is_Some_2 (blocks st) i) as [b Hb]; [apply lookup_lt_Some in Hp; lia|].
  apply extends_compact. rewrite (recovers_compact st L i p b HL Hp Hb), Hpre. by apply extends_compact, Hc.
Qed.

(** One block of the old branch is accepted again. *)
Lemma restore_one st L i p cur :
  inv st L -> L !! i = Some p -> (0 < i)%nat -> inv cur (take i L) ->
  same_headers (blocks cur) (take i (blocks st)) -> settled (supply_of (take i L)) (Z.of_nat i) ->
  exists cur', Chain_AddBlockLocked cur (full p) = (true, cur') /\ inv cur' (take (S i) L) /\
    same_headers (blocks cur') (take (S i) (blocks st)).
Proof.
  intros Hinv Hp Hpos Hcur Hsame Hset. pose proof Hinv as (_ & HL & (_ & _ & Hh)).
  pose proof Hcur as (Hok & HLc & (Hu & Hg & _)). pose proof (lookup_lt_Some _ _ _ Hp) as Hlt.
  assert (Hgood : good_block (full p)).
  { pose proof (ledger_valid_good L _ (proj1 HL)) as Hf. eapply (Forall_lookup_1 _ _ i) in Hf; [exact Hf|].
    rewrite list_lookup_fmap, Hp. done. }
  assert (Hacc : acceptable (g_sheetMap cur) (g_currentReward cur) p.2).
  { destruct (Hh i p _ Hp Hpos (proj1 HLc)) as [g Ha]. destruct Hg as [g' ->].
    - intros E. apply (f_equal length) in E. rewrite length_take in E. cbn in E. lia.
    - rewrite length_take, Nat.min_l by lia. by rewrite (Hset g' g). }
  destruct (ledger_sheet_ok cur _ HLc) as [Hm Ht].
  pose proof (acceptable_admit cur (full p) p.2 (proj1 Hgood) eq_refl Hm Ht Hu Hacc) as Had.
  pose proof (AddBlockLocked_accepts cur _ _ p.2 _ Hok HLc Hgood eq_refl (extends_restored st L i p _ Hinv Hp Hsame) Had) as Hok'.
  destruct (inv_add cur (take i L) (full p) Hcur Hgood) as [(c & E & _)|(cur' & txs & E & [= <-] & Hi & Eb)].
  { by rewrite E in Hok'. }
  exists cur'. split; [done|]. rewrite (take_S_r L i p Hp). split; [by destruct p|].
  destruct (lookup_lt_is_Some_2 (blocks st) i) as [b Hb]; [pose proof HL as (_ & [? _] & _); lia|].
  unfold same_headers in *. rewrite Eb, (take_S_r (blocks st) i b Hb), !map_app, Hsame. cbn [map].
  by rewrite (recovers_compact st L i p b HL Hp Hb).
Qed.

Lemma restore_all st L n i cur :
  inv st L -> (n + i = length L)%nat -> (0 < i)%nat -> inv cur (take i L) ->
  same_headers (blocks cur) (take i (blocks st)) ->
  (forall j, (i <= j < length L)%nat -> settled (supply_of (take j L)) (Z.of_nat j)) ->
  let r := apply_blocks cur (map full (drop i L)) in
  fst r = true /\ inv (snd r) L /\ same_headers (blocks (snd r)) (blocks st).
Proof.
  intros Hinv. revert i cur; induction n as [|n IH]; intros i cur Hn Hpos Hcur Hsame Hset r; subst r.
  - pose proof Hinv as (_ & (_ & [Hlen _] & _) & _). rewrite drop_ge by lia. cbn [map apply_blocks fst snd].
    rewrite !take_ge in * by lia. done.
  - destruct (lookup_lt_is_Some_2 L i ltac:(lia)) as [p Hp].
    destruct (restore_one st L i p cur Hinv Hp Hpos Hcur Hsame (Hset i ltac:(lia))) as (cur' & E & H1 & H2).
    rewrite (drop_S L p i Hp). cbn [map apply_blocks]. rewrite E.
    apply IH; [lia|lia|done|done|]. intros j Hj. apply Hset. lia.
Qed.

(** The swap ends in a state with a consistent history, and a failed one in the old chain. *)
Lemma inv_swap st L f l :
  inv st L -> Forall good_block l -> (0 < f <= length L)%nat ->
  let r := swap_branch st f (map full (drop f L)) l in
  (exists L', inv (snd r) L') /\
  (fst r = false -> (forall j, (f <= j < length L)%nat -> settled (supply_of (take j L)) (Z.of_nat j)) ->
   inv (snd r) L /\ same_headers (blocks (snd r)) (blocks st)).
Proof.
  intros Hinv Hl Hf r. subst r. unfold swap_branch.
  destruct (inv_rollback st L f Hinv) as (st1 & -> & H1 & Eb1). cbn [negb].
  destruct (inv_apply st1 (take f L) l H1 Hl) as (ext & H2 & Eb2).
  destruct (apply_blocks st1 l) as [[|] st2]; cbn [fst snd] in *; [by split; [eauto|]|].
  assert (Hlen : length (take f L) = f) by (rewrite length_take; lia).
  destruct (inv_rollback st2 _ f H2) as (st3 & -> & H3 & Eb3). cbn [negb fst snd].
  rewrite take_app_le, take_ge in H3 by lia.
  assert (Eb : blocks st3 = take f (blocks st)).
  { pose proof Hinv as (_ & (_ & [Hb _] & _) & _).
    rewrite Eb3, <- Eb1, <- Eb2, Eb1, length_take. f_equal. lia. }
  assert (Hgood : Forall good_block (map full (drop f L))).
  { rewrite <- skipn_map. apply Forall_drop. pose proof Hinv as (_ & (HL & _) & _). by apply (ledger_valid_good L _ HL). }
  split.
  - destruct (inv_apply st3 _ _ H3 Hgood) as (ext' & H4 & _). eauto.
  - intros _ Hset. apply (restore_all st L (length L - f) f st3); [done|lia|lia|done| |done].
    unfold same_headers. by rewrite Eb.
Qed.

Lemma set_target_inv st t L : inv st L -> inv (set_target st t) L.
Proof. done. Qed.

Lemma inv_replace st L f l o bp now :
  inv st L -> Forall good_block l ->
  let r := Chain_ReplaceBranch st f l o bp now in
  (exists L', inv (snd r) L') /\
  (fst r = false -> (forall j, (f <= j < length L)%nat -> settled (supply_of (take j L)) (Z.of_nat j)) ->
   inv (snd r) L /\ same_headers (blocks (snd r)) (blocks st)).
Proof.
  intros Hinv Hl r. subst r. unfold Chain_ReplaceBranch.
  destruct ((length l =? 0)%nat || (f =? 0)%nat) eqn:E0; [by split; [exists L|]|].
  apply orb_false_iff in E0 as [_ E0]. apply Nat.eqb_neq in E0.
  destruct (branch_wins st f l o bp now) eqn:Ew; cbn [negb].
  2: { cbn [fst snd]. split; [by exists L; apply set_target_inv|]. intros _ _. by split; [apply set_target_inv|]. }
  assert (Hf : (f <= length L)%nat).
  { unfold branch_wins in Ew. repeat (apply andb_true_iff in Ew as [Ew _]). apply Nat.leb_le in Ew.
    pose proof Hinv as (_ & (_ & [-> _] & _) & _). done. }
  pose proof Hinv as (_ & (_ & HR & _) & _).
  rewrite (snapshot_spec st L (length (blocks st) - f) f HR) by (destruct HR as [<- _]; lia).
  rewrite copy_blocks. destruct (inv_swap st L f l Hinv Hl ltac:(lia)) as [[L' H1] H2].
  destruct (swap_branch st f (map full (drop f L)) l) as [ok st']. cbn [fst snd] in *.
  split; [exists L'; by apply set_target_inv|]. intros Ho Hset. destruct (H2 Ho Hset). by split; [apply set_target_inv|].
Qed.

Lemma Recompute_inv st L : inv st L -> inv (snd (Chain_RecomputeRuntimeState st)) L.
Proof.
  intros (Hok & HL & (Hu & _ & Hh)). destruct (Recompute_ledger st L HL) as (st' & E & HL' & Es).
  assert (Hok' : node_ok (snd (Chain_RecomputeRuntimeState st))) by (apply (node_step_ok st); [constructor|done]).
  assert (Er : g_currentReward st' = next_reward (g_currentSupply st') (Z.of_nat (length (blocks st))) (g_currentReward st)).
  { unfold Chain_RecomputeRuntimeState in E. destruct (rebuild_supply _ _ _ _) as [s|]; [|done]. by injection E as <-. }
  rewrite E in *. cbn [snd] in *. split; [done|]. split; [done|]. split; [|split; [|done]].
  - rewrite Er. apply next_reward_u64; [apply HL'|done].
  - intros _. exists (g_currentReward st). rewrite Er, (ledger_supply _ _ HL'). destruct HL as (_ & [-> _] & _). done.
Qed.

Lemma node_save_inv st L :
  inv st L -> Z.of_nat (length (data_of L)) <= LONG_MAX -> inv (snd (node_save st)) L.
Proof.
  intros (Hok & HL & Hh) Hfit. destruct (node_save_ledger st L HL Hfit) as (_ & HL' & _).
  split; [by apply node_save_ok|]. split; [done|].
  unfold history in *. unfold node_save. by destruct (Chain_SaveToFile _ _ _ _) as [[ok fs] l].
Qed.

Lemma good_step_inv st st' L : good_step st st' -> inv st L -> exists L', inv st' L'.
Proof.
  intros Hs Hinv. destruct Hs as [st b Hb|st h|st f l o bp now Hl|st|st Hfit|st p Hp|st h|st pool Hm]; cycle 7.
  { exists L. pose proof Hinv as (Hok & HL & Hh). split; [|by split]. exact Hok. }
  - unfold Chain_AddBlock. destruct (inv_add st L b Hinv Hb) as [(c & -> & Hi)|(st' & txs & -> & _ & Hi & _)]; eauto.
  - unfold Chain_RollbackToHeight. destruct (inv_rollback st L h Hinv) as (st' & -> & Hi & _). eauto.
  - by apply (inv_replace st L f l o bp now).
  - exists L. by apply Recompute_inv.
  - exists L. apply node_save_inv; [done|]. apply Hfit. pose proof Hinv as (_ & (_ & HR & _) & _).
    pose proof (recovers_resolve (blocks st) (g_files st) L (length L) 0 HR ltac:(lia)) as Hres. by rewrite !drop_0 in Hres.
  - exists L. pose proof Hinv as (Hok & HL & Hh). split; [|by split]. apply (node_step_ok st); [by constructor|done].
  - pose proof Hinv as (Hok & HL & Hh). exists L. destruct (DagParamsForHeight_spec st h Hok) as (c & Hc & -> & _).
    split; [by apply set_dag_ok|]. split; [by apply set_dag_ledger|done].
Qed.

Lemma reachable_history st : reachable st -> exists L, inv st L.
Proof.
  intros (reward & Hu & Hr). assert (H0 : exists L, inv (node_init None reward) L).
  { exists []. split; [split; [apply consensus_nil|]; split; [apply coherent_nil|by intros ?]|].
    split; [split; [constructor|]; split; [by split|]; split; [apply from_u64_ok; vm_decide|done]|].
    split; [done|]. by split. }
  revert H0. induction Hr as [|x y z Hs _ IH]; [done|]. intros [L HL]. apply IH. by eapply good_step_inv.
Qed.


(** The supply of a prefix, as the recomputation loop rebuilds it. *)
Lemma rebuild_prefix st L n :
  ledger_ok st L -> (n <= length L)%nat -> rebuild_supply st 0 n (uint256_from_u64 0) = Some (supply_of (take n L)).
Proof.
  intros (HL & HR & _) Hn. destruct (ledger_valid_take L _ n HL) as [m HLn].
  pose proof (ledger_valid_facts _ _ HL) as (Hf & _).
  pose proof (ledger_valid_facts _ _ HLn) as (_ & _ & _ & _ & _ & F6 & _ & F8 & _).
  assert (HM : 2 ^ 64 * 2 ^ 64 < M256) by reflexivity. unfold supply_of.
  rewrite (rebuild_supply_spec st L n 0 _ HR Hf) by (lia || (apply from_u64_ok; vm_decide) || (rewrite drop_0, val_from_u64; nia)).
  by rewrite drop_0.
Qed.
End History.
