(* ===== verification/ChainTheorems.v ===== *)
(** * The properties of the chain's state machine

    The theorems a node operator relies on, each about states reachable from genesis through the
    operations of [chain.c]: the chain is valid, coins are conserved, no payment is applied twice,
    appending and rolling back do exactly what they promise, and the restored transactions of
    discarded blocks return to the pool. *)
From Stdlib Require Import Sorting.Sorted.
From S2P Require Import Prelude Bytes UInt256 Utils Crypto Transaction Autolykos2 Block Emission.
From S2P Require Import BalanceSheet Ledger Difficulty DagEpochs Mempool Storage Chain ChainInvariant History.

Section Facts.
Context {ops : CryptoOps} {laws : CryptoLaws ops}.

(** The transactions of the whole chain, in order, as a replay reads them. *)
Definition chain_transactions (st : node) : option (list signed_transaction) :=
  bodies ← mapM (Chain_BorrowBlockTransactions st) (seq 0 (length (blocks st))); Some (concat bodies).

Lemma mapM_borrow st L n i :
  recovers (blocks st) (g_files st) L -> (n + i = length L)%nat ->
  mapM (Chain_BorrowBlockTransactions st) (seq i n) = Some (map snd (drop i L)).
Proof.
  intros HR. revert i; induction n as [|n IH]; intros i Hn; [by rewrite drop_ge by lia|].
  destruct (lookup_lt_is_Some_2 L i ltac:(lia)) as [p Hp]. rewrite (drop_S L p i Hp). cbn [seq mapM map].
  rewrite (borrow_recovers st L i p HR Hp). cbn [mbind option_bind]. by rewrite IH by lia.
Qed.

Lemma chain_transactions_recovers st L :
  recovers (blocks st) (g_files st) L -> chain_transactions st = Some (all_txs L).
Proof.
  intros HR. unfold chain_transactions. pose proof HR as [Hl _].
  rewrite (mapM_borrow st L (length (blocks st)) 0 HR) by lia. by rewrite drop_0.
Qed.

(** ** Timestamps along the chain *)

Lemma in_order_lookup g txs i j tx tx' :
  in_order g txs -> (i < j)%nat -> txs !! i = Some tx -> txs !! j = Some tx' ->
  is_coinbase tx = false -> is_coinbase tx' = false -> senderAddress (stx tx) = senderAddress (stx tx') ->
  tx_timestamp (stx tx) < tx_timestamp (stx tx').
Proof.
  revert g i j; induction txs as [|t r IH]; intros g i j Ho Hij Hi Hj Hc Hc' Es; [done|].
  destruct Ho as [H1 H2].
  destruct i as [|i], j as [|j]; [lia| |lia|].
  - injection Hi as ->. cbn in Hj. apply list_elem_of_lookup_2 in Hj.
    pose proof (in_order_above _ r tx' H2 Hj Hc') as Hlt. cbv beta in Hlt.
    assert (Hg : tx_timestamp (stx tx) <= tx_guard tx (g (senderAddress (stx tx'))) (senderAddress (stx tx'))).
    { unfold tx_guard. rewrite Hc, bool_decide_true by done. apply Z.le_max_r. }
    lia.
  - by apply (IH _ i j H2 ltac:(lia)).
Qed.

(** ** The pool after a rollback *)

Definition pooled (pool : mempool) (tx : signed_transaction) : Prop := is_Some (pool !! Transaction_CalculateHash tx).

Lemma insert_pooled pool tx t : pooled pool t -> pooled (snd (TxMempool_Insert pool tx)) t.
Proof. intros H. cbn [snd TxMempool_Insert]. unfold pooled. apply lookup_insert_is_Some'. by right. Qed.

Lemma insert_pools pool tx : pooled (snd (TxMempool_Insert pool tx)) tx.
Proof. cbn [snd TxMempool_Insert]. unfold pooled. rewrite lookup_insert_eq. eauto. Qed.

Lemma restore_txs_keeps pool txs t : pooled pool t -> pooled (restore_txs pool txs) t.
Proof.
  unfold restore_txs. revert pool; induction txs as [|tx r IH]; intros pool H; cbn [fold_left]; [done|].
  apply IH. destruct (Address_IsCoinbase _); [done|]. by apply insert_pooled.
Qed.

Lemma restore_txs_adds pool txs t : t ∈ txs -> is_coinbase t = false -> pooled (restore_txs pool txs) t.
Proof.
  unfold restore_txs. revert pool; induction txs as [|tx r IH]; intros pool Hin Hc; [by apply not_elem_of_nil in Hin|].
  cbn [fold_left]. apply elem_of_cons in Hin as [->|Hin]; [|by apply IH].
  fold (is_coinbase tx). rewrite Hc. apply (restore_txs_keeps _ r). apply insert_pools.
Qed.

Lemma restore_discarded_keeps st h n pool t : pooled pool t -> pooled (restore_discarded st h n pool) t.
Proof.
  revert pool; induction n as [|n IH]; intros pool H; cbn [restore_discarded]; [done|]. apply IH.
  destruct (Chain_BorrowBlockTransactions st (h + n)); [by apply restore_txs_keeps|done].
Qed.

Lemma restore_discarded_adds st h n pool i txs t :
  (i < n)%nat -> Chain_BorrowBlockTransactions st (h + i) = Some txs -> t ∈ txs -> is_coinbase t = false ->
  pooled (restore_discarded st h n pool) t.
Proof.
  revert pool; induction n as [|n IH]; intros pool Hi Hb Hin Hc; [lia|]. cbn [restore_discarded].
  destruct (decide (i = n)) as [->|]; [|apply IH; [lia|done..]].
  rewrite Hb. by apply restore_discarded_keeps, restore_txs_adds.
Qed.

Lemma remove_lookup pool k h : snd (TxMempool_Remove pool k) !! h = if bool_decide (h = k) then None else pool !! h.
Proof.
  unfold TxMempool_Remove. case_bool_decide as E; [subst h|]; destruct (pool !! k) eqn:Ek; cbn [snd]; try done.
  - by rewrite lookup_delete_eq.
  - by rewrite lookup_delete_ne.
Qed.

(** Mining a block takes exactly its payments out of the pool. *)
Lemma remove_mined_lookup pool txs h :
  remove_mined pool txs !! h =
  if bool_decide (h ∈ map Transaction_CalculateHash (noncoinbase txs)) then None else pool !! h.
Proof.
  unfold remove_mined. revert pool; induction txs as [|tx r IH]; intros pool; cbn [fold_left]; [done|].
  rewrite IH, noncoinbase_cons. fold (is_coinbase tx). destruct (is_coinbase tx); [done|]. cbn [map].
  rewrite remove_lookup. repeat case_bool_decide; set_solver.
Qed.

Lemma Rollback_pool st h :
  (h < length (blocks st))%nat ->
  g_txMempool (snd (Chain_RollbackToHeight st h)) =
  restore_discarded st h (length (blocks st) - h) (g_txMempool st).
Proof.
  intros Hlt. unfold Chain_RollbackToHeight, Chain_RollbackToHeightLocked.
  destruct (Nat.leb_spec (length (blocks st)) h); [lia|]. by destruct (replay_blocks _ _ _ _) as [ok [s m]].
Qed.

Lemma all_txs_split L h : all_txs (take h L) ++ all_txs (drop h L) = all_txs L.
Proof. unfold all_txs. by rewrite <- concat_app, <- map_app, take_drop. Qed.

Lemma discarded_pooled st L h t :
  ledger_ok st L -> t ∈ all_txs (drop h L) -> is_coinbase t = false ->
  pooled (g_txMempool (snd (Chain_RollbackToHeight st h))) t.
Proof.
  intros (_ & HR & _) Hin Hc. apply list_elem_of_In, in_concat in Hin as (txs & Hin & Ht).
  apply in_map_iff in Hin as (p & <- & Hin). apply list_elem_of_In, list_elem_of_lookup in Hin as [i Hi].
  rewrite lookup_drop in Hi. pose proof (lookup_lt_Some _ _ _ Hi) as Hlt. pose proof HR as [Hl _].
  rewrite Rollback_pool by lia. apply (restore_discarded_adds _ _ _ _ i p.2); [lia| |by apply list_elem_of_In|done].
  by apply borrow_recovers with L.
Qed.

Lemma rollback_keeps_pool st h t :
  pooled (g_txMempool st) t -> pooled (g_txMempool (snd (Chain_RollbackToHeight st h))) t.
Proof.
  intros Hp. destruct (Nat.le_gt_cases (length (blocks st)) h) as [Hle|Hlt].
  - unfold Chain_RollbackToHeight, Chain_RollbackToHeightLocked. by rewrite (proj2 (Nat.leb_le _ _) Hle).
  - rewrite Rollback_pool by done. by apply restore_discarded_keeps.
Qed.

(** ** Timestamps of the median *)

Lemma insert_sorted_perm t l : insert_sorted t l ≡ₚ t :: l.
Proof.
  induction l as [|x r IH]; cbn [insert_sorted]; [done|]. destruct (t <=? x); [done|]. rewrite IH. apply Permutation_swap.
Qed.

Lemma sort_perm l : sort_timestamps l ≡ₚ l.
Proof. induction l as [|x r IH]; cbn [sort_timestamps foldr]; [done|]. by rewrite insert_sorted_perm, IH. Qed.

Lemma insert_sorted_sorted t l : Sorted Z.le l -> Sorted Z.le (insert_sorted t l).
Proof.
  induction l as [|x r IH]; intros H; cbn [insert_sorted]; [by repeat constructor|].
  destruct (Z.leb_spec t x); [by constructor; [|constructor]|]. apply Sorted_inv in H as [Hr Hx]. constructor; [by apply IH|].
  destruct r as [|y r]; cbn [insert_sorted]; [constructor; lia|]. apply HdRel_inv in Hx.
  destruct (t <=? y); constructor; lia.
Qed.

Lemma sort_sorted l : StronglySorted Z.le (sort_timestamps l).
Proof.
  apply Sorted_StronglySorted; [intros x y z; lia|].
  induction l as [|x r IH]; cbn [sort_timestamps foldr]; [constructor|]. by apply insert_sorted_sorted.
Qed.

Lemma sorted_lookup_le s i j x y :
  StronglySorted Z.le s -> (i <= j)%nat -> s !! i = Some x -> s !! j = Some y -> x <= y.
Proof.
  intros H; revert i j; induction H as [|a r _ IH Ha]; intros i j Hij Hi Hj; [done|].
  destruct i as [|i], j as [|j]; cbn in Hi, Hj; simplify_eq; try lia; [|by apply (IH i j); [lia|..]].
  by apply (Forall_lookup_1 _ _ _ _ Ha Hj).
Qed.

Definition at_most (v : Z) (l : list Z) : nat := length (List.filter (fun t => t <=? v) l).
Definition at_least (v : Z) (l : list Z) : nat := length (List.filter (fun t => v <=? t) l).

Lemma filter_all f (l : list Z) : Forall (fun x => f x = true) l -> length (List.filter f l) = length l.
Proof. induction 1 as [|x r H _ IH]; [done|]. cbn. rewrite H. cbn. by rewrite IH. Qed.

Lemma filter_length_perm f (l k : list Z) : l ≡ₚ k -> length (List.filter f l) = length (List.filter f k).
Proof.
  induction 1 as [|x l k _ IH|x y l|l k m _ IH1 _ IH2]; cbn; [done| | |congruence];
    [destruct (f x); cbn; congruence|by destruct (f x), (f y)].
Qed.

Lemma sorted_counts s k v :
  StronglySorted Z.le s -> s !! k = Some v -> (k < at_most v s)%nat /\ (length s - k <= at_least v s)%nat.
Proof.
  intros Hs Hk. pose proof (lookup_lt_Some _ _ _ Hk) as Hlt. unfold at_most, at_least.
  rewrite <- (take_drop (S k) s) at 1. rewrite <- (take_drop k s) at 4.
  rewrite !List.filter_app, !length_app. rewrite (filter_all _ (take (S k) s)), (filter_all _ (drop k s)).
  - rewrite length_take, length_drop. lia.
  - apply Forall_lookup. intros i x Hi. rewrite lookup_drop in Hi. apply Z.leb_le.
    by apply (sorted_lookup_le s k (k + i)); [done|lia|..].
  - apply Forall_lookup. intros i x Hi. pose proof (lookup_lt_Some _ _ _ Hi) as Hl. rewrite length_take in Hl.
    rewrite lookup_take_lt in Hi by lia. apply Z.leb_le. by apply (sorted_lookup_le s i k); [done|lia|..].
Qed.

Lemma median_counts samples :
  samples <> [] ->
  let v := nth (length samples / 2) (sort_timestamps samples) 0 in
  v ∈ samples /\ (length samples / 2 < at_most v samples)%nat /\
  (length samples - length samples / 2 <= at_least v samples)%nat.
Proof.
  intros Hne v. pose proof (sort_perm samples) as Hp. pose proof (Permutation_length Hp) as Hl.
  assert (Hpos : (0 < length samples)%nat) by (destruct samples; [done|cbn; lia]).
  assert (Hlt : (length samples / 2 < length samples)%nat) by (apply Nat.div_lt; lia).
  assert (Hv : sort_timestamps samples !! (length samples / 2)%nat = Some v)
    by (destruct (nth_lookup_or_length (sort_timestamps samples) (length samples / 2) 0); [done|lia]).
  split; [rewrite <- Hp; by eapply list_elem_of_lookup_2|].
  destruct (sorted_counts _ _ _ (sort_sorted samples) Hv) as [H1 H2]. rewrite Hl in H2.
  unfold at_most, at_least in *. by rewrite !(filter_length_perm _ _ _ Hp) in *.
Qed.

Lemma AddBlockLocked_pool st b st' txs :
  Chain_AddBlockLocked st b = (true, st') -> transactions b = Some txs ->
  g_txMempool st' = remove_mined (g_txMempool st) txs.
Proof.
  unfold Chain_AddBlockLocked, check_pow. intros E Et. rewrite Et in E. destruct (links_to_tip _ b); cbn [negb] in E; [|done].
  destruct (Chain_DagParamsForHeightLocked _ _ _) as [[[n s]|] c]; [|done].
  destruct (Block_HasValidProofOfWorkWithParams _ _ _ _ _); cbn [negb] in E; [|done].
  destruct (_ =? _); cbn [negb] in E; [|done]. destruct (admission _ b txs) as [e|]; [|done]. unfold commit in E.
  destruct (ledger_pass _ txs) as [ok m]. by injection E as _ <-.
Qed.

Abbreviation targets_ok l := (Forall (fun b => is_u32 (difficultyTarget (header b))) l).

Lemma heavier_work chain f l :
  (f <= length chain)%nat -> targets_ok chain -> targets_ok l -> heavier chain f l = true ->
  work_sum (drop f chain) < work_sum l.
Proof.
  intros Hf Hc Hl. unfold heavier, Chain_ComputeWorkRange, Chain_ComputeBranchWork.
  destruct (Nat.ltb_spec (length chain) f); [lia|]. rewrite Nat.ltb_irrefl, take_ge by (rewrite length_drop; lia).
  assert (H0 : uint256_ok (uint256_from_u64 0)) by (apply from_u64_ok; vm_decide).
  pose proof (sum_work_spec (drop f chain) _ (Forall_drop _ f _ Hc) H0) as Ho. pose proof (sum_work_spec l _ Hl H0) as Hn.
  destruct (sum_work (drop f chain) _) as [w|]; [|done]. destruct (sum_work l _) as [w'|]; [|done].
  destruct Ho as (_ & [Lo Oo] & Vo), Hn as (_ & [Ln On] & Vn). rewrite val_from_u64 in Vo, Vn. intros Hlt. apply Z.ltb_lt in Hlt.
  rewrite cmp_spec in Hlt by (congruence || done). destruct (Z.compare_spec (val w') (val w)); lia.
Qed.

Lemma branch_wins_inv st f l o bp now :
  branch_wins st f l o bp now = true ->
  (f <= length (blocks st))%nat /\ Chain_BranchIsLinkedLocked (blocks st) f l = true /\
  (bp = true \/ Chain_IsInitialBlockDownload (blocks st) now = true \/ f = length (blocks st) \/
   penalty_served (length (blocks st)) f (length l) o = true) /\ heavier (blocks st) f l = true.
Proof.
  unfold branch_wins. intros H. apply andb_true_iff in H as [H Hw]. apply andb_true_iff in H as [H Hp].
  apply andb_true_iff in H as [Hle Hl]. apply Nat.leb_le in Hle. split; [done|]. split; [done|]. split; [|done].
  apply orb_true_iff in Hp as [Hp|Hp]; [|by auto]. apply orb_true_iff in Hp as [Hp|Hp].
  - apply orb_true_iff in Hp as [Hp|Hp]; auto.
  - apply Nat.leb_le in Hp. right; right; left. lia.
Qed.

Lemma ledger_targets st L : ledger_ok st L -> targets_ok (blocks st).
Proof.
  intros (HL & [Hl HR] & _). pose proof (ledger_valid_facts _ _ HL) as (Hf & _). apply Forall_lookup. intros i b Hb.
  pose proof (lookup_lt_Some _ _ _ Hb). destruct (lookup_lt_is_Some_2 L i ltac:(lia)) as [p Hp].
  destruct (HR i p Hp) as (b' & Hb' & Eh & _).
  replace b with b' by congruence. rewrite Eh. pose proof (Forall_lookup_1 _ _ _ _ Hf Hp) as [(_ & _ & _ & _ & _ & H' & _) _]. done.
Qed.

Lemma good_targets l : Forall good_block l -> targets_ok l.
Proof. intros H. eapply Forall_impl; [|exact H]. by intros b [[(_ & _ & _ & _ & _ & H' & _) _] _]. Qed.

Lemma same_headers_header l k : same_headers l k -> map header l = map header k.
Proof.
  unfold same_headers. revert k; induction l as [|b l IH]; intros [|c k] E; try done. cbn [map] in *.
  injection E as E1 E2. by rewrite E1, (IH k E2).
Qed.

Lemma headers_compact (l k : list block) : map header l = map header k -> same_headers l k.
Proof.
  unfold same_headers. intros H. assert (E : forall x : list block, map compact x = map (fun h => mkBlock h None) (map header x)).
  { intros x. rewrite map_map. by apply map_ext. }
  by rewrite !E, H.
Qed.

Lemma AddBlock_fst st b : fst (Chain_AddBlock st b) = fst (Chain_AddBlockLocked st b).
Proof. unfold Chain_AddBlock. by destruct (Chain_AddBlockLocked st b). Qed.
(** ** What an append leaves *)

(** The block passes every check before the push. *)
Definition admissible (st : node) (b : block) (txs : list signed_transaction) : Prop :=
  transactions b = Some txs /\ extends (blocks st) b /\ acceptable (g_sheetMap st) (g_currentReward st) txs.

(** The block is on the chain, but the ledger pass stopped at [tx], which pays a second amount to nobody. *)
Definition left_half_applied (st : node) (b : block) (txs : list signed_transaction) (st' : node) : Prop :=
  exists c m pre tx post, st' = half_applied st b txs c m /\ txs = pre ++ tx :: post /\
    Forall second_output_ok pre /\ stuck tx /\ is_coinbase tx = false /\
    forall x, bal m x = bal (g_sheetMap st) x + block_effect pre x
                        + at_address (recipientAddress1 (stx tx)) (tx_amount1 (stx tx)) x
                        - at_address (senderAddress (stx tx)) (spend_of tx) x.

(** The block is on the chain and everything that depends on it is up to date. *)
Definition appended (st : node) (b : block) (txs : list signed_transaction) (st' : node) : Prop :=
  blocks st' = blocks st ++ [b] /\ (forall x, bal (g_sheetMap st') x = bal (g_sheetMap st) x + block_effect txs x) /\
  total (g_sheetMap st') = total (g_sheetMap st) + g_currentReward st /\
  val (g_currentSupply st') = val (g_currentSupply st) + (g_currentReward st + fee_sum txs) /\
  (forall h, TxMempool_Lookup (g_txMempool st') h =
     if bool_decide (h ∈ map Transaction_CalculateHash (noncoinbase txs)) then None
     else TxMempool_Lookup (g_txMempool st) h) /\
  g_difficultyTarget st' = Chain_GetTargetForHeight (blocks st') (Z.of_nat (length (blocks st'))).

Lemma commit_sheet st L b txs e st' :
  ledger_ok st L -> good_block b -> transactions b = Some txs -> admission st b txs = Some e ->
  commit st b txs e = (true, st') -> forall x, bal (g_sheetMap st') x = bal (g_sheetMap st) x + block_effect txs x.
Proof.
  intros (HL & _) [Hb Hso] Et Ha. destruct (admit_inv st b txs e Et Ha) as (fees & Hsel & Hval & _ & -> & _).
  pose proof (ledger_valid_facts _ _ HL) as (_ & _ & _ & Hok & _). pose proof (ledger_room _ _ HL) as Hroom.
  destruct (admitted_facts _ b txs _ fees Hb Et Hok ltac:(lia) Hsel Hval) as (Had & Hsol & Hsum & ->).
  pose proof (u64_range (g_currentReward st + fee_sum txs)) as Hu. unfold_cint. rewrite <- Hsum in Hu.
  destruct (ledger_pass_spec (g_sheetMap st) txs Hok Had (Hso _ Et) Hsol ltac:(lia)) as (m' & E & (_ & B & _) & _).
  unfold commit. rewrite E. intros [= <-]. exact B.
Qed.

Lemma decide_extends st b : node_ok st -> extends (blocks st) b \/ ~ extends (blocks st) b.
Proof.
  intros Hok. destruct (check_pow_spec st b Hok) as (c & _ & _ & Hp). unfold extends.
  destruct (links_to_tip (blocks st) b); [|by right; intros [? _]].
  destruct (decide (difficultyTarget (header b) = Chain_GetTargetForHeight (blocks st) (Z.of_nat (length (blocks st))))); [|by right; intros (_ & ? & _)].
  destruct (fst (check_pow st b)); [left|right]; [split; [done|]; split; [done|]; by apply Hp|].
  intros (_ & _ & H). by apply Hp in H.
Qed.

(** Past every check, the second outputs decide. *)
Lemma AddBlock_admissible st L b txs :
  inv st L -> block_ok b -> admissible st b txs ->
  (Forall second_output_ok txs /\ fst (Chain_AddBlock st b) = true /\ appended st b txs (snd (Chain_AddBlock st b))) \/
  (~ Forall second_output_ok txs /\ fst (Chain_AddBlock st b) = false /\ left_half_applied st b txs (snd (Chain_AddBlock st b))).
Proof.
  intros (Hok & HL & (Hu & _)) Hb (Et & Hx & Hacc). destruct (ledger_sheet_ok st L HL) as [Hm Ht].
  pose proof (acceptable_admit st b txs Hb Et Hm Ht Hu Hacc) as Ha.
  destruct (AddBlockLocked_commits st b txs _ Hok Et Hx Ha) as [c E]. unfold Chain_AddBlock. rewrite E.
  pose proof (set_dag_ledger st c L HL) as HLc. destruct (decide (Forall second_output_ok txs)) as [Hso|Hso].
  - left. assert (Hg : good_block b) by (split; [done|intros t Et'; by replace t with txs by congruence]).
    destruct (commit_ok (set_dag st c) L b txs _ HLc Hg Et (proj1 Hx) Ha) as (st' & Ec & _ & Eb & T & V).
    pose proof (commit_sheet (set_dag st c) L b txs _ st' HLc Hg Et Ha Ec) as B. rewrite Ec in *. cbn [fst snd].
    split; [done|]. split; [done|]. cbn [set_dag g_sheetMap g_currentSupply blocks] in *.
    split; [done|]. split; [exact B|]. split; [cbn [Chain_OnTipAdvanced set_target g_sheetMap]; lia|]. split; [exact V|].
    split; [|done]. intros h. cbn [Chain_OnTipAdvanced set_target g_txMempool].
    rewrite (AddBlockLocked_pool st b st' txs E Et). apply remove_mined_lookup.
  - right. destruct (commit_stuck (set_dag st c) L b txs _ HLc Hb Et Ha Hso) as (pre & tx & post & m & E1 & H1 & H2 & H3 & -> & B).
    split; [done|]. split; [done|]. by exists c, m, pre, tx, post.
Qed.

Lemma decide_admissible st b L :
  inv st L -> block_ok b -> (exists txs, admissible st b txs) \/ forall txs, ~ admissible st b txs.
Proof.
  intros (Hok & HL & (Hu & _)) Hb. destruct (ledger_sheet_ok st L HL) as [Hm Ht].
  destruct (AddBlockLocked_cases st b Hok) as (c & _ & H).
  destruct (transactions b) as [txs|] eqn:Et; [|right; intros txs [E _]; congruence].
  destruct (admission st b txs) as [e|] eqn:Ea.
  2: { right. intros t (E & _ & Hacc). assert (t = txs) as -> by congruence. rewrite (acceptable_admit st b txs Hb Et Hm Ht Hu Hacc) in Ea. done. }
  destruct (decide_extends st b Hok) as [Hx|Hx].
  - left. exists txs. split; [done|]. split; [done|]. by apply (admit_acceptable st b txs e Hb Et Hm Ht Hu).
  - right. by intros t (_ & ? & _).
Qed.

(** Otherwise nothing but the memo table moves. *)
Lemma AddBlock_inadmissible st L b :
  inv st L -> block_ok b -> (forall txs, ~ admissible st b txs) ->
  fst (Chain_AddBlock st b) = false /\ exists c, snd (Chain_AddBlock st b) = set_dag st c.
Proof.
  intros (Hok & HL & (Hu & _)) Hb Hn. destruct (ledger_sheet_ok st L HL) as [Hm Ht]. unfold Chain_AddBlock.
  destruct (AddBlockLocked_cases st b Hok) as (c & _ & [->|[->|(txs & e & Et & Hx & Ha & _)]]).
  - split; [done|]. by exists c.
  - split; [done|]. exists (dagEpochs st). by destruct st.
  - destruct (Hn txs). split; [done|]. split; [done|]. by apply (admit_acceptable st b txs e Hb Et Hm Ht Hu).
Qed.

(** ** What a running node does to its chain *)

(** A branch won, the swap failed, and the old blocks did not all come back. *)
Definition branch_lost (st : node) : Prop :=
  exists f l o bp now, branch_wins st f l o bp now = true /\ fst (Chain_ReplaceBranch st f l o bp now) = false /\
    map header (blocks (snd (Chain_ReplaceBranch st f l o bp now))) <> map header (blocks st).

(** The headers of the first chain begin the second. *)
Definition chain_kept (st st' : node) : Prop := map header (blocks st) `prefix_of` map header (blocks st').

Lemma work_sum_headers l k : map header l = map header k -> work_sum l = work_sum k.
Proof. revert k; induction l as [|b l IH]; intros [|c k] E; try done. injection E as E1 E2. cbn [work_sum foldr]. rewrite E1. f_equal. by apply IH. Qed.

Lemma work_sum_nonneg l : 0 <= work_sum l.
Proof. induction l as [|b l IH]; [done|]. cbn [work_sum foldr]. pose proof (work_nonneg (difficultyTarget (header b))). unfold work_sum in *. lia. Qed.

Lemma chain_kept_work st st' : chain_kept st st' -> work_sum (blocks st) <= work_sum (blocks st').
Proof.
  intros [k E]. rewrite <- (take_drop (length (blocks st)) (blocks st')) in E |- *. rewrite map_app in E.
  assert (Hl : (length (blocks st) <= length (blocks st'))%nat).
  { apply (f_equal length) in E. rewrite !length_app, !length_map, length_take, length_drop in E. lia. }
  apply app_inj_1 in E as [E _]; [|rewrite !length_map, length_take; lia].
  rewrite work_sum_app, (work_sum_headers _ _ E). pose proof (work_sum_nonneg (drop (length (blocks st)) (blocks st'))). lia.
Qed.

Lemma consensus_targets chain : consensus_ok chain -> targets_ok chain.
Proof.
  intros Hc. apply Forall_lookup. intros i b Hb. destruct (Hc i b Hb) as (_ & -> & _).
  pose proof (lookup_lt_Some _ _ _ Hb). apply GetTarget_good. rewrite length_take. lia.
Qed.

Lemma AddBlockLocked_blocks st b :
  blocks (snd (Chain_AddBlockLocked st b)) = blocks st ++ [b] \/
  (fst (Chain_AddBlockLocked st b) = false /\ blocks (snd (Chain_AddBlockLocked st b)) = blocks st).
Proof.
  unfold Chain_AddBlockLocked, check_pow. destruct (transactions b); [|by right]. destruct (links_to_tip _ b); cbn [negb]; [|by right].
  destruct (Chain_DagParamsForHeightLocked _ _ _) as [[[n s]|] c]; [|by right].
  destruct (Block_HasValidProofOfWorkWithParams _ _ _ _ _); cbn [negb]; [|by right].
  destruct (_ =? _); cbn [negb]; [|by right]. destruct (admission _ b _) as [e|]; [|by right]. unfold commit.
  destruct (ledger_pass _ _) as [ok m]. by left.
Qed.

Lemma apply_blocks_blocks st l :
  blocks st `prefix_of` blocks (snd (apply_blocks st l)) /\
  (fst (apply_blocks st l) = true -> blocks (snd (apply_blocks st l)) = blocks st ++ l).
Proof.
  revert st; induction l as [|b r IH]; intros st; cbn [apply_blocks]; [split; [done|by rewrite app_nil_r]|].
  pose proof (AddBlockLocked_blocks st b) as H. destruct (Chain_AddBlockLocked st b) as [[] st1]; cbn [fst snd] in *.
  - destruct H as [H|[H _]]; [|done]. destruct (IH st1) as [H1 H2]. rewrite H in *. split; [by eapply prefix_app_l|].
    intros Ht. by rewrite H2, <- app_assoc.
  - split; [|done]. destruct H as [->|[_ ->]]; [by apply prefix_app_r|done].
Qed.

Lemma RollbackLocked_blocks st h : blocks (snd (Chain_RollbackToHeightLocked st h)) = take h (blocks st).
Proof.
  unfold Chain_RollbackToHeightLocked. destruct (Nat.leb_spec (length (blocks st)) h); [by rewrite take_ge|].
  by destruct (replay_blocks _ _ _ _) as [ok [s m]].
Qed.

(** The blocks below the fork stay, whatever happens above it. *)
Lemma swap_branch_blocks st h snap l :
  take h (blocks st) `prefix_of` blocks (snd (swap_branch st h snap l)) /\
  (fst (swap_branch st h snap l) = true -> blocks (snd (swap_branch st h snap l)) = take h (blocks st) ++ l).
Proof.
  unfold swap_branch. pose proof (RollbackLocked_blocks st h) as E1.
  destruct (Chain_RollbackToHeightLocked st h) as [[] st1]; cbn [negb fst snd] in *; [|by rewrite E1].
  destruct (apply_blocks_blocks st1 l) as [H1 H2]. destruct (apply_blocks st1 l) as [[] st2]; cbn [fst snd] in *; rewrite E1 in *; [by auto|].
  pose proof (RollbackLocked_blocks st2 h) as E3.
  assert (E : take h (blocks st2) `prefix_of` blocks st2) by (exists (drop h (blocks st2)); by rewrite take_drop).
  assert (Hp : take h (blocks st) `prefix_of` take h (blocks st2)).
  { destruct H1 as [k ->]. rewrite take_app, take_take, Nat.min_id. by apply prefix_app_r. }
  destruct (Chain_RollbackToHeightLocked st2 h) as [[] st3]; cbn [negb fst snd] in *; (split; [|done]); [|by rewrite E3].
  etrans; [exact Hp|]. rewrite <- E3. apply apply_blocks_blocks.
Qed.

Lemma ReplaceBranch_live st f l o bp now :
  node_ok st -> let r := Chain_ReplaceBranch st f l o bp now in
  (exists k, (0 < k)%nat /\ take k (blocks st) `prefix_of` blocks (snd r)) /\
  (chain_kept st (snd r) \/ work_sum (blocks st) < work_sum (blocks (snd r)) \/ branch_lost st).
Proof.
  intros Hok r. assert (Hsame : blocks (snd r) = blocks st -> (exists k, (0 < k)%nat /\ take k (blocks st) `prefix_of` blocks (snd r)) /\
    (chain_kept st (snd r) \/ work_sum (blocks st) < work_sum (blocks (snd r)) \/ branch_lost st)).
  { intros E. unfold chain_kept. rewrite E. split; [|by left]. exists (S (length (blocks st))). split; [lia|]. by rewrite take_ge by lia. }
  destruct (branch_wins st f l o bp now) eqn:Ew.
  2: { apply Hsame. subst r. unfold Chain_ReplaceBranch. rewrite Ew. by destruct (_ || _). }
  destruct (branch_wins_inv _ _ _ _ _ _ Ew) as (Hf & Hl & _ & Hh). subst r.
  destruct (snapshot_blocks st f (length (blocks st) - f)) as [snap|] eqn:Es.
  2: { apply Hsame. unfold Chain_ReplaceBranch. rewrite Ew, Es. by destruct (_ || _). }
  assert (Hpos : (length l =? 0)%nat || (f =? 0)%nat = false) by (unfold Chain_BranchIsLinkedLocked in Hl; by destruct (_ || _)).
  pose proof (swap_branch_blocks st f snap (map Block_Copy l)) as [H1 H2]. pose proof (ReplaceBranch_ok st f l o bp now Hok) as Hok'.
  assert (E : Chain_ReplaceBranch st f l o bp now = let '(ok, st') := swap_branch st f snap (map Block_Copy l) in (ok, Chain_OnTipAdvanced st'))
    by (unfold Chain_ReplaceBranch; by rewrite Hpos, Ew, Es).
  assert (Eb : blocks (snd (Chain_ReplaceBranch st f l o bp now)) = blocks (snd (swap_branch st f snap (map Block_Copy l)))
      /\ fst (Chain_ReplaceBranch st f l o bp now) = fst (swap_branch st f snap (map Block_Copy l))) by (rewrite E; by destruct (swap_branch _ _ _ _)).
  destruct Eb as [Eb Ef]. rewrite <- Eb, <- Ef in *. apply orb_false_iff in Hpos as [_ Hpos]. apply Nat.eqb_neq in Hpos.
  split; [exists f; split; [lia|done]|]. destruct (fst (Chain_ReplaceBranch st f l o bp now)) eqn:Et.
  - right. left. rewrite (H2 eq_refl), copy_blocks. rewrite <- (take_drop f (blocks st)) at 1. rewrite !work_sum_app.
    assert (Hn : targets_ok l).
    { pose proof (consensus_targets _ (proj1 Hok')) as Ht. rewrite (H2 eq_refl), copy_blocks in Ht. by apply Forall_app in Ht as [_ ?]. }
    pose proof (heavier_work _ _ _ Hf (consensus_targets _ (proj1 Hok)) Hn Hh). lia.
  - destruct (decide (map header (blocks (snd (Chain_ReplaceBranch st f l o bp now))) = map header (blocks st))) as [E'|E'].
    + left. unfold chain_kept. by rewrite E'.
    + right. right. by exists f, l, o, bp, now.
Qed.

(** One step of a running node: the genesis block stays; and the chain is still there, or it was
    exchanged for a heavier one, or a branch was lost. *)
Definition outcome (R : node -> node -> Prop) (st st' : node) : Prop :=
  (forall g, blocks st !! 0%nat = Some g -> exists g', blocks st' !! 0%nat = Some g' /\ header g' = header g) /\
  (chain_kept st st' \/ work_sum (blocks st) < work_sum (blocks st') \/ exists mid, rtc R st mid /\ branch_lost mid).

Lemma prefix_first (l k : list block) g : map header l `prefix_of` map header k -> l !! 0%nat = Some g ->
  exists g', k !! 0%nat = Some g' /\ header g' = header g.
Proof. intros [r E] H. destruct l as [|x l], k as [|y k]; try done. injection H as <-. injection E as E _. by exists y. Qed.

Lemma chain_kept_outcome R st st' : chain_kept st st' -> outcome R st st'.
Proof. intros H. split; [|by left]. intros g. by apply prefix_first. Qed.

Lemma same_blocks_outcome R st st' : blocks st' = blocks st -> outcome R st st'.
Proof. intros E. apply chain_kept_outcome. unfold chain_kept. by rewrite E. Qed.

Lemma live_step_outcome R st st' : node_ok st -> live_step st st' -> outcome R st st'.
Proof.
  intros Hok Hs. destruct Hs as [st b|st f l o bp now|st|st p _|st h|st pool _].
  - apply chain_kept_outcome. unfold chain_kept. assert (E : blocks (snd (Chain_AddBlock st b)) = blocks (snd (Chain_AddBlockLocked st b)))
      by (unfold Chain_AddBlock; by destruct (Chain_AddBlockLocked st b) as [[] ?]).
    rewrite E. destruct (AddBlockLocked_blocks st b) as [->|[_ ->]]; [|done]. rewrite map_app. by apply prefix_app_r.
  - destruct (ReplaceBranch_live st f l o bp now Hok) as [(k & Hk & Hp) H]. split.
    + intros g Hg. apply (prefix_first (take k (blocks st)) _ g); [|by rewrite lookup_take_lt].
      destruct Hp as [r ->]. rewrite map_app. by apply prefix_app_r.
    + destruct H as [H|[H|H]]; [by left|by right; left|]. right. right. exists st. split; [apply rtc_refl|done].
  - apply chain_kept_outcome. unfold chain_kept. assert (E : same_headers (blocks (snd (node_save st))) (blocks st)).
    { unfold node_save, Chain_SaveToFile. pose proof (save_loop_compact (g_files st) 0 0 (blocks st)) as Hc.
      destruct (save_loop (g_files st) 0 0 (blocks st)) as [[[ok l] d] t]. cbn [fst snd] in Hc.
      destruct ok; cbn [negb]; [destruct (tip_fields (blocks st))|]; exact Hc. }
    by rewrite (same_headers_header _ _ E).
  - by apply same_blocks_outcome.
  - apply same_blocks_outcome. by destruct (DagParamsForHeight_spec st h Hok) as (c & _ & -> & _).
  - by apply same_blocks_outcome.
Qed.

Lemma outcome_rtc (R : node -> node -> Prop) :
  (forall st st', R st st' -> node_ok st -> node_ok st' /\ outcome R st st') ->
  forall st st', rtc R st st' -> node_ok st -> outcome R st st'.
Proof.
  intros HR st st' Hr. induction Hr as [st|st st1 st2 Hs Hr IH]; intros Hok; [by apply same_blocks_outcome|].
  destruct (HR _ _ Hs Hok) as [Hok1 [G1 O1]]. destruct (IH Hok1) as [G2 O2]. split.
  - intros g Hg. destruct (G1 g Hg) as (g1 & Hg1 & E1). destruct (G2 g1 Hg1) as (g2 & Hg2 & E2). exists g2. by split; [|congruence].
  - destruct O1 as [O1|[O1|O1]]; [| |by right; right].
    + destruct O2 as [O2|[O2|(mid & Hm & Hl)]].
      * left. unfold chain_kept in *. by etrans.
      * right. left. pose proof (chain_kept_work _ _ O1). lia.
      * right. right. exists mid. split; [by eapply rtc_l|done].
    + destruct O2 as [O2|[O2|(mid & Hm & Hl)]].
      * right. left. pose proof (chain_kept_work _ _ O2). lia.
      * right. left. lia.
      * right. right. exists mid. split; [by eapply rtc_l|done].
Qed.

Lemma live_outcome st st' : rtc live_step st st' -> node_ok st -> outcome live_step st st'.
Proof.
  apply outcome_rtc. intros x y Hs Hok. split; [by apply (node_step_ok x y); [apply live_node_step|]|by apply live_step_outcome].
Qed.

(** What the ledger invariant says of the counters. *)
Lemma ledger_conserved st L :
  ledger_ok st L ->
  exists txs, chain_transactions st = Some txs /\
    replay_txs (uint256_from_u64 0, BalanceSheet_Init) txs = (g_currentSupply st, g_sheetMap st) /\
    ledger_pass BalanceSheet_Init txs = (true, g_sheetMap st) /\
    val (g_currentSupply st) = coinbase_sum txs /\ total (g_sheetMap st) + fee_sum txs = val (g_currentSupply st).
Proof.
  intros (HL & HR & Hs & Hv). exists (all_txs L).
  pose proof (ledger_valid_facts L _ HL) as (_ & _ & Hp & _ & Ht & _).
  destruct (replay_valid L _ HL) as (s & Er & Os & Vs).
  split; [by apply chain_transactions_recovers|]. split; [|split; [done|split; [done|lia]]].
  rewrite Er. f_equal. apply uint256_val_inj; [done|done|congruence].
Qed.
End Facts.

(** ** A concrete history *)

Module Scenario.
#[export] Existing Instances Toy.ops Toy.laws.

Definition miner : bytes := Toy.sha (Toy.pub sample_key).
Definition mint (amount : Z) : signed_transaction :=
  mkSigned (mkTx 1700000000000 0 amount 0 COINBASE_ADDRESS miner (zeros 32) (zeros 33) 1 (zeros 6)) (zeros 64).
Definition make (n ts : Z) (prev : bytes) (txs : list signed_transaction) : block :=
  mkBlock (mkHeader n ts 0 prev (merkle_root txs) INITIAL_DIFFICULTY 1 (zeros 3)) (Some txs).

Definition start : node := node_init None 5000.
Definition genesis : block := make 0 1700000000000 (zeros 32) [mint 5000].
Definition node1 : node := snd (Chain_AddBlock start genesis).

(** The miner of genesis pays twice, with a fee of 7 each. *)
Definition payment (ts : Z) : signed_transaction :=
  Transaction_Sign (mkSigned (mkTx ts 7 1000 0 miner (replicate 32 2) (zeros 32) (Toy.pub sample_key) 1 (zeros 6)) (zeros 64))
    sample_key.
Definition reward1 : Z := 17592186044415.
Definition block1 : block :=
  make 1 1700000090000 (Block_CalculateHash genesis)
    [mint (reward1 + 14); payment 1700000000000; payment 1700000000001].
Definition node2 : node := snd (Chain_AddBlock node1 block1).

(** The miner of genesis pays a second amount to nobody. *)
Definition stuck1 : block :=
  make 1 1700000090000 (Block_CalculateHash genesis) [mint (reward1 + 7); Transaction_Sign stuck_payment sample_key].

(** A competing branch of two blocks on genesis. *)
Definition rival1 : block := make 1 1700000091000 (Block_CalculateHash genesis) [mint reward1].
Definition rival2 : block := make 2 1700000092000 (Block_CalculateHash rival1) [mint 17592169267199].
(** A branch that is linked and heavier, but whose second coinbase overpays. *)
Definition overpaid2 : block := make 2 1700000092000 (Block_CalculateHash rival1) [mint 17592169267200].
End Scenario.
Import Scenario.

Lemma genesis_good : good_block genesis.
Proof. split; [vm_decide|]. intros txs [= <-]. constructor; [by intros H|constructor]. Qed.

Lemma genesis_accepted : fst (Chain_AddBlock start genesis) = true.
Proof. vm_compute. reflexivity. Qed.

Lemma node1_reachable : reachable node1.
Proof. exists 5000. split; [vm_decide|]. apply rtc_once, good_add, genesis_good. Qed.

Lemma block1_good : good_block block1.
Proof. split; [vm_decide|]. intros txs [= <-]. repeat constructor; intros H; vm_compute in H; discriminate H. Qed.

Lemma stuck1_ok : block_ok stuck1.
Proof. vm_decide. Qed.

Lemma rivals_good : Forall good_block [rival1; rival2].
Proof.
  constructor; [|constructor; [|constructor]]; (split; [vm_decide|]); intros txs [= <-];
    (constructor; [by intros H|constructor]).
Qed.

Lemma overpaid_good : Forall good_block [rival1; overpaid2].
Proof.
  constructor; [|constructor; [|constructor]]; (split; [vm_decide|]); intros txs [= <-];
    (constructor; [by intros H|constructor]).
Qed.

Lemma node2_reachable : reachable node2.
Proof. exists 5000. split; [vm_decide|]. eapply rtc_r; [apply rtc_once, good_add, genesis_good|apply good_add, block1_good]. Qed.

Lemma node2_transactions :
  chain_transactions node2 = Some (mint 5000 :: mint (reward1 + 14) :: [payment 1700000000000; payment 1700000000001]).
Proof. vm_compute. reflexivity. Qed.

(** ** Properties *)

(** C1: every chain the node can reach is valid.  From an empty chain over any files and reward, through
    any sequence of appends, rollbacks, branch replacements, recomputations, saves, wipes and DAG
    rebuilds, on arbitrary blocks and whether the operations succeed or fail: every block carries its
    height as its number, the hash of its predecessor, the target the retargeting rule assigns to
    its height from the blocks before it, and a proof of work against the epoch parameters of that
    height; in particular [Chain_IsValid] answers yes. *)
Theorem reachable_chain_is_valid {ops : CryptoOps} {laws : CryptoLaws ops} files reward st :
  rtc node_step (node_init files reward) st ->
  Chain_IsValid (blocks st) = true /\
  forall i b, blocks st !! i = Some b ->
    blockNumber (header b) = Z.of_nat i /\
    (forall p, i <> 0%nat -> blocks st !! (i - 1)%nat = Some p -> prevHash (header b) = Block_CalculateHash p) /\
    difficultyTarget (header b) = Chain_GetTargetForHeight (take i (blocks st)) (Z.of_nat i) /\
    exists dagBytes seed, dag_params (take i (blocks st)) (Z.of_nat i) = Some (dagBytes, seed) /\
      pow_light b dagBytes seed = true.
Proof.
  intros Hr. destruct (node_reachable_ok files reward st Hr) as [Hc _]. split; [by apply consensus_valid|].
  intros i b Hi. pose proof (lookup_lt_Some _ _ _ Hi) as Hlt.
  destruct (Hc i b Hi) as (Hl & Ht & Hp). unfold links_to_tip in Hl.
  rewrite length_take, Nat.min_l in * by lia. apply andb_true_iff in Hl as [Hn Hh]. apply Z.eqb_eq in Hn.
  rewrite Hn in Hp. split; [done|]. split; [|done]. intros p Hi0 Hpi.
  rewrite (proj2 (Nat.ltb_lt 0 i)), lookup_take_lt, Hpi in Hh by lia. by apply memeq_true in Hh.
Qed.

Lemma reachable_chain_is_valid_witness : Chain_IsValid (blocks node1) = true.
Proof. apply (reachable_chain_is_valid None 5000 node1). apply rtc_once, step_add. Defined.

(** C2: coins are conserved.  In every state reached from genesis through appends, rollbacks, branch
    replacements, recomputations and saves, where every block offered is well formed (no transaction
    has a second amount without a second recipient: such a block passes the checks and leaves the
    ledger half applied, see [left_half_applied]) and no save fails, all transactions of the chain are recoverable (from memory or disk); replaying them from nothing
    gives exactly the node's balance sheet and supply counter; the counter is the sum of all
    coinbases; and the balances plus all fees ever paid equal it. *)
Theorem coins_conserved {ops : CryptoOps} {laws : CryptoLaws ops} st :
  reachable st ->
  exists txs, chain_transactions st = Some txs /\
    replay_txs (uint256_from_u64 0, BalanceSheet_Init) txs = (g_currentSupply st, g_sheetMap st) /\
    ledger_pass BalanceSheet_Init txs = (true, g_sheetMap st) /\
    val (g_currentSupply st) = coinbase_sum txs /\ total (g_sheetMap st) + fee_sum txs = val (g_currentSupply st).
Proof.
  intros Hr. destruct (reachable_inv st Hr) as [_ [L HL]]. by apply (ledger_conserved st L).
Qed.

Lemma coins_conserved_witness :
  exists txs, chain_transactions node1 = Some txs /\ total (g_sheetMap node1) + fee_sum txs = val (g_currentSupply node1).
Proof.
  destruct (coins_conserved node1 node1_reachable) as (txs & H & _ & _ & _ & E). exists txs. split; [exact H|exact E].
Defined.

(** C3: no payment is applied twice.  In every state reached on well-formed blocks (no transaction has a
    second amount without a second recipient) and without a failed save, two payments of one sender anywhere in
    the chain, in the same block or in different ones, have strictly increasing timestamps; so a
    transaction (or a re-signed copy of it) never occurs at two places. *)
Theorem no_payment_twice {ops : CryptoOps} {laws : CryptoLaws ops} st txs i j tx tx' :
  reachable st -> chain_transactions st = Some txs -> (i < j)%nat -> txs !! i = Some tx -> txs !! j = Some tx' ->
  is_coinbase tx = false -> is_coinbase tx' = false -> senderAddress (stx tx) = senderAddress (stx tx') ->
  tx_timestamp (stx tx) < tx_timestamp (stx tx') /\ stx tx <> stx tx'.
Proof.
  intros Hr Ht Hij Hi Hj Hc Hc' Es. destruct (reachable_inv st Hr) as [_ [L (HL & HR & _)]].
  rewrite (chain_transactions_recovers st L HR) in Ht. injection Ht as <-.
  pose proof (ledger_valid_facts L _ HL) as (_ & _ & _ & _ & _ & _ & _ & _ & _ & Ho).
  pose proof (in_order_lookup _ _ i j tx tx' Ho Hij Hi Hj Hc Hc' Es) as Hlt. split; [done|].
  intros E. rewrite E in Hlt. lia.
Qed.

Lemma no_payment_twice_witness : tx_timestamp (stx (payment 1700000000000)) < tx_timestamp (stx (payment 1700000000001)).
Proof.
  apply (no_payment_twice node2 _ 2 3 _ _ node2_reachable node2_transactions); [lia|reflexivity..].
Defined.

(** C4: what [Chain_AddBlock] accepts.  On a state reached on well-formed blocks and without a
    failed save, and for any block whatever (its fields have the widths of the structs), it answers
    yes exactly when the block extends the tip
    (number, parent hash, target, proof of work), its transactions are acceptable -- every one
    verifies, the payments are affordable in order from the balances before the block, there is one
    coinbase and it pays the current reward plus the fees, the sum fits 64 bits, and every sender's
    timestamps increase -- and no transaction pays a second amount to the empty address. *)
Theorem add_block_accepts_exactly {ops : CryptoOps} {laws : CryptoLaws ops} st b :
  reachable st -> block_ok b ->
  fst (Chain_AddBlock st b) = true <->
  exists txs, transactions b = Some txs /\ extends (blocks st) b /\
    acceptable (g_sheetMap st) (g_currentReward st) txs /\ Forall second_output_ok txs.
Proof.
  intros Hr Hb. destruct (reachable_history st Hr) as [L Hi]. split.
  - intros Ht. destruct (decide_admissible st b L Hi Hb) as [[txs Ha]|Hn].
    + destruct (AddBlock_admissible st L b txs Hi Hb Ha) as [(Hs & _)|(_ & Hf & _)]; [|congruence].
      destruct Ha as (? & ? & ?). by exists txs.
    + destruct (AddBlock_inadmissible st L b Hi Hb Hn) as [Hf _]. congruence.
  - intros (txs & Et & Hx & Hacc & Hs). by destruct (AddBlock_admissible st L b txs Hi Hb (conj Et (conj Hx Hacc))) as [(_ & ? & _)|[? _]].
Qed.

Lemma add_block_accepts_exactly_witness :
  (exists txs, transactions block1 = Some txs /\ extends (blocks node1) block1 /\
    acceptable (g_sheetMap node1) (g_currentReward node1) txs /\ Forall second_output_ok txs) /\
  fst (Chain_AddBlock node1 stuck1) = false.
Proof.
  split.
  - apply (add_block_accepts_exactly node1 block1 node1_reachable); [apply block1_good|vm_compute; reflexivity].
  - vm_compute. reflexivity.
Defined.

(** C5: what an append does.  On a state reached on well-formed blocks and without a failed save,
    and for any block whatever (its fields have the widths of the structs), there are three outcomes.
    A block that fails a check before the
    push is refused and nothing changes but the memo table of epoch sizes.  A block that passes every
    check is accepted if no transaction pays a second amount to the empty address: the block is on
    top, every account moves by the transactions' effects on it, exactly the block reward is created
    (fees only move), reward and fees are added to the supply counter, the block's payments leave the
    pool and the target is the one of the next height.  If some transaction does, the answer is no
    although the block stays on top of the chain: its payments are out of the pool, the transactions
    before the first such one are applied, of that one only the debit and the first credit, the rest
    not at all, and supply, reward and target are the old ones. *)
Theorem add_block_effect {ops : CryptoOps} {laws : CryptoLaws ops} st b :
  reachable st -> block_ok b ->
  let ok := fst (Chain_AddBlock st b) in let st' := snd (Chain_AddBlock st b) in
  (ok = false /\ (forall txs, ~ admissible st b txs) /\ exists c, st' = set_dag st c) \/
  (exists txs, ok = true /\ admissible st b txs /\ Forall second_output_ok txs /\ appended st b txs st') \/
  (exists txs, ok = false /\ admissible st b txs /\ ~ Forall second_output_ok txs /\ left_half_applied st b txs st').
Proof.
  intros Hr Hb ok st'. destruct (reachable_history st Hr) as [L Hi]. destruct (decide_admissible st b L Hi Hb) as [[txs Ha]|Hn].
  - right. destruct (AddBlock_admissible st L b txs Hi Hb Ha) as [(Hs & Ho & Happ)|(Hs & Ho & Hh)]; [left|right]; by exists txs.
  - left. destruct (AddBlock_inadmissible st L b Hi Hb Hn) as [Hf Hc]. done.
Qed.

Lemma add_block_effect_witness :
  total (g_sheetMap (snd (Chain_AddBlock node1 block1))) = total (g_sheetMap node1) + g_currentReward node1 /\
  exists txs, left_half_applied node1 stuck1 txs (snd (Chain_AddBlock node1 stuck1)).
Proof.
  assert (E1 : fst (Chain_AddBlock node1 block1) = true) by (vm_compute; reflexivity).
  assert (E2 : length (blocks (snd (Chain_AddBlock node1 stuck1))) = 2%nat) by (vm_compute; reflexivity).
  assert (E2' : length (blocks node1) = 1%nat) by (vm_compute; reflexivity).
  assert (E3 : fst (Chain_AddBlock node1 stuck1) = false) by (vm_compute; reflexivity).
  pose proof (add_block_effect node1 block1 node1_reachable (proj1 block1_good)) as H1.
  pose proof (add_block_effect node1 stuck1 node1_reachable stuck1_ok) as H2. cbv zeta in H1, H2.
  rewrite E1 in H1. rewrite E3 in H2. split.
  - destruct H1 as [(H & _)|[(txs & _ & _ & _ & H)|(txs & H & _)]]; [discriminate H| |discriminate H].
    destruct H as (_ & _ & T & _). exact T.
  - destruct H2 as [(_ & _ & c & H)|[(txs & H & _)|(txs & _ & _ & _ & H)]]; [|discriminate H|exists txs; exact H].
    rewrite H in E2. change (blocks (set_dag node1 c)) with (blocks node1) in E2. rewrite E2' in E2. discriminate E2.
Defined.

(** C12: rolling back.  On a state reached on well-formed blocks and without a failed save (after one it
    can fail, see [SaveFailure]), [Chain_RollbackToHeight] succeeds, keeps exactly the first
    [height] blocks, leaves the balance sheet and supply that replaying the remaining transactions
    from nothing gives, keeps everything that was in the pool and returns every payment of the
    discarded blocks to it. *)
Theorem rollback_exact {ops : CryptoOps} {laws : CryptoLaws ops} st height :
  reachable st ->
  let st' := snd (Chain_RollbackToHeight st height) in
  fst (Chain_RollbackToHeight st height) = true /\ blocks st' = take height (blocks st) /\
  (forall t, pooled (g_txMempool st) t -> pooled (g_txMempool st') t) /\
  exists kept discarded, chain_transactions st = Some (kept ++ discarded) /\ chain_transactions st' = Some kept /\
    replay_txs (uint256_from_u64 0, BalanceSheet_Init) kept = (g_currentSupply st', g_sheetMap st') /\
    forall t, t ∈ discarded -> is_coinbase t = false -> pooled (g_txMempool st') t.
Proof.
  intros Hr st'. destruct (reachable_inv st Hr) as [_ [L HL]].
  destruct (RollbackLocked_ledger st L height HL) as (s1 & E & (HL1 & HR1 & Os & Vs) & Eb).
  assert (Est : st' = Chain_OnTipAdvanced s1) by (subst st'; unfold Chain_RollbackToHeight; by rewrite E).
  split; [unfold Chain_RollbackToHeight; by rewrite E|]. split; [by rewrite Est|].
  split; [intros t; apply rollback_keeps_pool|].
  exists (all_txs (take height L)), (all_txs (drop height L)). rewrite all_txs_split.
  split; [apply chain_transactions_recovers, HL|]. split; [apply chain_transactions_recovers; by rewrite Est|].
  split; [|intros t Ht Hc; by apply discarded_pooled with L].
  destruct (replay_valid _ _ HL1) as (s & Er & Os' & Vs'). rewrite Est. cbn [Chain_OnTipAdvanced set_target g_sheetMap g_currentSupply].
  rewrite Er. f_equal. apply uint256_val_inj; [done|done|congruence].
Qed.

Lemma rollback_exact_witness :
  fst (Chain_RollbackToHeight node2 1) = true /\
  exists kept discarded, chain_transactions node2 = Some (kept ++ discarded) /\
    chain_transactions (snd (Chain_RollbackToHeight node2 1)) = Some kept.
Proof.
  destruct (rollback_exact node2 1 node2_reachable) as (H & _ & _ & kept & discarded & E1 & E2 & _).
  split; [exact H|]. exists kept, discarded. split; [exact E1|exact E2].
Defined.

(** C6: replacing a branch.  On a reachable state and well-formed candidate blocks, success means the
    branch won -- it is linked to the block below the fork, the reorganisation penalty was served,
    bypassed by the operator or waived during initial download -- the new chain is the common prefix
    followed by the candidate blocks, and its total work is strictly greater than the old chain's.
    A branch that does not win changes nothing but the cached target. *)
Theorem replace_branch_exact {ops : CryptoOps} {laws : CryptoLaws ops} st fork new observed bypass now :
  reachable st -> Forall good_block new ->
  let r := Chain_ReplaceBranch st fork new observed bypass now in
  (fst r = true ->
     Chain_BranchIsLinkedLocked (blocks st) fork new = true /\
     (bypass = true \/ Chain_IsInitialBlockDownload (blocks st) now = true \/ fork = length (blocks st) \/
      penalty_served (length (blocks st)) fork (length new) observed = true) /\
     blocks (snd r) = take fork (blocks st) ++ new /\ work_sum (blocks st) < work_sum (blocks (snd r))) /\
  (branch_wins st fork new observed bypass now = false -> snd r = st \/ snd r = Chain_OnTipAdvanced st).
Proof.
  intros Hr Hg r. destruct (reachable_inv st Hr) as [Hok [L HL]].
  destruct (ReplaceBranch_ledger st L fork new observed bypass now Hok HL Hg) as (L' & _ & H & _). split.
  - intros Ht. destruct (H Ht) as [Hw Hb]. apply branch_wins_inv in Hw as (W0 & W1 & W2 & W3).
    split; [done|]. split; [done|]. split; [done|]. subst r. rewrite Hb.
    rewrite <- (take_drop fork (blocks st)) at 1. rewrite !work_sum_app.
    pose proof (heavier_work _ _ _ W0 (ledger_targets st L HL) (good_targets new Hg) W3). lia.
  - intros Hw. subst r. unfold Chain_ReplaceBranch. rewrite Hw. destruct (_ || _); cbn [negb snd]; auto.
Qed.

Lemma replace_branch_exact_witness :
  blocks (snd (Chain_ReplaceBranch node2 1 [rival1; rival2] 1 false 1800000000000)) = [genesis; rival1; rival2].
Proof.
  destruct (replace_branch_exact node2 1 [rival1; rival2] 1 false 1800000000000 node2_reachable) as [H _].
  - apply rivals_good.
  - destruct (H ltac:(vm_compute; reflexivity)) as (_ & _ & -> & _). vm_compute. reflexivity.
Defined.

(** C13: a failed reorganisation leaves the node as it was.  On a reachable state and well-formed
    candidate blocks, wherever the attempt failed -- before the swap, or after some of the candidate
    blocks were applied -- the chain has the same headers and the same transactions, and the balance
    sheet, the supply and the reward are the old ones.  The proviso concerns the schedule: at the
    heights from the fork to the tip the reward must not depend on its cached value ([settled], as in
    phase one); after phase one it does, and the restored blocks may be refused. *)
Theorem failed_replace_restores {ops : CryptoOps} {laws : CryptoLaws ops} st fork new observed bypass now :
  reachable st -> Forall good_block new ->
  (forall j s, (fork <= j <= length (blocks st))%nat -> rebuild_supply st 0 j (uint256_from_u64 0) = Some s ->
     settled s (Z.of_nat j)) ->
  fst (Chain_ReplaceBranch st fork new observed bypass now) = false ->
  let st' := snd (Chain_ReplaceBranch st fork new observed bypass now) in
  map header (blocks st') = map header (blocks st) /\ chain_transactions st' = chain_transactions st /\
  g_sheetMap st' = g_sheetMap st /\ g_currentSupply st' = g_currentSupply st /\ g_currentReward st' = g_currentReward st.
Proof.
  intros Hr Hg Hset Ef st'. destruct (branch_wins st fork new observed bypass now) eqn:Ew.
  2: { assert (E : st' = st \/ st' = Chain_OnTipAdvanced st)
         by (subst st'; unfold Chain_ReplaceBranch; rewrite Ew; destruct (_ || _); cbn [negb snd]; auto).
       by destruct E as [->| ->]. }
  destruct (reachable_history st Hr) as [L Hinv]. pose proof Hinv as (_ & HL & (_ & Hg0 & _)).
  apply branch_wins_inv in Ew as (Hf & Hl & _). pose proof HL as (HLv & HR & _). pose proof HR as [Hlen _].
  assert (Hpos : (0 < fork)%nat).
  { unfold Chain_BranchIsLinkedLocked in Hl. destruct (Nat.eqb_spec fork 0); [by rewrite orb_true_r in Hl|lia]. }
  assert (Hset' : forall j, (fork <= j <= length L)%nat -> settled (supply_of (take j L)) (Z.of_nat j)).
  { intros j Hj. apply Hset; [lia|]. apply rebuild_prefix; [done|lia]. }
  destruct (inv_replace st L fork new observed bypass now Hinv Hg) as [_ H].
  destruct (H Ef) as [(_ & HL' & (_ & Hg' & _)) Hsame]; [intros j Hj; apply Hset'; lia|]. fold st' in HL', Hg', Hsame.
  pose proof HL' as (HLv' & HR' & _).
  split; [by apply same_headers_header|]. split; [by rewrite !(chain_transactions_recovers _ L)|].
  split; [by apply (ledger_valid_unique L)|]. split; [by rewrite (ledger_supply _ _ HL'), (ledger_supply _ _ HL)|].
  assert (Hne : L <> []) by (intros ->; cbn in Hlen; lia).
  destruct (Hg0 Hne) as [g ->], (Hg' Hne) as [g' ->].
  specialize (Hset' (length L) ltac:(lia)). rewrite firstn_all in Hset'. apply Hset'.
Qed.

Lemma failed_replace_restores_witness :
  chain_transactions (snd (Chain_ReplaceBranch node2 1 [rival1; overpaid2] 1 false 1800000000000)) = chain_transactions node2 /\
  g_sheetMap (snd (Chain_ReplaceBranch node2 1 [rival1; overpaid2] 1 false 1800000000000)) = g_sheetMap node2.
Proof.
  destruct (failed_replace_restores node2 1 [rival1; overpaid2] 1 false 1800000000000 node2_reachable overpaid_good)
    as (_ & H1 & H2 & _).
  - assert (Hn : length (blocks node2) = 2%nat) by (vm_compute; reflexivity). rewrite Hn. intros j s Hj.
    assert (j = 1%nat \/ j = 2%nat) as [-> | ->] by lia.
    + assert (E : rebuild_supply node2 0 1 (uint256_from_u64 0) = Some [5000; 0; 0; 0]) by (vm_compute; reflexivity).
      rewrite E. intros [= <-]. apply phase1_settled; [vm_decide|vm_compute; reflexivity|vm_decide|vm_compute; reflexivity].
    + assert (E : rebuild_supply node2 0 2 (uint256_from_u64 0) = Some [17592186049429; 0; 0; 0]) by (vm_compute; reflexivity).
      rewrite E. intros [= <-]. apply phase1_settled; [vm_decide|vm_compute; reflexivity|vm_decide|vm_compute; reflexivity].
  - vm_compute. reflexivity.
  - split; [exact H1|exact H2].
Defined.

(** Saving and recomputing are invisible to the ledger.  On a reachable state whose blocks fit a
    file, [Chain_SaveToFile] succeeds, replaces every block by its header, and afterwards the same
    transactions are read back for the whole chain; [Chain_RecomputeRuntimeState] succeeds as well
    and finds the supply counter it replaces already right. *)
Theorem save_and_recompute_transparent {ops : CryptoOps} {laws : CryptoLaws ops} st :
  reachable st ->
  (forall L, resolve_all (g_files st) 0 (blocks st) = Some L -> Z.of_nat (length (data_of L)) <= LONG_MAX) ->
  fst (node_save st) = true /\ blocks (snd (node_save st)) = map compact (blocks st) /\
  chain_transactions (snd (node_save st)) = chain_transactions st /\
  fst (Chain_RecomputeRuntimeState (snd (node_save st))) = true /\
  g_currentSupply (snd (Chain_RecomputeRuntimeState (snd (node_save st)))) = g_currentSupply st.
Proof.
  intros Hr Hfit. destruct (reachable_inv st Hr) as [_ [L HL]]. pose proof HL as (_ & HR & _).
  assert (Hlen : Z.of_nat (length (data_of L)) <= LONG_MAX).
  { apply Hfit. pose proof (recovers_resolve (blocks st) (g_files st) L (length L) 0 HR ltac:(lia)) as Hres. by rewrite !drop_0 in Hres. }
  destruct (node_save_ledger st L HL Hlen) as (E1 & HL1 & Eb). split; [done|]. split; [done|].
  split; [pose proof HL1 as (_ & HR1 & _); by rewrite !(chain_transactions_recovers _ L)|].
  destruct (Recompute_ledger _ L HL1) as (st2 & E2 & _ & Es). rewrite E2. cbn [fst snd]. split; [done|].
  rewrite Es. unfold node_save. by destruct (Chain_SaveToFile _ _ _ _) as [[? ?] ?].
Qed.

Lemma save_and_recompute_transparent_witness :
  chain_transactions (snd (node_save node2)) = chain_transactions node2.
Proof.
  refine (proj1 (proj2 (proj2 (save_and_recompute_transparent node2 node2_reachable _)))).
  assert (E : resolve_all (g_files node2) 0 (blocks node2) =
    Some [(header genesis, [mint 5000]);
          (header block1, [mint (reward1 + 14); payment 1700000000000; payment 1700000000001])])
    by (vm_compute; reflexivity).
  rewrite E. intros L HL. apply (inj Some) in HL. subst L. vm_compute. discriminate.
Defined.

(** Initial block download, decided from the median of the last eleven timestamps.  The median is
    one of the samples, with more than half of them at or below it and at least half at or above;
    the node considers itself in initial download exactly when the chain is empty or its nonzero
    median lies more than twenty target block times (1,800,000 ms) before the clock. *)
Theorem initial_download_exact chain now :
  let samples := map (fun b => timestamp (header b)) (take MEDIAN_TIME_SPAN (rev chain)) in
  let median := Chain_MedianTimePastLocked chain in
  (chain <> [] -> median ∈ samples /\ (length samples / 2 < at_most median samples)%nat /\
     (length samples - length samples / 2 <= at_least median samples)%nat) /\
  (Chain_IsInitialBlockDownload chain now = true <-> chain = [] \/ (median <> 0 /\ median + 1800000 < now)).
Proof.
  intros samples median. split.
  - intros Hne. assert (Hs : samples <> []).
    { subst samples. intros E%map_eq_nil. apply Hne. destruct chain as [|b r] using rev_ind; [done|].
      by rewrite rev_app_distr in E. }
    pose proof (median_counts samples Hs) as Hm. subst median. unfold Chain_MedianTimePastLocked.
    assert (Et : take (Nat.min (length chain) MEDIAN_TIME_SPAN) (rev chain) = take MEDIAN_TIME_SPAN (rev chain)).
    { destruct (Nat.le_ge_cases (length chain) MEDIAN_TIME_SPAN).
      - rewrite Nat.min_l, !take_ge by (rewrite ?length_rev; lia). done.
      - by rewrite Nat.min_r by lia. }
    rewrite Et. fold samples. destruct (Nat.eqb_spec (length samples) 0) as [E|_]; [by destruct samples|exact Hm].
  - unfold Chain_IsInitialBlockDownload. fold median. clear samples. clearbody median. destruct chain as [|b r].
    + split; [by left|done].
    + cbn [length Nat.eqb]. change (IBD_TIP_AGE_BLOCKS * TARGET_BLOCK_TIME * 1000) with 1800000.
      destruct (Z.eqb_spec median 0), (Z.leb_spec now median), (Z.ltb_spec 1800000 (now - median)); cbn [orb];
        (split; [intros ?|intros [?|[? ?]]]); try done; try lia; right; lia.
Qed.

Lemma initial_download_exact_witness : Chain_MedianTimePastLocked [genesis; block1] ∈ [1700000090000; 1700000000000].
Proof. apply (proj1 (initial_download_exact [genesis; block1] 0)). discriminate. Defined.

Section Validity.
Context {ops : CryptoOps}.

Lemma check_pow_is st b : Block_HasValidProofOfWork st b = check_pow st b.
Proof. unfold Block_HasValidProofOfWork, check_pow, Chain_DagParamsForHeight. by destruct (Chain_DagParamsForHeightLocked _ _ _) as [[[]|] c]. Qed.

(** A block of valid structure that the chain takes is fully valid for the chain that takes it. *)
Lemma accepted_is_fully_valid st b : fst (Chain_AddBlock st b) = true -> Block_HasValidStructure b = true -> fst (Block_IsFullyValid st b) = true.
Proof.
  intros Ha Hs. unfold Block_IsFullyValid. rewrite Hs, check_pow_is. unfold Chain_AddBlock, Chain_AddBlockLocked in Ha.
  destruct (transactions b); [|done]. destruct (links_to_tip _ _); [|done]. cbn [negb] in Ha. by destruct (check_pow st b) as [[] st'].
Qed.
End Validity.
