(* ===== verification/OrphanPool.v ===== *)
(** * The orphan pool ([src/nets/orphan_pool.c])

    Blocks that do not extend the tip when they arrive wait here.  The pool refuses duplicates,
    evicts its oldest entry when full, follows parent hashes to collect branches, and offers them to
    the chain.  The pool lock is never held across a call into the chain; the model runs an attach
    attempt without other threads in between.  Removing from the vector keeps the order of the
    rest.  [clock] is what the chain's clock reads when a branch is offered at a fork height. *)
From Stdlib Require Import Sorting.Sorted.
From S2P Require Import Prelude Bytes UInt256 Utils Crypto Transaction Autolykos2 Block Emission.
From S2P Require Import BalanceSheet Ledger Difficulty DagEpochs Mempool Storage Chain ChainInvariant History ChainTheorems.

Definition MAX_ORPHAN_BLOCKS : nat := 512.

Record orphan_entry := mkOrphan {
  o_block : block;
  o_height : Z;
  o_observedAtTipHeight : Z;
  o_sequence : Z;
  o_hash : bytes
}.

Record orphan_pool := mkOrphans { g_orphans : list orphan_entry; g_nextSequence : Z }.

Definition OrphanPool_Init : orphan_pool := mkOrphans [] 0.

(** ** Entries *)

Fixpoint find_hash (i : nat) (l : list orphan_entry) (blockHash : bytes) : option nat :=
  match l with
  | [] => None
  | e :: r => if memeq (o_hash e) blockHash then Some i else find_hash (S i) r blockHash
  end.

Definition OrphanPool_FindByHashLocked (l : list orphan_entry) (blockHash : bytes) : option nat := find_hash 0 l blockHash.

Definition OrphanPool_Contains (p : orphan_pool) (blockHash : bytes) : bool :=
  bool_decide (is_Some (OrphanPool_FindByHashLocked (g_orphans p) blockHash)).

Definition OrphanPool_Size (p : orphan_pool) : nat := length (g_orphans p).

(** The scan for the lowest sequence number. *)
Fixpoint oldest_loop (i : nat) (l : list orphan_entry) (oldestIndex : nat) (oldestSequence : Z) : nat :=
  match l with
  | [] => oldestIndex
  | e :: r => if o_sequence e <? oldestSequence then oldest_loop (S i) r i (o_sequence e)
              else oldest_loop (S i) r oldestIndex oldestSequence
  end.

Definition OrphanPool_EvictOldestLocked (l : list orphan_entry) : bool * list orphan_entry :=
  if (length l =? 0)%nat then (false, l) else (true, delete (oldest_loop 0 l 0 UINT64_MAX) l).

(** [while (size >= MAX)]; every round removes one entry, so the length is fuel enough. *)
Fixpoint evict_loop (fuel : nat) (l : list orphan_entry) : list orphan_entry :=
  match fuel with
  | O => l
  | S f => if (MAX_ORPHAN_BLOCKS <=? length l)%nat then
             let '(ok, l) := OrphanPool_EvictOldestLocked l in if ok then evict_loop f l else l
           else l
  end.

Definition OrphanPool_DropByHashLocked (l : list orphan_entry) (blockHash : bytes) : list orphan_entry :=
  match OrphanPool_FindByHashLocked l blockHash with
  | None => l
  | Some index => delete index l
  end.

Definition OrphanPool_TakeByHashLocked (l : list orphan_entry) (blockHash : bytes) : option block * list orphan_entry :=
  match OrphanPool_FindByHashLocked l blockHash with
  | None => (None, l)
  | Some index => (o_block <$> l !! index, delete index l)
  end.

(** The first orphan at [height] whose parent is [prevHash]. *)
Fixpoint OrphanPool_FindChildLocked (l : list orphan_entry) (height : Z) (prev : bytes) : option orphan_entry :=
  match l with
  | [] => None
  | e :: r =>
      if negb (o_height e =? height) then OrphanPool_FindChildLocked r height prev
      else if negb (memeq (prevHash (header (o_block e))) prev) then OrphanPool_FindChildLocked r height prev
      else Some e
  end.

(** The loop of [OrphanPool_CollectBranchLocked]: the entries followed, and the earliest observation. *)
Fixpoint collect_loop (fuel : nat) (l : list orphan_entry) (cursor : Z) (expectedPrevHash : bytes) (earliestObserved : Z)
  : list orphan_entry * Z :=
  match fuel with
  | O => ([], earliestObserved)
  | S f =>
      match OrphanPool_FindChildLocked l cursor expectedPrevHash with
      | None => ([], earliestObserved)
      | Some e =>
          let earliest := if o_observedAtTipHeight e <? earliestObserved then o_observedAtTipHeight e else earliestObserved in
          let '(r, earliest) := collect_loop f l (cursor +u64 1) (o_hash e) earliest in (e :: r, earliest)
      end
  end.

(** Heights grow along the branch, so no entry is met twice and [S (length l)] rounds reach the end. *)
Definition OrphanPool_CollectBranchLocked (l : list orphan_entry) (forkHeight : Z) (forkParentHash : bytes)
  : list orphan_entry * Z :=
  let '(branch, earliest) := collect_loop (S (length l)) l forkHeight forkParentHash UINT64_MAX in
  if (length branch =? 0)%nat then ([], 0)
  else (branch, if earliest =? UINT64_MAX then 0 else earliest).

Section Operations.
Context {ops : CryptoOps} (clock : node -> nat -> Z).

Definition OrphanPool_Insert (p : orphan_pool) (b : block) (height observedAtTipHeight : Z) : orphan_pool :=
  let blockHash := Block_CalculateHash b in
  match OrphanPool_FindByHashLocked (g_orphans p) blockHash with
  | Some _ => p
  | None =>
      let l := evict_loop (length (g_orphans p)) (g_orphans p) in
      mkOrphans (l ++ [mkOrphan b height observedAtTipHeight (g_nextSequence p) blockHash]) (g_nextSequence p +u64 1)
  end.

(** A block at or below the tip that the chain already has. *)
Definition already_chained (st : node) (e : orphan_entry) : bool :=
  (o_height e <? Z.of_nat (Chain_Size st)) &&
  match Chain_GetBlockCopy st (Z.to_nat (o_height e)) with
  | None => false
  | Some local => memeq (Block_CalculateHash local) (o_hash e)
  end.

Definition OrphanPool_PruneStale (st : node) (l : list orphan_entry) : list orphan_entry :=
  fold_left OrphanPool_DropByHashLocked (map o_hash (List.filter (already_chained st) l)) l.

(** ** Attaching *)

Definition tip_hash (st : node) : option bytes :=
  if (0 <? Chain_Size st)%nat
  then tip ← Chain_GetBlockCopy st (Chain_Size st - 1); Some (Block_CalculateHash tip)
  else Some (zeros 32).

(** Every round removes the candidate from the pool, accepted or not. *)
Fixpoint extend_tip_loop (fuel : nat) (st : node) (l : list orphan_entry) : nat * node * list orphan_entry :=
  match fuel with
  | O => (0%nat, st, l)
  | S f =>
      match tip_hash st with
      | None => (0%nat, st, l)
      | Some tipHash =>
          match OrphanPool_FindChildLocked l (Z.of_nat (Chain_Size st)) tipHash with
          | None => (0%nat, st, l)
          | Some e =>
              let '(ok, st') := Chain_AddBlock st (Block_Copy (o_block e)) in
              if negb ok then extend_tip_loop f st' (OrphanPool_DropByHashLocked l (o_hash e))
              else
                let '(attached, st'', l') := extend_tip_loop f st' (snd (OrphanPool_TakeByHashLocked l (o_hash e))) in
                (S attached, st'', l')
          end
      end
  end.

Definition OrphanPool_ExtendTip (st : node) (l : list orphan_entry) : nat * node * list orphan_entry :=
  extend_tip_loop (S (length l)) st l.

(** Fork points from [forkHeight] downwards; the first branch the chain adopts ends the search. *)
Fixpoint adopt_loop (forkHeight : nat) (st : node) (l : list orphan_entry) (bypassPenalty : bool)
  : nat * node * list orphan_entry :=
  match forkHeight with
  | O => (0%nat, st, l)
  | S parentIndex =>
      match Chain_GetBlockCopy st parentIndex with
      | None => adopt_loop parentIndex st l bypassPenalty
      | Some parent =>
          let '(branch, observed) := OrphanPool_CollectBranchLocked l (Z.of_nat forkHeight) (Block_CalculateHash parent) in
          if (length branch =? 0)%nat then adopt_loop parentIndex st l bypassPenalty
          else
            let '(adopted, st') :=
              Chain_ReplaceBranch st forkHeight (map (fun e => Block_Copy (o_block e)) branch) observed bypassPenalty
                (clock st forkHeight) in
            if adopted : bool then (length branch, st', fold_left OrphanPool_DropByHashLocked (map o_hash branch) l)
            else adopt_loop parentIndex st' l bypassPenalty
      end
  end.

Definition OrphanPool_TryAdoptBranch (st : node) (l : list orphan_entry) (bypassPenalty : bool) : nat * node * list orphan_entry :=
  adopt_loop (Chain_Size st) st l bypassPenalty.

(** Extend, then adopt, until neither makes progress; progress removes entries. *)
Fixpoint attach_loop (fuel : nat) (st : node) (l : list orphan_entry) (bypassPenalty : bool) : nat * node * list orphan_entry :=
  match fuel with
  | O => (0%nat, st, l)
  | S f =>
      let '(extended, st, l) := OrphanPool_ExtendTip st l in
      let '(adopted, st, l) := OrphanPool_TryAdoptBranch st l bypassPenalty in
      if (extended =? 0)%nat && (adopted =? 0)%nat then (0%nat, st, l)
      else let '(n, st, l) := attach_loop f st l bypassPenalty in ((extended + adopted + n)%nat, st, l)
  end.

Definition OrphanPool_AttemptAttachForced (st : node) (p : orphan_pool) (bypassPenalty : bool) : nat * node * orphan_pool :=
  if (length (g_orphans p) =? 0)%nat then (0%nat, st, p)
  else
    let '(attached, st, l) := attach_loop (S (length (g_orphans p))) st (g_orphans p) bypassPenalty in
    (attached, st, mkOrphans (OrphanPool_PruneStale st l) (g_nextSequence p)).

Definition OrphanPool_AttemptAttach (st : node) (p : orphan_pool) : nat * node * orphan_pool :=
  OrphanPool_AttemptAttachForced st p false.
End Operations.

(** ** Sublists *)

Lemma sublist_sorted {A} (R : A -> A -> Prop) l k : l `sublist_of` k -> StronglySorted R k -> StronglySorted R l.
Proof.
  induction 1 as [|x l k Hs IH|x l k Hs IH]; intros H; [done| |]; apply StronglySorted_inv in H as [Hk Hx].
  - constructor; [by apply IH|by eapply sublist_forall].
  - by apply IH.
Qed.

Lemma sublist_In {A B} (f : A -> B) l k x : l `sublist_of` k -> In x (map f l) -> In x (map f k).
Proof.
  induction 1 as [|y l k _ IH|y l k _ IH]; cbn; [done|intros [H|H]; auto|auto].
Qed.

(** ** Removal and lookup *)

Lemma find_hash_spec i l h :
  match find_hash i l h with
  | Some k => exists j e, k = (i + j)%nat /\ l !! j = Some e /\ o_hash e = h
  | None => Forall (fun e => o_hash e <> h) l
  end.
Proof.
  revert i; induction l as [|e r IH]; intros i; cbn [find_hash]; [constructor|].
  destruct (memeq (o_hash e) h) eqn:E.
  - apply memeq_true in E. exists 0%nat, e. split; [lia|]. by split.
  - apply memeq_false in E. specialize (IH (S i)). destruct (find_hash (S i) r h) as [k|].
    + destruct IH as (j & x & -> & Hj & Hx). exists (S j), x. split; [lia|]. by split.
    + by constructor.
Qed.

Lemma FindByHash_Some l h k :
  OrphanPool_FindByHashLocked l h = Some k -> exists e, l !! k = Some e /\ o_hash e = h.
Proof.
  unfold OrphanPool_FindByHashLocked. intros E. pose proof (find_hash_spec 0 l h) as H. rewrite E in H.
  destruct H as (j & e & -> & H1 & H2). by exists e.
Qed.

Lemma FindByHash_None l h :
  OrphanPool_FindByHashLocked l h = None <-> h ∉ map o_hash l.
Proof.
  unfold OrphanPool_FindByHashLocked. pose proof (find_hash_spec 0 l h) as H.
  destruct (find_hash 0 l h) as [k|].
  - destruct H as (j & e & -> & H1 & <-). split; [done|]. intros Hn. exfalso. apply Hn.
    apply list_elem_of_In, in_map, list_elem_of_In. by eapply list_elem_of_lookup_2.
  - split; [|done]. intros _ Hin. apply list_elem_of_In, in_map_iff in Hin as (e & <- & He).
    rewrite Forall_forall in H. by apply (H e He).
Qed.

Lemma drop_sublist l h : OrphanPool_DropByHashLocked l h `sublist_of` l.
Proof. unfold OrphanPool_DropByHashLocked. destruct (OrphanPool_FindByHashLocked l h); [apply delete_sublist|done]. Qed.

Lemma drops_sublist hs l : fold_left OrphanPool_DropByHashLocked hs l `sublist_of` l.
Proof.
  revert l; induction hs as [|h hs IH]; intros l; cbn [fold_left]; [done|].
  etrans; [apply IH|apply drop_sublist].
Qed.

Lemma drop_shorter l e : e ∈ l -> (length (OrphanPool_DropByHashLocked l (o_hash e)) < length l)%nat.
Proof.
  intros He. unfold OrphanPool_DropByHashLocked. destruct (OrphanPool_FindByHashLocked l (o_hash e)) as [k|] eqn:E.
  - apply FindByHash_Some in E as (x & Hk & _). rewrite (length_delete l k) by eauto.
    apply lookup_lt_Some in Hk. lia.
  - exfalso. apply FindByHash_None in E. apply E, list_elem_of_In, in_map, list_elem_of_In, He.
Qed.

Lemma drop_removes l h e :
  NoDup (map o_hash l) -> e ∈ OrphanPool_DropByHashLocked l h -> o_hash e <> h.
Proof.
  intros Hnd. unfold OrphanPool_DropByHashLocked. destruct (OrphanPool_FindByHashLocked l h) as [k|] eqn:E.
  - apply FindByHash_Some in E as (x & Hk & Hx). rewrite delete_take_drop. intros Hin Eh.
    assert (Hj : exists j, j <> k /\ l !! j = Some e).
    { apply elem_of_app in Hin as [Hin|Hin]; apply list_elem_of_lookup in Hin as [j Hj].
      - pose proof (lookup_lt_Some _ _ _ Hj) as Hlt. rewrite length_take in Hlt. rewrite lookup_take_lt in Hj by lia.
        exists j. split; [lia|done].
      - rewrite lookup_drop in Hj. exists (S k + j)%nat. split; [lia|done]. }
    destruct Hj as (j & Hne & Hj). apply Hne.
    apply (NoDup_lookup (map o_hash l) j k h Hnd); rewrite list_lookup_fmap; [rewrite Hj|rewrite Hk]; cbn; by f_equal.
  - intros He Eh. apply FindByHash_None in E. apply E. subst h. by apply list_elem_of_In, in_map, list_elem_of_In.
Qed.

Lemma drops_remove hs l e :
  NoDup (map o_hash l) -> e ∈ fold_left OrphanPool_DropByHashLocked hs l -> o_hash e ∉ hs.
Proof.
  revert l; induction hs as [|h hs IH]; intros l Hnd Hin; [by apply not_elem_of_nil|]. cbn [fold_left] in Hin.
  assert (Hnd' : NoDup (map o_hash (OrphanPool_DropByHashLocked l h)))
    by (eapply sublist_NoDup; [exact Hnd|apply (fmap_sublist o_hash), drop_sublist]).
  apply not_elem_of_cons. split; [|by apply (IH _ Hnd')].
  apply (drop_removes l h e Hnd). eapply sublist_elem_of; [exact Hin|apply drops_sublist].
Qed.

Lemma take_is_drop l h : snd (OrphanPool_TakeByHashLocked l h) = OrphanPool_DropByHashLocked l h.
Proof. unfold OrphanPool_TakeByHashLocked, OrphanPool_DropByHashLocked. by destruct (OrphanPool_FindByHashLocked l h). Qed.

Lemma FindChild_Some l height prev e :
  OrphanPool_FindChildLocked l height prev = Some e ->
  e ∈ l /\ o_height e = height /\ prevHash (header (o_block e)) = prev.
Proof.
  induction l as [|x r IH]; cbn [OrphanPool_FindChildLocked]; [done|].
  destruct (Z.eqb_spec (o_height x) height); cbn [negb].
  - destruct (memeq (prevHash (header (o_block x))) prev) eqn:Em; cbn [negb].
    + intros [= ->]. apply memeq_true in Em. split; [apply list_elem_of_here|done].
    + intros H. destruct (IH H) as (H1 & H2). split; [by apply list_elem_of_further|done].
  - intros H. destruct (IH H) as (H1 & H2). split; [by apply list_elem_of_further|done].
Qed.

Lemma FindChild_None l height prev e :
  OrphanPool_FindChildLocked l height prev = None -> e ∈ l -> o_height e = height ->
  prevHash (header (o_block e)) <> prev.
Proof.
  induction l as [|x r IH]; cbn [OrphanPool_FindChildLocked]; intros H Hin Hh; [by apply not_elem_of_nil in Hin|].
  destruct (Z.eqb_spec (o_height x) height); cbn [negb] in H.
  - destruct (memeq (prevHash (header (o_block x))) prev) eqn:Em; cbn [negb] in H; [done|]. apply memeq_false in Em.
    apply elem_of_cons in Hin as [->|Hin]; [done|by apply IH].
  - apply elem_of_cons in Hin as [->|Hin]; [done|by apply IH].
Qed.

(** ** The pool invariant *)

Section Invariant.
Context {ops : CryptoOps}.

Definition entry_good (e : orphan_entry) : Prop :=
  o_hash e = Block_CalculateHash (o_block e) /\ o_height e = blockNumber (header (o_block e)).

Definition older (a b : orphan_entry) : Prop := o_sequence a < o_sequence b.

(** Correct hashes and heights, no duplicates, at most 512, in order of arrival. *)
Definition pool_ok (p : orphan_pool) : Prop :=
  Forall entry_good (g_orphans p) /\ NoDup (map o_hash (g_orphans p)) /\
  (length (g_orphans p) <= MAX_ORPHAN_BLOCKS)%nat /\ StronglySorted older (g_orphans p) /\
  Forall (fun e => o_sequence e < g_nextSequence p) (g_orphans p) /\ g_nextSequence p <= UINT64_MAX.

Lemma oldest_loop_keeps i l idx s : Forall (fun e => s < o_sequence e) l -> oldest_loop i l idx s = idx.
Proof.
  intros H; revert i; induction H as [|e r He _ IH]; intros i; cbn [oldest_loop]; [done|].
  destruct (Z.ltb_spec (o_sequence e) s); [lia|]. apply IH.
Qed.

Lemma evict_head e l :
  StronglySorted older (e :: l) -> o_sequence e < UINT64_MAX -> OrphanPool_EvictOldestLocked (e :: l) = (true, l).
Proof.
  intros H Hs. apply StronglySorted_inv in H as [_ H]. unfold OrphanPool_EvictOldestLocked. cbn [length Nat.eqb oldest_loop].
  rewrite (proj2 (Z.ltb_lt _ _) Hs). by rewrite oldest_loop_keeps.
Qed.

(** What the eviction loop leaves of a pool: everything, or everything but the oldest. *)
Definition after_eviction (l : list orphan_entry) : list orphan_entry :=
  if (MAX_ORPHAN_BLOCKS <=? length l)%nat then tail l else l.

Lemma evict_loop_stop f l : (length l < MAX_ORPHAN_BLOCKS)%nat -> evict_loop f l = l.
Proof. intros H. destruct f; cbn [evict_loop]; [done|]. by rewrite (proj2 (Nat.leb_gt _ _) H). Qed.

Lemma evict_loop_spec p : pool_ok p -> evict_loop (length (g_orphans p)) (g_orphans p) = after_eviction (g_orphans p).
Proof.
  intros (_ & _ & Hlen & Hs & Hn & Hmax). unfold after_eviction. destruct (g_orphans p) as [|e l]; [done|].
  destruct (Nat.leb_spec MAX_ORPHAN_BLOCKS (length (e :: l))) as [Hfull|Hfree]; [|by apply evict_loop_stop].
  apply Forall_cons_iff in Hn as [He _]. cbn [length evict_loop] in *. rewrite (proj2 (Nat.leb_le _ _) Hfull).
  rewrite evict_head by (done || lia). cbn [tail]. apply evict_loop_stop. lia.
Qed.

Lemma pool_sublist p l :
  pool_ok p -> l `sublist_of` g_orphans p -> pool_ok (mkOrphans l (g_nextSequence p)).
Proof.
  intros (H1 & H2 & H3 & H4 & H5 & H6) Hs. unfold pool_ok. cbn [g_orphans g_nextSequence].
  split; [by eapply sublist_forall|].
  split; [eapply sublist_NoDup; [exact H2|by apply (fmap_sublist o_hash)]|].
  split; [apply sublist_length in Hs; lia|]. split; [by eapply sublist_sorted|].
  split; [by eapply sublist_forall|done].
Qed.

Lemma insert_new p b height observed :
  pool_ok p -> OrphanPool_Contains p (Block_CalculateHash b) = false ->
  OrphanPool_Insert p b height observed =
  mkOrphans (after_eviction (g_orphans p) ++ [mkOrphan b height observed (g_nextSequence p) (Block_CalculateHash b)])
    (g_nextSequence p +u64 1).
Proof.
  intros Hok Hc. unfold OrphanPool_Insert. unfold OrphanPool_Contains in Hc. apply bool_decide_eq_false in Hc.
  destruct (OrphanPool_FindByHashLocked _ _); [by destruct Hc; eauto|]. by rewrite evict_loop_spec.
Qed.

Lemma insert_known p b height observed :
  OrphanPool_Contains p (Block_CalculateHash b) = true -> OrphanPool_Insert p b height observed = p.
Proof.
  unfold OrphanPool_Contains, OrphanPool_Insert. intros H%bool_decide_eq_true. destruct H as [k ->]. done.
Qed.

Lemma after_eviction_sublist l : after_eviction l `sublist_of` l.
Proof. unfold after_eviction. destruct (_ <=? _)%nat; [|done]. destruct l; cbn [tail]; [done|by apply sublist_cons]. Qed.

Lemma sorted_snoc l e : StronglySorted older l -> Forall (fun x => older x e) l -> StronglySorted older (l ++ [e]).
Proof.
  induction 1 as [|x l _ IH Hx]; intros Hf; cbn [app]; [by repeat constructor|].
  apply Forall_cons_iff in Hf as [H1 H2]. constructor; [by apply IH|]. apply Forall_app. by split; [|constructor].
Qed.

Lemma orphan_insert_ok p b height observed :
  pool_ok p -> height = blockNumber (header b) -> 0 <= g_nextSequence p < UINT64_MAX ->
  pool_ok (OrphanPool_Insert p b height observed).
Proof.
  intros Hok Hh Hseq. destruct (OrphanPool_Contains p (Block_CalculateHash b)) eqn:Hc; [by rewrite insert_known|].
  rewrite insert_new by done. pose proof (pool_sublist p _ Hok (after_eviction_sublist _)) as (H1 & H2 & _ & H4 & H5 & _).
  cbn [g_orphans g_nextSequence] in *. rewrite u64_small by (unfold_cint; lia).
  split; [apply Forall_app; split; [done|by repeat constructor]|]. cbn [g_orphans g_nextSequence].
  split; [|split; [|split; [|split]]].
  - rewrite map_app. apply NoDup_ListNoDup, NoDup_app; [by apply NoDup_ListNoDup|repeat constructor; by intros ?|].
    intros h Hin [<-|[]]. cbn [o_hash] in Hin. apply (sublist_In o_hash _ _ _ (after_eviction_sublist _)) in Hin.
    unfold OrphanPool_Contains in Hc. apply bool_decide_eq_false in Hc.
    destruct (OrphanPool_FindByHashLocked (g_orphans p) (Block_CalculateHash b)) eqn:E; [by destruct Hc; eauto|].
    apply FindByHash_None in E. by apply E, list_elem_of_In.
  - rewrite length_app. cbn [length]. unfold after_eviction. destruct Hok as (_ & _ & Hlen & _).
    destruct (Nat.leb_spec MAX_ORPHAN_BLOCKS (length (g_orphans p))); [rewrite length_tl|]; unfold MAX_ORPHAN_BLOCKS in *; lia.
  - by apply sorted_snoc.
  - apply Forall_app. split; [|by repeat constructor; cbn; lia]. eapply Forall_impl; [|exact H5]. cbn. intros x Hx. lia.
  - lia.
Qed.
End Invariant.

(** ** Collecting a branch *)

(** A branch of pool entries that climbs from [h] on top of the hash [prev]. *)
Fixpoint linked (l : list orphan_entry) (h : Z) (prev : bytes) (branch : list orphan_entry) : Prop :=
  match branch with
  | [] => True
  | e :: r => e ∈ l /\ o_height e = h /\ prevHash (header (o_block e)) = prev /\ linked l (h + 1) (o_hash e) r
  end.

Definition end_hash (prev : bytes) (branch : list orphan_entry) : bytes := fold_left (fun _ e => o_hash e) branch prev.
Definition earliest_of (m : Z) (branch : list orphan_entry) : Z :=
  fold_left (fun m e => Z.min m (o_observedAtTipHeight e)) branch m.

Lemma collect_loop_spec f l h prev m :
  0 <= h -> h + Z.of_nat f <= UINT64_MAX ->
  let '(branch, earliest) := collect_loop f l h prev m in
  linked l h prev branch /\ earliest = earliest_of m branch /\ (length branch <= f)%nat /\
  ((length branch < f)%nat ->
   OrphanPool_FindChildLocked l (h + Z.of_nat (length branch)) (end_hash prev branch) = None).
Proof.
  revert h prev m; induction f as [|f IH]; intros h prev m Hh Hf; cbn [collect_loop].
  { split; [done|]. split; [done|]. split; [done|]. cbn. lia. }
  destruct (OrphanPool_FindChildLocked l h prev) as [e|] eqn:E.
  2: { split; [done|]. split; [done|]. split; [cbn; lia|]. intros _. cbn. by rewrite Z.add_0_r. }
  rewrite u64_small by (unfold_cint; lia).
  set (m' := if o_observedAtTipHeight e <? m then _ else _).
  specialize (IH (h + 1) (o_hash e) m' ltac:(lia) ltac:(lia)).
  destruct (collect_loop f l (h + 1) (o_hash e) m') as [r earliest]. destruct IH as (H1 & H2 & H3 & H4).
  apply FindChild_Some in E as (E1 & E2 & E3). split; [by repeat split|]. split; [|split; [cbn [length]; lia|]].
  - rewrite H2. unfold earliest_of. cbn [fold_left]. f_equal. subst m'.
    destruct (Z.ltb_spec (o_observedAtTipHeight e) m); lia.
  - cbn [length]. intros Hlt. rewrite <- H4 by lia. f_equal. lia.
Qed.

Lemma linked_heights l h prev branch e : linked l h prev branch -> e ∈ branch -> e ∈ l /\ h <= o_height e.
Proof.
  revert h prev; induction branch as [|x r IH]; intros h prev H Hin; [by apply not_elem_of_nil in Hin|].
  destruct H as (H1 & H2 & _ & H4). apply elem_of_cons in Hin as [->|Hin]; [split; [done|lia]|].
  destruct (IH _ _ H4 Hin). split; [done|lia].
Qed.

Lemma linked_NoDup l h prev branch : linked l h prev branch -> List.NoDup branch.
Proof.
  revert h prev; induction branch as [|x r IH]; intros h prev H; [constructor|].
  destruct H as (_ & H2 & _ & H4). constructor; [|by eapply IH].
  intros Hin%list_elem_of_In. destruct (linked_heights _ _ _ _ _ H4 Hin). lia.
Qed.

Lemma linked_length l h prev branch : linked l h prev branch -> (length branch <= length l)%nat.
Proof.
  intros H. apply NoDup_incl_length; [by eapply linked_NoDup|]. intros e He%list_elem_of_In.
  apply list_elem_of_In. by eapply linked_heights.
Qed.

Lemma collect_in f l h prev m e : e ∈ fst (collect_loop f l h prev m) -> e ∈ l.
Proof.
  revert h prev m; induction f as [|f IH]; intros h prev m; cbn [collect_loop]; [by intros ?%not_elem_of_nil|].
  destruct (OrphanPool_FindChildLocked l h prev) as [x|] eqn:E; [|by intros ?%not_elem_of_nil].
  match goal with |- context [collect_loop f l ?h' ?p' ?m'] => specialize (IH h' p' m');
    destruct (collect_loop f l h' p' m') as [r n] end.
  cbn [fst] in *. intros [->|Hin]%elem_of_cons; [by apply FindChild_Some in E as [? _]|by apply IH].
Qed.

Lemma CollectBranch_in l h prev e : e ∈ fst (OrphanPool_CollectBranchLocked l h prev) -> e ∈ l.
Proof.
  unfold OrphanPool_CollectBranchLocked. pose proof (collect_in (S (length l)) l h prev UINT64_MAX e) as H.
  destruct (collect_loop _ _ _ _ _) as [branch n]. cbn [fst] in H. destruct branch; [by intros ?%not_elem_of_nil|exact H].
Qed.

Lemma CollectBranch_spec l h prev :
  0 <= h -> h + Z.of_nat (S (length l)) <= UINT64_MAX ->
  let '(branch, observed) := OrphanPool_CollectBranchLocked l h prev in
  linked l h prev branch /\
  OrphanPool_FindChildLocked l (h + Z.of_nat (length branch)) (end_hash prev branch) = None /\
  observed = (if (length branch =? 0)%nat then 0
              else if earliest_of UINT64_MAX branch =? UINT64_MAX then 0 else earliest_of UINT64_MAX branch).
Proof.
  intros Hh Hf. unfold OrphanPool_CollectBranchLocked.
  pose proof (collect_loop_spec (S (length l)) l h prev UINT64_MAX Hh Hf) as H.
  destruct (collect_loop _ _ _ _ _) as [branch earliest]. destruct H as (H1 & -> & _ & H4).
  pose proof (linked_length _ _ _ _ H1). specialize (H4 ltac:(lia)).
  destruct branch as [|e r]; cbn [length Nat.eqb]; [by repeat split|]. by split.
Qed.

Section Branches.
Context {ops : CryptoOps}.

(** A collected branch passes the chain's linkage check. *)
Lemma linked_branch_links l h prev branch :
  Forall entry_good l -> Forall (fun e => is_Some (transactions (o_block e))) l -> linked l h prev branch ->
  branch_links h prev (map (fun e => Block_Copy (o_block e)) branch) = true.
Proof.
  intros Hg Ht. revert h prev; induction branch as [|e r IH]; intros h prev H; [done|].
  destruct H as (He & Hh & Hp & Hr). rewrite Forall_forall in Hg, Ht. apply list_elem_of_In in He.
  destruct (Hg e He) as [Hhash Hnum]. destruct (Ht e He) as [txs Et].
  cbn [map branch_links]. destruct (o_block e) as [hd ts] eqn:Eb. cbn [Block_Copy transactions header] in *.
  rewrite Et. cbn. rewrite <- Hnum, Hh, Z.eqb_refl. cbn [negb].
  rewrite (proj2 (memeq_true _ _) Hp). cbn [negb].
  specialize (IH _ _ Hr). rewrite Hhash in IH. exact IH.
Qed.
End Branches.

(** ** Attaching *)

Section Attach.
Context {ops : CryptoOps} (clock : node -> nat -> Z).

(** Nothing in the pool extends the tip. *)
Definition tip_exhausted (st : node) (l : list orphan_entry) : Prop :=
  forall t, tip_hash st = Some t -> OrphanPool_FindChildLocked l (Z.of_nat (Chain_Size st)) t = None.

(** Enough fuel is enough: the loop ends because no orphan extends the tip. *)
Lemma extend_tip_exhausts f st l :
  (length l < f)%nat ->
  let '(_, st', l') := extend_tip_loop f st l in tip_exhausted st' l'.
Proof.
  revert st l; induction f as [|f IH]; intros st l Hf; cbn [extend_tip_loop]; [lia|].
  destruct (tip_hash st) as [t|] eqn:Et; [|intros t' Ht'; congruence].
  destruct (OrphanPool_FindChildLocked l _ t) as [e|] eqn:Ec; [|intros t' Ht'; congruence].
  pose proof (drop_shorter l e (proj1 (FindChild_Some _ _ _ _ Ec))) as Hlt.
  destruct (Chain_AddBlock st (Block_Copy (o_block e))) as [[|] st']; cbn [negb].
  - rewrite take_is_drop. specialize (IH st' (OrphanPool_DropByHashLocked l (o_hash e)) ltac:(lia)).
    by destruct (extend_tip_loop f st' _) as [[n st''] l'].
  - apply IH. lia.
Qed.

Lemma extend_tip_fuel f f' st l :
  (length l < f)%nat -> (length l < f')%nat -> extend_tip_loop f st l = extend_tip_loop f' st l.
Proof.
  revert f' st l; induction f as [|f IH]; intros [|f'] st l Hf Hf'; try lia. cbn [extend_tip_loop].
  destruct (tip_hash st) as [t|]; [|done]. destruct (OrphanPool_FindChildLocked l _ t) as [e|] eqn:Ec; [|done].
  pose proof (drop_shorter l e (proj1 (FindChild_Some _ _ _ _ Ec))) as Hlt.
  destruct (Chain_AddBlock st (Block_Copy (o_block e))) as [[|] st']; cbn [negb]; rewrite ?take_is_drop.
  - by rewrite (IH f') by lia.
  - by apply IH; lia.
Qed.

(** The chain moves only by [R]-steps, for any [R] that contains appends and replacements of blocks
    satisfying [P]; entries only leave the pool, and some do whenever a block was attached. *)
Section Steps.
Context (P : block -> Prop) (R : node -> node -> Prop).
Hypothesis R_add : forall st b, P b -> R st (snd (Chain_AddBlock st b)).
Hypothesis R_replace : forall st f l o bp now, Forall P l -> R st (snd (Chain_ReplaceBranch st f l o bp now)).

Abbreviation pool_P l := (Forall (fun e => P (Block_Copy (o_block e))) l).

Definition progress (st : node) (l : list orphan_entry) (r : nat * node * list orphan_entry) : Prop :=
  rtc R st r.1.2 /\ r.2 `sublist_of` l /\ (r.1.1 <> 0%nat -> (length r.2 < length l)%nat).

Lemma pool_P_in l e : pool_P l -> e ∈ l -> P (Block_Copy (o_block e)).
Proof. rewrite Forall_forall. intros H He. by apply H, list_elem_of_In. Qed.

Lemma extend_tip_progress f st l : pool_P l -> progress st l (extend_tip_loop f st l).
Proof.
  revert st l; induction f as [|f IH]; intros st l HP; cbn [extend_tip_loop]; [by split; [apply rtc_refl|]|].
  destruct (tip_hash st) as [t|]; [|by split; [apply rtc_refl|]].
  destruct (OrphanPool_FindChildLocked l _ t) as [e|] eqn:Ec; [|by split; [apply rtc_refl|]].
  apply FindChild_Some in Ec as [He _]. pose proof (drop_shorter l e He) as Hlt. pose proof (drop_sublist l (o_hash e)) as Hs.
  pose proof (R_add st _ (pool_P_in l e HP He)) as Hst.
  destruct (Chain_AddBlock st (Block_Copy (o_block e))) as [ok st']. cbn [snd] in Hst.
  destruct (IH st' (OrphanPool_DropByHashLocked l (o_hash e)) (sublist_forall _ _ _ Hs HP)) as (I1 & I2 & I3).
  destruct ok; cbn [negb]; rewrite ?take_is_drop.
  - destruct (extend_tip_loop f st' _) as [[n st''] l']. cbn [fst snd] in *.
    split; [by eapply rtc_l|]. split; [by etrans|]. intros _. apply sublist_length in I2. cbn [snd]. lia.
  - split; [by eapply rtc_l|]. split; [by etrans|]. intros H. specialize (I3 H). lia.
Qed.

Lemma adopt_progress fork st l bp : pool_P l -> progress st l (adopt_loop clock fork st l bp).
Proof.
  intros HP. revert st; induction fork as [|k IH]; intros st; cbn [adopt_loop]; [by split; [apply rtc_refl|]|].
  destruct (Chain_GetBlockCopy st k) as [parent|]; [|apply IH].
  pose proof (CollectBranch_in l (Z.of_nat (S k)) (Block_CalculateHash parent)) as Hl.
  destruct (OrphanPool_CollectBranchLocked l _ _) as [branch observed]. cbn [fst] in Hl.
  destruct branch as [|e r]; cbn [length Nat.eqb]; [apply IH|].
  assert (HF : Forall P (map (fun e => Block_Copy (o_block e)) (e :: r))).
  { apply Forall_forall. intros b Hin. apply in_map_iff in Hin as (x & <- & Hx%list_elem_of_In).
    apply pool_P_in with l; [done|]. by apply Hl. }
  pose proof (R_replace st (S k) _ observed bp (clock st (S k)) HF) as Hst.
  destruct (Chain_ReplaceBranch st (S k) _ observed bp _) as [[|] st']; cbn [snd] in Hst.
  - split; [by apply rtc_once|]. cbn [fst snd]. split; [apply drops_sublist|]. intros _. cbn [map fold_left].
    pose proof (drop_shorter l e (Hl e ltac:(apply list_elem_of_here))).
    eapply Nat.le_lt_trans; [apply sublist_length, drops_sublist|done].
  - destruct (IH st') as (I1 & I2 & I3). split; [by eapply rtc_l|]. by split.
Qed.

Lemma attach_progress f st l bp :
  pool_P l -> rtc R st (attach_loop clock f st l bp).1.2 /\ (attach_loop clock f st l bp).2 `sublist_of` l.
Proof.
  revert st l; induction f as [|f IH]; intros st l HP; cbn [attach_loop]; [by split; [apply rtc_refl|]|].
  destruct (extend_tip_progress (S (length l)) st l HP) as (E1 & E2 & _). fold (OrphanPool_ExtendTip st l) in E1, E2.
  destruct (OrphanPool_ExtendTip st l) as [[n1 st1] l1]. cbn [fst snd] in *.
  pose proof (sublist_forall _ _ _ E2 HP) as HP1.
  destruct (adopt_progress (Chain_Size st1) st1 l1 bp HP1) as (A1 & A2 & _).
  fold (OrphanPool_TryAdoptBranch clock st1 l1 bp) in A1, A2.
  destruct (OrphanPool_TryAdoptBranch clock st1 l1 bp) as [[n2 st2] l2]. cbn [fst snd] in *.
  destruct (_ && _); cbn [fst snd]; [split; [by etrans|by etrans]|].
  destruct (IH st2 l2 (sublist_forall _ _ _ A2 HP1)) as (I1 & I2).
  destruct (attach_loop clock f st2 l2 bp) as [[n3 st3] l3]. cbn [fst snd] in *.
  split; [etrans; [exact E1|]; by etrans|]. etrans; [exact I2|]. by etrans.
Qed.

Lemma AttemptAttach_progress st p bp :
  pool_P (g_orphans p) ->
  let '(_, st', p') := OrphanPool_AttemptAttachForced clock st p bp in
  rtc R st st' /\ g_orphans p' `sublist_of` g_orphans p /\ g_nextSequence p' = g_nextSequence p.
Proof.
  intros HP. unfold OrphanPool_AttemptAttachForced. destruct (_ =? _)%nat; [by split; [apply rtc_refl|]|].
  destruct (attach_progress (S (length (g_orphans p))) st _ bp HP) as (H1 & H2).
  destruct (attach_loop _ _ _ _ _) as [[n st'] l]. cbn [fst snd g_orphans g_nextSequence] in *.
  split; [done|]. split; [|done]. etrans; [apply drops_sublist|done].
Qed.
End Steps.

(** One round shrinks the pool or ends the loop. *)
Lemma round_shrinks st l bp :
  let '(n1, st1, l1) := OrphanPool_ExtendTip st l in
  let '(n2, st2, l2) := OrphanPool_TryAdoptBranch clock st1 l1 bp in
  n1 <> 0%nat \/ n2 <> 0%nat -> (length l2 < length l)%nat.
Proof.
  assert (HT : forall k : list orphan_entry, Forall (fun e => (fun _ => True) (Block_Copy (o_block e))) k)
    by (intros k; by apply Forall_forall).
  destruct (extend_tip_progress (fun _ => True) (fun _ _ => True) ltac:(done) (S (length l)) st l (HT l)) as (_ & E2 & E3).
  fold (OrphanPool_ExtendTip st l) in E2, E3. destruct (OrphanPool_ExtendTip st l) as [[n1 st1] l1].
  destruct (adopt_progress (fun _ => True) (fun _ _ => True) ltac:(done) (Chain_Size st1) st1 l1 bp (HT l1)) as (_ & A2 & A3).
  fold (OrphanPool_TryAdoptBranch clock st1 l1 bp) in A2, A3.
  destruct (OrphanPool_TryAdoptBranch clock st1 l1 bp) as [[n2 st2] l2]. cbn [fst snd] in *.
  apply sublist_length in E2, A2. intros [H|H]; [specialize (E3 H)|specialize (A3 H)]; lia.
Qed.

(** The attach loop has ended after [S (length l)] rounds: more fuel changes nothing. *)
Lemma attach_fuel f f' st l bp :
  (length l < f)%nat -> (length l < f')%nat -> attach_loop clock f st l bp = attach_loop clock f' st l bp.
Proof.
  revert f' st l; induction f as [|f IH]; intros [|f'] st l Hf Hf'; try lia. cbn [attach_loop].
  pose proof (round_shrinks st l bp) as Hs. destruct (OrphanPool_ExtendTip st l) as [[n1 st1] l1].
  destruct (OrphanPool_TryAdoptBranch clock st1 l1 bp) as [[n2 st2] l2].
  destruct (Nat.eqb_spec n1 0), (Nat.eqb_spec n2 0); cbn [andb]; [done|..];
    by rewrite (IH f') by (specialize (Hs ltac:(tauto)); lia).
Qed.
End Attach.

Lemma prune_clean {ops : CryptoOps} st l :
  NoDup (map o_hash l) -> Forall (fun e => already_chained st e = false) (OrphanPool_PruneStale st l).
Proof.
  intros Hnd. apply Forall_forall. intros e He%list_elem_of_In. destruct (already_chained st e) eqn:Ea; [|done]. exfalso.
  apply (drops_remove _ l e Hnd He). apply list_elem_of_In, in_map, filter_In. split; [|done].
  apply list_elem_of_In. eapply sublist_elem_of; [exact He|apply drops_sublist].
Qed.

(** ** The chain and its pool together *)

Section System.
Context {ops : CryptoOps} {laws : CryptoLaws ops} (clock : node -> nat -> Z).

(** The chain moves, a well-formed block with its transactions is pooled under the number in its
    header, or an attach is attempted. *)
Inductive system_step : node * orphan_pool -> node * orphan_pool -> Prop :=
| sys_chain st st' p : good_step st st' -> system_step (st, p) (st', p)
| sys_insert st p b observed :
    good_block b -> is_Some (transactions b) -> 0 <= g_nextSequence p < UINT64_MAX ->
    system_step (st, p) (st, OrphanPool_Insert p b (blockNumber (header b)) observed)
| sys_attach st p bp n st' p' :
    OrphanPool_AttemptAttachForced clock st p bp = (n, st', p') -> system_step (st, p) (st', p').

Definition pooled_good (e : orphan_entry) : Prop := good_block (o_block e) /\ is_Some (transactions (o_block e)).

Definition system_ok (s : node * orphan_pool) : Prop :=
  reachable s.1 /\ pool_ok s.2 /\ Forall pooled_good (g_orphans s.2).

Lemma copy_block b : Block_Copy b = b.
Proof. by destruct b. Qed.

Lemma system_step_ok s s' : system_step s s' -> system_ok s -> system_ok s'.
Proof.
  intros Hs ([r [Hu Hr]] & Hp & Hg). destruct Hs as [st st' p Hst|st p b o Hb Ht Hseq|st p bp n st' p' E]; cbn [fst snd] in *.
  - split; [|by split]. exists r. split; [done|]. by eapply rtc_r.
  - split; [by exists r|]. split; [by apply orphan_insert_ok|]. cbn [snd].
    destruct (OrphanPool_Contains p (Block_CalculateHash b)) eqn:Hc; [by rewrite insert_known|].
    rewrite insert_new by done. cbn [g_orphans]. apply Forall_app. split; [|constructor; [by split|constructor]].
    by eapply sublist_forall; [apply after_eviction_sublist|].
  - assert (HP : Forall (fun e => good_block (Block_Copy (o_block e))) (g_orphans p)).
    { eapply Forall_impl; [|exact Hg]. intros e [H _]. by rewrite copy_block. }
    pose proof (AttemptAttach_progress clock good_block good_step good_add good_replace st p bp HP) as H.
    rewrite E in H. destruct H as (H1 & H2 & H3). split; [exists r; split; [done|by etrans]|]. cbn [snd].
    split; [|by eapply sublist_forall]. destruct p' as [l' n']. cbn [g_orphans g_nextSequence] in *. subst n'.
    by apply (pool_sublist p).
Qed.

Lemma system_reachable_ok reward s :
  is_u64 reward -> rtc system_step (node_init None reward, OrphanPool_Init) s -> system_ok s.
Proof.
  intros Hu Hr. assert (H0 : system_ok (node_init None reward, OrphanPool_Init)).
  { split; [exists reward; split; [done|apply rtc_refl]|]. split; [|constructor].
    unfold pool_ok. cbn. repeat split; try constructor; (lia || done). }
  revert H0. induction Hr as [|x y z Hs _ IH]; [done|]. intros Hx. by apply IH, (system_step_ok x y).
Qed.
End System.

(** ** Properties *)

(** C29: the orphan pool and the chain together.  Starting from genesis with an empty pool, through any
    interleaving of chain operations, insertions of well-formed blocks and attach attempts: the chain
    stays in a state reachable by the chain's own operations (so everything proved of those holds), the
    pool never exceeds 512 entries, holds every block under its own hash and number, holds no block
    twice, and is in order of arrival; a block that is already pooled changes nothing, not even its
    observation stamp, and a new one is appended, evicting exactly the oldest entry of a full pool. *)
Theorem orphan_pool_invariant {ops : CryptoOps} {laws : CryptoLaws ops} clock reward st p :
  is_u64 reward -> rtc (system_step clock) (node_init None reward, OrphanPool_Init) (st, p) ->
  reachable st /\ pool_ok p /\
  forall b height observed,
    OrphanPool_Insert p b height observed =
    if OrphanPool_Contains p (Block_CalculateHash b) then p
    else mkOrphans ((if (OrphanPool_Size p <? MAX_ORPHAN_BLOCKS)%nat then g_orphans p else tail (g_orphans p)) ++
                    [mkOrphan b height observed (g_nextSequence p) (Block_CalculateHash b)]) (g_nextSequence p +u64 1).
Proof.
  intros Hu Hr. destruct (system_reachable_ok clock reward _ Hu Hr) as (H1 & H2 & _). split; [done|]. split; [done|].
  intros b height observed. destruct (OrphanPool_Contains p (Block_CalculateHash b)) eqn:Hc; [by rewrite insert_known|].
  rewrite insert_new by done. unfold after_eviction, OrphanPool_Size.
  by destruct (Nat.leb_spec MAX_ORPHAN_BLOCKS (length (g_orphans p))), (Nat.ltb_spec (length (g_orphans p)) MAX_ORPHAN_BLOCKS); try lia.
Qed.

Import Scenario.

Definition pool2 : orphan_pool :=
  OrphanPool_Insert (OrphanPool_Insert OrphanPool_Init rival2 2 1) rival1 1 1.
Definition late (st : node) (forkHeight : nat) : Z := 1800000000000.

Lemma pool2_reachable : rtc (system_step late) (node_init None 5000, OrphanPool_Init) (node2, pool2).
Proof.
  pose proof rivals_good as Hg. apply Forall_cons_iff in Hg as [Hg1 Hg]. apply Forall_cons_iff in Hg as [Hg2 _].
  eapply rtc_l; [apply sys_chain, good_add, genesis_good|]. eapply rtc_l; [apply sys_chain, good_add, block1_good|].
  eapply rtc_l; [apply (sys_insert late node2 OrphanPool_Init rival2 1 Hg2 ltac:(by eexists))|].
  - unfold UINT64_MAX. cbn. lia.
  - apply rtc_once. apply (sys_insert late node2 (OrphanPool_Insert OrphanPool_Init rival2 2 1) rival1 1 Hg1 ltac:(by eexists)). vm_compute. split; [discriminate|reflexivity].
Qed.

Lemma orphan_pool_invariant_witness : reachable node2 /\ pool_ok pool2.
Proof.
  destruct (orphan_pool_invariant late 5000 node2 pool2 ltac:(vm_decide) pool2_reachable) as (H1 & H2 & _).
  split; [exact H1|exact H2].
Defined.

(** What the pool offers the chain.  For a block of the chain at [forkHeight - 1], the collected
    branch consists of pooled blocks, passes the chain's linkage check, cannot be continued by any
    pooled block (the collection loop ends there), and carries the earliest observation stamp of its
    blocks as the height the reorganisation penalty is measured from. *)
Theorem collected_branch_links {ops : CryptoOps} {laws : CryptoLaws ops} clock reward st p forkHeight parent branch observed :
  is_u64 reward -> rtc (system_step clock) (node_init None reward, OrphanPool_Init) (st, p) ->
  blocks st !! (forkHeight - 1)%nat = Some parent -> (0 < forkHeight)%nat -> Z.of_nat forkHeight <= UINT64_MAX - 513 ->
  OrphanPool_CollectBranchLocked (g_orphans p) (Z.of_nat forkHeight) (Block_CalculateHash parent) = (branch, observed) ->
  branch <> [] ->
  Chain_BranchIsLinkedLocked (blocks st) forkHeight (map (fun e => Block_Copy (o_block e)) branch) = true /\
  (forall e, e ∈ branch -> e ∈ g_orphans p) /\
  (forall e, e ∈ g_orphans p -> o_height e = Z.of_nat forkHeight + Z.of_nat (length branch) ->
     prevHash (header (o_block e)) <> end_hash (Block_CalculateHash parent) branch) /\
  observed = (if earliest_of UINT64_MAX branch =? UINT64_MAX then 0 else earliest_of UINT64_MAX branch).
Proof.
  intros Hu Hr Hp Hpos Hb E Hne. destruct (system_reachable_ok clock reward _ Hu Hr) as (_ & Hok & Hg). cbn [snd] in *.
  pose proof Hok as (Hgood & _ & Hlen & _). unfold MAX_ORPHAN_BLOCKS in Hlen.
  pose proof (CollectBranch_spec (g_orphans p) (Z.of_nat forkHeight) (Block_CalculateHash parent) ltac:(lia) ltac:(lia)) as H.
  rewrite E in H. destruct H as (Hl & Hnone & Ho).
  split; [|split; [|split]].
  - unfold Chain_BranchIsLinkedLocked. rewrite length_map, Hp. destruct branch as [|e r]; [done|].
    destruct (Nat.eqb_spec forkHeight 0); [lia|]. cbn [length Nat.eqb orb].
    apply (linked_branch_links (g_orphans p)); [done| |done]. eapply Forall_impl; [|exact Hg]. by intros e' [_ ?].
  - intros e He. by eapply linked_heights.
  - intros e He Hh. by eapply FindChild_None.
  - by destruct branch.
Qed.

Lemma collected_branch_links_witness :
  Chain_BranchIsLinkedLocked (blocks node2) 1 [rival1; rival2] = true.
Proof.
  refine (proj1 (collected_branch_links late 5000 node2 pool2 1 genesis
    [mkOrphan rival1 1 1 1 (Block_CalculateHash rival1); mkOrphan rival2 2 1 0 (Block_CalculateHash rival2)] 1
    _ pool2_reachable _ _ _ _ _)).
  - vm_decide.
  - vm_compute. reflexivity.
  - lia.
  - unfold UINT64_MAX. cbn. lia.
  - vm_compute. reflexivity.
  - discriminate.
Defined.

(** An attach attempt.  On any state of the system it terminates -- giving its loops more rounds
    than the pool has entries changes nothing, and the inner loop stops only when no pooled block
    extends the tip -- it moves the chain only by the chain's own operations, pooled blocks only
    leave, and what stays in the pool is not already part of the chain. *)
Theorem attach_attempt_exact {ops : CryptoOps} {laws : CryptoLaws ops} clock reward st p bypass n st' p' fuel :
  is_u64 reward -> rtc (system_step clock) (node_init None reward, OrphanPool_Init) (st, p) ->
  OrphanPool_AttemptAttachForced clock st p bypass = (n, st', p') -> (length (g_orphans p) < fuel)%nat ->
  attach_loop clock fuel st (g_orphans p) bypass = attach_loop clock (S (length (g_orphans p))) st (g_orphans p) bypass /\
  (let '(_, st1, l1) := OrphanPool_ExtendTip st (g_orphans p) in tip_exhausted st1 l1) /\
  rtc good_step st st' /\ g_orphans p' `sublist_of` g_orphans p /\
  Forall (fun e => already_chained st' e = false) (g_orphans p').
Proof.
  intros Hu Hr E Hf. destruct (system_reachable_ok clock reward _ Hu Hr) as (_ & Hok & Hg). cbn [snd] in *.
  assert (HP : Forall (fun e => good_block (Block_Copy (o_block e))) (g_orphans p)).
  { eapply Forall_impl; [|exact Hg]. intros e [H _]. by rewrite copy_block. }
  pose proof (AttemptAttach_progress clock good_block good_step good_add good_replace st p bypass HP) as H.
  rewrite E in H. destruct H as (H1 & H2 & _).
  split; [by apply attach_fuel; [|lia]|]. split; [apply extend_tip_exhausts; lia|]. split; [done|]. split; [done|].
  unfold OrphanPool_AttemptAttachForced in E. destruct (Nat.eqb_spec (length (g_orphans p)) 0) as [E0|_].
  { injection E as _ _ <-. destruct (g_orphans p); [constructor|done]. }
  destruct (attach_progress clock good_block good_step good_add good_replace (S (length (g_orphans p))) st _ bypass HP) as [_ Hs].
  destruct (attach_loop clock _ st _ bypass) as [[m st2] l2]. injection E as _ <- <-. cbn [g_orphans snd] in *.
  apply prune_clean. destruct Hok as (_ & Hnd & _). eapply sublist_NoDup; [exact Hnd|]. by apply (fmap_sublist o_hash).
Qed.

(** The pool adopts its two blocks: the longer branch replaces block 1. *)
Lemma attach_attempt_exact_witness :
  exists n st' p', OrphanPool_AttemptAttachForced late node2 pool2 false = (n, st', p') /\ rtc good_step node2 st' /\
    blocks st' = [genesis; rival1; rival2] /\ g_orphans p' = [].
Proof.
  destruct (OrphanPool_AttemptAttachForced late node2 pool2 false) as [[n st'] p'] eqn:E.
  destruct (attach_attempt_exact late 5000 node2 pool2 false n st' p' 3 ltac:(vm_decide) pool2_reachable E)
    as (_ & _ & H & _); [vm_compute; lia|].
  exists n, st', p'. split; [reflexivity|]. split; [exact H|].
  assert (E1 : blocks st' = blocks (OrphanPool_AttemptAttachForced late node2 pool2 false).1.2) by (rewrite E; reflexivity).
  assert (E2 : p' = (OrphanPool_AttemptAttachForced late node2 pool2 false).2) by (rewrite E; reflexivity).
  rewrite E1, E2. split; vm_compute; reflexivity.
Defined.

(** The first child is followed at every height, so the branch need not be the longest: with two
    children of one parent, a branch of length one is collected although one of length two exists. *)
Example first_child_not_longest :
  let l := [mkOrphan rival1 1 1 0 [1]; mkOrphan block1 1 1 1 [2]; mkOrphan (make 2 0 [2] []) 2 1 2 [3]] in
  let parent := Block_CalculateHash genesis in
  length (fst (OrphanPool_CollectBranchLocked l 1 parent)) = 1%nat /\ linked l 1 parent (tail l).
Proof. split; [vm_compute; reflexivity|]. cbn [tail linked]. repeat split; try (vm_compute; reflexivity); set_solver. Qed.
