(* ===== verification/Framing.v ===== *)
(** * Frames on a TCP stream ([src/tcpd/tcpconnection.c], [include/tcpd/tcpconnection.h])

    A frame is a four-byte big-endian length and that many bytes.  The receiving side reassembles
    frames from whatever chunks [recv] returns; the sending side retries partial writes.  The buffers
    of a connection are the bytes written into them so far, so the counters [headerBytesRead] and
    [frameBytesRead] are lengths.  A callback is the list of the frames handed to [on_data], in
    order. *)
From S2P Require Import Prelude Bytes.

Definition TCP_FRAME_HEADER_SIZE : nat := 4.
Definition TCP_MAX_FRAME_PAYLOAD : Z := 1024 * 1024.

(** The receive state of a connection. *)
Record tcp_stream := mkStream {
  headerBuf : bytes;
  expectedPayloadLen : Z;
  frameBuf : bytes;
  dataBuf : bytes;
  dataBufCap : Z
}.

Definition stream_init : tcp_stream := mkStream [] 0 [] [] 0.

Definition TcpConnection_SetDataBuffer (s : tcp_stream) (data : bytes) : tcp_stream :=
  let len := Z.of_nat (length data) in
  mkStream (headerBuf s) (expectedPayloadLen s) (frameBuf s) data (if dataBufCap s <? len then len else dataBufCap s).

Definition TcpConnection_ResetFramingState (s : tcp_stream) : tcp_stream :=
  mkStream [] 0 [] (dataBuf s) (dataBufCap s).

(** Append to the header, or to the frame, what the chunk has of the missing bytes. *)
Definition take_header (s : tcp_stream) (input : bytes) : tcp_stream * bytes :=
  let needed := (TCP_FRAME_HEADER_SIZE - length (headerBuf s))%nat in
  (mkStream (headerBuf s ++ take needed input) (expectedPayloadLen s) (frameBuf s) (dataBuf s) (dataBufCap s), drop needed input).

Definition take_payload (s : tcp_stream) (input : bytes) : tcp_stream * bytes :=
  let frameRemaining := (Z.to_nat (expectedPayloadLen s) - length (frameBuf s))%nat in
  (mkStream (headerBuf s) (expectedPayloadLen s) (frameBuf s ++ take frameRemaining input) (dataBuf s) (dataBufCap s),
   drop frameRemaining input).

(** The length of a complete header, with an empty frame buffer allocated for it. *)
Definition open_frame (s : tcp_stream) : tcp_stream :=
  mkStream (headerBuf s) (be_val (headerBuf s)) [] (dataBuf s) (dataBufCap s).

(** The second half of the loop body: copy payload, and deliver the frame once it is complete. *)
Definition payload_round (s : tcp_stream) (input : bytes) : option bytes * tcp_stream * bytes :=
  let '(s, input) := take_payload s input in
  if Z.of_nat (length (frameBuf s)) =? expectedPayloadLen s
  then (Some (frameBuf s), TcpConnection_ResetFramingState (TcpConnection_SetDataBuffer s (frameBuf s)), input)
  else (None, s, input).

(** The body of [while (offset < inputLen)]: the frame delivered, if any, the state and the rest of the
    chunk; [None] when the announced length is over the limit. *)
Definition feed_round (s : tcp_stream) (input : bytes) : option (option bytes * tcp_stream * bytes) :=
  if (length (headerBuf s) <? TCP_FRAME_HEADER_SIZE)%nat then
    let '(s, input) := take_header s input in
    if (length (headerBuf s) <? TCP_FRAME_HEADER_SIZE)%nat then Some (None, s, input)
    else
      let s := open_frame s in
      if TCP_MAX_FRAME_PAYLOAD <? expectedPayloadLen s then None
      else if expectedPayloadLen s =? 0
      then Some (Some [], TcpConnection_ResetFramingState (TcpConnection_SetDataBuffer s []), input)
      else Some (payload_round s input)
  else Some (payload_round s input).

Fixpoint feed_loop (fuel : nat) (s : tcp_stream) (input : bytes) : Z * list bytes * tcp_stream :=
  match fuel with
  | O => (0, [], s)
  | S f =>
      if (length input =? 0)%nat then (0, [], s)
      else match feed_round s input with
      | None => (-1, [], TcpConnection_ResetFramingState s)
      | Some (delivered, s, input) =>
          let '(rc, frames, s) := feed_loop f s input in
          (rc, match delivered with Some d => d :: frames | None => frames end, s)
      end
  end.

(** Every round consumes a byte, so the length of the chunk is fuel enough. *)
Definition TcpConnection_FeedFramedData (s : tcp_stream) (input : bytes) : Z * list bytes * tcp_stream :=
  feed_loop (S (length input)) s input.

(** The receive loop of an io thread: chunks as [recv] returns them, until one is refused. *)
Fixpoint recv_loop (s : tcp_stream) (chunks : list bytes) : Z * list bytes * tcp_stream :=
  match chunks with
  | [] => (0, [], s)
  | c :: r =>
      let '(rc, frames, s) := TcpConnection_FeedFramedData s c in
      if negb (rc =? 0) then (rc, frames, s)
      else let '(rc, frames', s) := recv_loop s r in (rc, frames ++ frames', s)
  end.

(** ** Sending *)

(** What one [send] call answers. *)
Inductive send_result := Sent (n : nat) | Interrupted | Failed.

(** The result code and the bytes written, under a script of [send] answers; no code while the script
    runs out before the data does. *)
Fixpoint TcpConnection_SendRaw (script : list send_result) (data : bytes) : option Z * bytes * list send_result :=
  if (length data =? 0)%nat then (Some 0, [], script)
  else match script with
  | [] => (None, [], [])
  | Interrupted :: r => TcpConnection_SendRaw r data
  | Failed :: r => (Some (-1), [], r)
  | Sent n :: r =>
      if (n =? 0)%nat then (Some (-1), [], r)
      else let '(rc, written, r) := TcpConnection_SendRaw r (drop n data) in (rc, take n data ++ written, r)
  end.

(** [htonl]: the big-endian image. *)
Definition be32 (v : Z) : bytes := rev (le_bytes 4 v).

Definition frame_image (payload : bytes) : bytes := be32 (Z.of_nat (length payload)) ++ payload.

Definition TcpConnection_SendFramed (script : list send_result) (payload : bytes) : option Z * bytes * list send_result :=
  if TCP_MAX_FRAME_PAYLOAD <? Z.of_nat (length payload) then (Some (-1), [], script)
  else
    let '(rc, w1, script) := TcpConnection_SendRaw script (be32 (Z.of_nat (length payload))) in
    match rc with
    | Some 0 =>
        if (0 <? length payload)%nat then
          let '(rc, w2, script) := TcpConnection_SendRaw script payload in (rc, w1 ++ w2, script)
        else (rc, w1, script)
    | _ => (rc, w1, script)
    end.

(** The entry points of the server, of a client and of a bare socket; [there]: the pointers are not null. *)
Definition TcpServer_Send (there : bool) (script : list send_result) (data : bytes) : option Z * bytes * list send_result :=
  if negb there || (length data =? 0)%nat then (Some (-1), [], script) else TcpConnection_SendFramed script data.
Definition TcpClient_Send (there : bool) (script : list send_result) (data : bytes) : option Z * bytes * list send_result :=
  if negb there then (Some (-1), [], script) else TcpConnection_SendFramed script data.
Definition Generic_SendSocket (script : list send_result) (data : bytes) : bytes := snd (fst (TcpConnection_SendRaw script data)).

(** ** What a byte stream means

    The reference reading of a stream: split off complete frames until the bytes run out or a length
    is over the limit. *)

Fixpoint split_loop (fuel : nat) (s : bytes) : bool * list bytes * bytes :=
  match fuel with
  | O => (true, [], s)
  | S f =>
      match cut 4 s with
      | None => (true, [], s)
      | Some (h, r) =>
          if TCP_MAX_FRAME_PAYLOAD <? be_val h then (false, [], [])
          else match cut (Z.to_nat (be_val h)) r with
          | None => (true, [], s)
          | Some (p, r) => let '(ok, frames, rest) := split_loop f r in (ok, p :: frames, rest)
          end
      end
  end.

Definition split_frames (s : bytes) : bool * list bytes * bytes := split_loop (S (length s)) s.

(** The bytes of the incomplete frame a connection holds. *)
Definition pending (s : tcp_stream) : bytes := headerBuf s ++ frameBuf s.

(** Between rounds the header is incomplete and there is no frame, or the header announces a positive,
    permitted length that the frame has not reached. *)
Definition stream_ok (s : tcp_stream) : Prop :=
  bytes_ok (headerBuf s) /\
  ((length (headerBuf s) < 4)%nat /\ frameBuf s = [] \/
   length (headerBuf s) = 4%nat /\ expectedPayloadLen s = be_val (headerBuf s) /\
   Z.of_nat (length (frameBuf s)) < expectedPayloadLen s <= TCP_MAX_FRAME_PAYLOAD).

Lemma stream_init_ok : stream_ok stream_init.
Proof. split; [constructor|]. left. cbn. by split; [lia|]. Qed.

(** ** The reference reading *)

Lemma split_loop_fuel f g s : (length s < f)%nat -> (length s < g)%nat -> split_loop f s = split_loop g s.
Proof.
  revert g s; induction f as [|f IH]; intros g s Hf Hg; [lia|]. destruct g as [|g]; [lia|]. cbn [split_loop].
  destruct (cut 4 s) as [[h r]|] eqn:E; [|done]. apply cut_Some in E as [-> Hh].
  destruct (_ <? _); [done|]. destruct (cut _ r) as [[p r']|] eqn:E; [|done]. apply cut_Some in E as [-> _].
  rewrite !length_app in *. by rewrite (IH g) by lia.
Qed.

Lemma split_frame h p r :
  length h = 4%nat -> be_val h = Z.of_nat (length p) -> be_val h <= TCP_MAX_FRAME_PAYLOAD ->
  split_frames (h ++ p ++ r) = let '(ok, frames, rest) := split_frames r in (ok, p :: frames, rest).
Proof.
  intros Hh Hp Hm. unfold split_frames at 1. cbn [split_loop]. rewrite cut_app by done.
  rewrite (proj2 (Z.ltb_ge _ _) Hm), Hp, Nat2Z.id, cut_app by done. unfold split_frames.
  by rewrite (split_loop_fuel _ (S (length r)) r) by (rewrite ?length_app; lia).
Qed.

Lemma split_over h r : length h = 4%nat -> TCP_MAX_FRAME_PAYLOAD < be_val h -> split_frames (h ++ r) = (false, [], []).
Proof. intros Hh Hm. unfold split_frames. cbn [split_loop]. rewrite cut_app by done. by rewrite (proj2 (Z.ltb_lt _ _) Hm). Qed.

Lemma split_pending s : stream_ok s -> split_frames (pending s) = (true, [], pending s).
Proof.
  intros [_ [[Hl E]|(Hl & E & Hx)]]; unfold split_frames, pending; cbn [split_loop].
  - rewrite E, app_nil_r. unfold cut at 1. by rewrite (proj2 (Nat.ltb_lt _ _) Hl).
  - rewrite cut_app by done. rewrite <- E, (proj2 (Z.ltb_ge _ _)) by lia. unfold cut.
    by rewrite (proj2 (Nat.ltb_lt _ _)) by lia.
Qed.

(** ** One round, and the loop *)

Definition prepend (d : option bytes) (r : bool * list bytes * bytes) : bool * list bytes * bytes :=
  let '(ok, frames, rest) := r in (ok, match d with Some p => p :: frames | None => frames end, rest).

Lemma prepend_None r : prepend None r = r.
Proof. by destruct r as [[? ?] ?]. Qed.

Lemma reset_ok s : stream_ok (TcpConnection_ResetFramingState s).
Proof. split; [constructor|]. left. cbn. by split; [lia|]. Qed.

(** A round that made progress: the stream ahead, pending bytes included, reads the same. *)
Definition progress (before : bytes) (r : option bytes * tcp_stream * bytes) : Prop :=
  let '(d, t, rest) := r in
  stream_ok t /\ bytes_ok rest /\ split_frames before = prepend d (split_frames (pending t ++ rest)).

Lemma payload_round_spec s input :
  stream_ok s -> length (headerBuf s) = 4%nat -> bytes_ok input ->
  progress (pending s ++ input) (payload_round s input) /\
  (length (snd (payload_round s input)) <= length input)%nat /\
  (input <> [] -> (length (snd (payload_round s input)) < length input)%nat).
Proof.
  intros [Hb Hs] Hl Hi. destruct Hs as [[? _]|(_ & E & Hx)]; [lia|]. unfold payload_round, take_payload, pending.
  cbn [frameBuf expectedPayloadLen headerBuf dataBuf dataBufCap].
  set (n := (Z.to_nat (expectedPayloadLen s) - length (frameBuf s))%nat).
  assert (Ei : headerBuf s ++ (frameBuf s ++ take n input) ++ drop n input = (headerBuf s ++ frameBuf s) ++ input)
    by (rewrite <- !app_assoc; by rewrite take_drop).
  assert (Hd : bytes_ok (drop n input)) by (by apply bytes_ok_drop).
  assert (Hlen : forall P : Prop, P -> P /\ (length (drop n input) <= length input)%nat /\
                 (input <> [] -> (length (drop n input) < length input)%nat)).
  { intros P HP. split; [done|]. rewrite length_drop. split; [lia|]. intros Hne. destruct input; [done|]. cbn [length]. lia. }
  destruct (Z.eqb_spec (Z.of_nat (length (frameBuf s ++ take n input))) (expectedPayloadLen s)) as [Eq|Ne]; apply Hlen.
  - split; [apply reset_ok|]. split; [done|]. rewrite <- Ei, split_frame; [reflexivity|done|by rewrite <- E|lia].
  - rewrite length_app, length_take in Ne. split; [|split; [done|]].
    + split; [done|]. right. cbn [headerBuf expectedPayloadLen frameBuf]. rewrite length_app, length_take. subst n. lia.
    + unfold pending. cbn [headerBuf frameBuf]. by rewrite prepend_None, <- Ei, (app_assoc (headerBuf s)).
Qed.

Lemma feed_round_spec s input :
  stream_ok s -> bytes_ok input -> input <> [] ->
  match feed_round s input with
  | None => split_frames (pending s ++ input) = (false, [], [])
  | Some r => progress (pending s ++ input) r /\ (length (snd r) < length input)%nat
  end.
Proof.
  intros Hs Hi Hne. unfold feed_round, TCP_FRAME_HEADER_SIZE. pose proof Hs as [Hb [[Hl Hf]|(Hl & _)]].
  2: { rewrite (proj2 (Nat.ltb_ge _ _)) by lia. destruct (payload_round_spec s input Hs Hl Hi) as (P & _ & Q). by split; [|apply Q]. }
  rewrite (proj2 (Nat.ltb_lt _ _) Hl). unfold take_header at 1, TCP_FRAME_HEADER_SIZE. cbn [headerBuf].
  set (n := (4 - length (headerBuf s))%nat). set (h := headerBuf s ++ take n input).
  assert (Hh : bytes_ok h) by (apply bytes_ok_app; split; [done|by apply bytes_ok_take]).
  assert (Lh : length h = (length (headerBuf s) + n `min` length input)%nat) by (unfold h; by rewrite length_app, length_take).
  assert (Ei : pending s ++ input = h ++ drop n input) by (unfold h, pending; by rewrite Hf, app_nil_r, <- app_assoc, take_drop).
  assert (Hd : bytes_ok (drop n input)) by (by apply bytes_ok_drop).
  assert (Ld : (length (drop n input) < length input)%nat) by (rewrite length_drop; destruct input; [done|cbn [length]; lia]).
  rewrite Ei. destruct (Nat.ltb_spec (length h) 4) as [Hshort|Hfull].
  { split; [|done]. split; [split; [done|by left]|]. split; [done|]. unfold pending. cbn [headerBuf frameBuf].
    by rewrite Hf, app_nil_r, prepend_None. }
  unfold open_frame. cbn [headerBuf expectedPayloadLen dataBuf dataBufCap]. pose proof (be_val_bounds h Hh) as Hv.
  destruct (Z.ltb_spec TCP_MAX_FRAME_PAYLOAD (be_val h)) as [Hov|Hok]; [apply split_over; lia|].
  destruct (Z.eqb_spec (be_val h) 0) as [E0|E0].
  - split; [|done]. split; [apply reset_ok|]. split; [done|]. apply (split_frame h []); [lia|by rewrite E0|lia].
  - destruct (payload_round_spec (mkStream h (be_val h) [] (dataBuf s) (dataBufCap s)) (drop n input)) as (P & Q & _);
      [split; [done|right; cbn; lia]|cbn; lia|done|].
    unfold pending at 1 in P. cbn [headerBuf frameBuf] in P. rewrite app_nil_r in P. split; [exact P|lia].
Qed.

Lemma feed_loop_spec fuel s input :
  stream_ok s -> bytes_ok input -> (length input < fuel)%nat ->
  let '(rc, frames, t) := feed_loop fuel s input in
  let '(ok, frames', rest) := split_frames (pending s ++ input) in
  rc = (if ok then 0 else -1) /\ frames = frames' /\ pending t = rest /\ stream_ok t.
Proof.
  revert s input; induction fuel as [|f IH]; intros s input Hs Hi Hf; [lia|]. cbn [feed_loop].
  destruct (Nat.eqb_spec (length input) 0) as [E|E].
  { apply nil_length_inv in E as ->. rewrite app_nil_r, split_pending by done. done. }
  pose proof (feed_round_spec s input Hs Hi ltac:(by intros ->)) as R.
  destruct (feed_round s input) as [[[d t] rest]|]; [|rewrite R; split; [done|split; [done|split; [done|apply reset_ok]]]].
  destruct R as [(Ht & Hr & Hsp) Hlen]. cbn [snd] in Hlen. specialize (IH t rest Ht Hr ltac:(lia)).
  destruct (feed_loop f t rest) as [[rc frames] u]. rewrite Hsp.
  destruct (split_frames (pending t ++ rest)) as [[ok frames'] rest']. cbn [prepend].
  destruct IH as (-> & -> & H1 & H2). done.
Qed.

(** ** Chunks *)

Definition prepends (ds : list bytes) (r : bool * list bytes * bytes) : bool * list bytes * bytes :=
  let '(ok, frames, rest) := r in (ok, ds ++ frames, rest).

(** Reading on after a prefix: complete frames stay, an error stays an error. *)
Lemma split_loop_app f a b :
  bytes_ok a -> (length a < f)%nat ->
  let '(ok, frames, rest) := split_loop f a in
  split_frames (a ++ b) = if ok then prepends frames (split_frames (rest ++ b)) else (false, frames, []).
Proof.
  revert a; induction f as [|f IH]; intros a Ha Hf; [lia|]. cbn [split_loop].
  assert (Hstop : split_frames (a ++ b) = prepends [] (split_frames (a ++ b))) by (by destruct (split_frames _) as [[? ?] ?]).
  destruct (cut 4 a) as [[h r]|] eqn:E; [|exact Hstop]. destruct (cut_ok _ _ _ _ Ha E) as [Hbh Hbr]. apply cut_Some in E as [-> Hh].
  destruct (Z.ltb_spec TCP_MAX_FRAME_PAYLOAD (be_val h)); [rewrite <- app_assoc; by apply split_over|].
  destruct (cut (Z.to_nat (be_val h)) r) as [[p r']|] eqn:E; [|exact Hstop].
  destruct (cut_ok _ _ _ _ Hbr E) as [_ Hbr']. apply cut_Some in E as [-> Hp]. pose proof (be_val_bounds h Hbh).
  rewrite !length_app in Hf. specialize (IH r' Hbr' ltac:(lia)). destruct (split_loop f r') as [[ok frames] rest].
  rewrite <- !app_assoc, split_frame by lia. rewrite IH. destruct ok; [|done]. by destruct (split_frames (rest ++ b)) as [[? ?] ?].
Qed.

Lemma split_app a b :
  bytes_ok a ->
  let '(ok, frames, rest) := split_frames a in
  split_frames (a ++ b) = if ok then prepends frames (split_frames (rest ++ b)) else (false, frames, []).
Proof. intros Ha. apply split_loop_app; [done|lia]. Qed.

Lemma split_rest_ok f s ok frames rest : bytes_ok s -> split_loop f s = (ok, frames, rest) -> bytes_ok rest.
Proof.
  revert s frames; induction f as [|f IH]; intros s frames Hs E; cbn [split_loop] in E; [by simplify_eq|].
  destruct (cut 4 s) as [[h r]|] eqn:E1; [|by simplify_eq]. destruct (cut_ok _ _ _ _ Hs E1) as [_ Hr].
  destruct (_ <? _); [simplify_eq; constructor|]. destruct (cut _ r) as [[p r']|] eqn:E2; [|by simplify_eq].
  destruct (cut_ok _ _ _ _ Hr E2) as [_ Hr']. destruct (split_loop f r') as [[? ?] ?] eqn:E3. simplify_eq. by apply (IH r' _ Hr' E3).
Qed.

Lemma recv_loop_spec s chunks :
  stream_ok s -> bytes_ok (pending s) -> Forall bytes_ok chunks ->
  let '(rc, frames, t) := recv_loop s chunks in
  let '(ok, frames', rest) := split_frames (pending s ++ concat chunks) in
  rc = (if ok then 0 else -1) /\ frames = frames' /\ pending t = rest.
Proof.
  intros Hs Hp Hc; revert s Hs Hp; induction Hc as [|c r Hc _ IH]; intros s Hs Hp; cbn [recv_loop concat].
  { rewrite app_nil_r, split_pending by done. done. }
  pose proof (feed_loop_spec (S (length c)) s c Hs Hc ltac:(lia)) as F. fold (TcpConnection_FeedFramedData s c) in F.
  destruct (TcpConnection_FeedFramedData s c) as [[rc frames] t].
  assert (Hpc : bytes_ok (pending s ++ c)) by (by apply bytes_ok_app). pose proof (split_app (pending s ++ c) (concat r) Hpc) as A.
  assert (Hrest : forall ok fr rest, split_frames (pending s ++ c) = (ok, fr, rest) -> bytes_ok rest)
    by (intros ok fr rest; unfold split_frames; by apply split_rest_ok).
  rewrite app_assoc. destruct (split_frames (pending s ++ c)) as [[ok frames'] rest] eqn:E.
  destruct F as (-> & -> & <- & Ht). rewrite A. destruct ok; cbn [Z.eqb negb].
  2: { pose proof (split_app (pending s ++ c) [] Hpc) as A0. rewrite app_nil_r, E in A0. injection A0 as A0. done. }
  specialize (IH t Ht (Hrest _ _ _ eq_refl)). destruct (recv_loop t r) as [[rc frames] u].
  destruct (split_frames (pending t ++ concat r)) as [[ok fr] rest]. cbn [prepends]. destruct IH as (-> & -> & <-). done.
Qed.

(** ** Sending *)

Lemma be_val_le bs : be_val (rev bs) = le_val bs.
Proof.
  induction bs as [|b bs IH]; [done|]. cbn [rev le_val]. rewrite be_val_app, IH. cbn. lia.
Qed.

Lemma be_val_be32 v : 0 <= v < 2 ^ 32 -> be_val (be32 v) = v.
Proof. intros H. unfold be32. rewrite be_val_le. by apply le_val_bytes. Qed.

Lemma be32_ok v : bytes_n 4 (be32 v).
Proof.
  unfold be32. split; [by rewrite length_rev, length_le_bytes|]. apply Forall_rev, le_bytes_ok.
Qed.

(** A raw send writes a prefix of the data, all of it exactly when it reports success. *)
Lemma SendRaw_spec script data :
  let '(rc, written, _) := TcpConnection_SendRaw script data in
  written `prefix_of` data /\ (rc = Some 0 <-> written = data) /\ (rc = None \/ rc = Some 0 \/ rc = Some (-1)).
Proof.
  revert data; induction script as [|a r IH]; intros data; cbn [TcpConnection_SendRaw];
    (destruct (Nat.eqb_spec (length data) 0) as [E|E]; [apply nil_length_inv in E as ->; split; [done|by split; [|auto]]|]);
    assert (Hne : [] <> data) by (by intros <-).
  - split; [apply prefix_nil|]. split; [|by auto]. split; [done|by intros ?].
  - destruct a as [n| |].
    + destruct (Nat.eqb_spec n 0); [split; [apply prefix_nil|]; split; [split; [done|by intros ?]|by auto]|].
      specialize (IH (drop n data)). destruct (TcpConnection_SendRaw r (drop n data)) as [[rc w] r']. destruct IH as (H1 & H2 & H3).
      split; [rewrite <- (take_drop n data) at 2; by apply prefix_app|]. split; [|done]. rewrite H2. split.
      * intros ->. apply take_drop.
      * intros Hw. rewrite <- (take_drop n data) in Hw at 2. by apply app_inv_head in Hw.
    + apply IH.
    + split; [apply prefix_nil|]. split; [|by auto]. split; [done|by intros ?].
Qed.

Lemma SendFramed_spec script payload :
  let '(rc, written, _) := TcpConnection_SendFramed script payload in
  written `prefix_of` frame_image payload /\
  (rc = Some 0 <-> written = frame_image payload) /\
  (rc = Some 0 -> Z.of_nat (length payload) <= TCP_MAX_FRAME_PAYLOAD).
Proof.
  unfold TcpConnection_SendFramed. destruct (be32_ok (Z.of_nat (length payload))) as [L4 _].
  destruct (Z.ltb_spec TCP_MAX_FRAME_PAYLOAD (Z.of_nat (length payload))) as [Ho|Ho].
  { split; [apply prefix_nil|]. split; [|done]. split; [done|]. intros E. apply (f_equal length) in E.
    unfold frame_image in E. rewrite length_app in E. cbn in E. lia. }
  pose proof (SendRaw_spec script (be32 (Z.of_nat (length payload)))) as S1.
  destruct (TcpConnection_SendRaw script _) as [[rc w1] script']. destruct S1 as (P1 & Q1 & R1). unfold frame_image.
  assert (Hfail : rc <> Some 0 -> w1 `prefix_of` be32 (Z.of_nat (length payload)) ++ payload /\
    (rc = Some 0 <-> w1 = be32 (Z.of_nat (length payload)) ++ payload) /\ (rc = Some 0 -> Z.of_nat (length payload) <= TCP_MAX_FRAME_PAYLOAD)).
  { intros Hrc. split; [by apply prefix_app_r|]. split; [|done]. split; [done|]. intros E. exfalso. apply Hrc, Q1.
    apply (prefix_length_eq _ _ P1). rewrite E, length_app. lia. }
  destruct R1 as [E|[E|E]]; subst rc; [by apply Hfail| |by apply Hfail]. rewrite (proj1 Q1 eq_refl).
  destruct (Nat.ltb_spec 0 (length payload)) as [Hp|Hp].
  - pose proof (SendRaw_spec script' payload) as S2. destruct (TcpConnection_SendRaw script' payload) as [[rc w2] script2].
    destruct S2 as (P2 & Q2 & R2). split; [by apply prefix_app|]. split; [|done]. rewrite Q2. split; [by intros ->|by intros ?%app_inv_head].
  - assert (payload = []) as -> by (apply nil_length_inv; lia). rewrite app_nil_r. done.
Qed.

(** Success on either entry point means that the whole frame was written; only the client sends empty frames. *)
Lemma entry_points_frame there script data written r :
  TcpServer_Send there script data = (Some 0, written, r) \/ TcpClient_Send there script data = (Some 0, written, r) ->
  there = true /\ written = frame_image data.
Proof.
  unfold TcpServer_Send, TcpClient_Send. pose proof (SendFramed_spec script data) as Hf. destruct there; cbn [negb orb]; [|by intros [?|?]].
  destruct (TcpConnection_SendFramed script data) as [[rc w] r']. destruct Hf as (_ & Hf & _).
  intros [E|E]; [destruct (length data =? 0)%nat; [done|]|]; injection E as -> -> _; (split; [done|by apply Hf]).
Qed.

Lemma split_image payload r :
  Z.of_nat (length payload) <= TCP_MAX_FRAME_PAYLOAD ->
  split_frames (frame_image payload ++ r) = prepends [payload] (split_frames r).
Proof.
  intros H. unfold frame_image. rewrite <- app_assoc. destruct (be32_ok (Z.of_nat (length payload))) as [L4 _].
  assert (E : be_val (be32 (Z.of_nat (length payload))) = Z.of_nat (length payload))
    by (apply be_val_be32; unfold TCP_MAX_FRAME_PAYLOAD in H; lia).
  rewrite split_frame by (done || lia). by destruct (split_frames r) as [[? ?] ?].
Qed.

(** A frame cut short is no frame. *)
Lemma split_truncated payload w :
  Z.of_nat (length payload) <= TCP_MAX_FRAME_PAYLOAD -> w `prefix_of` frame_image payload -> w <> frame_image payload ->
  split_frames w = (true, [], w).
Proof.
  intros H [k Hk] Hne. destruct (be32_ok (Z.of_nat (length payload))) as [L4 _].
  assert (E : be_val (be32 (Z.of_nat (length payload))) = Z.of_nat (length payload))
    by (apply be_val_be32; unfold TCP_MAX_FRAME_PAYLOAD in H; lia).
  unfold split_frames. cbn [split_loop]. destruct (cut 4 w) as [[h r]|] eqn:Ec; [|done]. apply cut_Some in Ec as [-> Hh].
  unfold frame_image in *. rewrite <- app_assoc in Hk. apply app_inj_1 in Hk as [<- Hk]; [|lia]. rewrite E.
  rewrite (proj2 (Z.ltb_ge _ _) H), Nat2Z.id. unfold cut. destruct (Nat.ltb_spec (length r) (length payload)) as [|Hge]; [done|].
  exfalso. apply Hne. f_equal. rewrite Hk in Hge. rewrite length_app in Hge. assert (k = []) as -> by (apply nil_length_inv; lia).
  by rewrite Hk, app_nil_r.
Qed.

Lemma split_images sends r :
  Forall (fun p => Z.of_nat (length p) <= TCP_MAX_FRAME_PAYLOAD) sends ->
  split_frames (concat (map frame_image sends) ++ r) = prepends sends (split_frames r).
Proof.
  induction 1 as [|p l Hp _ IH]; cbn [map concat]; [by destruct (split_frames _) as [[? ?] ?]|].
  rewrite <- app_assoc, split_image, IH by done. by destruct (split_frames r) as [[? ?] ?].
Qed.

Lemma frame_image_ok p : bytes_ok p -> bytes_ok (frame_image p).
Proof. intros H. apply bytes_ok_app. split; [apply be32_ok|done]. Qed.

Lemma concat_ok l : bytes_ok (concat l) -> Forall bytes_ok l.
Proof.
  induction l as [|a l IH]; cbn [concat]; intros H; constructor; apply bytes_ok_app in H as [? ?]; auto.
Qed.

(** ** Properties *)

Definition delivered_frames (s : tcp_stream) (chunks : list bytes) : list bytes := snd (fst (recv_loop s chunks)).

(** C25: reassembly does not depend on how the stream is cut.  However the received bytes are split
    into chunks, the io thread hands over exactly the frames the whole byte stream reads as, in
    order, keeps exactly the bytes of the last, incomplete frame, and stops with an error exactly
    when a length over the limit is announced; the frames before it are still delivered.  (Memory for
    the frame buffer is taken to be there; without it the code reports the same error.) *)
Theorem feed_reads_the_stream chunks :
  Forall bytes_ok chunks ->
  let '(rc, frames, s) := recv_loop stream_init chunks in
  let '(ok, frames', rest) := split_frames (concat chunks) in
  rc = (if ok then 0 else -1) /\ frames = frames' /\ pending s = rest.
Proof. intros H. apply (recv_loop_spec stream_init chunks stream_init_ok); [constructor|done]. Qed.

Lemma feed_reads_the_stream_witness :
  delivered_frames stream_init [[0; 0]; [0; 2; 7]; [8; 0; 0; 0; 0; 0; 0]] = [[7; 8]; []] /\
  snd (split_frames (concat [[0; 0]; [0; 2; 7]; [8; 0; 0; 0; 0; 0; 0]])) = [0; 0].
Proof.
  pose proof (feed_reads_the_stream [[0; 0]; [0; 2; 7]; [8; 0; 0; 0; 0; 0; 0]] ltac:(vm_decide)) as H.
  split; [unfold delivered_frames; revert H; vm_compute; intros (_ & H & _); exact H|reflexivity].
Defined.

(** A call of [TcpConnection_SendFramed]: its result code and what it wrote. *)
Definition send_rc (p : list send_result * bytes) : option Z := fst (fst (TcpConnection_SendFramed p.1 p.2)).
Definition send_written (p : list send_result * bytes) : bytes := snd (fst (TcpConnection_SendFramed p.1 p.2)).

Lemma sends_written sends :
  Forall (fun p => bytes_ok p.2 /\ send_rc p = Some 0) sends ->
  map send_written sends = map (fun p => frame_image p.2) sends /\
  Forall (fun p => Z.of_nat (length p) <= TCP_MAX_FRAME_PAYLOAD) (map snd sends) /\
  bytes_ok (concat (map frame_image (map snd sends))).
Proof.
  induction 1 as [|p l [Hb Hp] _ (IH1 & IH2 & IH3)]; [repeat constructor|].
  pose proof (SendFramed_spec p.1 p.2) as L. unfold send_written, send_rc in *. cbn [map concat].
  destruct (TcpConnection_SendFramed p.1 p.2) as [[rc w] ?]. cbn [fst snd] in *. destruct L as (_ & Heq & Hm).
  split; [by rewrite IH1, (proj1 Heq Hp)|]. split; [by constructor; [apply Hm|]|]. apply bytes_ok_app. by split; [apply frame_image_ok|].
Qed.

(** Frames cross the wire intact.  Whatever partial writes and interruptions the socket makes, if
    some sends on a connection report success and a last one does not (or has not finished), then the
    receiver, however its reads cut the stream, is handed exactly the payloads of the successful
    sends, in order and unchanged, and nothing of the last one. *)
Theorem frames_cross_the_wire sends last chunks :
  Forall (fun p => bytes_ok p.2 /\ send_rc p = Some 0) sends -> bytes_ok last.2 -> send_rc last <> Some 0 ->
  concat chunks = concat (map send_written sends) ++ send_written last ->
  fst (recv_loop stream_init chunks) = (0, map snd sends).
Proof.
  intros Hs Hl Hrc Hc. pose proof (SendFramed_spec last.1 last.2) as L. pose proof (sends_written sends Hs) as Hw. clear Hs.
  unfold send_rc, send_written in *.
  destruct (TcpConnection_SendFramed last.1 last.2) as [[rcl wl] ?] eqn:El. cbn [fst snd] in *. destruct L as (Hpre & Heq & _).
  destruct Hw as (Hw & Hm & Hok). rewrite Hw in Hc. rewrite map_map in Hok.
  assert (Hwl : bytes_ok wl).
  { pose proof (frame_image_ok last.2 Hl) as Hi. destruct Hpre as [k Hk]. rewrite Hk in Hi. apply bytes_ok_app in Hi as [Hi _]. exact Hi. }
  pose proof (recv_loop_spec stream_init chunks stream_init_ok ltac:(constructor)) as R. rewrite Hc in R.
  specialize (R ltac:(apply concat_ok; rewrite Hc; by apply bytes_ok_app)). cbn [pending stream_init headerBuf frameBuf app] in R.
  rewrite <- (map_map snd frame_image), split_images in R by done.
  assert (Hsp : split_frames wl = (true, [], wl)).
  { unfold TcpConnection_SendFramed in El. destruct (Z.ltb_spec TCP_MAX_FRAME_PAYLOAD (Z.of_nat (length last.2))); [injection El as _ <- _; reflexivity|].
    apply (split_truncated last.2); [done|done|]. intros E. by apply Hrc, Heq. }
  rewrite Hsp in R. destruct (recv_loop stream_init chunks) as [[rc frames] t]. destruct R as (-> & -> & _).
  cbn [fst]. by rewrite app_nil_r.
Qed.

Lemma frames_cross_the_wire_witness :
  fst (recv_loop stream_init [[0; 0; 0]; [3; 1; 2]; [3; 0; 0; 0]]) = (0, [[1; 2; 3]]).
Proof.
  apply (frames_cross_the_wire [([Sent 2; Interrupted; Sent 3; Sent 1; Sent 9], [1; 2; 3])] ([Sent 3; Failed], [5; 5])).
  - constructor; [split; [vm_decide|reflexivity]|constructor].
  - vm_decide.
  - vm_compute. congruence.
  - reflexivity.
Defined.
