(* ===== verification/Deliveries.v ===== *)
(** * Delivery receipts ([src/nets/net_node.c], [include/nets/net_node.h])

    The io threads leave a receipt for every answered block request, by height, in a ring of 512
    slots; the sync loop takes them.  A second receipt for a height refreshes the first. *)
From S2P Require Import Prelude.

Definition NODE_DELIVERY_SLOTS : nat := 512.

Inductive node_delivery_status :=
| NODE_DELIVERY_APPENDED | NODE_DELIVERY_DUPLICATE | NODE_DELIVERY_ORPHANED | NODE_DELIVERY_REJECTED.

#[export] Instance node_delivery_status_eq_dec : EqDecision node_delivery_status.
Proof. solve_decision. Defined.

Record node_delivery := mkDelivery { d_height : Z; d_status : node_delivery_status; d_valid : bool }.

Record deliveries := mkDeliveries { g_deliveries : list node_delivery; g_deliveryNext : nat }.

(** The memory of [memset(g_deliveries, 0, ...)]. *)
Definition empty_slot : node_delivery := mkDelivery 0 NODE_DELIVERY_APPENDED false.

Definition Node_ResetBlockDeliveries : deliveries := mkDeliveries (replicate NODE_DELIVERY_SLOTS empty_slot) 0.

Definition holds (height : Z) (r : node_delivery) : bool := d_valid r && (d_height r =? height).

(** The scan both operations start with: the first valid slot of that height. *)
Fixpoint find_delivery (i : nat) (l : list node_delivery) (height : Z) : option nat :=
  match l with
  | [] => None
  | r :: l => if holds height r then Some i else find_delivery (S i) l height
  end.

Definition set_status (status : node_delivery_status) (r : node_delivery) : node_delivery := mkDelivery (d_height r) status (d_valid r).
Definition consume (r : node_delivery) : node_delivery := mkDelivery (d_height r) (d_status r) false.

Definition Node_NoteBlockDelivered (d : deliveries) (height : Z) (status : node_delivery_status) : deliveries :=
  match find_delivery 0 (g_deliveries d) height with
  | Some i => mkDeliveries (alter (set_status status) i (g_deliveries d)) (g_deliveryNext d)
  | None => mkDeliveries (<[g_deliveryNext d := mkDelivery height status true]> (g_deliveries d))
                         ((g_deliveryNext d + 1) mod NODE_DELIVERY_SLOTS)
  end.

Definition Node_TakeBlockDelivery (d : deliveries) (height : Z) : option node_delivery_status * deliveries :=
  match find_delivery 0 (g_deliveries d) height with
  | Some i => (d_status <$> g_deliveries d !! i, mkDeliveries (alter consume i (g_deliveries d)) (g_deliveryNext d))
  | None => (None, d)
  end.

(** ** The receipts a ring stands for *)

Definition receipt (d : deliveries) (height : Z) : option node_delivery_status := fst (Node_TakeBlockDelivery d height).

(** 512 slots, the cursor inside, and no height in two valid slots. *)
Definition deliveries_ok (d : deliveries) : Prop :=
  length (g_deliveries d) = NODE_DELIVERY_SLOTS /\ (g_deliveryNext d < NODE_DELIVERY_SLOTS)%nat /\
  forall i j h r s, g_deliveries d !! i = Some r -> g_deliveries d !! j = Some s ->
    holds h r = true -> holds h s = true -> i = j.

Lemma holds_spec h r : holds h r = true <-> d_valid r = true /\ d_height r = h.
Proof. unfold holds. rewrite andb_true_iff, Z.eqb_eq. done. Qed.

Lemma find_delivery_spec i l h :
  match find_delivery i l h with
  | Some k => exists j r, k = (i + j)%nat /\ l !! j = Some r /\ holds h r = true
  | None => forall j r, l !! j = Some r -> holds h r = false
  end.
Proof.
  revert i; induction l as [|r l IH]; intros i; cbn [find_delivery]; [done|].
  destruct (holds h r) eqn:E; [exists 0%nat, r; split; [lia|done]|].
  specialize (IH (S i)). destruct (find_delivery (S i) l h) as [k|].
  - destruct IH as (j & x & -> & H1 & H2). exists (S j), x. split; [lia|done].
  - intros [|j] x; cbn; [by intros [= <-]|apply IH].
Qed.

(** The slot of a height, when it has one. *)
Lemma find_slot d h i : find_delivery 0 (g_deliveries d) h = Some i -> exists r, g_deliveries d !! i = Some r /\ holds h r = true.
Proof. intros E. pose proof (find_delivery_spec 0 (g_deliveries d) h) as H. rewrite E in H. by destruct H as (j & r & -> & ?); exists r. Qed.

Lemma find_slot_iff d h i r :
  deliveries_ok d -> g_deliveries d !! i = Some r -> holds h r = true -> find_delivery 0 (g_deliveries d) h = Some i.
Proof.
  intros (_ & _ & Hu) Hi Hr. pose proof (find_delivery_spec 0 (g_deliveries d) h) as H.
  destruct (find_delivery 0 (g_deliveries d) h) as [k|]; [|by rewrite (H i r Hi) in Hr].
  destruct H as (j & x & -> & Hj & Hx). by rewrite (Hu i (0 + j)%nat h r x Hi Hj Hr Hx).
Qed.

Lemma receipt_spec d h s :
  deliveries_ok d -> receipt d h = Some s <-> exists i, g_deliveries d !! i = Some (mkDelivery h s true).
Proof.
  intros Hok. unfold receipt, Node_TakeBlockDelivery. split.
  - destruct (find_delivery 0 (g_deliveries d) h) as [i|] eqn:E; [|done]. apply find_slot in E as (r & Hr & Hh). cbn [fst]. rewrite Hr.
    intros [= <-]. apply holds_spec in Hh as [Hv <-]. exists i. rewrite Hr. destruct r; cbn in *; by subst.
  - intros [i Hi]. rewrite (find_slot_iff d h i _ Hok Hi) by (by apply holds_spec). cbn [fst]. by rewrite Hi.
Qed.

Lemma reset_deliveries_ok : deliveries_ok Node_ResetBlockDeliveries.
Proof.
  split; [apply length_replicate|]. split; [cbn; unfold NODE_DELIVERY_SLOTS; lia|].
  intros i j h r s Hr _ Hh. cbn [Node_ResetBlockDeliveries g_deliveries] in Hr. apply lookup_replicate in Hr as [-> _]. done.
Qed.

Lemma note_ok d h s : deliveries_ok d -> deliveries_ok (Node_NoteBlockDelivered d h s).
Proof.
  intros Hok. pose proof Hok as (Hl & Hn & Hu). unfold Node_NoteBlockDelivered.
  pose proof (find_delivery_spec 0 (g_deliveries d) h) as Hf. destruct (find_delivery 0 (g_deliveries d) h) as [k|] eqn:E.
  - split; [cbn [g_deliveries]; by rewrite length_alter|]. split; [done|]. cbn [g_deliveries]. intros i j x r t Hr Ht Hx1 Hx2.
    assert (Hback : forall i r, alter (set_status s) k (g_deliveries d) !! i = Some r -> holds x r = true ->
              exists r0, g_deliveries d !! i = Some r0 /\ holds x r0 = true).
    { intros i0 r0 H0 H1. rewrite list_lookup_alter in H0. case_decide; [|by exists r0].
      subst i0. destruct (g_deliveries d !! k) as [q|]; [|done]. injection H0 as <-. exists q. split; [done|]. by destruct q. }
    destruct (Hback i r Hr Hx1) as (r0 & ? & ?), (Hback j t Ht Hx2) as (t0 & ? & ?). by apply (Hu i j x r0 t0).
  - split; [cbn [g_deliveries]; by rewrite length_insert|]. split; [apply Nat.mod_upper_bound; unfold NODE_DELIVERY_SLOTS; lia|].
    cbn [g_deliveries]. intros i j x r t Hr Ht Hx1 Hx2.
    apply list_lookup_insert_Some in Hr as [(<- & <- & _)|(Hi & Hr)], Ht as [(<- & <- & _)|(Hj & Ht)]; [done| | |by apply (Hu i j x r t)].
    + apply holds_spec in Hx1 as [_ E1]. cbn in E1. subst x. by rewrite (Hf j t Ht) in Hx2.
    + apply holds_spec in Hx2 as [_ E2]. cbn in E2. subst x. by rewrite (Hf i r Hr) in Hx1.
Qed.

Lemma take_ok d h : deliveries_ok d -> deliveries_ok (snd (Node_TakeBlockDelivery d h)).
Proof.
  intros Hok. pose proof Hok as (Hl & Hn & Hu). unfold Node_TakeBlockDelivery.
  destruct (find_delivery 0 (g_deliveries d) h) as [k|]; [|done]. cbn [snd].
  split; [cbn [g_deliveries]; by rewrite length_alter|]. split; [done|]. cbn [g_deliveries]. intros i j x r t Hr Ht Hx1 Hx2.
  assert (Hback : forall i r, alter consume k (g_deliveries d) !! i = Some r -> holds x r = true -> g_deliveries d !! i = Some r).
  { intros i0 r0 H0 H1. rewrite list_lookup_alter in H0. case_decide; [|done].
    subst i0. destruct (g_deliveries d !! k) as [q|]; [|done]. by injection H0 as <-. }
  apply (Hu i j x r t); auto.
Qed.

(** ** Survival

    [held d h s p k]: slot [p] holds the receipt of [h], and the cursor is [k] insertions short of it. *)

Definition held (d : deliveries) (h : Z) (s : node_delivery_status) (p k : nat) : Prop :=
  g_deliveries d !! p = Some (mkDelivery h s true) /\ (k < NODE_DELIVERY_SLOTS)%nat /\
  p = ((g_deliveryNext d + k) mod NODE_DELIVERY_SLOTS)%nat.

Lemma slot_of_other d h h' s p k i :
  deliveries_ok d -> held d h s p k -> h' <> h -> find_delivery 0 (g_deliveries d) h' = Some i -> i <> p.
Proof.
  intros Hok (Hp & _) Hne E ->. apply find_slot in E as (r & Hr & Hh). rewrite Hp in Hr. injection Hr as <-.
  apply holds_spec in Hh as [_ Hh]. cbn in Hh. done.
Qed.

Lemma held_note_same d h s t p k : deliveries_ok d -> held d h s p k -> held (Node_NoteBlockDelivered d h t) h t p k.
Proof.
  intros Hok (Hp & Hk & Ep). unfold Node_NoteBlockDelivered.
  rewrite (find_slot_iff d h p _ Hok Hp) by (by apply holds_spec). split; [|done]. cbn [g_deliveries]. by rewrite list_lookup_alter_eq, Hp.
Qed.

Lemma held_note_other d h h' s t p k :
  deliveries_ok d -> held d h s p (S k) -> h' <> h ->
  held (Node_NoteBlockDelivered d h' t) h s p (S k) \/ held (Node_NoteBlockDelivered d h' t) h s p k.
Proof.
  intros Hok Hh Hne. unfold Node_NoteBlockDelivered. destruct (find_delivery 0 (g_deliveries d) h') as [i|] eqn:E.
  - pose proof (slot_of_other d h h' s p (S k) i Hok Hh Hne E) as Hi. left. destruct Hh as (Hp & Hk & Ep).
    split; [|done]. cbn [g_deliveries]. by rewrite list_lookup_alter_ne.
  - right. destruct Hok as (_ & Hn & _), Hh as (Hp & Hk & Ep). unfold held. cbn [g_deliveries g_deliveryNext].
    assert (g_deliveryNext d <> p).
    { intros En. unfold NODE_DELIVERY_SLOTS in *. rewrite <- En in Ep. clear -Ep Hk Hn.
      destruct (Nat.lt_ge_cases (g_deliveryNext d + S k) 512); [rewrite Nat.mod_small in Ep by lia; lia|].
      replace (g_deliveryNext d + S k)%nat with (g_deliveryNext d + S k - 512 + 1 * 512)%nat in Ep by lia.
      rewrite Nat.Div0.mod_add, Nat.mod_small in Ep by lia. lia. }
    split; [by rewrite list_lookup_insert_ne|]. split; [lia|]. rewrite Ep, Nat.Div0.add_mod_idemp_l. f_equal. lia.
Qed.

Lemma held_take_other d h h' s p k :
  deliveries_ok d -> held d h s p k -> h' <> h -> held (snd (Node_TakeBlockDelivery d h')) h s p k.
Proof.
  intros Hok Hh Hne. unfold Node_TakeBlockDelivery. destruct (find_delivery 0 (g_deliveries d) h') as [i|] eqn:E; [|done].
  pose proof (slot_of_other d h h' s p k i Hok Hh Hne E) as Hi. destruct Hh as (Hp & Hk & Ep).
  split; [|done]. cbn [snd g_deliveries]. by rewrite list_lookup_alter_ne.
Qed.

(** ** Properties *)

(** What the io threads and the sync loop do with the ring. *)
Inductive delivery_op := Note (height : Z) (status : node_delivery_status) | Take (height : Z).

Definition run_op (d : deliveries) (o : delivery_op) : deliveries :=
  match o with
  | Note h s => Node_NoteBlockDelivered d h s
  | Take h => snd (Node_TakeBlockDelivery d h)
  end.

Definition run_ops (ops : list delivery_op) (d : deliveries) : deliveries := fold_left run_op ops d.

(** Receipts for other heights. *)
Definition notes_other (h : Z) (o : delivery_op) : bool := match o with Note h' _ => negb (h' =? h) | Take _ => false end.

(** The last status left for [h], [s] when there is none later. *)
Fixpoint last_status (h : Z) (s : node_delivery_status) (ops : list delivery_op) : node_delivery_status :=
  match ops with
  | [] => s
  | Note h' s' :: r => last_status h (if h' =? h then s' else s) r
  | Take _ :: r => last_status h s r
  end.

Lemma run_op_ok d o : deliveries_ok d -> deliveries_ok (run_op d o).
Proof. destruct o; [apply note_ok|apply take_ok]. Qed.

Lemma held_survives ops d h s p k :
  deliveries_ok d -> held d h s p k -> Take h ∉ ops -> (length (List.filter (notes_other h) ops) <= k)%nat ->
  exists k', held (run_ops ops d) h (last_status h s ops) p k' /\ deliveries_ok (run_ops ops d).
Proof.
  revert d s k; induction ops as [|o ops IH]; intros d s k Hok Hh Hno Hlen; [by exists k|].
  apply not_elem_of_cons in Hno as [Ho Hno]. cbn [run_ops fold_left]. fold (run_ops ops (run_op d o)).
  pose proof (run_op_ok d o Hok) as Hok'. destruct o as [h' t|h']; cbn [List.filter notes_other last_status] in *.
  - destruct (Z.eqb_spec h' h) as [->|Hne]; cbn [negb] in Hlen.
    + apply (IH _ t k); [done|by apply held_note_same with s|done|done].
    + cbn [length] in Hlen. destruct k as [|k]; [lia|].
      destruct (held_note_other d h h' s t p k Hok Hh Hne) as [H|H]; eapply IH; try done; lia.
  - apply (IH _ s k); try done. apply held_take_other; [done|done|]. intros ->. by apply Ho.
Qed.

(** A receipt outlives 511 others.  Once the receipt of a height has been left, it is there, with
    the last status left for that height, until it is taken or 512 receipts for other heights have
    been added: taking it then returns that status, takes it exactly once, and touches no other
    height's receipt.  The sync window (8) and the fork window (128) stay below that. *)
Theorem receipts_survive d h s ops :
  deliveries_ok d -> receipt d h = None -> Take h ∉ ops -> (length (List.filter (notes_other h) ops) < NODE_DELIVERY_SLOTS)%nat ->
  let d' := run_ops ops (Node_NoteBlockDelivered d h s) in
  let '(status, d'') := Node_TakeBlockDelivery d' h in
  status = Some (last_status h s ops) /\ receipt d'' h = None /\ (forall h', h' <> h -> receipt d'' h' = receipt d' h').
Proof.
  intros Hok Hnone Hno Hlen d'. pose proof (note_ok d h s Hok) as Hok1.
  assert (Hheld : held (Node_NoteBlockDelivered d h s) h s (g_deliveryNext d) (NODE_DELIVERY_SLOTS - 1)).
  { unfold receipt, Node_TakeBlockDelivery in Hnone. destruct (find_delivery 0 (g_deliveries d) h) as [i|] eqn:E.
    { apply find_slot in E as (r & Hr & _). cbn [fst] in Hnone. by rewrite Hr in Hnone. }
    unfold Node_NoteBlockDelivered. rewrite E. destruct Hok as (Hl & Hn & _).
    split; [cbn [g_deliveries]; apply list_lookup_insert_eq; lia|]. cbn [g_deliveryNext]. unfold NODE_DELIVERY_SLOTS in *.
    split; [lia|]. rewrite Nat.Div0.add_mod_idemp_l. replace (g_deliveryNext d + 1 + (512 - 1))%nat with (g_deliveryNext d + 1 * 512)%nat by lia.
    rewrite Nat.Div0.mod_add, Nat.mod_small; [done|lia]. }
  destruct (held_survives ops _ h s _ _ Hok1 Hheld Hno ltac:(lia)) as (k' & (Hp & _) & Hok'). fold d' in Hp, Hok'.
  pose proof (take_ok d' h Hok') as Hok''. unfold Node_TakeBlockDelivery in *.
  rewrite (find_slot_iff d' h _ _ Hok' Hp) in * by (by apply holds_spec). cbn [snd] in Hok''.
  split; [by rewrite Hp|]. split.
  - apply eq_None_not_Some. intros [t Er]. apply (receipt_spec _ h t Hok'') in Er as [i Hi]. cbn [g_deliveries] in Hi.
    rewrite list_lookup_alter in Hi. case_decide as Hd; [subst i; rewrite Hp in Hi; done|].
    destruct Hok' as (_ & _ & Hu). apply Hd. by apply (Hu _ _ h _ _ Hp Hi); apply holds_spec.
  - intros h' Hne. apply option_eq. intros t. rewrite !receipt_spec by done. cbn [g_deliveries].
    split; intros [i Hi]; exists i; rewrite list_lookup_alter in *; case_decide as Hd; try done; subst i; rewrite Hp in Hi; [done|].
    by injection Hi as ->.
Qed.

Lemma receipts_survive_witness :
  fst (Node_TakeBlockDelivery (run_ops [Note 8 NODE_DELIVERY_APPENDED; Take 8; Note 7 NODE_DELIVERY_DUPLICATE]
        (Node_NoteBlockDelivered Node_ResetBlockDeliveries 7 NODE_DELIVERY_ORPHANED)) 7) = Some NODE_DELIVERY_DUPLICATE.
Proof.
  pose proof (receipts_survive Node_ResetBlockDeliveries 7 NODE_DELIVERY_ORPHANED
    [Note 8 NODE_DELIVERY_APPENDED; Take 8; Note 7 NODE_DELIVERY_DUPLICATE] reset_deliveries_ok
    ltac:(vm_compute; reflexivity) ltac:(repeat (apply not_elem_of_cons; split; [done|]); apply not_elem_of_nil) ltac:(vm_compute; lia)) as H.
  cbv zeta in H. destruct (Node_TakeBlockDelivery _ 7) as [status d]. destruct H as [H _]. exact H.
Defined.
