(* ===== verification/Peers.v ===== *)
(** * Addresses and connection tables ([src/nets/net_node.c], [src/tcpd/tcpconnection.c], [include/tcpd/tcpclient.h])

    Endpoints, the connections of a node and the scans over its two tables: the 32 outbound slots and
    the server's client array.  Connections are heap objects shared by the tables and the io threads,
    so they live in a store [conns] keyed by their address, and a table holds addresses.  Sockets are of
    the two internet families only.  Ports are kept in host order ([htons] and [ntohs] are mutually
    inverse).  [outbox] is what was written to sockets, oldest first. *)
From S2P Require Import Prelude Bytes Framing.

Definition MAX_CONS : nat := 32.

(** ** Addresses *)

Inductive sockaddr := AF_INET (ip : bytes) (port : Z) | AF_INET6 (ip : bytes) (port : Z).

#[export] Instance sockaddr_eq_dec : EqDecision sockaddr.
Proof. solve_decision. Defined.

Definition sa_port (a : sockaddr) : Z := match a with AF_INET _ p => p | AF_INET6 _ p => p end.

(** [IN6_IS_ADDR_V4MAPPED]. *)
Definition V4MAPPED (ip : bytes) : bool := memeq (take 12 ip) (zeros 10 ++ [255; 255]).

(** An endpoint of this address and port, an IPv4-mapped address as plain IPv4. *)
Definition normalised6 (ip : bytes) (port : Z) : sockaddr :=
  if V4MAPPED ip then AF_INET (drop 12 ip) port else AF_INET6 ip port.

Definition NetNode_EndpointEqual (a b : sockaddr) : bool :=
  match a, b with
  | AF_INET x p, AF_INET y q => (p =? q) && memeq x y
  | AF_INET6 x p, AF_INET6 y q => (p =? q) && memeq x y
  | _, _ => false
  end.

Lemma EndpointEqual_true a b : NetNode_EndpointEqual a b = true <-> a = b.
Proof.
  destruct a, b; cbn; rewrite ?andb_true_iff, ?Z.eqb_eq, ?memeq_true; try done;
    (split; [by intros [-> ->]|by intros [= -> ->]]).
Qed.

Lemma EndpointEqual_false a b : NetNode_EndpointEqual a b = false <-> a <> b.
Proof. rewrite <- not_true_iff_false, EndpointEqual_true. done. Qed.

(** Text addresses: [inet_pton] for the two families, [inet_ntop], as the library documents them. *)
Class AddrText := {
  inet_pton4 : bytes -> option bytes;
  inet_pton6 : bytes -> option bytes;
  inet_ntop4 : bytes -> bytes;
  inet_ntop6 : bytes -> bytes
}.

(** Printing and parsing are inverse, no text is an address of both families, and addresses have
    their size. *)
Class AddrTextLaws (T : AddrText) := {
  pton4_ntop4 ip : bytes_n 4 ip -> inet_pton4 (inet_ntop4 ip) = Some ip;
  pton6_ntop6 ip : bytes_n 16 ip -> inet_pton6 (inet_ntop6 ip) = Some ip;
  pton_disjoint t ip : inet_pton4 t = Some ip -> inet_pton6 t = None;
  pton4_ok t ip : inet_pton4 t = Some ip -> bytes_n 4 ip;
  pton6_ok t ip : inet_pton6 t = Some ip -> bytes_n 16 ip
}.

Definition NetNode_MakeEndpoint `{AddrText} (ip : bytes) (port : Z) : option sockaddr :=
  match inet_pton4 ip with
  | Some a4 => Some (AF_INET a4 port)
  | None =>
      match inet_pton6 ip with
      | Some a6 => Some (normalised6 a6 port)
      | None => None
      end
  end.

(** ** Connections *)

Inductive tcp_connection_role := INBOUND | OUTBOUND.

#[export] Instance role_eq_dec : EqDecision tcp_connection_role.
Proof. solve_decision. Defined.

Record tcp_connection := mkConn {
  peerAddr : sockaddr;
  role : tcp_connection_role;
  peerListenPort : Z;
  peerNodeId : Z;
  closing : bool;
  disconnectedNotified : bool;
  pinCount : Z;
  stream : tcp_stream
}.

Definition TcpConnection_Init (peer : sockaddr) (r : tcp_connection_role) : tcp_connection :=
  mkConn peer r 0 0 false false 0 stream_init.

(** The listen endpoint of the peer, when its port is known. *)
Definition Node_ConnListenEndpoint (c : tcp_connection) : option sockaddr :=
  let listenP := match role c with OUTBOUND => sa_port (peerAddr c) | INBOUND => peerListenPort c end in
  if listenP =? 0 then None
  else match peerAddr c with
  | AF_INET ip _ => Some (AF_INET ip listenP)
  | AF_INET6 ip _ => Some (normalised6 ip listenP)
  end.

Definition extract_v4 (c : tcp_connection) : option bytes :=
  match peerAddr c with
  | AF_INET6 ip _ => if V4MAPPED ip then Some (drop 12 ip) else None
  | AF_INET ip _ => Some ip
  end.

Definition TcpConnection_PeerAddrEqual (a b : tcp_connection) : bool :=
  match extract_v4 a, extract_v4 b with
  | Some va, Some vb => memeq va vb
  | None, None =>
      match peerAddr a, peerAddr b with
      | AF_INET6 x _, AF_INET6 y _ => memeq x y
      | _, _ => false
      end
  | _, _ => false
  end.

Definition TcpConnection_GetPeerAddrStr `{AddrText} (c : tcp_connection) : bytes :=
  match peerAddr c with
  | AF_INET6 ip _ => if V4MAPPED ip then inet_ntop4 (drop 12 ip) else inet_ntop6 ip
  | AF_INET ip _ => inet_ntop4 ip
  end.

Definition TcpConnection_RequestClose (c : tcp_connection) : tcp_connection :=
  mkConn (peerAddr c) (role c) (peerListenPort c) (peerNodeId c) true (disconnectedNotified c) (pinCount c) (stream c).
Definition TcpConnection_MarkDisconnectNotified (c : tcp_connection) : tcp_connection :=
  mkConn (peerAddr c) (role c) (peerListenPort c) (peerNodeId c) (closing c) true (pinCount c) (stream c).
Definition TcpConnection_Pin (c : tcp_connection) : tcp_connection :=
  mkConn (peerAddr c) (role c) (peerListenPort c) (peerNodeId c) (closing c) (disconnectedNotified c) (pinCount c + 1) (stream c).
Definition TcpConnection_Unpin (c : tcp_connection) : tcp_connection :=
  mkConn (peerAddr c) (role c) (peerListenPort c) (peerNodeId c) (closing c) (disconnectedNotified c) (pinCount c - 1) (stream c).

(** ** The node's tables *)

Abbreviation ptr := nat.

Record tcp_client := mkClient { connection : option ptr; peerBlockHeight : Z }.

Definition TcpClient_Init : tcp_client := mkClient None 0.

Record net_node := mkNet {
  conns : gmap ptr tcp_connection;
  outboundClients : list tcp_client;
  outboundCount : Z;
  clientsArr : list (option ptr);
  seenBlocks : gset bytes;
  outbox : list (ptr * bytes)
}.

(** The live part of [Node_Create]: empty tables of [MAX_CONS] entries each. *)
Definition net_init : net_node := mkNet ∅ (replicate MAX_CONS TcpClient_Init) 0 (replicate MAX_CONS None) ∅ [].

Definition with_conns (n : net_node) (h : gmap ptr tcp_connection) : net_node :=
  mkNet h (outboundClients n) (outboundCount n) (clientsArr n) (seenBlocks n) (outbox n).
Definition with_outbound (n : net_node) (l : list tcp_client) : net_node :=
  mkNet (conns n) l (outboundCount n) (clientsArr n) (seenBlocks n) (outbox n).

(** A write through a connection's address. *)
Definition on_conn (f : tcp_connection -> tcp_connection) (p : ptr) (n : net_node) : net_node :=
  with_conns n (alter f p (conns n)).

Definition deref (n : net_node) (p : ptr) : option (ptr * tcp_connection) := c ← conns n !! p; Some (p, c).

(** The occupied slots in table order. *)
Definition outbound_conns (n : net_node) : list (ptr * tcp_connection) :=
  omap (fun s => p ← connection s; deref n p) (outboundClients n).
Definition inbound_conns (n : net_node) : list (ptr * tcp_connection) :=
  omap (fun s => p ← s; deref n p) (clientsArr n).

(** ** Scans *)

(** [Node_ConnListenEndpoint(c, &ep) && NetNode_EndpointEqual(&ep, endpoint)]. *)
Definition listens_at (endpoint : sockaddr) (c : tcp_connection) : bool :=
  match Node_ConnListenEndpoint c with Some ep => NetNode_EndpointEqual ep endpoint | None => false end.

Definition Node_HasOutboundTo (n : net_node) (endpoint : sockaddr) : bool :=
  existsb (fun pc => listens_at endpoint pc.2) (outbound_conns n).

(** Not [self], not tearing down. *)
Definition other_live (self : ptr) (pc : ptr * tcp_connection) : bool :=
  negb (pc.1 =? self)%nat && negb (disconnectedNotified pc.2).

Definition Node_HasOtherInboundFrom (n : net_node) (self : ptr) (endpoint : sockaddr) : bool :=
  existsb (fun pc => other_live self pc && listens_at endpoint pc.2) (inbound_conns n).

Definition Node_HasOtherConnectionToNode (n : net_node) (self : ptr) (selfRole : tcp_connection_role) (nodeId : Z) : bool :=
  if nodeId =? 0 then false
  else
    let same pc := other_live self pc && bool_decide (role pc.2 = selfRole) && (peerNodeId pc.2 =? nodeId) in
    existsb same (outbound_conns n) || existsb same (inbound_conns n).

Definition Node_HasLiveConnectionTo (n : net_node) (endpoint : sockaddr) (nodeId : Z) (exclude : ptr) : bool :=
  let reaches pc :=
    other_live exclude pc && ((negb (nodeId =? 0) && (peerNodeId pc.2 =? nodeId)) || listens_at endpoint pc.2) in
  existsb reaches (outbound_conns n) || existsb reaches (inbound_conns n).

(** One of the two loops of [Node_GetPeerEndpoints]: endpoints with their identities, none twice. *)
Fixpoint endpoints_loop (l : list (ptr * tcp_connection)) (maxOut : nat) (out : list (sockaddr * Z)) : list (sockaddr * Z) :=
  match l with
  | [] => out
  | (_, c) :: r =>
      if (maxOut <=? length out)%nat then out
      else if disconnectedNotified c then endpoints_loop r maxOut out
      else match Node_ConnListenEndpoint c with
      | None => endpoints_loop r maxOut out
      | Some ep =>
          if existsb (fun e => NetNode_EndpointEqual e.1 ep) out then endpoints_loop r maxOut out
          else endpoints_loop r maxOut (out ++ [(ep, peerNodeId c)])
      end
  end.

Definition Node_GetPeerEndpoints (n : net_node) (maxOut : nat) : list (sockaddr * Z) :=
  endpoints_loop (inbound_conns n) maxOut (endpoints_loop (outbound_conns n) maxOut []).

Definition Node_GetClientList (n : net_node) : list (ptr * tcp_connection) :=
  List.filter (fun pc => negb (disconnectedNotified pc.2)) (outbound_conns n).

(** The scan of [Node_GetBestOutboundPeer] over the slots. *)
Fixpoint best_loop (n : net_node) (slots : list tcp_client) (best : option ptr) (bestH : Z) : option ptr * Z :=
  match slots with
  | [] => (best, bestH)
  | s :: r =>
      match p ← connection s; deref n p with
      | None => best_loop n r best bestH
      | Some (p, c) =>
          if disconnectedNotified c then best_loop n r best bestH
          else if bool_decide (best = None) || (bestH <? peerBlockHeight s) then best_loop n r (Some p) (peerBlockHeight s)
          else best_loop n r best bestH
      end
  end.

(** The best live outbound peer and its height; it is pinned for the caller. *)
Definition Node_GetBestOutboundPeer (n : net_node) : option (ptr * Z) * net_node :=
  match best_loop n (outboundClients n) None 0 with
  | (None, _) => (None, n)
  | (Some p, h) => (Some (p, h), on_conn TcpConnection_Pin p n)
  end.

(** ** Relay targets: one loop of the target collection in [Node_BroadcastChainRange] *)

(** [NODE_RELAY_SHOULD_SKIP]. *)
Definition relay_should_skip (source : option (ptr * tcp_connection)) (pc : ptr * tcp_connection) : bool :=
  match source with
  | None => false
  | Some (sp, sc) =>
      (pc.1 =? sp)%nat ||
      (negb (peerNodeId sc =? 0) && (peerNodeId pc.2 =? peerNodeId sc)) ||
      ((peerNodeId sc =? 0) && TcpConnection_PeerAddrEqual pc.2 sc)
  end.

Fixpoint targets_loop (source : option (ptr * tcp_connection)) (l out : list (ptr * tcp_connection)) : list (ptr * tcp_connection) :=
  match l with
  | [] => out
  | (p, c) :: r =>
      if (MAX_CONS * 2 <=? length out)%nat then out
      else if disconnectedNotified c then targets_loop source r out
      else if relay_should_skip source (p, c) then targets_loop source r out
      else if existsb (fun t => negb (peerNodeId c =? 0) && (peerNodeId t.2 =? peerNodeId c)) out then targets_loop source r out
      else targets_loop source r (out ++ [(p, c)])
  end.

Definition relay_targets (n : net_node) (source : option (ptr * tcp_connection)) : list (ptr * tcp_connection) :=
  targets_loop source (inbound_conns n) (targets_loop source (outbound_conns n) []).

(** ** Updates *)

(** The loop [if (outboundClients[i].connection == client) { ...; break; }]. *)
Fixpoint update_slot (p : ptr) (f : tcp_client -> tcp_client) (slots : list tcp_client) : list tcp_client :=
  match slots with
  | [] => []
  | s :: r => if bool_decide (connection s = Some p) then f s :: r else s :: update_slot p f r
  end.

(** [peerBlockHeight = h]. *)
Definition record_height (p : ptr) (h : Z) (n : net_node) : net_node :=
  with_outbound n (update_slot p (fun s => mkClient (connection s) h) (outboundClients n)).

(** [if (peerBlockHeight < h) peerBlockHeight = h]. *)
Definition raise_height (p : ptr) (h : Z) (n : net_node) : net_node :=
  with_outbound n (update_slot p (fun s => if peerBlockHeight s <? h then mkClient (connection s) h else s) (outboundClients n)).

(** A slot the reaper may empty: its peer has gone and nobody holds the pointer. *)
Definition reapable (n : net_node) (s : tcp_client) : bool :=
  match p ← connection s; conns n !! p with
  | None => false
  | Some c => disconnectedNotified c && (pinCount c =? 0)
  end.

(** Detach, then free. *)
Definition Node_ReapDeadOutbound (n : net_node) : net_node :=
  let dead := omap (fun s => if reapable n s then connection s else None) (outboundClients n) in
  with_conns (with_outbound n (map (fun s => if reapable n s then TcpClient_Init else s) (outboundClients n)))
    (foldr delete (conns n) dead).

(** ** Opening and closing connections *)

Fixpoint first_index {A} (P : A -> bool) (i : nat) (l : list A) : option nat :=
  match l with
  | [] => None
  | x :: r => if P x then Some i else first_index P (S i) r
  end.

(** The accept loop of [TcpServer_threadprocess] for one client: the first free slot, or the connection
    is dropped.  [p] is the address of the new connection. *)
Definition TcpServer_accept (n : net_node) (p : ptr) (clientAddr : sockaddr) : option net_node :=
  match first_index (fun s : option ptr => bool_decide (s = None)) 0 (clientsArr n) with
  | None => None
  | Some insertIdx =>
      Some (mkNet (<[p := TcpConnection_Init clientAddr INBOUND]> (conns n)) (outboundClients n) (outboundCount n)
              (<[insertIdx := Some p]> (clientsArr n)) (seenBlocks n) (outbox n))
  end.

(** The end of an inbound client thread: leave the array and free the connection. *)
Definition TcpServer_RemoveClientByPtrUnlocked (n : net_node) (p : ptr) : net_node :=
  let arr := match first_index (fun s : option ptr => bool_decide (s = Some p)) 0 (clientsArr n) with
             | Some idx => <[idx := None]> (clientsArr n)
             | None => clientsArr n
             end in
  mkNet (delete p (conns n)) (outboundClients n) (outboundCount n) arr (seenBlocks n) (outbox n).

(** [dialled] is the address of the connection object when socket and [connect] succeed. *)
Definition TcpClient_Connect `{AddrText} (n : net_node) (slot : nat) (peerIp : bytes) (peerPort : Z) (dialled : option ptr)
  : Z * net_node :=
  match outboundClients n !! slot with
  | Some (mkClient None h) =>
      let addr := match inet_pton6 peerIp with
                  | Some ip => Some (AF_INET6 ip peerPort)
                  | None => match inet_pton4 peerIp with Some ip => Some (AF_INET ip peerPort) | None => None end
                  end in
      match addr, dialled with
      | Some a, Some p =>
          (0, mkNet (<[p := TcpConnection_Init a OUTBOUND]> (conns n)) (<[slot := mkClient (Some p) h]> (outboundClients n))
                (outboundCount n) (clientsArr n) (seenBlocks n) (outbox n))
      | _, _ => (-1, n)
      end
  | _ => (-1, n)
  end.

(** ** Sending *)

Section Sending.
(** Whether the socket of a connection takes a whole frame. *)
Context (sock : ptr -> bytes -> bool).

Definition PacketType_IsValid (t : Z) : bool := (0 <? t) && (t <? 12).

(** 0 and the frame in the outbox, or -1. *)
Definition Node_SendPacket (n : net_node) (p : ptr) (packetType : Z) (payload : bytes) : Z * net_node :=
  if negb (PacketType_IsValid (u8 packetType)) then (-1, n)
  else
    let framed := packetType :: payload in
    if TCP_MAX_FRAME_PAYLOAD <? Z.of_nat (length framed) then (-1, n)
    else if sock p framed
    then (0, mkNet (conns n) (outboundClients n) (outboundCount n) (clientsArr n) (seenBlocks n) (outbox n ++ [(p, framed)]))
    else (-1, n).

(** The send loop of a relay: the number of deliveries. *)
Fixpoint send_all (n : net_node) (targets : list ptr) (packetType : Z) (payload : bytes) : nat * net_node :=
  match targets with
  | [] => (0%nat, n)
  | p :: r =>
      let '(rc, n) := Node_SendPacket n p packetType payload in
      let '(delivered, n) := send_all n r packetType payload in
      ((if rc =? 0 then S delivered else delivered), n)
  end.
End Sending.

(** ** Well-formed tables *)

Definition outbound_ptrs (n : net_node) : list ptr := omap connection (outboundClients n).
Definition inbound_ptrs (n : net_node) : list ptr := omap id (clientsArr n).
Definition all_conns (n : net_node) : list (ptr * tcp_connection) := outbound_conns n ++ inbound_conns n.

(** The tables have their sizes, no connection is in two slots, every address in a table is that of a
    connection of the right role, and every connection is in a table. *)
Definition net_ok (n : net_node) : Prop :=
  length (outboundClients n) = MAX_CONS /\ length (clientsArr n) = MAX_CONS /\
  NoDup (outbound_ptrs n ++ inbound_ptrs n) /\
  (forall p, p ∈ outbound_ptrs n -> exists c, conns n !! p = Some c /\ role c = OUTBOUND) /\
  (forall p, p ∈ inbound_ptrs n -> exists c, conns n !! p = Some c /\ role c = INBOUND) /\
  (forall p, is_Some (conns n !! p) -> p ∈ outbound_ptrs n ++ inbound_ptrs n).

(** The scan lists are the pointers of the tables with what they point to. *)
Lemma omap_cons {A B} (f : A -> option B) x (l : list A) :
  omap f (x :: l) = match f x with Some y => y :: omap f l | None => omap f l end.
Proof. reflexivity. Qed.

Lemma omap_bind {A B C} (f : A -> option B) (g : B -> option C) (l : list A) : omap (fun x => y ← f x; g y) l = omap g (omap f l).
Proof.
  induction l as [|x l IH]; [done|]. rewrite !omap_cons, IH. destruct (f x) as [y|]; [|done]. by rewrite omap_cons.
Qed.

Lemma outbound_conns_alt n : outbound_conns n = omap (deref n) (outbound_ptrs n).
Proof. apply omap_bind. Qed.

Lemma inbound_conns_alt n : inbound_conns n = omap (deref n) (inbound_ptrs n).
Proof. apply (omap_bind id). Qed.

Lemma elem_of_deref n (ps : list ptr) p c : (p, c) ∈ omap (deref n) ps <-> p ∈ ps /\ conns n !! p = Some c.
Proof.
  rewrite list_elem_of_omap. unfold deref. split.
  - intros (q & Hq & E). destruct (conns n !! q) eqn:Ec; [|done]. by injection E as -> ->.
  - intros [Hp E]. exists p. split; [done|]. by rewrite E.
Qed.

Lemma all_conns_alt n : all_conns n = omap (deref n) (outbound_ptrs n ++ inbound_ptrs n).
Proof. unfold all_conns. rewrite outbound_conns_alt, inbound_conns_alt. symmetry. apply omap_app. Qed.

Lemma map_fst_deref n (ps : list ptr) : map fst (omap (deref n) ps) `sublist_of` ps.
Proof.
  induction ps as [|p ps IH]; [done|]. rewrite omap_cons. unfold deref at 1.
  destruct (conns n !! p); cbn [mbind option_bind]; [by apply sublist_skip|by apply sublist_cons].
Qed.

Lemma all_conns_NoDup n : net_ok n -> NoDup (map fst (all_conns n)).
Proof. intros (_ & _ & Hnd & _). rewrite all_conns_alt. eapply sublist_NoDup; [exact Hnd|apply map_fst_deref]. Qed.

Lemma length_omap_le {A B} (f : A -> option B) (l : list A) : (length (omap f l) <= length l)%nat.
Proof. induction l as [|x l IH]; [done|]. rewrite omap_cons. destruct (f x); cbn [length]; lia. Qed.

Lemma all_conns_length n : net_ok n -> (length (all_conns n) <= MAX_CONS * 2)%nat.
Proof.
  intros (H1 & H2 & _). unfold all_conns, outbound_conns, inbound_conns. rewrite length_app.
  pose proof (length_omap_le (fun s => p ← connection s; deref n p) (outboundClients n)).
  pose proof (length_omap_le (fun s : option ptr => p ← s; deref n p) (clientsArr n)). lia.
Qed.

(** ** The relay loop *)

Lemma targets_loop_full source l out : (MAX_CONS * 2 <= length out)%nat -> targets_loop source l out = out.
Proof. intros H. destruct l as [|[p c] r]; [done|]. cbn [targets_loop]. by rewrite (proj2 (Nat.leb_le _ _) H). Qed.

Lemma targets_loop_app source l k out : targets_loop source (l ++ k) out = targets_loop source k (targets_loop source l out).
Proof.
  revert out; induction l as [|[p c] r IH]; intros out; [done|]. cbn [app targets_loop].
  destruct (Nat.leb_spec (MAX_CONS * 2) (length out)); [by rewrite targets_loop_full|].
  destruct (disconnectedNotified c); [apply IH|]. destruct (relay_should_skip source (p, c)); [apply IH|].
  destruct (existsb _ out); apply IH.
Qed.

(** Two connections of one known node. *)
Definition same_node (a b : ptr * tcp_connection) : Prop := peerNodeId a.2 <> 0 /\ peerNodeId a.2 = peerNodeId b.2.

Lemma ordpairs_snoc {A} (R : A -> A -> Prop) l x : ForallOrdPairs R l -> Forall (fun y => R y x) l -> ForallOrdPairs R (l ++ [x]).
Proof.
  induction 1 as [|y l Hy _ IH]; intros Hx; cbn [app]; [by repeat constructor|]. apply Forall_cons_iff in Hx as [H1 H2].
  constructor; [apply Forall_app; split; [done|by repeat constructor]|by apply IH].
Qed.

Definition relayable (source : option (ptr * tcp_connection)) (pc : ptr * tcp_connection) : Prop :=
  disconnectedNotified pc.2 = false /\ relay_should_skip source pc = false.

(** What the loop leaves: a selection of the old targets and the relayable connections, one per known
    node, covering them all. *)
Lemma targets_loop_spec source l out :
  (length out + length l <= MAX_CONS * 2)%nat -> ForallOrdPairs (fun a b => ~ same_node a b) out ->
  let T := targets_loop source l out in
  T `sublist_of` out ++ l /\ (forall t, t ∈ T -> t ∈ out \/ relayable source t) /\
  ForallOrdPairs (fun a b => ~ same_node a b) T /\ (forall t, t ∈ out -> t ∈ T) /\
  (forall t, t ∈ l -> relayable source t -> exists u, u ∈ T /\ (u = t \/ same_node t u)).
Proof.
  revert out; induction l as [|[p c] r IH]; intros out Hlen Hd; cbn [targets_loop].
  { rewrite app_nil_r. split; [done|]. split; [by left|]. split; [done|]. split; [done|]. intros t Ht. by apply not_elem_of_nil in Ht. }
  cbn [length] in Hlen. rewrite (proj2 (Nat.leb_gt _ _)) by lia.
  assert (Hskip : (relayable source (p, c) -> exists u, u ∈ out /\ same_node (p, c) u) ->
    let T := targets_loop source r out in T `sublist_of` out ++ (p, c) :: r /\ (forall t, t ∈ T -> t ∈ out \/ relayable source t) /\
      ForallOrdPairs (fun a b => ~ same_node a b) T /\ (forall t, t ∈ out -> t ∈ T) /\
      (forall t, t ∈ (p, c) :: r -> relayable source t -> exists u, u ∈ T /\ (u = t \/ same_node t u))).
  { intros Hcov. destruct (IH out ltac:(lia) Hd) as (H1 & H2 & H3 & H4 & H5). split; [|split; [done|split; [done|split; [done|]]]].
    - etrans; [exact H1|]. apply sublist_app; [done|]. by apply sublist_cons.
    - intros t Ht Hr. apply elem_of_cons in Ht as [->|Ht]; [|by apply H5]. destruct (Hcov Hr) as (u & Hu & Hs). exists u. split; [by apply H4|by right]. }
  destruct (disconnectedNotified c) eqn:Ed; [apply Hskip; intros [E _]; cbn in E; congruence|].
  destruct (relay_should_skip source (p, c)) eqn:Es; [apply Hskip; intros [_ E]; congruence|].
  destruct (existsb _ out) eqn:Ex.
  { apply Hskip. intros _. apply existsb_exists in Ex as (u & Hu & E). apply andb_true_iff in E as [E1 E2]. exists u.
    split; [by apply list_elem_of_In|]. split; cbn [snd]; [by apply negb_true_iff, Z.eqb_neq in E1|by apply Z.eqb_eq in E2]. }
  destruct (IH (out ++ [(p, c)])) as (H1 & H2 & H3 & H4 & H5).
  - rewrite length_app. cbn [length]. lia.
  - apply ordpairs_snoc; [done|]. apply List.Forall_forall. intros u Hu [E1 E2].
    assert (existsb (fun t => negb (peerNodeId c =? 0) && (peerNodeId t.2 =? peerNodeId c)) out = true); [|congruence].
    apply existsb_exists. exists u. split; [done|]. cbn [snd] in E2. apply andb_true_iff. rewrite negb_true_iff, Z.eqb_neq, Z.eqb_eq. lia.
  - split; [by rewrite <- app_assoc in H1|]. split; [|split; [done|split]].
    + intros t Ht. apply H2 in Ht as [Ht|Ht]; [|by right]. apply elem_of_app in Ht as [Ht|Ht]; [by left|].
      apply list_elem_of_singleton in Ht as ->. by right.
    + intros t Ht. apply H4. apply elem_of_app. by left.
    + intros t Ht Hr. apply elem_of_cons in Ht as [->|Ht]; [|by apply H5]. exists (p, c). split; [|by left]. apply H4, elem_of_app. right. by apply list_elem_of_singleton.
Qed.

Lemma relay_targets_spec n source :
  net_ok n ->
  let T := relay_targets n source in
  NoDup (map fst T) /\ Forall (fun t => t ∈ all_conns n /\ relayable source t) T /\
  ForallOrdPairs (fun a b => ~ same_node a b) T /\
  (forall t, t ∈ all_conns n -> relayable source t -> exists u, u ∈ T /\ (u = t \/ same_node t u)).
Proof.
  intros Hok. unfold relay_targets. rewrite <- targets_loop_app. fold (all_conns n).
  destruct (targets_loop_spec source (all_conns n) []) as (H1 & H2 & H3 & _ & H5);
    [by apply all_conns_length|constructor|]. cbn [app] in H1.
  split; [eapply sublist_NoDup; [by apply all_conns_NoDup|by apply (fmap_sublist fst)]|]. split; [|done].
  apply List.Forall_forall. intros t Ht%list_elem_of_In. split; [|by apply H2 in Ht as [Ht%not_elem_of_nil|Ht]].
  by eapply sublist_elem_of.
Qed.

(** ** The invariant under updates *)

Create HintDb net.

Lemma net_init_ok : net_ok net_init.
Proof.
  assert (E : outbound_ptrs net_init = [] /\ inbound_ptrs net_init = []) by (by split; vm_compute). destruct E as [E1 E2].
  split; [apply length_replicate|]. split; [apply length_replicate|]. rewrite E1, E2. split; [constructor|].
  split; [|split]; intros p Hp; [by apply not_elem_of_nil in Hp..|]. cbn in Hp. rewrite lookup_empty in Hp. by destruct Hp.
Qed.

(** A state with the same pointers in its tables and heap, and the same roles. *)
Lemma net_ok_same n m :
  net_ok n -> length (outboundClients m) = length (outboundClients n) -> length (clientsArr m) = length (clientsArr n) ->
  outbound_ptrs m = outbound_ptrs n -> inbound_ptrs m = inbound_ptrs n ->
  (forall p, role <$> conns m !! p = role <$> conns n !! p) -> net_ok m.
Proof.
  intros (H1 & H2 & H3 & H4 & H5 & H6) E1 E2 Eo Ei Er. unfold net_ok. rewrite E1, E2, Eo, Ei.
  assert (Hrole : forall p r, (exists c, conns n !! p = Some c /\ role c = r) -> exists c, conns m !! p = Some c /\ role c = r).
  { intros p r (c & Hc & <-). specialize (Er p). rewrite Hc in Er. destruct (conns m !! p) as [d|]; [|done].
    exists d. split; [done|]. by injection Er. }
  split; [done|]. split; [done|]. split; [done|]. split; [auto|]. split; [auto|]. intros p [d Hd]. apply H6.
  specialize (Er p). rewrite Hd in Er. destruct (conns n !! p); [by eexists|done].
Qed.

Lemma on_conn_ok f p n : (forall c, role (f c) = role c) -> net_ok n -> net_ok (on_conn f p n).
Proof.
  intros Hf Hok. apply (net_ok_same n); try done. intros q. cbn [on_conn with_conns conns].
  destruct (decide (p = q)) as [<-|Hne]; [|by rewrite lookup_alter_ne]. rewrite lookup_alter_eq.
  destruct (conns n !! p); cbn; by rewrite ?Hf.
Qed.

Lemma update_slot_connection p f l : (forall s, connection (f s) = connection s) -> map connection (update_slot p f l) = map connection l.
Proof.
  intros Hf. induction l as [|s r IH]; cbn [update_slot]; [done|]. case_bool_decide; cbn [map]; [by rewrite Hf|by rewrite IH].
Qed.

Lemma with_outbound_ok n l : map connection l = map connection (outboundClients n) -> net_ok n -> net_ok (with_outbound n l).
Proof.
  intros E Hok. assert (Eo : forall k, omap connection k = omap id (map connection k))
    by (induction k as [|s k IH]; [done|]; cbn [map]; rewrite !omap_cons, IH; done).
  apply (net_ok_same n); try done.
  - cbn [with_outbound outboundClients]. by rewrite <- (length_map connection), E, length_map.
  - unfold outbound_ptrs. cbn [with_outbound outboundClients]. by rewrite !Eo, E.
Qed.

Lemma record_height_ok p h n : net_ok n -> net_ok (record_height p h n).
Proof. apply with_outbound_ok, update_slot_connection. done. Qed.

Lemma raise_height_ok p h n : net_ok n -> net_ok (raise_height p h n).
Proof. apply with_outbound_ok, update_slot_connection. intros s. by destruct (_ <? _). Qed.

Lemma SendPacket_ok sock n p t payload : net_ok n -> net_ok (snd (Node_SendPacket sock n p t payload)).
Proof.
  intros Hok. unfold Node_SendPacket. destruct (negb _); [done|]. destruct (_ <? _); [done|]. destruct (sock p _); [|done]. by apply (net_ok_same n).
Qed.

Lemma send_all_ok sock n ps t payload : net_ok n -> net_ok (snd (send_all sock n ps t payload)).
Proof.
  revert n; induction ps as [|p r IH]; intros n Hok; [done|]. cbn [send_all].
  pose proof (SendPacket_ok sock n p t payload Hok) as H1. destruct (Node_SendPacket sock n p t payload) as [rc m]. cbn [snd] in H1.
  specialize (IH m H1). by destruct (send_all sock m r t payload).
Qed.

Lemma best_peer_ok n : net_ok n -> net_ok (snd (Node_GetBestOutboundPeer n)).
Proof. intros Hok. unfold Node_GetBestOutboundPeer. destruct (best_loop _ _ _ _) as [[p|] h]; [by apply on_conn_ok|done]. Qed.
#[export] Hint Resolve net_init_ok record_height_ok raise_height_ok SendPacket_ok send_all_ok best_peer_ok : net.

(** ** Opening and closing keep the tables *)

Lemma first_index_Some {A} (P : A -> bool) i l k :
  first_index P i l = Some k -> exists j x, k = (i + j)%nat /\ l !! j = Some x /\ P x = true.
Proof.
  revert i; induction l as [|x r IH]; intros i E; cbn [first_index] in E; [done|]. destruct (P x) eqn:Ex.
  - injection E as <-. exists 0%nat, x. split; [lia|done].
  - destruct (IH (S i) E) as (j & y & -> & Hj & Hy). exists (S j), y. split; [lia|done].
Qed.

Lemma first_index_None {A} (P : A -> bool) i l x : first_index P i l = None -> x ∈ l -> P x = false.
Proof.
  revert i; induction l as [|y r IH]; intros i E Hx; [by apply not_elem_of_nil in Hx|]. cbn [first_index] in E.
  destruct (P y) eqn:Ey; [done|]. apply elem_of_cons in Hx as [->|Hx]; [done|by apply (IH (S i))].
Qed.

(** Filling a free slot adds one pointer; emptying one removes it. *)
Lemma omap_fill {A B} (f : A -> option B) (l : list A) i x y b :
  l !! i = Some x -> f x = None -> f y = Some b -> omap f (<[i := y]> l) ≡ₚ b :: omap f l.
Proof.
  intros Hi Hx Hy. revert i Hi; induction l as [|z l IH]; intros [|i] Hi; [done|done| |].
  - injection Hi as ->. change (<[0%nat := y]> (x :: l)) with (y :: l). rewrite !omap_cons, Hx, Hy. done.
  - change (<[S i := y]> (z :: l)) with (z :: <[i := y]> l). rewrite !omap_cons. destruct (f z); [|by apply IH].
    rewrite (IH i Hi). apply Permutation_swap.
Qed.

Lemma omap_clear {A B} (f : A -> option B) (l : list A) i x y b :
  l !! i = Some x -> f x = Some b -> f y = None -> omap f l ≡ₚ b :: omap f (<[i := y]> l).
Proof.
  intros Hi Hx Hy. assert (E : <[i := x]> (<[i := y]> l) = l) by (rewrite list_insert_insert_eq; by apply list_insert_id).
  trans (omap f (<[i := x]> (<[i := y]> l))); [by rewrite E|].
  apply (omap_fill f _ i y); [|done|done]. apply list_lookup_insert_eq. by eapply lookup_lt_Some.
Qed.

(** A new connection in a free slot of the table of its role. *)
Lemma net_ok_add n m p c :
  net_ok n -> conns n !! p = None -> length (outboundClients m) = MAX_CONS -> length (clientsArr m) = MAX_CONS ->
  conns m = <[p := c]> (conns n) ->
  outbound_ptrs m ≡ₚ (if decide (role c = OUTBOUND) then p :: outbound_ptrs n else outbound_ptrs n) ->
  inbound_ptrs m ≡ₚ (if decide (role c = OUTBOUND) then inbound_ptrs n else p :: inbound_ptrs n) -> net_ok m.
Proof.
  intros (H1 & H2 & H3 & H4 & H5 & H6) Hp L1 L2 Ec Eo Ei.
  assert (Hnew : p ∉ outbound_ptrs n ++ inbound_ptrs n).
  { intros Hin. apply elem_of_app in Hin as [Hin|Hin]; [destruct (H4 _ Hin) as (d & Hd & _)|destruct (H5 _ Hin) as (d & Hd & _)]; congruence. }
  assert (Eall : outbound_ptrs m ++ inbound_ptrs m ≡ₚ p :: outbound_ptrs n ++ inbound_ptrs n).
  { rewrite Eo, Ei. case_decide; [done|]. by rewrite <- Permutation_middle. }
  assert (Hold : forall q r, (exists d, conns n !! q = Some d /\ role d = r) -> exists d, conns m !! q = Some d /\ role d = r).
  { intros q r (d & Hd & Hr). exists d. rewrite Ec, lookup_insert_ne by congruence. done. }
  assert (Hthis : exists d, conns m !! p = Some d /\ role d = role c) by (exists c; rewrite Ec; by rewrite lookup_insert_eq).
  split; [done|]. split; [done|]. split; [rewrite Eall; by constructor|]. split; [|split].
  - intros q Hq. rewrite Eo in Hq. case_decide as Er; [|by apply Hold, H4].
    apply elem_of_cons in Hq as [->|Hq]; [by rewrite <- Er|by apply Hold, H4].
  - intros q Hq. rewrite Ei in Hq. case_decide as Er; [by apply Hold, H5|].
    apply elem_of_cons in Hq as [->|Hq]; [|by apply Hold, H5]. destruct Hthis as (d & Hd & Er'). exists d. split; [done|]. rewrite Er'. by destruct (role c).
  - intros q Hq. rewrite Eall, elem_of_cons. destruct (decide (q = p)) as [|Hne]; [by left|right].
    rewrite Ec, lookup_insert_ne in Hq by done. by apply H6.
Qed.

Lemma accept_ok n m p addr : net_ok n -> conns n !! p = None -> TcpServer_accept n p addr = Some m -> net_ok m.
Proof.
  intros Hok Hp. unfold TcpServer_accept. destruct (first_index _ 0 (clientsArr n)) as [k|] eqn:E; [|done].
  intros Em. apply (inj Some) in Em. subst m. pose proof Hok as (H1 & H2 & _).
  apply first_index_Some in E as (j & x & -> & Hj & Hx). apply bool_decide_eq_true in Hx. subst x.
  apply (net_ok_add n _ p (TcpConnection_Init addr INBOUND)); try done.
  - cbn [clientsArr]. by rewrite length_insert.
  - by apply (omap_fill id (clientsArr n) j None (Some p) p Hj).
Qed.

Lemma connect_ok `{AddrText} n slot ip port dialled :
  net_ok n -> (forall p, dialled = Some p -> conns n !! p = None) -> net_ok (snd (TcpClient_Connect n slot ip port dialled)).
Proof.
  intros Hok Hp. pose proof Hok as (H1 & H2 & _). unfold TcpClient_Connect.
  destruct (outboundClients n !! slot) as [[[q|] h]|] eqn:Es; [done| |done].
  destruct (match inet_pton6 ip with Some _ => _ | None => _ end) as [a|]; [|done].
  destruct dialled as [p|]; [|done]. specialize (Hp p eq_refl). cbn [snd].
  apply (net_ok_add n _ p (TcpConnection_Init a OUTBOUND)); try done.
  - cbn [outboundClients]. by rewrite length_insert.
  - by apply (omap_fill connection (outboundClients n) slot (mkClient None h) (mkClient (Some p) h) p Es).
Qed.

(** Connections leave the heap together with their slots. *)
Lemma net_ok_remove n m (dead : list ptr) :
  net_ok n -> length (outboundClients m) = MAX_CONS -> length (clientsArr m) = MAX_CONS ->
  (forall p, conns m !! p = if decide (p ∈ dead) then None else conns n !! p) ->
  (forall p, p ∈ outbound_ptrs m <-> p ∈ outbound_ptrs n /\ p ∉ dead) ->
  (forall p, p ∈ inbound_ptrs m <-> p ∈ inbound_ptrs n /\ p ∉ dead) ->
  NoDup (outbound_ptrs m ++ inbound_ptrs m) -> net_ok m.
Proof.
  intros (H1 & H2 & H3 & H4 & H5 & H6) L1 L2 Ec Eo Ei Hnd. split; [done|]. split; [done|]. split; [done|].
  split; [|split]; intros p Hp; rewrite ?Ec in *.
  - apply Eo in Hp as [Hp Hd]. rewrite decide_False by done. by apply H4.
  - apply Ei in Hp as [Hp Hd]. rewrite decide_False by done. by apply H5.
  - destruct (decide (p ∈ dead)) as [|Hd]; [by destruct Hp|]. rewrite elem_of_app, Eo, Ei. apply H6, elem_of_app in Hp as [?|?]; auto.
Qed.

Lemma remove_ok n p : net_ok n -> p ∈ inbound_ptrs n -> net_ok (TcpServer_RemoveClientByPtrUnlocked n p).
Proof.
  intros Hok Hp. pose proof Hok as (H1 & H2 & H3 & _). unfold TcpServer_RemoveClientByPtrUnlocked.
  destruct (first_index _ 0 (clientsArr n)) as [k|] eqn:E.
  2: { apply list_elem_of_omap in Hp as (x & Hx & Ex). cbn in Ex. subst x. apply first_index_None with (x := Some p) in E; [|done].
       by rewrite bool_decide_eq_true_2 in E. }
  apply first_index_Some in E as (j & x & -> & Hj & Hx). apply bool_decide_eq_true in Hx. subst x. cbn [plus].
  pose proof (omap_clear id (clientsArr n) j (Some p) None p Hj eq_refl eq_refl) as Ei. set (m := mkNet _ _ _ _ _ _).
  change (omap id (clientsArr n)) with (inbound_ptrs n) in Ei. change (omap id (<[j:=None]> (clientsArr n))) with (inbound_ptrs m) in Ei.
  assert (Hnd : NoDup (p :: outbound_ptrs n ++ inbound_ptrs m)) by (rewrite Ei, <- Permutation_middle in H3; exact H3).
  apply list.NoDup_cons in Hnd as [Hout Hnd]. rewrite elem_of_app in Hout.
  apply (net_ok_remove n m [p]); try done.
  - cbn [clientsArr m]. by rewrite length_insert.
  - intros q. cbn [conns m]. destruct (decide (q = p)) as [->|Hne].
    + rewrite decide_True by (by apply list_elem_of_singleton). apply lookup_delete_eq.
    + rewrite decide_False by (by rewrite list_elem_of_singleton). by apply lookup_delete_ne.
  - intros q. rewrite list_elem_of_singleton. change (outbound_ptrs m) with (outbound_ptrs n). split; [|tauto].
    intros Hq. split; [done|]. intros ->. auto.
  - intros q. rewrite list_elem_of_singleton, Ei, elem_of_cons. split; [|tauto]. intros Hq. split; [by right|]. intros ->. auto.
Qed.

(** What the reaper takes out. *)
Definition dead_ptrs (n : net_node) : list ptr := omap (fun s => if reapable n s then connection s else None) (outboundClients n).

Lemma elem_of_dead n p :
  p ∈ dead_ptrs n <-> p ∈ outbound_ptrs n /\ exists c, conns n !! p = Some c /\ disconnectedNotified c = true /\ pinCount c = 0.
Proof.
  unfold dead_ptrs, outbound_ptrs. rewrite !list_elem_of_omap. unfold reapable. split.
  - intros (s & Hs & E). destruct (connection s) as [q|] eqn:Eq; [|done]. cbn [mbind option_bind] in E.
    destruct (conns n !! q) as [c|] eqn:Ec; [|done]. destruct (disconnectedNotified c && (pinCount c =? 0)) eqn:Ed; [|done].
    injection E as ->. apply andb_true_iff in Ed as [? ?%Z.eqb_eq]. split; [by exists s|]. by exists c.
  - intros [(s & Hs & E) (c & Hc & Hd & Hz)]. exists s. split; [done|]. rewrite E. cbn [mbind option_bind]. rewrite Hc, Hd, Hz. done.
Qed.

Lemma lookup_deletes (h : gmap ptr tcp_connection) ps p : foldr delete h ps !! p = if decide (p ∈ ps) then None else h !! p.
Proof.
  induction ps as [|q ps IH]; cbn [foldr]; [by rewrite decide_False by apply not_elem_of_nil|].
  destruct (decide (p = q)) as [->|Hne]; [rewrite lookup_delete_eq, decide_True; [done|apply list_elem_of_here]|].
  rewrite lookup_delete_ne, IH by done. destruct (decide (p ∈ ps)); [by rewrite decide_True by (by apply list_elem_of_further)|].
  by rewrite decide_False by (by apply not_elem_of_cons).
Qed.

Lemma reaped_sublist n l :
  omap connection (map (fun s => if reapable n s then TcpClient_Init else s) l) `sublist_of` omap connection l.
Proof.
  induction l as [|s l IH]; [done|]. cbn [map]. rewrite !omap_cons.
  destruct (reapable n s); cbn [connection TcpClient_Init]; destruct (connection s) as [q|];
    first [exact IH|by apply sublist_cons|by apply sublist_skip].
Qed.

Lemma reap_ok n : net_ok n -> net_ok (Node_ReapDeadOutbound n).
Proof.
  intros Hok. pose proof Hok as (H1 & H2 & H3 & H4 & _). unfold Node_ReapDeadOutbound. fold (dead_ptrs n).
  set (slots := map _ (outboundClients n)). set (m := with_conns _ _).
  pose proof (reaped_sublist n (outboundClients n)) as Hsub. change (outbound_ptrs m `sublist_of` outbound_ptrs n) in Hsub.
  assert (Hmem : forall p, p ∈ outbound_ptrs m <-> p ∈ outbound_ptrs n /\ p ∉ dead_ptrs n).
  { intros p. unfold outbound_ptrs, dead_ptrs. cbn [m with_conns with_outbound outboundClients]. rewrite !list_elem_of_omap. split.
    - intros (s & Hs & E). apply list_elem_of_fmap in Hs as (t & -> & Ht). destruct (reapable n t) eqn:Er; [done|].
      split; [by exists t|]. intros (u & Hu & Eu). destruct (reapable n u) eqn:Eru; [|done].
      unfold reapable in Er, Eru. rewrite E in Er. rewrite Eu in Eru. congruence.
    - intros [(s & Hs & E) Hd]. exists s. split; [|done]. apply list_elem_of_fmap. exists s. split; [|done].
      destruct (reapable n s) eqn:Er; [|done]. destruct Hd. exists s. by rewrite Er. }
  apply (net_ok_remove n m (dead_ptrs n)); try done.
  - cbn [m with_conns with_outbound outboundClients]. subst slots. by rewrite length_map.
  - intros p. cbn [m with_conns with_outbound conns]. apply lookup_deletes.
  - intros p. change (inbound_ptrs m) with (inbound_ptrs n). split; [|tauto]. intros Hp. split; [done|].
    intros Hd%elem_of_dead. destruct Hd as [Hd _]. apply list.NoDup_app in H3 as (_ & H3 & _). by apply (H3 p).
  - change (inbound_ptrs m) with (inbound_ptrs n). eapply sublist_NoDup; [exact H3|]. by apply sublist_app.
Qed.

(** ** Listing endpoints *)

Definition offers (ep : sockaddr) (id : Z) (pc : ptr * tcp_connection) : Prop :=
  disconnectedNotified pc.2 = false /\ Node_ConnListenEndpoint pc.2 = Some ep /\ peerNodeId pc.2 = id.

(** With room, the loop adds every endpoint of the list once. *)
Lemma endpoints_loop_spec l maxOut out :
  (length out + length l <= maxOut)%nat -> NoDup (map fst out) ->
  let E := endpoints_loop l maxOut out in
  NoDup (map fst E) /\ (length E <= length out + length l)%nat /\ (forall e, e ∈ out -> e ∈ E) /\
  (forall e, e ∈ E -> e ∈ out \/ exists pc, (pc ∈ l) /\ offers e.1 e.2 pc) /\
  (forall pc ep, pc ∈ l -> disconnectedNotified pc.2 = false -> Node_ConnListenEndpoint pc.2 = Some ep -> ep ∈ map fst E).
Proof.
  revert out; induction l as [|[p c] r IH]; intros out Hlen Hnd; cbn [endpoints_loop].
  { split; [done|]. split; [lia|]. split; [done|]. split; [by left|]. intros pc ep Hpc. by apply not_elem_of_nil in Hpc. }
  cbn [length] in Hlen. assert (Hskip : (forall ep, disconnectedNotified c = false -> Node_ConnListenEndpoint c = Some ep -> ep ∈ map fst out) ->
    let E := endpoints_loop r maxOut out in
    NoDup (map fst E) /\ (length E <= length out + length ((p, c) :: r))%nat /\ (forall e, e ∈ out -> e ∈ E) /\
    (forall e, e ∈ E -> e ∈ out \/ exists pc, (pc ∈ (p, c) :: r) /\ offers e.1 e.2 pc) /\
    (forall pc ep, pc ∈ (p, c) :: r -> disconnectedNotified pc.2 = false -> Node_ConnListenEndpoint pc.2 = Some ep -> ep ∈ map fst E)).
  { intros Hc. destruct (IH out ltac:(lia) Hnd) as (H1 & H2 & H3 & H4 & H5). split; [done|]. split; [cbn [length]; lia|]. split; [done|]. split.
    - intros e He. apply H4 in He as [He|(pc & Hpc & Ho)]; [by left|]. right. exists pc. split; [by apply list_elem_of_further|done].
    - intros pc ep Hpc Hd Hep. apply elem_of_cons in Hpc as [->|Hpc]; [|by eapply H5]. specialize (Hc ep Hd Hep).
      apply list_elem_of_fmap in Hc as (e & -> & He). apply list_elem_of_fmap. exists e. split; [done|by apply H3]. }
  destruct (Nat.leb_spec maxOut (length out)); [lia|]. destruct (disconnectedNotified c) eqn:Ed; [by apply Hskip|].
  destruct (Node_ConnListenEndpoint c) as [ep|] eqn:Ee; [|by apply Hskip].
  destruct (existsb _ out) eqn:Ex.
  { apply Hskip. intros ep' _ [= <-]. apply existsb_exists in Ex as (e & He & <-%EndpointEqual_true). apply list_elem_of_fmap. exists e.
    split; [done|by apply list_elem_of_In]. }
  assert (Hnew : ep ∉ map fst out).
  { intros Hin. apply list_elem_of_fmap in Hin as (e & -> & He). assert (existsb (fun x => NetNode_EndpointEqual x.1 e.1) out = true); [|congruence].
    apply existsb_exists. exists e. split; [by apply list_elem_of_In|by apply EndpointEqual_true]. }
  destruct (IH (out ++ [(ep, peerNodeId c)])) as (H1 & H2 & H3 & H4 & H5).
  - rewrite length_app. cbn [length]. lia.
  - rewrite map_app. by apply NoDup_snoc.
  - split; [done|]. split; [rewrite length_app in H2; cbn [length] in *; lia|]. split; [intros e He; apply H3, elem_of_app; by left|]. split.
    + intros e He. apply H4 in He as [He|(pc & Hpc & Ho)]; [|right; exists pc; split; [by apply list_elem_of_further|done]].
      apply elem_of_app in He as [He|He]; [by left|]. apply list_elem_of_singleton in He as ->. right. exists (p, c). split; [apply list_elem_of_here|done].
    + intros pc ep' Hpc Hd Hep. apply elem_of_cons in Hpc as [->|Hpc]; [|by eapply H5]. cbn [snd] in Hep. rewrite Ee in Hep. injection Hep as <-.
      apply list_elem_of_fmap. exists (ep, peerNodeId c). split; [done|]. apply H3, elem_of_app. right. by apply list_elem_of_singleton.
Qed.

Lemma endpoints_loop_app l k maxOut out : endpoints_loop (l ++ k) maxOut out = endpoints_loop k maxOut (endpoints_loop l maxOut out).
Proof.
  revert out; induction l as [|[p c] r IH]; intros out; [done|]. cbn [app endpoints_loop].
  destruct (Nat.leb_spec maxOut (length out)) as [Hf|_].
  - destruct k as [|[q e] k]; [done|]. cbn [endpoints_loop]. by rewrite (proj2 (Nat.leb_le _ _) Hf).
  - destruct (disconnectedNotified c); [apply IH|]. destruct (Node_ConnListenEndpoint c); [|apply IH]. destruct (existsb _ out); apply IH.
Qed.

Lemma GetPeerEndpoints_spec n :
  net_ok n ->
  let E := Node_GetPeerEndpoints n (MAX_CONS * 2) in
  NoDup (map fst E) /\ (forall e, e ∈ E -> exists pc, (pc ∈ all_conns n) /\ offers e.1 e.2 pc) /\
  (forall pc ep, pc ∈ all_conns n -> disconnectedNotified pc.2 = false -> Node_ConnListenEndpoint pc.2 = Some ep -> ep ∈ map fst E).
Proof.
  intros Hok. unfold Node_GetPeerEndpoints. rewrite <- endpoints_loop_app. fold (all_conns n).
  destruct (endpoints_loop_spec (all_conns n) (MAX_CONS * 2) []) as (H1 & _ & _ & H4 & H5); [by apply all_conns_length|constructor|].
  split; [done|]. split; [|done]. intros e He. by apply H4 in He as [He%not_elem_of_nil|He].
Qed.
