(* ===== verification/UdpNode.v ===== *)
(** * The ping daemon ([src/udpd/udpnode.c], [include/udpd/udpnode.h], [include/udpd/udppackettype.h])

    Pings are registered in a table of 64 slots, retransmitted by the retry thread and matched with
    pongs by nonce.  [datagrams] is what was sent, oldest first; a socket is there or not; nonces and
    the clock are arguments. *)
From S2P Require Import Prelude Bytes Peers.

Definition UDP_PING_RETRY_INTERVAL_MS : Z := 1000.
Definition UDP_PING_MAX_RETRIES : Z := 3.
Definition UDP_MAX_PENDING_PINGS : nat := 64.
Definition UDP_PACKET_TYPE_PING : Z := 1.
Definition UDP_PACKET_TYPE_PONG : Z := 2.
Definition UDP_PING_WIRE_SIZE : nat := 9.
Definition UDP_PONG_WIRE_SIZE : nat := 13.
Definition PROTO_VERSION : Z := 1.

Record pending_ping := mkPing {
  pg_nonce : Z; pg_dest : sockaddr; pg_lastSentMs : Z; pg_retries : Z; pg_active : bool
}.

Record udp_node := mkUdp {
  sockFd : bool;
  sockFdV4 : bool;
  pendingPings : list pending_ping;
  datagrams : list (sockaddr * bytes)
}.

Definition empty_ping : pending_ping := mkPing 0 (AF_INET [0; 0; 0; 0] 0) 0 0 false.

Definition UdpNode_Init (v6 v4 : bool) : udp_node := mkUdp v6 v4 (replicate UDP_MAX_PENDING_PINGS empty_ping) [].

Definition with_pings (u : udp_node) (l : list pending_ping) : udp_node := mkUdp (sockFd u) (sockFdV4 u) l (datagrams u).

(** ** Wire formats *)

Definition ping_bytes (nonce : Z) : bytes := UDP_PACKET_TYPE_PING :: le_bytes 8 nonce.
Definition pong_bytes (nonce : Z) : bytes := UDP_PACKET_TYPE_PONG :: le_bytes 8 nonce ++ le_bytes 4 PROTO_VERSION.

(** ** Operations *)

Definition send_datagram (u : udp_node) (dest : sockaddr) (b : bytes) : udp_node :=
  mkUdp (sockFd u) (sockFdV4 u) (pendingPings u) (datagrams u ++ [(dest, b)]).

(** Nothing is sent when the family has no socket. *)
Definition UdpNode_SendRawPing (u : udp_node) (nonce : Z) (dest : sockaddr) : udp_node :=
  if match dest with AF_INET6 _ _ => sockFd u | AF_INET _ _ => sockFdV4 u end
  then send_datagram u dest (ping_bytes nonce) else u.

Fixpoint free_slot (i : nat) (l : list pending_ping) : option nat :=
  match l with
  | [] => None
  | p :: r => if negb (pg_active p) then Some i else free_slot (S i) r
  end.

Definition UdpNode_SendPing (u : udp_node) (dest : sockaddr) (nonce now : Z) : Z * udp_node :=
  if negb (sockFd u) && negb (sockFdV4 u) then (-1, u)
  else match free_slot 0 (pendingPings u) with
  | None => (-1, u)
  | Some slot =>
      (0, UdpNode_SendRawPing (with_pings u (<[slot := mkPing nonce dest now 0 true]> (pendingPings u))) nonce dest)
  end.

(** The first active ping with the nonce of a pong. *)
Fixpoint find_ping (i : nat) (l : list pending_ping) (nonce : Z) : option nat :=
  match l with
  | [] => None
  | p :: r => if pg_active p && (pg_nonce p =? nonce) then Some i else find_ping (S i) r nonce
  end.

Definition deactivate (p : pending_ping) : pending_ping := mkPing (pg_nonce p) (pg_dest p) (pg_lastSentMs p) (pg_retries p) false.

(** What the callback [on_pong] is given. *)
Record pong_event := mkPong { po_from : sockaddr; po_nonce : Z; po_protoVersion : Z; po_rttMs : Z }.

(** [int32_t] of four bytes. *)
Definition i32 (v : Z) : Z := if v <? 2 ^ 31 then v else v - 2 ^ 32.

(** A received datagram: the reply it gets, or the pong it reports. *)
Definition UdpNode_HandlePacket (u : udp_node) (buf : bytes) (from : sockaddr) (nowMs : Z) : option pong_event * udp_node :=
  match buf with
  | [] => (None, u)
  | type :: rest =>
      if type =? UDP_PACKET_TYPE_PING then
        if (length buf <? UDP_PING_WIRE_SIZE)%nat then (None, u)
        else (None, send_datagram u from (pong_bytes (le_val (take 8 rest))))
      else if type =? UDP_PACKET_TYPE_PONG then
        if (length buf <? UDP_PONG_WIRE_SIZE)%nat then (None, u)
        else
          let nonce := le_val (take 8 rest) in
          let protoVer := i32 (le_val (take 4 (drop 8 rest))) in
          match find_ping 0 (pendingPings u) nonce with
          | None => (None, u)
          | Some i =>
              let lastSent := match pendingPings u !! i with Some p => pg_lastSentMs p | None => 0 end in
              let rttMs := if lastSent <=? nowMs then nowMs - lastSent else 0 in
              (Some (mkPong from nonce protoVer rttMs), with_pings u (alter deactivate i (pendingPings u)))
          end
      else (None, u)
  end.

(** One round of the retry thread over the table: the timed-out pings, the new table, the datagrams. *)
Fixpoint retry_loop (u : udp_node) (now : Z) (l : list pending_ping)
  : list (sockaddr * Z) * list pending_ping * list (sockaddr * bytes) :=
  match l with
  | [] => ([], [], [])
  | p :: r =>
      let '(timedOut, r', sent) := retry_loop u now r in
      if negb (pg_active p) then (timedOut, p :: r', sent)
      else if now -u64 pg_lastSentMs p <? UDP_PING_RETRY_INTERVAL_MS then (timedOut, p :: r', sent)
      else if UDP_PING_MAX_RETRIES <=? pg_retries p
      then ((pg_dest p, pg_nonce p) :: timedOut, deactivate p :: r', sent)
      else (timedOut, mkPing (pg_nonce p) (pg_dest p) now (pg_retries p + 1) true :: r',
            (if match pg_dest p with AF_INET6 _ _ => sockFd u | AF_INET _ _ => sockFdV4 u end
             then [(pg_dest p, ping_bytes (pg_nonce p))] else []) ++ sent)
  end.

Definition UdpNode_RetryRound (u : udp_node) (now : Z) : list (sockaddr * Z) * udp_node :=
  let '(timedOut, l, sent) := retry_loop u now (pendingPings u) in
  (timedOut, mkUdp (sockFd u) (sockFdV4 u) l (datagrams u ++ sent)).

(** ** Lemmas *)

Definition udp_ok (u : udp_node) : Prop :=
  length (pendingPings u) = UDP_MAX_PENDING_PINGS /\
  Forall (fun p => pg_active p = true -> 0 <= pg_retries p <= UDP_PING_MAX_RETRIES) (pendingPings u).

Lemma free_slot_spec i l :
  match free_slot i l with
  | Some k => exists j p, k = (i + j)%nat /\ l !! j = Some p /\ pg_active p = false
  | None => Forall (fun p => pg_active p = true) l
  end.
Proof.
  revert i; induction l as [|p r IH]; intros i; cbn [free_slot]; [constructor|]. destruct (pg_active p) eqn:E; cbn [negb].
  - specialize (IH (S i)). destruct (free_slot (S i) r) as [k|]; [|by constructor].
    destruct IH as (j & q & -> & Hj & Hq). exists (S j), q. split; [lia|done].
  - exists 0%nat, p. split; [lia|done].
Qed.

(** The slot of a nonce that no other active ping has. *)
Lemma find_ping_unique i l k p nonce :
  l !! k = Some p -> pg_active p = true -> pg_nonce p = nonce ->
  (forall j q, l !! j = Some q -> pg_active q = true -> pg_nonce q = nonce -> j = k) -> find_ping i l nonce = Some (i + k)%nat.
Proof.
  revert i k; induction l as [|x r IH]; intros i k Hk Ha Hn Hu; [done|]. cbn [find_ping]. destruct k as [|k].
  - injection Hk as ->. rewrite Ha, Hn, Z.eqb_refl. cbn. f_equal. lia.
  - destruct (pg_active x && (pg_nonce x =? nonce)) eqn:E.
    + apply andb_true_iff in E as [E1 E2%Z.eqb_eq]. by discriminate (Hu 0%nat x eq_refl E1 E2).
    + rewrite (IH (S i) k Hk Ha Hn); [f_equal; lia|]. intros j q Hj Hq1 Hq2. by injection (Hu (S j) q Hj Hq1 Hq2).
Qed.

Lemma find_ping_Some l nonce k : find_ping 0 l nonce = Some k -> exists p, l !! k = Some p /\ pg_active p = true /\ pg_nonce p = nonce.
Proof.
  assert (H : forall i k, find_ping i l nonce = Some k -> exists j p, k = (i + j)%nat /\ l !! j = Some p /\ pg_active p = true /\ pg_nonce p = nonce).
  { clear k. induction l as [|x r IH]; intros i k E; [done|]. cbn [find_ping] in E. destruct (pg_active x && (pg_nonce x =? nonce)) eqn:Ex.
    - injection E as <-. apply andb_true_iff in Ex as [? ?%Z.eqb_eq]. exists 0%nat, x. split; [lia|done].
    - destruct (IH (S i) k E) as (j & p & -> & H). exists (S j), p. split; [lia|done]. }
  intros E. destruct (H 0%nat k E) as (j & p & -> & Hp). by exists p.
Qed.

(** ** One slot in one round *)

Definition due (now : Z) (p : pending_ping) : bool :=
  pg_active p && negb (now -u64 pg_lastSentMs p <? UDP_PING_RETRY_INTERVAL_MS).
Definition slot_next (now : Z) (p : pending_ping) : pending_ping :=
  if due now p then
    if UDP_PING_MAX_RETRIES <=? pg_retries p then deactivate p else mkPing (pg_nonce p) (pg_dest p) now (pg_retries p + 1) true
  else p.
Definition slot_timeout (now : Z) (p : pending_ping) : option (sockaddr * Z) :=
  if due now p && (UDP_PING_MAX_RETRIES <=? pg_retries p) then Some (pg_dest p, pg_nonce p) else None.

Lemma retry_loop_slots u now l :
  fst (retry_loop u now l) = (omap (slot_timeout now) l, map (slot_next now) l).
Proof.
  induction l as [|p r IH]; [done|]. cbn [retry_loop map]. rewrite omap_cons. destruct (retry_loop u now r) as [[a b] c].
  cbn [fst] in IH. injection IH as -> ->. unfold slot_timeout, slot_next, due.
  destruct (pg_active p); cbn [negb andb]; [|done]. destruct (_ <? UDP_PING_RETRY_INTERVAL_MS); cbn [negb andb]; [done|].
  by destruct (UDP_PING_MAX_RETRIES <=? pg_retries p).
Qed.

(** The retry thread over a sequence of clock readings. *)
Fixpoint run_rounds (u : udp_node) (ts : list Z) : list (sockaddr * Z) * udp_node :=
  match ts with
  | [] => ([], u)
  | t :: r =>
      let '(timedOut, u) := UdpNode_RetryRound u t in
      let '(more, u) := run_rounds u r in (timedOut ++ more, u)
  end.

(** Clock readings from [c] on: never back, at most [g] apart. *)
Fixpoint paced (g c : Z) (ts : list Z) : Prop :=
  match ts with
  | [] => True
  | t :: r => c <= t <= c + g /\ is_u64 t /\ paced g t r
  end.

#[export] Instance paced_dec g c ts : Decision (paced g c ts).
Proof. revert c; induction ts as [|t r IH]; intros c; cbn [paced]; [left; exact I|]. specialize (IH t). apply _. Defined.

Lemma round_slot u t i p :
  pendingPings u !! i = Some p ->
  pendingPings (snd (UdpNode_RetryRound u t)) !! i = Some (slot_next t p) /\
  (forall x, slot_timeout t p = Some x -> x ∈ fst (UdpNode_RetryRound u t)).
Proof.
  intros Hi. unfold UdpNode_RetryRound. pose proof (retry_loop_slots u t (pendingPings u)) as E.
  destruct (retry_loop u t (pendingPings u)) as [[a b] c]. cbn [fst snd pendingPings] in *. injection E as -> ->.
  split; [by rewrite list_lookup_fmap, Hi|]. intros x Hx. apply list_elem_of_omap. exists p. split; [by eapply list_elem_of_lookup_2|done].
Qed.

Lemma inactive_stays u ts i p :
  pendingPings u !! i = Some p -> pg_active p = false -> pendingPings (snd (run_rounds u ts)) !! i = Some p.
Proof.
  revert u; induction ts as [|t r IH]; intros u Hi Ha; [done|]. cbn [run_rounds].
  destruct (round_slot u t i p Hi) as [H _]. unfold slot_next, due in H. rewrite Ha in H. cbn [andb] in H.
  destruct (UdpNode_RetryRound u t) as [a u']. cbn [snd] in H. specialize (IH u' H Ha). by destruct (run_rounds u' r).
Qed.

Lemma last_cons (t c : Z) r : List.last (t :: r) c = List.last r t.
Proof. revert t c; induction r as [|x r IH]; intros t c; [done|]. etrans; [exact (IH x c)|]. symmetry. exact (IH x t). Qed.

Lemma ping_times_out u ts i p c g :
  0 <= g -> pendingPings u !! i = Some p -> pg_active p = true -> 0 <= pg_retries p <= 3 -> is_u64 (pg_lastSentMs p) ->
  pg_lastSentMs p <= c < pg_lastSentMs p + 1000 -> paced g c ts ->
  pg_lastSentMs p + (4 - pg_retries p) * (1000 + g) <= List.last ts c ->
  (pg_dest p, pg_nonce p) ∈ fst (run_rounds u ts) /\
  (exists q, pendingPings (snd (run_rounds u ts)) !! i = Some q /\ pg_active q = false).
Proof.
  intros Hg; revert u p c; induction ts as [|t r IH]; intros u p c Hi Ha Hr HL Hc Hp Ht; [cbn in Ht; nia|].
  destruct Hp as (Hct & Hu & Hp). rewrite last_cons in Ht.
  destruct (round_slot u t i p Hi) as [Hnext Hout]. cbn [run_rounds].
  assert (Esub : t -u64 pg_lastSentMs p = t - pg_lastSentMs p) by (apply u64_small; unfold_cint; lia).
  unfold slot_next, slot_timeout, due in *. rewrite Ha, Esub in *. cbn [andb] in *. unfold UDP_PING_RETRY_INTERVAL_MS, UDP_PING_MAX_RETRIES in *.
  destruct (UdpNode_RetryRound u t) as [timedOut u']. cbn [fst snd] in *.
  destruct (Z.ltb_spec (t - pg_lastSentMs p) 1000) as [Hearly|Hdue]; cbn [negb andb] in *.
  - destruct (IH u' p t Hnext Ha Hr HL ltac:(lia) Hp Ht) as [H1 H2]. destruct (run_rounds u' r) as [more v]. cbn [fst snd] in *.
    split; [|done]. apply elem_of_app. by right.
  - destruct (Z.leb_spec 3 (pg_retries p)) as [Hmax|Hmore]; cbn [negb andb] in *.
    + pose proof (inactive_stays u' r i _ Hnext eq_refl) as H2. destruct (run_rounds u' r) as [more v]. cbn [fst snd] in *.
      split; [apply elem_of_app; left; by apply Hout|]. eexists. split; [exact H2|done].
    + assert (Hbudget : t + (4 - (pg_retries p + 1)) * (1000 + g) <= List.last r t).
      { etrans; [|exact Ht]. assert (t <= pg_lastSentMs p + 1000 + g) by lia.
        replace (4 - (pg_retries p + 1)) with (4 - pg_retries p - 1) by lia. rewrite Z.mul_sub_distr_r. lia. }
      destruct (IH u' _ t Hnext eq_refl) as [H1 H2]; cbn [pg_retries pg_lastSentMs]; [lia|done|lia|done|done|].
      cbn [pg_dest pg_nonce] in H1. destruct (run_rounds u' r) as [more v]. cbn [fst snd] in *. split; [|done]. apply elem_of_app. by right.
Qed.

(** ** Properties *)

(** An unanswered ping times out.  A ping just sent at [now] that nobody answers is reported to
    [on_ping_timeout] and its slot is free again once the clock is [4 * (1000 + g)] ms past [now], where
    [g] bounds the time between two rounds of the retry thread (about 100 ms). *)
Theorem unanswered_ping_times_out u dest nonce now g ts :
  sockFd u || sockFdV4 u = true -> free_slot 0 (pendingPings u) <> None -> is_u64 now -> 0 <= g -> paced g now ts ->
  now + 4 * (1000 + g) <= List.last ts now ->
  let '(rc, u') := UdpNode_SendPing u dest nonce now in
  rc = 0 /\ (dest, nonce) ∈ fst (run_rounds u' ts) /\
  free_slot 0 (pendingPings (snd (run_rounds u' ts))) <> None.
Proof.
  intros Hs Hfree Hn Hg Hp Ht. unfold UdpNode_SendPing. rewrite <- negb_orb, Hs. cbn [negb].
  pose proof (free_slot_spec 0 (pendingPings u)) as Hf. destruct (free_slot 0 (pendingPings u)) as [k|]; [|done].
  destruct Hf as (j & q & -> & Hj & Hq). cbn [plus]. split; [done|].
  set (p := mkPing nonce dest now 0 true). set (u' := UdpNode_SendRawPing _ nonce dest).
  assert (Hi : pendingPings u' !! j = Some p).
  { assert (E : pendingPings u' = <[j := p]> (pendingPings u)) by (unfold u', UdpNode_SendRawPing; by destruct (match dest with AF_INET _ _ => _ | AF_INET6 _ _ => _ end)).
    rewrite E. apply list_lookup_insert_eq. by eapply lookup_lt_Some. }
  destruct (ping_times_out u' ts j p now g Hg Hi eq_refl) as (H1 & r & Hr & Ha); cbn [pg_retries pg_lastSentMs p]; [lia|done|lia|done|lia|].
  split; [exact H1|]. intros E. pose proof (free_slot_spec 0 (pendingPings (snd (run_rounds u' ts)))) as Hf. rewrite E in Hf.
  rewrite Forall_forall in Hf. specialize (Hf r ltac:(apply list_elem_of_In; by eapply list_elem_of_lookup_2)). congruence.
Qed.

Definition google : sockaddr := AF_INET [8; 8; 8; 8] 9393.

Lemma unanswered_ping_times_out_witness :
  (google, 77) ∈ fst (run_rounds (snd (UdpNode_SendPing (UdpNode_Init true true) google 77 5000)) [5600; 6200; 6800; 7400; 8000; 8600; 9200; 9800; 10400; 11000; 11400]).
Proof.
  pose proof (unanswered_ping_times_out (UdpNode_Init true true) google 77 5000 600 [5600; 6200; 6800; 7400; 8000; 8600; 9200; 9800; 10400; 11000; 11400]
    eq_refl ltac:(vm_compute; congruence) ltac:(vm_decide) ltac:(lia) ltac:(vm_decide) ltac:(vm_compute; congruence)) as H.
  destruct (UdpNode_SendPing (UdpNode_Init true true) google 77 5000) as [rc u']. destruct H as (_ & H & _). exact H.
Defined.

Lemma pong_fields nonce : is_u64 nonce ->
  le_val (take 8 (le_bytes 8 nonce ++ le_bytes 4 PROTO_VERSION)) = nonce /\
  i32 (le_val (take 4 (drop 8 (le_bytes 8 nonce ++ le_bytes 4 PROTO_VERSION)))) = PROTO_VERSION.
Proof.
  intros Hn. rewrite take_app_length' by (by rewrite length_le_bytes). rewrite drop_app_length' by (by rewrite length_le_bytes).
  by rewrite le_val_8.
Qed.

(** A ping is answered by its own pong.  A ping that gets a slot goes out as one datagram; the node
    that receives it answers with a pong; that pong, received at [t], is reported with the ping's
    nonce, the protocol version and the time since the ping was sent, and ends the ping: the slot is
    free and a second copy of the pong changes nothing and reports nothing. *)
Theorem ping_is_answered u v dest from nonce now t :
  match dest with AF_INET6 _ _ => sockFd u | AF_INET _ _ => sockFdV4 u end = true ->
  free_slot 0 (pendingPings u) <> None -> is_u64 nonce -> now <= t ->
  Forall (fun p => pg_active p = true -> pg_nonce p <> nonce) (pendingPings u) ->
  let u' := snd (UdpNode_SendPing u dest nonce now) in
  exists ping pong u'',
    datagrams u' = datagrams u ++ [(dest, ping)] /\
    UdpNode_HandlePacket v ping from t = (None, send_datagram v from pong) /\
    UdpNode_HandlePacket u' pong dest t = (Some (mkPong dest nonce PROTO_VERSION (t - now)), u'') /\
    datagrams u'' = datagrams u' /\
    UdpNode_HandlePacket u'' pong dest t = (None, u'').
Proof.
  intros Hs Hfree Hn Ht Hu. unfold UdpNode_SendPing.
  assert (Hany : negb (sockFd u) && negb (sockFdV4 u) = false) by (destruct dest; rewrite Hs; by rewrite ?andb_false_r).
  rewrite Hany. pose proof (free_slot_spec 0 (pendingPings u)) as Hf. destruct (free_slot 0 (pendingPings u)) as [k|]; [|done].
  destruct Hf as (j & q & -> & Hj & Hq). cbn [plus snd]. set (p := mkPing nonce dest now 0 true). set (L := <[j := p]> (pendingPings u)).
  unfold UdpNode_SendRawPing. cbn [with_pings sockFd sockFdV4]. rewrite Hs.
  assert (HL : L !! j = Some p) by (apply list_lookup_insert_eq; by eapply lookup_lt_Some).
  assert (Huniq : forall i r, L !! i = Some r -> pg_active r = true -> pg_nonce r = nonce -> i = j).
  { intros i r Hi Ha Er. apply list_lookup_insert_Some in Hi as [(<- & _)|(_ & Hi)]; [done|].
    eapply Forall_lookup_1 in Hu; [|exact Hi]. by destruct (Hu Ha). }
  exists (ping_bytes nonce), (pong_bytes nonce), (send_datagram (with_pings u (alter deactivate j L)) dest (ping_bytes nonce)).
  destruct (pong_fields nonce Hn) as [F1 F2].
  assert (Hpong : forall w, UdpNode_HandlePacket w (pong_bytes nonce) dest t =
    match find_ping 0 (pendingPings w) nonce with
    | None => (None, w)
    | Some i =>
        let lastSent := match pendingPings w !! i with Some p => pg_lastSentMs p | None => 0 end in
        (Some (mkPong dest nonce PROTO_VERSION (if lastSent <=? t then t - lastSent else 0)), with_pings w (alter deactivate i (pendingPings w)))
    end).
  { intros w. unfold UdpNode_HandlePacket, pong_bytes. cbn [Z.eqb UDP_PACKET_TYPE_PING UDP_PACKET_TYPE_PONG Pos.eqb length].
    rewrite length_app, !length_le_bytes, F1, F2. done. }
  split; [done|]. split; [|split; [|split; [done|]]].
  - unfold UdpNode_HandlePacket, ping_bytes. cbn [Z.eqb UDP_PACKET_TYPE_PING Pos.eqb length]. rewrite length_le_bytes.
    rewrite take_ge by (by rewrite length_le_bytes). by rewrite le_val_8.
  - rewrite Hpong. cbn [send_datagram with_pings pendingPings]. rewrite (find_ping_unique 0 L j p nonce HL eq_refl eq_refl Huniq).
    cbn [plus]. rewrite HL. cbn [pg_lastSentMs p]. by rewrite (proj2 (Z.leb_le _ _) Ht).
  - rewrite Hpong. cbn [send_datagram with_pings pendingPings].
    destruct (find_ping 0 (alter deactivate j L) nonce) as [i|] eqn:E; [exfalso|done].
    apply find_ping_Some in E as (r & Hr & Ha & Er). rewrite list_lookup_alter in Hr. case_decide as Hd.
    + subst i. rewrite HL in Hr. injection Hr as <-. done.
    + apply Hd. symmetry. by apply (Huniq i r).
Qed.

Lemma ping_is_answered_witness :
  fst (UdpNode_HandlePacket (snd (UdpNode_SendPing (UdpNode_Init true true) google 77 5000)) (pong_bytes 77) google 5040)
  = Some (mkPong google 77 1 40).
Proof.
  destruct (ping_is_answered (UdpNode_Init true true) (UdpNode_Init true true) google google 77 5000 5040 eq_refl
    ltac:(vm_compute; congruence) ltac:(vm_decide) ltac:(lia) ltac:(vm_decide)) as (ping & pong & u'' & H1 & H2 & H3 & _).
  assert (E1 : ping = ping_bytes 77) by (vm_compute in H1; injection H1 as <-; reflexivity). subst ping.
  assert (E2 : pong = pong_bytes 77) by (vm_compute in H2; injection H2 as <-; reflexivity). subst pong.
  rewrite H3. reflexivity.
Defined.
