(* ===== verification/Discovery.v ===== *)
(** * Peer discovery ([src/nets/nodediscovery.c], [include/constants.h])

    The table of known listen endpoints, its peer exchange over TCP and its latency measurements over
    UDP.  A pointer into the peer vector is an index.  Every function holds [disc->lock], so it is one
    transition; the network actions of a tick are collected under the lock and carried out by the
    node afterwards.  The clock, the random numbers and the interface addresses are arguments. *)
From S2P Require Import Prelude Bytes Framing Peers UdpNode.

Definition DISCOVERY_FANOUT : nat := 2.
Definition DISCOVERY_MAX_HOPS : Z := 3.
Definition DISCOVERY_TARGET_CONNECTIONS : nat := 8.
Definition DISCOVERY_MAX_KNOWN_PEERS : nat := 256.
Definition DISCOVERY_PEERS_RESPONSE_CAP : nat := 8.
Definition DISCOVERY_MAX_PINGS_PER_TICK : nat := 8.
Definition DISCOVERY_PING_TIMEOUT_MS : Z := 5000.
Definition DISCOVERY_PING_REFRESH_MS : Z := 60000.
Definition DISCOVERY_QUERY_INTERVAL_MS : Z := 15000.
Definition DISCOVERY_CONNECT_RETRY_MS : Z := 30000.
Definition DISCOVERY_WIRE_ENTRY_SIZE : nat := 1 + 16 + 2.

Inductive discovery_state := NEW | PINGED | REACHABLE | CONNECTED | UNREACHABLE.

#[export] Instance discovery_state_eq_dec : EqDecision discovery_state.
Proof. solve_decision. Defined.

Record discovered_peer := mkPeer {
  dp_addr : sockaddr;
  dp_pingMs : Z;
  dp_nodeId : Z;
  dp_hop : Z;
  dp_state : discovery_state;
  dp_pingPending : bool;
  dp_lastPingMs : Z;
  dp_lastQueryMs : Z
}.

#[export] Instance discovered_peer_eq_dec : EqDecision discovered_peer.
Proof. solve_decision. Defined.

Record discovery_attempt := mkAttempt { at_addr : sockaddr; at_lastMs : Z }.

Record node_discovery := mkDisc {
  d_peers : list discovered_peer;
  d_self : list sockaddr;
  d_attempts : list discovery_attempt
}.

Definition with_peers (d : node_discovery) (l : list discovered_peer) : node_discovery := mkDisc l (d_self d) (d_attempts d).

(** ** Addresses *)

(** The same text as [NetNode_EndpointEqual]. *)
Definition Discovery_AddrEqual (a b : sockaddr) : bool := NetNode_EndpointEqual a b.

Definition Discovery_IsUsableAddr (addr : sockaddr) : bool :=
  match addr with
  | AF_INET ip port =>
      if port =? 0 then false
      else
        let host := be_val ip in
        if (host =? 0) || (host =? U32_MAX) then false
        else if Z.shiftr host 28 =? 14 then false
        else if Z.land host 4294901760 =? 2851995648 then false
        else true
  | AF_INET6 ip port =>
      let b0 := nth 0 ip 0 in let b1 := nth 1 ip 0 in
      if port =? 0 then false
      else if memeq ip (zeros 16) then false
      else if b0 =? 255 then false
      else if (b0 =? 254) && (Z.land b1 192 =? 128) then false
      else if (b0 =? 254) && (Z.land b1 192 =? 192) then false
      else true
  end.

Definition Discovery_NormaliseAddr (addr : sockaddr) : sockaddr :=
  match addr with
  | AF_INET _ _ => addr
  | AF_INET6 ip port => if V4MAPPED ip then AF_INET (drop 12 ip) port else addr
  end.

(** ** Our own endpoints *)

Definition Discovery_IsSelfUnlocked (d : node_discovery) (addr : sockaddr) : bool :=
  existsb (fun self => Discovery_AddrEqual self addr) (d_self d).

Definition Discovery_AddSelfUnlocked (d : node_discovery) (addr : sockaddr) : node_discovery :=
  if Discovery_IsSelfUnlocked d addr then d else mkDisc (d_peers d) (d_self d ++ [addr]) (d_attempts d).

(** One entry per interface; [None] for an address of another family. *)
Definition Discovery_SeedSelfEndpoints (d : node_discovery) (ifaddrs : list (option sockaddr)) (listenPort : Z) : node_discovery :=
  fold_left (fun d it =>
    match it with
    | None => d
    | Some (AF_INET ip _) => Discovery_AddSelfUnlocked d (Discovery_NormaliseAddr (AF_INET ip listenPort))
    | Some (AF_INET6 ip _) => Discovery_AddSelfUnlocked d (Discovery_NormaliseAddr (AF_INET6 ip listenPort))
    end) ifaddrs d.

Definition NodeDiscovery_Create (ifaddrs : list (option sockaddr)) (listenPort : Z) : node_discovery :=
  Discovery_SeedSelfEndpoints (mkDisc [] [] []) ifaddrs listenPort.

(** ** The peer table *)

Definition Discovery_FindPtr (d : node_discovery) (addr : sockaddr) : option nat :=
  first_index (fun p => Discovery_AddrEqual (dp_addr p) addr) 0 (d_peers d).

Definition on_peer (f : discovered_peer -> discovered_peer) (i : nat) (d : node_discovery) : node_discovery :=
  with_peers d (alter f i (d_peers d)).

Definition set_hop (h : Z) (p : discovered_peer) : discovered_peer :=
  mkPeer (dp_addr p) (dp_pingMs p) (dp_nodeId p) h (dp_state p) (dp_pingPending p) (dp_lastPingMs p) (dp_lastQueryMs p).
Definition set_nodeId (id : Z) (p : discovered_peer) : discovered_peer :=
  mkPeer (dp_addr p) (dp_pingMs p) id (dp_hop p) (dp_state p) (dp_pingPending p) (dp_lastPingMs p) (dp_lastQueryMs p).
Definition set_state (s : discovery_state) (p : discovered_peer) : discovered_peer :=
  mkPeer (dp_addr p) (dp_pingMs p) (dp_nodeId p) (dp_hop p) s (dp_pingPending p) (dp_lastPingMs p) (dp_lastQueryMs p).
Definition set_query (now : Z) (p : discovered_peer) : discovered_peer :=
  mkPeer (dp_addr p) (dp_pingMs p) (dp_nodeId p) (dp_hop p) (dp_state p) (dp_pingPending p) (dp_lastPingMs p) now.

Definition new_peer (addr : sockaddr) (hop : Z) : discovered_peer := mkPeer addr UINT64_MAX 0 hop NEW false 0 0.

(** The entry, existing or new, or none. *)
Definition Discovery_Upsert (d : node_discovery) (addr : sockaddr) (hop : Z) : option nat * node_discovery :=
  if negb (Discovery_IsUsableAddr addr) then (None, d)
  else if Discovery_IsSelfUnlocked d addr then (None, d)
  else match Discovery_FindPtr d addr with
  | Some i => (Some i, on_peer (fun p => if hop <? dp_hop p then set_hop hop p else p) i d)
  | None =>
      if (DISCOVERY_MAX_KNOWN_PEERS <=? length (d_peers d))%nat then (None, d)
      else (Some (length (d_peers d)), with_peers d (d_peers d ++ [new_peer addr hop]))
  end.

Definition Discovery_RemoveUnlocked (d : node_discovery) (addr : sockaddr) : node_discovery :=
  match Discovery_FindPtr d addr with
  | Some i => with_peers d (delete i (d_peers d))
  | None => d
  end.

Definition NodeDiscovery_RemovePeer (d : node_discovery) (endpoint : sockaddr) : node_discovery := Discovery_RemoveUnlocked d endpoint.

Definition NodeDiscovery_NoteIdentity (d : node_discovery) (localNodeId : Z) (endpoint : sockaddr) (nodeId : Z) : node_discovery :=
  if nodeId =? 0 then d
  else if nodeId =? localNodeId then Discovery_RemoveUnlocked (Discovery_AddSelfUnlocked d endpoint) endpoint
  else match Discovery_Upsert d endpoint 0 with
  | (Some i, d) => on_peer (set_nodeId nodeId) i d
  | (None, d) => d
  end.

Definition NodeDiscovery_MarkSelfEndpoint (d : node_discovery) (endpoint : sockaddr) : node_discovery :=
  Discovery_RemoveUnlocked (Discovery_AddSelfUnlocked d endpoint) endpoint.

Definition NodeDiscovery_IsSelfEndpoint (d : node_discovery) (endpoint : sockaddr) : bool := Discovery_IsSelfUnlocked d endpoint.

(** ** Dial history *)

Definition Discovery_ConnectCooledDown (d : node_discovery) (addr : sockaddr) (now : Z) : bool :=
  match first_index (fun a => Discovery_AddrEqual (at_addr a) addr) 0 (d_attempts d) with
  | Some i => match d_attempts d !! i with Some a => DISCOVERY_CONNECT_RETRY_MS <=? now -u64 at_lastMs a | None => true end
  | None => true
  end.

(** The scan for the stalest record. *)
Fixpoint stalest (i : nat) (l : list discovery_attempt) (oldestIdx : nat) (oldestMs : Z) : nat :=
  match l with
  | [] => oldestIdx
  | a :: r => if at_lastMs a <? oldestMs then stalest (S i) r i (at_lastMs a) else stalest (S i) r oldestIdx oldestMs
  end.

Definition Discovery_NoteConnectAttempt (d : node_discovery) (addr : sockaddr) (now : Z) : node_discovery :=
  let l := d_attempts d in
  let l' := match first_index (fun a => Discovery_AddrEqual (at_addr a) addr) 0 l with
            | Some i => alter (fun a => mkAttempt (at_addr a) now) i l
            | None =>
                if (DISCOVERY_MAX_KNOWN_PEERS <=? length l)%nat
                then <[stalest 0 l 0 UINT64_MAX := mkAttempt addr now]> l
                else l ++ [mkAttempt addr now]
            end in
  mkDisc (d_peers d) (d_self d) l'.

(** ** Endpoints on the wire *)

Definition Discovery_AddrToWire (addr : sockaddr) : bytes :=
  match addr with
  | AF_INET ip port => 4 :: ip ++ zeros 12 ++ le_bytes 2 port
  | AF_INET6 ip port => 6 :: ip ++ le_bytes 2 port
  end.

(** A 19-byte entry; none when the family is unknown or the port is zero. *)
Definition Discovery_WireToAddr (entry : bytes) : option sockaddr :=
  let fam := nth 0 entry 0 in
  let port := le_val (take 2 (drop 17 entry)) in
  if fam =? 4 then
    if port =? 0 then None else Some (AF_INET (take 4 (drop 1 entry)) port)
  else if fam =? 6 then
    if port =? 0 then None else Some (Discovery_NormaliseAddr (AF_INET6 (take 16 (drop 1 entry)) port))
  else None.

Definition Discovery_AddrToIpPort `{AddrText} (addr : sockaddr) : bytes * Z :=
  match addr with
  | AF_INET ip port => (inet_ntop4 ip, port)
  | AF_INET6 ip port => (inet_ntop6 ip, port)
  end.

(** ** Latency callbacks *)

Definition NodeDiscovery_OnPong (d : node_discovery) (from : sockaddr) (rttMs : Z) : node_discovery :=
  match Discovery_FindPtr d from with
  | None => d
  | Some i =>
      on_peer (fun p =>
        if dp_pingPending p
        then mkPeer (dp_addr p) rttMs (dp_nodeId p) (dp_hop p) (if bool_decide (dp_state p = PINGED) then REACHABLE else dp_state p)
               false (dp_lastPingMs p) (dp_lastQueryMs p)
        else p) i d
  end.

Definition NodeDiscovery_OnPingTimeout (d : node_discovery) (dest : sockaddr) : node_discovery :=
  match Discovery_FindPtr d dest with
  | None => d
  | Some i =>
      on_peer (fun p =>
        if dp_pingPending p
        then mkPeer (dp_addr p) (dp_pingMs p) (dp_nodeId p) (dp_hop p) (if bool_decide (dp_state p = PINGED) then UNREACHABLE else dp_state p)
               false (dp_lastPingMs p) (dp_lastQueryMs p)
        else p) i d
  end.

(** ** Peer exchange *)

(** The entries of a response: a window over the snapshot from [startIdx], without the requester. *)
Fixpoint response_loop (all : list (sockaddr * Z)) (startIdx k n : nat) (req : option sockaddr) (reqNodeId : Z) (count : nat) : list sockaddr :=
  match n with
  | O => []
  | S n =>
      if (DISCOVERY_PEERS_RESPONSE_CAP <=? count)%nat then []
      else match all !! ((startIdx + k) mod length all)%nat with
      | None => []
      | Some (ep, id) =>
          if match req with Some r => Discovery_AddrEqual ep r | None => false end
          then response_loop all startIdx (S k) n req reqNodeId count
          else if negb (reqNodeId =? 0) && (id =? reqNodeId) then response_loop all startIdx (S k) n req reqNodeId count
          else ep :: response_loop all startIdx (S k) n req reqNodeId (S count)
      end
  end.

Definition peers_payload (eps : list sockaddr) : bytes :=
  le_bytes 2 (Z.of_nat (length eps)) ++ concat (map Discovery_AddrToWire eps).

(** The payload of the PEERS answer; [random] is [random_four_byte()]. *)
Definition NodeDiscovery_OnGetPeers (n : net_node) (from : tcp_connection) (random : Z) : bytes :=
  let all := Node_GetPeerEndpoints n (MAX_CONS * 2) in
  let startIdx := if (length all =? 0)%nat then 0%nat else Z.to_nat (random mod Z.of_nat (length all)) in
  peers_payload (response_loop all startIdx 0 (length all) (Node_ConnListenEndpoint from) (peerNodeId from) 0).

(** Fold in at most [DISCOVERY_FANOUT] endpoints we do not know yet. *)
Fixpoint fold_entries (d : node_discovery) (i : nat) (count : nat) (payload : bytes) (newHop : Z) (added : nat) : node_discovery :=
  match count with
  | O => d
  | S c =>
      if (DISCOVERY_FANOUT <=? added)%nat then d
      else
        let entry := take DISCOVERY_WIRE_ENTRY_SIZE (drop (2 + i * DISCOVERY_WIRE_ENTRY_SIZE) payload) in
        match Discovery_WireToAddr entry with
        | None => fold_entries d (S i) c payload newHop added
        | Some ep =>
            match Discovery_FindPtr d ep with
            | Some _ => fold_entries d (S i) c payload newHop added
            | None =>
                match Discovery_Upsert d ep newHop with
                | (Some _, d) => fold_entries d (S i) c payload newHop (S added)
                | (None, d) => fold_entries d (S i) c payload newHop added
                end
            end
        end
  end.

(** The hop distance of the peer that answered. *)
Definition src_hop (d : node_discovery) (from : tcp_connection) : Z :=
  match Node_ConnListenEndpoint from with
  | None => 0
  | Some src => match i ← Discovery_FindPtr d src; d_peers d !! i with Some p => dp_hop p | None => 0 end
  end.

Definition NodeDiscovery_OnPeersReceived (d : node_discovery) (from : tcp_connection) (payload : bytes) : node_discovery :=
  if (length payload <? 2)%nat then d
  else
    let count := le_val (take 2 payload) in
    let need := 2 + count * Z.of_nat DISCOVERY_WIRE_ENTRY_SIZE in
    if Z.of_nat (length payload) <? need then d
    else
      let newHop := u32 (src_hop d from + 1) in
      if newHop <=? DISCOVERY_MAX_HOPS then fold_entries d 0 (Z.to_nat count) payload newHop 0 else d.

(** ** The tick

    [outs] are the live outbound connections of [Node_GetClientList]. *)

(** The listen endpoints of the snapshot with their identities. *)
Definition out_endpoints (outs : list (ptr * tcp_connection)) : list (sockaddr * Z) :=
  omap (fun pc => ep ← Node_ConnListenEndpoint pc.2; Some (ep, peerNodeId pc.2)) outs.

(** Step 1: connected peers enter as CONNECTED at hop 0. *)
Definition seed_connected (d : node_discovery) (outEps : list (sockaddr * Z)) : node_discovery :=
  fold_left (fun d e =>
    match Discovery_Upsert d e.1 0 with
    | (Some i, d) =>
        on_peer (fun p => let p := set_state CONNECTED (set_hop 0 p) in if e.2 =? 0 then p else set_nodeId e.2 p) i d
    | (None, d) => d
    end) outEps d.

Definition is_out (outEps : list (sockaddr * Z)) (p : discovered_peer) : bool :=
  existsb (fun e => Discovery_AddrEqual (dp_addr p) e.1) outEps.

Definition demote (outEps : list (sockaddr * Z)) (p : discovered_peer) : discovered_peer :=
  if bool_decide (dp_state p = CONNECTED) && negb (is_out outEps p)
  then set_state (if dp_pingMs p =? UINT64_MAX then NEW else REACHABLE) p else p.

(** Step 2: pings, capped per tick. *)
Definition should_ping (now : Z) (p : discovered_peer) : bool :=
  negb (dp_pingPending p) &&
  (bool_decide (dp_state p = NEW) ||
   (bool_decide (dp_state p = REACHABLE) && (DISCOVERY_PING_REFRESH_MS <? now -u64 dp_lastPingMs p))).

Definition pinged (now : Z) (p : discovered_peer) : discovered_peer :=
  mkPeer (dp_addr p) (dp_pingMs p) (dp_nodeId p) (dp_hop p) (if bool_decide (dp_state p = NEW) then PINGED else dp_state p)
    true now (dp_lastQueryMs p).

(** [nonces] gives the random nonce of each ping. *)
Fixpoint ping_loop (l : list discovered_peer) (pings : nat) (now : Z) (nonces : nat -> Z) (u : udp_node) : list discovered_peer * udp_node :=
  match l with
  | [] => ([], u)
  | p :: r =>
      if (DISCOVERY_MAX_PINGS_PER_TICK <=? pings)%nat then (p :: r, u)
      else if should_ping now p then
        let '(r', u) := ping_loop r (S pings) now nonces (snd (UdpNode_SendPing u (dp_addr p) (nonces pings) now)) in
        (pinged now p :: r', u)
      else let '(r', u) := ping_loop r pings now nonces u in (p :: r', u)
  end.

(** Step 3: the backstop for missed timeouts. *)
Definition backstop (now : Z) (p : discovered_peer) : discovered_peer :=
  if bool_decide (dp_state p = PINGED) && dp_pingPending p && (DISCOVERY_PING_TIMEOUT_MS <? now -u64 dp_lastPingMs p)
  then mkPeer (dp_addr p) (dp_pingMs p) (dp_nodeId p) (dp_hop p) UNREACHABLE false (dp_lastPingMs p) (dp_lastQueryMs p)
  else p.

(** Step 4: the connected peer to query next. *)
Definition query_entry (d : node_discovery) (now : Z) (c : tcp_connection) : option (nat * Z) :=
  ep ← Node_ConnListenEndpoint c;
  i ← Discovery_FindPtr d ep;
  p ← d_peers d !! i;
  if DISCOVERY_MAX_HOPS <=? dp_hop p then None
  else if negb (dp_lastQueryMs p =? 0) && (now -u64 dp_lastQueryMs p <? DISCOVERY_QUERY_INTERVAL_MS) then None
  else Some (i, dp_pingMs p).

Fixpoint pick_query (d : node_discovery) (now : Z) (outs : list (ptr * tcp_connection)) (best : option (ptr * nat)) (bestPing : Z)
  : option (ptr * nat) :=
  match outs with
  | [] => best
  | (p, c) :: r =>
      match query_entry d now c with
      | Some (i, ping) =>
          if bool_decide (best = None) || (ping <? bestPing) then pick_query d now r (Some (p, i)) ping
          else pick_query d now r best bestPing
      | None => pick_query d now r best bestPing
      end
  end.

Fixpoint query_loop (rounds : nat) (d : node_discovery) (now : Z) (outs : list (ptr * tcp_connection)) : list ptr * node_discovery :=
  match rounds with
  | O => ([], d)
  | S n =>
      match pick_query d now outs None UINT64_MAX with
      | None => ([], d)
      | Some (p, i) => let '(ps, d) := query_loop n (on_peer (set_query now) i d) now outs in (p :: ps, d)
      end
  end.

(** Step 5: the next endpoint to dial. *)
Definition dialable (d : node_discovery) (now : Z) (outEps : list (sockaddr * Z)) (p : discovered_peer) : bool :=
  bool_decide (dp_state p = REACHABLE) && Discovery_ConnectCooledDown d (dp_addr p) now &&
  negb (is_out outEps p || (negb (dp_nodeId p =? 0) && existsb (fun e => e.2 =? dp_nodeId p) outEps)).

Fixpoint pick_connect (d : node_discovery) (now : Z) (outEps : list (sockaddr * Z)) (l : list discovered_peer) (best : option discovered_peer)
  : option discovered_peer :=
  match l with
  | [] => best
  | p :: r =>
      if dialable d now outEps p then
        match best with
        | Some b => if dp_pingMs p <? dp_pingMs b then pick_connect d now outEps r (Some p) else pick_connect d now outEps r best
        | None => pick_connect d now outEps r (Some p)
        end
      else pick_connect d now outEps r best
  end.

Fixpoint connect_loop (slots : nat) (d : node_discovery) (now : Z) (outEps : list (sockaddr * Z)) : list sockaddr * node_discovery :=
  match slots with
  | O => ([], d)
  | S n =>
      match pick_connect d now outEps (d_peers d) None with
      | None => ([], d)
      | Some b =>
          let '(l, d) := connect_loop n (Discovery_NoteConnectAttempt d (dp_addr b) now) now outEps in
          ((if sa_port (dp_addr b) =? 0 then l else dp_addr b :: l), d)
      end
  end.

(** The locked part of [NodeDiscovery_Iterate]: the connections to query, the endpoints to dial. *)
Definition discovery_tick (d : node_discovery) (u : udp_node) (outs : list (ptr * tcp_connection)) (now : Z) (nonces : nat -> Z)
  : list ptr * list sockaddr * node_discovery * udp_node :=
  let outEps := out_endpoints outs in
  let d := seed_connected d outEps in
  let d := with_peers d (map (demote outEps) (d_peers d)) in
  let '(l, u) := ping_loop (d_peers d) 0 now nonces u in
  let d := with_peers d (map (backstop now) l) in
  let '(toQuery, d) := query_loop DISCOVERY_FANOUT d now outs in
  let '(toConnect, d) := if (length outs <? DISCOVERY_TARGET_CONNECTIONS)%nat
                         then connect_loop (DISCOVERY_TARGET_CONNECTIONS - length outs) d now outEps else ([], d) in
  (toQuery, toConnect, d, u).

(** ** The specification: edits of the table

    A known peer keeps its address and moves between states along [peer_move]; an entry appears only
    for a usable address that is neither our own nor known, while there is room; it disappears when
    its last connection does, or because its address turns out to be ours. *)

Inductive peer_move : discovery_state -> discovery_state -> Prop :=
| move_ping : peer_move NEW PINGED
| move_pong : peer_move PINGED REACHABLE
| move_timeout : peer_move PINGED UNREACHABLE
| move_connect s : peer_move s CONNECTED
| move_lost : peer_move CONNECTED REACHABLE
| move_lost_unmeasured : peer_move CONNECTED NEW.

Definition peer_evolves (p q : discovered_peer) : Prop :=
  dp_addr q = dp_addr p /\ rtc peer_move (dp_state p) (dp_state q) /\
  (0 <= dp_hop p <= DISCOVERY_MAX_HOPS -> 0 <= dp_hop q <= DISCOVERY_MAX_HOPS).

(** The edits that keep every entry. *)
Inductive disc_edit : node_discovery -> node_discovery -> Prop :=
| edit_peers d l : Forall2 peer_evolves (d_peers d) l -> disc_edit d (with_peers d l)
| edit_append d addr hop :
    Discovery_IsUsableAddr addr = true -> addr ∉ d_self d -> addr ∉ map dp_addr (d_peers d) ->
    (length (d_peers d) < DISCOVERY_MAX_KNOWN_PEERS)%nat -> 0 <= hop <= DISCOVERY_MAX_HOPS ->
    disc_edit d (with_peers d (d_peers d ++ [new_peer addr hop]))
| edit_attempt d addr now : disc_edit d (Discovery_NoteConnectAttempt d addr now).

#[export] Instance peer_evolves_refl : Reflexive peer_evolves.
Proof. intros p. split; [done|]. split; [apply rtc_refl|done]. Qed.

#[export] Instance peer_evolves_trans : Transitive peer_evolves.
Proof.
  intros p q r (A1 & S1 & H1) (A2 & S2 & H2). split; [congruence|]. split; [by etrans|auto].
Qed.

(** ** Lookups *)

Lemma existsb_addr a l : existsb (fun self => Discovery_AddrEqual self a) l = true <-> a ∈ l.
Proof.
  rewrite existsb_exists. unfold Discovery_AddrEqual. split.
  - intros (x & Hx & ->%EndpointEqual_true). by apply list_elem_of_In.
  - intros H. exists a. split; [by apply list_elem_of_In|]. by apply EndpointEqual_true.
Qed.

Lemma IsSelf_spec d a : Discovery_IsSelfUnlocked d a = true <-> a ∈ d_self d.
Proof. apply existsb_addr. Qed.

Lemma FindPtr_Some d a i : Discovery_FindPtr d a = Some i -> exists p, d_peers d !! i = Some p /\ dp_addr p = a.
Proof.
  intros E. apply first_index_Some in E as (j & p & -> & Hj & Hp). exists p. split; [done|]. by apply EndpointEqual_true.
Qed.

Lemma FindPtr_None d a : Discovery_FindPtr d a = None <-> a ∉ map dp_addr (d_peers d).
Proof.
  unfold Discovery_FindPtr. split.
  - intros E Hin. apply list_elem_of_fmap in Hin as (p & -> & Hp). apply (first_index_None _ _ _ p) in E; [|done].
    by apply EndpointEqual_false in E.
  - intros Hn. destruct (first_index _ 0 (d_peers d)) as [i|] eqn:E; [|done].
    apply first_index_Some in E as (j & p & -> & Hj & Hp%EndpointEqual_true). destruct Hn. rewrite <- Hp.
    apply list_elem_of_fmap. exists p. split; [done|]. by eapply list_elem_of_lookup_2.
Qed.

(** ** In-place changes *)

Lemma evolves_alter f i l : (forall p, peer_evolves p (f p)) -> Forall2 peer_evolves l (alter f i l).
Proof.
  intros Hf. revert i; induction l as [|p l IH]; intros [|i]; [constructor..| |].
  - constructor; [apply Hf|reflexivity].
  - constructor; [done|apply IH].
Qed.

Lemma on_peer_edit f i d : (forall p, peer_evolves p (f p)) -> disc_edit d (on_peer f i d).
Proof. intros Hf. apply edit_peers. by apply evolves_alter. Qed.

Lemma map_edit f d : (forall p, peer_evolves p (f p)) -> disc_edit d (with_peers d (map f (d_peers d))).
Proof. intros Hf. apply edit_peers. induction (d_peers d) as [|p l IH]; constructor; auto. Qed.

Create HintDb disc.

Lemma evolves_same_state p q : dp_addr q = dp_addr p -> dp_state q = dp_state p -> dp_hop q = dp_hop p -> peer_evolves p q.
Proof. intros E1 E2 E3. split; [done|]. rewrite E2, E3. split; [apply rtc_refl|done]. Qed.

Lemma set_hop_evolves h p : 0 <= h <= DISCOVERY_MAX_HOPS -> peer_evolves p (set_hop h p).
Proof. intros H. split; [done|]. split; [apply rtc_refl|done]. Qed.

Lemma move_evolves p q : dp_addr q = dp_addr p -> peer_move (dp_state p) (dp_state q) -> dp_hop q = dp_hop p -> peer_evolves p q.
Proof. intros E1 E2 E3. split; [done|]. rewrite E3. split; [by apply rtc_once|done]. Qed.
#[export] Hint Resolve evolves_same_state set_hop_evolves move_evolves rtc_once on_peer_edit map_edit edit_attempt : disc.
#[export] Hint Constructors peer_move : disc.

(** ** Every operation is a sequence of edits *)

Lemma Upsert_edits d addr hop :
  0 <= hop <= DISCOVERY_MAX_HOPS -> rtc disc_edit d (snd (Discovery_Upsert d addr hop)).
Proof.
  intros Hh. unfold Discovery_Upsert. destruct (Discovery_IsUsableAddr addr) eqn:Eu; cbn [negb]; [|apply rtc_refl].
  destruct (Discovery_IsSelfUnlocked d addr) eqn:Es; [apply rtc_refl|].
  destruct (Discovery_FindPtr d addr) as [i|] eqn:Ef; cbn [snd].
  - apply rtc_once, on_peer_edit. intros p. destruct (hop <? dp_hop p); auto with disc.
  - destruct (Nat.leb_spec DISCOVERY_MAX_KNOWN_PEERS (length (d_peers d))); [apply rtc_refl|]. apply rtc_once, edit_append; try done.
    + intros Hin. apply IsSelf_spec in Hin. congruence.
    + by apply FindPtr_None.
Qed.

(** An update of the entry an upsert returns. *)
Lemma Upsert_then d addr hop f :
  0 <= hop <= DISCOVERY_MAX_HOPS -> (forall p, peer_evolves p (f p)) ->
  rtc disc_edit d (match Discovery_Upsert d addr hop with (Some i, d) => on_peer f i d | (None, d) => d end).
Proof.
  intros Hh Hf. pose proof (Upsert_edits d addr hop Hh) as H. destruct (Discovery_Upsert d addr hop) as [[i|] d']; [|done].
  eapply rtc_r; [exact H|]. by apply on_peer_edit.
Qed.

Lemma NoteIdentity_edits d localNodeId endpoint nodeId :
  nodeId <> localNodeId -> rtc disc_edit d (NodeDiscovery_NoteIdentity d localNodeId endpoint nodeId).
Proof.
  intros Hne. unfold NodeDiscovery_NoteIdentity. destruct (nodeId =? 0); [apply rtc_refl|]. rewrite (proj2 (Z.eqb_neq _ _) Hne).
  apply Upsert_then; [unfold DISCOVERY_MAX_HOPS; lia|]. intros p. by apply evolves_same_state.
Qed.

Lemma OnPong_edits d from rtt : rtc disc_edit d (NodeDiscovery_OnPong d from rtt).
Proof.
  unfold NodeDiscovery_OnPong. destruct (Discovery_FindPtr d from); [|apply rtc_refl]. apply rtc_once, on_peer_edit. intros p.
  destruct (dp_pingPending p); [|reflexivity]. case_bool_decide as E; [|by apply evolves_same_state]. apply move_evolves; try done. rewrite E. constructor.
Qed.

Lemma OnPingTimeout_edits d dest : rtc disc_edit d (NodeDiscovery_OnPingTimeout d dest).
Proof.
  unfold NodeDiscovery_OnPingTimeout. destruct (Discovery_FindPtr d dest); [|apply rtc_refl]. apply rtc_once, on_peer_edit. intros p.
  destruct (dp_pingPending p); [|reflexivity]. case_bool_decide as E; [|by apply evolves_same_state]. apply move_evolves; try done. rewrite E. constructor.
Qed.

Lemma fold_entries_edits c d i payload newHop added :
  0 <= newHop <= DISCOVERY_MAX_HOPS -> rtc disc_edit d (fold_entries d i c payload newHop added).
Proof.
  intros Hh. revert d i added; induction c as [|c IH]; intros d i added; cbn [fold_entries]; [apply rtc_refl|].
  destruct (_ <=? added)%nat; [apply rtc_refl|]. destruct (Discovery_WireToAddr _) as [ep|]; [|apply IH].
  destruct (Discovery_FindPtr d ep); [apply IH|]. pose proof (Upsert_edits d ep newHop Hh) as H.
  destruct (Discovery_Upsert d ep newHop) as [[k|] d']; (etrans; [exact H|apply IH]).
Qed.

Lemma OnPeersReceived_edits d from payload : rtc disc_edit d (NodeDiscovery_OnPeersReceived d from payload).
Proof.
  unfold NodeDiscovery_OnPeersReceived. destruct (_ <? 2)%nat; [apply rtc_refl|]. destruct (_ <? _); [apply rtc_refl|].
  cbv zeta. destruct (_ <=? DISCOVERY_MAX_HOPS) eqn:Hh; [|apply rtc_refl].
  apply fold_entries_edits. split; [|by apply Z.leb_le]. unfold u32. apply Z.mod_pos_bound. lia.
Qed.

Lemma seed_edits d outEps : rtc disc_edit d (seed_connected d outEps).
Proof.
  unfold seed_connected. revert d; induction outEps as [|e r IH]; intros d; cbn [fold_left]; [apply rtc_refl|].
  etrans; [|apply IH]. apply Upsert_then; [unfold DISCOVERY_MAX_HOPS; lia|]. intros p.
  trans (set_state CONNECTED (set_hop 0 p)); [|destruct (e.2 =? 0); [reflexivity|by apply evolves_same_state]].
  trans (set_hop 0 p); [apply set_hop_evolves; unfold DISCOVERY_MAX_HOPS; lia|]. apply move_evolves; [done|constructor|done].
Qed.

Lemma demote_evolves outEps p : peer_evolves p (demote outEps p).
Proof.
  unfold demote. case_bool_decide as E; cbn [andb]; [|reflexivity]. destruct (negb _); [|reflexivity].
  apply move_evolves; [done| |done]. rewrite E. cbn [dp_state set_state]. destruct (_ =? _); constructor.
Qed.

Lemma backstop_evolves now p : peer_evolves p (backstop now p).
Proof.
  unfold backstop. case_bool_decide as E; cbn [andb]; [|reflexivity]. destruct (_ && _); [|reflexivity].
  apply move_evolves; [done| |done]. rewrite E. constructor.
Qed.

Lemma ping_loop_evolves l k now nonces u : Forall2 peer_evolves l (fst (ping_loop l k now nonces u)).
Proof.
  revert k u; induction l as [|p r IH]; intros k u; cbn [ping_loop]; [constructor|]. destruct (_ <=? k)%nat; [reflexivity|].
  destruct (should_ping now p) eqn:Es.
  - specialize (IH (S k) (snd (UdpNode_SendPing u (dp_addr p) (nonces k) now))). destruct (ping_loop r _ _ _ _). constructor; [|done].
    unfold pinged. case_bool_decide as E; [|by apply evolves_same_state]. apply move_evolves; [done|rewrite E; constructor|done].
  - specialize (IH k u). destruct (ping_loop r _ _ _ _). by constructor.
Qed.

Lemma query_edits n d now outs : rtc disc_edit d (snd (query_loop n d now outs)).
Proof.
  revert d; induction n as [|n IH]; intros d; cbn [query_loop]; [apply rtc_refl|].
  destruct (pick_query _ _ _ _ _) as [[p i]|]; [|apply rtc_refl]. specialize (IH (on_peer (set_query now) i d)).
  destruct (query_loop n _ _ _) as [ps d']. eapply rtc_l; [|exact IH]. apply on_peer_edit. intros q. by apply evolves_same_state.
Qed.

Lemma connect_edits n d now outEps : rtc disc_edit d (snd (connect_loop n d now outEps)).
Proof.
  revert d; induction n as [|n IH]; intros d; cbn [connect_loop]; [apply rtc_refl|].
  destruct (pick_connect _ _ _ _ _) as [b|]; [|apply rtc_refl]. specialize (IH (Discovery_NoteConnectAttempt d (dp_addr b) now)).
  destruct (connect_loop n _ _ _) as [l d']. eapply rtc_l; [apply edit_attempt|exact IH].
Qed.

Lemma tick_edits d u outs now nonces : rtc disc_edit d (snd (fst (discovery_tick d u outs now nonces))).
Proof.
  unfold discovery_tick. set (outEps := out_endpoints outs). etrans; [apply (seed_edits d outEps)|].
  set (d1 := seed_connected d outEps). eapply rtc_l; [apply (map_edit (demote outEps)), demote_evolves|].
  set (d2 := with_peers d1 _). pose proof (ping_loop_evolves (d_peers d2) 0 now nonces u) as Hp.
  destruct (ping_loop (d_peers d2) 0 now nonces u) as [l u']. cbn [fst] in Hp. eapply rtc_l; [apply (edit_peers d2 l Hp)|].
  eapply rtc_l; [apply (map_edit (backstop now)), backstop_evolves|]. set (d4 := with_peers (with_peers d2 l) _).
  change (with_peers d2 (map (backstop now) l)) with d4.
  pose proof (query_edits DISCOVERY_FANOUT d4 now outs) as Hq. destruct (query_loop DISCOVERY_FANOUT d4 now outs) as [q d5]. cbn [snd] in Hq.
  etrans; [exact Hq|]. destruct (_ <? _)%nat; [|apply rtc_refl].
  pose proof (connect_edits (DISCOVERY_TARGET_CONNECTIONS - length outs) d5 now outEps) as Hc.
  destruct (connect_loop _ d5 now outEps) as [cs d6]. exact Hc.
Qed.

(** ** The invariant *)

Definition disc_ok (d : node_discovery) : Prop :=
  (length (d_peers d) <= DISCOVERY_MAX_KNOWN_PEERS)%nat /\
  NoDup (map dp_addr (d_peers d)) /\
  Forall (fun p => Discovery_IsUsableAddr (dp_addr p) = true /\ (dp_addr p ∉ d_self d) /\ 0 <= dp_hop p <= DISCOVERY_MAX_HOPS) (d_peers d) /\
  NoDup (d_self d) /\
  (length (d_attempts d) <= DISCOVERY_MAX_KNOWN_PEERS)%nat /\ NoDup (map at_addr (d_attempts d)).

Lemma evolves_addrs l l' : Forall2 peer_evolves l l' -> map dp_addr l' = map dp_addr l.
Proof. induction 1 as [|p q l l' (E & _) _ IH]; [done|]. cbn [map]. by rewrite E, IH. Qed.

Lemma remove_sublist d a : d_peers (Discovery_RemoveUnlocked d a) `sublist_of` d_peers d.
Proof. unfold Discovery_RemoveUnlocked. destruct (Discovery_FindPtr d a); [apply delete_sublist|done]. Qed.

(** After a removal the address is gone. *)
Lemma remove_gone d a : NoDup (map dp_addr (d_peers d)) -> a ∉ map dp_addr (d_peers (Discovery_RemoveUnlocked d a)).
Proof.
  intros Hnd. unfold Discovery_RemoveUnlocked. destruct (Discovery_FindPtr d a) as [i|] eqn:E; [|by apply FindPtr_None].
  apply FindPtr_Some in E as (p & Hi & <-). cbn [with_peers d_peers]. rewrite <- (take_drop_middle _ _ _ Hi) in Hnd at 1.
  rewrite delete_take_drop, map_app. rewrite map_app in Hnd. cbn [map] in Hnd. apply list.NoDup_app in Hnd as (_ & H1 & H2).
  apply list.NoDup_cons in H2 as [H2 _]. rewrite elem_of_app. intros [H|H]; [|done]. apply (H1 _ H). apply list_elem_of_here.
Qed.

Lemma disc_ok_sublist d l : l `sublist_of` d_peers d -> disc_ok d -> disc_ok (with_peers d l).
Proof.
  intros Hs (H1 & H2 & H3 & H4 & H5 & H6). split; [apply sublist_length in Hs; cbn; lia|].
  split; [eapply sublist_NoDup; [exact H2|by apply (fmap_sublist dp_addr)]|]. split; [by eapply sublist_forall|done].
Qed.

Lemma remove_with d a : Discovery_RemoveUnlocked d a = with_peers d (d_peers (Discovery_RemoveUnlocked d a)).
Proof. unfold Discovery_RemoveUnlocked. destruct (Discovery_FindPtr d a); [done|by destruct d]. Qed.

Lemma attempt_ok d addr now : disc_ok d -> disc_ok (Discovery_NoteConnectAttempt d addr now).
Proof.
  intros (H1 & H2 & H3 & H4 & H5 & H6). (do 4 (split; [done|])). unfold Discovery_NoteConnectAttempt. cbn [d_attempts].
  destruct (first_index _ 0 (d_attempts d)) as [i|] eqn:E.
  - rewrite length_alter. split; [done|].
    assert (Ea : map at_addr (alter (fun a => mkAttempt (at_addr a) now) i (d_attempts d)) = map at_addr (d_attempts d)); [|by rewrite Ea].
    clear. revert i; induction (d_attempts d) as [|a l IH]; intros [|i]; [done..|]. cbn [map]. by rewrite <- (IH i).
  - assert (Hnew : addr ∉ map at_addr (d_attempts d)).
    { intros Hin. apply list_elem_of_fmap in Hin as (a & -> & Ha). apply (first_index_None _ _ _ a) in E; [|done]. by apply EndpointEqual_false in E. }
    destruct (Nat.leb_spec DISCOVERY_MAX_KNOWN_PEERS (length (d_attempts d))) as [Hfull|Hroom].
    + rewrite length_insert. split; [done|]. generalize (stalest 0 (d_attempts d) 0 UINT64_MAX). intros k.
      rewrite list_fmap_insert. cbn [at_addr]. apply NoDup_insert_fresh; done.
    + rewrite length_app. cbn [length]. split; [lia|]. rewrite map_app. by apply NoDup_snoc.
Qed.

Lemma remove_disc_ok d addr : disc_ok d -> disc_ok (Discovery_RemoveUnlocked d addr).
Proof. intros H. rewrite remove_with. by apply disc_ok_sublist; [apply remove_sublist|]. Qed.

Lemma self_ok d addr : disc_ok d -> disc_ok (Discovery_RemoveUnlocked (Discovery_AddSelfUnlocked d addr) addr).
Proof.
  intros Hok. pose proof Hok as (H1 & H2 & H3 & H4 & H5 & H6). unfold Discovery_AddSelfUnlocked.
  destruct (Discovery_IsSelfUnlocked d addr) eqn:Es; [by apply remove_disc_ok|].
  set (e := mkDisc (d_peers d) (d_self d ++ [addr]) (d_attempts d)).
  assert (Hnew : addr ∉ d_self d) by (intros Hin; apply IsSelf_spec in Hin; congruence).
  pose proof (remove_gone e addr H2) as Hgone. pose proof (remove_sublist e addr) as Hsub. rewrite remove_with.
  set (l := d_peers (Discovery_RemoveUnlocked e addr)) in *. cbn [e d_peers] in Hsub. unfold disc_ok. cbn [with_peers e d_peers d_self d_attempts].
  split; [apply sublist_length in Hsub; lia|]. split; [eapply sublist_NoDup; [exact H2|by apply (fmap_sublist dp_addr)]|].
  split; [|split; [by apply NoDup_snoc|done]].
  apply Forall_forall. intros p Hp%list_elem_of_In. pose proof (sublist_elem_of _ _ _ Hp Hsub) as Hp'. rewrite Forall_forall in H3.
  destruct (H3 p ltac:(by apply list_elem_of_In)) as (A & B & C). split; [done|]. split; [|done].
  rewrite elem_of_app, list_elem_of_singleton. intros [?|E]; [done|]. apply Hgone. rewrite <- E. apply list_elem_of_fmap. by exists p.
Qed.

Lemma edit_ok d d' : disc_edit d d' -> disc_ok d -> disc_ok d'.
Proof.
  intros He Hok. pose proof Hok as (H1 & H2 & H3 & H4 & H5 & H6). destruct He as [d l Hl|d addr hop Hu Hs Hn Hroom Hh|d addr now].
  - pose proof (Forall2_length Hl) as Hlen. split; [cbn; lia|]. split; [cbn; by rewrite (evolves_addrs _ _ Hl)|]. split; [|done].
    cbn [with_peers d_peers d_self]. clear -Hl H3. induction Hl as [|p q l l' (E & _ & Eh) _ IH]; [constructor|].
    apply Forall_cons_iff in H3 as [(A & B & C) H3]. constructor; [rewrite E; auto|auto].
  - split; [cbn; rewrite length_app; cbn; lia|]. cbn [with_peers d_peers d_self]. rewrite map_app. split; [|split; [|done]].
    + by apply NoDup_snoc.
    + apply Forall_app. split; [done|]. constructor; [by split|constructor].
  - by apply attempt_ok.
Qed.

Lemma edits_ok d d' : rtc disc_edit d d' -> disc_ok d -> disc_ok d'.
Proof. induction 1 as [|x y z He _ IH]; [done|]. intros H. apply IH. by eapply edit_ok. Qed.

(** ** The component as a state machine *)

Inductive discovery_step : node_discovery -> node_discovery -> Prop :=
| dstep_pong d from rtt : discovery_step d (NodeDiscovery_OnPong d from rtt)
| dstep_timeout d dest : discovery_step d (NodeDiscovery_OnPingTimeout d dest)
| dstep_peers d from payload : discovery_step d (NodeDiscovery_OnPeersReceived d from payload)
| dstep_remove d ep : discovery_step d (NodeDiscovery_RemovePeer d ep)
| dstep_identity d localNodeId ep id : discovery_step d (NodeDiscovery_NoteIdentity d localNodeId ep id)
| dstep_self d ep : discovery_step d (NodeDiscovery_MarkSelfEndpoint d ep)
| dstep_tick d u outs now nonces : discovery_step d (snd (fst (discovery_tick d u outs now nonces))).

Lemma step_edits d d' :
  discovery_step d d' -> rtc disc_edit d d' \/ exists a, d' = Discovery_RemoveUnlocked d a \/ d' = Discovery_RemoveUnlocked (Discovery_AddSelfUnlocked d a) a.
Proof.
  destruct 1 as [d from rtt|d dest|d from payload|d ep|d l ep id|d ep|d u outs now nonces];
    eauto using OnPong_edits, OnPingTimeout_edits, OnPeersReceived_edits, tick_edits.
  destruct (decide (id = l)) as [->|Hne]; [|left; by apply NoteIdentity_edits].
  unfold NodeDiscovery_NoteIdentity. rewrite Z.eqb_refl. destruct (l =? 0); [left; apply rtc_refl|eauto].
Qed.

Lemma discovery_step_ok d d' : discovery_step d d' -> disc_ok d -> disc_ok d'.
Proof.
  intros [H|(a & [E|E])]%step_edits Hok; subst; [by eapply edits_ok|by apply remove_disc_ok|by apply self_ok].
Qed.

Lemma create_ok ifaddrs port : disc_ok (NodeDiscovery_Create ifaddrs port).
Proof.
  unfold NodeDiscovery_Create, Discovery_SeedSelfEndpoints.
  assert (H : forall d, disc_ok d -> d_peers d = [] -> forall a, disc_ok (Discovery_AddSelfUnlocked d a) /\ d_peers (Discovery_AddSelfUnlocked d a) = []).
  { intros d (H1 & H2 & H3 & H4 & H5 & H6) He a. unfold Discovery_AddSelfUnlocked. destruct (Discovery_IsSelfUnlocked d a) eqn:Es; [by split|].
    split; [|done]. unfold disc_ok. cbn [d_peers d_self d_attempts]. rewrite He. split; [cbn; lia|]. split; [constructor|]. split; [constructor|].
    split; [|done]. apply NoDup_snoc; [done|]. intros Hin. apply IsSelf_spec in Hin. congruence. }
  assert (H0 : disc_ok (mkDisc [] [] []) /\ d_peers (mkDisc [] [] []) = []).
  { split; [|done]. unfold disc_ok. cbn. repeat split; try constructor; lia. }
  revert H0. generalize (mkDisc [] [] []). induction ifaddrs as [|i r IH]; intros d [Hok He]; [done|]. cbn [fold_left].
  apply IH. destruct i as [[ip p|ip p]|]; [by apply H|by apply H|done].
Qed.

(** ** The life of an entry *)

(** Entries evolve in place or are new, and none is lost. *)
Definition table_grows (l l' : list discovered_peer) : Prop :=
  (forall a, a ∈ map dp_addr l -> (a ∈ map dp_addr l')) /\
  forall q, q ∈ l' -> (exists p, (p ∈ l) /\ peer_evolves p q) \/
    ((dp_addr q ∉ map dp_addr l) /\ rtc peer_move NEW (dp_state q)).

Lemma edit_grows d d' : disc_edit d d' -> table_grows (d_peers d) (d_peers d').
Proof.
  destruct 1 as [d l Hl|d addr hop Hu Hs Hn Hroom Hh|d addr now].
  - cbn [with_peers d_peers]. split; [by rewrite (evolves_addrs _ _ Hl)|]. intros q Hq. left. clear -Hl Hq.
    induction Hl as [|p q' l l' He _ IH]; [by apply not_elem_of_nil in Hq|]. apply elem_of_cons in Hq as [->|Hq].
    + exists p. split; [apply list_elem_of_here|done].
    + destruct (IH Hq) as (p' & Hp' & He'). exists p'. split; [by apply list_elem_of_further|done].
  - cbn [with_peers d_peers]. split; [intros a Ha; rewrite map_app; apply elem_of_app; by left|].
    intros q Hq. apply elem_of_app in Hq as [Hq|Hq]; [left; by exists q|]. apply list_elem_of_singleton in Hq as ->.
    right. split; [done|apply rtc_refl].
  - split; [done|]. intros q Hq. left. by exists q.
Qed.

Lemma table_grows_trans l1 l2 l3 : table_grows l1 l2 -> table_grows l2 l3 -> table_grows l1 l3.
Proof.
  intros [A1 B1] [A2 B2]. split; [auto|]. intros q Hq. apply B2 in Hq as [(p & Hp & He)|[Hn Hm]]; [|right; by split; [auto|]].
  apply B1 in Hp as [(o & Ho & He')|[Hn Hm]]; [left; exists o; split; [done|by etrans]|]. right. destruct He as (Ea & Em & _).
  split; [congruence|by etrans].
Qed.

Lemma edits_grow d d' : rtc disc_edit d d' -> table_grows (d_peers d) (d_peers d').
Proof.
  induction 1 as [d|d e f He _ IH]; [split; [done|]; intros q Hq; left; by exists q|]. eapply table_grows_trans; [by apply edit_grows|done].
Qed.

(** ** Dialling *)

Lemma pick_connect_spec d now outEps l best :
  (forall b, best = Some b -> dialable d now outEps b = true) ->
  match pick_connect d now outEps l best with
  | Some b => dialable d now outEps b = true /\ (b ∈ l \/ best = Some b) /\
              (forall p, p ∈ l -> dialable d now outEps p = true -> dp_pingMs b <= dp_pingMs p) /\
              (forall c, best = Some c -> dp_pingMs b <= dp_pingMs c)
  | None => best = None /\ (forall p, p ∈ l -> dialable d now outEps p = false)
  end.
Proof.
  revert best; induction l as [|p r IH]; intros best Hb; cbn [pick_connect].
  { destruct best as [b|]; [|split; [done|intros p Hp; by apply not_elem_of_nil in Hp]].
    split; [by apply Hb|]. split; [by right|]. split; [intros p Hp; by apply not_elem_of_nil in Hp|]. intros c [= ->]. lia. }
  destruct (dialable d now outEps p) eqn:Ep.
  - set (best' := match best with Some b => if dp_pingMs p <? dp_pingMs b then Some p else best | None => Some p end).
    assert (E : match best with
                | Some b => if dp_pingMs p <? dp_pingMs b then pick_connect d now outEps r (Some p) else pick_connect d now outEps r best
                | None => pick_connect d now outEps r (Some p) end = pick_connect d now outEps r best')
      by (unfold best'; destruct best as [b|]; [|done]; by destruct (_ <? _)). rewrite E. clear E.
    assert (Hb' : forall b, best' = Some b -> dialable d now outEps b = true /\ (b = p \/ best = Some b) /\ dp_pingMs b <= dp_pingMs p /\
                    (forall c, best = Some c -> dp_pingMs b <= dp_pingMs c)).
    { unfold best'. destruct best as [b0|]; [destruct (Z.ltb_spec (dp_pingMs p) (dp_pingMs b0))|]; intros b [= <-].
      - split; [done|]. split; [by left|]. split; [lia|]. intros c [= <-]. lia.
      - split; [by apply Hb|]. split; [by right|]. split; [lia|]. intros c [= <-]. lia.
      - split; [done|]. split; [by left|]. split; [lia|done]. }
    assert (Hsome : best' <> None) by (unfold best'; destruct best; [destruct (_ <? _)|]; done).
    specialize (IH best' ltac:(intros b Eb; by apply Hb')). destruct (pick_connect d now outEps r best') as [b|]; [|by destruct IH].
    destruct IH as (H1 & H2 & H3 & H4). destruct best' as [b'|] eqn:Eb'; [|done].
    destruct (Hb' b' eq_refl) as (_ & Hwho & Hp & Hc). specialize (H4 b' eq_refl). split; [done|]. split; [|split].
    + destruct H2 as [H2|[= ->]]; [left; by apply list_elem_of_further|]. destruct Hwho as [E|E]; [left; rewrite E; apply list_elem_of_here|by right].
    + intros q Hq Hd. apply elem_of_cons in Hq as [->|Hq]; [lia|by apply H3].
    + intros c Ec. specialize (Hc c Ec). lia.
  - specialize (IH best Hb). destruct (pick_connect d now outEps r best) as [b|].
    + destruct IH as (H1 & H2 & H3 & H4). split; [done|]. split; [destruct H2; [left; by apply list_elem_of_further|by right]|].
      split; [|done]. intros q Hq Hd. apply elem_of_cons in Hq as [->|Hq]; [congruence|by apply H3].
    + destruct IH as [H1 H2]. split; [done|]. intros q Hq. apply elem_of_cons in Hq as [->|Hq]; [done|by apply H2].
Qed.

(** The cool-down test reads the one stamp of the address. *)
Lemma cooled_stamp d a ms now :
  NoDup (map at_addr (d_attempts d)) -> mkAttempt a ms ∈ d_attempts d ->
  Discovery_ConnectCooledDown d a now = (DISCOVERY_CONNECT_RETRY_MS <=? now -u64 ms).
Proof.
  intros Hnd Hin. unfold Discovery_ConnectCooledDown. destruct (first_index _ 0 (d_attempts d)) as [i|] eqn:E.
  - apply first_index_Some in E as (j & x & -> & Hj & Hx%EndpointEqual_true). cbn [plus]. rewrite Hj.
    apply list_elem_of_lookup in Hin as [k Hk]. assert (j = k) as ->.
    { apply (NoDup_lookup (map at_addr (d_attempts d)) j k a Hnd); rewrite list_lookup_fmap; [rewrite Hj|rewrite Hk]; cbn; by rewrite ?Hx. }
    rewrite Hk in Hj. by injection Hj as <-.
  - apply (first_index_None _ _ _ (mkAttempt a ms)) in E; [|done]. by apply EndpointEqual_false in E.
Qed.

Lemma cooled_never d a now : a ∉ map at_addr (d_attempts d) -> Discovery_ConnectCooledDown d a now = true.
Proof.
  intros Hn. unfold Discovery_ConnectCooledDown. destruct (first_index _ 0 (d_attempts d)) as [i|] eqn:E; [|done].
  apply first_index_Some in E as (j & x & -> & Hj & Hx%EndpointEqual_true). destruct Hn. apply list_elem_of_fmap. exists x.
  split; [done|]. by eapply list_elem_of_lookup_2.
Qed.

(** With room, noting an attempt stamps that address and no other. *)
Lemma note_attempt d a now :
  (length (d_attempts d) < DISCOVERY_MAX_KNOWN_PEERS)%nat -> NoDup (map at_addr (d_attempts d)) ->
  mkAttempt a now ∈ d_attempts (Discovery_NoteConnectAttempt d a now) /\
  (forall b ms, b <> a -> mkAttempt b ms ∈ d_attempts (Discovery_NoteConnectAttempt d a now) <-> mkAttempt b ms ∈ d_attempts d) /\
  (length (d_attempts (Discovery_NoteConnectAttempt d a now)) <= S (length (d_attempts d)))%nat.
Proof.
  intros Hroom Hnd. unfold Discovery_NoteConnectAttempt. cbn [d_attempts].
  destruct (first_index _ 0 (d_attempts d)) as [i|] eqn:E.
  - apply first_index_Some in E as (j & x & -> & Hj & Hx%EndpointEqual_true). cbn [plus].
    assert (Hlk : alter (fun a => mkAttempt (at_addr a) now) j (d_attempts d) !! j = Some (mkAttempt a now))
      by (rewrite list_lookup_alter_eq, Hj; cbn; by rewrite Hx).
    split; [by eapply list_elem_of_lookup_2|]. split; [|rewrite length_alter; lia]. intros b ms Hb.
    rewrite !list_elem_of_lookup. split; intros [k Hk].
    + rewrite list_lookup_alter in Hk. case_decide as Hd; [|by exists k]. rewrite Hj in Hk. cbn in Hk. injection Hk as Hk _. congruence.
    + exists k. rewrite list_lookup_alter_ne; [done|]. intros ->. rewrite Hj in Hk. injection Hk as ->. done.
  - rewrite (proj2 (Nat.leb_gt _ _)) by lia. rewrite length_app. cbn [length]. split; [apply elem_of_app; right; by apply list_elem_of_singleton|].
    split; [|lia]. intros b ms Hb. rewrite elem_of_app, list_elem_of_singleton. split; [intros [H|[= -> _]]; done|by left].
Qed.

Lemma cooled_other d a b now now' :
  (length (d_attempts d) < DISCOVERY_MAX_KNOWN_PEERS)%nat -> disc_ok d -> b <> a ->
  Discovery_ConnectCooledDown (Discovery_NoteConnectAttempt d a now) b now' = Discovery_ConnectCooledDown d b now'.
Proof.
  intros Hroom Hok Hne. pose proof Hok as (_ & _ & _ & _ & _ & Hnd). pose proof (attempt_ok d a now Hok) as (_ & _ & _ & _ & _ & Hnd').
  destruct (note_attempt d a now Hroom Hnd) as (_ & H & _). set (e := Discovery_NoteConnectAttempt d a now) in *.
  destruct (decide (b ∈ map at_addr (d_attempts d))) as [Hin|Hout].
  - apply list_elem_of_fmap in Hin as ([c ms] & -> & Hc). cbn [at_addr] in *. rewrite (cooled_stamp d c ms) by done.
    apply cooled_stamp; [done|]. by apply H.
  - rewrite (cooled_never d) by done. apply cooled_never. intros Hin. apply list_elem_of_fmap in Hin as ([c ms] & -> & Hc).
    apply Hout, list_elem_of_fmap. exists (mkAttempt c ms). split; [done|]. by apply H.
Qed.

Lemma usable_port a : Discovery_IsUsableAddr a = true -> sa_port a <> 0.
Proof. destruct a as [ip p|ip p]; cbn; destruct (Z.eqb_spec p 0); done. Qed.

Lemma dialable_cooled d now outEps p : dialable d now outEps p = true -> Discovery_ConnectCooledDown d (dp_addr p) now = true.
Proof. unfold dialable. by intros [[_ H]%andb_true_iff _]%andb_true_iff. Qed.

(** The test depends on the dial history only through the cool-down. *)
Lemma dialable_eq d e now outEps p :
  Discovery_ConnectCooledDown d (dp_addr p) now = Discovery_ConnectCooledDown e (dp_addr p) now ->
  dialable d now outEps p = dialable e now outEps p.
Proof. unfold dialable. by intros ->. Qed.

Lemma connect_loop_spec n d now outEps :
  disc_ok d -> (length (d_attempts d) + n <= DISCOVERY_MAX_KNOWN_PEERS)%nat -> is_u64 now ->
  let '(l, d') := connect_loop n d now outEps in
  (length l <= n)%nat /\ NoDup l /\
  (forall a, a ∈ l -> exists p, (p ∈ d_peers d) /\ dp_addr p = a /\ dialable d now outEps p = true) /\
  (length l = n \/ forall p, p ∈ d_peers d -> dialable d' now outEps p = false) /\
  d_peers d' = d_peers d /\ d_self d' = d_self d /\
  (forall a now', a ∈ l -> is_u64 now' -> now <= now' < now + DISCOVERY_CONNECT_RETRY_MS -> Discovery_ConnectCooledDown d' a now' = false) /\
  (forall a now', a ∉ l -> Discovery_ConnectCooledDown d' a now' = Discovery_ConnectCooledDown d a now').
Proof.
  revert d; induction n as [|n IH]; intros d Hok Hroom Hnow; cbn [connect_loop].
  { split; [done|]. split; [constructor|]. split; [intros a Ha; by apply not_elem_of_nil in Ha|]. split; [by left|].
    split; [done|]. split; [done|]. split; [intros a ? Ha; by apply not_elem_of_nil in Ha|done]. }
  pose proof (pick_connect_spec d now outEps (d_peers d) None ltac:(done)) as Hpick.
  destruct (pick_connect d now outEps (d_peers d) None) as [b|].
  2: { destruct Hpick as [_ Hnone]. split; [cbn; lia|]. split; [constructor|]. split; [intros a Ha; by apply not_elem_of_nil in Ha|].
       split; [by right|]. split; [done|]. split; [done|]. split; [intros a ? Ha; by apply not_elem_of_nil in Ha|done]. }
  destruct Hpick as (Hdial & [Hb|?] & _); [|done]. pose proof Hok as (_ & _ & Hpeers & _ & _ & Hnd).
  assert (Hbp : sa_port (dp_addr b) <> 0).
  { apply usable_port. rewrite Forall_forall in Hpeers. apply Hpeers. by apply list_elem_of_In. }
  destruct (note_attempt d (dp_addr b) now ltac:(lia) Hnd) as (Hstamp & _ & Hlen).
  pose proof (attempt_ok d (dp_addr b) now Hok) as Hok1. pose proof (cooled_other d (dp_addr b)) as Hother.
  set (d1 := Discovery_NoteConnectAttempt d (dp_addr b) now) in *.
  pose proof Hok1 as (_ & _ & _ & _ & _ & Hnd1).
  assert (Hhot : forall now', is_u64 now' -> now <= now' < now + DISCOVERY_CONNECT_RETRY_MS -> Discovery_ConnectCooledDown d1 (dp_addr b) now' = false).
  { intros now' Hu Hn. rewrite (cooled_stamp d1 _ now) by done. rewrite u64_small by (unfold_cint; lia). apply Z.leb_gt. lia. }
  specialize (IH d1 Hok1 ltac:(lia) Hnow). destruct (connect_loop n d1 now outEps) as [l d'].
  destruct IH as (I1 & I2 & I3 & I4 & I5 & I6 & I7 & I8). rewrite (proj2 (Z.eqb_neq _ _) Hbp).
  assert (Hbl : dp_addr b ∉ l).
  { intros Hin. destruct (I3 _ Hin) as (p & _ & Ep & Hd). apply dialable_cooled in Hd. rewrite Ep in Hd.
    rewrite Hhot in Hd; [done|done|unfold DISCOVERY_CONNECT_RETRY_MS; lia]. }
  split; [cbn [length]; lia|]. split; [by constructor|]. split; [|split; [|split; [done|split; [done|split]]]].
  - intros a Ha. apply elem_of_cons in Ha as [->|Ha]; [by exists b|]. destruct (I3 a Ha) as (p & Hp & Ep & Hd). exists p. split; [done|]. split; [done|].
    rewrite <- (dialable_eq d1); [done|]. apply (Hother _ now); [lia|done|]. intros E. apply Hbl. by rewrite <- E, Ep.
  - destruct I4 as [I4|I4]; [left; cbn [length]; lia|right; exact I4].
  - intros a now' Ha Hu Hn. apply elem_of_cons in Ha as [->|Ha]; [|by apply I7]. rewrite I8 by done. by apply Hhot.
  - intros a now' Ha. apply not_elem_of_cons in Ha as [Hne Ha]. rewrite I8 by done. apply Hother; [lia|done|done].
Qed.

(** ** The wire *)

(** A well-formed endpoint: an address of its family's length, not an IPv4-mapped one, and a port. *)
Definition endpoint_ok (a : sockaddr) : Prop :=
  match a with
  | AF_INET ip port => bytes_n 4 ip /\ is_u16 port /\ port <> 0
  | AF_INET6 ip port => bytes_n 16 ip /\ V4MAPPED ip = false /\ is_u16 port /\ port <> 0
  end.

#[export] Instance endpoint_ok_dec a : Decision (endpoint_ok a).
Proof. destruct a; cbn; apply _. Defined.

Lemma length_AddrToWire a : endpoint_ok a -> length (Discovery_AddrToWire a) = DISCOVERY_WIRE_ENTRY_SIZE.
Proof.
  destruct a as [ip p|ip p]; intros [[L _] _]; unfold Discovery_AddrToWire; cbn [length].
  - rewrite !length_app, length_le_bytes, L. done.
  - rewrite length_app, length_le_bytes, L. done.
Qed.

Lemma wire_roundtrip a : endpoint_ok a -> Discovery_WireToAddr (Discovery_AddrToWire a) = Some a.
Proof.
  destruct a as [ip p|ip p]; cbn [endpoint_ok].
  - intros ([L _] & Hp & Hz). unfold Discovery_WireToAddr, Discovery_AddrToWire. cbn [nth Z.eqb Pos.eqb drop].
    assert (E : drop 16 (ip ++ zeros 12 ++ le_bytes 2 p) = le_bytes 2 p).
    { rewrite app_assoc. apply drop_app_length'. by rewrite length_app, L. }
    change (drop 17 (4 :: ip ++ zeros 12 ++ le_bytes 2 p)) with (drop 16 (ip ++ zeros 12 ++ le_bytes 2 p)). rewrite E.
    rewrite take_ge by (by rewrite length_le_bytes). rewrite le_val_bytes by exact Hp. rewrite (proj2 (Z.eqb_neq _ _) Hz).
    by rewrite drop_0, take_app_length'.
  - intros ([L _] & Hm & Hp & Hz). unfold Discovery_WireToAddr, Discovery_AddrToWire. cbn [nth Z.eqb Pos.eqb drop].
    change (drop 17 (6 :: ip ++ le_bytes 2 p)) with (drop 16 (ip ++ le_bytes 2 p)). rewrite (drop_app_length' ip) by done.
    rewrite take_ge by (by rewrite length_le_bytes). rewrite le_val_bytes by exact Hp. rewrite (proj2 (Z.eqb_neq _ _) Hz).
    rewrite drop_0, take_app_length' by done. cbn [Discovery_NormaliseAddr]. by rewrite Hm.
Qed.

(** The fold of a PEERS answer over its decoded endpoints. *)
Fixpoint receive_endpoints (d : node_discovery) (eps : list sockaddr) (newHop : Z) (added : nat) : node_discovery :=
  match eps with
  | [] => d
  | ep :: r =>
      if (DISCOVERY_FANOUT <=? added)%nat then d
      else match Discovery_FindPtr d ep with
      | Some _ => receive_endpoints d r newHop added
      | None =>
          match Discovery_Upsert d ep newHop with
          | (Some _, d) => receive_endpoints d r newHop (S added)
          | (None, d) => receive_endpoints d r newHop added
          end
      end
  end.

Lemma wire_entry pre a r rest :
  Forall endpoint_ok pre -> endpoint_ok a ->
  take DISCOVERY_WIRE_ENTRY_SIZE (drop (2 + length pre * DISCOVERY_WIRE_ENTRY_SIZE) (peers_payload (pre ++ a :: r) ++ rest)) = Discovery_AddrToWire a.
Proof.
  intros Hpre Ha. assert (L : length (concat (map Discovery_AddrToWire pre)) = (length pre * DISCOVERY_WIRE_ENTRY_SIZE)%nat).
  { induction Hpre as [|x l Hx _ IH]; [done|]. cbn [map concat length]. rewrite length_app, IH, length_AddrToWire by done. lia. }
  unfold peers_payload. rewrite map_app, concat_app. cbn [map concat]. rewrite <- !app_assoc.
  rewrite <- drop_drop, drop_app_length' by (by rewrite length_le_bytes). rewrite drop_app_length' by done.
  apply take_app_length'. by rewrite length_AddrToWire.
Qed.

Lemma fold_entries_payload pre eps rest d newHop added :
  Forall endpoint_ok pre -> Forall endpoint_ok eps ->
  fold_entries d (length pre) (length eps) (peers_payload (pre ++ eps) ++ rest) newHop added = receive_endpoints d eps newHop added.
Proof.
  intros Hpre Heps. revert pre d added Hpre; induction Heps as [|a r Ha _ IH]; intros pre d added Hpre; [done|].
  cbn [length fold_entries receive_endpoints]. destruct (_ <=? added)%nat; [done|]. rewrite (wire_entry pre a r rest Hpre Ha), wire_roundtrip by done.
  assert (E : pre ++ a :: r = (pre ++ [a]) ++ r) by (by rewrite <- app_assoc). rewrite E.
  assert (Hpre' : Forall endpoint_ok (pre ++ [a])) by (apply Forall_app; split; [done|by repeat constructor]).
  assert (EL : S (length pre) = length (pre ++ [a])) by (rewrite length_app; cbn; lia). rewrite EL.
  destruct (Discovery_FindPtr d a); [by apply IH|]. destruct (Discovery_Upsert d a newHop) as [[k|] d']; by apply IH.
Qed.

(** At most two entries more, each for an endpoint of the answer. *)
Lemma receive_endpoints_added d eps newHop added :
  exists new, d_peers (receive_endpoints d eps newHop added) = d_peers d ++ new /\ (length new + added <= DISCOVERY_FANOUT `max` added)%nat /\
    Forall (fun p => (dp_addr p ∈ eps) /\ p = new_peer (dp_addr p) newHop) new.
Proof.
  revert d added; induction eps as [|ep r IH]; intros d added; cbn [receive_endpoints].
  { exists []. rewrite app_nil_r. split; [done|]. split; [cbn; lia|constructor]. }
  destruct (Nat.leb_spec DISCOVERY_FANOUT added). { exists []. rewrite app_nil_r. split; [done|]. split; [cbn; lia|constructor]. }
  assert (Hw : forall new, Forall (fun p => (dp_addr p ∈ r) /\ p = new_peer (dp_addr p) newHop) new ->
                 Forall (fun p => (dp_addr p ∈ ep :: r) /\ p = new_peer (dp_addr p) newHop) new).
  { intros new Hn. eapply Forall_impl; [|exact Hn]. intros p [H1 H2]. split; [by apply list_elem_of_further|done]. }
  destruct (Discovery_FindPtr d ep) eqn:Ef; [destruct (IH d added) as (new & ? & ? & ?); exists new; auto|].
  unfold Discovery_Upsert. rewrite Ef. destruct (negb _); [destruct (IH d added) as (new & ? & ? & ?); exists new; auto|].
  destruct (Discovery_IsSelfUnlocked d ep); [destruct (IH d added) as (new & ? & ? & ?); exists new; auto|].
  destruct (_ <=? _)%nat; [destruct (IH d added) as (new & ? & ? & ?); exists new; auto|].
  destruct (IH (with_peers d (d_peers d ++ [new_peer ep newHop])) (S added)) as (new & E & Hl & Hn).
  exists (new_peer ep newHop :: new). cbn [with_peers d_peers] in E. rewrite E, <- app_assoc. split; [done|]. split; [cbn [length]; lia|].
  constructor; [split; [apply list_elem_of_here|done]|by apply Hw].
Qed.

Lemma length_peers_payload eps :
  Forall endpoint_ok eps -> length (peers_payload eps) = (2 + length eps * DISCOVERY_WIRE_ENTRY_SIZE)%nat.
Proof.
  intros H. unfold peers_payload. rewrite length_app, length_le_bytes. f_equal.
  induction H as [|x l Hx _ IH]; [done|]. cbn [map concat length]. rewrite length_app, IH, length_AddrToWire by done. lia.
Qed.

(** Receiving an answer is folding in its endpoints one hop further out than its sender. *)
Lemma received_payload d from eps :
  Forall endpoint_ok eps -> Z.of_nat (length eps) < 2 ^ 16 ->
  NodeDiscovery_OnPeersReceived d from (peers_payload eps) =
  if u32 (src_hop d from + 1) <=? DISCOVERY_MAX_HOPS then receive_endpoints d eps (u32 (src_hop d from + 1)) 0 else d.
Proof.
  intros Heps Hlen. unfold NodeDiscovery_OnPeersReceived. rewrite length_peers_payload by done.
  assert (Ec : le_val (take 2 (peers_payload eps)) = Z.of_nat (length eps)).
  { unfold peers_payload. rewrite take_app_length' by (by rewrite length_le_bytes). apply le_val_bytes. split; [lia|exact Hlen]. }
  rewrite Ec. rewrite (proj2 (Nat.ltb_ge _ _)) by lia. rewrite (proj2 (Z.ltb_ge _ _)) by lia. rewrite Nat2Z.id.
  destruct (_ <=? DISCOVERY_MAX_HOPS); [|done].
  pose proof (fold_entries_payload [] eps [] d (u32 (src_hop d from + 1)) 0 ltac:(constructor) Heps) as F.
  cbn [length app] in F. by rewrite app_nil_r in F.
Qed.

(** ** Answers *)

(** A connection whose addresses and ports have their widths. *)
Definition conn_typed (c : tcp_connection) : Prop :=
  match peerAddr c with AF_INET ip p => bytes_n 4 ip /\ is_u16 p | AF_INET6 ip p => bytes_n 16 ip /\ is_u16 p end /\
  is_u16 (peerListenPort c) /\ is_u64 (peerNodeId c).

#[export] Instance conn_typed_dec c : Decision (conn_typed c).
Proof. unfold conn_typed. destruct (peerAddr c); apply _. Defined.

Lemma listen_endpoint_ok c ep : conn_typed c -> Node_ConnListenEndpoint c = Some ep -> endpoint_ok ep.
Proof.
  intros (Ha & Hl & _). unfold Node_ConnListenEndpoint. set (p := match role c with INBOUND => _ | OUTBOUND => _ end).
  assert (Hp : is_u16 p) by (unfold p; destruct (role c); [done|]; destruct (peerAddr c); cbn; tauto).
  destruct (Z.eqb_spec p 0) as [|Hz]; [done|]. destruct (peerAddr c) as [ip q|ip q]; intros [= <-]; [cbn; tauto|].
  unfold normalised6. destruct Ha as [[L B] _]. destruct (V4MAPPED ip) eqn:E; [|done]. split; [|done]. split; [by rewrite length_drop, L|by apply bytes_ok_drop].
Qed.

Lemma response_loop_spec all startIdx k n req reqNodeId count :
  (count <= DISCOVERY_PEERS_RESPONSE_CAP)%nat ->
  let R := response_loop all startIdx k n req reqNodeId count in
  (length R + count <= DISCOVERY_PEERS_RESPONSE_CAP)%nat /\
  Forall (fun ep => exists id, ((ep, id) ∈ all) /\ req <> Some ep /\ (reqNodeId <> 0 -> id <> reqNodeId)) R.
Proof.
  revert k count; induction n as [|n IH]; intros k count Hc; cbn [response_loop]; [split; [cbn; lia|constructor]|].
  destruct (Nat.leb_spec DISCOVERY_PEERS_RESPONSE_CAP count); [split; [cbn; lia|constructor]|].
  destruct (all !! _) as [[ep id]|] eqn:E; [|split; [cbn; lia|constructor]]. apply list_elem_of_lookup_2 in E.
  destruct (match req with Some r => Discovery_AddrEqual ep r | None => false end) eqn:Er; [by apply IH|].
  destruct (negb (reqNodeId =? 0) && (id =? reqNodeId)) eqn:Ei; [by apply IH|].
  destruct (IH (S k) (S count) ltac:(lia)) as [H1 H2]. split; [cbn [length]; lia|]. constructor; [|done]. exists id. split; [done|]. split.
  - intros ->. by apply EndpointEqual_false in Er.
  - intros Hne ->. rewrite (proj2 (Z.eqb_neq _ _) Hne), Z.eqb_refl in Ei. done.
Qed.
