(* ===== verification/DiscoveryTheorems.v ===== *)
(** * What peer discovery guarantees

    The table invariant over every sequence of operations, the life cycle of an entry, what a tick
    dials and queries, and the peer exchange between two nodes. *)
From S2P Require Import Prelude Bytes Framing Peers UdpNode Discovery.

#[export] Instance disc_ok_dec d : Decision (disc_ok d). Proof. unfold disc_ok; apply _. Defined.

(** ** A tick *)

Lemma Upsert_attempts d a h : d_attempts (snd (Discovery_Upsert d a h)) = d_attempts d.
Proof.
  unfold Discovery_Upsert. destruct (negb _); [done|]. destruct (Discovery_IsSelfUnlocked d a); [done|].
  destruct (Discovery_FindPtr d a); [done|]. by destruct (_ <=? _)%nat.
Qed.

Lemma seed_attempts d outEps : d_attempts (seed_connected d outEps) = d_attempts d.
Proof.
  unfold seed_connected. revert d; induction outEps as [|e r IH]; intros d; [done|]. cbn [fold_left]. rewrite IH.
  pose proof (Upsert_attempts d e.1 0) as H. by destruct (Discovery_Upsert d e.1 0) as [[i|] d'].
Qed.

Lemma query_attempts n d now outs : d_attempts (snd (query_loop n d now outs)) = d_attempts d.
Proof.
  revert d; induction n as [|n IH]; intros d; [done|]. cbn [query_loop]. destruct (pick_query _ _ _ _ _) as [[p i]|]; [|done].
  specialize (IH (on_peer (set_query now) i d)). by destruct (query_loop n _ _ _).
Qed.

Lemma pick_query_In d now outs best bp p i :
  pick_query d now outs best bp = Some (p, i) -> best = Some (p, i) \/ p ∈ map fst outs.
Proof.
  revert best bp; induction outs as [|[q c] r IH]; intros best bp E; cbn [pick_query] in E; [by left|]. cbn [map fst].
  destruct (query_entry d now c) as [[j ping]|].
  - destruct (_ || _); apply IH in E as [E|E]; try (right; by apply list_elem_of_further); [|by left].
    injection E as -> ->. right. apply list_elem_of_here.
  - apply IH in E as [E|E]; [by left|]. right. by apply list_elem_of_further.
Qed.

Lemma query_loop_In n d now outs :
  (length (fst (query_loop n d now outs)) <= n)%nat /\ Forall (fun p => p ∈ map fst outs) (fst (query_loop n d now outs)).
Proof.
  revert d; induction n as [|n IH]; intros d; cbn [query_loop]; [split; [done|constructor]|].
  destruct (pick_query d now outs None UINT64_MAX) as [[p i]|] eqn:E; [|split; [cbn; lia|constructor]].
  apply pick_query_In in E as [E|E]; [done|]. destruct (IH (on_peer (set_query now) i d)) as [H1 H2].
  destruct (query_loop n _ now outs) as [ps d']. cbn [fst length] in *. split; [lia|by constructor].
Qed.

Lemma not_out outEps p : is_out outEps p = false -> dp_addr p ∉ map fst outEps.
Proof.
  intros E Hin. apply list_elem_of_fmap in Hin as (e & Ea & He). assert (is_out outEps p = true); [|congruence].
  apply existsb_exists. exists e. split; [by apply list_elem_of_In|]. by apply EndpointEqual_true.
Qed.

(** The tests a dialled entry passed. *)
Lemma dialable_spec d now outEps p :
  dialable d now outEps p = true ->
  dp_state p = REACHABLE /\ Discovery_ConnectCooledDown d (dp_addr p) now = true /\ (dp_addr p ∉ map fst outEps) /\
  (dp_nodeId p <> 0 -> dp_nodeId p ∉ map snd outEps).
Proof.
  unfold dialable. intros [[H1 H2]%andb_true_iff H3]%andb_true_iff. apply bool_decide_eq_true in H1.
  apply negb_true_iff, orb_false_iff in H3 as [H3 H4]. split; [done|]. split; [done|]. split; [by apply not_out|].
  intros Hne Hin. apply Z.eqb_neq in Hne. rewrite Hne in H4. cbn [negb andb] in H4.
  apply list_elem_of_fmap in Hin as (e & Ee & He). assert (existsb (fun e => e.2 =? dp_nodeId p) outEps = true); [|congruence].
  apply existsb_exists. exists e. split; [by apply list_elem_of_In|]. by apply Z.eqb_eq.
Qed.

(** ** Properties *)

(** C27: the peer table stays sound.  After any sequence of pongs, timeouts, received peer lists,
    disconnections, identity reports and ticks, the table holds at most 256 entries, no endpoint
    twice, only addresses that can be dialled, none of our own, none further than three hops, and
    the dial history holds at most 256 endpoints, none twice. *)
Theorem discovery_table_invariant ifaddrs port d :
  rtc discovery_step (NodeDiscovery_Create ifaddrs port) d ->
  (length (d_peers d) <= 256)%nat /\ NoDup (map dp_addr (d_peers d)) /\
  (forall p, p ∈ d_peers d -> Discovery_IsUsableAddr (dp_addr p) = true /\ NodeDiscovery_IsSelfEndpoint d (dp_addr p) = false /\ 0 <= dp_hop p <= 3) /\
  (length (d_attempts d) <= 256)%nat /\ NoDup (map at_addr (d_attempts d)).
Proof.
  intros Hr. assert (Hok : disc_ok d).
  { pose proof (create_ok ifaddrs port) as H0. revert H0. induction Hr as [|x y z Hs _ IH]; [done|]. intros Hx. apply IH. by eapply discovery_step_ok. }
  destruct Hok as (H1 & H2 & H3 & H4 & H5 & H6). split; [done|]. split; [done|]. split; [|done]. intros p Hp.
  rewrite Forall_forall in H3. destruct (H3 p ltac:(by apply list_elem_of_In)) as (A & B & C). split; [done|]. split; [|done].
  apply not_true_is_false. by intros E%IsSelf_spec.
Qed.

(** A peer list with one endpoint, as it arrives from a directly connected peer. *)
Definition gossip : bytes := peers_payload [google; AF_INET [10; 0; 0; 1] 9393].
Definition some_peer : tcp_connection := TcpConnection_Init (AF_INET [1; 1; 1; 1] 9393) OUTBOUND.
Definition learned : node_discovery := NodeDiscovery_OnPeersReceived (NodeDiscovery_Create [Some (AF_INET [10; 0; 0; 1] 0)] 9393) some_peer gossip.

Lemma discovery_table_invariant_witness :
  map dp_addr (d_peers learned) = [google] /\ NodeDiscovery_IsSelfEndpoint learned google = false.
Proof.
  split; [reflexivity|].
  destruct (discovery_table_invariant [Some (AF_INET [10; 0; 0; 1] 0)] 9393 learned) as (_ & _ & H & _); [apply rtc_once, dstep_peers|].
  apply (H (new_peer google 1)). vm_decide.
Defined.

(** The life of an entry.  Every operation leaves each known peer in the table or strikes it out,
    and what stays moves only along the life cycle: a new entry is pinged, answers or not, becomes
    connected, and falls back to reachable (or new, when its latency was never measured) once its
    connection is gone; an entry whose ping went unanswered changes only by being connected.  New
    entries start as new and only for addresses not in the table. *)
Theorem peer_lifecycle d d' q :
  discovery_step d d' -> q ∈ d_peers d' ->
  (exists p, (p ∈ d_peers d) /\ dp_addr p = dp_addr q /\ rtc peer_move (dp_state p) (dp_state q)) \/
  ((dp_addr q ∉ map dp_addr (d_peers d)) /\ rtc peer_move NEW (dp_state q)).
Proof.
  intros [H|(a & [E|E])]%step_edits Hq.
  - destruct (edits_grow _ _ H) as [_ G]. destruct (G q Hq) as [(p & Hp & Ea & Em & _)|Hn]; [left; by exists p|by right].
  - subst d'. left. exists q. split; [eapply sublist_elem_of; [exact Hq|apply remove_sublist]|]. split; [done|apply rtc_refl].
  - subst d'. left. exists q. split; [|split; [done|apply rtc_refl]]. eapply sublist_elem_of; [exact Hq|].
    etrans; [apply remove_sublist|]. unfold Discovery_AddSelfUnlocked. by destruct (Discovery_IsSelfUnlocked d a).
Qed.

Lemma peer_lifecycle_witness : rtc peer_move NEW (dp_state (new_peer google 1)).
Proof.
  destruct (peer_lifecycle (NodeDiscovery_Create [Some (AF_INET [10; 0; 0; 1] 0)] 9393) learned (new_peer google 1)) as [(p & Hp & _)|[_ H]].
  - apply dstep_peers.
  - vm_decide.
  - exfalso. revert Hp. apply not_elem_of_nil.
  - exact H.
Defined.

(** What a tick dials and queries.  A tick opens at most as many connections as are missing to
    eight, each to a different endpoint that answered a ping, can be dialled, is not ours, has no
    outbound connection, belongs to no node we already have an outbound connection to, and was not
    dialled within 30 seconds; it will not be dialled again for 30 seconds.  At most two of the
    connected peers are asked for theirs. *)
Theorem tick_dials d u outs now nonces :
  disc_ok d -> is_u64 now -> (length (d_attempts d) + DISCOVERY_TARGET_CONNECTIONS <= DISCOVERY_MAX_KNOWN_PEERS)%nat ->
  let '(toQuery, toConnect, d', _) := discovery_tick d u outs now nonces in
  (length toConnect + length outs <= DISCOVERY_TARGET_CONNECTIONS `max` length outs)%nat /\ NoDup toConnect /\
  (forall a, a ∈ toConnect ->
     Discovery_IsUsableAddr a = true /\ (a ∉ d_self d') /\ (a ∉ map fst (out_endpoints outs)) /\
     (exists p, (p ∈ d_peers d') /\ dp_addr p = a /\ dp_state p = REACHABLE /\ (dp_nodeId p <> 0 -> dp_nodeId p ∉ map snd (out_endpoints outs))) /\
     Discovery_ConnectCooledDown d a now = true /\
     (forall now', is_u64 now' -> now <= now' < now + DISCOVERY_CONNECT_RETRY_MS -> Discovery_ConnectCooledDown d' a now' = false)) /\
  (length toQuery <= DISCOVERY_FANOUT)%nat /\ Forall (fun p => p ∈ map fst outs) toQuery.
Proof.
  intros Hok Hnow Hroom. pose proof (edits_ok _ _ (tick_edits d u outs now nonces) Hok) as Hok'. unfold discovery_tick in *.
  set (outEps := out_endpoints outs) in *. set (d1 := seed_connected d outEps) in *. set (d2 := with_peers d1 (map (demote outEps) (d_peers d1))) in *.
  pose proof (ping_loop_evolves (d_peers d2) 0 now nonces u) as Hping. destruct (ping_loop (d_peers d2) 0 now nonces u) as [l u']. cbn [fst] in Hping.
  set (d3 := with_peers d2 (map (backstop now) l)) in *. destruct (query_loop_In DISCOVERY_FANOUT d3 now outs) as [Q1 Q2].
  pose proof (query_attempts DISCOVERY_FANOUT d3 now outs) as Ea. pose proof (query_edits DISCOVERY_FANOUT d3 now outs) as Hq.
  destruct (query_loop DISCOVERY_FANOUT d3 now outs) as [toQuery d4]. cbn [fst snd] in *.
  assert (Eatt : d_attempts d4 = d_attempts d) by (rewrite Ea; apply (seed_attempts d outEps)).
  assert (Hok4 : disc_ok d4).
  { eapply edits_ok; [|exact Hok]. etrans; [apply (seed_edits d outEps)|]. eapply rtc_l; [apply (map_edit (demote outEps)), demote_evolves|].
    eapply rtc_l; [apply (edit_peers _ l Hping)|]. eapply rtc_l; [apply (map_edit (backstop now)), backstop_evolves|exact Hq]. }
  destruct (Nat.ltb_spec (length outs) DISCOVERY_TARGET_CONNECTIONS) as [Hlt|Hge].
  2: { split; [cbn [length]; lia|]. split; [constructor|]. split; [intros a Ha; by apply not_elem_of_nil in Ha|done]. }
  pose proof (connect_loop_spec (DISCOVERY_TARGET_CONNECTIONS - length outs) d4 now outEps Hok4 ltac:(rewrite Eatt; lia) Hnow) as C.
  destruct (connect_loop _ d4 now outEps) as [toConnect d5]. destruct C as (C1 & C2 & C3 & _ & C5 & C6 & C7 & _).
  split; [lia|]. split; [done|]. split; [|done]. intros a Ha. destruct (C3 a Ha) as (p & Hp & <- & Hd).
  apply dialable_spec in Hd as (D1 & D2 & D3 & D4). pose proof Hok4 as (_ & _ & Hpeers & _). rewrite Forall_forall in Hpeers.
  destruct (Hpeers p ltac:(by apply list_elem_of_In)) as (A & B & _).
  split; [done|]. split; [by rewrite C6|]. split; [done|]. split; [exists p; by rewrite C5|]. split; [|intros now' Hu Hn; by apply C7].
  unfold Discovery_ConnectCooledDown in *. by rewrite Eatt in D2.
Qed.

(** An endpoint that answered, and one that is waiting for its first ping. *)
Definition reachable_table : node_discovery :=
  mkDisc [mkPeer google 20 0 1 REACHABLE false 1000 0; new_peer (AF_INET [9; 9; 9; 9] 9393) 2] [AF_INET [10; 0; 0; 1] 9393] [].

Lemma tick_dials_witness :
  snd (fst (fst (discovery_tick reachable_table (UdpNode_Init true true) [] 5000 Z.of_nat))) = [google] /\
  Discovery_IsUsableAddr google = true.
Proof.
  pose proof (tick_dials reachable_table (UdpNode_Init true true) [] 5000 Z.of_nat ltac:(vm_decide) ltac:(vm_decide) ltac:(vm_compute; lia)) as H.
  destruct (discovery_tick reachable_table (UdpNode_Init true true) [] 5000 Z.of_nat) as [[[q c] d'] u'] eqn:E.
  assert (c = [google]) as -> by (vm_compute in E; by injection E). cbn [fst snd]. split; [reflexivity|]. apply H. vm_decide.
Defined.

(** Peers exchange what they are connected to.  The answer to a peer request names at most eight
    listen endpoints of live connections, never the requester's own endpoint nor another address of
    the requester's node; the requester, decoding it, adds at most two entries for endpoints it did
    not know, one hop further away than the peer that answered, and none beyond three hops. *)
Theorem peer_exchange n from random d src :
  net_ok n -> (forall pc, pc ∈ all_conns n -> conn_typed pc.2) ->
  let payload := NodeDiscovery_OnGetPeers n from random in
  exists eps new,
    payload = peers_payload eps /\ (length eps <= 8)%nat /\
    Forall (fun ep => Node_ConnListenEndpoint from <> Some ep /\
      exists pc, (pc ∈ all_conns n) /\ offers ep (peerNodeId pc.2) pc /\ (peerNodeId from <> 0 -> peerNodeId pc.2 <> peerNodeId from)) eps /\
    d_peers (NodeDiscovery_OnPeersReceived d src payload) = d_peers d ++ new /\ (length new <= 2)%nat /\
    Forall (fun p => (dp_addr p ∈ eps) /\ p = new_peer (dp_addr p) (u32 (src_hop d src + 1)) /\ u32 (src_hop d src + 1) <= 3) new.
Proof.
  intros Hok Hty payload. destruct (GetPeerEndpoints_spec n Hok) as (_ & Hsrc & _). unfold NodeDiscovery_OnGetPeers in payload.
  set (all := Node_GetPeerEndpoints n (MAX_CONS * 2)) in *. set (start := if (length all =? 0)%nat then _ else _) in *.
  destruct (response_loop_spec all start 0 (length all) (Node_ConnListenEndpoint from) (peerNodeId from) 0) as [Hcap Hall];
    [unfold DISCOVERY_PEERS_RESPONSE_CAP; lia|].
  set (eps := response_loop _ _ _ _ _ _ _) in *. unfold DISCOVERY_PEERS_RESPONSE_CAP in Hcap.
  assert (Heps : Forall endpoint_ok eps).
  { eapply Forall_impl; [|exact Hall]. intros ep (id & Hin & _). destruct (Hsrc _ Hin) as (pc & Hpc & _ & He & _).
    eapply listen_endpoint_ok; [by apply Hty|exact He]. }
  assert (Hnew : exists new, d_peers (NodeDiscovery_OnPeersReceived d src payload) = d_peers d ++ new /\ (length new <= 2)%nat /\
    Forall (fun p => (dp_addr p ∈ eps) /\ p = new_peer (dp_addr p) (u32 (src_hop d src + 1)) /\ u32 (src_hop d src + 1) <= 3) new).
  { unfold payload. rewrite received_payload by (done || lia). destruct (Z.leb_spec (u32 (src_hop d src + 1)) DISCOVERY_MAX_HOPS) as [Hh|_].
    - destruct (receive_endpoints_added d eps (u32 (src_hop d src + 1)) 0) as (new & E & Hl & Hn). exists new. split; [done|].
      split; [unfold DISCOVERY_FANOUT in Hl; lia|]. eapply Forall_impl; [|exact Hn]. intros p [? ?]. done.
    - exists []. rewrite app_nil_r. split; [done|]. split; [cbn; lia|constructor]. }
  destruct Hnew as (new & N1 & N2 & N3). exists eps, new. split; [done|]. split; [lia|]. split; [|done].
  eapply Forall_impl; [|exact Hall]. intros ep (id & Hin & Hne & Hid). split; [congruence|]. destruct (Hsrc _ Hin) as (pc & Hpc & Hoff).
  destruct Hoff as (O1 & O2 & O3). cbn [fst snd] in *. exists pc. split; [done|]. split; [done|]. by rewrite O3.
Qed.

(** A node with one outbound connection, asked by another peer. *)
Definition connected_net : net_node :=
  mkNet {[1%nat := TcpConnection_Init google OUTBOUND]} (<[0%nat := mkClient (Some 1%nat) 0]> (replicate MAX_CONS TcpClient_Init)) 1
    (replicate MAX_CONS None) ∅ [].

Lemma connected_net_ok : net_ok connected_net.
Proof.
  apply (net_ok_add net_init connected_net 1 (TcpConnection_Init google OUTBOUND) net_init_ok); [done|reflexivity|reflexivity|done| |].
  - vm_compute. reflexivity.
  - vm_compute. reflexivity.
Qed.

Definition newcomer : node_discovery := NodeDiscovery_Create [] 9393.

Lemma peer_exchange_witness :
  exists eps new, NodeDiscovery_OnGetPeers connected_net some_peer 5 = peers_payload eps /\ eps <> [] /\
    d_peers (NodeDiscovery_OnPeersReceived newcomer some_peer (NodeDiscovery_OnGetPeers connected_net some_peer 5)) = new /\
    map dp_addr new = [google].
Proof.
  destruct (peer_exchange connected_net some_peer 5 newcomer some_peer connected_net_ok) as (eps & new & H1 & _ & _ & H2 & _).
  - intros pc Hpc. assert (Hl : all_conns connected_net = [(1%nat, TcpConnection_Init google OUTBOUND)]) by (vm_compute; reflexivity).
    rewrite Hl in Hpc. apply list_elem_of_singleton in Hpc as ->. vm_decide.
  - exists eps, new. split; [exact H1|]. split; [intros ->; vm_compute in H1; discriminate H1|]. split; [exact H2|].
    cbn [newcomer app d_peers] in H2. change (d_peers newcomer ++ new) with new in H2. rewrite <- H2. vm_compute. reflexivity.
Defined.
