(* ===== verification/Protocol.v ===== *)
(** * Messages ([include/packettype.h], [src/nets/net_node.c])

    The packets of the node protocol: their types, the HELLO and block payloads, and the acceptance of
    a received block into the chain or the orphan pool. *)
From Stdlib Require Import String Ascii.
From S2P Require Import Prelude Bytes UInt256 Utils Crypto Transaction Autolykos2 Block Emission.
From S2P Require Import BalanceSheet Ledger Difficulty DagEpochs Mempool Storage Chain ChainInvariant OrphanPool.
From S2P Require Import Framing Peers UdpNode.

(** ** Packet types *)

Definition PACKET_TYPE_HELLO : Z := 1.
Definition PACKET_TYPE_ACK_HELLO : Z := 2.
Definition PACKET_TYPE_FETCH_BLOCK : Z := 3.
Definition PACKET_TYPE_BLOCK_DATA : Z := 4.
Definition PACKET_TYPE_BROADCAST_BLOCK : Z := 5.
Definition PACKET_TYPE_ACK_BLOCK : Z := 6.
Definition PACKET_TYPE_BROADCAST_TX : Z := 7.
Definition PACKET_TYPE_ACK_TX : Z := 8.
Definition PACKET_TYPE_ERROR : Z := 9.
Definition PACKET_TYPE_GET_PEERS : Z := 10.
Definition PACKET_TYPE_PEERS : Z := 11.

(** The type and the payload of a frame. *)
Definition Node_DecodePacket (data : bytes) : option (Z * bytes) :=
  match data with
  | [] => None
  | t :: payload => if PacketType_IsValid t then Some (t, payload) else None
  end.

(** The bytes of a message text. *)
Definition text (s : string) : bytes := map (fun a => Z.of_nat (nat_of_ascii a)) (list_ascii_of_string s).

(** ** HELLO and ACK_HELLO *)

Definition hello_bytes (protoVersion blockHeight listenPort nodeId : Z) : bytes :=
  le_bytes 4 protoVersion ++ le_bytes 8 blockHeight ++ le_bytes 2 listenPort ++ le_bytes 8 nodeId.

(** What a handshake payload says; the port and the identity are optional. *)
Record hello := mkHello { h_protoVersion : Z; h_blockHeight : Z; h_listenPort : option Z; h_nodeId : option Z }.

Definition read_hello (payload : bytes) : option hello :=
  if (length payload <? 4 + 8)%nat then None
  else
    Some (mkHello (le_val (take 4 payload)) (le_val (take 8 (drop 4 payload)))
            (if (length payload <? 4 + 8 + 2)%nat then None else Some (le_val (take 2 (drop 12 payload))))
            (if (length payload <? 4 + 8 + 2 + 8)%nat then None else Some (le_val (take 8 (drop 14 payload))))).

(** [client->peerListenPort] and [client->peerNodeId] from a handshake. *)
Definition learn_hello (h : hello) (c : tcp_connection) : tcp_connection :=
  mkConn (peerAddr c) (role c) (default (peerListenPort c) (h_listenPort h)) (default (peerNodeId c) (h_nodeId h))
    (closing c) (disconnectedNotified c) (pinCount c) (stream c).

(** ** Blocks on the wire *)

(** [height][header][count][transactions]. *)
Definition block_payload (height : Z) (hdr : block_header) (txs : list signed_transaction) : bytes :=
  le_bytes 8 height ++ header_bytes hdr ++ le_bytes 8 (Z.of_nat (length txs)) ++ concat (map signed_transaction_bytes txs).

Definition set_blockNumber (n : Z) (h : block_header) : block_header :=
  mkHeader n (timestamp h) (nonce h) (prevHash h) (merkleRoot h) (difficultyTarget h) (version h) (reserved h).

(** The parsing half of [Node_ParseAndAcceptBlock]: the announced height and the block, which is
    numbered by it. *)
Definition parse_block (payload : bytes) : option (Z * block) :=
  if (length payload <? 8 + 96 + 8)%nat then None
  else
    '(blockHeight, rest) ← read_u64 payload;
    '(hdr, rest) ← read_header rest;
    '(txCount, rest) ← read_u64 rest;
    if Z.of_nat (length rest) / 232 <? txCount then None
    else
      txs ← read_txs (length rest) txCount rest;
      Some (blockHeight, mkBlock (set_blockNumber blockHeight hdr) (Some txs)).

(** ** Accepting a block *)

Inductive node_block_accept_result := NODE_BLOCK_REJECTED | NODE_BLOCK_ORPHAN_QUEUED | NODE_BLOCK_ACCEPTED | NODE_BLOCK_DUPLICATE.

#[export] Instance accept_result_eq_dec : EqDecision node_block_accept_result.
Proof. solve_decision. Defined.

(** The chain with its files and the orphan pool. *)
Record store := mkStore { st_chain : node; st_orphans : orphan_pool; st_sheetFile : option bytes }.

Section Accept.
Context {ops : CryptoOps} (clock : node -> nat -> Z) (g_forceOrphanReorgEnabled : bool).

(** [Chain_SaveToFile] followed by [BalanceSheet_SaveToFile]. *)
Definition persist_store (s : store) : store :=
  let st := snd (node_save (st_chain s)) in
  mkStore st (st_orphans s) (Some (BalanceSheet_SaveToFile (g_sheetMap st))).

Definition queue_orphan (s : store) (b : block) (height observed : Z) : store :=
  mkStore (st_chain s) (OrphanPool_Insert (st_orphans s) b height observed) (st_sheetFile s).

(** An attach attempt, saving when it attached something. *)
Definition attach_orphans (s : store) : nat * store :=
  let '(attached, st, pool) := OrphanPool_AttemptAttach clock (st_chain s) (st_orphans s) in
  let s := mkStore st pool (st_sheetFile s) in
  (attached, if (0 <? attached)%nat then persist_store s else s).

(** Whether a block with the next number names our tip as its parent. *)
Definition extends_tip (st : node) (b : block) : bool :=
  if (0 <? Chain_Size st)%nat then
    match Chain_GetBlockCopy st (Chain_Size st - 1) with
    | None => false
    | Some last => memeq (Block_CalculateHash last) (prevHash (header b))
    end
  else true.

(** The part of [Node_ParseAndAcceptBlock] after parsing. *)
Definition accept_block (s : store) (blockHeight : Z) (b : block) (persist : bool) : node_block_accept_result * store :=
  if negb (Block_HasValidStructure b) then (NODE_BLOCK_REJECTED, s)
  else
    let st := st_chain s in
    let chainSize := Z.of_nat (Chain_Size st) in
    let observedAtTipHeight := if 0 <? chainSize then chainSize - 1 else 0 in
    let queued := (NODE_BLOCK_ORPHAN_QUEUED, queue_orphan s b blockHeight observedAtTipHeight) in
    if g_forceOrphanReorgEnabled && (0 <? blockNumber (header b)) then queued
    else if chainSize <? blockNumber (header b) then queued
    else if blockNumber (header b) <? chainSize then
      match Chain_GetBlockCopy st (Z.to_nat (blockNumber (header b))) with
      | Some local => if memeq (Block_CalculateHash local) (Block_CalculateHash b) then (NODE_BLOCK_DUPLICATE, s) else queued
      | None => queued
      end
    else if negb (extends_tip st b) then queued
    else
      let '(ok, st) := Chain_AddBlock st b in
      let s := mkStore st (st_orphans s) (st_sheetFile s) in
      if negb ok then (NODE_BLOCK_REJECTED, s)
      else
        let s := if persist then persist_store s else s in
        (NODE_BLOCK_ACCEPTED, snd (attach_orphans s)).

Definition Node_ParseAndAcceptBlock (s : store) (payload : bytes) (persist : bool) : node_block_accept_result * store :=
  match parse_block payload with
  | None => (NODE_BLOCK_REJECTED, s)
  | Some (blockHeight, b) => accept_block s blockHeight b persist
  end.

(** ** Serving a block *)

Inductive block_lookup := Found (hdr : block_header) (txs : list signed_transaction) | NotFound | NoTransactions.

(** The block in memory, or on disk when only its header is left in memory. *)
Definition find_block (st : node) (height : Z) : block_lookup :=
  let of_block b := match transactions b with Some txs => Found (header b) txs | None => NoTransactions end in
  match Chain_GetBlockCopy st (Z.to_nat height) with
  | None => match Chain_LoadBlockFromFile (g_files st) height true with Some (b, _) => of_block b | None => NotFound end
  | Some b =>
      match transactions b with
      | Some txs => Found (header b) txs
      | None => match Chain_LoadBlockFromFile (g_files st) height true with Some (d, _) => of_block d | None => NoTransactions end
      end
  end.
End Accept.
