(* ===== verification/ProtocolTheorems.v ===== *)
(** * Theorems on the messages

    The wire formats of HELLO and of blocks are exact inverses of their parsers; a received block moves
    the chain only by the chain's own operations whatever its bytes; and a node that asks another for
    its blocks one after the other ends up with the same chain and the same balances. *)
From S2P Require Import Prelude Bytes UInt256 Utils Crypto Transaction Autolykos2 Block Emission.
From S2P Require Import BalanceSheet Ledger Difficulty DagEpochs Mempool Storage Chain ChainInvariant History ChainTheorems OrphanPool.
From S2P Require Import Framing Peers UdpNode Protocol.

(** ** HELLO *)

Lemma take_drop_field (a b c : bytes) n k : length a = n -> length b = k -> take k (drop n (a ++ b ++ c)) = b.
Proof. intros <- <-. by rewrite drop_app_length, take_app_length. Qed.

Lemma length_hello pv bh lp id : length (hello_bytes pv bh lp id) = 22%nat.
Proof. unfold hello_bytes. by rewrite !length_app, !length_le_bytes. Qed.

Lemma hello_fields n pv bh lp id junk :
  is_u32 pv -> is_u64 bh -> is_u16 lp -> is_u64 id ->
  let payload := take n (hello_bytes pv bh lp id) ++ (if (n <? 22)%nat then [] else junk) in
  read_hello payload =
  if (n <? 12)%nat then None
  else Some (mkHello pv bh (if (n <? 14)%nat then None else Some lp) (if (n <? 22)%nat then None else Some id)).
Proof.
  intros H1 H2 H3 H4. destruct (Nat.ltb_spec n 22) as [Hn|Hn]; cbv zeta.
  - rewrite app_nil_r. unfold read_hello. cbn [Nat.add]. rewrite length_take, length_hello, Nat.min_l by lia.
    destruct (Nat.ltb_spec n 12); [done|].
    assert (E1 : take 4 (take n (hello_bytes pv bh lp id)) = le_bytes 4 pv).
    { rewrite take_take, Nat.min_l by lia. unfold hello_bytes. by rewrite take_app_le, take_ge by (rewrite length_le_bytes; lia). }
    assert (E2 : take 8 (drop 4 (take n (hello_bytes pv bh lp id))) = le_bytes 8 bh).
    { rewrite skipn_firstn_comm, take_take, Nat.min_l by lia. unfold hello_bytes. apply take_drop_field; apply length_le_bytes. }
    rewrite E1, E2, le_val_4, le_val_8 by done. f_equal. f_equal.
    + destruct (Nat.ltb_spec n 14); [done|].
      rewrite skipn_firstn_comm, take_take, Nat.min_l by lia. unfold hello_bytes.
      rewrite (app_assoc (le_bytes 4 pv)), take_drop_field by (rewrite ?length_app, !length_le_bytes; done).
      by rewrite le_val_bytes.
    + by rewrite (proj2 (Nat.ltb_lt n 22) Hn).
  - rewrite take_ge by (rewrite length_hello; lia). unfold read_hello. rewrite length_app, length_hello.
    rewrite !(proj2 (Nat.ltb_ge _ _)) by lia. unfold hello_bytes. rewrite <- !app_assoc.
    rewrite take_app_le, take_ge by (rewrite length_le_bytes; lia).
    rewrite take_drop_field by apply length_le_bytes.
    rewrite (app_assoc (le_bytes 4 pv)), take_drop_field by (rewrite ?length_app, !length_le_bytes; done).
    rewrite (app_assoc _ (le_bytes 2 lp)), take_drop_field by (rewrite ?length_app, !length_le_bytes; done).
    by rewrite le_val_4, !le_val_8, le_val_bytes.
Qed.

(** ** Blocks on the wire *)

Lemma read_txs_inv fuel n bs txs :
  bytes_ok bs -> 0 <= n -> read_txs fuel n bs = Some txs ->
  Forall stx_ok txs /\ Z.of_nat (length txs) = n /\ exists rest, bs = concat (map signed_transaction_bytes txs) ++ rest.
Proof.
  revert n bs txs; induction fuel as [|f IH]; intros n bs txs Hb Hn; cbn [read_txs];
    (destruct (Z.eqb_spec n 0) as [->|Hne]; [intros [= <-]; split; [constructor|]; split; [done|by exists bs]|]); [done|].
  destruct (read_signed_transaction bs) as [[tx rest]|] eqn:E; cbn [mbind option_bind]; [|done].
  apply read_signed_inv in E as [Htx ->]; [|done]. apply Forall_app in Hb as [_ Hb].
  destruct (read_txs f (n - 1) rest) as [r|] eqn:Er; cbn [mbind option_bind]; [|done]. intros [= <-].
  destruct (IH (n - 1) _ _ Hb ltac:(lia) Er) as (H1 & H2 & rest' & ->). split; [by constructor|].
  split; [cbn [length]; lia|]. exists rest'. cbn [map concat]. by rewrite app_assoc.
Qed.

Lemma read_u64_inv bs v rest : bytes_ok bs -> read_u64 bs = Some (v, rest) -> is_u64 v /\ bs = le_bytes 8 v ++ rest.
Proof.
  intros Hb. unfold read_u64. destruct (cut 8 bs) as [[a r]|] eqn:E; cbn [mbind option_bind]; [|done]. intros [= <- <-].
  destruct (cut_ok _ _ _ _ Hb E) as [Ha _]. apply cut_Some in E as [-> El].
  pose proof (le_val_bounds a Ha) as Hv. rewrite El in Hv. split; [exact Hv|]. by rewrite <- (le_bytes_val a Ha) at 1; rewrite El.
Qed.

Lemma parse_payload h hdr txs junk :
  is_u64 h -> header_ok hdr -> Forall stx_ok txs -> Z.of_nat (length txs) < 2 ^ 64 ->
  parse_block (block_payload h hdr txs ++ junk) = Some (h, mkBlock (set_blockNumber h hdr) (Some txs)).
Proof.
  intros Hh Hhdr Htx Hn. unfold parse_block, block_payload. rewrite <- !app_assoc.
  rewrite !length_app, !length_le_bytes, length_header_bytes by done. unfold SIZEOF_HEADER.
  rewrite (proj2 (Nat.ltb_ge _ _)) by lia.
  rewrite read_u64_app by done. cbn [mbind option_bind]. rewrite read_header_app by done. cbn [mbind option_bind].
  rewrite read_u64_app by (unfold_cint; lia). cbn [mbind option_bind].
  rewrite length_app, length_concat_tx by done. rewrite (proj2 (Z.ltb_ge _ _)).
  - by rewrite read_txs_app by (done || lia).
  - apply Z.div_le_lower_bound; lia.
Qed.

Lemma parse_inv bs h b :
  bytes_ok bs -> parse_block bs = Some (h, b) ->
  exists hdr txs junk, bs = block_payload h hdr txs ++ junk /\ is_u64 h /\ header_ok hdr /\ Forall stx_ok txs /\
    Z.of_nat (length txs) < 2 ^ 64 /\ b = mkBlock (set_blockNumber h hdr) (Some txs).
Proof.
  intros Hb. unfold parse_block. destruct (_ <? _)%nat; [done|].
  destruct (read_u64 bs) as [[h' r1]|] eqn:E1; cbn [mbind option_bind]; [|done].
  apply read_u64_inv in E1 as [Hh ->]; [|done]. apply Forall_app in Hb as [_ Hb].
  destruct (read_header r1) as [[hdr r2]|] eqn:E2; cbn [mbind option_bind]; [|done].
  apply read_header_inv in E2 as [Hhdr ->]; [|done]. apply Forall_app in Hb as [_ Hb].
  destruct (read_u64 r2) as [[n r3]|] eqn:E3; cbn [mbind option_bind]; [|done].
  apply read_u64_inv in E3 as [Hn ->]; [|done]. apply Forall_app in Hb as [_ Hb].
  destruct (_ <? n); [done|]. destruct (read_txs _ n r3) as [txs|] eqn:E4; cbn [mbind option_bind]; [|done].
  apply read_txs_inv in E4 as (Htx & El & junk & ->); [|done|unfold_cint; lia]. intros [= <- <-].
  exists hdr, txs, junk. unfold block_payload. rewrite <- !app_assoc, El. split; [done|]. split; [done|]. split; [done|].
  split; [done|]. split; [apply Hn|done].
Qed.

Lemma renumbered_ok h hdr txs :
  is_u64 h -> header_ok hdr -> Forall stx_ok txs -> block_ok (mkBlock (set_blockNumber h hdr) (Some txs)).
Proof. intros Hh (_ & H) Htx. split; [by split|done]. Qed.

(** ** A received block and the chain *)

Section Effects.
Context {ops : CryptoOps} (clock : node -> nat -> Z).

Lemma persist_steps s : rtc live_step (st_chain s) (st_chain (persist_store s)).
Proof. apply rtc_once. constructor. Qed.

Lemma attach_steps s : rtc live_step (st_chain s) (st_chain (snd (attach_orphans clock s))).
Proof.
  unfold attach_orphans, OrphanPool_AttemptAttach.
  pose proof (AttemptAttach_progress clock (fun _ => True) live_step ltac:(constructor) ltac:(constructor)
    (st_chain s) (st_orphans s) false ltac:(by apply Forall_forall)) as H.
  destruct (OrphanPool_AttemptAttachForced _ _ _ _) as [[n st] pool]. destruct H as [H _]. cbn [snd].
  destruct (0 <? n)%nat; [|done]. etrans; [exact H|]. apply (persist_steps (mkStore st pool _)).
Qed.

(** Whatever arrives, the chain moves by its own operations. *)
Lemma accept_steps force s payload persist :
  rtc live_step (st_chain s) (st_chain (snd (Node_ParseAndAcceptBlock clock force s payload persist))).
Proof.
  unfold Node_ParseAndAcceptBlock. destruct (parse_block payload) as [[height b]|]; [|apply rtc_refl].
  unfold accept_block. destruct (Block_HasValidStructure b); cbn [negb]; [|apply rtc_refl].
  destruct (force && _); [apply rtc_refl|]. destruct (_ <? blockNumber (header b)); [apply rtc_refl|].
  destruct (blockNumber (header b) <? _).
  { destruct (Chain_GetBlockCopy _ _); [destruct (memeq _ _)|]; apply rtc_refl. }
  destruct (extends_tip _ b); cbn [negb]; [|apply rtc_refl].
  pose proof (live_add (st_chain s) b) as Hadd. destruct (Chain_AddBlock (st_chain s) b) as [ok st]. cbn [snd] in Hadd.
  destruct ok; cbn [negb snd st_chain]; [|by apply rtc_once]. eapply rtc_l; [exact Hadd|].
  destruct persist; [|apply (attach_steps (mkStore st _ _))].
  etrans; [apply (persist_steps (mkStore st (st_orphans s) (st_sheetFile s)))|]. apply attach_steps.
Qed.
End Effects.

(** ** Following another node *)

Section Sync.
Context {ops : CryptoOps} {laws : CryptoLaws ops} (clock : node -> nat -> Z).

(** [B] holds the first [i] blocks of [A], bodies included. *)
Definition holds_prefix (A B : node) (i : nat) : Prop :=
  map header (blocks B) = take i (map header (blocks A)) /\
  forall j, (j < i)%nat -> Chain_BorrowBlockTransactions B j = Chain_BorrowBlockTransactions A j.

(** Whether the answer with a block fits a frame: one byte for its type and the payload. *)
Definition frame_fits (payload : bytes) : bool := Z.of_nat (S (length payload)) <=? TCP_MAX_FRAME_PAYLOAD.

(** The answers to [FETCH_BLOCK] for heights [i], [i + 1], ..., parsed and accepted in this order.  A
    block whose answer does not fit a frame is not sent, and the requests end there. *)
Fixpoint fetch_blocks (A : node) (s : store) (i n : nat) : list node_block_accept_result * store :=
  match n with
  | O => ([], s)
  | S m =>
      match find_block A (Z.of_nat i) with
      | Found hdr txs =>
          let payload := block_payload (Z.of_nat i) hdr txs in
          if frame_fits payload then
            let '(r, s) := Node_ParseAndAcceptBlock clock false s payload true in
            let '(rs, s) := fetch_blocks A s (S i) m in (r :: rs, s)
          else ([], s)
      | _ => ([], s)
      end
  end.

Lemma find_recovered st L i p :
  recovers (blocks st) (g_files st) L -> L !! i = Some p -> find_block st (Z.of_nat i) = Found p.1 p.2.
Proof.
  intros [_ HR] Hp. destruct (HR i p Hp) as (b & Hb & Eh & Hd). unfold find_block, Chain_GetBlockCopy.
  rewrite Nat2Z.id, Hb. cbn [fmap option_fmap option_map]. rewrite copy_block. unfold disk_copy in Hd.
  destruct (transactions b) as [txs|] eqn:Et.
  - injection Hd as Hd. rewrite Hd in Et. cbn in Et. by rewrite Eh; injection Et as ->.
  - destruct (Chain_LoadBlockFromFile _ _ _) as [[d n]|]; cbn [mbind option_bind] in Hd; [|done]. by injection Hd as ->.
Qed.

Lemma prefix_ledger A B i L L' :
  ledger_ok A L -> ledger_ok B L' -> holds_prefix A B i -> (i <= length L)%nat -> L' = take i L.
Proof.
  intros (_ & HA & _) (_ & HB & _) [Hh Ht] Hi. pose proof HA as [HlA HA']. pose proof HB as [HlB HB'].
  assert (Hlen : length L' = i).
  { rewrite HlB, <- (length_map header), Hh, length_take, length_map. lia. }
  apply (list_eq_same_length _ _ i); [by rewrite length_take; lia|done|]. intros j p q Hj Hp Hq.
  rewrite lookup_take_lt in Hq by lia.
  assert (Et : p.2 = q.2).
  { specialize (Ht j Hj). rewrite (borrow_recovers B L' j p HB Hp), (borrow_recovers A L j q HA Hq) in Ht. congruence. }
  destruct (HA' j q Hq) as (a & Ha & Ea & _). destruct (HB' j p Hp) as (b & Hb & Eb & _).
  assert (Ehd : map header (blocks B) !! j = take i (map header (blocks A)) !! j) by by rewrite Hh.
  rewrite lookup_take_lt, !list_lookup_fmap, Ha, Hb in Ehd by done. cbn in Ehd.
  destruct p, q; cbn [fst snd] in *. congruence.
Qed.

Lemma data_prefix n L : Z.of_nat (length (data_of (take n L))) <= Z.of_nat (length (data_of L)).
Proof. rewrite <- (take_drop n L) at 2. unfold data_of. rewrite map_app, concat_app, length_app. lia. Qed.

Lemma set_blockNumber_same hdr : set_blockNumber (blockNumber hdr) hdr = hdr.
Proof. by destruct hdr. Qed.

(** One answer: the block is appended, saved, and nothing else is waiting. *)
Lemma fetch_one A L s i p :
  inv A L -> L !! i = Some p -> (0 < i)%nat -> inv (st_chain s) (take i L) ->
  same_headers (blocks (st_chain s)) (take i (blocks A)) -> settled (supply_of (take i L)) (Z.of_nat i) ->
  g_orphans (st_orphans s) = [] -> Block_HasValidStructure (full p) = true -> Z.of_nat (length (data_of L)) <= LONG_MAX ->
  exists s', Node_ParseAndAcceptBlock clock false s (block_payload (Z.of_nat i) p.1 p.2) true = (NODE_BLOCK_ACCEPTED, s') /\
    inv (st_chain s') (take (S i) L) /\ same_headers (blocks (st_chain s')) (take (S i) (blocks A)) /\
    g_orphans (st_orphans s') = [].
Proof.
  intros HA Hp Hpos HB Hsame Hset Ho Hst Hfit.
  pose proof (extends_restored A L i p _ HA Hp Hsame) as (Hlink & _).
  destruct (restore_one A L i p _ HA Hp Hpos HB Hsame Hset) as (cur & Eadd & Hcur & Hsame').
  pose proof HA as (_ & (HLA & _) & _). destruct (ledger_valid_facts _ _ HLA) as (Hf & _).
  eapply Forall_lookup_1 in Hf as [Hhdr Htx]; [|exact Hp].
  assert (Hnum : blockNumber p.1 = Z.of_nat (length (blocks (st_chain s)))).
  { unfold links_to_tip in Hlink. apply andb_true_iff in Hlink as [H _]. by apply Z.eqb_eq in H. }
  assert (Hlen : length (blocks (st_chain s)) = i).
  { pose proof HB as (_ & (_ & [<- _] & _) & _). rewrite length_take. apply lookup_lt_Some in Hp. lia. }
  assert (Hcount : Z.of_nat (length p.2) < 2 ^ 64).
  { pose proof (data_of_prefix L i p Hp) as H. rewrite length_image in H by done. unfold LONG_MAX in Hfit. lia. }
  assert (Hfull : mkBlock (set_blockNumber (Z.of_nat i) p.1) (Some p.2) = full p).
  { rewrite <- Hlen, <- Hnum, set_blockNumber_same. done. }
  unfold Node_ParseAndAcceptBlock. rewrite <- (app_nil_r (block_payload _ _ _)).
  rewrite parse_payload; [|rewrite <- Hlen, <- Hnum; apply Hhdr|done|done|lia].
  rewrite Hfull. unfold accept_block. rewrite Hst. cbn [negb andb]. unfold Chain_Size.
  change (header (full p)) with p.1. rewrite Hnum, !Z.ltb_irrefl.
  assert (Htip : extends_tip (st_chain s) (full p) = true).
  { unfold extends_tip, Chain_Size, Chain_GetBlockCopy. unfold links_to_tip in Hlink. apply andb_true_iff in Hlink as [_ H].
    destruct (0 <? length (blocks (st_chain s)))%nat; [|done].
    destruct (blocks (st_chain s) !! _) as [b|]; [|done]. cbn. by rewrite copy_block. }
  rewrite Htip. cbn [negb]. unfold Chain_AddBlock. rewrite Eadd. cbn [negb].
  unfold attach_orphans, OrphanPool_AttemptAttach, OrphanPool_AttemptAttachForced, persist_store. cbn [st_orphans st_chain snd].
  rewrite Ho. cbn [length Nat.eqb Nat.ltb Nat.leb snd]. eexists. split; [done|]. cbn [st_chain st_orphans].
  pose proof (data_prefix (S i) L) as Hd.
  split; [apply node_save_inv; [by apply set_target_inv|lia]|]. split; [|done].
  destruct (node_save_ledger (Chain_OnTipAdvanced cur) (take (S i) L)) as (_ & _ & ->); [apply Hcur|lia|].
  unfold same_headers. rewrite map_map. etrans; [|exact Hsame']. by apply map_ext.
Qed.

(** Block [j] of [A] is served. *)
Definition served (L : list full_block) (j : nat) : Prop :=
  forall p, L !! j = Some p -> frame_fits (block_payload (Z.of_nat j) p.1 p.2) = true.

Lemma fetch_all A L n k i s :
  inv A L -> (n + k + i = length L)%nat -> (0 < i)%nat -> inv (st_chain s) (take i L) ->
  same_headers (blocks (st_chain s)) (take i (blocks A)) ->
  (forall j, (i <= j < i + n)%nat -> settled (supply_of (take j L)) (Z.of_nat j)) ->
  (forall j p, (i <= j < i + n)%nat -> L !! j = Some p -> Block_HasValidStructure (full p) = true) ->
  (forall j, (i <= j < i + n)%nat -> served L j) -> (k = 0%nat \/ ~ served L (i + n)) ->
  g_orphans (st_orphans s) = [] -> Z.of_nat (length (data_of L)) <= LONG_MAX ->
  fst (fetch_blocks A s i (n + k)) = replicate n NODE_BLOCK_ACCEPTED /\
  inv (st_chain (snd (fetch_blocks A s i (n + k)))) (take (i + n) L) /\
  same_headers (blocks (st_chain (snd (fetch_blocks A s i (n + k))))) (take (i + n) (blocks A)).
Proof.
  intros HA. pose proof HA as (_ & (_ & HR & _) & _). revert i s; induction n as [|n IH]; intros i s Hn Hpos HB Hsame Hset Hst Hsv Hend Ho Hfit.
  { rewrite Nat.add_0_r, Nat.add_0_l in *. destruct k as [|k]; [done|]. destruct Hend as [|Hend]; [done|].
    destruct (lookup_lt_is_Some_2 L i ltac:(lia)) as [p Hp]. cbn [fetch_blocks]. rewrite (find_recovered A L i p HR Hp).
    destruct (frame_fits (block_payload (Z.of_nat i) p.1 p.2)) eqn:Ef; [|done]. destruct Hend. intros q Hq. by replace q with p by congruence. }
  cbn [fetch_blocks Nat.add]. destruct (lookup_lt_is_Some_2 L i ltac:(lia)) as [p Hp].
  rewrite (find_recovered A L i p HR Hp), (Hsv i ltac:(lia) p Hp).
  destruct (fetch_one A L s i p HA Hp Hpos HB Hsame (Hset i ltac:(lia)) Ho (Hst i p ltac:(lia) Hp) Hfit)
    as (s' & -> & H1 & H2 & H3).
  replace (i + S n)%nat with (S i + n)%nat in * by lia.
  destruct (IH (S i) s' ltac:(lia) ltac:(lia) H1 H2) as (I1 & I2 & I3);
    [intros j Hj; apply Hset; lia|intros j q Hj; apply Hst; lia|intros j Hj; apply Hsv; lia|done|done|done|].
  destruct (fetch_blocks A s' (S i) (n + k)) as [rs s'']. cbn [fst snd] in *. by rewrite I1.
Qed.
End Sync.

(** ** Properties *)

(** The handshake on the wire.  A HELLO or ACK_HELLO payload, with anything after it, reads back as
    the version, height, port and identity that were written; cut short by an older peer it reads
    back without the identity, or without port and identity, and below twelve bytes it is ignored. *)
Theorem hello_roundtrip pv bh lp id n junk :
  is_u32 pv -> is_u64 bh -> is_u16 lp -> is_u64 id ->
  read_hello (hello_bytes pv bh lp id ++ junk) = Some (mkHello pv bh (Some lp) (Some id)) /\
  ((n < 22)%nat ->
   read_hello (take n (hello_bytes pv bh lp id)) =
   if (n <? 12)%nat then None else Some (mkHello pv bh (if (n <? 14)%nat then None else Some lp) None)).
Proof.
  intros H1 H2 H3 H4. split.
  - pose proof (hello_fields 22 pv bh lp id junk H1 H2 H3 H4) as H. cbn [Nat.ltb Nat.leb] in H.
    by rewrite take_ge in H by (rewrite length_hello; lia).
  - intros Hn. pose proof (hello_fields n pv bh lp id junk H1 H2 H3 H4) as H.
    rewrite (proj2 (Nat.ltb_lt n 22) Hn), app_nil_r in H. exact H.
Qed.

Lemma hello_roundtrip_witness : read_hello (take 14 (hello_bytes 1 77 9000 5)) = Some (mkHello 1 77 (Some 9000) None).
Proof.
  destruct (hello_roundtrip 1 77 9000 5 14 [] ltac:(vm_decide) ltac:(vm_decide) ltac:(vm_decide) ltac:(vm_decide)) as [_ H].
  apply H. lia.
Defined.

(** Blocks on the wire.  A payload parses exactly when it starts with the image of some height,
    header and transactions, with as many transactions as it announces; the result is the block with
    that header, renumbered to the announced height, with those transactions and with every field in
    range.  In particular what a node serializes reads back, whatever follows it. *)
Theorem block_crosses_the_wire bs h b :
  bytes_ok bs ->
  parse_block bs = Some (h, b) <->
  exists hdr txs junk, bs = block_payload h hdr txs ++ junk /\ is_u64 h /\ header_ok hdr /\ Forall stx_ok txs /\
    Z.of_nat (length txs) < 2 ^ 64 /\ b = mkBlock (set_blockNumber h hdr) (Some txs) /\ block_ok b.
Proof.
  intros Hb. split.
  - intros H. apply parse_inv in H as (hdr & txs & junk & E & H1 & H2 & H3 & H4 & Eb); [|done].
    exists hdr, txs, junk. do 6 (split; [done|]). rewrite Eb. by apply renumbered_ok.
  - intros (hdr & txs & junk & -> & H1 & H2 & H3 & H4 & -> & _). by apply parse_payload.
Qed.

Import Scenario.

Definition block1_txs : list signed_transaction := [mint (reward1 + 14); payment 1700000000000; payment 1700000000001].

Lemma block_crosses_the_wire_witness :
  parse_block (block_payload 1 (header block1) block1_txs ++ [7; 7]) = Some (1, block1).
Proof.
  apply block_crosses_the_wire; [vm_decide|]. exists (header block1), block1_txs, [7; 7].
  split; [reflexivity|]. split; [vm_decide|]. split; [vm_decide|]. split; [vm_decide|]. split; [vm_compute; reflexivity|].
  split; [vm_compute; reflexivity|]. vm_decide.
Defined.

(** C11: following another node.  Let [A] and [B] be nodes in states reached on well-formed blocks and
    without failed saves; let [B] have no pending orphans and exactly the first [i] blocks of [A], at least
    genesis, bodies included; and let it ask [A] for the blocks at heights [i], [i+1], ... in turn and
    process the answers.  Let the answers for the heights below [m] fit a frame of 1 MiB, the blocks in
    them pass the structural check made on receipt (which [Chain_AddBlock] does not make) and have been
    created where the emission schedule does not depend on its cached value, and let the chain fit a
    file; and let [m] be the end of [A]'s chain or the height of a block too large for a frame, which is
    not sent.  Then every answer is accepted and [B] ends with the headers of [A] below [m]; if [m] is
    the end, with the transactions, the balance sheet and the supply of [A]. *)
Theorem sync_replicates {ops : CryptoOps} {laws : CryptoLaws ops} clock A s i m :
  reachable A -> reachable (st_chain s) -> g_orphans (st_orphans s) = [] ->
  (0 < i <= m)%nat -> (m <= length (blocks A))%nat -> holds_prefix A (st_chain s) i ->
  (forall j hdr txs, (i <= j < m)%nat -> find_block A (Z.of_nat j) = Found hdr txs ->
     Block_HasValidStructure (mkBlock hdr (Some txs)) = true /\ frame_fits (block_payload (Z.of_nat j) hdr txs) = true) ->
  (m = length (blocks A) \/
   exists hdr txs, find_block A (Z.of_nat m) = Found hdr txs /\ frame_fits (block_payload (Z.of_nat m) hdr txs) = false) ->
  (forall j su, (i <= j < m)%nat -> rebuild_supply A 0 j (uint256_from_u64 0) = Some su -> settled su (Z.of_nat j)) ->
  (forall L, resolve_all (g_files A) 0 (blocks A) = Some L -> Z.of_nat (length (data_of L)) <= LONG_MAX) ->
  let n := (length (blocks A) - i)%nat in
  let B := st_chain (snd (fetch_blocks clock A s i n)) in
  fst (fetch_blocks clock A s i n) = replicate (m - i) NODE_BLOCK_ACCEPTED /\
  map header (blocks B) = take m (map header (blocks A)) /\
  (m = length (blocks A) ->
   chain_transactions B = chain_transactions A /\ g_sheetMap B = g_sheetMap A /\ g_currentSupply B = g_currentSupply A).
Proof.
  intros HA HB Ho Hi Hm Hpre Hst Hend Hset Hfit n B.
  destruct (reachable_history A HA) as [L HinvA]. destruct (reachable_history _ HB) as [L' HinvB].
  pose proof HinvA as (_ & HLA & _). pose proof HLA as (HvA & HRA & _). pose proof HRA as [Hlen _].
  assert (L' = take i L) as -> by (apply (prefix_ledger A (st_chain s)); [done|apply HinvB|done|lia]).
  assert (Hn : n = ((m - i) + (length L - m))%nat) by lia.
  destruct (fetch_all clock A L (m - i) (length L - m) i s HinvA) as (E1 & HinvB' & Hsame); try done; [lia|lia| | | | | | |].
  - apply headers_compact. rewrite <- firstn_map. apply Hpre.
  - intros j Hj. apply Hset; [lia|]. apply rebuild_prefix; [done|lia].
  - intros j p Hj Hp. apply (Hst j p.1 p.2 ltac:(lia)). by apply (find_recovered A L).
  - intros j Hj p Hp. apply (Hst j p.1 p.2 ltac:(lia)). by apply (find_recovered A L).
  - destruct Hend as [->|(hdr & txs & Ef & Ex)]; [left; lia|]. destruct (decide (m = length L)) as [->|Hne]; [left; lia|]. right.
    intros Hs. replace (i + (m - i))%nat with m in Hs by lia. destruct (lookup_lt_is_Some_2 L m ltac:(lia)) as [p Hp].
    rewrite (find_recovered A L m p HRA Hp) in Ef. injection Ef as <- <-. rewrite (Hs p Hp) in Ex. done.
  - apply Hfit. pose proof (recovers_resolve (blocks A) (g_files A) L (length L) 0 HRA ltac:(lia)) as H. by rewrite !drop_0 in H.
  - rewrite <- Hn in *. fold B in HinvB', Hsame. replace (i + (m - i))%nat with m in * by lia. split; [done|].
    split; [rewrite firstn_map; by apply same_headers_header|]. intros E. pose proof HinvB' as (_ & HLB & _). rewrite take_ge in HLB by lia.
    pose proof HLB as (HvB & HRB & _). split; [by rewrite !(chain_transactions_recovers _ L)|].
    split; [by apply (ledger_valid_unique L)|]. by rewrite (ledger_supply _ _ HLB), (ledger_supply _ _ HLA).
Qed.

Definition follower : store := mkStore node1 OrphanPool_Init None.

Lemma sync_replicates_witness :
  map header (blocks (st_chain (snd (fetch_blocks late node2 follower 1 1)))) = [header genesis; header block1].
Proof.
  assert (Hn : length (blocks node2) = 2%nat) by (vm_compute; reflexivity).
  pose proof (sync_replicates late node2 follower 1 2 node2_reachable node1_reachable) as H. rewrite Hn in H.
  destruct H as (_ & H & _); [reflexivity|lia|lia| | |by left| | |cbn [Nat.sub] in H; rewrite H; vm_compute; reflexivity].
  - split; [vm_compute; reflexivity|]. intros j Hj. assert (j = 0%nat) as -> by lia. vm_compute. reflexivity.
  - intros j hdr txs Hj E. assert (j = 1%nat) as -> by lia.
    apply (f_equal (fun r => match r with
                             | Found h t => Block_HasValidStructure (mkBlock h (Some t)) && frame_fits (block_payload (Z.of_nat 1) h t)
                             | _ => false
                             end)) in E.
    cbv beta iota in E. apply andb_true_iff. rewrite <- E. vm_compute. reflexivity.
  - intros j su Hj. assert (j = 1%nat) as -> by lia.
    assert (E : rebuild_supply node2 0 1 (uint256_from_u64 0) = Some [5000; 0; 0; 0]) by (vm_compute; reflexivity).
    rewrite E. intros [= <-]. apply phase1_settled; [vm_decide|vm_compute; reflexivity|vm_decide|vm_compute; reflexivity].
  - assert (E : resolve_all (g_files node2) 0 (blocks node2) = Some [(header genesis, [mint 5000]); (header block1, block1_txs)])
      by (vm_compute; reflexivity).
    rewrite E. intros L HL. apply (inj Some) in HL. subst L. vm_compute. discriminate.
Defined.
