(* ===== verification/NetNode.v ===== *)
(** * The network node ([src/nets/net_node.c], [src/tcpd/tcpclient.c], [src/tcpd/tcpserver.c])

    The handlers of the node: connections opened and closed, packets of both directions, relaying,
    the maintenance tick and the callbacks of the ping daemon, over the state they share.  A handler
    runs to its end before the next event.  Sockets, [malloc] and the text form of addresses are
    parameters; the clock and random numbers come with an event.  The user callbacks of
    [Node_SetCallbacks] are never registered by the program and are left out, as is logging. *)
From Stdlib Require Import String Ascii.
From S2P Require Import Prelude Bytes UInt256 Utils Crypto Transaction Autolykos2 Block Emission.
From S2P Require Import BalanceSheet Ledger Difficulty DagEpochs Mempool Storage Chain ChainInvariant OrphanPool.
From S2P Require Import Framing Deliveries Peers UdpNode Discovery Protocol.

(** ** The environment *)

(** [sock p frame]: the socket of connection [p] takes the frame.  [dial n ip port]: the address of the
    new connection object when [connect] succeeds. *)
Class Sockets := {
  sock : ptr -> bytes -> bool;
  dial : net_node -> bytes -> Z -> option ptr
}.

(** [malloc] never returns memory in use. *)
Class SocketLaws (K : Sockets) := dial_fresh n ip port p : dial n ip port = Some p -> conns n !! p = None.

(** The globals set from the command line and at startup. *)
Record config := mkConfig {
  g_listenPort : Z;
  g_localNodeId : Z;
  g_echoPeersEnabled : bool;
  g_forceOrphanReorgEnabled : bool
}.

(** ** The state *)

Record system := mkSys {
  sy_store : store;
  sy_deliveries : deliveries;
  sy_net : net_node;
  sy_disc : option node_discovery;
  sy_udp : udp_node
}.

Definition with_store (s : system) (x : store) : system := mkSys x (sy_deliveries s) (sy_net s) (sy_disc s) (sy_udp s).
Definition with_net (s : system) (n : net_node) : system := mkSys (sy_store s) (sy_deliveries s) n (sy_disc s) (sy_udp s).
Definition with_disc (s : system) (d : node_discovery) : system := mkSys (sy_store s) (sy_deliveries s) (sy_net s) (Some d) (sy_udp s).
Definition with_deliveries (s : system) (d : deliveries) : system := mkSys (sy_store s) d (sy_net s) (sy_disc s) (sy_udp s).
Definition chain_of (s : system) : node := st_chain (sy_store s).

Definition Node_GetCurrentBlockHeight (s : system) : Z := Z.of_nat (Chain_Size (chain_of s)).

(** The discovery state changes where there is one ([if (node->discovery)]). *)
Definition on_disc (f : node_discovery -> node_discovery) (s : system) : system :=
  match sy_disc s with Some d => with_disc s (f d) | None => s end.

Definition with_outboundCount (n : net_node) (k : Z) : net_node :=
  mkNet (conns n) (outboundClients n) k (clientsArr n) (seenBlocks n) (outbox n).
Definition mark_seen (n : net_node) (hash : bytes) : net_node :=
  mkNet (conns n) (outboundClients n) (outboundCount n) (clientsArr n) ({[hash]} ∪ seenBlocks n) (outbox n).

Definition set_stream (st : tcp_stream) (c : tcp_connection) : tcp_connection :=
  mkConn (peerAddr c) (role c) (peerListenPort c) (peerNodeId c) (closing c) (disconnectedNotified c) (pinCount c) st.

Inductive node_identity_result := NODE_IDENTITY_OK | NODE_IDENTITY_SELF | NODE_IDENTITY_DUPLICATE.

Section Handlers.
Context {ops : CryptoOps} `{AddrText} {sockets : Sockets} (clock : node -> nat -> Z) (cfg : config).

Definition send (s : system) (p : ptr) (packetType : Z) (payload : bytes) : system :=
  with_net s (snd (Node_SendPacket sock (sy_net s) p packetType payload)).
Definition close (s : system) (p : ptr) : system := with_net s (on_conn TcpConnection_RequestClose p (sy_net s)).

(** An error answer that ends the connection. *)
Definition send_error_and_close (s : system) (p : ptr) (msg : string) : system := close (send s p PACKET_TYPE_ERROR (text msg)) p.

(** ** Opening connections *)

Definition Node_Client_OnConnect (s : system) (p : ptr) : system :=
  send s p PACKET_TYPE_HELLO
    (hello_bytes PROTO_VERSION (Node_GetCurrentBlockHeight s) (u16 (g_listenPort cfg)) (g_localNodeId cfg)).

(** The port is an [unsigned short]. *)
Definition Node_ConnectPeer (s : system) (ip : bytes) (port : Z) : Z * system :=
  let port := u16 port in
  let target := NetNode_MakeEndpoint ip port in
  if match target, sy_disc s with Some t, Some d => NodeDiscovery_IsSelfEndpoint d t | _, _ => false end then (-1, s)
  else if match target with Some t => Node_HasOutboundTo (sy_net s) t | None => false end then (0, s)
  else match first_index (fun c => bool_decide (connection c = None)) 0 (outboundClients (sy_net s)) with
  | None => (-1, s)
  | Some i =>
      let dialled := dial (sy_net s) ip port in
      let '(rc, n) := TcpClient_Connect (sy_net s) i ip port dialled in
      match (if rc =? 0 then dialled else None) with
      | Some p =>
          let s := Node_Client_OnConnect (with_net s n) p in
          (0, with_net s (with_outboundCount (sy_net s) (outboundCount (sy_net s) + 1)))
      | None => (-1, s)
      end
  end.

Fixpoint Node_ConnectStartupPeers (s : system) (peers : list (bytes * Z)) : nat * system :=
  match peers with
  | [] => (0%nat, s)
  | (ip, port) :: r =>
      let '(rc, s) := Node_ConnectPeer s ip port in
      let '(successes, s) := Node_ConnectStartupPeers s r in
      ((if rc =? 0 then S successes else successes), s)
  end.

(** The echo connection back to a new inbound peer. *)
Definition Node_Server_OnConnect (s : system) (p : ptr) : system :=
  if g_echoPeersEnabled cfg then
    match conns (sy_net s) !! p with
    | None => s
    | Some client =>
        if existsb (fun pc => TcpConnection_PeerAddrEqual pc.2 client) (outbound_conns (sy_net s)) then s
        else snd (Node_ConnectPeer s (TcpConnection_GetPeerAddrStr client) (g_listenPort cfg))
    end
  else s.

(** ** Closing connections *)

Definition Node_HandlePeerDisconnect (s : system) (p : ptr) : system :=
  match c ← conns (sy_net s) !! p; ep ← Node_ConnListenEndpoint c; Some (c, ep) with
  | None => s
  | Some (c, ep) =>
      if Node_HasLiveConnectionTo (sy_net s) ep (peerNodeId c) p then s
      else on_disc (fun d => NodeDiscovery_RemovePeer d ep) s
  end.

Definition Node_Server_OnDisconnect (s : system) (p : ptr) : system := Node_HandlePeerDisconnect s p.

Definition Node_Client_OnDisconnect (s : system) (p : ptr) : system :=
  let n := record_height p 0 (sy_net s) in
  let n := if 0 <? outboundCount n then with_outboundCount n (outboundCount n - 1) else n in
  Node_HandlePeerDisconnect (with_net s n) p.

(** ** Handshakes *)

Definition Node_CheckPeerIdentity (s : system) (p : ptr) : node_identity_result * system :=
  match conns (sy_net s) !! p with
  | None => (NODE_IDENTITY_OK, s)
  | Some conn =>
      if peerNodeId conn =? 0 then (NODE_IDENTITY_OK, s)
      else
        let ep := Node_ConnListenEndpoint conn in
        if peerNodeId conn =? g_localNodeId cfg then
          (NODE_IDENTITY_SELF, match ep with Some e => on_disc (fun d => NodeDiscovery_MarkSelfEndpoint d e) s | None => s end)
        else
          let s := match ep with
                   | Some e => on_disc (fun d => NodeDiscovery_NoteIdentity d (g_localNodeId cfg) e (peerNodeId conn)) s
                   | None => s
                   end in
          if Node_HasOtherConnectionToNode (sy_net s) p (role conn) (peerNodeId conn)
          then (NODE_IDENTITY_DUPLICATE, s) else (NODE_IDENTITY_OK, s)
  end.

Definition on_hello (s : system) (p : ptr) (payload : bytes) : system :=
  match read_hello payload with
  | None => s
  | Some h =>
      let s := with_net s (on_conn (learn_hello h) p (sy_net s)) in
      let s := send s p PACKET_TYPE_ACK_HELLO
        (hello_bytes (h_protoVersion h) (Node_GetCurrentBlockHeight s) (u16 (g_listenPort cfg)) (g_localNodeId cfg)) in
      match Node_CheckPeerIdentity s p with
      | (NODE_IDENTITY_OK, s) =>
          match client ← conns (sy_net s) !! p;
                if (peerNodeId client =? 0) && negb (peerListenPort client =? 0) then Node_ConnListenEndpoint client else None with
          | Some ep => if Node_HasOtherInboundFrom (sy_net s) p ep then close s p else s
          | None => s
          end
      | (_, s) => close s p
      end
  end.

Definition on_ack_hello (s : system) (p : ptr) (payload : bytes) : system :=
  match read_hello payload with
  | None => s
  | Some h =>
      let s := with_net s (on_conn (learn_hello h) p (sy_net s)) in
      match Node_CheckPeerIdentity s p with
      | (NODE_IDENTITY_OK, s) => with_net s (record_height p (h_blockHeight h) (sy_net s))
      | (_, s) => close s p
      end
  end.

(** ** Serving blocks *)

(** The answer to a request: packet type and payload. *)
Definition fetch_answer (s : system) (requestedHeight : Z) : Z * bytes :=
  if Node_GetCurrentBlockHeight s <? requestedHeight
  then (PACKET_TYPE_ERROR, text "Requested block height is higher than my current height!")
  else match find_block (chain_of s) requestedHeight with
  | NotFound => (PACKET_TYPE_ERROR, text "Requested block not found!")
  | NoTransactions => (PACKET_TYPE_ERROR, text "Requested block missing transactions!")
  | Found hdr txs => (PACKET_TYPE_BLOCK_DATA, block_payload requestedHeight hdr txs)
  end.

Definition on_fetch_block (s : system) (p : ptr) (payload : bytes) : system :=
  if negb (length payload =? 8)%nat then s
  else let '(packetType, answer) := fetch_answer s (le_val payload) in send s p packetType answer.

(** ** Relaying *)

(** The send loop over the pinned targets: the deliveries. *)
Fixpoint relay_loop (n : net_node) (targets : list ptr) (payload : bytes) : nat * net_node :=
  match targets with
  | [] => (0%nat, n)
  | p :: r =>
      let '(rc, n) := Node_SendPacket sock n p PACKET_TYPE_BROADCAST_BLOCK payload in
      let '(delivered, n) := relay_loop (on_conn TcpConnection_Unpin p n) r payload in
      ((if rc =? 0 then S delivered else delivered), n)
  end.

(** One height of [Node_BroadcastChainRange]. *)
Definition relay_block (st : node) (n : net_node) (h : nat) (sourceConn : option ptr) : net_node :=
  match find_block st (Z.of_nat h) with
  | Found hdr txs =>
      let hash := Block_CalculateHash (mkBlock hdr (Some txs)) in
      if bool_decide (hash ∈ seenBlocks n) then n
      else
        let source := p ← sourceConn; deref n p in
        let targets := map fst (relay_targets n source) in
        let n := foldr (on_conn TcpConnection_Pin) n targets in
        let '(delivered, n) := relay_loop n targets (block_payload (Z.of_nat h) hdr txs) in
        if (0 <? delivered)%nat then mark_seen n hash else n
  | _ => n
  end.

Definition Node_BroadcastChainRange (s : system) (startHeightInclusive : Z) (sourceConn : option ptr) : system :=
  let chainSize := Chain_Size (chain_of s) in
  if Z.of_nat chainSize <=? startHeightInclusive then s
  else
    let start := Z.to_nat startHeightInclusive in
    with_net s (fold_left (fun n h => relay_block (chain_of s) n h sourceConn) (seq start (chainSize - start)) (sy_net s)).

Definition Node_BroadcastTransaction (s : system) (tx : signed_transaction) (excludeNode : option ptr) : system :=
  let targets := List.filter (fun p => negb (bool_decide (excludeNode = Some p))) (omap connection (outboundClients (sy_net s))) in
  with_net s (snd (send_all sock (sy_net s) targets PACKET_TYPE_BROADCAST_TX (signed_transaction_bytes tx))).

(** ** Received transactions *)

Definition on_transaction (s : system) (p : ptr) (payload : bytes) (now : Z) : system :=
  if negb (length payload =? SIZEOF_SIGNED_TRANSACTION)%nat then s
  else match read_signed_transaction payload with
  | None => s
  | Some (tx, _) =>
      if negb (Transaction_Verify tx) then s
      else if negb (TxMempool_PolicyAccepts tx now) then s
      else
        let pool := g_txMempool (chain_of s) in
        match TxMempool_Lookup pool (Transaction_CalculateHash tx) with
        | Some _ => s
        | None =>
            let '(rc, pool) := TxMempool_Insert pool tx in
            let st := set_pool (chain_of s) pool in
            let s := with_store s (mkStore st (st_orphans (sy_store s)) (st_sheetFile (sy_store s))) in
            if 0 <=? rc then Node_BroadcastTransaction s tx (Some p) else s
        end
  end.

(** ** Received blocks *)

Definition accept_into (s : system) (payload : bytes) : node_block_accept_result * system :=
  let '(r, x) := Node_ParseAndAcceptBlock clock (g_forceOrphanReorgEnabled cfg) (sy_store s) payload true in (r, with_store s x).

(** [BROADCAST_BLOCK] on an inbound connection. *)
Definition on_broadcast_server (s : system) (p : ptr) (payload : bytes) : system :=
  if (length payload <? 8)%nat then s
  else
    let blockHeight := le_val (take 8 payload) in
    match accept_into s payload with
    | (NODE_BLOCK_ACCEPTED, s) => Node_BroadcastChainRange s blockHeight (Some p)
    | (_, s) => s
    end.

(** The same on an outbound connection, which raises the peer's height. *)
Definition accepted_from (s : system) (p : ptr) (blockHeight : Z) (r : node_block_accept_result) : system :=
  match r with
  | NODE_BLOCK_ACCEPTED =>
      let s := with_net s (raise_height p blockHeight (sy_net s)) in Node_BroadcastChainRange s blockHeight (Some p)
  | _ => s
  end.

Definition on_broadcast_client (s : system) (p : ptr) (payload : bytes) : system :=
  if (length payload <? 8)%nat then s
  else let '(r, s) := accept_into s payload in accepted_from s p (le_val (take 8 payload)) r.

Definition delivery_status (r : node_block_accept_result) : node_delivery_status :=
  match r with
  | NODE_BLOCK_ACCEPTED => NODE_DELIVERY_APPENDED
  | NODE_BLOCK_DUPLICATE => NODE_DELIVERY_DUPLICATE
  | NODE_BLOCK_ORPHAN_QUEUED => NODE_DELIVERY_ORPHANED
  | NODE_BLOCK_REJECTED => NODE_DELIVERY_REJECTED
  end.

Definition on_block_data (s : system) (p : ptr) (payload : bytes) : system :=
  if (length payload <? 8)%nat then s
  else
    let blockHeight := le_val (take 8 payload) in
    let '(r, s) := accept_into s payload in
    let s := with_deliveries s (Node_NoteBlockDelivered (sy_deliveries s) blockHeight (delivery_status r)) in
    accepted_from s p blockHeight r.

(** ** Peer exchange *)

(** Without discovery a request stays unanswered. *)
Definition on_get_peers (s : system) (p : ptr) (random : Z) : system :=
  match sy_disc s, conns (sy_net s) !! p with
  | Some _, Some c => send s p PACKET_TYPE_PEERS (NodeDiscovery_OnGetPeers (sy_net s) c random)
  | _, _ => s
  end.

Definition on_peers (s : system) (p : ptr) (payload : bytes) : system :=
  match conns (sy_net s) !! p with
  | Some c => on_disc (fun d => NodeDiscovery_OnPeersReceived d c payload) s
  | None => s
  end.

(** ** Packets *)

Definition Node_Server_OnData (s : system) (p : ptr) (data : bytes) (now random : Z) : system :=
  match Node_DecodePacket data with
  | None => s
  | Some (t, payload) =>
      if t =? PACKET_TYPE_HELLO then on_hello s p payload
      else if t =? PACKET_TYPE_ACK_HELLO then send_error_and_close s p "You can't ACK_HELLO me! I'm a server!"
      else if t =? PACKET_TYPE_FETCH_BLOCK then on_fetch_block s p payload
      else if t =? PACKET_TYPE_BLOCK_DATA then send_error_and_close s p "You can't send me BLOCK_DATA! I'm a server!"
      else if t =? PACKET_TYPE_BROADCAST_BLOCK then on_broadcast_server s p payload
      else if (t =? PACKET_TYPE_ACK_BLOCK) || (t =? PACKET_TYPE_BROADCAST_TX) then on_transaction s p payload now
      else if t =? PACKET_TYPE_GET_PEERS then on_get_peers s p random
      else if t =? PACKET_TYPE_PEERS then on_peers s p payload
      else s
  end.

Definition Node_Client_OnData (s : system) (p : ptr) (data : bytes) (random : Z) : system :=
  match Node_DecodePacket data with
  | None => s
  | Some (t, payload) =>
      if t =? PACKET_TYPE_HELLO then send_error_and_close s p "You can't HELLO me! I'm a client!"
      else if t =? PACKET_TYPE_ACK_HELLO then on_ack_hello s p payload
      else if t =? PACKET_TYPE_FETCH_BLOCK then send_error_and_close s p "You can't FETCH_BLOCK from me! I'm a client!"
      else if t =? PACKET_TYPE_BLOCK_DATA then on_block_data s p payload
      else if t =? PACKET_TYPE_BROADCAST_BLOCK then on_broadcast_client s p payload
      else if t =? PACKET_TYPE_GET_PEERS then on_get_peers s p random
      else if t =? PACKET_TYPE_PEERS then on_peers s p payload
      else s
  end.

Definition on_data (s : system) (p : ptr) (data : bytes) (now random : Z) : system :=
  match conns (sy_net s) !! p with
  | None => s
  | Some c => match role c with INBOUND => Node_Server_OnData s p data now random | OUTBOUND => Node_Client_OnData s p data random end
  end.

(** ** The io threads *)

(** The tail of a receive loop. *)
Definition io_exit (s : system) (p : ptr) : system :=
  match conns (sy_net s) !! p with
  | None => s
  | Some c =>
      match role c with
      | INBOUND =>
          let s := Node_Server_OnDisconnect (with_net (close s p) (on_conn TcpConnection_MarkDisconnectNotified p (sy_net (close s p)))) p in
          with_net s (TcpServer_RemoveClientByPtrUnlocked (sy_net s) p)
      | OUTBOUND => Node_Client_OnDisconnect (with_net s (on_conn TcpConnection_MarkDisconnectNotified p (sy_net s))) p
      end
  end.

(** A chunk returned by [recv]: the frames it completes are handled in order. *)
Definition io_recv (s : system) (p : ptr) (chunk : bytes) (now random : Z) : system :=
  match conns (sy_net s) !! p with
  | None => s
  | Some c =>
      if disconnectedNotified c then s
      else
        let '(rc, frames, st) := TcpConnection_FeedFramedData (stream c) chunk in
        let s := with_net s (on_conn (set_stream st) p (sy_net s)) in
        let s := fold_left (fun s frame => on_data s p frame now random) frames s in
        if rc =? 0 then s else io_exit s p
  end.

(** [recv] reports the end of the stream, or an error. *)
Definition io_eof (s : system) (p : ptr) : system :=
  match conns (sy_net s) !! p with
  | None => s
  | Some c => if disconnectedNotified c then s else io_exit s p
  end.

(** The accept loop with its callback. *)
Definition server_accept (s : system) (p : ptr) (clientAddr : sockaddr) : system :=
  match TcpServer_accept (sy_net s) p clientAddr with
  | None => s
  | Some n => Node_Server_OnConnect (with_net s n) p
  end.

(** ** The ping daemon *)

Definition Node_OnPongThunk (s : system) (e : pong_event) : system := on_disc (fun d => NodeDiscovery_OnPong d (po_from e) (po_rttMs e)) s.
Definition Node_OnPingTimeoutThunk (s : system) (dest : sockaddr) : system := on_disc (fun d => NodeDiscovery_OnPingTimeout d dest) s.

Definition with_udp (s : system) (u : udp_node) : system := mkSys (sy_store s) (sy_deliveries s) (sy_net s) (sy_disc s) u.

Definition udp_packet (s : system) (buf : bytes) (from : sockaddr) (now : Z) : system :=
  let '(e, u) := UdpNode_HandlePacket (sy_udp s) buf from now in
  let s := with_udp s u in
  match e with Some e => Node_OnPongThunk s e | None => s end.

Definition udp_retry (s : system) (now : Z) : system :=
  let '(timedOut, u) := UdpNode_RetryRound (sy_udp s) now in
  fold_left (fun s t => Node_OnPingTimeoutThunk s t.1) timedOut (with_udp s u).

(** ** Maintenance *)

(** [NodeDiscovery_Iterate]: the locked part, then its network actions. *)
Definition NodeDiscovery_Iterate (s : system) (now : Z) (nonces : nat -> Z) : system :=
  match sy_disc s with
  | None => s
  | Some d =>
      let '(toQuery, toConnect, d, u) := discovery_tick d (sy_udp s) (Node_GetClientList (sy_net s)) now nonces in
      let s := with_udp (with_disc s d) u in
      let s := with_net s (snd (send_all sock (sy_net s) toQuery PACKET_TYPE_GET_PEERS [])) in
      fold_left (fun s a => let '(ip, port) := Discovery_AddrToIpPort a in snd (Node_ConnectPeer s ip port)) toConnect s
  end.

(** One round of [Node_MaintenanceThread]. *)
Definition maintenance_round (s : system) (now : Z) (nonces : nat -> Z) : system :=
  let x := snd (attach_orphans clock (sy_store s)) in
  let st := set_pool (st_chain x) (snd (TxMempool_PruneExpired (g_txMempool (st_chain x)) now)) in
  let s := with_store s (mkStore st (st_orphans x) (st_sheetFile x)) in
  let s := with_net s (Node_ReapDeadOutbound (sy_net s)) in
  NodeDiscovery_Iterate s now nonces.

(** ** Shutdown *)

Definition free_conn (p : ptr) (n : net_node) : net_node := with_conns n (delete p (conns n)).

(** The slots are cleared first, then each connection is closed, its disconnect reported once, and freed. *)
Definition destroy_outbound (s : system) (p : ptr) : system :=
  let s := close s p in
  let s := match conns (sy_net s) !! p with
           | Some c => if disconnectedNotified c then s
                       else Node_Client_OnDisconnect (with_net s (on_conn TcpConnection_MarkDisconnectNotified p (sy_net s))) p
           | None => s
           end in
  with_net s (free_conn p (sy_net s)).

(** A client thread that finds its slot taken by [TcpServer_Stop]. *)
Definition stop_client (s : system) (p : ptr) : system :=
  let s := close s p in
  let s := match conns (sy_net s) !! p with
           | Some c => if disconnectedNotified c then s
                       else Node_Server_OnDisconnect (with_net s (on_conn TcpConnection_MarkDisconnectNotified p (sy_net s))) p
           | None => s
           end in
  with_net s (free_conn p (sy_net s)).

Definition TcpServer_Stop (s : system) : system :=
  let clients := omap id (clientsArr (sy_net s)) in
  let n := sy_net s in
  let s := with_net s (mkNet (conns n) (outboundClients n) (outboundCount n) (map (fun _ => None) (clientsArr n)) (seenBlocks n) (outbox n)) in
  fold_left stop_client clients s.

(** What is left when [Node_Destroy] returns: no connections, no discovery, empty pools. *)
Definition Node_Destroy (s : system) : system :=
  let outbound := omap connection (outboundClients (sy_net s)) in
  let n := with_outbound (sy_net s)
             (map (fun c => match connection c with Some _ => TcpClient_Init | None => c end) (outboundClients (sy_net s))) in
  let s := fold_left destroy_outbound outbound (with_net s (with_outboundCount n 0)) in
  let s := TcpServer_Stop s in
  let n := sy_net s in
  let x := sy_store s in
  mkSys (mkStore (set_pool (st_chain x) TxMempool_Init) OrphanPool_Init (st_sheetFile x)) (sy_deliveries s)
    (mkNet (conns n) (outboundClients n) (outboundCount n) (clientsArr n) ∅ (outbox n)) None (sy_udp s).

(** ** Events *)

Inductive event :=
| ev_accept (p : ptr) (clientAddr : sockaddr)
| ev_recv (p : ptr) (chunk : bytes) (now random : Z)
| ev_eof (p : ptr)
| ev_connect (ip : bytes) (port : Z)
| ev_datagram (buf : bytes) (from : sockaddr) (now : Z)
| ev_retry (now : Z)
| ev_maintenance (now : Z) (nonces : nat -> Z).

Definition handle (s : system) (e : event) : system :=
  match e with
  | ev_accept p a => server_accept s p a
  | ev_recv p chunk now random => io_recv s p chunk now random
  | ev_eof p => io_eof s p
  | ev_connect ip port => snd (Node_ConnectPeer s ip port)
  | ev_datagram buf from now => udp_packet s buf from now
  | ev_retry now => udp_retry s now
  | ev_maintenance now nonces => maintenance_round s now nonces
  end.
End Handlers.

(** [Node_Create] on a chain: empty tables and pools, and discovery where UDP works. *)
Definition Node_Create (st : node) (sheetFile : option bytes) (v6 v4 : bool) (ifaddrs : list (option sockaddr)) (listenPort : Z) : system :=
  mkSys (mkStore (set_pool st TxMempool_Init) OrphanPool_Init sheetFile) Node_ResetBlockDeliveries net_init
    (if v6 || v4 then Some (NodeDiscovery_Create ifaddrs listenPort) else None) (UdpNode_Init v6 v4).
