(* ===== verification/NetInvariant.v ===== *)
(** * The invariant of the network node

    What every event of the node preserves: sound tables, typed connections with balanced pins, one
    live connection per peer identity and role and none to ourselves, a sound peer table and receipt
    ring; and the chain moves only by its own operations. *)
From S2P Require Import Prelude Bytes UInt256 Utils Crypto Transaction Autolykos2 Block Emission.
From S2P Require Import BalanceSheet Ledger Difficulty DagEpochs Mempool Storage Chain ChainInvariant OrphanPool.
From S2P Require Import Framing Deliveries Peers UdpNode Discovery Protocol ProtocolTheorems NetNode.

(** ** Typed streams *)

Definition stream_typed (s : tcp_stream) : Prop := bytes_ok (headerBuf s) /\ bytes_ok (frameBuf s).

Lemma payload_round_typed s input d s' r :
  stream_typed s -> bytes_ok input -> payload_round s input = (d, s', r) ->
  stream_typed s' /\ bytes_ok r /\ (forall f, d = Some f -> bytes_ok f).
Proof.
  intros [H1 H2] Hi. unfold payload_round, take_payload. cbn [frameBuf expectedPayloadLen].
  set (k := (Z.to_nat (expectedPayloadLen s) - length (frameBuf s))%nat).
  assert (Hf : bytes_ok (frameBuf s ++ take k input)) by (apply bytes_ok_app; auto with bytes).
  destruct (_ =? _); intros E; injection E as <- <- <-; (split; [split; try done; by constructor|split; [by apply bytes_ok_drop|]]);
    intros f E; [by injection E as <-|done].
Qed.

Lemma feed_round_typed s input d s' r :
  stream_typed s -> bytes_ok input -> feed_round s input = Some (d, s', r) ->
  stream_typed s' /\ bytes_ok r /\ (forall f, d = Some f -> bytes_ok f).
Proof.
  intros Hs Hi. pose proof Hs as [H1 H2]. unfold feed_round. destruct (_ <? _)%nat; [|intros E; apply (inj Some) in E; exact (payload_round_typed _ _ _ _ _ Hs Hi E)].
  unfold take_header. set (k := (TCP_FRAME_HEADER_SIZE - length (headerBuf s))%nat). cbn [headerBuf].
  assert (Hh : bytes_ok (headerBuf s ++ take k input)) by (apply bytes_ok_app; auto with bytes).
  assert (Hd : bytes_ok (drop k input)) by auto with bytes.
  destruct (_ <? _)%nat; [intros E; injection E as <- <- <-; by repeat split|].
  cbn [expectedPayloadLen open_frame headerBuf]. destruct (_ <? _); [done|]. destruct (_ =? _).
  - intros E. injection E as <- <- <-. split; [split; constructor|]. split; [done|]. intros f E. injection E as <-. constructor.
  - intros E. apply (inj Some) in E. eapply payload_round_typed; [|exact Hd|exact E]. split; [done|constructor].
Qed.

Lemma feed_loop_typed fuel s input rc frames s' :
  stream_typed s -> bytes_ok input -> feed_loop fuel s input = (rc, frames, s') -> stream_typed s' /\ Forall bytes_ok frames.
Proof.
  revert s input rc frames s'; induction fuel as [|f IH]; intros s input rc frames s' Hs Hi E; cbn [feed_loop] in E.
  { injection E as <- <- <-. by split. }
  destruct (_ =? 0)%nat; [injection E as <- <- <-; by split|].
  destruct (feed_round s input) as [[[d s1] r]|] eqn:Er.
  - destruct (feed_round_typed s input d s1 r Hs Hi Er) as (H1 & H2 & H3).
    destruct (feed_loop f s1 r) as [[rc1 frames1] s2] eqn:El. destruct (IH _ _ _ _ _ H1 H2 El) as [H4 H5].
    injection E as <- <- <-. split; [done|]. destruct d as [x|]; [|done]. constructor; [by apply H3|done].
  - injection E as <- <- <-. split; [split; constructor|constructor].
Qed.

Lemma read_hello_typed payload h :
  bytes_ok payload -> read_hello payload = Some h ->
  (forall p, h_listenPort h = Some p -> is_u16 p) /\ (forall i, h_nodeId h = Some i -> is_u64 i).
Proof.
  intros Hp. unfold read_hello. cbn [Nat.add]. destruct (_ <? _)%nat; [done|]. intros E. injection E as <-. cbn [h_listenPort h_nodeId].
  assert (Hf : forall k m, bytes_ok (take k (drop m payload))) by auto with bytes.
  split; intros v.
  - destruct (Nat.ltb_spec (length payload) 14) as [|Hl]; [done|]. intros E. injection E as <-.
    pose proof (le_val_bounds _ (Hf 2%nat 12%nat)) as Hb. rewrite length_take, length_drop, Nat.min_l in Hb by lia. exact Hb.
  - destruct (Nat.ltb_spec (length payload) 22) as [|Hl]; [done|]. intros E. injection E as <-.
    pose proof (le_val_bounds _ (Hf 8%nat 14%nat)) as Hb. rewrite length_take, length_drop, Nat.min_l in Hb by lia. exact Hb.
Qed.

(** ** The state invariant *)

Section Invariant.
Context {ops : CryptoOps} `{AddrText} {alaws : AddrTextLaws _} {sockets : Sockets} {slaws : SocketLaws sockets}.
Context (clock : node -> nat -> Z) (cfg : config).

(** Fields in range, no partial frame out of range, nobody holds the pointer. *)
Definition conn_good (c : tcp_connection) : Prop := conn_typed c /\ stream_typed (stream c) /\ pinCount c = 0.

(** The connections that count: open, and still served by an io thread. *)
Definition serving (c : tcp_connection) : Prop := closing c = false /\ disconnectedNotified c = false.

(** Apart from [x], no open connection is to ourselves, and no two serving connections of one role
    belong to the same node. *)
Definition ids_ok (x : option ptr) (h : gmap ptr tcp_connection) : Prop :=
  (forall p c, h !! p = Some c -> x <> Some p -> closing c = false -> peerNodeId c <> 0 -> peerNodeId c <> g_localNodeId cfg) /\
  (forall p q c d, h !! p = Some c -> h !! q = Some d -> p <> q -> x <> Some p -> x <> Some q ->
     serving c -> serving d -> role c = role d -> peerNodeId c <> 0 -> peerNodeId c <> peerNodeId d).

Definition sys_ok_but (x : option ptr) (s : system) : Prop :=
  net_ok (sy_net s) /\ (forall p c, conns (sy_net s) !! p = Some c -> conn_good c) /\ ids_ok x (conns (sy_net s)) /\
  (forall d, sy_disc s = Some d -> disc_ok d) /\ deliveries_ok (sy_deliveries s).

Definition sys_ok : system -> Prop := sys_ok_but None.

(** How a heap may change: connections keep role and identity and only go towards closing; new ones
    know no identity. *)
Definition conn_le (c c' : tcp_connection) : Prop :=
  role c' = role c /\ peerNodeId c' = peerNodeId c /\ (serving c' -> serving c) /\ (closing c' = false -> closing c = false).

Definition heap_le (h h' : gmap ptr tcp_connection) : Prop :=
  forall p c', h' !! p = Some c' -> conn_good c' /\ ((exists c, h !! p = Some c /\ conn_le c c') \/ peerNodeId c' = 0).

Lemma ids_heap_le x h h' : heap_le h h' -> ids_ok x h -> ids_ok x h'.
Proof.
  intros Hle [H1 H2]. split.
  - intros p c' Hp Hx Ho Hi. destruct (Hle p c' Hp) as [_ [(c & Hc & _ & Ei & _ & Ec)|E]]; [|done].
    rewrite Ei in *. by apply (H1 p c); auto.
  - intros p q c' d' Hp Hq Hpq Hxp Hxq Sc Sd Er Hi.
    destruct (Hle p c' Hp) as [_ [(c & Hc & Rc & Ic & Lc & _)|E]]; [|done].
    destruct (Hle q d' Hq) as [_ [(d & Hd & Rd & Id & Ld & _)|E]]; [|by rewrite E].
    rewrite Ic, Id in *. apply (H2 p q c d); auto. congruence.
Qed.

Lemma with_net_ok x s n :
  net_ok n -> heap_le (conns (sy_net s)) (conns n) -> sys_ok_but x s -> sys_ok_but x (with_net s n).
Proof.
  intros Hn Hle (_ & _ & H3 & H4). split; [done|]. split; [intros p c Hp; by apply (Hle p c)|]. split; [by eapply ids_heap_le|done].
Qed.

Lemma heap_le_same s x : sys_ok_but x s -> heap_le (conns (sy_net s)) (conns (sy_net s)).
Proof. intros (_ & H2 & _) p c Hp. split; [by apply (H2 p)|]. left. exists c. split; [done|]. by split. Qed.

Lemma same_conns_ok x s n : net_ok n -> conns n = conns (sy_net s) -> sys_ok_but x s -> sys_ok_but x (with_net s n).
Proof. intros Hn E Hs. apply with_net_ok; [done| |done]. rewrite E. by eapply heap_le_same. Qed.

(** An update of one connection. *)
Lemma on_conn_sys_ok x s p f :
  (forall c, conn_le c (f c)) -> (forall c, conn_good c -> conn_good (f c)) -> sys_ok_but x s ->
  sys_ok_but x (with_net s (on_conn f p (sy_net s))).
Proof.
  intros Hf Hg Hs. pose proof Hs as (H1 & H2 & _). apply with_net_ok; [apply on_conn_ok; [intros c; apply Hf|done]| |done].
  intros q c' Hq. cbn [on_conn with_conns conns] in Hq. destruct (decide (p = q)) as [<-|Hne].
  - rewrite lookup_alter_eq in Hq. destruct (conns (sy_net s) !! p) as [c|] eqn:Ec; [|done]. cbn in Hq. injection Hq as <-.
    split; [by apply Hg, (H2 p)|]. left. by exists c.
  - rewrite lookup_alter_ne in Hq by done. by apply (heap_le_same s x).
Qed.

Lemma on_disc_ok x s f : (forall d, disc_ok d -> disc_ok (f d)) -> sys_ok_but x s -> sys_ok_but x (on_disc f s).
Proof.
  intros Hf Hs. pose proof Hs as (H1 & H2 & H3 & H4 & H5). unfold on_disc. destruct (sy_disc s) as [d|] eqn:Ed; [|done].
  split; [done|]. split; [done|]. split; [done|]. split; [|done]. intros d' E. injection E as <-. by apply Hf, H4.
Qed.

Lemma close_le c : conn_le c (TcpConnection_RequestClose c).
Proof. split; [done|]. split; [done|]. by split; [intros [? ?]|]. Qed.

Lemma mark_le c : conn_le c (TcpConnection_MarkDisconnectNotified c).
Proof. split; [done|]. split; [done|]. by split; [intros [? ?]|]. Qed.

(** Closing [x] settles the exception. *)
Lemma close_settles s p : sys_ok_but (Some p) s -> sys_ok (close s p).
Proof.
  intros Hs. assert (Hc : sys_ok_but (Some p) (close s p)) by (apply on_conn_sys_ok; [apply close_le|done|done]).
  destruct Hc as (H1 & H2 & [I1 I2] & H4). split; [done|]. split; [done|]. split; [|done].
  assert (Hp : forall c, conns (sy_net (close s p)) !! p = Some c -> closing c = true).
  { intros c. cbn [close with_net sy_net on_conn with_conns conns]. rewrite lookup_alter_eq. destruct (conns (sy_net s) !! p); [|done].
    cbn. intros E. by injection E as <-. }
  split.
  - intros q c Hq _ Ho. destruct (decide (q = p)) as [->|Hne]; [rewrite (Hp c Hq) in Ho; done|]. apply I1 with q; [done|congruence|done].
  - intros q r c d Hq Hr Hne _ _ Sc Sd.
    destruct (decide (q = p)) as [->|Hqp]; [destruct Sc as [Sc _]; rewrite (Hp c Hq) in Sc; done|].
    destruct (decide (r = p)) as [->|Hrp]; [destruct Sd as [Sd _]; rewrite (Hp d Hr) in Sd; done|].
    apply (I2 q r c d); congruence.
Qed.

Lemma weaken_but p s : sys_ok s -> sys_ok_but (Some p) s.
Proof.
  intros (H1 & H2 & [I1 I2] & H4). split; [done|]. split; [done|]. split; [|done]. split.
  - intros q c Hq _. by apply (I1 q c).
  - intros q r c d Hq Hr Hne _ _. by apply (I2 q r c d).
Qed.

(** ** Safe moves *)

(** The invariant is kept and the chain moves by its own operations. *)
Definition safe (x : option ptr) (s s' : system) : Prop :=
  (sys_ok_but x s -> sys_ok_but x s') /\ rtc live_step (chain_of s) (chain_of s').

#[local] Instance safe_refl x : Reflexive (safe x).
Proof. intros s. by split; [|apply rtc_refl]. Qed.
#[local] Instance safe_trans x : Transitive (safe x).
Proof. intros a b c [H1 H2] [H3 H4]. split; [auto|by etrans]. Qed.

Lemma net_safe x s n :
  (sys_ok_but x s -> net_ok n /\ conns n = conns (sy_net s)) -> safe x s (with_net s n).
Proof. intros Hn. split; [|apply rtc_refl]. intros Hs. destruct (Hn Hs). by apply same_conns_ok. Qed.

Lemma SendPacket_conns n p t payload : conns (snd (Node_SendPacket sock n p t payload)) = conns n.
Proof. unfold Node_SendPacket. destruct (negb _); [done|]. destruct (_ <? _); [done|]. by destruct (sock p _). Qed.

Lemma send_all_conns n ps t payload : conns (snd (send_all sock n ps t payload)) = conns n.
Proof.
  revert n; induction ps as [|p r IH]; intros n; [done|]. cbn [send_all]. pose proof (SendPacket_conns n p t payload) as E.
  destruct (Node_SendPacket sock n p t payload) as [rc m]. specialize (IH m). destruct (send_all sock m r t payload). cbn [snd] in *. congruence.
Qed.

Lemma send_safe x s p t payload : safe x s (send s p t payload).
Proof. apply net_safe. intros (H1 & _). split; [by apply SendPacket_ok|apply SendPacket_conns]. Qed.

Lemma close_safe x s p : safe x s (close s p).
Proof. split; [|apply rtc_refl]. apply on_conn_sys_ok; [apply close_le|done]. Qed.

Lemma error_close_safe x s p msg : safe x s (send_error_and_close s p msg).
Proof. etrans; [apply send_safe|apply close_safe]. Qed.

Lemma chain_on_disc f s : chain_of (on_disc f s) = chain_of s.
Proof. unfold on_disc. by destruct (sy_disc s). Qed.

Lemma disc_safe x s f : (forall d, discovery_step d (f d)) -> safe x s (on_disc f s).
Proof.
  intros Hf. split; [|by rewrite chain_on_disc]. apply on_disc_ok. intros d. by apply discovery_step_ok.
Qed.

Lemma count_safe x s k : safe x s (with_net s (with_outboundCount (sy_net s) k)).
Proof. apply net_safe. intros (H1 & _). split; [|done]. by apply (net_ok_same (sy_net s)). Qed.

(** ** Opening *)

Lemma new_conn_good a r : match a with AF_INET ip p => bytes_n 4 ip /\ is_u16 p | AF_INET6 ip p => bytes_n 16 ip /\ is_u16 p end ->
  conn_good (TcpConnection_Init a r).
Proof. intros Ha. split; [|split; [split; constructor|done]]. split; [exact Ha|]. cbn. split; [unfold is_u16; lia|unfold_cint; lia]. Qed.

Lemma add_conn_ok x s n p c :
  net_ok n -> conns n = <[p := c]> (conns (sy_net s)) -> conn_good c -> peerNodeId c = 0 -> sys_ok_but x s -> sys_ok_but x (with_net s n).
Proof.
  intros Hn Ec Hg Hi Hs. apply with_net_ok; [done| |done]. rewrite Ec. intros q d Hq. destruct (decide (p = q)) as [<-|Hne].
  - rewrite lookup_insert_eq in Hq. injection Hq as <-. by split; [|right].
  - rewrite lookup_insert_ne in Hq by done. by apply (heap_le_same s x).
Qed.

Lemma connect_conns n slot ip port dialled :
  is_u16 port ->
  let r := TcpClient_Connect n slot ip port dialled in
  (fst r = -1 /\ snd r = n) \/
  (fst r = 0 /\ exists p c, dialled = Some p /\ conns (snd r) = <[p := c]> (conns n) /\ conn_good c /\ peerNodeId c = 0 /\ role c = OUTBOUND).
Proof.
  intros Hp. unfold TcpClient_Connect. destruct (outboundClients n !! slot) as [[[q|] h]|]; [by left| |by left].
  destruct (inet_pton6 ip) as [a|] eqn:E6; [destruct dialled as [p|]; [|by left]|].
  - right. split; [done|]. eexists p, _. split; [done|]. split; [done|]. split; [|done]. apply new_conn_good. split; [by eapply pton6_ok|done].
  - destruct (inet_pton4 ip) as [a|] eqn:E4; [|by left]. destruct dialled as [p|]; [|by left]. right. split; [done|]. eexists p, _.
    split; [done|]. split; [done|]. split; [|done]. apply new_conn_good. split; [by eapply pton4_ok|done].
Qed.

Lemma connect_peer_safe x s ip port : safe x s (snd (Node_ConnectPeer cfg s ip port)).
Proof.
  unfold Node_ConnectPeer. destruct (match NetNode_MakeEndpoint _ _ with Some t => _ | None => _ end); [reflexivity|].
  destruct (match NetNode_MakeEndpoint _ _ with Some t => _ | None => _ end); [reflexivity|].
  destruct (first_index _ 0 _) as [i|]; [|reflexivity].
  assert (Hu : is_u16 (u16 port)) by (unfold is_u16, u16; apply Z.mod_pos_bound; lia).
  pose proof (connect_ok (sy_net s) i ip (u16 port) (dial (sy_net s) ip (u16 port))) as Hok.
  pose proof (connect_conns (sy_net s) i ip (u16 port) (dial (sy_net s) ip (u16 port)) Hu) as Hc.
  destruct (TcpClient_Connect _ _ _ _ _) as [rc n]. cbn [fst snd] in *.
  destruct Hc as [[-> ->]|(-> & p & c & Ed & Ec & Hg & Hi & _)]; [reflexivity|]. cbn [Z.eqb]. rewrite Ed. cbn [snd].
  etrans; [|apply count_safe]. etrans; [|apply send_safe]. split; [|apply rtc_refl]. intros Hs.
  apply (add_conn_ok x s n p c); try done. apply Hok; [apply Hs|]. intros q Eq. by eapply dial_fresh.
Qed.

Lemma startup_safe x s peers : safe x s (snd (Node_ConnectStartupPeers cfg s peers)).
Proof.
  revert s; induction peers as [|[ip port] r IH]; intros s; [reflexivity|]. cbn [Node_ConnectStartupPeers].
  pose proof (connect_peer_safe x s ip port) as H1. destruct (Node_ConnectPeer cfg s ip port) as [rc s1]. cbn [snd] in H1.
  specialize (IH s1). destruct (Node_ConnectStartupPeers cfg s1 r) as [k s2]. cbn [snd] in *. by etrans.
Qed.

Lemma server_connect_safe x s p : safe x s (Node_Server_OnConnect cfg s p).
Proof.
  unfold Node_Server_OnConnect. destruct (g_echoPeersEnabled cfg); [|reflexivity]. destruct (conns (sy_net s) !! p); [|reflexivity].
  destruct (existsb _ _); [reflexivity|]. apply connect_peer_safe.
Qed.

(** ** Closing *)

Lemma disconnect_safe x s p : safe x s (Node_HandlePeerDisconnect s p).
Proof.
  unfold Node_HandlePeerDisconnect. destruct (c ← conns (sy_net s) !! p; _) as [[c ep]|]; [|reflexivity].
  destruct (Node_HasLiveConnectionTo _ _ _ _); [reflexivity|]. apply disc_safe. intros d. constructor.
Qed.

Lemma mark_safe x s p : safe x s (with_net s (on_conn TcpConnection_MarkDisconnectNotified p (sy_net s))).
Proof. split; [|apply rtc_refl]. apply on_conn_sys_ok; [apply mark_le|done]. Qed.

Lemma client_disconnect_safe x s p : safe x s (Node_Client_OnDisconnect s p).
Proof.
  unfold Node_Client_OnDisconnect. etrans; [|apply disconnect_safe].
  apply net_safe. intros (H1 & _). pose proof (record_height_ok p 0 (sy_net s) H1) as Hr.
  destruct (0 <? _); [|done]. split; [|done]. by apply (net_ok_same (record_height p 0 (sy_net s))).
Qed.

(** Connections that leave. *)
Lemma fewer_conns_ok x s n :
  net_ok n -> (forall p c, conns n !! p = Some c -> conns (sy_net s) !! p = Some c) -> sys_ok_but x s -> sys_ok_but x (with_net s n).
Proof. intros Hn Hc Hs. apply with_net_ok; [done| |done]. intros p c Hp. by apply (heap_le_same s x Hs), Hc. Qed.

Lemma net_on_disc f s : sy_net (on_disc f s) = sy_net s.
Proof. unfold on_disc. by destruct (sy_disc s). Qed.

Lemma net_disconnect s p : sy_net (Node_HandlePeerDisconnect s p) = sy_net s.
Proof.
  unfold Node_HandlePeerDisconnect. destruct (c ← conns (sy_net s) !! p; _) as [[c ep]|]; [|done].
  destruct (Node_HasLiveConnectionTo _ _ _ _); [done|]. apply net_on_disc.
Qed.

Lemma inbound_in_table n p c : net_ok n -> conns n !! p = Some c -> role c = INBOUND -> p ∈ inbound_ptrs n.
Proof.
  intros (_ & _ & _ & H4 & _ & H6) Hp Hr. destruct (proj1 (elem_of_app _ _ _) (H6 p ltac:(by eexists))) as [Hin|Hin]; [|done].
  destruct (H4 p Hin) as (d & Hd & Ed). congruence.
Qed.

Lemma remove_safe x s p c :
  conns (sy_net s) !! p = Some c -> role c = INBOUND -> safe x s (with_net s (TcpServer_RemoveClientByPtrUnlocked (sy_net s) p)).
Proof.
  intros Hp Hr. split; [|apply rtc_refl]. intros Hs. pose proof Hs as (H1 & _).
  apply fewer_conns_ok; [apply remove_ok; [done|by eapply inbound_in_table]| |done].
  intros q d. unfold TcpServer_RemoveClientByPtrUnlocked. cbn [conns]. intros Hq. apply lookup_delete_Some in Hq. tauto.
Qed.

Lemma io_exit_safe x s p : safe x s (io_exit s p).
Proof.
  unfold io_exit. destruct (conns (sy_net s) !! p) as [c|] eqn:Ec; [|reflexivity]. destruct (role c) eqn:Er.
  - set (s1 := close s p). set (s2 := with_net s1 _). unfold Node_Server_OnDisconnect.
    assert (H2 : safe x s (Node_HandlePeerDisconnect s2 p)).
    { etrans; [apply (close_safe x s p)|]. etrans; [apply mark_safe|]. apply disconnect_safe. }
    etrans; [exact H2|]. set (s3 := Node_HandlePeerDisconnect s2 p).
    apply (remove_safe x s3 p (TcpConnection_MarkDisconnectNotified (TcpConnection_RequestClose c))); [|done].
    unfold s3. rewrite net_disconnect. cbn [s2 s1 close with_net sy_net on_conn with_conns conns]. by rewrite !lookup_alter_eq, Ec.
  - etrans; [apply mark_safe|]. apply client_disconnect_safe.
Qed.

(** ** Handshakes *)

Lemma learn_ok s p h :
  (forall v, h_listenPort h = Some v -> is_u16 v) -> (forall v, h_nodeId h = Some v -> is_u64 v) -> sys_ok s ->
  sys_ok_but (Some p) (with_net s (on_conn (learn_hello h) p (sy_net s))).
Proof.
  intros Hl Hi (H1 & H2 & [I1 I2] & H4). split; [by apply on_conn_ok|].
  assert (Hne : forall q, q <> p -> conns (on_conn (learn_hello h) p (sy_net s)) !! q = conns (sy_net s) !! q)
    by (intros q Hq; by apply lookup_alter_ne).
  split; [|split; [split|done]].
  - intros q c Hq. destruct (decide (q = p)) as [->|Hqp]; [|cbn [with_net sy_net] in Hq; rewrite Hne in Hq by done; by apply (H2 q)].
    cbn [with_net sy_net on_conn with_conns conns] in Hq. rewrite lookup_alter_eq in Hq.
    destruct (conns (sy_net s) !! p) as [d|] eqn:Ed; [|done]. cbn in Hq. injection Hq as <-.
    destruct (H2 p d Ed) as ((A & B & C) & D & E). split; [|done]. split; [done|]. cbn [learn_hello peerListenPort peerNodeId].
    destruct (h_listenPort h), (h_nodeId h); cbn [default]; auto.
  - intros q c Hq Hx. cbn [with_net sy_net] in Hq. rewrite Hne in Hq by congruence. by apply (I1 q c).
  - intros q r c d Hq Hr Hqr Hxq Hxr. cbn [with_net sy_net] in Hq, Hr. rewrite Hne in Hq, Hr by congruence. by apply (I2 q r c d).
Qed.

Lemma scan_false n p r id q d :
  net_ok n -> Node_HasOtherConnectionToNode n p r id = false -> id <> 0 -> conns n !! q = Some d -> q <> p ->
  disconnectedNotified d = false -> role d = r -> peerNodeId d <> id.
Proof.
  intros (_ & _ & _ & _ & _ & H6) E Hi Hq Hne Hn Hr Hd. unfold Node_HasOtherConnectionToNode in E. rewrite (proj2 (Z.eqb_neq _ _) Hi) in E.
  apply orb_false_iff in E as [E1 E2].
  assert (Hin : ((q, d) ∈ outbound_conns n) \/ ((q, d) ∈ inbound_conns n)).
  { rewrite outbound_conns_alt, inbound_conns_alt, !elem_of_deref. destruct (proj1 (elem_of_app _ _ _) (H6 q ltac:(by eexists))); auto. }
  assert (T : other_live p (q, d) && bool_decide (role d = r) && (peerNodeId d =? id) = true).
  { unfold other_live. cbn [fst snd]. rewrite (proj2 (Nat.eqb_neq _ _) Hne), Hn, Hd, Z.eqb_refl, bool_decide_true by done. done. }
  destruct Hin as [Hin|Hin]; [apply not_true_iff_false in E1; apply E1|apply not_true_iff_false in E2; apply E2];
    apply existsb_exists; exists (q, d); (split; [by apply list_elem_of_In|exact T]).
Qed.

(** Passing the identity check settles the exception. *)
Lemma identity_settles s p :
  sys_ok_but (Some p) s -> fst (Node_CheckPeerIdentity cfg s p) = NODE_IDENTITY_OK -> sys_ok (snd (Node_CheckPeerIdentity cfg s p)).
Proof.
  intros Hs E.
  assert (Hid : forall c, conns (sy_net s) !! p = Some c -> peerNodeId c = 0 \/
     (peerNodeId c <> 0 /\ peerNodeId c <> g_localNodeId cfg /\ Node_HasOtherConnectionToNode (sy_net s) p (role c) (peerNodeId c) = false)).
  { intros c Hc. unfold Node_CheckPeerIdentity in E. rewrite Hc in E. destruct (Z.eqb_spec (peerNodeId c) 0) as [|Hz]; [by left|right].
    destruct (Z.eqb_spec (peerNodeId c) (g_localNodeId cfg)) as [|Hl]; [done|]. split; [done|]. split; [done|].
    destruct (Node_ConnListenEndpoint c); rewrite ?net_on_disc in E; by destruct (Node_HasOtherConnectionToNode _ _ _ _). }
  assert (Hd : sys_ok_but (Some p) (snd (Node_CheckPeerIdentity cfg s p)) /\ sy_net (snd (Node_CheckPeerIdentity cfg s p)) = sy_net s).
  { unfold Node_CheckPeerIdentity. destruct (conns (sy_net s) !! p) as [c|]; [|done]. destruct (_ =? 0); [done|].
    destruct (_ =? g_localNodeId cfg); destruct (Node_ConnListenEndpoint c) as [e|]; cbn [snd];
      try (destruct (Node_HasOtherConnectionToNode _ _ _ _)); cbn [snd]; try done;
      (split; [apply on_disc_ok; [|done]|apply net_on_disc]); intros d; apply discovery_step_ok; constructor. }
  destruct Hd as [(H1 & H2 & [I1 I2] & H4) En]. split; [done|]. split; [done|]. split; [|done]. rewrite En in *. split.
  - intros q c Hq _ Ho Hz. destruct (decide (q = p)) as [->|Hne]; [|by apply (I1 q c); auto; congruence].
    destruct (Hid c Hq) as [|(_ & ? & _)]; done.
  - intros q r c d Hq Hr Hqr _ _ Sc Sd Er Hz.
    destruct (decide (q = p)) as [->|Hqp].
    + destruct (Hid c Hq) as [|(_ & _ & Hscan)]; [done|]. intros Ei. symmetry in Ei.
      by apply (scan_false (sy_net s) p (role c) (peerNodeId c) r d H1 Hscan Hz Hr (not_eq_sym Hqr) (proj2 Sd) (eq_sym Er)).
    + destruct (decide (r = p)) as [->|Hrp]; [|by apply (I2 q r c d); congruence]. intros Ei.
      destruct (Hid d Hr) as [Hd0|(Hd0 & _ & Hscan)]; [congruence|].
      by apply (scan_false (sy_net s) p (role d) (peerNodeId d) q c H1 Hscan Hd0 Hq Hqr (proj2 Sc) Er).
Qed.

Lemma identity_but s p : sys_ok_but (Some p) s -> sys_ok_but (Some p) (snd (Node_CheckPeerIdentity cfg s p)).
Proof.
  intros Hs. unfold Node_CheckPeerIdentity. destruct (conns (sy_net s) !! p) as [c|]; [|done]. destruct (_ =? 0); [done|].
  destruct (_ =? g_localNodeId cfg); destruct (Node_ConnListenEndpoint c) as [e|]; cbn [snd];
    try (destruct (Node_HasOtherConnectionToNode _ _ _ _)); cbn [snd]; try done;
    (apply on_disc_ok; [|done]); intros d; apply discovery_step_ok; constructor.
Qed.

Lemma chain_identity s p : chain_of (snd (Node_CheckPeerIdentity cfg s p)) = chain_of s.
Proof.
  unfold Node_CheckPeerIdentity. destruct (conns (sy_net s) !! p) as [c|]; [|done]. destruct (_ =? 0); [done|].
  destruct (_ =? g_localNodeId cfg); destruct (Node_ConnListenEndpoint c) as [e|]; cbn [snd];
    try (destruct (Node_HasOtherConnectionToNode _ _ _ _)); cbn [snd]; try done; apply chain_on_disc.
Qed.

(** A handshake: learn, (answer,) check, and go on or close. *)
Lemma handshake_safe s p payload s1 k :
  bytes_ok payload -> (forall h, read_hello payload = Some h ->
    chain_of (s1 h) = chain_of s /\ (sys_ok s -> sys_ok_but (Some p) (s1 h)) /\ (forall s2, safe None s2 (k h s2))) ->
  safe None s
    (match read_hello payload with
     | None => s
     | Some h => match Node_CheckPeerIdentity cfg (s1 h) p with (NODE_IDENTITY_OK, s) => k h s | (_, s) => close s p end
     end).
Proof.
  intros Hb H1. destruct (read_hello payload) as [h|] eqn:Eh; [|reflexivity]. destruct (H1 h eq_refl) as (Ec & Hs1 & Hk).
  pose proof (identity_settles (s1 h) p) as Hset. pose proof (identity_but (s1 h) p) as Hbut. pose proof (chain_identity (s1 h) p) as Hch.
  destruct (Node_CheckPeerIdentity cfg (s1 h) p) as [r s2]. cbn [fst snd] in *. rewrite Ec in Hch.
  assert (Hbad : safe None s (close s2 p)).
  { split; [intros Hs; apply close_settles; auto|]. change (chain_of (close s2 p)) with (chain_of s2). by rewrite Hch. }
  destruct r; [|exact Hbad..]. trans s2; [|apply Hk]. split; [intros Hs; apply Hset; auto|by rewrite Hch].
Qed.

Lemma hello_safe s p payload : bytes_ok payload -> safe None s (on_hello cfg s p payload).
Proof.
  intros Hb. unfold on_hello.
  eapply (handshake_safe s p payload
    (fun h => let s1 := with_net s (on_conn (learn_hello h) p (sy_net s)) in
       send s1 p PACKET_TYPE_ACK_HELLO (hello_bytes (h_protoVersion h) (Node_GetCurrentBlockHeight s1) (u16 (g_listenPort cfg)) (g_localNodeId cfg)))
    (fun h s => match client ← conns (sy_net s) !! p;
         if (peerNodeId client =? 0) && negb (peerListenPort client =? 0) then Node_ConnListenEndpoint client else None with
       | Some ep => if Node_HasOtherInboundFrom (sy_net s) p ep then close s p else s | None => s end)); [done|].
  intros h Eh. destruct (read_hello_typed payload h Hb Eh) as [T1 T2]. split; [done|]. split.
  - intros Hs. apply send_safe. by apply learn_ok.
  - intros s2. destruct (conns (sy_net s2) !! p) as [c|]; cbn [mbind option_bind]; [|reflexivity].
    destruct (if _ && _ then _ else _) as [ep|]; [|reflexivity]. destruct (Node_HasOtherInboundFrom _ _ _); [apply close_safe|reflexivity].
Qed.

Lemma ack_hello_safe s p payload : bytes_ok payload -> safe None s (on_ack_hello cfg s p payload).
Proof.
  intros Hb. unfold on_ack_hello.
  eapply (handshake_safe s p payload (fun h => with_net s (on_conn (learn_hello h) p (sy_net s)))
    (fun h s => with_net s (record_height p (h_blockHeight h) (sy_net s)))); [done|].
  intros h Eh. destruct (read_hello_typed payload h Hb Eh) as [T1 T2]. split; [done|]. split; [by apply learn_ok|].
  intros s2. apply net_safe. intros (H1 & _). split; [by apply record_height_ok|done].
Qed.

(** ** Relaying leaves the connections as they were *)

Lemma relay_loop_ok n ps payload : net_ok n -> net_ok (snd (relay_loop n ps payload)).
Proof.
  revert n; induction ps as [|p r IH]; intros n Hn; [done|]. cbn [relay_loop].
  pose proof (SendPacket_ok sock n p PACKET_TYPE_BROADCAST_BLOCK payload Hn) as H1.
  destruct (Node_SendPacket sock n p _ payload) as [rc m]. cbn [snd] in H1.
  specialize (IH (on_conn TcpConnection_Unpin p m) (on_conn_ok TcpConnection_Unpin p m ltac:(done) H1)). by destruct (relay_loop _ r payload).
Qed.

Lemma pin_all_ok n ps : net_ok n -> net_ok (foldr (on_conn TcpConnection_Pin) n ps).
Proof. intros Hn. induction ps as [|p r IH]; [done|]. cbn [foldr]. by apply on_conn_ok. Qed.

Lemma alter_swap (f g : tcp_connection -> tcp_connection) p q (h : gmap ptr tcp_connection) :
  (forall c, f (g c) = g (f c)) -> alter f p (alter g q h) = alter g q (alter f p h).
Proof.
  intros Hfg. destruct (decide (p = q)) as [<-|Hne]; [|by apply alter_alter_ne].
  rewrite !alter_alter_eq. apply alter_ext. intros c _. apply Hfg.
Qed.

Lemma pin_unpin c : TcpConnection_Unpin (TcpConnection_Pin c) = c /\ TcpConnection_Pin (TcpConnection_Unpin c) = c.
Proof. destruct c. unfold TcpConnection_Unpin, TcpConnection_Pin. cbn. split; f_equal; lia. Qed.

Lemma alter_foldr (f g : tcp_connection -> tcp_connection) p n ps :
  (forall c, f (g c) = g (f c)) -> conns (foldr (on_conn g) (on_conn f p n) ps) = alter f p (conns (foldr (on_conn g) n ps)).
Proof.
  intros Hfg. induction ps as [|q r IH]; [done|]. cbn [foldr on_conn with_conns conns] in *. rewrite IH. by apply alter_swap.
Qed.

(** Each round of the send loop takes back one pin. *)
Lemma relay_loop_conns n ps payload :
  conns (snd (relay_loop n ps payload)) = conns (foldr (on_conn TcpConnection_Unpin) n ps).
Proof.
  revert n; induction ps as [|p r IH]; intros n; [done|]. cbn [relay_loop foldr].
  pose proof (SendPacket_conns n p PACKET_TYPE_BROADCAST_BLOCK payload) as E.
  destruct (Node_SendPacket sock n p _ payload) as [rc m]. cbn [snd] in E.
  specialize (IH (on_conn TcpConnection_Unpin p m)). destruct (relay_loop _ r payload) as [k m']. cbn [snd] in *. rewrite IH.
  rewrite alter_foldr by done. cbn [on_conn with_conns conns]. f_equal. clear -E.
  induction r as [|t r IH]; [done|]. cbn [foldr on_conn with_conns conns]. by rewrite IH.
Qed.

Lemma unpins_pins n ps : conns (foldr (on_conn TcpConnection_Unpin) (foldr (on_conn TcpConnection_Pin) n ps) ps) = conns n.
Proof.
  induction ps as [|p r IH]; [done|]. cbn [foldr on_conn with_conns conns].
  rewrite alter_foldr by (intros c; destruct (pin_unpin c) as [-> ->]; done). rewrite IH.
  rewrite alter_alter_eq. apply alter_id. intros c _. apply pin_unpin.
Qed.

Lemma relay_block_ok st n h src : net_ok n -> net_ok (relay_block st n h src) /\ conns (relay_block st n h src) = conns n.
Proof.
  intros Hn. unfold relay_block. destruct (find_block _ _) as [hdr txs| |]; [|done..]. case_bool_decide; [done|].
  set (ps := map fst _). set (n1 := foldr _ n ps). set (payload := block_payload _ _ _).
  pose proof (relay_loop_ok n1 ps payload (pin_all_ok n ps Hn)) as Hok.
  assert (Ec : conns (snd (relay_loop n1 ps payload)) = conns n).
  { rewrite relay_loop_conns. unfold n1. by rewrite unpins_pins. }
  destruct (relay_loop n1 ps payload) as [k n2]. cbn [snd] in *. destruct (0 <? k)%nat; [|done]. split; [|done]. by apply (net_ok_same n2).
Qed.

Lemma broadcast_range_safe x s start src : safe x s (Node_BroadcastChainRange s start src).
Proof.
  unfold Node_BroadcastChainRange. destruct (_ <=? start); [reflexivity|]. apply net_safe. intros (H1 & _). revert H1.
  generalize (sy_net s). induction (seq _ _) as [|h l IH]; intros n Hn; [done|]. cbn [fold_left].
  destruct (relay_block_ok (chain_of s) n h src Hn) as [Hn' Ec]. destruct (IH _ Hn') as [Hok E]. split; [exact Hok|congruence].
Qed.

Lemma broadcast_tx_safe x s tx ex : safe x s (Node_BroadcastTransaction s tx ex).
Proof. apply net_safe. intros (H1 & _). split; [by apply send_all_ok|apply send_all_conns]. Qed.

(** ** Blocks and transactions *)

Lemma store_safe x s y : rtc live_step (chain_of s) (st_chain y) -> safe x s (with_store s y).
Proof. intros Hr. by split. Qed.

Lemma accept_into_safe x s payload : safe x s (snd (accept_into clock cfg s payload)).
Proof.
  unfold accept_into. pose proof (accept_steps clock (g_forceOrphanReorgEnabled cfg) (sy_store s) payload true) as Hr.
  destruct (Node_ParseAndAcceptBlock _ _ _ _ _) as [r y]. by apply store_safe.
Qed.

Lemma transaction_safe x s p payload now : safe x s (on_transaction s p payload now).
Proof.
  unfold on_transaction. destruct (negb _); [reflexivity|]. destruct (read_signed_transaction payload) as [[tx r]|]; [|reflexivity].
  destruct (negb _); [reflexivity|]. destruct (negb _); [reflexivity|]. destruct (TxMempool_Lookup _ _); [reflexivity|].
  pose proof (pool_insert (g_txMempool (chain_of s)) tx) as Hm. destruct (TxMempool_Insert _ tx) as [rc pool]. cbn [snd] in Hm.
  set (s1 := with_store s _). assert (H1 : safe x s s1) by (apply store_safe, rtc_once; by constructor).
  destruct (0 <=? rc); [|exact H1]. etrans; [exact H1|]. apply broadcast_tx_safe.
Qed.

Lemma broadcast_server_safe x s p payload : safe x s (on_broadcast_server clock cfg s p payload).
Proof.
  unfold on_broadcast_server. destruct (_ <? 8)%nat; [reflexivity|]. pose proof (accept_into_safe x s payload) as H1.
  destruct (accept_into clock cfg s payload) as [r s1]. cbn [snd] in H1. destruct r; try exact H1. etrans; [exact H1|]. apply broadcast_range_safe.
Qed.

Lemma accepted_from_safe x s p h r : safe x s (accepted_from s p h r).
Proof.
  destruct r; cbn [accepted_from]; try reflexivity. etrans; [|apply broadcast_range_safe].
  apply net_safe. intros (H1 & _). split; [by apply raise_height_ok|done].
Qed.

Lemma broadcast_client_safe x s p payload : safe x s (on_broadcast_client clock cfg s p payload).
Proof.
  unfold on_broadcast_client. destruct (_ <? 8)%nat; [reflexivity|]. pose proof (accept_into_safe x s payload) as H1.
  destruct (accept_into clock cfg s payload) as [r s1]. etrans; [exact H1|]. apply accepted_from_safe.
Qed.

Lemma block_data_safe x s p payload : safe x s (on_block_data clock cfg s p payload).
Proof.
  unfold on_block_data. destruct (_ <? 8)%nat; [reflexivity|]. pose proof (accept_into_safe x s payload) as H1.
  destruct (accept_into clock cfg s payload) as [r s1]. etrans; [exact H1|]. etrans; [|apply accepted_from_safe].
  split; [|apply rtc_refl]. intros (A & B & C & D & E). split; [done|]. split; [done|]. split; [done|]. split; [done|]. by apply note_ok.
Qed.

(** ** Packets *)

Lemma get_peers_safe x s p random : safe x s (on_get_peers s p random).
Proof. unfold on_get_peers. destruct (sy_disc s), (conns (sy_net s) !! p); try reflexivity. apply send_safe. Qed.

Lemma peers_safe x s p payload : safe x s (on_peers s p payload).
Proof. unfold on_peers. destruct (conns (sy_net s) !! p); [|reflexivity]. apply disc_safe. intros d. constructor. Qed.

Lemma fetch_safe x s p payload : safe x s (on_fetch_block s p payload).
Proof. unfold on_fetch_block. destruct (negb _); [reflexivity|]. destruct (fetch_answer s _). apply send_safe. Qed.

Lemma on_data_safe s p data now random : bytes_ok data -> safe None s (on_data clock cfg s p data now random).
Proof.
  intros Hb. unfold on_data. destruct (conns (sy_net s) !! p) as [c|]; [|reflexivity].
  assert (Hd : forall t payload, Node_DecodePacket data = Some (t, payload) -> bytes_ok payload).
  { intros t payload. destruct data as [|b r]; [done|]. cbn [Node_DecodePacket]. destruct (PacketType_IsValid b); [|done].
    intros E. injection E as <- <-. by apply Forall_cons_iff in Hb as [_ Hb]. }
  destruct (role c); unfold Node_Server_OnData, Node_Client_OnData; (destruct (Node_DecodePacket data) as [[t payload]|]; [|reflexivity]);
    specialize (Hd _ _ eq_refl);
    repeat match goal with |- context [if ?b then _ else _] => destruct b end;
    first [reflexivity|apply error_close_safe|by apply hello_safe|by apply ack_hello_safe|apply fetch_safe|apply broadcast_server_safe
          |apply broadcast_client_safe|apply block_data_safe|apply transaction_safe|apply get_peers_safe|apply peers_safe].
Qed.

(** ** Threads *)

Lemma frames_safe s p frames now random :
  Forall bytes_ok frames -> safe None s (fold_left (fun s frame => on_data clock cfg s p frame now random) frames s).
Proof.
  intros Hf. revert s; induction Hf as [|f r Hb _ IH]; intros s; [reflexivity|]. cbn [fold_left]. etrans; [by apply on_data_safe|apply IH].
Qed.

Lemma io_recv_ok s p chunk now random :
  bytes_ok chunk -> sys_ok s ->
  sys_ok (io_recv clock cfg s p chunk now random) /\ rtc live_step (chain_of s) (chain_of (io_recv clock cfg s p chunk now random)).
Proof.
  intros Hb Hs. unfold io_recv. destruct (conns (sy_net s) !! p) as [c|] eqn:Ec; [|by split; [|apply rtc_refl]].
  destruct (disconnectedNotified c); [by split; [|apply rtc_refl]|].
  destruct (TcpConnection_FeedFramedData (stream c) chunk) as [[rc frames] st] eqn:Ef.
  pose proof Hs as (_ & Hgood & _). destruct (Hgood p c Ec) as (T1 & T2 & T3).
  destruct (feed_loop_typed _ _ _ _ _ _ T2 Hb Ef) as [Hst Hfr]. set (s1 := with_net s _).
  assert (Hs1 : sys_ok s1) by (apply on_conn_sys_ok; [intros d; exact (conj eq_refl (conj eq_refl (conj (fun x => x) (fun x => x))))|intros d (A & B & C); exact (conj A (conj Hst C))|done]).
  destruct (frames_safe s1 p frames now random Hfr) as [Hk Hr]. set (s2 := fold_left _ frames s1) in *.
  destruct (rc =? 0); [split; [by apply Hk|exact Hr]|]. destruct (io_exit_safe None s2 p) as [He Hr2].
  split; [by apply He, Hk|]. etrans; [exact Hr|exact Hr2].
Qed.

Lemma accept_safe x s p a :
  match a with AF_INET ip q => bytes_n 4 ip /\ is_u16 q | AF_INET6 ip q => bytes_n 16 ip /\ is_u16 q end ->
  conns (sy_net s) !! p = None -> safe x s (server_accept cfg s p a).
Proof.
  intros Ha Hp. unfold server_accept. destruct (TcpServer_accept (sy_net s) p a) as [n|] eqn:E; [|reflexivity].
  etrans; [|apply server_connect_safe]. split; [|apply rtc_refl]. intros Hs. pose proof Hs as (H1 & _).
  pose proof (accept_ok (sy_net s) n p a H1 Hp E) as Hn. unfold TcpServer_accept in E. destruct (first_index _ 0 _); [|done].
  apply (inj Some) in E. apply (add_conn_ok x s n p (TcpConnection_Init a INBOUND)); [done|by subst n|by apply new_conn_good|done|done].
Qed.

Lemma udp_safe x s u : safe x s (with_udp s u).
Proof. by split; [|apply rtc_refl]. Qed.

Lemma udp_packet_safe x s buf from now : safe x s (udp_packet s buf from now).
Proof.
  unfold udp_packet. destruct (UdpNode_HandlePacket _ _ _ _) as [[e|] u]; [|apply udp_safe].
  etrans; [apply (udp_safe x s u)|]. apply disc_safe. intros d. constructor.
Qed.

Lemma udp_retry_safe x s now : safe x s (udp_retry s now).
Proof.
  unfold udp_retry. destruct (UdpNode_RetryRound (sy_udp s) now) as [l u]. etrans; [apply (udp_safe x s u)|].
  generalize (with_udp s u). induction l as [|t l IH]; intros s1; [reflexivity|]. cbn [fold_left]. etrans; [|apply IH].
  apply disc_safe. intros d. constructor.
Qed.

Lemma iterate_safe x s now nonces : safe x s (NodeDiscovery_Iterate cfg s now nonces).
Proof.
  unfold NodeDiscovery_Iterate. destruct (sy_disc s) as [d|] eqn:Ed; [|reflexivity].
  pose proof (dstep_tick d (sy_udp s) (Node_GetClientList (sy_net s)) now nonces) as Hstep.
  destruct (discovery_tick d (sy_udp s) _ now nonces) as [[[q c] d'] u]. cbn [fst snd] in Hstep.
  trans (with_udp (with_disc s d') u).
  { split; [|apply rtc_refl]. intros (A & B & C & D & E). split; [done|]. split; [done|]. split; [done|]. split; [|done].
    intros d1 E1. injection E1 as <-. by eapply discovery_step_ok; [exact Hstep|apply D]. }
  set (s1 := with_udp _ u). trans (with_net s1 (snd (send_all sock (sy_net s1) q PACKET_TYPE_GET_PEERS []))).
  { apply net_safe. intros (H1 & _). split; [by apply send_all_ok|apply send_all_conns]. }
  generalize (with_net s1 (snd (send_all sock (sy_net s1) q PACKET_TYPE_GET_PEERS []))).
  induction c as [|a l IH]; intros s2; [reflexivity|]. cbn [fold_left]. etrans; [|apply IH].
  destruct (Discovery_AddrToIpPort a) as [ip port]. apply connect_peer_safe.
Qed.

Lemma maintenance_safe x s now nonces : safe x s (maintenance_round clock cfg s now nonces).
Proof.
  unfold maintenance_round. etrans; [|apply iterate_safe]. set (y := snd (attach_orphans clock (sy_store s))).
  set (s1 := with_store s _). trans s1.
  { apply store_safe. eapply rtc_r; [apply (attach_steps clock (sy_store s))|]. cbn [st_chain]. fold y. constructor. constructor. }
  split; [|apply rtc_refl]. intros Hs. pose proof Hs as (H1 & _). apply fewer_conns_ok; [by apply reap_ok| |done].
  intros p c. unfold Node_ReapDeadOutbound. cbn [with_conns conns]. rewrite lookup_deletes. by destruct (decide _).
Qed.

(** ** Events *)

(** What the operating system and the network may deliver: bytes, addresses of their size, and fresh
    memory for an accepted connection. *)
Definition event_ok (s : system) (e : event) : Prop :=
  match e with
  | ev_accept p a =>
      match a with AF_INET ip q => bytes_n 4 ip /\ is_u16 q | AF_INET6 ip q => bytes_n 16 ip /\ is_u16 q end /\ conns (sy_net s) !! p = None
  | ev_recv _ chunk _ _ => bytes_ok chunk
  | _ => True
  end.

Lemma handle_ok s e :
  event_ok s e -> sys_ok s -> sys_ok (handle clock cfg s e) /\ rtc live_step (chain_of s) (chain_of (handle clock cfg s e)).
Proof.
  intros He Hs. assert (Hk : forall s', safe None s s' -> sys_ok s' /\ rtc live_step (chain_of s) (chain_of s')) by (intros s' [H1 H2]; split; [by apply H1|done]).
  destruct e as [p a|p chunk now random|p|ip port|buf from now|now|now nonces]; cbn [handle].
  - apply Hk. destruct He. by apply accept_safe.
  - by apply io_recv_ok.
  - apply Hk. unfold io_eof. destruct (conns (sy_net s) !! p) as [c|]; [|reflexivity]. destruct (disconnectedNotified c); [reflexivity|apply io_exit_safe].
  - apply Hk, connect_peer_safe.
  - apply Hk, udp_packet_safe.
  - apply Hk, udp_retry_safe.
  - apply Hk, maintenance_safe.
Qed.

(** The node's run: any sequence of events. *)
Inductive sys_step : system -> system -> Prop :=
| sys_event s e : event_ok s e -> sys_step s (handle clock cfg s e).

Lemma run_ok s s' : rtc sys_step s s' -> sys_ok s -> sys_ok s' /\ rtc live_step (chain_of s) (chain_of s').
Proof.
  induction 1 as [s|s s1 s2 Hs _ IH]; intros Hok; [by split; [|apply rtc_refl]|]. destruct Hs as [s e He].
  destruct (handle_ok s e He Hok) as [H1 H2]. destruct (IH H1) as [H3 H4]. split; [done|]. by etrans.
Qed.

Lemma create_sys_ok st file v6 v4 ifs port : sys_ok (Node_Create st file v6 v4 ifs port).
Proof.
  split; [apply net_init_ok|]. split; [intros p c Hp; cbn in Hp; by rewrite lookup_empty in Hp|].
  split; [split; [intros p c Hp|intros p q c d Hp]; cbn in Hp; by rewrite lookup_empty in Hp|].
  split; [|apply reset_deliveries_ok]. intros d. cbn [Node_Create sy_disc]. destruct (v6 || v4); [|done]. intros E. injection E as <-. apply create_ok.
Qed.

(** ** Shutdown frees every connection *)

Lemma keys_alter f p n q : is_Some (conns (on_conn f p n) !! q) <-> is_Some (conns n !! q).
Proof. cbn [on_conn with_conns conns]. apply lookup_alter_is_Some. Qed.

(** Freeing the connections of a list, whatever their callbacks do to the discovery state. *)
Lemma free_all (f : system -> ptr -> system) l s :
  (forall s p q, is_Some (conns (sy_net (f s p)) !! q) <-> q <> p /\ is_Some (conns (sy_net s) !! q)) ->
  forall q, is_Some (conns (sy_net (fold_left f l s)) !! q) <-> (q ∉ l) /\ is_Some (conns (sy_net s) !! q).
Proof.
  intros Hf q. revert s; induction l as [|p r IH]; intros s; cbn [fold_left].
  { split; [intros Hq; split; [apply not_elem_of_nil|done]|by intros [_ ?]]. }
  rewrite IH, Hf, not_elem_of_cons. tauto.
Qed.

Lemma net_client_disconnect s p : conns (sy_net (Node_Client_OnDisconnect s p)) = conns (sy_net s).
Proof. unfold Node_Client_OnDisconnect. rewrite net_disconnect. cbn [with_net sy_net]. by destruct (0 <? _). Qed.

Lemma free_conn_keys p n q : is_Some (conns (free_conn p n) !! q) <-> q <> p /\ is_Some (conns n !! q).
Proof.
  cbn [free_conn with_conns conns]. destruct (decide (p = q)) as [->|Hne].
  - rewrite lookup_delete_eq. split; [by intros [? ?]|tauto].
  - rewrite lookup_delete_ne by done. split; [by split; [congruence|]|tauto].
Qed.

Lemma destroy_outbound_keys s p q :
  is_Some (conns (sy_net (destroy_outbound s p)) !! q) <-> q <> p /\ is_Some (conns (sy_net s) !! q).
Proof.
  unfold destroy_outbound. cbn [with_net sy_net]. rewrite free_conn_keys.
  destruct (conns (sy_net (close s p)) !! p) as [c|]; [destruct (disconnectedNotified c)|];
    rewrite ?net_client_disconnect; cbn [with_net sy_net]; unfold close; cbn [with_net sy_net]; by rewrite ?keys_alter.
Qed.

Lemma stop_client_keys s p q :
  is_Some (conns (sy_net (stop_client s p)) !! q) <-> q <> p /\ is_Some (conns (sy_net s) !! q).
Proof.
  unfold stop_client. cbn [with_net sy_net]. rewrite free_conn_keys.
  destruct (conns (sy_net (close s p)) !! p) as [c|]; [destruct (disconnectedNotified c)|];
    unfold Node_Server_OnDisconnect; rewrite ?net_disconnect; cbn [with_net sy_net]; unfold close; cbn [with_net sy_net]; by rewrite ?keys_alter.
Qed.

Lemma fold_clients (f : system -> ptr -> system) l s :
  (forall s p, clientsArr (sy_net (f s p)) = clientsArr (sy_net s)) -> clientsArr (sy_net (fold_left f l s)) = clientsArr (sy_net s).
Proof. intros Hf. revert s; induction l as [|p r IH]; intros s; [done|]. cbn [fold_left]. by rewrite IH, Hf. Qed.

Lemma destroy_outbound_clients s p : clientsArr (sy_net (destroy_outbound s p)) = clientsArr (sy_net s).
Proof.
  unfold destroy_outbound. cbn [with_net sy_net free_conn with_conns clientsArr].
  destruct (conns (sy_net (close s p)) !! p) as [c|]; [|done]. destruct (disconnectedNotified c); [done|].
  unfold Node_Client_OnDisconnect. rewrite net_disconnect. cbn [with_net sy_net]. by destruct (0 <? _).
Qed.

Lemma destroy_frees_all s : net_ok (sy_net s) -> conns (sy_net (Node_Destroy s)) = ∅.
Proof.
  intros (_ & _ & _ & _ & _ & H6). apply map_eq. intros q. rewrite lookup_empty. apply eq_None_not_Some.
  unfold Node_Destroy. cbn [sy_net conns]. set (s1 := fold_left destroy_outbound _ _). unfold TcpServer_Stop.
  rewrite (free_all stop_client) by apply stop_client_keys. cbn [with_net sy_net conns]. unfold s1 at 2.
  rewrite (free_all destroy_outbound) by apply destroy_outbound_keys. cbn [with_net sy_net with_outboundCount with_outbound conns].
  unfold s1. rewrite (fold_clients destroy_outbound) by apply destroy_outbound_clients.
  cbn [with_net sy_net with_outboundCount with_outbound clientsArr]. intros (Hin & Hout & Hq).
  apply H6 in Hq. apply elem_of_app in Hq as [?|?]; auto.
Qed.
End Invariant.
