(* ===== verification/NetTheorems.v ===== *)
(** * What the network node guarantees

    The chain under arbitrary traffic, the soundness of the connection tables, one connection per peer
    identity, the relaying of blocks and the serving of them. *)
From Stdlib Require Import String Ascii.
From S2P Require Import Prelude Bytes UInt256 Utils Crypto Transaction Autolykos2 Block Emission.
From S2P Require Import BalanceSheet Ledger Difficulty DagEpochs Mempool Storage Chain ChainInvariant History ChainTheorems OrphanPool.
From S2P Require Import Framing Deliveries Peers UdpNode Discovery Protocol ProtocolTheorems NetNode NetInvariant.

(** ** Relaying, exactly *)

Lemma filter_sublist {A} (f : A -> bool) (l : list A) : List.filter f l `sublist_of` l.
Proof. induction l as [|x l IH]; [done|]. cbn [List.filter]. destruct (f x); [by apply sublist_skip|by apply sublist_cons]. Qed.

Section Relay.
Context {sockets : Sockets}.

(** The frame of a relayed block, and the targets whose socket takes it. *)
Definition block_frame (h : Z) (hdr : block_header) (txs : list signed_transaction) : bytes :=
  PACKET_TYPE_BROADCAST_BLOCK :: block_payload h hdr txs.
Definition takers (targets : list ptr) (frame : bytes) : list ptr :=
  if TCP_MAX_FRAME_PAYLOAD <? Z.of_nat (length frame) then [] else List.filter (fun p => sock p frame) targets.

Lemma takers_cons p r frame :
  takers (p :: r) frame = if negb (TCP_MAX_FRAME_PAYLOAD <? Z.of_nat (length frame)) && sock p frame then p :: takers r frame else takers r frame.
Proof. unfold takers. destruct (_ <? _); [done|]. cbn [negb andb List.filter]. by destruct (sock p frame). Qed.

Lemma relay_loop_spec n ps payload :
  let frame := PACKET_TYPE_BROADCAST_BLOCK :: payload in
  let r := relay_loop n ps payload in
  fst r = length (takers ps frame) /\ outbox (snd r) = outbox n ++ map (fun p => (p, frame)) (takers ps frame) /\
  seenBlocks (snd r) = seenBlocks n.
Proof.
  cbv zeta. revert n; induction ps as [|p ps IH]; intros n; cbn [relay_loop].
  { unfold takers. destruct (_ <? _); cbn; by rewrite app_nil_r. }
  rewrite takers_cons. unfold Node_SendPacket. change (PacketType_IsValid (u8 PACKET_TYPE_BROADCAST_BLOCK)) with true. cbn [negb].
  set (frame := PACKET_TYPE_BROADCAST_BLOCK :: payload) in *.
  destruct (TCP_MAX_FRAME_PAYLOAD <? Z.of_nat (length frame)) eqn:El; cbn [negb andb].
  - specialize (IH (on_conn TcpConnection_Unpin p n)). destruct (relay_loop _ ps payload) as [k m].
    cbn [fst snd] in *. destruct IH as (-> & -> & ->). done.
  - destruct (sock p frame).
    + set (m := mkNet _ _ _ _ _ _). specialize (IH (on_conn TcpConnection_Unpin p m)). destruct (relay_loop _ ps payload) as [k m'].
      cbn [fst snd] in *. destruct IH as (-> & -> & ->). cbn [Z.eqb length map]. split; [done|]. split; [|done].
      cbn [on_conn with_conns outbox m]. by rewrite <- app_assoc.
    + specialize (IH (on_conn TcpConnection_Unpin p n)). destruct (relay_loop _ ps payload) as [k m].
    cbn [fst snd] in *. destruct IH as (-> & -> & ->). done.
Qed.

Lemma pins_outbox n ps : outbox (foldr (on_conn TcpConnection_Pin) n ps) = outbox n /\ seenBlocks (foldr (on_conn TcpConnection_Pin) n ps) = seenBlocks n.
Proof. induction ps as [|p r IH]; [done|]. cbn [foldr on_conn with_conns outbox seenBlocks]. exact IH. Qed.
End Relay.

(** A block is sent once to every peer. *)
Section RelayBlock.
Context {ops : CryptoOps} {sockets : Sockets}.

Lemma relay_block_spec st n h src hdr txs :
  net_ok n -> find_block st (Z.of_nat h) = Found hdr txs -> Block_CalculateHash (mkBlock hdr (Some txs)) ∉ seenBlocks n ->
  let n' := relay_block st n h src in
  let frame := block_frame (Z.of_nat h) hdr txs in
  let reached := takers (map fst (relay_targets n (p ← src; deref n p))) frame in
  outbox n' = outbox n ++ map (fun p => (p, frame)) reached /\
  seenBlocks n' = (if (length reached =? 0)%nat then seenBlocks n else {[Block_CalculateHash (mkBlock hdr (Some txs))]} ∪ seenBlocks n).
Proof.
  intros Hn Ef Hs. unfold relay_block. rewrite Ef, bool_decide_eq_false_2 by done.
  set (ps := map fst _). set (n1 := foldr _ n ps). destruct (relay_loop_spec n1 ps (block_payload (Z.of_nat h) hdr txs)) as (E1 & E2 & E3).
  destruct (pins_outbox n ps) as [P1 P2]. fold n1 in P1, P2.
  change (PACKET_TYPE_BROADCAST_BLOCK :: block_payload (Z.of_nat h) hdr txs) with (block_frame (Z.of_nat h) hdr txs) in *.
  destruct (relay_loop n1 ps _) as [k m]. cbn [fst snd] in *. rewrite E1. cbn zeta. rewrite P1 in E2. rewrite P2 in E3.
  destruct (takers ps _) as [|q r]; cbn [length Nat.eqb Nat.ltb Nat.leb mark_seen outbox seenBlocks]; rewrite ?E2, ?E3; done.
Qed.
End RelayBlock.

(** ** A concrete network *)

Import Scenario.

Module NetScenario.
(** Addresses written as their bytes, sockets that take everything, memory handed out in order. *)
#[export] Instance raw_text : AddrText := {
  inet_pton4 t := if bool_decide (bytes_n 4 t) then Some t else None;
  inet_pton6 t := if bool_decide (bytes_n 16 t) then Some t else None;
  inet_ntop4 ip := ip;
  inet_ntop6 ip := ip
}.

#[export] Instance raw_text_laws : AddrTextLaws raw_text.
Proof.
  split; cbn.
  - intros ip Hip. by rewrite bool_decide_true.
  - intros ip Hip. by rewrite bool_decide_true.
  - intros t ip. case_bool_decide as H4; [|done]. intros _. case_bool_decide as H6; [|done]. destruct H4, H6. lia.
  - intros t ip. case_bool_decide; [|done]. by intros [= <-].
  - intros t ip. case_bool_decide; [|done]. by intros [= <-].
Qed.

#[export] Instance open_sockets : Sockets := { sock p frame := true; dial n ip port := Some (fresh (dom (conns n))) }.

#[export] Instance open_sockets_laws : SocketLaws open_sockets.
Proof. intros n ip port p E. cbn in E. injection E as <-. apply not_elem_of_dom, is_fresh. Qed.

Definition cfg : config := mkConfig 9393 99 false false.

(** Two peers dial us and introduce themselves. *)
Definition addr (k : Z) : sockaddr := AF_INET [k; 0; 0; 1] 40000.
Definition hello_from (id : Z) : bytes := frame_image (PACKET_TYPE_HELLO :: hello_bytes PROTO_VERSION 2 9393 id).
Definition booted : system := Node_Create node2 None true true [] 9393.
Definition introduced : system :=
  fold_left (handle late cfg) [ev_accept 1%nat (addr 1); ev_accept 2%nat (addr 2); ev_recv 1%nat (hello_from 7) 0 0; ev_recv 2%nat (hello_from 8) 0 0] booted.

Lemma introduced_reached : rtc (sys_step late cfg) booted introduced.
Proof.
  unfold introduced. cbn [fold_left].
  eapply rtc_r; [|apply sys_event; cbn [event_ok]; vm_decide].
  eapply rtc_r; [|apply sys_event; cbn [event_ok]; vm_decide].
  eapply rtc_r; [|apply sys_event; cbn [event_ok]; split; [vm_decide|vm_compute; reflexivity]].
  apply rtc_once, sys_event. cbn [event_ok]. split; [vm_decide|vm_compute; reflexivity].
Qed.

Lemma introduced_net_ok : net_ok (sy_net introduced).
Proof. exact (proj1 (proj1 (run_ok late cfg _ _ introduced_reached (create_sys_ok cfg node2 None true true [] 9393)))). Qed.
End NetScenario.

(** ** Properties *)

(** C8: no network traffic breaks the chain.  From a node whose chain was built by the chain's own
    operations, through any sequence of connections, disconnections, received bytes, datagrams, timeouts
    and maintenance rounds -- with any bytes and any failures of sockets and dials -- the chain moves
    only by the chain's own operations, so that every block stays linked to its predecessor, carries
    the target and the proof of work its position demands, and [Chain_IsValid] holds. *)
Theorem network_cannot_break_chain {ops : CryptoOps} {laws : CryptoLaws ops} `{AddrText} {alaws : AddrTextLaws _} {sockets : Sockets} {slaws : SocketLaws sockets}
    clock cfg files reward st sheetFile v6 v4 ifaddrs port s :
  rtc node_step (node_init files reward) st -> rtc (sys_step clock cfg) (Node_Create st sheetFile v6 v4 ifaddrs port) s ->
  rtc node_step (set_pool st TxMempool_Init) (chain_of s) /\ consensus_ok (blocks (chain_of s)) /\ Chain_IsValid (blocks (chain_of s)) = true.
Proof.
  intros Hst Hr. destruct (run_ok clock cfg _ _ Hr (create_sys_ok cfg st sheetFile v6 v4 ifaddrs port)) as [_ Hs]. apply live_node_steps in Hs.
  assert (Hok : node_ok (chain_of s)).
  { pose proof (node_reachable_ok files reward st Hst) as H0. change (node_ok (set_pool st TxMempool_Init)) in H0. revert H0.
    change (chain_of (Node_Create st sheetFile v6 v4 ifaddrs port)) with (set_pool st TxMempool_Init) in Hs.
    induction Hs as [|x y z Hxy _ IH]; [done|]. intros Hx. by apply IH, (node_step_ok x y). }
  split; [exact Hs|]. split; [apply Hok|]. apply consensus_valid, Hok.
Qed.

Import NetScenario.

Lemma network_cannot_break_chain_witness : Chain_IsValid (blocks (chain_of introduced)) = true.
Proof.
  refine (proj2 (proj2 (network_cannot_break_chain late NetScenario.cfg None 5000 node2 None true true [] 9393 introduced _ introduced_reached))).
  eapply rtc_l; [apply step_add|]. apply rtc_once, step_add.
Defined.

(** C26: the state of the node is well typed.  After any sequence of events both connection tables have
    their 32 entries, no connection is in two slots, every pointer in a table is that of a live object
    of the table's role and every object is in a table; addresses, ports and identities have their
    widths and partial frames are byte strings; no connection is left pinned; the peer table and the
    receipt ring satisfy their invariants; and shutting the node down frees every connection. *)
Theorem node_state_well_typed {ops : CryptoOps} `{AddrText} {alaws : AddrTextLaws _} {sockets : Sockets} {slaws : SocketLaws sockets}
    clock cfg st sheetFile v6 v4 ifaddrs port s :
  rtc (sys_step clock cfg) (Node_Create st sheetFile v6 v4 ifaddrs port) s ->
  net_ok (sy_net s) /\
  (forall p c, conns (sy_net s) !! p = Some c ->
     conn_typed c /\ bytes_ok (headerBuf (stream c)) /\ bytes_ok (frameBuf (stream c)) /\ pinCount c = 0) /\
  (forall d, sy_disc s = Some d -> disc_ok d) /\ deliveries_ok (sy_deliveries s) /\
  conns (sy_net (Node_Destroy s)) = ∅.
Proof.
  intros Hr. destruct (run_ok clock cfg _ _ Hr (create_sys_ok cfg st sheetFile v6 v4 ifaddrs port)) as [(H1 & H2 & _ & H4 & H5) _].
  split; [done|]. split; [|split; [done|split; [done|by apply destroy_frees_all]]].
  intros p c Hp. destruct (H2 p c Hp) as (A & [B C] & D). done.
Qed.

Lemma node_state_well_typed_witness : net_ok (sy_net introduced) /\ inbound_ptrs (sy_net introduced) = [1%nat; 2%nat].
Proof.
  split; [|vm_compute; reflexivity].
  exact (proj1 (node_state_well_typed late NetScenario.cfg node2 None true true [] 9393 introduced introduced_reached)).
Defined.

(** C22: one connection per peer.  After any sequence of events no open, served connection belongs to this
    node itself, and no two of the same role belong to the same advertised identity: handshakes that
    would create such a connection end in closing it.  (A connection whose peer has not introduced
    itself has identity 0.) *)
Theorem one_connection_per_identity {ops : CryptoOps} `{AddrText} {alaws : AddrTextLaws _} {sockets : Sockets} {slaws : SocketLaws sockets}
    clock cfg st sheetFile v6 v4 ifaddrs port s :
  rtc (sys_step clock cfg) (Node_Create st sheetFile v6 v4 ifaddrs port) s ->
  (forall p c, conns (sy_net s) !! p = Some c -> closing c = false -> disconnectedNotified c = false -> peerNodeId c <> 0 ->
     peerNodeId c <> g_localNodeId cfg) /\
  (forall p q c d, conns (sy_net s) !! p = Some c -> conns (sy_net s) !! q = Some d -> p <> q ->
     closing c = false -> disconnectedNotified c = false -> closing d = false -> disconnectedNotified d = false ->
     role c = role d -> peerNodeId c <> 0 -> peerNodeId c <> peerNodeId d).
Proof.
  intros Hr. destruct (run_ok clock cfg _ _ Hr (create_sys_ok cfg st sheetFile v6 v4 ifaddrs port)) as [(_ & _ & [I1 I2] & _) _]. split.
  - intros p c Hp C1 N1 Hi. by apply (I1 p c).
  - intros p q c d Hp Hq Hne C1 N1 C2 N2 Er Hi. by apply (I2 p q c d).
Qed.

Definition peer_conn (s : system) (p : ptr) : tcp_connection := default (TcpConnection_Init (addr 0) INBOUND) (conns (sy_net s) !! p).

Lemma one_connection_per_identity_witness :
  peerNodeId (peer_conn introduced 1) <> g_localNodeId NetScenario.cfg /\ peerNodeId (peer_conn introduced 1) <> peerNodeId (peer_conn introduced 2).
Proof.
  destruct (one_connection_per_identity late NetScenario.cfg node2 None true true [] 9393 introduced introduced_reached) as [H1 H2]. split.
  - refine (H1 1%nat (peer_conn introduced 1) _ _ _ _); first [vm_compute; reflexivity|vm_compute; discriminate].
  - refine (H2 1%nat 2%nat (peer_conn introduced 1) (peer_conn introduced 2) _ _ _ _ _ _ _ _ _);
      first [discriminate|vm_compute; reflexivity|vm_compute; discriminate].
Defined.

(** A third peer with the identity of the first is turned away. *)
Example duplicate_is_closed :
  let s := fold_left (handle late NetScenario.cfg) [ev_accept 3%nat (addr 3); ev_recv 3%nat (hello_from 7) 0 0] introduced in
  closing (peer_conn s 3) = true /\ closing (peer_conn s 1) = false.
Proof. vm_compute. split; reflexivity. Qed.

(** C23: a block is relayed once to every peer.  Relaying a stored block that was not relayed before
    writes its frame exactly once to each chosen connection whose socket takes it (none when the frame
    is over the limit).  The chosen connections are live, distinct, at most one per known identity,
    never the source nor another connection of the source's node, and every live connection outside
    the source's node is chosen or has its identity served by a chosen one.  The block counts as
    relayed exactly when somebody got it, and relaying it again then sends nothing.  All connections,
    their pin counts included, are left as they were. *)
Theorem relay_exact {ops : CryptoOps} {sockets : Sockets} st n h src hdr txs :
  net_ok n -> find_block st (Z.of_nat h) = Found hdr txs -> Block_CalculateHash (mkBlock hdr (Some txs)) ∉ seenBlocks n ->
  let source := p ← src; deref n p in
  let T := relay_targets n source in
  let frame := block_frame (Z.of_nat h) hdr txs in
  let reached := takers (map fst T) frame in
  let n' := relay_block st n h src in
  outbox n' = outbox n ++ map (fun p => (p, frame)) reached /\ NoDup reached /\ conns n' = conns n /\
  Forall (fun t => t ∈ all_conns n /\ disconnectedNotified t.2 = false /\ relay_should_skip source t = false) T /\
  ForallOrdPairs (fun a b => ~ same_node a b) T /\
  (forall t, t ∈ all_conns n -> disconnectedNotified t.2 = false -> relay_should_skip source t = false ->
     exists u, (u ∈ T) /\ (u = t \/ same_node t u)) /\
  (Block_CalculateHash (mkBlock hdr (Some txs)) ∈ seenBlocks n' <-> reached <> []) /\
  (reached <> [] -> forall src', relay_block st n' h src' = n').
Proof.
  intros Hn Ef Hs source T frame reached n'. pose proof (relay_block_spec st n h src hdr txs Hn Ef Hs) as [E1 E2].
  change (outbox n' = outbox n ++ map (fun p => (p, frame)) reached) in E1.
  change (seenBlocks n' = if (length reached =? 0)%nat then seenBlocks n else {[Block_CalculateHash (mkBlock hdr (Some txs))]} ∪ seenBlocks n) in E2.
  pose proof (relay_targets_spec n source Hn) as (R1 & R2 & R3 & R4). pose proof (relay_block_ok st n h src Hn) as [_ Ec].
  assert (Hseen : Block_CalculateHash (mkBlock hdr (Some txs)) ∈ seenBlocks n' <-> reached <> []).
  { rewrite E2. destruct reached as [|q r]; cbn [length Nat.eqb]; [by split|]. split; [discriminate|]. intros _.
    apply elem_of_union_l, elem_of_singleton. done. }
  split; [exact E1|]. split; [|split; [exact Ec|split; [|split; [exact R3|split; [|split; [exact Hseen|]]]]]].
  - unfold reached, takers. destruct (_ <? _); [constructor|]. eapply sublist_NoDup; [exact R1|apply filter_sublist].
  - eapply Forall_impl; [|exact R2]. intros t [A [B C]]. done.
  - intros t Ht Hd Hk. by apply R4.
  - intros Hne src'. unfold relay_block. rewrite Ef, bool_decide_eq_true_2 by (by apply Hseen). done.
Qed.

Lemma relay_exact_witness :
  map fst (outbox (relay_block node2 (sy_net introduced) 1 (Some 1%nat))) = map fst (outbox (sy_net introduced)) ++ [2%nat].
Proof.
  assert (E : find_block node2 1 = Found (header block1) block1_txs) by (vm_compute; reflexivity).
  destruct (relay_exact node2 (sy_net introduced) 1 (Some 1%nat) (header block1) block1_txs) as (H & _).
  - exact introduced_net_ok.
  - exact E.
  - vm_decide.
  - rewrite H, map_app. vm_compute. reflexivity.
Defined.

(** The answer to a block request.  For a height on the chain it is the block stored there, with
    its transactions from memory or disk, in a payload the receiver parses back to that block; above
    the height of the next block it is an error; and at the height of the next block -- which the
    check [requestedHeight > height] lets through, the height being the number of blocks -- it is
    whatever block of that number is left on disk, on the chain or not. *)
Theorem fetch_block_answer {ops : CryptoOps} {laws : CryptoLaws ops} s h :
  reachable (chain_of s) -> 0 <= h ->
  let size := Z.of_nat (Chain_Size (chain_of s)) in
  (h < size -> exists b txs, blocks (chain_of s) !! Z.to_nat h = Some b /\
     Chain_BorrowBlockTransactions (chain_of s) (Z.to_nat h) = Some txs /\
     fetch_answer s h = (PACKET_TYPE_BLOCK_DATA, block_payload h (header b) txs) /\
     (Z.of_nat (length txs) < 2 ^ 64 -> parse_block (block_payload h (header b) txs) = Some (h, mkBlock (header b) (Some txs)))) /\
  (h = size -> fetch_answer s h =
     match Chain_LoadBlockFromFile (g_files (chain_of s)) h true with
     | Some (mkBlock hdr (Some txs), _) => (PACKET_TYPE_BLOCK_DATA, block_payload h hdr txs)
     | Some (mkBlock _ None, _) => (PACKET_TYPE_ERROR, text "Requested block missing transactions!")
     | None => (PACKET_TYPE_ERROR, text "Requested block not found!")
     end) /\
  (size < h -> fetch_answer s h = (PACKET_TYPE_ERROR, text "Requested block height is higher than my current height!")).
Proof.
  intros Hr Hh size. destruct (reachable_history (chain_of s) Hr) as (L & [Hc _] & (HLv & HR & _) & _). pose proof HR as [Hlen HR'].
  unfold fetch_answer, Node_GetCurrentBlockHeight. fold size. split; [|split].
  - intros Hlt. rewrite (proj2 (Z.ltb_ge _ _)) by lia. unfold Chain_Size in size.
    destruct (lookup_lt_is_Some_2 L (Z.to_nat h) ltac:(lia)) as [p Hp]. destruct (HR' _ p Hp) as (b & Hb & Eh & _).
    exists b, p.2. split; [done|]. split; [by apply (borrow_recovers _ L)|].
    replace (find_block (chain_of s) h) with (Found p.1 p.2) by (rewrite <- (find_recovered _ L _ p HR Hp), Z2Nat.id by done; done).
    rewrite Eh. split; [done|]. intros Hn. rewrite <- (app_nil_r (block_payload _ _ _)).
    destruct (ledger_valid_facts _ _ HLv) as (Hf & _). eapply Forall_lookup_1 in Hf as [Hhdr Htx]; [|exact Hp].
    assert (En : blockNumber p.1 = h).
    { destruct (Hc _ b Hb) as (Hl & _). unfold links_to_tip in Hl. apply andb_true_iff in Hl as [Hl _]. apply Z.eqb_eq in Hl.
      rewrite length_take, Nat.min_l in Hl by lia. rewrite <- Eh. lia. }
    rewrite parse_payload by (done || (rewrite <- En; apply Hhdr)). by rewrite <- En, set_blockNumber_same.
  - intros ->. rewrite Z.ltb_irrefl. unfold find_block, Chain_GetBlockCopy, size, Chain_Size. rewrite Nat2Z.id, lookup_ge_None_2 by done. cbn.
    destruct (Chain_LoadBlockFromFile _ _ _) as [[[hd [t|]] k]|]; done.
  - intros Hgt. by rewrite (proj2 (Z.ltb_lt _ _) Hgt).
Qed.

(** A saved chain of two blocks, rolled back to its first: the discarded block is still served. *)
Definition rolled_back : node := snd (Chain_RollbackToHeight (snd (node_save node2)) 1).
Definition stale : system := mkSys (mkStore rolled_back OrphanPool_Init None) Node_ResetBlockDeliveries net_init None (UdpNode_Init true true).

Lemma rolled_back_reachable : reachable rolled_back.
Proof.
  destruct node2_reachable as (r & Hu & Hr). exists r. split; [done|]. eapply rtc_r; [|apply good_rollback]. eapply rtc_r; [exact Hr|].
  apply good_save. assert (E : resolve_all (g_files node2) 0 (blocks node2) = Some [(header genesis, [mint 5000]); (header block1, block1_txs)])
    by (vm_compute; reflexivity).
  rewrite E. intros L HL. apply (inj Some) in HL. subst L. vm_compute. discriminate.
Qed.

Lemma fetch_block_answer_witness :
  Chain_Size (chain_of stale) = 1%nat /\ fetch_answer stale 1 = (PACKET_TYPE_BLOCK_DATA, block_payload 1 (header block1) block1_txs) /\
  exists b txs, blocks (chain_of stale) !! 0%nat = Some b /\ fetch_answer stale 0 = (PACKET_TYPE_BLOCK_DATA, block_payload 0 (header b) txs).
Proof.
  assert (Hsz : Chain_Size (chain_of stale) = 1%nat) by (vm_compute; reflexivity).
  split; [exact Hsz|].
  destruct (fetch_block_answer stale 1 rolled_back_reachable ltac:(lia)) as (_ & H1 & _).
  destruct (fetch_block_answer stale 0 rolled_back_reachable ltac:(lia)) as (H0 & _). rewrite Hsz in *. split.
  - rewrite H1 by reflexivity. vm_compute. reflexivity.
  - destruct (H0 ltac:(lia)) as (b & txs & Hb & _ & Hf & _). exists b, txs. split; [exact Hb|exact Hf].
Defined.
