(* ===== verification/Miner.v ===== *)
(** * Mining ([src/main.c])

    What the [mine] command does for one block: take a snapshot of the pool, order it by fee and, within
    a sender, by time, keep what the balance sheet can pay for, assemble a block on the tip, search a
    nonce and append the block.  Clock readings are arguments; the search reads the clock every
    sixteen nonces and so takes a sequence of readings. *)
From S2P Require Import Prelude Bytes UInt256 Utils Emission Crypto Transaction Autolykos2 Block BalanceSheet Ledger.
From S2P Require Import Difficulty DagEpochs Mempool Storage Chain ChainInvariant History ChainTheorems OrphanPool Protocol.

(** ** Ordering the pool *)

(** The inner loop: the index of the earliest transaction of [sender], [l] being the slots from [j] on. *)
Fixpoint earliest_loop (sender : bytes) (l : list signed_transaction) (j earliest : nat) (ts : Z) : nat :=
  match l with
  | [] => earliest
  | tx :: r =>
      if negb (memeq (senderAddress (stx tx)) sender) then earliest_loop sender r (S j) earliest ts
      else if tx_timestamp (stx tx) <? ts then earliest_loop sender r (S j) j (tx_timestamp (stx tx))
      else earliest_loop sender r (S j) earliest ts
  end.

Definition swap {A} (l : list A) (i j : nat) : list A :=
  match l !! i, l !! j with
  | Some x, Some y => <[j := x]> (<[i := y]> l)
  | _, _ => l
  end.

(** The body of the outer loop at index [i]. *)
Definition order_round (txs : list signed_transaction) (i : nat) : list signed_transaction :=
  match txs !! i with
  | None => txs
  | Some tx =>
      if Address_IsCoinbase (senderAddress (stx tx)) then txs
      else
        let earliest := earliest_loop (senderAddress (stx tx)) (drop (S i) txs) (S i) i (tx_timestamp (stx tx)) in
        if (earliest =? i)%nat then txs else swap txs i earliest
  end.

Definition OrderSameSenderByTimestamp (txs : list signed_transaction) : list signed_transaction :=
  if (length txs <? 2)%nat then txs else fold_left order_round (seq 0 (length txs)) txs.

(** The sign of [memcmp] on byte strings of one length. *)
Fixpoint memcmp (a b : bytes) : Z :=
  match a, b with
  | x :: r, y :: s => if x <? y then -1 else if y <? x then 1 else memcmp r s
  | _, _ => 0
  end.

(** [qsort] with a comparison function; elements that compare equal have one fee and one hash. *)
Fixpoint insert_by {A} (cmp : A -> A -> Z) (x : A) (l : list A) : list A :=
  match l with
  | [] => [x]
  | y :: r => if cmp x y <=? 0 then x :: l else y :: insert_by cmp x r
  end.
Definition sort_by {A} (cmp : A -> A -> Z) (l : list A) : list A := foldr (insert_by cmp) [] l.

(** ** Headers under construction *)

Definition set_nonce (n : Z) (b : block) : block :=
  let h := header b in
  mkBlock (mkHeader (blockNumber h) (timestamp h) n (prevHash h) (merkleRoot h) (difficultyTarget h) (version h) (reserved h)) (transactions b).

Definition set_timestamp (ts : Z) (b : block) : block :=
  let h := header b in
  mkBlock (mkHeader (blockNumber h) ts (nonce h) (prevHash h) (merkleRoot h) (difficultyTarget h) (version h) (reserved h)) (transactions b).

Definition set_merkleRoot (root : bytes) (b : block) : block :=
  let h := header b in
  mkBlock (mkHeader (blockNumber h) (timestamp h) (nonce h) (prevHash h) root (difficultyTarget h) (version h) (reserved h)) (transactions b).

Definition AddCoinbaseTransaction (b : block) (minerAddress : bytes) (reward now : Z) : block :=
  Block_AddTransaction b
    (mkSigned (mkTx now 0 reward 0 (replicate 32 255) minerAddress (zeros 32) (zeros 33) 1 (zeros 6)) (zeros 64)).

Definition MINING_TIMESTAMP_REFRESH_MS : Z := 2.
Definition MINING_TIMESTAMP_CHECK_NONCES : Z := 16.

(** ** The search

    [pow] is the proof-of-work test, [clock] the readings still to come.  The result is the answer of
    [MineBlock] and the block with its last nonce; [None] when the fuel is used up. *)
Fixpoint mine_loop (fuel : nat) (pow : block -> bool) (clock : nat -> Z) (b : block) (stampedAt nonce : Z) : option (bool * block) :=
  match fuel with
  | O => None
  | S f =>
      let b := set_nonce nonce b in
      if pow b then Some (true, b)
      else if nonce =? UINT64_MAX then Some (false, b)
      else if negb ((nonce + 1) mod MINING_TIMESTAMP_CHECK_NONCES =? 0) then mine_loop f pow clock b stampedAt (nonce + 1)
      else
        let now := clock 0%nat in
        let clock := fun k => clock (S k) in
        if (stampedAt <? now) && (MINING_TIMESTAMP_REFRESH_MS <=? now - stampedAt)
        then mine_loop f pow clock (set_timestamp now b) now 0
        else mine_loop f pow clock b stampedAt (nonce + 1)
  end.

Section Operations.
Context {ops : CryptoOps}.

Definition CompareTransactionPriority (left right : signed_transaction) : Z :=
  if tx_fee (stx right) <? tx_fee (stx left) then -1
  else if tx_fee (stx left) <? tx_fee (stx right) then 1
  else memcmp (Transaction_CalculateHash left) (Transaction_CalculateHash right).

(** The accepted transactions and their fees. *)
Definition BuildSpendableMempoolSelection (st : node) : list signed_transaction * Z :=
  let snapshot := TxMempool_Snapshot (g_txMempool st) in
  let snapshot := if (1 <? length snapshot)%nat
                  then OrderSameSenderByTimestamp (sort_by CompareTransactionPriority snapshot)
                  else snapshot in
  BalanceSheet_SelectSpendableTransactions (g_sheetMap st) snapshot.

Definition BuildNextBlock (st : node) (g_dagVote target now : Z) : block :=
  let prev := if (0 <? Chain_Size st)%nat then
                match Chain_GetBlockCopy st (Chain_Size st - 1) with
                | Some lastBlock => Block_CalculateHash lastBlock
                | None => zeros 32
                end
              else zeros 32 in
  mkBlock (mkHeader (Z.of_nat (Chain_Size st)) now 0 prev (zeros 32) target 1 [g_dagVote; 0; 0]) (Some []).

(** The block the [mine] command hands to [MineAndAppendBlock]; the two readings of the clock are the
    block's timestamp and the coinbase's. *)
Definition assemble_block (st : node) (g_dagVote : Z) (minerAddress : bytes) (now now' : Z) : option block :=
  let '(acceptedTxs, totalFees) := BuildSpendableMempoolSelection st in
  let b := BuildNextBlock st g_dagVote (Chain_GetTargetForHeight (blocks st) (Z.of_nat (Chain_Size st))) now in
  if UINT64_MAX - g_currentReward st <? totalFees then None
  else
    let b := AddCoinbaseTransaction b minerAddress (g_currentReward st +u64 totalFees) now' in
    Some (fold_left Block_AddTransaction acceptedTxs b).

(** The answer, the node with its memo table and mining DAG updated, and the block; [None] when the
    fuel is used up. *)
Definition MineBlock (fuel : nat) (clock : nat -> Z) (st : node) (b : block) : option (bool * node * block) :=
  let '(params, st) := Chain_DagParamsForHeight st (blockNumber (header b)) in
  match params with
  | None => Some (false, st, b)
  | Some (dagBytes, seed) =>
      let epochIndex := blockNumber (header b) / EPOCH_LENGTH in
      let st := set_pow st (snd (Block_EnsureAutolykos2Dag (g_pow st) epochIndex dagBytes seed)) in
      '(ok, b) ← mine_loop fuel (fun b => Block_HasValidProofOfWorkWithParams (g_pow st) b epochIndex dagBytes seed)
                   clock b (timestamp (header b)) 0;
      Some (ok, st, b)
  end.

(** [attachClock] are the readings of the attach attempt that follows an append. *)
Definition MineAndAppendBlock (fuel : nat) (clock : nat -> Z) (attachClock : node -> nat -> Z) (s : store) (b : block) : option (bool * store) :=
  let b := set_merkleRoot (merkle_root (default [] (transactions b))) b in
  '(mined, st, b) ← MineBlock fuel clock (st_chain s) b;
  let s := mkStore st (st_orphans s) (st_sheetFile s) in
  if negb mined then Some (false, s)
  else
    let '(added, st) := Chain_AddBlock (st_chain s) b in
    let s := mkStore st (st_orphans s) (st_sheetFile s) in
    if negb added then Some (false, s) else Some (true, snd (attach_orphans attachClock s)).
End Operations.

(** ** Lists *)

Lemma insert_perm {A} (l : list A) i x y : l !! i = Some x -> x :: <[i := y]> l ≡ₚ y :: l.
Proof.
  revert i; induction l as [|z l IH]; intros [|i] Hi; [done|done| |].
  - injection Hi as ->. apply Permutation_swap.
  - change (<[S i := y]> (z :: l)) with (z :: <[i := y]> l). by rewrite Permutation_swap, (IH i Hi), Permutation_swap.
Qed.

(** Where the element at index [k] of a swapped list comes from. *)
Definition swapped (i j k : nat) : nat := if decide (k = i) then j else if decide (k = j) then i else k.

Lemma lookup_swap {A} (l : list A) i j k : (i < length l)%nat -> (j < length l)%nat -> swap l i j !! k = l !! swapped i j k.
Proof.
  intros Hi Hj. apply lookup_lt_is_Some_2 in Hi as [x Ex]. apply lookup_lt_is_Some_2 in Hj as [y Ey].
  unfold swap, swapped. rewrite Ex, Ey. pose proof (lookup_lt_Some _ _ _ Ex). pose proof (lookup_lt_Some _ _ _ Ey).
  destruct (decide (k = j)) as [->|Hkj].
  - rewrite list_lookup_insert_eq by (by rewrite length_insert). destruct (decide (j = i)) as [->|_]; [congruence|done].
  - rewrite list_lookup_insert_ne by done. destruct (decide (k = i)) as [->|Hki]; [by rewrite list_lookup_insert_eq|by rewrite list_lookup_insert_ne].
Qed.

Lemma swap_perm {A} (l : list A) i j : swap l i j ≡ₚ l.
Proof.
  unfold swap. destruct (l !! i) as [x|] eqn:Ex; [|done]. destruct (l !! j) as [y|] eqn:Ey; [|done].
  apply (Permutation_cons_inv (a := y)). rewrite insert_perm; [by apply insert_perm|].
  destruct (decide (j = i)) as [->|Hne]; [apply list_lookup_insert_eq; by eapply lookup_lt_Some|by rewrite list_lookup_insert_ne].
Qed.

Lemma insert_by_perm {A} (cmp : A -> A -> Z) x l : insert_by cmp x l ≡ₚ x :: l.
Proof. induction l as [|y l IH]; cbn [insert_by]; [done|]. destruct (cmp x y <=? 0); [done|]. by rewrite IH, Permutation_swap. Qed.

Lemma sort_by_perm {A} (cmp : A -> A -> Z) l : sort_by cmp l ≡ₚ l.
Proof. induction l as [|x l IH]; [done|]. cbn [sort_by foldr]. by rewrite insert_by_perm, IH. Qed.

Lemma ordpairs_lookup {A} (R : A -> A -> Prop) l :
  (forall i j x y, (i < j)%nat -> l !! i = Some x -> l !! j = Some y -> R x y) -> ForallOrdPairs R l.
Proof.
  induction l as [|x l IH]; intros H; constructor.
  - apply Forall_lookup_2. intros j y Hj. by apply (H 0%nat (S j) x y); [lia| |].
  - apply IH. intros i j a b Hij Ha Hb. apply (H (S i) (S j)); [lia|done|done].
Qed.

Lemma lookup_ordpairs {A} (R : A -> A -> Prop) l i j x y :
  ForallOrdPairs R l -> (i < j)%nat -> l !! i = Some x -> l !! j = Some y -> R x y.
Proof.
  intros H. revert i j; induction H as [|z l Hz _ IH]; intros [|i] [|j] Hij Hx Hy; try done; try lia.
  - injection Hx as ->. by apply (Forall_lookup_1 _ _ j _ Hz).
  - apply (IH i j); [lia|done|done].
Qed.

Lemma ordpairs_sublist {A} (R : A -> A -> Prop) (l k : list A) : l `sublist_of` k -> ForallOrdPairs R k -> ForallOrdPairs R l.
Proof.
  induction 1 as [|x l k Hs IH|x l k Hs IH]; intros Hk; [constructor| |]; inversion Hk; subst; [|by apply IH].
  constructor; [|by apply IH]. apply Forall_lookup_2. intros i y Hi. eapply Forall_forall; [eassumption|].
  apply list_elem_of_In. eapply sublist_subseteq; [exact Hs|by eapply list_elem_of_lookup_2].
Qed.

Lemma ordpairs_perm {A} (R : A -> A -> Prop) (l k : list A) :
  (forall x y, R x y -> R y x) -> l ≡ₚ k -> ForallOrdPairs R l -> ForallOrdPairs R k.
Proof.
  intros Hsym. induction 1 as [|x l k Hp IH|x y l|l k m _ IH1 _ IH2]; intros H; [done| | |by apply IH2, IH1].
  - inversion H as [|? ? H1 H2]; subst. constructor; [by rewrite <- Hp|by apply IH].
  - inversion H as [|? ? H1 H2]; subst. inversion H2 as [|? ? H3 H4]; subst. inversion H1; subst.
    constructor; [constructor; [by apply Hsym|done]|by constructor].
Qed.

(** ** The order of the selection *)

Definition sender_of (tx : signed_transaction) : bytes := senderAddress (stx tx).

Lemma earliest_loop_spec sender l j e ts :
  exists t, t <= ts /\ (forall k tx, l !! k = Some tx -> sender_of tx = sender -> t <= tx_timestamp (stx tx)) /\
    ((earliest_loop sender l j e ts = e /\ t = ts) \/
     exists k tx, earliest_loop sender l j e ts = (j + k)%nat /\ l !! k = Some tx /\ sender_of tx = sender /\ t = tx_timestamp (stx tx)).
Proof.
  revert j e ts; induction l as [|tx l IH]; intros j e ts; cbn [earliest_loop].
  { exists ts. split; [lia|]. split; [by intros k tx Hk|by left]. }
  assert (Hstep : forall e' ts', ts' <= ts -> (sender_of tx = sender -> ts' <= tx_timestamp (stx tx)) ->
      ((e' = e /\ ts' = ts) \/ (e' = j /\ sender_of tx = sender /\ ts' = tx_timestamp (stx tx))) ->
      exists t, t <= ts /\ (forall k tx', (tx :: l) !! k = Some tx' -> sender_of tx' = sender -> t <= tx_timestamp (stx tx')) /\
        ((earliest_loop sender l (S j) e' ts' = e /\ t = ts) \/
         exists k tx', earliest_loop sender l (S j) e' ts' = (j + k)%nat /\ (tx :: l) !! k = Some tx' /\ sender_of tx' = sender /\
           t = tx_timestamp (stx tx'))).
  { intros e' ts' Hle Htx Hfrom. destruct (IH (S j) e' ts') as (t & Ht & Hall & Hres). exists t. split; [lia|]. split.
    - intros [|k] tx' Hk Hs; [injection Hk as <-; specialize (Htx Hs); lia|by apply (Hall k)].
    - destruct Hres as [[E Et]|(k & tx' & E & Hk & Hs & Et)].
      + destruct Hfrom as [[He Hts]|(He & Hs & Hts)]; [left; split; congruence|].
        right. exists 0%nat, tx. rewrite E, He, Et, Hts, Nat.add_0_r. done.
      + right. exists (S k), tx'. rewrite E. split; [lia|]. done. }
  destruct (memeq (senderAddress (stx tx)) sender) eqn:Em; cbn [negb].
  - apply memeq_true in Em. destruct (Z.ltb_spec (tx_timestamp (stx tx)) ts).
    + apply Hstep; [lia|lia|]. by right.
    + apply Hstep; [lia|lia|]. by left.
  - apply memeq_false in Em. apply Hstep; [lia| |by left]. intros Hs. by destruct Em.
Qed.

(** One round puts the earliest remaining transaction of a sender in place. *)
Lemma order_round_spec l i x :
  l !! i = Some x -> is_coinbase x = false ->
  exists e y, (i <= e)%nat /\ l !! e = Some y /\ sender_of y = sender_of x /\ order_round l i = swap l i e /\
    forall j z, (i <= j)%nat -> l !! j = Some z -> sender_of z = sender_of x -> tx_timestamp (stx y) <= tx_timestamp (stx z).
Proof.
  intros Hx Hc. unfold order_round. rewrite Hx. fold (is_coinbase x). rewrite Hc.
  destruct (earliest_loop_spec (senderAddress (stx x)) (drop (S i) l) (S i) i (tx_timestamp (stx x))) as (t & Ht & Hall & Hres).
  assert (Hmin : forall j z, (i <= j)%nat -> l !! j = Some z -> sender_of z = sender_of x -> t <= tx_timestamp (stx z)).
  { intros j z Hij Hz Hs. destruct (decide (j = i)) as [->|Hne]; [assert (z = x) as -> by congruence; done|].
    apply (Hall (j - S i)%nat); [|done]. rewrite lookup_drop. by replace (S i + (j - S i))%nat with j by lia. }
  destruct Hres as [[E Et]|(k & y & E & Hk & Hs & Et)].
  - exists i, x. rewrite E, Nat.eqb_refl. split; [lia|]. split; [done|]. split; [done|].
    split; [|by rewrite <- Et]. unfold swap. rewrite Hx. by rewrite list_insert_insert_eq, list_insert_id.
  - exists (S i + k)%nat, y. rewrite E. rewrite lookup_drop in Hk. destruct (Nat.eqb_spec (S i + k) i); [lia|].
    split; [lia|]. split; [done|]. split; [done|]. split; [done|]. by rewrite <- Et.
Qed.

Definition ordered_upto (k : nat) (l : list signed_transaction) : Prop :=
  forall i j x y, (i < k)%nat -> (i < j)%nat -> l !! i = Some x -> l !! j = Some y -> is_coinbase x = false ->
    sender_of y = sender_of x -> tx_timestamp (stx x) <= tx_timestamp (stx y).

Lemma order_round_ordered l k :
  ordered_upto k l -> ordered_upto (S k) (order_round l k) /\ order_round l k ≡ₚ l /\ map sender_of (order_round l k) = map sender_of l.
Proof.
  intros Ho. destruct (l !! k) as [x|] eqn:Hx; [destruct (is_coinbase x) eqn:Hc|].
  - unfold order_round. rewrite Hx. fold (is_coinbase x). rewrite Hc. split; [|done]. intros i j a b Hi Hij Ha Hb Hca Hs.
    destruct (decide (i = k)) as [->|Hne]; [congruence|]. apply (Ho i j); try done. lia.
  - destruct (order_round_spec l k x Hx Hc) as (e & y & Hke & Hy & Hs & -> & Hmin).
    pose proof (lookup_lt_Some _ _ _ Hx) as Hlx. pose proof (lookup_lt_Some _ _ _ Hy) as Hly. split; [|split].
    + intros i j a b Hi Hij Ha Hb Hca Hsab. rewrite lookup_swap in Ha, Hb by done. unfold swapped in Ha, Hb.
      destruct (decide (i = k)) as [->|Hik].
      * assert (a = y) as -> by congruence. apply (Hmin (swapped k e j)); [|done|congruence].
        unfold swapped. repeat case_decide; lia.
      * destruct (decide (i = e)) as [->|Hie]; [lia|]. apply (Ho i (swapped k e j)); try done; [lia|].
        unfold swapped. repeat case_decide; lia.
    + apply swap_perm.
    + apply list_eq. intros j. rewrite !list_lookup_fmap, lookup_swap by done. unfold swapped.
      case_decide as E1; [subst; rewrite Hx, Hy; cbn; by rewrite Hs|]. case_decide as E2; [subst; rewrite Hx, Hy; cbn; by rewrite Hs|done].
  - unfold order_round. rewrite Hx. split; [|done]. intros i j a b Hi Hij Ha Hb Hca Hs.
    destruct (decide (i = k)) as [->|Hne]; [congruence|]. apply (Ho i j); try done. lia.
Qed.

Lemma order_rounds n l :
  ordered_upto n (fold_left order_round (seq 0 n) l) /\ fold_left order_round (seq 0 n) l ≡ₚ l /\
  map sender_of (fold_left order_round (seq 0 n) l) = map sender_of l.
Proof.
  induction n as [|n (H1 & H2 & H3)]; [split; [by intros i; lia|done]|]. rewrite seq_S, fold_left_app. cbn [fold_left Nat.add].
  destruct (order_round_ordered _ n H1) as (G1 & G2 & G3). split; [done|]. split; [by rewrite G2|by rewrite G3].
Qed.

Lemma order_spec l :
  OrderSameSenderByTimestamp l ≡ₚ l /\ map sender_of (OrderSameSenderByTimestamp l) = map sender_of l /\
  ordered_upto (length l) (OrderSameSenderByTimestamp l).
Proof.
  unfold OrderSameSenderByTimestamp. destruct (Nat.ltb_spec (length l) 2).
  - split; [done|]. split; [done|]. intros i j x y Hi Hij Hx Hy. apply lookup_lt_Some in Hy. lia.
  - destruct (order_rounds (length l) l) as (H1 & H2 & H3). done.
Qed.

(** ** The selection *)

Section Selection.
Context {ops : CryptoOps}.

Lemma greedy_sublist b l : greedy b l `sublist_of` l.
Proof.
  revert b; induction l as [|tx l IH]; intros b; cbn [greedy]; [done|].
  destruct (is_coinbase tx); [by apply sublist_cons|]. destruct (Transaction_Verify tx && _); [by apply sublist_skip|by apply sublist_cons].
Qed.

Lemma greedy_chosen b l : Forall (fun tx => is_coinbase tx = false /\ Transaction_Verify tx = true) (greedy b l).
Proof.
  revert b; induction l as [|tx l IH]; intros b; cbn [greedy]; [constructor|].
  destruct (is_coinbase tx) eqn:Ec; [done|]. destruct (Transaction_Verify tx) eqn:Ev; cbn [andb]; [|done].
  destruct (spend_of tx <=? b (senderAddress (stx tx))); [by constructor|done].
Qed.

Lemma greedy_idem b l : greedy b (greedy b l) = greedy b l.
Proof.
  revert b; induction l as [|tx l IH]; intros b; cbn [greedy]; [done|].
  destruct (is_coinbase tx) eqn:Ec; [done|]. destruct (Transaction_Verify tx && _) eqn:Ev; [|done].
  cbn [greedy]. by rewrite Ec, Ev, IH.
Qed.

Definition later (x y : signed_transaction) : Prop :=
  is_coinbase x = false -> sender_of y = sender_of x -> tx_timestamp (stx x) < tx_timestamp (stx y).

Lemma in_order_intro g txs :
  Forall (fun tx => is_coinbase tx = false -> g (sender_of tx) < tx_timestamp (stx tx)) txs -> ForallOrdPairs later txs ->
  in_order g txs.
Proof.
  intros Hg Hp. revert g Hg; induction Hp as [|x r Hx _ IH]; intros g Hg; [done|]. apply Forall_cons_iff in Hg as [Hgx Hg].
  split; [exact Hgx|]. apply IH. apply Forall_lookup_2. intros i y Hi Hcy.
  pose proof (Forall_lookup_1 _ _ i y Hg Hi Hcy) as H1. pose proof (Forall_lookup_1 _ _ i y Hx Hi) as H2.
  unfold tx_guard, later, sender_of in *. destruct (negb (is_coinbase x) && _) eqn:E; [|done].
  apply andb_true_iff in E as [E1%negb_true_iff E2]. apply bool_decide_eq_true in E2. specialize (H2 E1 E2). lia.
Qed.

(** Every pooled payment is well formed and newer than what its sender spent last, and no two payments of
    a sender bear the same time. *)
Definition pool_mineable (m : sheet) (pool : mempool) : Prop :=
  (forall k t, pool !! k = Some t -> stx_ok t /\ second_output_ok t /\ (is_coinbase t = false -> last_ts m (sender_of t) < tx_timestamp (stx t))) /\
  (forall k k' t t', pool !! k = Some t -> pool !! k' = Some t' -> k <> k' -> is_coinbase t = false -> sender_of t = sender_of t' ->
     tx_timestamp (stx t) <> tx_timestamp (stx t')).

Definition distinct_times (x y : signed_transaction) : Prop :=
  is_coinbase x = false -> sender_of y = sender_of x -> tx_timestamp (stx x) <> tx_timestamp (stx y).

Lemma same_sender_coinbase x y : sender_of y = sender_of x -> is_coinbase y = is_coinbase x.
Proof. unfold is_coinbase, sender_of. by intros ->. Qed.

Lemma snapshot_distinct m pool : pool_mineable m pool -> ForallOrdPairs distinct_times (TxMempool_Snapshot pool).
Proof.
  intros [_ H]. apply ordpairs_lookup. intros i j x y Hij Hx Hy Hc Hs. unfold TxMempool_Snapshot in *.
  apply list_lookup_fmap_Some in Hx as ([k x'] & -> & Hx). apply list_lookup_fmap_Some in Hy as ([k' y'] & -> & Hy). cbn [snd] in *.
  apply (H k k' x' y'); [by apply elem_of_map_to_list; eapply list_elem_of_lookup_2|by apply elem_of_map_to_list; eapply list_elem_of_lookup_2| |done|done].
  intros <-. assert (i = j); [|lia]. pose proof (NoDup_fst_map_to_list pool) as Hn.
  eapply (proj1 (NoDup_alt _) Hn i j k); rewrite list_lookup_fmap; [by rewrite Hx|by rewrite Hy].
Qed.

(** What is handed to the selection: the pool, every sender's payments in order of time. *)
Definition candidates (pool : mempool) : list signed_transaction :=
  let snapshot := TxMempool_Snapshot pool in
  if (1 <? length snapshot)%nat then OrderSameSenderByTimestamp (sort_by CompareTransactionPriority snapshot) else snapshot.

Lemma candidates_perm pool : candidates pool ≡ₚ TxMempool_Snapshot pool.
Proof.
  unfold candidates. destruct (1 <? _)%nat; [|done].
  by rewrite (proj1 (order_spec _)), sort_by_perm.
Qed.

Lemma candidates_later m pool : pool_mineable m pool -> ForallOrdPairs later (candidates pool).
Proof.
  intros H. pose proof (snapshot_distinct m pool H) as Hd.
  apply (ordpairs_perm distinct_times _ (candidates pool)) in Hd; [..|by rewrite candidates_perm].
  2: { unfold distinct_times. intros x y Hxy Hc Hs. rewrite (same_sender_coinbase y x Hs) in Hxy. apply not_eq_sym. by apply Hxy. }
  apply ordpairs_lookup. intros i j x y Hij Hx Hy Hc Hs. pose proof (lookup_ordpairs _ _ i j x y Hd Hij Hx Hy Hc Hs) as Hne.
  revert Hx Hy. unfold candidates. destruct (Nat.ltb_spec 1 (length (TxMempool_Snapshot pool))) as [_|Hlen]; intros Hx Hy.
  - destruct (order_spec (sort_by CompareTransactionPriority (TxMempool_Snapshot pool))) as (Hp & _ & Ho).
    assert (tx_timestamp (stx x) <= tx_timestamp (stx y)); [|lia]. eapply (Ho i j); try done.
    apply lookup_lt_Some in Hx. by rewrite (Permutation_length Hp) in Hx.
  - apply lookup_lt_Some in Hy. lia.
Qed.

Lemma candidates_pooled m pool t : pool_mineable m pool -> t ∈ candidates pool ->
  stx_ok t /\ second_output_ok t /\ (is_coinbase t = false -> last_ts m (sender_of t) < tx_timestamp (stx t)).
Proof.
  intros [H _] Ht. rewrite candidates_perm in Ht. unfold TxMempool_Snapshot in Ht. apply list_elem_of_fmap in Ht as ([k t'] & -> & Hk).
  apply elem_of_map_to_list in Hk. by apply (H k).
Qed.

Lemma selection_spec st :
  pool_mineable (g_sheetMap st) (g_txMempool st) -> sheet_ok (g_sheetMap st) -> total (g_sheetMap st) < M256 ->
  let sel := greedy (bal (g_sheetMap st)) (candidates (g_txMempool st)) in
  BuildSpendableMempoolSelection st = (sel, u64 (fee_sum sel)) /\
  Forall (fun t => stx_ok t /\ second_output_ok t /\ is_coinbase t = false /\ Transaction_Verify t = true) sel /\
  in_order (last_ts (g_sheetMap st)) sel.
Proof.
  intros Hp Hm Ht sel. assert (Hin : Forall (fun t => t ∈ candidates (g_txMempool st)) sel).
  { apply Forall_lookup_2. intros i t Hi. eapply elem_of_sublist; [by eapply list_elem_of_lookup_2|apply greedy_sublist]. }
  split; [|split].
  - unfold BuildSpendableMempoolSelection. fold (candidates (g_txMempool st)). apply select_spec; [|done|done].
    apply Forall_lookup_2. intros i t Hi. eapply candidates_pooled; [exact Hp|by eapply list_elem_of_lookup_2].
  - pose proof (greedy_chosen (bal (g_sheetMap st)) (candidates (g_txMempool st))) as Hc. fold sel in Hc.
    apply Forall_lookup_2. intros i t Hi. pose proof (Forall_lookup_1 _ _ i t Hin Hi) as H1. pose proof (Forall_lookup_1 _ _ i t Hc Hi) as [H2 H3].
    destruct (candidates_pooled _ _ t Hp H1) as (? & ? & _). done.
  - apply in_order_intro; [|eapply ordpairs_sublist; [apply greedy_sublist|by apply (candidates_later (g_sheetMap st))]].
    eapply Forall_impl; [|exact Hin]. intros t Hti. by eapply candidates_pooled.
Qed.
End Selection.

(** ** The search *)

Lemma set_nonce_nonce n m b : set_nonce n (set_nonce m b) = set_nonce n b.
Proof. done. Qed.

(** The result carries the block asked for, with another nonce and possibly a later timestamp. *)
Lemma mine_loop_sound fuel pow clock b stampedAt n ok b' :
  (forall k, is_u64 (clock k)) -> is_u64 n -> timestamp (header b) = stampedAt -> is_u64 stampedAt ->
  mine_loop fuel pow clock b stampedAt n = Some (ok, b') ->
  (ok = true -> pow b' = true) /\
  exists n' ts, is_u64 n' /\ is_u64 ts /\ stampedAt <= ts /\ b' = set_nonce n' (set_timestamp ts b).
Proof.
  revert clock b stampedAt n; induction fuel as [|fuel IH]; intros clock b sa n Hc Hn Hb Hsa; cbn [mine_loop]; [done|].
  assert (Hhere : set_nonce n b = set_nonce n (set_timestamp sa b)) by (by rewrite <- Hb).
  destruct (pow (set_nonce n b)) eqn:Ep.
  { intros [= <- <-]. split; [done|]. exists n, sa. split; [done|]. split; [done|]. split; [lia|done]. }
  destruct (Z.eqb_spec n UINT64_MAX) as [_|Hmax].
  { intros [= <- <-]. split; [done|]. exists n, sa. split; [done|]. split; [done|]. split; [lia|done]. }
  assert (Hn1 : is_u64 (n + 1)) by (unfold UINT64_MAX in *; unfold_cint; lia).
  assert (Hgo : forall clock', (forall k, is_u64 (clock' k)) -> mine_loop fuel pow clock' (set_nonce n b) sa (n + 1) = Some (ok, b') ->
    (ok = true -> pow b' = true) /\ exists n' ts, is_u64 n' /\ is_u64 ts /\ sa <= ts /\ b' = set_nonce n' (set_timestamp ts b)).
  { intros clock' Hc' E. apply IH in E as (H1 & n' & ts & Hn' & Hts & Hle & ->); try done. split; [done|]. by exists n', ts. }
  destruct (negb _); [by apply Hgo|]. destruct (Z.ltb_spec sa (clock 0%nat)) as [Hlt|]; cbn [andb]; [|by apply Hgo].
  destruct (MINING_TIMESTAMP_REFRESH_MS <=? clock 0%nat - sa); [|by apply Hgo].
  intros E. apply IH in E as (H1 & n' & ts & Hn' & Hts & Hle & ->); [|done|vm_decide|done|done].
  split; [done|]. exists n', ts. split; [done|]. split; [done|]. split; [lia|done].
Qed.

Lemma mine_loop_txs fuel pow clock b stampedAt n ok b' :
  mine_loop fuel pow clock b stampedAt n = Some (ok, b') -> transactions b' = transactions b.
Proof.
  revert clock b stampedAt n; induction fuel as [|fuel IH]; intros clock b sa n; cbn [mine_loop]; [done|].
  destruct (pow _); [by intros [= _ <-]|]. destruct (n =? UINT64_MAX); [by intros [= _ <-]|].
  destruct (negb _); [|destruct (_ && _)]; intros E; by apply IH in E.
Qed.

(** Until the clock calls for a new timestamp, the nonces are tried in order. *)
Lemma mine_loop_sweep pow b stampedAt k fuel clock n :
  (k < fuel)%nat -> 0 <= n -> n + Z.of_nat k < 2 ^ 64 -> pow (set_nonce (n + Z.of_nat k) b) = true ->
  (forall i, (i < k)%nat -> pow (set_nonce (n + Z.of_nat i) b) = false) ->
  (forall i, Z.of_nat i < (n + Z.of_nat k) / 16 - n / 16 -> clock i < stampedAt + MINING_TIMESTAMP_REFRESH_MS) ->
  mine_loop fuel pow clock b stampedAt n = Some (true, set_nonce (n + Z.of_nat k) b).
Proof.
  revert fuel clock n b; induction k as [|k IH]; intros [|fuel] clock n b Hf Hn Hmax Hhit Hmiss Hslow; [lia| |lia|]; cbn [mine_loop].
  { rewrite Z.add_0_r in *. by rewrite Hhit. }
  pose proof (Hmiss 0%nat ltac:(lia)) as H0. rewrite Z.add_0_r in H0. rewrite H0.
  destruct (Z.eqb_spec n UINT64_MAX) as [E|_]; [unfold UINT64_MAX in E; lia|].
  replace (n + Z.of_nat (S k)) with (n + 1 + Z.of_nat k) in * by lia. unfold MINING_TIMESTAMP_CHECK_NONCES.
  assert (Hrest : forall clock', (forall i, Z.of_nat i < (n + 1 + Z.of_nat k) / 16 - (n + 1) / 16 -> clock' i < stampedAt + MINING_TIMESTAMP_REFRESH_MS) ->
    mine_loop fuel pow clock' (set_nonce n b) stampedAt (n + 1) = Some (true, set_nonce (n + 1 + Z.of_nat k) b)).
  { intros clock' Hc. rewrite (IH fuel clock' (n + 1) (set_nonce n b)); [by rewrite set_nonce_nonce|lia|lia|lia|by rewrite set_nonce_nonce| |done].
    intros i Hi. rewrite set_nonce_nonce. specialize (Hmiss (S i) ltac:(lia)). by replace (n + Z.of_nat (S i)) with (n + 1 + Z.of_nat i) in Hmiss by lia. }
  destruct (Z.eqb_spec ((n + 1) mod 16) 0) as [Em|Em]; cbn [negb].
  - assert (Hd : (n + 1) / 16 = n / 16 + 1) by (Z.to_euclidean_division_equations; lia).
    pose proof (Z.div_le_mono (n + 1) (n + 1 + Z.of_nat k) 16 ltac:(lia) ltac:(lia)).
    pose proof (Hslow 0%nat ltac:(lia)) as Hnow. destruct (Z.ltb_spec stampedAt (clock 0%nat)); cbn [andb].
    + rewrite (proj2 (Z.leb_gt _ _)) by lia. apply Hrest. intros i Hi. apply Hslow. lia.
    + apply Hrest. intros i Hi. apply Hslow. lia.
  - assert (Hd : (n + 1) / 16 = n / 16) by (Z.to_euclidean_division_equations; lia).
    apply Hrest. intros i Hi. apply Hslow. lia.
Qed.

(** ** The block that is mined *)

Lemma fold_add_txs txs b ts : transactions b = Some ts -> fold_left Block_AddTransaction txs b = mkBlock (header b) (Some (ts ++ txs)).
Proof.
  revert b ts; induction txs as [|tx txs IH]; intros b ts Hb; cbn [fold_left].
  - rewrite app_nil_r. destruct b. cbn in *. congruence.
  - rewrite (IH _ (ts ++ [tx])) by (unfold Block_AddTransaction; by rewrite Hb).
    unfold Block_AddTransaction. rewrite Hb. cbn [header]. by rewrite <- app_assoc.
Qed.

Section Mining.
Context {ops : CryptoOps} {laws : CryptoLaws ops}.

Lemma merkle_loop_size f l h : Forall (bytes_n 32) l -> merkle_loop f l = Some h -> bytes_n 32 h.
Proof.
  revert l; induction f as [|f IH]; intros [|a [|b r]] Hl E; cbn [merkle_loop] in E; try done.
  - injection E as <-. by apply Forall_cons_iff in Hl as [? _].
  - apply IH in E; [done|constructor].
  - injection E as <-. by apply Forall_cons_iff in Hl as [? _].
  - apply IH in E; [done|apply merkle_level_sizes].
Qed.

Lemma merkle_root_size txs : txs <> [] -> bytes_n 32 (merkle_root txs).
Proof. intros Hne. eapply merkle_loop_size; [apply tx_hash_sizes|by apply merkle_root_loop]. Qed.

(** The node as [MineBlock] leaves it: the memo table and the mining DAG may have changed. *)
Lemma mine_block_node fuel clock st b ok st' b' :
  reachable st -> MineBlock fuel clock st b = Some (ok, st', b') ->
  (exists c p, st' = set_pow (set_dag st c) p) /\ reachable st' /\ transactions b' = transactions b.
Proof.
  intros Hreach. unfold MineBlock. destruct (reachable_history st Hreach) as (L & Hok & _).
  destruct (DagParamsForHeight_spec st (blockNumber (header b)) Hok) as (c & _ & Es & _).
  pose proof (good_dag st (blockNumber (header b))) as Hs. destruct (Chain_DagParamsForHeight _ _) as [params st1]. cbn [snd] in *.
  assert (Hr1 : reachable st1).
  { destruct Hreach as (rw & Hu & Hr). exists rw. split; [done|]. by eapply rtc_r. }
  destruct params as [[n s]|].
  - destruct (mine_loop _ _ _ _ _ _) as [[ok1 b1]|] eqn:Em; [|done]. intros E. injection E as _ <- <-. apply mine_loop_txs in Em.
    split; [rewrite Es; by eexists c, _|]. split; [|done].
    destruct Hr1 as (rw & Hu & Hr). exists rw. split; [done|]. eapply rtc_r; [exact Hr|]. rewrite Es. apply good_pow. constructor.
  - intros E. injection E as _ <- <-. split; [exists c, (g_pow st); by rewrite Es|done].
Qed.

Definition coinbase_tx (minerAddress : bytes) (amount now : Z) : signed_transaction :=
  mkSigned (mkTx now 0 amount 0 (replicate 32 255) minerAddress (zeros 32) (zeros 33) 1 (zeros 6)) (zeros 64).

Definition selected (st : node) : list signed_transaction := greedy (bal (g_sheetMap st)) (candidates (g_txMempool st)).

Context (st : node) (g_dagVote : Z) (minerAddress : bytes) (now now' : Z).
Hypothesis Hreach : reachable st.
Hypothesis Hpool : pool_mineable (g_sheetMap st) (g_txMempool st).
Hypothesis Haddr : bytes_n 32 minerAddress /\ Address_IsCoinbase minerAddress = false.
Hypothesis Htimes : is_u64 now /\ is_u64 now'.
Hypothesis Hvote : 0 <= g_dagVote <= DAG_VOTE_MAX.
Hypothesis Hsize : Z.of_nat (length (blocks st)) < 2 ^ 64.
Hypothesis Hamount : 0 < g_currentReward st + fee_sum (selected st) < 2 ^ 64.

Let txs : list signed_transaction := coinbase_tx minerAddress (g_currentReward st + fee_sum (selected st)) now' :: selected st.
Let candidate : block :=
  mkBlock (header (BuildNextBlock st g_dagVote (Chain_GetTargetForHeight (blocks st) (Z.of_nat (Chain_Size st))) now)) (Some txs).

Lemma sheet_facts : sheet_ok (g_sheetMap st) /\ total (g_sheetMap st) < M256 /\ is_u64 (g_currentReward st).
Proof.
  destruct (reachable_history st Hreach) as (L & _ & HL & (Hu & _)). destruct (ledger_sheet_ok st L HL). done.
Qed.

Lemma selected_facts :
  Forall (fun t => stx_ok t /\ second_output_ok t /\ is_coinbase t = false /\ Transaction_Verify t = true) (selected st) /\
  in_order (last_ts (g_sheetMap st)) (selected st) /\ 0 <= fee_sum (selected st).
Proof.
  destruct sheet_facts as (H1 & H2 & _). destruct (selection_spec st Hpool H1 H2) as (_ & H3 & H4).
  split; [done|]. split; [done|]. apply fee_sum_nonneg. eapply Forall_impl; [|exact H3]. by intros t (? & _).
Qed.

Lemma assembled : assemble_block st g_dagVote minerAddress now now' = Some candidate.
Proof.
  destruct sheet_facts as (H1 & H2 & H3). destruct (selection_spec st Hpool H1 H2) as (E & _).
  destruct selected_facts as (_ & _ & Hf). unfold assemble_block. rewrite E. fold (selected st).
  assert (Hr : 0 <= g_currentReward st) by apply H3. rewrite (u64_small (fee_sum _)) by (unfold_cint; lia). rewrite (proj2 (Z.ltb_ge _ _)) by (unfold UINT64_MAX; lia).
  rewrite u64_small by (unfold_cint; lia). f_equal. by rewrite (fold_add_txs _ _ [coinbase_tx minerAddress (g_currentReward st + fee_sum (selected st)) now']).
Qed.

Lemma coinbase_is : is_coinbase (coinbase_tx minerAddress (g_currentReward st + fee_sum (selected st)) now') = true.
Proof. vm_compute. reflexivity. Qed.

Lemma candidate_acceptable : acceptable (g_sheetMap st) (g_currentReward st) txs.
Proof.
  destruct selected_facts as (Hsel & Hord & Hf). pose proof coinbase_is as Hcb. destruct Haddr as [Ha1 Ha2].
  assert (Hnc : noncoinbase txs = selected st).
  { unfold txs. rewrite noncoinbase_cons, Hcb. unfold noncoinbase. clear - Hsel. induction Hsel as [|t r (_ & _ & Ht & _) _ IH]; [done|].
    rewrite filter_cons_True by done. by rewrite IH. }
  assert (Hfee : fee_sum txs = fee_sum (selected st)) by (rewrite <- fee_sum_noncoinbase, Hnc; done).
  split; [|split; [|split; [|split; [|split]]]].
  - constructor; [|eapply Forall_impl; [|exact Hsel]; by intros t (_ & _ & _ & ?)].
    unfold Transaction_Verify. cbn [stx coinbase_tx senderAddress tx_amount1 tx_amount2 recipientAddress1 recipientAddress2].
    change (Address_IsCoinbase (replicate 32 255)) with true. cbv iota. rewrite (proj2 (Z.eqb_neq _ _)) by lia. by rewrite Ha2.
  - unfold coinbase_count, txs. rewrite filter_cons_True by done. cbn [length]. f_equal. clear - Hsel.
    induction Hsel as [|t r (_ & _ & Ht & _) _ IH]; [done|]. rewrite filter_cons_False by congruence. done.
  - rewrite Hnc. unfold txs. cbn [greedy]. rewrite Hcb. apply greedy_idem.
  - rewrite Hfee. constructor.
    + intros _. cbn [stx coinbase_tx tx_fee tx_amount2 tx_amount1 recipientAddress1 recipientAddress2]. done.
    + eapply Forall_impl; [|exact Hsel]. intros t (_ & _ & Ht & _) Hc. congruence.
  - rewrite Hfee. lia.
  - split; [congruence|]. eapply in_order_ext; [|exact Hord]. intros x. unfold tx_guard. by rewrite Hcb.
Qed.
Let rooted : block := set_merkleRoot (merkle_root txs) candidate.

Lemma candidate_good n ts : is_u64 n -> is_u64 ts -> good_block (set_nonce n (set_timestamp ts rooted)).
Proof.
  intros Hn Hts. destruct selected_facts as (Hsel & _ & _). destruct sheet_facts as (_ & _ & Hr). split; [split|].
  - unfold header_ok. cbn [rooted set_merkleRoot candidate set_nonce set_timestamp header BuildNextBlock blockNumber timestamp nonce prevHash merkleRoot difficultyTarget version reserved].
    split; [unfold Chain_Size; unfold_cint; lia|]. split; [done|]. split; [done|]. split; [|split; [by apply merkle_root_size|]].
    { destruct (0 <? Chain_Size st)%nat; [|vm_decide]. destruct (Chain_GetBlockCopy _ _); [apply sha256d_size|vm_decide]. }
    split; [apply GetTarget_good; unfold Chain_Size; lia|]. split; [vm_decide|]. unfold DAG_VOTE_MAX in Hvote.
    split; [done|]. apply Forall_cons_iff. split; [unfold_cint; lia|vm_decide].
  - cbn [rooted set_merkleRoot candidate set_nonce set_timestamp transactions]. constructor; [|eapply Forall_impl; [|exact Hsel]; by intros t (? & _)].
    destruct Haddr as [Ha _], Htimes as [_ Ht]. split; [|vm_decide]. unfold tx_ok. cbn [coinbase_tx stx tx_timestamp tx_fee tx_amount1 tx_amount2 senderAddress recipientAddress1 recipientAddress2 compressedPublicKey tx_version tx_reserved].
    split; [done|]. split; [vm_decide|]. split; [unfold_cint; lia|]. split; [vm_decide|]. split; [vm_decide|]. split; [done|]. vm_decide.
  - intros t [= <-]. constructor; [by intros H|]. eapply Forall_impl; [|exact Hsel]. by intros t (_ & ? & _).
Qed.

Lemma candidate_extends n ts :
  let b := set_nonce n (set_timestamp ts rooted) in
  links_to_tip (blocks st) b = true /\ difficultyTarget (header b) = Chain_GetTargetForHeight (blocks st) (Z.of_nat (length (blocks st))).
Proof.
  split; [|done]. unfold links_to_tip. cbn [rooted set_merkleRoot candidate set_nonce set_timestamp header BuildNextBlock blockNumber prevHash].
  unfold Chain_Size. rewrite Z.eqb_refl. cbn [andb]. destruct (Nat.ltb_spec 0 (length (blocks st))) as [Hlt|]; [|done].
  unfold Chain_GetBlockCopy. destruct (lookup_lt_is_Some_2 (blocks st) (length (blocks st) - 1)) as [p ->]; [lia|].
  cbn [fmap option_fmap option_map]. by apply memeq_true.
Qed.

Lemma all_valid_rest l :
  Forall (fun t => stx_ok t /\ second_output_ok t /\ is_coinbase t = false /\ Transaction_Verify t = true) l -> all_tx_valid l true = true.
Proof.
  induction 1 as [|t r (_ & _ & Hc & Hv) _ IH]; [done|]. cbn [all_tx_valid]. fold (is_coinbase t). by rewrite Hv, Hc.
Qed.

Lemma candidate_structure n ts : Block_HasValidStructure (set_nonce n (set_timestamp ts rooted)) = true.
Proof.
  destruct selected_facts as (Hsel & _). destruct candidate_acceptable as (Hv & _). apply Forall_cons_iff in Hv as [Hv _].
  unfold Block_HasValidStructure. cbn [rooted set_merkleRoot candidate set_nonce set_timestamp transactions header merkleRoot].
  rewrite (proj2 (memeq_true _ _) eq_refl). cbn [negb]. apply andb_true_iff. split; [|done]. apply andb_true_iff. split.
  - unfold Block_HasValidVote. cbn [set_nonce set_timestamp set_merkleRoot header reserved rooted candidate BuildNextBlock nth].
    by rewrite (proj2 (Z.leb_le _ _)) by lia.
  - unfold Block_AllTransactionsValid. cbn [set_nonce set_timestamp set_merkleRoot transactions rooted candidate].
    apply andb_true_iff. split; [|done]. unfold txs. cbn [all_tx_valid]. rewrite Hv. cbn [negb].
    fold (is_coinbase (coinbase_tx minerAddress (g_currentReward st + fee_sum (selected st)) now')). rewrite coinbase_is. by apply all_valid_rest.
Qed.

(** What mining returns is accepted. *)
Lemma mined_accepted fuel clock st' b' :
  (forall k, is_u64 (clock k)) -> MineBlock fuel clock st rooted = Some (true, st', b') ->
  fst (Chain_AddBlock st' b') = true /\ Block_HasValidStructure b' = true /\ transactions b' = Some txs /\ now <= timestamp (header b').
Proof.
  intros Hclk E. destruct (mine_block_node _ _ _ _ _ _ _ Hreach E) as ((c & p & ->) & Hr' & _).
  assert (Hb : exists n s, dag_params (blocks st) (blockNumber (header b')) = Some (n, s) /\ pow_light b' n s = true /\
    exists n' ts, is_u64 n' /\ is_u64 ts /\ now <= ts /\ b' = set_nonce n' (set_timestamp ts rooted)).
  { revert E. unfold MineBlock. destruct (reachable_history st Hreach) as (L & Hok & _).
    destruct (DagParamsForHeight_spec st (blockNumber (header rooted)) Hok) as (c' & Hc' & Es & Ep).
    destruct (Chain_DagParamsForHeight _ _) as [params st1]. cbn [fst snd] in *. subst st1.
    destruct params as [[n s]|]; [|done]. destruct (mine_loop _ _ _ _ _ _) as [[ok b1]|] eqn:Em; [|done]. intros E. injection E as -> _ E2. subst b1.
    apply mine_loop_sound in Em as (Hpow & n' & ts & Hn' & Hts & Hle & Hb1); [|done|vm_decide|done|apply Htimes].
    exists n, s. split; [by rewrite Hb1|]. split; [|exists n', ts; split; [done|]; split; [done|]; by split].
    specialize (Hpow eq_refl). rewrite verdict_light in Hpow; [done|]. apply ensure_ok. apply Hok. }
  destruct Hb as (n & s & Hd & Hl & n' & ts & Hn' & Hts & Hle & Hb'). rewrite AddBlock_fst.
  destruct (reachable_history _ Hr') as (L & Hok & HL & (Hu & _)). destruct (ledger_sheet_ok _ L HL) as [Hm Ht].
  assert (Hg : good_block b') by (rewrite Hb'; by apply candidate_good). assert (Et : transactions b' = Some txs) by (by rewrite Hb').
  split; [|split; [rewrite Hb'; apply candidate_structure|split; [done|by rewrite Hb']]].
  eapply (AddBlockLocked_accepts _ L b' txs); [done..| |].
  - destruct (candidate_extends n' ts) as [H1 H2]. rewrite <- Hb' in H1, H2. split; [exact H1|]. split; [exact H2|]. by exists n, s.
  - exact (acceptable_admit (set_pow (set_dag st c) p) b' txs (proj1 Hg) Et Hm Ht Hu candidate_acceptable).
Qed.

(** The search ends at the first nonce that meets the target, when the clock does not restamp the
    header before. *)
Lemma mine_block_finds clock k dagBytes seed :
  dag_params (blocks st) (Z.of_nat (length (blocks st))) = Some (dagBytes, seed) -> Z.of_nat k < 2 ^ 64 ->
  pow_light (set_nonce (Z.of_nat k) rooted) dagBytes seed = true ->
  (forall i, (i < k)%nat -> pow_light (set_nonce (Z.of_nat i) rooted) dagBytes seed = false) ->
  (forall i, Z.of_nat i < Z.of_nat k / 16 -> clock i < now + MINING_TIMESTAMP_REFRESH_MS) ->
  exists st', MineBlock (S k) clock st rooted = Some (true, st', set_nonce (Z.of_nat k) rooted).
Proof.
  intros Hd Hk Hhit Hmiss Hslow. unfold MineBlock. destruct (reachable_history st Hreach) as (L & Hok & _).
  destruct (DagParamsForHeight_spec st (blockNumber (header rooted)) Hok) as (c & _ & Es & Ep).
  destruct (Chain_DagParamsForHeight _ _) as [params st1]. cbn [fst snd] in *. subst st1 params.
  change (blockNumber (header rooted)) with (Z.of_nat (length (blocks st))). rewrite Hd.
  assert (Hp : forall e, pow_ok (snd (Block_EnsureAutolykos2Dag (g_pow (set_dag st c)) e dagBytes seed))) by (intros e; apply ensure_ok, Hok).
  rewrite (mine_loop_sweep _ rooted (timestamp (header rooted)) k); cbn [mbind option_bind].
  - eexists. reflexivity.
  - lia.
  - lia.
  - lia.
  - rewrite verdict_light by apply Hp. exact Hhit.
  - intros i Hi. rewrite verdict_light by apply Hp. by apply Hmiss.
  - intros i Hi. apply Hslow. rewrite Z.add_0_l, Z.div_0_l, Z.sub_0_r in Hi by lia. exact Hi.
Qed.
End Mining.

(** ** A scenario: two payments pooled in the wrong order, and a mined payment that comes back *)

Module MineScenario.
Import Scenario.
#[local] Existing Instances Toy.ops Toy.laws.

Definition insert_all (st : node) (l : list signed_transaction) : node :=
  fold_left (fun st tx => set_pool st (snd (TxMempool_Insert (g_txMempool st) tx))) l st.

Definition waiting : node := insert_all node1 [payment 1700000000001; payment 1700000000000].
Definition replayed : node := insert_all node2 [payment 1700000000000].
Definition store_of (st : node) : store := mkStore st (mkOrphans [] 0) None.
Definition still (k : nat) : Z := 1700000090000.
Definition params_at (st : node) : Z * bytes := default (0, []) (dag_params (blocks st) (Z.of_nat (length (blocks st)))).

Lemma insert_all_reachable st l : reachable st -> reachable (insert_all st l).
Proof.
  revert st; induction l as [|tx l IH]; intros st Hr; [done|]. apply IH. destruct Hr as (rw & Hu & Hr). exists rw. split; [done|].
  eapply rtc_r; [exact Hr|]. apply good_pool, pool_insert.
Qed.

Lemma waiting_mineable : pool_mineable (g_sheetMap waiting) (g_txMempool waiting).
Proof.
  assert (Hp : forall k t, g_txMempool waiting !! k = Some t ->
    (t = payment 1700000000000 /\ k = Transaction_CalculateHash t) \/ (t = payment 1700000000001 /\ k = Transaction_CalculateHash t)).
  { intros k t. change (g_txMempool waiting) with (<[Transaction_CalculateHash (payment 1700000000000) := payment 1700000000000]>
      (<[Transaction_CalculateHash (payment 1700000000001) := payment 1700000000001]> (∅ : mempool))).
    intros H. apply lookup_insert_Some in H as [[<- <-]|[_ H]]; [by left|]. apply lookup_insert_Some in H as [[<- <-]|[_ H]]; [by right|done]. }
  split.
  - intros k t Hk. apply Hp in Hk as [[-> _]|[-> _]]; (split; [vm_decide|]; split; [by intros H|]; intros _; vm_compute; reflexivity).
  - intros k k' t t' Hk Hk' Hne _ _. apply Hp in Hk as [[-> ->]|[-> ->]], Hk' as [[-> ->]|[-> ->]]; try done.
Qed.
End MineScenario.
Import MineScenario Scenario.

(** ** Properties *)

(** C15: a mined block is accepted, if the pool is in order.  On a state reached on well-formed blocks
    and without a failed save, let every pooled payment have a second recipient where it has a second
    amount and be newer than what its sender spent last, let no two of a sender bear the same time
    ([pool_mineable]; a stale or same-time payment does stop the miner), let the wallet not be the
    coinbase address and reward plus fees be positive and fit 64 bits.  Then the assembled block
    carries the coinbase and the greedy choice of the pool, and whatever nonce and timestamp the search
    ends with, the block is accepted by the chain and passes the structural check of every peer.  The
    search ends at the first nonce that meets the target, when the clock does not restamp before. *)
Theorem mined_block_is_accepted {ops : CryptoOps} {laws : CryptoLaws ops} s g_dagVote minerAddress now now' :
  let st := st_chain s in
  reachable st -> pool_mineable (g_sheetMap st) (g_txMempool st) ->
  bytes_n 32 minerAddress -> Address_IsCoinbase minerAddress = false -> is_u64 now -> is_u64 now' -> 0 <= g_dagVote <= DAG_VOTE_MAX ->
  Z.of_nat (length (blocks st)) < 2 ^ 64 -> 0 < g_currentReward st + fee_sum (selected st) < 2 ^ 64 ->
  exists b, assemble_block st g_dagVote minerAddress now now' = Some b /\
    transactions b = Some (coinbase_tx minerAddress (g_currentReward st + fee_sum (selected st)) now' :: selected st) /\
    let rooted := set_merkleRoot (merkle_root (default [] (transactions b))) b in
    (forall fuel clock attachClock st' b', (forall k, is_u64 (clock k)) -> MineBlock fuel clock st rooted = Some (true, st', b') ->
       fst (Chain_AddBlock st' b') = true /\ Block_HasValidStructure b' = true /\ now <= timestamp (header b') /\
       exists s', MineAndAppendBlock fuel clock attachClock s b = Some (true, s')) /\
    (forall clock k dagBytes seed, dag_params (blocks st) (Z.of_nat (length (blocks st))) = Some (dagBytes, seed) -> Z.of_nat k < 2 ^ 64 ->
       pow_light (set_nonce (Z.of_nat k) rooted) dagBytes seed = true ->
       (forall i, (i < k)%nat -> pow_light (set_nonce (Z.of_nat i) rooted) dagBytes seed = false) ->
       (forall i, Z.of_nat i < Z.of_nat k / 16 -> clock i < now + MINING_TIMESTAMP_REFRESH_MS) ->
       exists st', MineBlock (S k) clock st rooted = Some (true, st', set_nonce (Z.of_nat k) rooted)).
Proof.
  intros st Hr Hp Ha1 Ha2 Hn1 Hn2 Hv Hs Hc. eexists. split; [by apply assembled|]. split; [done|]. cbv zeta. cbn [transactions default]. split.
  - intros fuel clock ac st' b' Hclk E. destruct (mined_accepted st g_dagVote minerAddress now now' Hr Hp (conj Ha1 Ha2) (conj Hn1 Hn2) Hv Hs Hc _ _ _ _ Hclk E) as (H1 & H2 & _ & H4).
    split; [done|]. split; [done|]. split; [done|]. unfold MineAndAppendBlock. cbn [transactions default]. fold st. rewrite E.
    cbn [mbind option_bind negb st_chain]. destruct (Chain_AddBlock st' b') as [ok st2]. cbn [fst] in H1. subst ok. cbn [negb]. by eexists.
  - intros clock k n seed. by apply mine_block_finds.
Qed.

Lemma mined_block_is_accepted_witness :
  exists b, assemble_block waiting 0 miner 1700000090000 1700000090001 = Some b /\
    map (fun t => tx_timestamp (stx t)) (default [] (transactions b)) = [1700000090001; 1700000000000; 1700000000001] /\
    exists s', MineAndAppendBlock 1 still (fun _ _ => 0) (store_of waiting) b = Some (true, s').
Proof.
  destruct (mined_block_is_accepted (ops := Toy.ops) (laws := Toy.laws) (store_of waiting) 0 miner 1700000090000 1700000090001)
    as (b & Hb & Ht & Hok & Hfind); [apply insert_all_reachable, node1_reachable|apply waiting_mineable|vm_decide|vm_compute; reflexivity|vm_decide..|].
  exists b. split; [exact Hb|]. split; [rewrite Ht; vm_compute; reflexivity|].
  destruct (Hfind still 0%nat (fst (params_at waiting)) (snd (params_at waiting))) as (st' & E).
  - vm_compute. reflexivity.
  - vm_compute. reflexivity.
  - rewrite Ht. assert (Eb : b = default Block_Create (assemble_block waiting 0 miner 1700000090000 1700000090001)) by (change (st_chain (store_of waiting)) with waiting in Hb; by rewrite Hb).
    rewrite Eb. vm_compute. reflexivity.
  - intros i Hi. lia.
  - intros i Hi. change (Z.of_nat 0 / 16) with 0 in Hi. lia.
  - destruct (Hok 1%nat still (fun _ _ => 0) st' _ ltac:(intros k; vm_decide) E) as (_ & _ & _ & H). exact H.
Defined.

(** A stale payment stops the miner.  Selection looks at balances and signatures only, so a pooled
    payment that is not newer than its sender's last applied one (such as a payment that has already been
    mined, received again) is put into the block, whatever block is then mined is refused by the chain,
    and the payment stays in the pool for the next attempt. *)
Theorem stale_payment_stops_miner {ops : CryptoOps} {laws : CryptoLaws ops} st g_dagVote minerAddress now now' t b :
  reachable st -> t ∈ fst (BuildSpendableMempoolSelection st) -> is_coinbase t = false ->
  tx_timestamp (stx t) <= last_ts (g_sheetMap st) (sender_of t) ->
  assemble_block st g_dagVote minerAddress now now' = Some b ->
  forall fuel clock st' b', MineBlock fuel clock st (set_merkleRoot (merkle_root (default [] (transactions b))) b) = Some (true, st', b') ->
    let '(accepted, st'') := Chain_AddBlock st' b' in
    accepted = false /\ blocks st'' = blocks st /\ g_sheetMap st'' = g_sheetMap st /\ g_txMempool st'' = g_txMempool st.
Proof.
  intros Hr Ht Hc Hts Hb fuel clock st' b' E. destruct (mine_block_node _ _ _ _ _ _ _ Hr E) as ((c & p & ->) & Hr' & Etx).
  assert (Htx : exists l, transactions b' = Some l /\ t ∈ l).
  { rewrite Etx. revert Hb. unfold assemble_block. destruct (BuildSpendableMempoolSelection st) as [sel fees]. cbn [fst] in Ht.
    destruct (UINT64_MAX - g_currentReward st <? fees); [done|]. intros [= <-]. cbn [set_merkleRoot transactions].
    erewrite fold_add_txs by reflexivity. eexists. split; [done|]. apply elem_of_app. by right. }
  destruct Htx as (l & El & Hl). destruct (reachable_history _ Hr') as (_ & Hok & _).
  destruct (AddBlockLocked_cases _ b' Hok) as (c' & _ & [E'|[E'|(txs & e & Et & _ & Ha & _)]]).
  - unfold Chain_AddBlock. by rewrite E'.
  - unfold Chain_AddBlock. by rewrite E'.
  - exfalso. assert (txs = l) as -> by congruence. destruct (admit_inv _ _ _ _ Et Ha) as (_ & _ & _ & Hord & _).
    apply (in_order_above _ _ _ Hord) in Hl; [|done]. cbn [g_sheetMap set_dag set_pow] in Hl. unfold sender_of in Hts. lia.
Qed.

Lemma stale_payment_stops_miner_witness :
  payment 1700000000000 ∈ fst (BuildSpendableMempoolSelection replayed) /\
  exists b, assemble_block replayed 0 miner 1700000190000 1700000190001 = Some b /\
    forall fuel clock st' b', MineBlock fuel clock replayed (set_merkleRoot (merkle_root (default [] (transactions b))) b) = Some (true, st', b') ->
      let '(accepted, st'') := Chain_AddBlock st' b' in
      accepted = false /\ blocks st'' = blocks replayed /\ g_sheetMap st'' = g_sheetMap replayed /\ g_txMempool st'' = g_txMempool replayed.
Proof.
  assert (Hin : payment 1700000000000 ∈ fst (BuildSpendableMempoolSelection replayed)) by vm_decide. split; [exact Hin|].
  assert (Hs : is_Some (assemble_block replayed 0 miner 1700000190000 1700000190001)) by (vm_compute; by eexists).
  destruct Hs as [b Hb]. exists b. split; [exact Hb|].
  apply (stale_payment_stops_miner replayed 0 miner 1700000190000 1700000190001 (payment 1700000000000) b);
    [apply insert_all_reachable, node2_reachable|exact Hin|vm_compute; reflexivity|vm_compute; discriminate|exact Hb].
Defined.
