(* ===== verification/FullVerify.v ===== *)
(** * Auditing a stored chain ([src/main.c], command [fullverify])

    [VerifyChainFully] goes over a chain loaded with its transactions and checks every block against
    its predecessors: number, parent, target, proof of work, coinbase, transactions and Merkle root.
    The audit is exact, and a chain the node built itself passes it after being saved. *)
From S2P Require Import Prelude Bytes UInt256 Utils Emission Crypto Transaction Autolykos2 Block BalanceSheet Ledger.
From S2P Require Import Difficulty DagEpochs Mempool Storage Chain ChainInvariant History ChainTheorems.

Definition CalculateBlockReward (currentSupply : uint256) (chain : list block) (g_currentReward : Z) : Z :=
  fst (CalculateBlockRewardAtHeight currentSupply (Z.of_nat (length chain)) g_currentReward).

(** The loop of [Block_GetCoinbaseAndFeeTotals]: [hasCoinbase], the coinbase amount and the fees. *)
Fixpoint totals_loop (txs : list signed_transaction) (hasCoinbase : bool) (coinbaseAmount totalFees : Z) : option (Z * Z) :=
  match txs with
  | [] => if hasCoinbase then Some (coinbaseAmount, totalFees) else None
  | tx :: r =>
      if Address_IsCoinbase (senderAddress (stx tx)) then
        if hasCoinbase then None else totals_loop r true (tx_amount1 (stx tx)) totalFees
      else if UINT64_MAX - totalFees <? tx_fee (stx tx) then None
      else totals_loop r hasCoinbase coinbaseAmount (totalFees +u64 tx_fee (stx tx))
  end.

Definition Block_GetCoinbaseAndFeeTotals (b : block) : option (Z * Z) :=
  txs ← transactions b; totals_loop txs false 0 0.

(** The target expected at height [i], given the one of the block before. *)
Definition expected_difficulty (chain : list block) (i : nat) (previous : Z) : Z :=
  if Z.of_nat i <? DIFFICULTY_ADJUSTMENT_INTERVAL then INITIAL_DIFFICULTY
  else if Z.of_nat i mod DIFFICULTY_ADJUSTMENT_INTERVAL =? 0 then Chain_ComputeTargetAtHeight chain (Z.of_nat i) previous
  else previous.

Section Operations.
Context {ops : CryptoOps}.

Definition ComputeHistoricalAutolykosHashFromChain (chain : list block) (c : dag_cache) (b : block) (blockHeight : Z) : option bytes * dag_cache :=
  let '(params, c) := Chain_DagParamsForHeightLocked chain c blockHeight in
  (match params with
   | None => None
   | Some (dagBytes, seed) => Autolykos2_LightHashAtHeight seed (header_bytes (header b)) (nonce (header b)) blockHeight dagBytes
   end, c).

(** The parent check of the loop. *)
Definition parent_ok (chain : list block) (i : nat) (b : block) : bool :=
  if (i =? 0)%nat then memeq (prevHash (header b)) (zeros 32)
  else match chain !! (i - 1)%nat with
       | None => false
       | Some prevBlk => memeq (prevHash (header b)) (Block_CalculateHash prevBlk)
       end.

(** The header checks of the loop body: number, parent, target and proof of work. *)
Definition verify_header (chain : list block) (i : nat) (b : block) (c : dag_cache) (expectedDifficulty : Z) : bool * dag_cache :=
  if negb (blockNumber (header b) =? Z.of_nat i) then (false, c)
  else if negb (parent_ok chain i b) then (false, c)
  else if negb (difficultyTarget (header b) =? expectedDifficulty) then (false, c)
  else
    let '(powHash, c) := ComputeHistoricalAutolykosHashFromChain chain c b (Z.of_nat i) in
    (match powHash, DecodeCompactTarget (difficultyTarget (header b)) with
     | Some powHash, Some target => negb (0 <? CompareHashToTarget powHash target)
     | _, _ => false
     end, c).

(** The checks of the transactions: the coinbase amount, or [None] when the block fails. *)
Definition verify_transactions (b : block) (txs : list signed_transaction) (expectedReward : Z) : option Z :=
  if negb (Block_AllTransactionsValid b) then None
  else
    '(coinbaseAmount, totalFees) ← Block_GetCoinbaseAndFeeTotals b;
    if (UINT64_MAX - expectedReward <? totalFees) || negb (coinbaseAmount =? expectedReward +u64 totalFees) then None
    else if negb (memeq (merkleRoot (header b)) (merkle_root txs)) then None
    else Some coinbaseAmount.

(** The body of the loop at height [i]: the new supply and the memo table, or [None] when the block
    fails.  The reward is computed over the headers below [i]. *)
Definition verify_block (chain : list block) (g_currentReward : Z) (i : nat) (b : block) (c : dag_cache) (replaySupply : uint256)
    (expectedDifficulty : Z) : option (uint256 * dag_cache) :=
  txs ← transactions b;
  let '(ok, c) := verify_header chain i b c expectedDifficulty in
  if negb ok then None
  else
    coinbaseAmount ← verify_transactions b txs (CalculateBlockReward replaySupply (take i chain) g_currentReward);
    Some (fst (uint256_add_u64 replaySupply coinbaseAmount), c).

Fixpoint verify_loop (chain : list block) (g_currentReward : Z) (i : nat) (rest : list block) (c : dag_cache) (replaySupply : uint256)
    (expectedDifficulty : Z) : bool :=
  match rest with
  | [] => true
  | b :: r =>
      let expectedDifficulty := expected_difficulty chain i expectedDifficulty in
      match verify_block chain g_currentReward i b c replaySupply expectedDifficulty with
      | None => false
      | Some (replaySupply, c) => verify_loop chain g_currentReward (S i) r c replaySupply expectedDifficulty
      end
  end.

Definition VerifyChainFully (chain : list block) (g_currentReward : Z) : bool :=
  verify_loop chain g_currentReward 0 chain [] (uint256_from_u64 0) INITIAL_DIFFICULTY.

(** The [fullverify] command: load with transactions, then audit. *)
Definition fullverify (files : option chain_files) (g_currentReward : Z) : bool :=
  let '(loaded, _, verifyChain) := Chain_LoadFromFile files [] true in
  if loaded then VerifyChainFully verifyChain g_currentReward else false.
End Operations.

(** ** What the checks establish *)

Section Facts.
Context {ops : CryptoOps}.

Lemma totals_loop_iff txs hc amount tot a f :
  Forall stx_ok txs -> is_u64 tot ->
  totals_loop txs hc amount tot = Some (a, f) <->
  ((if hc then 1 else 0) + coinbase_count txs = 1)%nat /\ a = (if hc then amount else 0) + coinbase_sum txs /\
  f = tot + fee_sum txs /\ f < 2 ^ 64.
Proof.
  intros Hok. revert hc amount tot. induction Hok as [|tx r Hx Hr IH]; intros hc amount tot Htot; cbn [totals_loop].
  { unfold coinbase_count, coinbase_sum, fee_sum. cbn. unfold_cint. destruct hc; split; intros H; try lia.
    - injection H as <- <-. lia.
    - f_equal. f_equal; lia.
    - done. }
  rewrite coinbase_sum_cons, fee_sum_cons, coinbase_count_cons. unfold fee_of. fold (is_coinbase tx).
  pose proof (fee_sum_nonneg r Hr) as Hs. pose proof Hx as [(_ & Hfee & _) _].
  destruct (is_coinbase tx) eqn:Ec.
  - destruct hc; [split; [done|lia]|]. rewrite (IH true _ tot Htot). intuition lia.
  - destruct (Z.ltb_spec (UINT64_MAX - tot) (tx_fee (stx tx))) as [Hlt|Hge].
    + split; [done|]. unfold UINT64_MAX in Hlt. lia.
    + rewrite u64_small by (unfold UINT64_MAX in Hge; unfold_cint; lia).
      rewrite IH by (unfold UINT64_MAX in Hge; unfold_cint; lia). intuition lia.
Qed.

Lemma all_tx_valid_iff txs hc :
  all_tx_valid txs hc = true <->
  Forall (fun tx => Transaction_Verify tx = true) txs /\ ((if hc then 1 else 0) + coinbase_count txs = 1)%nat.
Proof.
  revert hc; induction txs as [|tx r IH]; intros hc; cbn [all_tx_valid].
  { cbn. destruct hc; split; intros H; try done; try (by destruct H). }
  rewrite Forall_cons_iff, coinbase_count_cons. fold (is_coinbase tx).
  destruct (Transaction_Verify tx); cbn [negb]; [|split; [done|by intros [[? _] _]]].
  destruct (is_coinbase tx); [destruct hc; [split; [done|intros [_ ?]; lia]|]|]; rewrite IH; intuition lia.
Qed.

Lemma dag_params_prefix chain more h : 0 <= h <= Z.of_nat (length chain) -> dag_params (chain ++ more) h = dag_params chain h.
Proof.
  intros Hh. assert (Hk : (Z.to_nat (h / EPOCH_LENGTH) * epochLength <= length chain)%nat).
  { unfold epochLength, EPOCH_LENGTH in *. rewrite <- (Nat2Z.id (length chain)). Z.to_euclidean_division_equations; nia. }
  unfold dag_params. rewrite length_app, !(proj2 (Nat.ltb_ge _ _)) by lia. rewrite dag_size_prefix by done.
  assert (Hs : Chain_EpochDagSeedForHeightLocked (chain ++ more) h = Chain_EpochDagSeedForHeightLocked chain h); [|by rewrite Hs].
  unfold Chain_EpochDagSeedForHeightLocked. destruct (Z.eqb_spec (h / EPOCH_LENGTH) 0); [done|].
  assert (Hb : 0 <= h / EPOCH_LENGTH * EPOCH_LENGTH - 1 < Z.of_nat (length chain)).
  { unfold EPOCH_LENGTH in *. Z.to_euclidean_division_equations; lia. }
  rewrite length_app, !(proj2 (Z.leb_gt _ _)) by lia. by rewrite lookup_app_l by lia.
Qed.

Lemma target_loop_snoc n chain h t :
  target_loop (S n) chain h t = Chain_ComputeTargetAtHeight chain (h + Z.of_nat n * DIFFICULTY_ADJUSTMENT_INTERVAL) (target_loop n chain h t).
Proof.
  revert h t; induction n as [|n IH]; intros h t; [cbn [target_loop]; by rewrite Z.mul_0_l, Z.add_0_r|].
  change (target_loop (S (S n)) chain h t) with
    (target_loop (S n) chain (h + DIFFICULTY_ADJUSTMENT_INTERVAL) (Chain_ComputeTargetAtHeight chain h t)).
  rewrite IH. cbn [target_loop]. f_equal. lia.
Qed.

(** The loop tracks the target of the height it is at. *)
Lemma expected_difficulty_spec chain i previous :
  previous = (if decide (i = 0%nat) then INITIAL_DIFFICULTY else Chain_GetTargetForHeight chain (Z.of_nat i - 1)) ->
  expected_difficulty chain i previous = Chain_GetTargetForHeight chain (Z.of_nat i).
Proof.
  intros ->. unfold expected_difficulty, Chain_GetTargetForHeight. set (D := DIFFICULTY_ADJUSTMENT_INTERVAL).
  assert (HD : 0 < D) by done. destruct (Z.ltb_spec (Z.of_nat i) D) as [Hlt|Hge]; [by rewrite Z.div_small by lia|].
  rewrite decide_False by lia. destruct (Z.eqb_spec (Z.of_nat i mod D) 0) as [E|E].
  - assert (Hq : Z.to_nat (Z.of_nat i / D) = S (Z.to_nat ((Z.of_nat i - 1) / D))).
    { rewrite <- Z2Nat.inj_succ by (apply Z.div_pos; lia). f_equal. Z.to_euclidean_division_equations; nia. }
    rewrite Hq, target_loop_snoc. f_equal. fold D. rewrite Z2Nat.id by (apply Z.div_pos; lia). Z.to_euclidean_division_equations; nia.
  - f_equal. f_equal. Z.to_euclidean_division_equations; nia.
Qed.
End Facts.

(** ** The audit, exactly *)

Section Exact.
Context {ops : CryptoOps} {laws : CryptoLaws ops}.

(** The coins issued by a list of blocks. *)
Definition issued (chain : list block) : uint256 :=
  replay_supply (uint256_from_u64 0) (concat (map (fun b => default [] (transactions b)) chain)).

(** What the audit demands of the block at height [i]. *)
Definition audited (chain : list block) (g : Z) (i : nat) (b : block) : Prop :=
  exists txs, transactions b = Some txs /\ extends (take i chain) b /\ (i = 0%nat -> prevHash (header b) = zeros 32) /\
    Forall (fun tx => Transaction_Verify tx = true) txs /\ coinbase_count txs = 1%nat /\
    coinbase_sum txs = next_reward (issued (take i chain)) (Z.of_nat i) g + fee_sum txs /\ coinbase_sum txs < 2 ^ 64 /\
    merkleRoot (header b) = merkle_root txs.

Lemma add_u64_ok s a : uint256_ok s -> is_u64 a -> uint256_ok (fst (uint256_add_u64 s a)).
Proof. intros Hs Ha. apply (uint256_add_u64_spec s a Hs Ha). Qed.

Lemma replay_supply_ok txs s : Forall stx_ok txs -> uint256_ok s -> uint256_ok (replay_supply s txs).
Proof.
  intros Hl. revert s; induction Hl as [|tx r Hx _ IH]; intros s Hs; [done|]. unfold replay_supply in *. cbn [fold_left]. apply IH.
  destruct (is_coinbase tx); [|done]. apply add_u64_ok; [done|]. apply Hx.
Qed.

Lemma issued_ok chain : Forall block_ok chain -> uint256_ok (issued chain).
Proof.
  intros H. apply replay_supply_ok; [|apply from_u64_ok; vm_decide]. induction H as [|b r [_ Hb] _ IH]; [constructor|].
  cbn [map concat]. apply Forall_app. split; [|done]. by destruct (transactions b).
Qed.

(** One coinbase adds its amount. *)
Lemma replay_one s txs : coinbase_count txs = 1%nat -> replay_supply s txs = fst (uint256_add_u64 s (coinbase_sum txs)).
Proof.
  assert (Hnone : forall l s, coinbase_count l = 0%nat -> replay_supply s l = s /\ coinbase_sum l = 0).
  { induction l as [|tx l IH]; intros s0 H0; [done|]. rewrite coinbase_count_cons in H0. rewrite coinbase_sum_cons.
    unfold replay_supply in *. cbn [fold_left]. destruct (is_coinbase tx); [lia|]. destruct (IH s0) as [-> ->]; [lia|done]. }
  revert s; induction txs as [|tx r IH]; intros s Hc; [done|]. rewrite coinbase_count_cons in Hc. rewrite coinbase_sum_cons.
  unfold replay_supply in *. cbn [fold_left]. destruct (is_coinbase tx).
  - destruct (Hnone r (fst (uint256_add_u64 s (tx_amount1 (stx tx))))) as [-> ->]; [lia|]. by rewrite Z.add_0_r.
  - rewrite Z.add_0_l. apply IH. lia.
Qed.

Lemma parent_ok_iff chain i b :
  chain !! i = Some b ->
  (blockNumber (header b) =? Z.of_nat i) && parent_ok chain i b = true <->
  links_to_tip (take i chain) b = true /\ (i = 0%nat -> prevHash (header b) = zeros 32).
Proof.
  intros Hb. pose proof (lookup_lt_Some _ _ _ Hb) as Hlt. unfold links_to_tip, parent_ok. rewrite length_take, Nat.min_l by lia.
  destruct (blockNumber (header b) =? Z.of_nat i); cbn [andb]; [|by split; [|intros [? _]]].
  destruct (Nat.eqb_spec i 0) as [->|Hne].
  - cbn [Nat.ltb Nat.leb]. rewrite memeq_true. split; [done|]. intros [_ H]. by apply H.
  - rewrite (proj2 (Nat.ltb_lt _ _)) by lia. rewrite lookup_take_lt by lia.
    destruct (chain !! (i - 1)%nat); [|by split; [|intros [? _]]]. rewrite !memeq_true. split; [intros ->; split; [done|lia]|]. by intros [-> _].
Qed.

Lemma prefix_facts chain i b :
  chain !! i = Some b ->
  length (take i chain) = i /\ Chain_GetTargetForHeight chain (Z.of_nat i) = Chain_GetTargetForHeight (take i chain) (Z.of_nat i) /\
  dag_params chain (Z.of_nat i) = dag_params (take i chain) (Z.of_nat i).
Proof.
  intros Hb. pose proof (lookup_lt_Some _ _ _ Hb) as Hlt. assert (Hlen : length (take i chain) = i) by (rewrite length_take; lia).
  assert (Hpre : chain = take i chain ++ drop i chain) by (by rewrite take_drop). split; [done|].
  split; rewrite Hpre at 1; [apply GetTarget_prefix; lia|apply dag_params_prefix; lia].
Qed.

Lemma verify_header_spec chain i b c :
  chain !! i = Some b -> coherent chain c ->
  let '(ok, c') := verify_header chain i b c (Chain_GetTargetForHeight chain (Z.of_nat i)) in
  coherent chain c' /\ (ok = true <-> extends (take i chain) b /\ (i = 0%nat -> prevHash (header b) = zeros 32)).
Proof.
  intros Hb Hc. destruct (prefix_facts chain i b Hb) as (Hlen & -> & Hdag). pose proof (parent_ok_iff chain i b Hb) as Hlink.
  unfold verify_header, extends. rewrite Hlen.
  destruct (Z.eqb_spec (blockNumber (header b)) (Z.of_nat i)) as [En|En]; cbn [negb andb] in *.
  2: { split; [done|]. split; [done|]. intros [(Hl & _) H0]. apply Hlink. by split. }
  destruct (parent_ok chain i b); cbn [negb].
  2: { split; [done|]. split; [done|]. intros [(Hl & _) H0]. apply Hlink. by split. }
  destruct (proj1 Hlink eq_refl) as [Hl H0]. clear Hlink.
  destruct (Z.eqb_spec (difficultyTarget (header b)) (Chain_GetTargetForHeight (take i chain) (Z.of_nat i))) as [Ed|Ed]; cbn [negb].
  2: { split; [done|]. split; [done|]. by intros [(_ & Hd & _) _]. }
  unfold ComputeHistoricalAutolykosHashFromChain. destruct (DagParams_spec chain c (Z.of_nat i) Hc) as [Ep Hc'].
  destruct (Chain_DagParamsForHeightLocked chain c (Z.of_nat i)) as [params c1]. cbn [fst snd] in *. subst params.
  split; [done|]. rewrite Hdag, En. unfold pow_light, Block_PowHashLight. rewrite En.
  destruct (dag_params (take i chain) (Z.of_nat i)) as [[n s]|].
  2: { split; [done|]. by intros [(_ & _ & ? & ? & ? & _) _]. }
  destruct (Autolykos2_LightHashAtHeight s _ _ _ n) as [h|] eqn:Eh, (DecodeCompactTarget (difficultyTarget (header b))) as [t|];
    try (split; [done|]; intros [(_ & _ & n' & s' & [= <- <-] & H) _]; rewrite ?Eh in H; done).
  rewrite negb_true_iff, Z.ltb_ge. split.
  - intros H. split; [|done]. split; [done|]. split; [done|]. exists n, s. rewrite Eh. split; [done|]. by apply Z.leb_le.
  - intros [(_ & _ & n' & s' & [= <- <-] & H) _]. rewrite Eh in H. by apply Z.leb_le in H.
Qed.

Lemma verify_transactions_spec b txs rw amount :
  transactions b = Some txs -> Forall stx_ok txs -> is_u64 rw ->
  verify_transactions b txs rw = Some amount <->
  amount = coinbase_sum txs /\ Forall (fun tx => Transaction_Verify tx = true) txs /\ coinbase_count txs = 1%nat /\
  coinbase_sum txs = rw + fee_sum txs /\ coinbase_sum txs < 2 ^ 64 /\ merkleRoot (header b) = merkle_root txs.
Proof.
  intros Et Hst Hrw. pose proof (fee_sum_nonneg txs Hst) as Hfn. unfold verify_transactions, Block_AllTransactionsValid, Block_GetCoinbaseAndFeeTotals.
  rewrite Et. cbn [mbind option_bind]. destruct (all_tx_valid txs false && negb (length txs =? 0)%nat) eqn:Ev; cbn [negb].
  2: { split; [done|]. intros (_ & Hv & Hc & _). rewrite (proj2 (all_tx_valid_iff txs false) (conj Hv Hc)) in Ev. destruct txs; done. }
  apply andb_true_iff in Ev as [[Hv Hc]%all_tx_valid_iff _]. cbn [Nat.add] in Hc.
  pose proof (fun a f => totals_loop_iff txs false 0 0 a f Hst ltac:(vm_decide)) as Htot.
  destruct (totals_loop txs false 0 0) as [[a f]|]; cbn [mbind option_bind].
  2: { split; [done|]. intros (_ & _ & _ & Hs & Hlt & _). destruct (Htot (coinbase_sum txs) (fee_sum txs)) as [_ H].
       unfold is_u64 in Hrw. discriminate H. split; [done|]. split; [lia|]. split; lia. }
  destruct (proj1 (Htot a f) eq_refl) as (_ & -> & -> & Hf). clear Htot. rewrite !Z.add_0_l in *.
  assert (Hsum : (UINT64_MAX - rw <? fee_sum txs) || negb (coinbase_sum txs =? rw +u64 fee_sum txs) = false <->
    coinbase_sum txs = rw + fee_sum txs /\ coinbase_sum txs < 2 ^ 64).
  { rewrite orb_false_iff, negb_false_iff, Z.ltb_ge, Z.eqb_eq. unfold UINT64_MAX. unfold is_u64 in Hrw. split.
    - intros [H1 H2]. rewrite u64_small in H2 by (unfold is_u64; lia). lia.
    - intros [H1 H2]. rewrite u64_small by (unfold is_u64; lia). lia. }
  destruct (_ || _); [split; [done|]; intros (_ & _ & _ & H1 & H2 & _); discriminate (proj2 Hsum (conj H1 H2))|].
  destruct (proj1 Hsum eq_refl) as [S1 S2]. destruct (memeq (merkleRoot (header b)) (merkle_root txs)) eqn:Em; cbn [negb].
  - apply memeq_true in Em. split; [intros [= <-]; done|by intros (-> & _)].
  - apply memeq_false in Em. split; [done|]. by intros (_ & _ & _ & _ & _ & H).
Qed.

Lemma issued_snoc chain i b txs :
  chain !! i = Some b -> transactions b = Some txs -> coinbase_count txs = 1%nat ->
  issued (take (S i) chain) = fst (uint256_add_u64 (issued (take i chain)) (coinbase_sum txs)).
Proof.
  intros Hb Et Hc. unfold issued. rewrite (take_S_r _ _ _ Hb), map_app, concat_app. cbn [map concat]. rewrite Et, app_nil_r. cbn [default].
  rewrite <- replay_one by done. apply fold_left_app.
Qed.

Lemma verify_block_spec chain g i b c :
  Forall block_ok chain -> is_u64 g -> chain !! i = Some b -> coherent chain c ->
  match verify_block chain g i b c (issued (take i chain)) (Chain_GetTargetForHeight chain (Z.of_nat i)) with
  | Some (s, c') => audited chain g i b /\ s = issued (take (S i) chain) /\ coherent chain c'
  | None => ~ audited chain g i b
  end.
Proof.
  intros Hall Hg Hb Hc. pose proof (Forall_lookup_1 _ _ i b Hall Hb) as [_ Hst].
  assert (Hrw : is_u64 (next_reward (issued (take i chain)) (Z.of_nat i) g)) by (apply next_reward_u64; [by apply issued_ok, Forall_take|done]).
  destruct (prefix_facts chain i b Hb) as (Hlen & _). pose proof (verify_header_spec chain i b c Hb Hc) as Hhdr.
  unfold verify_block, audited. destruct (transactions b) as [txs|] eqn:Et; cbn [mbind option_bind]; [|by intros (? & ? & _)].
  destruct (verify_header chain i b c _) as [ok c1]. destruct Hhdr as [Hc1 Hok]. destruct ok; cbn [negb].
  2: { intros (? & _ & He & H0 & _). discriminate (proj2 Hok (conj He H0)). }
  destruct (proj1 Hok eq_refl) as [He H0]. unfold CalculateBlockReward. rewrite Hlen. fold (next_reward (issued (take i chain)) (Z.of_nat i) g).
  pose proof (fun a => verify_transactions_spec b txs _ a Et Hst Hrw) as Htx.
  destruct (verify_transactions b txs _) as [amount|]; cbn [mbind option_bind].
  - destruct (proj1 (Htx amount) eq_refl) as (-> & Hv & Hn & H1 & H2 & Hm). split; [exists txs; done|]. split; [|done].
    symmetry. by apply (issued_snoc chain i b txs).
  - intros (? & [= <-] & _ & _ & Hrest). destruct (Htx (coinbase_sum txs)) as [_ H]. discriminate H. by split.
Qed.

Lemma verify_loop_spec chain g n i c previous :
  Forall block_ok chain -> is_u64 g -> (n + i = length chain)%nat -> coherent chain c ->
  previous = (if decide (i = 0%nat) then INITIAL_DIFFICULTY else Chain_GetTargetForHeight chain (Z.of_nat i - 1)) ->
  verify_loop chain g i (drop i chain) c (issued (take i chain)) previous = true <->
  forall j b, (i <= j)%nat -> chain !! j = Some b -> audited chain g j b.
Proof.
  intros Hall Hg. revert i c previous; induction n as [|n IH]; intros i c previous Hlen Hc Hprev.
  { rewrite drop_ge by lia. split; [|done]. intros _ j b Hj Hb. apply lookup_lt_Some in Hb. lia. }
  destruct (lookup_lt_is_Some_2 chain i) as [b Hb]; [lia|]. rewrite (drop_S _ _ _ Hb). cbn [verify_loop].
  rewrite (expected_difficulty_spec chain i previous Hprev). pose proof (verify_block_spec chain g i b c Hall Hg Hb Hc) as Hv.
  destruct (verify_block _ _ _ _ _ _ _) as [[s c']|].
  - destruct Hv as (Ha & -> & Hc'). rewrite IH; [|lia|done|rewrite decide_False by lia; f_equal; lia]. split.
    + intros H j b' Hj Hb'. destruct (decide (j = i)) as [->|]; [by assert (b' = b) as -> by congruence|]. apply H; [lia|done].
    + intros H j b' Hj. apply H. lia.
  - split; [done|]. intros H. destruct Hv. by apply (H i b).
Qed.

Lemma verify_all chain g :
  Forall block_ok chain -> is_u64 g -> VerifyChainFully chain g = true <-> forall i b, chain !! i = Some b -> audited chain g i b.
Proof.
  intros Hall Hg. unfold VerifyChainFully. pose proof (verify_loop_spec chain g (length chain) 0 [] INITIAL_DIFFICULTY Hall Hg) as H.
  rewrite drop_0, take_0 in H. change (issued []) with (uint256_from_u64 0) in H. rewrite H; [|lia|by apply coherent_app with (blocks := []), coherent_nil|done].
  split; intros Ha i b; [|intros _]; apply Ha. lia.
Qed.
End Exact.

(** ** The blocks a node appended itself *)

Section OwnChain.
Context {ops : CryptoOps} {laws : CryptoLaws ops}.

Lemma recovers_headers st L : ledger_ok st L -> map header (blocks st) = map fst L.
Proof.
  intros (_ & [Hlen HR] & _). apply list_eq. intros i. rewrite !list_lookup_fmap. destruct (L !! i) as [p|] eqn:Ep.
  - destruct (HR i p Ep) as (b & -> & Eh & _). cbn. by rewrite Eh.
  - apply lookup_ge_None_1 in Ep. rewrite (lookup_ge_None_2 (blocks st)) by lia. done.
Qed.

Lemma ledger_headers st L : ledger_ok st L -> Forall (fun b => header_ok (header b)) (blocks st).
Proof.
  intros HL. pose proof HL as (Hv & _). pose proof (ledger_valid_facts _ _ Hv) as (Hf & _).
  apply Forall_lookup_2. intros i b Hb. pose proof (recovers_headers st L HL) as E. apply (f_equal (lookup i)) in E.
  rewrite !list_lookup_fmap, Hb in E. destruct (L !! i) as [p|] eqn:Ep; [|done]. injection E as ->. apply (Forall_lookup_1 _ _ i p Hf Ep).
Qed.

(** What is on disk after a save. *)
Lemma saved_files st L :
  inv st L -> Z.of_nat (length (data_of L)) <= LONG_MAX ->
  exists f, g_files (snd (node_save st)) = Some f /\
    forall anything loadTx, Chain_LoadFromFile (Some f) anything loadTx =
      (true, Some (mkMeta (fst (tip_fields (blocks st))) (g_currentSupply st) (snd (tip_fields (blocks st))) (g_currentReward st)),
       map (loaded_block loadTx) L) /\
      recovers (map compact (blocks st)) (Some f) L.
Proof.
  intros (_ & HL & (Hu & _)) Hfit. pose proof HL as (Hv & HR & Hs & _). pose proof (ledger_valid_facts _ _ Hv) as (Hf & _).
  pose proof (recovers_resolve (blocks st) (g_files st) L (length L) 0 HR ltac:(lia)) as Hres. rewrite !drop_0 in Hres.
  pose proof (ledger_headers st L HL) as Hh.
  destruct (save_load_chain (g_files st) (blocks st) L (g_currentSupply st) (g_currentReward st) [] true Hres Hf Hh Hfit Hs Hu) as (f & Esave & _).
  exists f. unfold node_save. rewrite Esave. split; [done|]. intros anything loadTx.
  destruct (save_load_chain (g_files st) (blocks st) L (g_currentSupply st) (g_currentReward st) anything loadTx Hres Hf Hh Hfit Hs Hu) as (f' & Esave' & _ & El & _).
  assert (f' = f) as -> by congruence. split; [done|]. destruct (node_save_ledger st L HL Hfit) as (_ & (_ & HR' & _) & Eb).
  unfold node_save in HR'. rewrite Esave in HR'. exact HR'.
Qed.

Lemma fits_resolved st L :
  ledger_ok st L -> (forall L, resolve_all (g_files st) 0 (blocks st) = Some L -> Z.of_nat (length (data_of L)) <= LONG_MAX) ->
  Z.of_nat (length (data_of L)) <= LONG_MAX.
Proof.
  intros (_ & HR & _) H. apply H. pose proof (recovers_resolve (blocks st) (g_files st) L (length L) 0 HR ltac:(lia)) as Hres.
  by rewrite !drop_0 in Hres.
Qed.

Lemma loaded_txs L : concat (map (fun b => default [] (transactions b)) (map (loaded_block true) L)) = all_txs L.
Proof. unfold all_txs. by rewrite map_map. Qed.

Lemma loaded_prefix st L i : inv st L -> same_headers (take i (map (loaded_block true) L)) (take i (blocks st)).
Proof.
  intros (_ & HL & _). unfold same_headers. rewrite <- !firstn_map. f_equal. rewrite map_map.
  pose proof (recovers_headers st L HL) as E. apply (f_equal (map (fun h => mkBlock h None))) in E. rewrite !map_map in E. symmetry. exact E.
Qed.

(** The blocks of a node's own chain meet the audit's demands. *)
Lemma own_block_audited st L g i p :
  inv st L -> L !! i = Some p -> (i = 0%nat -> prevHash p.1 = zeros 32) -> merkleRoot p.1 = merkle_root p.2 ->
  (exists m, acceptable m (next_reward (supply_of (take i L)) (Z.of_nat i) g) p.2) ->
  audited (map (loaded_block true) L) g i (loaded_block true p).
Proof.
  intros Hinv Hp H0 Hm (m & Hv & Hn & _ & Hpay & Hlt & _). exists p.2. split; [done|].
  split; [apply (extends_restored st L i p); [done|done|by apply loaded_prefix]|]. split; [done|]. split; [done|]. split; [done|].
  assert (E : issued (take i (map (loaded_block true) L)) = supply_of (take i L)) by (unfold issued, supply_of; rewrite firstn_map, loaded_txs; done).
  rewrite E, (coinbase_sum_one _ _ Hpay), Hn. split; [lia|]. split; [lia|done].
Qed.

Lemma loaded_block_ok L : Forall full_ok L -> Forall block_ok (map (loaded_block true) L).
Proof. induction 1 as [|p r [Hh Hst] _ IH]; [constructor|]. cbn [map]. by constructor. Qed.

Lemma own_audit st L g :
  inv st L -> is_u64 g ->
  (forall i p, L !! i = Some p -> merkleRoot p.1 = merkle_root p.2 /\ (i = 0%nat -> prevHash p.1 = zeros 32) /\
     exists m, acceptable m (next_reward (supply_of (take i L)) (Z.of_nat i) g) p.2) ->
  VerifyChainFully (map (loaded_block true) L) g = true.
Proof.
  intros Hinv Hg H. pose proof Hinv as (_ & (Hv & _) & _). pose proof (ledger_valid_facts L _ Hv) as (Hf & _).
  apply verify_all; [by apply loaded_block_ok|done|]. intros i b (p & -> & Hp)%list_lookup_fmap_Some.
  destruct (H i p Hp) as (Hm & H0 & Ha). by apply (own_block_audited st).
Qed.

(** Every block of the ledger carries a coinbase for the reward of its height, at any cached reward. *)
Lemma own_rewards st L g i p :
  inv st L -> L !! i = Some p ->
  (i = 0%nat -> acceptable BalanceSheet_Init (next_reward (uint256_from_u64 0) 0 g) p.2) ->
  ((0 < i)%nat -> settled (supply_of (take i L)) (Z.of_nat i)) ->
  exists m, acceptable m (next_reward (supply_of (take i L)) (Z.of_nat i) g) p.2.
Proof.
  intros (_ & (Hv & _) & (_ & _ & Hh)) Hp H0 Hset. destruct (decide (i = 0%nat)) as [->|Hne]; [by exists BalanceSheet_Init; apply H0|].
  destruct (ledger_valid_take L _ i Hv) as [m Hm]. destruct (Hh i p m Hp ltac:(lia) Hm) as [g' Ha]. exists m. by rewrite (Hset ltac:(lia) g g').
Qed.
End OwnChain.

(** ** A concrete chain: genesis mints the scheduled reward, its miner pays twice in the next block *)

Module AuditScenario.
Import Scenario.
#[local] Existing Instances Toy.ops Toy.laws.

Definition reward0 : Z := 17592186044415.
Definition first_block : block := make 0 1700000000000 (zeros 32) [mint reward0].
Definition one_block : node := snd (Chain_AddBlock (node_init None reward0) first_block).
Definition second_txs : list signed_transaction := [mint (17592169267200 + 14); payment 1700000000000; payment 1700000000001].
Definition second_block : block := make 1 1700000090000 (Block_CalculateHash first_block) second_txs.
Definition two_blocks : node := snd (Chain_AddBlock one_block second_block).

Lemma first_good : good_block first_block.
Proof. split; [vm_decide|]. intros txs [= <-]. constructor; [by intros H|constructor]. Qed.

Lemma second_good : good_block second_block.
Proof. split; [vm_decide|]. intros txs [= <-]. repeat constructor; intros H; vm_compute in H; discriminate H. Qed.

Lemma two_blocks_reachable : reachable two_blocks.
Proof. exists reward0. split; [vm_decide|]. eapply rtc_r; [apply rtc_once, good_add, first_good|apply good_add, second_good]. Qed.

Lemma two_blocks_resolved :
  resolve_all (g_files two_blocks) 0 (blocks two_blocks) = Some [(header first_block, [mint reward0]); (header second_block, second_txs)].
Proof. vm_compute. reflexivity. Qed.

Lemma two_blocks_chain : blocks two_blocks = [first_block; second_block].
Proof. vm_compute. reflexivity. Qed.

Lemma lookup_pair {A} (x y z : A) i : [x; y] !! i = Some z -> (i = 0%nat /\ z = x) \/ (i = 1%nat /\ z = y).
Proof. destruct i as [|[|i]]; [intros [= <-]; by left|intros [= <-]; by right|done]. Qed.

Lemma two_blocks_borrowed :
  Chain_BorrowBlockTransactions two_blocks 0 = Some [mint reward0] /\ Chain_BorrowBlockTransactions two_blocks 1 = Some second_txs.
Proof. split; vm_compute; reflexivity. Qed.

Lemma first_acceptable g : acceptable BalanceSheet_Init (next_reward (uint256_from_u64 0) 0 g) [mint reward0].
Proof.
  assert (E : next_reward (uint256_from_u64 0) 0 g = reward0).
  { transitivity (next_reward (uint256_from_u64 0) 0 0); [|vm_compute; reflexivity].
    apply phase1_settled; [vm_decide|vm_compute; reflexivity|vm_decide|vm_compute; reflexivity]. }
  rewrite E. split; [repeat constructor|]. split; [vm_compute; reflexivity|]. split; [vm_compute; reflexivity|].
  split; [constructor; [intros _; split; [done|]; split; [done|]; split; [vm_compute; reflexivity|]; by split; vm_compute|constructor]|].
  split; [vm_compute; reflexivity|]. cbn [in_order]. split; [intros H; vm_compute in H; discriminate H|done].
Qed.
End AuditScenario.
Import AuditScenario Scenario.

(** ** Properties *)

(** C16: the audit is exact.  [VerifyChainFully] accepts a chain of well-formed blocks exactly when every
    block has its transactions loaded, extends the blocks before it (number, parent hash, target of the
    retargeting rule, proof of work for the epoch's size and seed), the first names no parent, every
    transaction verifies, there is one coinbase and it pays the scheduled reward for the coins issued so
    far plus the fees, and the header commits to the transactions. *)
Theorem audit_exact {ops : CryptoOps} {laws : CryptoLaws ops} chain g_currentReward :
  Forall block_ok chain -> is_u64 g_currentReward ->
  VerifyChainFully chain g_currentReward = true <-> forall i b, chain !! i = Some b -> audited chain g_currentReward i b.
Proof. apply verify_all. Qed.

Lemma audit_exact_witness : audited [first_block; second_block] 5 1 second_block.
Proof.
  apply (audit_exact [first_block; second_block] 5); [constructor; [apply first_good|constructor; [apply second_good|constructor]]|vm_decide| |done].
  vm_compute. reflexivity.
Defined.

(** A node's own chain passes its audit.  Save a reachable node; then [fullverify] on the files it
    wrote answers yes.  The provisos are what the node does not check itself when it appends a block:
    genesis names no parent and pays the scheduled first reward, and every header commits to its
    transactions; and the emission schedule must not depend on its cached value at the heights of the
    chain ([settled]). *)
Theorem own_chain_passes_audit {ops : CryptoOps} {laws : CryptoLaws ops} st g_currentReward :
  reachable st -> is_u64 g_currentReward ->
  (forall L, resolve_all (g_files st) 0 (blocks st) = Some L -> Z.of_nat (length (data_of L)) <= LONG_MAX) ->
  (forall i b txs, blocks st !! i = Some b -> Chain_BorrowBlockTransactions st i = Some txs ->
     merkleRoot (header b) = merkle_root txs) ->
  (forall b txs, blocks st !! 0%nat = Some b -> Chain_BorrowBlockTransactions st 0 = Some txs ->
     prevHash (header b) = zeros 32 /\ acceptable BalanceSheet_Init (next_reward (uint256_from_u64 0) 0 g_currentReward) txs) ->
  (forall j s, (0 < j < length (blocks st))%nat -> rebuild_supply st 0 j (uint256_from_u64 0) = Some s -> settled s (Z.of_nat j)) ->
  fullverify (g_files (snd (node_save st))) g_currentReward = true.
Proof.
  intros Hr Hg Hfit Hm H0 Hset. destruct (reachable_history st Hr) as [L Hinv]. pose proof Hinv as (_ & HL & _).
  pose proof HL as (Hv & HR & _). pose proof HR as [Hlen HR2]. pose proof (ledger_valid_facts L _ Hv) as (Hf & _).
  destruct (saved_files st L Hinv (fits_resolved st L HL Hfit)) as (f & -> & Hload). unfold fullverify.
  destruct (Hload [] true) as [-> _]. apply (own_audit st); [done|done|]. intros i p Hp.
  destruct (HR2 i p Hp) as (b & Hb & Eh & _). pose proof (borrow_recovers st L i p HR Hp) as Eb. rewrite <- Eh.
  split; [by apply (Hm i)|]. split; [intros ->; by apply (H0 b p.2)|]. apply (own_rewards st L); [done|done| |].
  - intros ->. by apply (H0 b p.2).
  - intros Hi. apply Hset; [apply lookup_lt_Some in Hp; lia|]. apply rebuild_prefix; [done|apply lookup_lt_Some in Hp; lia].
Qed.

Lemma own_chain_passes_audit_witness : fullverify (g_files (snd (node_save two_blocks))) 5 = true.
Proof.
  destruct two_blocks_borrowed as [E0 E1]. apply own_chain_passes_audit; [apply two_blocks_reachable|vm_decide| | | |].
  - rewrite two_blocks_resolved. intros L HL. apply (inj Some) in HL. subst L. vm_compute. discriminate.
  - intros i b txs Hb. rewrite two_blocks_chain in Hb.
    destruct (lookup_pair _ _ _ _ Hb) as [[-> ->]|[-> ->]]; [rewrite E0|rewrite E1]; intros Ht; apply (inj Some) in Ht; rewrite <- Ht; vm_compute; reflexivity.
  - intros b txs Hb. rewrite two_blocks_chain in Hb. rewrite E0. destruct (lookup_pair _ _ _ _ Hb) as [[_ ->]|[? _]]; [|done].
    intros Ht. apply (inj Some) in Ht. rewrite <- Ht. split; [vm_compute; reflexivity|apply first_acceptable].
  - intros j s Hj. assert (j = 1%nat) as -> by (rewrite two_blocks_chain in Hj; cbn in Hj; lia).
    assert (E : rebuild_supply two_blocks 0 1 (uint256_from_u64 0) = Some [reward0; 0; 0; 0]) by (vm_compute; reflexivity).
    rewrite E. intros [= <-]. apply phase1_settled; [vm_decide|vm_compute; reflexivity|vm_decide|vm_compute; reflexivity].
Defined.
