(* ===== verification/Startup.v ===== *)
(** * Start-up, shutdown and the wallet ([src/main.c])

    The data directory across runs of the process: [FlushChainAndSheet] writes the chain files and the
    balance sheet, start-up reads them into a fresh process, recomputes the counters and wipes what is
    not a chain.  A restart after a clean exit loses nothing; a save interrupted between its renames
    restores the old chain under the new supply counter. *)
From S2P Require Import Prelude Bytes UInt256 Utils Emission Crypto Transaction Autolykos2 Block BalanceSheet Ledger.
From S2P Require Import Difficulty DagEpochs Mempool Storage Chain ChainInvariant History ChainTheorems OrphanPool Protocol FullVerify.

(** The initial value of [g_currentReward]. *)
Definition INITIAL_REWARD : Z := 750000000000.

Definition set_sheet (st : node) (m : sheet) : node :=
  mkNode (blocks st) (dagEpochs st) m (g_txMempool st) (g_currentSupply st) (g_currentReward st)
    (g_currentBlockHeight st) (g_difficultyTarget st) (g_files st) (g_pow st).

Definition set_counters (st : node) (supply : uint256) (reward target : Z) : node :=
  mkNode (blocks st) (dagEpochs st) (g_sheetMap st) (g_txMempool st) supply reward
    (g_currentBlockHeight st) target (g_files st) (g_pow st).

Section Operations.
Context {ops : CryptoOps}.

(** Both saves are attempted; the sheet's write always succeeds here. *)
Definition FlushChainAndSheet (x : store) : bool * store :=
  let '(chainSaved, st) := node_save (st_chain x) in
  (chainSaved, mkStore st (st_orphans x) (Some (BalanceSheet_SaveToFile (g_sheetMap st)))).

Definition WipeChainFiles (x : store) : store :=
  let st := st_chain x in
  mkStore (mkNode (blocks st) (dagEpochs st) (g_sheetMap st) (g_txMempool st) (g_currentSupply st) (g_currentReward st)
             (g_currentBlockHeight st) (g_difficultyTarget st) None (g_pow st)) (st_orphans x) None.

(** The [wipechain] command, and start-up on an invalid chain. *)
Definition wipechain (x : store) : store :=
  let x := WipeChainFiles x in
  let st := set_sheet (Chain_Wipe (st_chain x)) BalanceSheet_Init in
  let supply := uint256_from_u64 0 in
  mkStore (set_counters st supply (CalculateBlockReward supply (blocks st) (g_currentReward st)) INITIAL_DIFFICULTY)
    (st_orphans x) (st_sheetFile x).

(** Loading the chain into the fresh process.  When [chain.meta] is too short, the reads that did not
    complete leave indeterminate values in the counters: [torn]. *)
Definition load_chain (files : option chain_files) (torn : chain_metadata) : node :=
  let '(loaded, md, chain) := Chain_LoadFromFile files [] false in
  let md := match md, files with
            | Some md, _ => md
            | None, Some _ => torn
            | None, None => mkMeta (zeros 32) (uint256_from_u64 0) INITIAL_DIFFICULTY INITIAL_REWARD
            end in
  let st := mkNode chain [] BalanceSheet_Init TxMempool_Init (savedSupply md) (savedReward md) 0 (savedDifficulty md) files pow_init in
  if loaded then Chain_OnTipAdvanced (snd (Chain_RecomputeRuntimeState st)) else st.

Definition load_sheet (st : node) (sheetFile : option bytes) : node :=
  match sheetFile with
  | None => st
  | Some file => set_sheet st (BalanceSheet_LoadFromFile (g_sheetMap st) file)
  end.

(** During the first phase of emission the reward is computed anew. *)
Definition refresh_reward (st : node) : node :=
  if (Z.of_nat (Chain_Size st) <? effectivePhase1Blocks) || (g_currentReward st =? 0)
  then set_counters st (g_currentSupply st) (CalculateBlockReward (g_currentSupply st) (blocks st) (g_currentReward st)) (g_difficultyTarget st)
  else st.

Definition startup (files : option chain_files) (sheetFile : option bytes) (torn : chain_metadata) : store :=
  let st := refresh_reward (load_sheet (load_chain files torn) sheetFile) in
  let st := snd (Chain_DagParamsForHeight st (Z.of_nat (Chain_Size st))) in
  let x := mkStore st OrphanPool_Init sheetFile in
  if (0 <? Chain_Size st)%nat then if Chain_IsValid (blocks st) then x else wipechain x
  else x.

(** Leaving the command loop flushes; the next run starts from what is on disk. *)
Definition restart (x : store) (torn : chain_metadata) : store :=
  let '(_, x) := FlushChainAndSheet x in
  startup (g_files (st_chain x)) (st_sheetFile x) torn.
End Operations.

(** ** The wallet file *)

Record wallet := mkWallet { minerPrivateKey : bytes; minerCompressedPubkey : bytes; minerAddress : bytes }.

Definition wallet_bytes (w : wallet) : bytes := minerPrivateKey w ++ minerCompressedPubkey w ++ minerAddress w.

(** The wallet and the file afterwards; [None] when the process exits because the file is too short.
    [generated] is the fresh identity used when the file cannot be opened. *)
Definition load_wallet (file : option bytes) (generated : wallet) : option (wallet * bytes) :=
  match file with
  | None => Some (generated, wallet_bytes generated)
  | Some f =>
      '(key, r) ← cut 32 f;
      '(pub, r) ← cut 33 r;
      '(addr, _) ← cut 32 r;
      Some (mkWallet key pub addr, f)
  end.

(** A wallet is found again, and the file is left alone. *)
Lemma wallet_roundtrip w generated :
  length (minerPrivateKey w) = 32%nat -> length (minerCompressedPubkey w) = 33%nat -> length (minerAddress w) = 32%nat ->
  load_wallet (Some (wallet_bytes w)) generated = Some (w, wallet_bytes w).
Proof.
  intros H1 H2 H3. unfold load_wallet, wallet_bytes. rewrite !cut_app by done. cbn [mbind option_bind]. rewrite cut_app by done.
  cbn [mbind option_bind]. rewrite <- (app_nil_r (minerAddress w)) at 1. rewrite cut_app by done. by destruct w.
Qed.

(** ** A clean restart *)

Section Restart.
Context {ops : CryptoOps} {laws : CryptoLaws ops}.

(** What a new process makes of a saved node before it recomputes anything. *)
Definition fresh (st : node) : node :=
  mkNode (blocks st) [] (g_sheetMap st) TxMempool_Init (g_currentSupply st) (g_currentReward st) 0
    (snd (tip_fields (blocks st))) (g_files st) pow_init.

Lemma fresh_inv st L : inv st L -> inv (fresh st) L.
Proof.
  intros ((Hc & _) & HL & Hh). split; [|by split]. split; [done|]. split; [apply coherent_nil|]. by intros ?.
Qed.

(** Recomputing reads the blocks and the files only. *)
Lemma rebuild_sheet st m n i s : rebuild_supply (set_sheet st m) i n s = rebuild_supply st i n s.
Proof.
  revert i s; induction n as [|n IH]; intros i s; [done|]. cbn [rebuild_supply].
  change (Chain_BorrowBlockTransactions (set_sheet st m) i) with (Chain_BorrowBlockTransactions st i).
  destruct (Chain_BorrowBlockTransactions st i) as [txs|]; [|done]. cbn [mbind option_bind].
  destruct (add_coinbases s txs); [|done]. apply IH.
Qed.

Lemma recompute_sheet st m :
  set_sheet (Chain_OnTipAdvanced (snd (Chain_RecomputeRuntimeState st))) m =
  Chain_OnTipAdvanced (snd (Chain_RecomputeRuntimeState (set_sheet st m))).
Proof.
  unfold Chain_RecomputeRuntimeState. rewrite rebuild_sheet. cbn [blocks set_sheet]. by destruct (rebuild_supply st _ _ _).
Qed.

Lemma recompute_keeps st :
  let st' := Chain_OnTipAdvanced (snd (Chain_RecomputeRuntimeState st)) in
  blocks st' = blocks st /\ g_sheetMap st' = g_sheetMap st /\ g_txMempool st' = g_txMempool st /\
  g_difficultyTarget st' = Chain_GetTargetForHeight (blocks st) (Z.of_nat (length (blocks st))).
Proof. unfold Chain_RecomputeRuntimeState. by destruct (rebuild_supply st _ _ _). Qed.

Lemma refresh_keeps st :
  let st' := refresh_reward st in
  blocks st' = blocks st /\ g_txMempool st' = g_txMempool st /\ g_difficultyTarget st' = g_difficultyTarget st.
Proof. unfold refresh_reward. by destruct (_ || _). Qed.

Lemma tip_compact l : tip_fields (map compact l) = tip_fields l.
Proof.
  unfold tip_fields. rewrite length_map, list_lookup_fmap. by destruct (l !! (length l - 1)%nat).
Qed.

Lemma loaded_compact st L : ledger_ok st L -> map (loaded_block false) L = map compact (blocks st).
Proof.
  intros HL. pose proof (recovers_headers st L HL) as E. apply (f_equal (map (fun h => mkBlock h None))) in E.
  rewrite !map_map in E. symmetry. exact E.
Qed.

(** Loading what a node saved. *)
Lemma load_saved_node st L torn :
  inv st L -> Z.of_nat (length (data_of L)) <= LONG_MAX ->
  let st1 := snd (node_save st) in
  fst (node_save st) = true /\ inv st1 L /\ blocks st1 = map compact (blocks st) /\ g_sheetMap st1 = g_sheetMap st /\
  load_sheet (load_chain (g_files st1) torn) (Some (BalanceSheet_SaveToFile (g_sheetMap st1))) =
    Chain_OnTipAdvanced (snd (Chain_RecomputeRuntimeState (fresh st1))).
Proof.
  intros Hinv Hfit st1. pose proof Hinv as (_ & HL & _). destruct (node_save_ledger st L HL Hfit) as (Hok & HL1 & Eb).
  pose proof (node_save_inv st L Hinv Hfit) as Hinv1. destruct (saved_files st L Hinv Hfit) as (f & Ef & Hload).
  destruct (Hload [] false) as [El _]. fold st1 in Hinv1, HL1, Eb, Ef. split; [done|]. split; [done|]. split; [done|].
  assert (Est : g_sheetMap st1 = g_sheetMap st /\ g_currentSupply st1 = g_currentSupply st /\ g_currentReward st1 = g_currentReward st).
  { unfold st1, node_save. by destruct (Chain_SaveToFile _ _ _ _) as [[? ?] ?]. }
  destruct Est as (E1 & E2 & E3). split; [done|]. unfold load_chain. rewrite Ef, El. cbn [load_sheet savedSupply savedReward savedDifficulty].
  rewrite (proj1 (proj2 (recompute_keeps _))), recompute_sheet. f_equal. f_equal. f_equal. unfold fresh, set_sheet.
  cbn [blocks dagEpochs g_sheetMap g_txMempool g_currentSupply g_currentReward g_currentBlockHeight g_difficultyTarget g_files g_pow].
  rewrite load_saved by apply (ledger_sheet_ok st1 L HL1). rewrite Eb, tip_compact, E2, E3, Ef, (loaded_compact st L HL). done.
Qed.

Lemma refresh_inv st L : inv st L -> inv (refresh_reward st) L.
Proof.
  intros Hinv. unfold refresh_reward. destruct (_ || _); [|done]. pose proof Hinv as (Hok & HL & (Hu & Hr & Hh)).
  pose proof HL as (_ & [Hlen _] & Hs & _). split; [exact Hok|]. split; [exact HL|].
  split; [cbn [g_currentReward set_counters]; apply next_reward_u64; [exact Hs|exact Hu]|]. split; [|exact Hh].
  intros _. exists (g_currentReward st). cbn [g_currentReward set_counters]. unfold CalculateBlockReward, next_reward.
  by rewrite (ledger_supply st L HL), Hlen.
Qed.

(** The parts of a node a restart must bring back. *)
Definition same_ledger (st st' : node) : Prop :=
  map header (blocks st') = map header (blocks st) /\ g_sheetMap st' = g_sheetMap st /\ g_currentSupply st' = g_currentSupply st.

Lemma same_ledger_of st st' L : ledger_ok st L -> ledger_ok st' L -> same_ledger st st'.
Proof.
  intros HL HL'. split; [by rewrite (recovers_headers st L HL), (recovers_headers st' L HL')|].
  split; [by apply (ledger_valid_unique L); [apply HL'|apply HL]|by rewrite (ledger_supply _ _ HL), (ledger_supply _ _ HL')].
Qed.

Lemma restart_inv x torn L :
  inv (st_chain x) L -> Z.of_nat (length (data_of L)) <= LONG_MAX ->
  let x' := restart x torn in
  inv (st_chain x') L /\ g_txMempool (st_chain x') = TxMempool_Init /\ st_orphans x' = OrphanPool_Init /\
  g_difficultyTarget (st_chain x') = Chain_GetTargetForHeight (blocks (st_chain x')) (Z.of_nat (length (blocks (st_chain x')))).
Proof.
  intros Hinv Hfit x'. destruct (load_saved_node (st_chain x) L torn Hinv Hfit) as (_ & Hinv1 & _ & _ & El).
  assert (Hi : inv (refresh_reward (Chain_OnTipAdvanced (snd (Chain_RecomputeRuntimeState (fresh (snd (node_save (st_chain x)))))))) L)
    by (apply refresh_inv, set_target_inv, Recompute_inv, fresh_inv, Hinv1).
  set (booted := Chain_OnTipAdvanced (snd (Chain_RecomputeRuntimeState (fresh (snd (node_save (st_chain x))))))) in *.
  destruct (refresh_keeps booted) as (Hb & Hp & Ht). destruct (recompute_keeps (fresh (snd (node_save (st_chain x))))) as (Hb' & _ & Hp' & Ht').
  fold booted in Hb', Hp', Ht'. rewrite Hb' in Hb. rewrite Hp' in Hp. rewrite Ht' in Ht.
  assert (Hst : exists c, coherent (blocks (refresh_reward booted)) c /\ x' =
    mkStore (set_dag (refresh_reward booted) c) OrphanPool_Init (Some (BalanceSheet_SaveToFile (g_sheetMap (snd (node_save (st_chain x))))))).
  { unfold x', restart, FlushChainAndSheet. destruct (node_save (st_chain x)) as [ok st1]. cbn [snd] in *. unfold startup.
    cbn [st_chain st_sheetFile]. rewrite El. pose proof Hi as (Hok & _).
    destruct (DagParamsForHeight_spec _ (Z.of_nat (Chain_Size (refresh_reward booted))) Hok) as (c & Hc & -> & _).
    exists c. split; [exact Hc|]. cbn [set_dag blocks]. rewrite (consensus_valid _ (proj1 Hok)). by destruct (0 <? _)%nat. }
  destruct Hst as (c & Hc & ->). cbn [st_chain st_orphans set_dag g_txMempool g_difficultyTarget blocks g_currentReward].
  destruct Hi as (Hok & HL & Hh). split; [split; [by apply set_dag_ok|by split]|]. rewrite Hb, Hp, Ht. done.
Qed.

(** ** Lives of a data directory *)

Definition fits (st : node) : Prop :=
  forall L, resolve_all (g_files st) 0 (blocks st) = Some L -> Z.of_nat (length (data_of L)) <= LONG_MAX.

(** A run of the node makes the chain's own steps on well-formed blocks (the orphan pool and the sheet
    file may change as they like); it ends and a new one begins; the operator wipes everything. *)
Inductive life_step : store -> store -> Prop :=
| life_run x y : good_step (st_chain x) (st_chain y) -> life_step x y
| life_restart x torn : fits (st_chain x) -> life_step x (restart x torn)
| life_wipe x : life_step x (wipechain x).

Lemma zero_ok : uint256_ok (uint256_from_u64 0).
Proof. apply from_u64_ok. vm_decide. Qed.

Lemma empty_inv st :
  blocks st = [] -> dagEpochs st = [] -> pow_ok (g_pow st) -> g_sheetMap st = BalanceSheet_Init ->
  g_currentSupply st = uint256_from_u64 0 -> is_u64 (g_currentReward st) -> inv st [].
Proof.
  intros Hb Hd Hp Hm Hs Hu. unfold inv, node_ok, ledger_ok, history. rewrite Hb, Hd, Hm, Hs.
  split; [split; [apply consensus_nil|]; split; [apply coherent_nil|done]|].
  split; [split; [constructor|]; split; [by split|]; split; [apply zero_ok|done]|]. split; [done|]. by split.
Qed.

Lemma wipechain_inv x L : inv (st_chain x) L -> inv (st_chain (wipechain x)) [].
Proof.
  intros ((_ & _ & Hp) & _ & (Hu & _)). apply empty_inv; [done..|]. apply next_reward_u64; [apply zero_ok|exact Hu].
Qed.

Lemma first_start_inv torn : inv (st_chain (startup None None torn)) [].
Proof.
  set (st := refresh_reward (load_sheet (load_chain None torn) None)).
  assert (Hi : inv st []).
  { unfold st. apply refresh_inv. by apply empty_inv. }
  unfold startup. fold st. assert (Hb : blocks st = []) by apply (refresh_keeps (load_chain None torn)).
  destruct (DagParamsForHeight_spec st (Z.of_nat (Chain_Size st)) (proj1 Hi)) as (c & Hc & -> & _).
  cbn [Chain_Size set_dag blocks]. unfold Chain_Size. cbn [set_dag blocks]. rewrite Hb. cbn [length Nat.ltb Nat.leb st_chain].
  destruct Hi as (Hok & HL & Hh). split; [by apply set_dag_ok|by split].
Qed.

Lemma life_inv x y : life_step x y -> (exists L, inv (st_chain x) L) -> exists L, inv (st_chain y) L.
Proof.
  intros [a b Hs|a torn Hfit|a] [L Hi]; [by eapply good_step_inv| |].
  - exists L. apply restart_inv; [done|]. apply (fits_resolved (st_chain a)); [apply Hi|done].
  - exists []. by eapply wipechain_inv.
Qed.

Lemma lives_inv torn x : rtc life_step (startup None None torn) x -> exists L, inv (st_chain x) L.
Proof.
  intros Hr. assert (H0 : exists L, inv (st_chain (startup None None torn)) L) by (exists []; apply first_start_inv).
  revert H0. induction Hr as [|a b c Hs _ IH]; [done|]. intros H0. apply IH. by apply (life_inv a).
Qed.

(** ** An interrupted save *)

(** The table ends before the number of blocks in the metadata. *)
Lemma load_loop_short f L loadTx size n k fuel :
  files_hold f L -> (n + k = length L)%nat -> Z.of_nat (length L) < size -> (n < fuel)%nat ->
  load_loop fuel size (Z.of_nat k) (chain_data f) (drop (24 * k) (chain_table f)) loadTx = (false, map (loaded_block loadTx) (drop k L)).
Proof.
  intros Hf Hn Hsize. revert k fuel Hn; induction n as [|n IH]; intros k fuel Hn Hfu; (destruct fuel as [|fuel]; [lia|]); cbn [load_loop];
    rewrite (proj2 (Z.leb_gt _ _)) by lia.
  - assert (E : drop (24 * k) (chain_table f) = []).
    { apply drop_ge. pose proof Hf as (_ & -> & _). rewrite length_table. lia. }
    by rewrite E, (drop_ge L k) by lia.
  - destruct (lookup_lt_is_Some_2 L k ltac:(lia)) as [p E]. rewrite (read_saved_entry f L k p Hf E), (load_one_saved f L k p loadTx Hf E).
    replace (Z.of_nat k + 1) with (Z.of_nat (S k)) by lia. rewrite IH by lia. by rewrite (drop_S L p k E).
Qed.

(** The files after a save, field by field. *)
Lemma saved_meta st L :
  inv st L -> Z.of_nat (length (data_of L)) <= LONG_MAX ->
  exists f, g_files (snd (node_save st)) = Some f /\ files_hold f L /\
    read_meta (chain_meta f) = Some (Z.of_nat (length L), mkMeta (fst (tip_fields (blocks st))) (g_currentSupply st) (snd (tip_fields (blocks st))) (g_currentReward st)).
Proof.
  intros (_ & HL & (Hu & _)) Hfit. pose proof HL as (Hv & HR & Hs & _). pose proof HR as [Hlen _]. pose proof (ledger_valid_facts _ _ Hv) as (Hf & _).
  pose proof (recovers_resolve (blocks st) (g_files st) L (length L) 0 HR ltac:(lia)) as Hres. rewrite !drop_0 in Hres.
  pose proof (save_spec (g_files st) (blocks st) L (g_currentSupply st) (g_currentReward st) Hres Hf Hfit) as Hsave.
  destruct (tip_fields_ok (blocks st) (ledger_headers st L HL)) as [Hhash Hd]. pose proof (length_data_ge L Hf) as Hge.
  destruct (tip_fields (blocks st)) as [hash d]. cbn [fst snd] in *. destruct Hsave as [Esave Hhold].
  unfold node_save. rewrite Esave. eexists. split; [done|]. split; [exact Hhold|]. cbn [chain_meta]. rewrite <- Hlen.
  apply read_meta_bytes; [unfold_cint; lia|done..].
Qed.

(** The new metadata over the old blocks: the load gives up after the old blocks, with the new counters. *)
Lemma torn_load st st' L L' torn :
  inv st L -> inv st' L' -> Z.of_nat (length (data_of L)) <= LONG_MAX -> Z.of_nat (length (data_of L')) <= LONG_MAX ->
  (length L < length L')%nat ->
  exists f f', g_files (snd (node_save st)) = Some f /\ g_files (snd (node_save st')) = Some f' /\
    let torn_files := Some (mkFiles (chain_meta f') (chain_data f) (chain_table f)) in
    load_chain torn_files torn =
      mkNode (map compact (blocks st)) [] BalanceSheet_Init TxMempool_Init (g_currentSupply st') (g_currentReward st') 0
        (snd (tip_fields (blocks st'))) torn_files pow_init.
Proof.
  intros Hi Hi' Hfit Hfit' Hlt. destruct (saved_meta st L Hi Hfit) as (f & Ef & Hf & _). destruct (saved_meta st' L' Hi' Hfit') as (f' & Ef' & _ & Em).
  exists f, f'. split; [done|]. split; [done|]. cbv zeta. unfold load_chain, Chain_LoadFromFile. cbn [chain_meta chain_data chain_table]. rewrite Em.
  pose proof (load_loop_short f L false (Z.of_nat (length L')) (length L) 0 (S (length (chain_table f))) Hf ltac:(lia) ltac:(lia)) as E.
  rewrite Nat.mul_0_r, !drop_0 in E. change (Z.of_nat 0) with 0 in E. rewrite E.
  - rewrite (loaded_compact st L); [done|apply Hi].
  - pose proof Hf as (_ & -> & _). rewrite length_table. lia.
Qed.

Lemma torn_startup st st' L L' torn :
  inv st L -> inv st' L' -> Z.of_nat (length (data_of L)) <= LONG_MAX -> Z.of_nat (length (data_of L')) <= LONG_MAX ->
  (length L < length L')%nat ->
  exists f f', g_files (snd (node_save st)) = Some f /\ g_files (snd (node_save st')) = Some f' /\
    let x := st_chain (startup (Some (mkFiles (chain_meta f') (chain_data f) (chain_table f))) (Some (BalanceSheet_SaveToFile (g_sheetMap st))) torn) in
    blocks x = map compact (blocks st) /\ g_sheetMap x = g_sheetMap st /\ g_currentSupply x = g_currentSupply st'.
Proof.
  intros Hi Hi' Hfit Hfit' Hlt. destruct (torn_load st st' L L' torn Hi Hi' Hfit Hfit' Hlt) as (f & f' & Ef & Ef' & E).
  exists f, f'. split; [done|]. split; [done|]. cbv zeta in *. unfold startup. rewrite E. clear E. cbn [load_sheet].
  pose proof Hi as ((Hc & _) & HL & _). cbn [g_sheetMap]. rewrite load_saved by apply (ledger_sheet_ok st L HL).
  set (st1 := refresh_reward _). assert (H1 : blocks st1 = map compact (blocks st) /\ g_sheetMap st1 = g_sheetMap st /\ g_currentSupply st1 = g_currentSupply st')
    by (unfold st1, refresh_reward; by destruct (_ || _)). clearbody st1. destruct H1 as (Hb & Hm & Hs).
  unfold Chain_DagParamsForHeight. destruct (Chain_DagParamsForHeightLocked _ _ _) as [params c]. cbn [snd set_dag blocks].
  rewrite Hb, (consensus_valid (map compact (blocks st))) by (by apply consensus_compact). by destruct (0 <? _)%nat.
Qed.
End Restart.

(** ** A concrete data directory: two blocks saved, and the same with one block less *)

Module StartScenario.
Import Scenario AuditScenario.
#[local] Existing Instances Toy.ops Toy.laws.

Definition running : store := mkStore two_blocks OrphanPool_Init None.
Definition no_meta : chain_metadata := mkMeta (zeros 32) (uint256_from_u64 0) INITIAL_DIFFICULTY 0.

Lemma two_blocks_fit : fits two_blocks.
Proof. intros L. rewrite two_blocks_resolved. intros HL. apply (inj Some) in HL. subst L. vm_compute. discriminate. Qed.

Lemma one_block_reachable : reachable one_block.
Proof. exists reward0. split; [vm_decide|]. apply rtc_once, good_add, first_good. Qed.

Lemma one_block_resolved : resolve_all (g_files one_block) 0 (blocks one_block) = Some [(header first_block, [mint reward0])].
Proof. vm_compute. reflexivity. Qed.

Lemma one_block_fits : fits one_block.
Proof. intros L. rewrite one_block_resolved. intros HL. apply (inj Some) in HL. subst L. vm_compute. discriminate. Qed.
End StartScenario.
Import StartScenario AuditScenario Scenario.

(** ** Properties *)

(** C14: a restart loses nothing.  Let a node in a reachable state, whose chain.data stays within
    [LONG_MAX], leave its command loop, which flushes, and start again over what it wrote.  The flush succeeds; the new process has the headers, the
    transactions, the balance sheet and the supply of the old one, the target of the next block, and
    -- where the schedule does not depend on its cached value -- the reward; only the pools are empty. *)
Theorem restart_restores {ops : CryptoOps} {laws : CryptoLaws ops} x torn :
  reachable (st_chain x) -> fits (st_chain x) ->
  let st := st_chain x in
  let st' := st_chain (restart x torn) in
  fst (FlushChainAndSheet x) = true /\ same_ledger st st' /\ chain_transactions st' = chain_transactions st /\
  g_difficultyTarget st' = Chain_GetTargetForHeight (blocks st) (Z.of_nat (length (blocks st))) /\
  (blocks st <> [] -> settled (g_currentSupply st) (Z.of_nat (length (blocks st))) -> g_currentReward st' = g_currentReward st) /\
  g_txMempool st' = TxMempool_Init /\ st_orphans (restart x torn) = OrphanPool_Init.
Proof.
  intros Hr Hf st st'. destruct (reachable_history st Hr) as [L Hi]. pose proof Hi as (_ & HL & (_ & Hrw & _)).
  assert (Hfit : Z.of_nat (length (data_of L)) <= LONG_MAX) by (by apply (fits_resolved st)).
  destruct (restart_inv x torn L Hi Hfit) as (Hi' & Hp & Ho & Ht). pose proof Hi' as (_ & HL' & (_ & Hrw' & _)).
  destruct (load_saved_node st L torn Hi Hfit) as (Hok & _). pose proof HL as (_ & HR & _). pose proof HL' as (_ & HR' & _).
  pose proof (same_ledger_of st st' L HL HL') as Hsame. pose proof HR as [Hlen _].
  split; [unfold FlushChainAndSheet; fold st; by destruct (node_save st)|]. split; [done|].
  split; [by rewrite !(chain_transactions_recovers _ L)|]. split; [|split; [|done]].
  - fold st' in Ht. rewrite Ht. assert (Hl : length (blocks st') = length (blocks st)) by (rewrite <- (length_map header), (proj1 Hsame), length_map; done).
    rewrite Hl, <- (GetTarget_compact (blocks st')), <- (GetTarget_compact (blocks st)). f_equal. apply headers_compact, Hsame.
  - intros Hne Hset. assert (HneL : L <> []) by (intros ->; destruct (blocks st); done).
    destruct (Hrw HneL) as [g Eg]. destruct (Hrw' HneL) as [g' Eg']. fold st' in Eg'. rewrite Eg, Eg'.
    rewrite <- (ledger_supply st L HL), Hlen. apply Hset.
Qed.

Lemma restart_restores_witness :
  fst (FlushChainAndSheet running) = true /\ same_ledger two_blocks (st_chain (restart running no_meta)) /\
  g_currentReward (st_chain (restart running no_meta)) = g_currentReward two_blocks.
Proof.
  destruct (restart_restores running no_meta two_blocks_reachable two_blocks_fit) as (H1 & H2 & _ & _ & H3 & _).
  split; [exact H1|]. split; [exact H2|]. apply H3.
  - change (blocks (st_chain running)) with (blocks two_blocks). rewrite two_blocks_chain. discriminate.
  - change (st_chain running) with two_blocks. rewrite two_blocks_chain.
    assert (E : g_currentSupply two_blocks = [35184355311629; 0; 0; 0]) by (vm_compute; reflexivity).
    rewrite E. apply phase1_settled; [vm_decide|vm_compute; reflexivity|vm_decide|vm_compute; reflexivity].
Defined.

(** C7: the ledger is sound over the whole life of a data directory.  From the first start on an empty
    directory, through any number of runs on well-formed blocks whose saves do not fail, restarts (with
    chain.data within [LONG_MAX]) and wipes: the chain is valid
    at every height, all its transactions are recoverable, the balance sheet and the supply are their
    replay, and balances plus fees equal the coins issued. *)
Theorem sound_across_runs {ops : CryptoOps} {laws : CryptoLaws ops} torn x :
  rtc life_step (startup None None torn) x ->
  let st := st_chain x in
  consensus_ok (blocks st) /\
  exists txs, chain_transactions st = Some txs /\
    replay_txs (uint256_from_u64 0, BalanceSheet_Init) txs = (g_currentSupply st, g_sheetMap st) /\
    ledger_pass BalanceSheet_Init txs = (true, g_sheetMap st) /\
    val (g_currentSupply st) = coinbase_sum txs /\ total (g_sheetMap st) + fee_sum txs = val (g_currentSupply st).
Proof.
  intros Hr st. destruct (lives_inv torn x Hr) as [L ((Hc & _) & HL & _)]. split; [exact Hc|]. by apply (ledger_conserved st L).
Qed.

(** A first start, a block mined by the run, and a restart over what it saved. *)
Definition first_run : store := startup None None no_meta.
Definition mined_run : store := mkStore (snd (Chain_AddBlock (st_chain first_run) first_block)) OrphanPool_Init None.

Lemma mined_resolved :
  resolve_all (g_files (st_chain mined_run)) 0 (blocks (st_chain mined_run)) = Some [(header first_block, [mint reward0])].
Proof. vm_compute. reflexivity. Qed.

Lemma mined_fits : fits (st_chain mined_run).
Proof. intros L. rewrite mined_resolved. intros HL. apply (inj Some) in HL. subst L. vm_compute. discriminate. Qed.

Lemma sound_across_runs_witness :
  let st := st_chain (restart mined_run no_meta) in
  consensus_ok (blocks st) /\ length (blocks st) = 1%nat /\ val (g_currentSupply st) = reward0.
Proof.
  destruct (sound_across_runs no_meta (restart mined_run no_meta)) as [H _].
  - eapply rtc_l; [apply (life_run _ mined_run), good_add, first_good|apply rtc_once, life_restart, mined_fits].
  - split; [exact H|split; vm_compute; reflexivity].
Defined.

(** C39: a save interrupted after its first rename.  Let both chains be reachable, with their chain.data
    within [LONG_MAX].  The metadata of the new, longer chain is in place,
    the blocks and the balance sheet are the old ones.  Start-up then runs with the old blocks and the
    old sheet under the supply counter of the new chain, which nothing recomputes. *)
Theorem interrupted_save_keeps_new_supply {ops : CryptoOps} {laws : CryptoLaws ops} st st' torn :
  reachable st -> reachable st' -> fits st -> fits st' -> (length (blocks st) < length (blocks st'))%nat ->
  exists f f', g_files (snd (node_save st)) = Some f /\ g_files (snd (node_save st')) = Some f' /\
    let x := st_chain (startup (Some (mkFiles (chain_meta f') (chain_data f) (chain_table f))) (Some (BalanceSheet_SaveToFile (g_sheetMap st))) torn) in
    map header (blocks x) = map header (blocks st) /\ g_sheetMap x = g_sheetMap st /\ g_currentSupply x = g_currentSupply st'.
Proof.
  intros Hr Hr' Hf Hf' Hlt. destruct (reachable_history st Hr) as [L Hi]. destruct (reachable_history st' Hr') as [L' Hi'].
  pose proof Hi as (_ & HL & _). pose proof Hi' as (_ & HL' & _). pose proof HL as (_ & [Hlen _] & _). pose proof HL' as (_ & [Hlen' _] & _).
  destruct (torn_startup st st' L L' torn Hi Hi' (fits_resolved st L HL Hf) (fits_resolved st' L' HL' Hf') ltac:(lia)) as (f & f' & Ef & Ef' & Hb & Hrest).
  exists f, f'. split; [done|]. split; [done|]. cbv zeta. rewrite Hb, map_map. by split.
Qed.

Lemma interrupted_save_keeps_new_supply_witness :
  exists f f', g_files (snd (node_save one_block)) = Some f /\ g_files (snd (node_save two_blocks)) = Some f' /\
    g_currentSupply (st_chain (startup (Some (mkFiles (chain_meta f') (chain_data f) (chain_table f)))
      (Some (BalanceSheet_SaveToFile (g_sheetMap one_block))) no_meta)) <> g_currentSupply one_block.
Proof.
  destruct (interrupted_save_keeps_new_supply one_block two_blocks no_meta one_block_reachable two_blocks_reachable one_block_fits two_blocks_fit)
    as (f & f' & E & E' & _ & _ & H).
  - rewrite two_blocks_chain. assert (E : length (blocks one_block) = 1%nat) by (vm_compute; reflexivity). rewrite E. cbn. lia.
  - exists f, f'. split; [exact E|]. split; [exact E'|]. rewrite H. vm_compute. discriminate.
Defined.
