(* ===== verification/Sync.v ===== *)
(** * Synchronising with a peer ([src/main.c], command [sync])

    The thread of the command line asks the best outbound peer for the blocks above its own tip in a
    window of eight, watches the chain and the delivery receipts for the answers, and walks back to a
    common block when the answers do not extend its chain.  The io and maintenance threads run meanwhile:
    the thread is a program over the shared state in which other threads act before every access. *)
From S2P Require Import Prelude Bytes UInt256 Utils Crypto Transaction Autolykos2 Block Emission.
From S2P Require Import BalanceSheet Ledger Difficulty DagEpochs Mempool Storage Chain ChainInvariant OrphanPool.
From S2P Require Import Framing Deliveries Peers UdpNode Discovery DiscoveryTheorems Protocol ProtocolTheorems NetNode NetInvariant.
From S2P Require Import ChainTheorems NetTheorems.

Definition SYNC_REQUEST_TIMEOUT_MS : Z := 5000.
Definition MAX_SYNC_RETRIES : Z := 4.
Definition SYNC_BACKOFF_BASE_MS : Z := 200.
Definition MAX_PARALLEL_FETCHES : nat := 8.
Definition REORG_FETCH_DEPTH : Z := 128.
Definition MAX_FORK_PROBE_ROUNDS : Z := 3.

(** ** Programs over the shared state *)

(** The state, the number of accesses made so far and the milliseconds slept so far. *)
Record world := mkWorld { w_sys : system; w_access : nat; w_slept : Z }.

(** What the other threads do before access [n], what the clock shows then apart from the time slept,
    and whether a socket takes a frame then. *)
Class Environment := {
  others : nat -> system -> system;
  time_at : nat -> Z;
  takes : nat -> ptr -> bytes -> bool
}.

(** The clock: a sleep takes at least the time asked for. *)
Definition clock_of {env : Environment} (w : world) : Z := time_at (w_access w) + w_slept w.

(** A program stops with a result, or with [None] where its loops run out of fuel. *)
Definition prog (A : Type) : Type := world -> option A * world.

Definition ret {A} (x : A) : prog A := fun w => (Some x, w).
Definition out_of_fuel {A} : prog A := fun w => (None, w).
Definition bind {A B} (m : prog A) (k : A -> prog B) : prog B :=
  fun w => match m w with
           | (Some x, w) => k x w
           | (None, w) => (None, w)
           end.

Declare Scope sync_scope.
Delimit Scope sync_scope with sync.
Notation "'let*' x := m 'in' k" := (bind m (fun x => k))
  (at level 10, x name, m at level 100, k at level 200) : sync_scope.
Notation "m ;; k" := (bind m (fun _ => k)) (at level 100, right associativity) : sync_scope.
#[local] Open Scope sync_scope.

Section Sync.
Context {ops : CryptoOps} {env : Environment} (clock : node -> nat -> Z).

(** One access: the others act, then [f] reads or changes the state. *)
Definition access {A} (f : nat -> system -> A * system) : prog A :=
  fun w => let '(x, s) := f (w_access w) (others (w_access w) (w_sys w)) in (Some x, mkWorld s (S (w_access w)) (w_slept w)).
Definition look {A} (f : nat -> system -> A) : prog A := access (fun n s => (f n s, s)).

(** An access that reads the clock as well. *)
Definition look_now {A} (f : Z -> system -> A) : prog A := fun w => look (fun _ s => f (clock_of w) s) w.

Definition get_current_time_ms : prog Z := look_now (fun now _ => now).
Definition sleep_for_milliseconds (ms : Z) : prog unit :=
  fun w => look (fun _ _ => tt) (mkWorld (w_sys w) (w_access w) (w_slept w + ms)).
Definition chain_size : prog Z := look (fun _ s => Z.of_nat (Chain_Size (chain_of s))).
Definition get_block (i : Z) : prog (option block) :=
  look (fun _ s => if (0 <=? i) && (i <? Z.of_nat (Chain_Size (chain_of s))) then Chain_GetBlockCopy (chain_of s) (Z.to_nat i) else None).

(** [Node_SendPacket] of a [FETCH_BLOCK]: whether it was sent. *)
Definition send_fetch (peer : ptr) (height : Z) : prog bool :=
  access (fun n s => let '(rc, net) := Node_SendPacket (takes n) (sy_net s) peer PACKET_TYPE_FETCH_BLOCK (le_bytes 8 height) in
                     (rc =? 0, with_net s net)).

Definition take_delivery (height : Z) : prog (option node_delivery_status) :=
  access (fun _ s => let '(r, d) := Node_TakeBlockDelivery (sy_deliveries s) height in (r, with_deliveries s d)).

(** [OrphanPool_AttemptAttachForced]: the number of blocks attached. *)
Definition attempt_attach (force : bool) : prog nat :=
  access (fun _ s => let x := sy_store s in
                     let '(n, st, pool) := OrphanPool_AttemptAttachForced clock (st_chain x) (st_orphans x) force in
                     (n, with_store s (mkStore st pool (st_sheetFile x)))).

(** ** Walking back to a common block *)

(** Requests for [next], [next - 1], ... until the batch is full, a send fails or the floor is asked for:
    the batch, the next height, and whether the walk is exhausted. *)
Fixpoint fill_batch (n : nat) (peer : ptr) (floorHeight next : Z) (batch : list Z) : prog (list Z * Z * bool) :=
  match n with
  | O => ret (batch, next, false)
  | S n =>
      let* sent := send_fetch peer next in
      if negb sent then ret (batch, next, true)
      else let batch := batch ++ [next] in
           if next =? floorHeight then ret (batch, next, true)
           else fill_batch n peer floorHeight (u64 (next - 1)) batch
  end.

(** A requested height and the receipt it got. *)
Abbreviation answer := (Z * option node_delivery_status)%type.

Definition outstanding (l : list answer) : nat := length (filter (fun a => a.2 = None) l).

Fixpoint take_round (l : list answer) : prog (list answer) :=
  match l with
  | [] => ret []
  | (h, Some r) :: l => let* l := take_round l in ret ((h, Some r) :: l)
  | (h, None) :: l => let* r := take_delivery h in let* l := take_round l in ret ((h, r) :: l)
  end.

Fixpoint wait_loop (fuel : nat) (deadline : Z) (l : list answer) : prog (list answer) :=
  if (outstanding l =? 0)%nat then ret l
  else match fuel with
  | O => out_of_fuel
  | S f =>
      let* now := get_current_time_ms in
      if deadline <=? now then ret l
      else let* l := take_round l in
           (if (0 <? outstanding l)%nat then sleep_for_milliseconds 20 else ret tt) ;;
           wait_loop f deadline l
  end.

Definition shared (a : answer) : bool :=
  match a.2 with Some NODE_DELIVERY_DUPLICATE | Some NODE_DELIVERY_APPENDED => true | _ => false end.

Fixpoint walk_loop (rounds fuel : nat) (peer : ptr) (floorHeight next : Z) : prog bool :=
  match rounds with
  | O => out_of_fuel
  | S rounds =>
      let* filled := fill_batch MAX_PARALLEL_FETCHES peer floorHeight next [] in
      let '(batch, next, exhausted) := filled in
      if (length batch =? 0)%nat then ret false
      else
        let* now := get_current_time_ms in
        let* l := wait_loop fuel (now +u64 SYNC_REQUEST_TIMEOUT_MS) (map (fun h => (h, None)) batch) in
        if existsb shared l then ret true
        else if (0 <? outstanding l)%nat then ret false
        else if exhausted then ret false
        else walk_loop rounds fuel peer floorHeight next
  end.

Definition floor_of (topHeight : Z) : Z := if REORG_FETCH_DEPTH <? topHeight then topHeight - REORG_FETCH_DEPTH else 0.

Definition RequestForkWindow (fuel : nat) (peer : ptr) (topHeight : Z) : prog bool :=
  walk_loop fuel fuel peer (floor_of topHeight) topHeight.

(** ** The window *)

Record in_flight := mkFlight { requestedHeight : Z; retryCount : Z; sentAtMs : Z }.

Record window := mkWindow {
  nextReq : Z; inFlight : list in_flight; expectedPrevHash : bytes;
  forkPointLocated : bool; pooledSinceAttach : Z; forkProbes : Z
}.

Definition with_next (v : window) (n : Z) (l : list in_flight) : window :=
  mkWindow n l (expectedPrevHash v) (forkPointLocated v) (pooledSinceAttach v) (forkProbes v).
Definition with_flights (v : window) (l : list in_flight) : window := with_next v (nextReq v) l.
Definition with_expected (v : window) (h : bytes) : window :=
  mkWindow (nextReq v) (inFlight v) h (forkPointLocated v) (pooledSinceAttach v) (forkProbes v).
Definition with_fork (v : window) (located : bool) (pooled probes : Z) : window :=
  mkWindow (nextReq v) (inFlight v) (expectedPrevHash v) located pooled probes.

(** Removing entry [i] by shifting left. *)
Definition drop_entry (i : nat) (l : list in_flight) : list in_flight := take i l ++ drop (S i) l.

(** Requests until the window is full, the end is reached or a send fails. *)
Fixpoint fill_window (n : nat) (peer : ptr) (stop : Z) (v : window) : prog window :=
  match n with
  | O => ret v
  | S n =>
      if nextReq v <? stop then
        let* sent := send_fetch peer (nextReq v) in
        if negb sent then ret v
        else let* now := get_current_time_ms in
             fill_window n peer stop (with_next v (nextReq v +u64 1) (inFlight v ++ [mkFlight (nextReq v) 0 now]))
      else ret v
  end.

(** The hash of the tip after the chain may have moved. *)
Definition refresh_expected (v : window) : prog window :=
  let* size := chain_size in
  if 0 <? size then
    let* size := chain_size in
    let* tip := get_block (u64 (size - 1)) in
    ret (match tip with Some b => with_expected v (Block_CalculateHash b) | None => v end)
  else ret (with_expected v (zeros 32)).

(** A block on our chain at a requested height. *)
Definition on_applied (fuel : nat) (peer : ptr) (force : bool) (v : window) (i : nat) (h : Z) : prog window :=
  let* fetched := get_block h in
  match fetched with
  | None => ret (with_flights v (drop_entry i (inFlight v)))
  | Some fetched =>
      if negb (memeq (prevHash (header fetched)) (expectedPrevHash v)) then
        RequestForkWindow fuel peer h ;;
        attempt_attach force ;;
        let* size := chain_size in
        refresh_expected (with_next v size [])
      else ret (with_flights (with_expected v (Block_CalculateHash fetched)) (drop_entry i (inFlight v)))
  end.

(** An answer that did not extend our chain, the fork point being known: drop it from the window, and
    try to adopt the branch once per window-full. *)
Definition on_pooled (force : bool) (v : window) (i : nat) : prog window :=
  let v := with_flights v (drop_entry i (inFlight v)) in
  let pooled := pooledSinceAttach v +u64 1 in
  if Z.of_nat MAX_PARALLEL_FETCHES <=? pooled then
    let v := with_fork v (forkPointLocated v) 0 (forkProbes v) in
    let* attached := attempt_attach force in
    if (0 <? attached)%nat then
      let* size := chain_size in
      refresh_expected (with_fork (with_next v size []) false 0 (forkProbes v))
    else ret v
  else ret (with_fork v (forkPointLocated v) pooled (forkProbes v)).

(** The window after an answer, and whether it counts as progress. *)
Definition on_answer (fuel : nat) (peer : ptr) (force : bool) (stop : Z) (v : window) (i : nat) (h : Z) (progressed : bool) : prog (window * bool) :=
  if forkPointLocated v then let* v := on_pooled force v i in ret (v, true)
  else
    let* located := RequestForkWindow fuel peer h in
    let v := with_fork v located (pooledSinceAttach v) (forkProbes v + 1) in
    if negb located then ret (with_next v stop [], progressed)
    else let* v := on_pooled force v i in ret (v, true).

(** The poll over the requests in flight, [k] of them left from index [i] on.  A completion ends the
    poll; a timed-out request is sent again and the poll goes on. *)
Fixpoint poll_loop (k : nat) (fuel : nat) (peer : ptr) (force : bool) (stop now : Z) (v : window) (i : nat) (progressed : bool) : prog (window * bool) :=
  match k, inFlight v !! i with
  | S k, Some e =>
      let h := requestedHeight e in
      let* size := chain_size in
      if h <? size then let* v := on_applied fuel peer force v i h in ret (v, true)
      else
        let* delivery := take_delivery h in
        match delivery with
        | Some NODE_DELIVERY_APPENDED | None =>
            let elapsed := if sentAtMs e <? now then now - sentAtMs e else 0 in
            if SYNC_REQUEST_TIMEOUT_MS <? elapsed then
              if retryCount e <? MAX_SYNC_RETRIES then
                sleep_for_milliseconds (SYNC_BACKOFF_BASE_MS * 2 ^ retryCount e) ;;
                let* sent := send_fetch peer h in
                if sent then
                  let* again := get_current_time_ms in
                  poll_loop k fuel peer force stop now
                    (with_flights v (<[i := mkFlight h (retryCount e + 1) again]> (inFlight v))) (S i) true
                else
                  poll_loop k fuel peer force stop now
                    (with_flights v (<[i := mkFlight h (retryCount e + 1) (sentAtMs e)]> (inFlight v))) (S i) progressed
              else ret (with_flights v [], progressed)
            else poll_loop k fuel peer force stop now v (S i) progressed
        | Some _ => on_answer fuel peer force stop v i h progressed
        end
  | _, _ => ret (v, progressed)
  end.

Fixpoint window_loop (rounds fuel : nat) (peer : ptr) (force : bool) (stop : Z) (v : window) : prog window :=
  if negb ((nextReq v <? stop) || (0 <? length (inFlight v))%nat) then ret v
  else match rounds with
  | O => out_of_fuel
  | S rounds =>
      let* v := fill_window (MAX_PARALLEL_FETCHES - length (inFlight v)) peer stop v in
      if (length (inFlight v) =? 0)%nat then sleep_for_milliseconds 100 ;; window_loop rounds fuel peer force stop v
      else
        let* now := get_current_time_ms in
        let* polled := poll_loop (length (inFlight v)) fuel peer force stop now v 0 false in
        let '(v, progressed) := polled in
        (if progressed then ret tt else sleep_for_milliseconds 50) ;;
        window_loop rounds fuel peer force stop v
  end.

(** ** The command *)

(** The hash the next block should name, at the start of a pass. *)
Definition initial_expected (localHeight : Z) : prog bytes :=
  if 0 <? localHeight then
    let* last := get_block (localHeight - 1) in
    ret (match last with Some b => Block_CalculateHash b | None => zeros 32 end)
  else ret (zeros 32).

(** The advertised height of the peer, where it still has a slot. *)
Definition refresh_peer_height (peer : ptr) (peerHeight : Z) : prog Z :=
  look (fun _ s => match list_find (fun c => connection c = Some peer) (outboundClients (sy_net s)) with
                   | Some (_, c) => peerBlockHeight c
                   | None => peerHeight
                   end).

Fixpoint sync_loop (passes fuel : nat) (peer : ptr) (force : bool) (peerHeight : Z) (located : bool) (pooled probes : Z) : prog unit :=
  match passes with
  | O => out_of_fuel
  | S passes =>
      let* localHeight := chain_size in
      let* expected := initial_expected localHeight in
      let* v := window_loop fuel fuel peer force peerHeight (mkWindow localHeight [] expected located pooled probes) in
      (if 0 <? pooledSinceAttach v then attempt_attach force ;; ret tt else ret tt) ;;
      let* newLocal := chain_size in
      if peerHeight <=? newLocal then ret tt
      else
        let* peerHeight := refresh_peer_height peer peerHeight in
        if negb (localHeight <? newLocal) then
          if (newLocal <? peerHeight) && (forkProbes v <? MAX_FORK_PROBE_ROUNDS) then
            let* foundCommon := RequestForkWindow fuel peer newLocal in
            let* attached := (if foundCommon then attempt_attach force else ret 0%nat) in
            if (0 <? attached)%nat then sync_loop passes fuel peer force peerHeight (forkPointLocated v) 0 (forkProbes v + 1)
            else ret tt
          else ret tt
        else
          let* size := chain_size in
          if peerHeight <=? size then ret tt
          else sync_loop passes fuel peer force peerHeight (forkPointLocated v) 0 (forkProbes v)
  end.

Definition sync (fuel : nat) (force : bool) : prog unit :=
  let* best := access (fun _ s => let '(r, n) := Node_GetBestOutboundPeer (sy_net s) in (r, with_net s n)) in
  match best with
  | None => ret tt
  | Some (peer, peerHeight) =>
      access (fun _ s => (tt, with_deliveries s Node_ResetBlockDeliveries)) ;;
      sync_loop fuel fuel peer force peerHeight false 0 0 ;;
      access (fun _ s => (tt, with_net s (on_conn TcpConnection_Unpin peer (sy_net s))))
  end.
End Sync.

(** ** The chain moves by its own operations *)

Section Steps.
Context {ops : CryptoOps} `{AddrText} {alaws : AddrTextLaws _} {sockets : Sockets} {slaws : SocketLaws sockets}.
Context (clock : node -> nat -> Z) (cfg : config).

Abbreviation moves s s' := (rtc live_step (chain_of s) (chain_of s')).

Lemma on_disc_chain f s : chain_of (on_disc f s) = chain_of s.
Proof. unfold on_disc. by destruct (sy_disc s). Qed.

Lemma identity_chain s p : chain_of (snd (Node_CheckPeerIdentity cfg s p)) = chain_of s.
Proof.
  unfold Node_CheckPeerIdentity. destruct (conns (sy_net s) !! p) as [c|]; [|done]. destruct (peerNodeId c =? 0); [done|].
  destruct (peerNodeId c =? g_localNodeId cfg); destruct (Node_ConnListenEndpoint c); cbn [snd]; try destruct (Node_HasOtherConnectionToNode _ _ _ _);
    cbn [snd]; by rewrite ?on_disc_chain.
Qed.

Lemma hello_chain s p payload : chain_of (on_hello cfg s p payload) = chain_of s.
Proof.
  unfold on_hello. destruct (read_hello payload) as [h|]; [|done]. set (s1 := send _ _ _ _). pose proof (identity_chain s1 p) as E.
  destruct (Node_CheckPeerIdentity cfg s1 p) as [[] s2]; cbn [snd] in E; try exact E.
  destruct (mbind _ _) as [ep|]; [|exact E]. by destruct (Node_HasOtherInboundFrom _ _ _).
Qed.

Lemma ack_hello_chain s p payload : chain_of (on_ack_hello cfg s p payload) = chain_of s.
Proof.
  unfold on_ack_hello. destruct (read_hello payload) as [h|]; [|done]. set (s1 := with_net _ _). pose proof (identity_chain s1 p) as E.
  destruct (Node_CheckPeerIdentity cfg s1 p) as [[] s2]; cbn [snd] in E; exact E.
Qed.

Lemma on_data_moves s p data now random : moves s (on_data clock cfg s p data now random).
Proof.
  assert (Hs : forall s', safe cfg None s s' -> moves s s') by (by intros s' [_ H']). unfold on_data.
  destruct (conns (sy_net s) !! p) as [c|]; [|apply rtc_refl].
  destruct (role c); unfold Node_Server_OnData, Node_Client_OnData; (destruct (Node_DecodePacket data) as [[t payload]|]; [|apply rtc_refl]);
    repeat match goal with |- context [if ?b then _ else _] => destruct b end;
    first [apply rtc_refl|rewrite hello_chain; apply rtc_refl|rewrite ack_hello_chain; apply rtc_refl|apply Hs;
      first [apply error_close_safe|apply fetch_safe|apply broadcast_server_safe|apply broadcast_client_safe|apply block_data_safe
            |apply transaction_safe|apply get_peers_safe|apply peers_safe]].
Qed.

Lemma handle_moves s e : moves s (handle clock cfg s e).
Proof.
  assert (Hs : forall s', safe cfg None s s' -> moves s s') by (by intros s' [_ H']).
  destruct e as [p a|p chunk now random|p|ip port|buf from now|now|now nonces]; cbn [handle].
  - unfold server_accept. destruct (TcpServer_accept (sy_net s) p a) as [n|]; [|apply rtc_refl]. apply (server_connect_safe cfg None (with_net s n)).
  - unfold io_recv. destruct (conns (sy_net s) !! p) as [c|]; [|apply rtc_refl]. destruct (disconnectedNotified c); [apply rtc_refl|].
    destruct (TcpConnection_FeedFramedData (stream c) chunk) as [[rc frames] st]. set (s1 := with_net s _). change (chain_of s) with (chain_of s1).
    assert (Hf : moves s1 (fold_left (fun s frame => on_data clock cfg s p frame now random) frames s1)).
    { generalize s1. induction frames as [|f r IH]; intros s2; [apply rtc_refl|]. cbn [fold_left]. etrans; [apply on_data_moves|apply IH]. }
    destruct (rc =? 0); [exact Hf|]. etrans; [exact Hf|]. apply (io_exit_safe cfg None).
  - apply Hs. unfold io_eof. destruct (conns (sy_net s) !! p) as [c|]; [|by split; [|apply rtc_refl]].
    destruct (disconnectedNotified c); [by split; [|apply rtc_refl]|apply io_exit_safe].
  - apply Hs, connect_peer_safe.
  - apply Hs, udp_packet_safe.
  - apply Hs, udp_retry_safe.
  - apply Hs, maintenance_safe.
Qed.

Lemma run_moves s s' : rtc (sys_step clock cfg) s s' -> moves s s'.
Proof. induction 1 as [s|s s1 s2 Hs _ IH]; [apply rtc_refl|]. destruct Hs as [s e _]. etrans; [apply handle_moves|exact IH]. Qed.
End Steps.

Section Safety.
Context {ops : CryptoOps} `{AddrText} {alaws : AddrTextLaws _} {sockets : Sockets} {slaws : SocketLaws sockets} {env : Environment}.
Context (clock : node -> nat -> Z) (cfg : config).
Context (Hothers : forall n s, rtc (sys_step clock cfg) s (others n s)).

Definition keeps {A} (m : prog A) : Prop := forall w, rtc live_step (chain_of (w_sys w)) (chain_of (w_sys (snd (m w)))).

Lemma keeps_ret {A} (x : A) : keeps (ret x).
Proof. intros w. apply rtc_refl. Qed.

Lemma keeps_fuel {A} : keeps (@out_of_fuel A).
Proof. intros w. apply rtc_refl. Qed.

Lemma keeps_bind {A B} (m : prog A) (k : A -> prog B) : keeps m -> (forall x, keeps (k x)) -> keeps (bind m k).
Proof.
  intros Hm Hk w. specialize (Hm w). unfold bind. destruct (m w) as [[x|] w1]; cbn [snd] in *; [|exact Hm]. etrans; [exact Hm|apply Hk].
Qed.

Lemma keeps_access {A} (f : nat -> system -> A * system) :
  (forall n s, rtc live_step (chain_of s) (chain_of (snd (f n s)))) -> keeps (access f).
Proof.
  intros Hf w. unfold access. specialize (Hf (w_access w) (others (w_access w) (w_sys w))). destruct (f _ _) as [x s]. cbn [snd w_sys] in *.
  etrans; [apply (run_moves clock cfg _ _ (Hothers (w_access w) (w_sys w)))|exact Hf].
Qed.

Lemma keeps_look {A} (f : nat -> system -> A) : keeps (look f).
Proof. apply keeps_access. intros n s. apply rtc_refl. Qed.

Lemma keeps_now {A} (f : Z -> system -> A) : keeps (look_now f).
Proof. intros w. apply (keeps_look (fun _ s => f (clock_of w) s) w). Qed.

Lemma keeps_sleep ms : keeps (sleep_for_milliseconds ms).
Proof. intros w. apply (keeps_look (fun _ _ => tt) (mkWorld (w_sys w) (w_access w) (w_slept w + ms))). Qed.

Lemma keeps_send peer h : keeps (send_fetch peer h).
Proof. apply keeps_access. intros n s. destruct (Node_SendPacket _ _ _ _ _). apply rtc_refl. Qed.

Lemma keeps_take h : keeps (take_delivery h).
Proof. apply keeps_access. intros n s. destruct (Node_TakeBlockDelivery _ _). apply rtc_refl. Qed.

Lemma keeps_attach force : keeps (attempt_attach clock force).
Proof.
  apply keeps_access. intros n s. pose proof (AttemptAttach_progress clock (fun _ => True) live_step ltac:(constructor) ltac:(constructor)
    (st_chain (sy_store s)) (st_orphans (sy_store s)) force ltac:(by apply Forall_forall)) as Hp.
  cbv zeta.
  destruct (OrphanPool_AttemptAttachForced _ _ _ _) as [[k st] pool]. exact (proj1 Hp).
Qed.

Create HintDb sync.
#[local] Hint Resolve keeps_ret keeps_fuel keeps_look keeps_now keeps_sleep keeps_send keeps_take keeps_attach : sync.

(** Binds, branches and the accesses above. *)
Ltac keep :=
  repeat (cbv zeta; match goal with
  | |- keeps (bind _ _) => apply keeps_bind; [|intros]
  | |- keeps (match ?x with _ => _ end) => destruct x
  | |- keeps (let '(_, _) := ?x in _) => destruct x
  end); auto with sync.

Lemma keeps_fill_batch n peer floor next batch : keeps (fill_batch n peer floor next batch).
Proof. revert next batch; induction n as [|n IH]; intros next batch; cbn [fill_batch]; keep. Qed.

Lemma keeps_take_round l : keeps (take_round l).
Proof. induction l as [|[h [r|]] l IH]; cbn [take_round]; keep. Qed.

Lemma keeps_wait fuel deadline l : keeps (wait_loop fuel deadline l).
Proof. revert l; induction fuel as [|f IH]; intros l; cbn [wait_loop]; pose proof keeps_take_round; unfold get_current_time_ms; keep. Qed.

Lemma keeps_walk rounds fuel peer floor next : keeps (walk_loop rounds fuel peer floor next).
Proof.
  revert next; induction rounds as [|r IH]; intros next; cbn [walk_loop]; [auto with sync|].
  pose proof keeps_fill_batch. pose proof keeps_wait. unfold get_current_time_ms. keep.
Qed.

Lemma keeps_fork_window fuel peer top : keeps (RequestForkWindow fuel peer top).
Proof. apply keeps_walk. Qed.
#[local] Hint Resolve keeps_fork_window : sync.

Lemma keeps_fill_window n peer stop v : keeps (fill_window n peer stop v).
Proof. revert v; induction n as [|n IH]; intros v; cbn [fill_window]; unfold get_current_time_ms; keep. Qed.

Lemma keeps_refresh v : keeps (refresh_expected v).
Proof. unfold refresh_expected, chain_size, get_block. keep. Qed.
#[local] Hint Resolve keeps_fill_window keeps_refresh : sync.

Lemma keeps_applied fuel peer force v i h : keeps (on_applied clock fuel peer force v i h).
Proof. unfold on_applied, chain_size, get_block. keep. Qed.

Lemma keeps_pooled force v i : keeps (on_pooled clock force v i).
Proof. unfold on_pooled, chain_size. keep. Qed.
#[local] Hint Resolve keeps_applied keeps_pooled : sync.

Lemma keeps_answer fuel peer force stop v i h progressed : keeps (on_answer clock fuel peer force stop v i h progressed).
Proof. unfold on_answer. keep. Qed.
#[local] Hint Resolve keeps_answer : sync.

Lemma keeps_poll k fuel peer force stop now v i progressed : keeps (poll_loop clock k fuel peer force stop now v i progressed).
Proof.
  revert v i progressed; induction k as [|k IH]; intros v i progressed; cbn [poll_loop]; [auto with sync|].
  unfold chain_size, get_current_time_ms. keep.
Qed.
#[local] Hint Resolve keeps_poll : sync.

Lemma keeps_window rounds fuel peer force stop v : keeps (window_loop clock rounds fuel peer force stop v).
Proof. revert v; induction rounds as [|r IH]; intros v; cbn [window_loop]; unfold get_current_time_ms; keep. Qed.
#[local] Hint Resolve keeps_window : sync.

Lemma keeps_sync_loop passes fuel peer force ph located pooled probes : keeps (sync_loop clock passes fuel peer force ph located pooled probes).
Proof.
  revert ph located pooled probes; induction passes as [|n IH]; intros ph located pooled probes; cbn [sync_loop]; [auto with sync|].
  unfold chain_size, initial_expected, get_block, refresh_peer_height. keep.
Qed.

Lemma keeps_sync fuel force : keeps (sync clock fuel force).
Proof.
  unfold sync. apply keeps_bind.
  { apply keeps_access. intros n s. destruct (Node_GetBestOutboundPeer (sy_net s)). apply rtc_refl. }
  intros [[peer ph]|]; [|auto with sync]. pose proof keeps_sync_loop. keep; apply keeps_access; intros; apply rtc_refl.
Qed.
End Safety.

(** ** The walk back terminates *)

Section Termination.
Context {env : Environment}.

(** Between two accesses the clock may stand still, but it does not go back. *)
Definition clock_steady : Prop := forall n, time_at n <= time_at (S n).

Context (Hclock : clock_steady).

Lemma time_later n m : (n <= m)%nat -> time_at n <= time_at m.
Proof. intros Hle. induction Hle as [|m _ IH]; [done|]. etrans; [exact IH|apply Hclock]. Qed.

(** A program that always returns, and sleeps for at least [k] milliseconds. *)
Definition returns {A} (k : Z) (m : prog A) (w : world) (Q : A -> Prop) : Prop :=
  exists x w', m w = (Some x, w') /\ (w_access w <= w_access w')%nat /\ w_slept w + k <= w_slept w' /\ Q x.

Lemma clock_later w w' k : (w_access w <= w_access w')%nat -> w_slept w + k <= w_slept w' -> clock_of w + k <= clock_of w'.
Proof. intros Ha Hs. unfold clock_of. pose proof (time_later _ _ Ha). lia. Qed.

Lemma returns_ret {A} (x : A) w (Q : A -> Prop) : Q x -> returns 0 (ret x) w Q.
Proof. intros HQ. exists x, w. split; [done|]. split; [lia|]. split; [lia|done]. Qed.

Lemma returns_access {A} (f : nat -> system -> A * system) w (Q : A -> Prop) :
  Q (fst (f (w_access w) (others (w_access w) (w_sys w)))) -> returns 0 (access f) w Q.
Proof.
  intros HQ. unfold returns, access. destruct (f (w_access w) (others (w_access w) (w_sys w))) as [x s]. eexists _, _. split; [done|].
  cbn [w_access w_slept fst] in *. split; [lia|]. split; [lia|done].
Qed.

Lemma returns_time w : returns 0 get_current_time_ms w (fun t => t = clock_of w).
Proof. by apply returns_access. Qed.

Lemma returns_sleep ms w : returns ms (sleep_for_milliseconds ms) w (fun _ => True).
Proof. eexists _, _. split; [done|]. cbn [w_access w_slept]. split; [lia|]. split; [lia|done]. Qed.

Lemma returns_bind {A B} j k (m : prog A) (f : A -> prog B) w (P : A -> Prop) (Q : B -> Prop) :
  returns j m w P ->
  (forall x w', P x -> (w_access w <= w_access w')%nat -> w_slept w + j <= w_slept w' -> returns k (f x) w' Q) ->
  returns (j + k) (bind m f) w Q.
Proof.
  intros (x & w1 & E & Ha & Hs & Hx) Hf. destruct (Hf x w1 Hx Ha Hs) as (y & w2 & E2 & Ha2 & Hs2 & Hy).
  exists y, w2. unfold bind. rewrite E. split; [exact E2|]. split; [lia|]. split; [lia|done].
Qed.

Lemma returns_weaken {A} j k (m : prog A) w (P Q : A -> Prop) :
  returns j m w P -> k <= j -> (forall x, P x -> Q x) -> returns k m w Q.
Proof. intros (x & w1 & E & Ha & Hs & Hx) Hk HPQ. exists x, w1. split; [done|]. split; [lia|]. split; [lia|auto]. Qed.

Lemma take_round_returns l w : returns 0 (take_round l) w (fun _ => True).
Proof.
  revert w; induction l as [|[h [r|]] l IH]; intros w; cbn [take_round]; [by apply returns_ret| |].
  - apply (returns_bind 0 0 _ _ _ (fun _ => True)); [apply IH|]. intros x w' _ _ _. by apply returns_ret.
  - apply (returns_bind 0 0 _ _ _ (fun _ => True)); [unfold take_delivery; by apply returns_access|]. intros r w' _ _ _.
    apply (returns_bind 0 0 _ _ _ (fun _ => True)); [apply IH|]. intros x w'' _ _ _. by apply returns_ret.
Qed.

(** Every round that finds an answer missing sleeps for 20 ms; one that finds all of them is the last. *)
Lemma wait_returns fuel deadline l w :
  deadline <= clock_of w + 20 * Z.of_nat fuel -> returns 0 (wait_loop (S fuel) deadline l) w (fun _ => True).
Proof.
  revert l w; induction fuel as [|f IH]; intros l w Hd; cbn [wait_loop]; (destruct (outstanding l =? 0)%nat eqn:El; [by apply returns_ret|]);
    (apply (returns_bind 0 0 _ _ _ (fun t => t = clock_of w)); [apply returns_time|]); intros now w' -> Ha Hs.
  - rewrite (proj2 (Z.leb_le _ _)) by lia. by apply returns_ret.
  - destruct (deadline <=? clock_of w); [by apply returns_ret|].
    apply (returns_bind 0 0 _ _ _ (fun _ => True)); [apply take_round_returns|]. intros l' w1 _ Ha1 Hs1.
    destruct (0 <? outstanding l')%nat eqn:E.
    + eapply (returns_weaken (20 + 0) 0 _ _ (fun _ => True)); [|lia|done]. eapply (returns_bind 20 0); [apply returns_sleep|]. intros _ w2 _ Ha2 Hs2.
      apply IH. pose proof (clock_later w w2 20 ltac:(lia) ltac:(lia)). lia.
    + apply (returns_bind 0 0 _ _ _ (fun _ => True)); [by apply returns_ret|]. intros _ w2 _ _ _. apply Nat.ltb_ge in E.
      cbn [wait_loop]. rewrite (proj2 (Nat.eqb_eq _ _)) by lia. by apply returns_ret.
Qed.

Lemma fill_batch_returns n peer floor next batch w :
  0 <= floor <= next -> next < 2 ^ 64 ->
  returns 0 (fill_batch n peer floor next batch) w (fun r => let '(_, next', exhausted) := r in
    exhausted = false -> next' = next - Z.of_nat n /\ floor <= next').
Proof.
  revert next batch w; induction n as [|n IH]; intros next batch w Hf Hn; cbn [fill_batch].
  { apply returns_ret. lia. }
  apply (returns_bind 0 0 _ _ _ (fun _ => True)); [by apply returns_access|]. intros sent w' _ _ _.
  destruct (negb sent); [by apply returns_ret|]. destruct (Z.eqb_spec next floor); [by apply returns_ret|].
  rewrite u64_small by (unfold_cint; lia). eapply returns_weaken; [apply IH; lia|lia|].
  intros [[b next'] ex] Hx Hex. destruct (Hx Hex). lia.
Qed.

Lemma walk_returns rounds fuel peer floor next w :
  0 <= floor <= next -> next < 2 ^ 64 -> (forall n, 0 <= time_at n) -> 0 <= w_slept w -> next - floor < 8 * Z.of_nat rounds ->
  SYNC_REQUEST_TIMEOUT_MS <= 20 * Z.of_nat fuel ->
  returns 0 (walk_loop rounds (S fuel) peer floor next) w (fun _ => True).
Proof.
  intros Hf Hn Ht Hw Hr Hfuel. revert next w Hf Hn Hw Hr; induction rounds as [|r IH]; intros next w Hf Hn Hw Hr; [lia|]. cbn [walk_loop].
  apply (returns_bind 0 0 _ _ _ (fun r => let '(_, next', exhausted) := r in
    exhausted = false -> next' = next - Z.of_nat MAX_PARALLEL_FETCHES /\ floor <= next')); [by apply fill_batch_returns|].
  intros [[batch next'] ex] w1 Hex Ha1 Hs1. destruct (length batch =? 0)%nat; [by apply returns_ret|].
  apply (returns_bind 0 0 _ _ _ (fun t => t = clock_of w1)); [apply returns_time|]. intros now w2 -> Ha2 Hs2.
  apply (returns_bind 0 0 _ _ _ (fun _ => True)).
  - apply wait_returns. pose proof (clock_later w1 w2 0 ltac:(lia) ltac:(lia)) as Hlater.
    assert (Hc : 0 <= clock_of w1) by (unfold clock_of; specialize (Ht (w_access w1)); lia). unfold SYNC_REQUEST_TIMEOUT_MS in *.
    assert (Hm : u64 (clock_of w1 + 5000) <= clock_of w1 + 5000) by (apply Z.mod_le; lia). lia.
  - intros l w3 _ Ha3 Hs3. destruct (existsb shared l); [by apply returns_ret|]. destruct (0 <? outstanding l)%nat; [by apply returns_ret|].
    destruct ex; [by apply returns_ret|]. destruct (Hex eq_refl) as [-> Hfl]. apply IH; [lia|lia|lia|]. unfold MAX_PARALLEL_FETCHES in *. lia.
Qed.
End Termination.

(** ** A peer that no longer takes requests *)

Section Hang.
Context {ops : CryptoOps} {env : Environment} (clock : node -> nat -> Z).

Definition refuses (peer : ptr) : Prop := forall n height, takes n peer (PACKET_TYPE_FETCH_BLOCK :: le_bytes 8 height) = false.

Lemma send_refused peer h w : refuses peer -> exists w', send_fetch peer h w = (Some false, w').
Proof.
  intros Hr. unfold send_fetch, access, Node_SendPacket. destruct (negb _); [by eexists|]. destruct (_ <? _); [by eexists|].
  rewrite Hr. by eexists.
Qed.

Lemma fill_refused n peer stop v w : refuses peer -> exists w', fill_window n peer stop v w = (Some v, w').
Proof.
  intros Hr. destruct n as [|n]; cbn [fill_window]; [by eexists|]. destruct (nextReq v <? stop); [|by eexists].
  destruct (send_refused peer (nextReq v) w Hr) as [w' E]. unfold bind. rewrite E. by eexists.
Qed.

(** With nothing in flight and blocks left to ask for, the window loop asks and sleeps for ever. *)
Lemma window_never_ends rounds fuel peer force stop v w :
  refuses peer -> nextReq v < stop -> inFlight v = [] -> fst (window_loop clock rounds fuel peer force stop v w) = None.
Proof.
  intros Hr Hn Hv. revert w; induction rounds as [|r IH]; intros w; cbn [window_loop]; rewrite (proj2 (Z.ltb_lt _ _) Hn); [done|]. cbn [orb negb].
  destruct (fill_refused (MAX_PARALLEL_FETCHES - length (inFlight v)) peer stop v w Hr) as [w1 E]. unfold bind at 1. rewrite E, Hv.
  cbn [length Nat.eqb]. unfold bind, sleep_for_milliseconds, look, access. apply IH.
Qed.

Lemma sync_never_ends passes fuel peer force ph located pooled probes w :
  refuses peer -> Z.of_nat (Chain_Size (chain_of (others (w_access w) (w_sys w)))) < ph ->
  fst (sync_loop clock passes fuel peer force ph located pooled probes w) = None.
Proof.
  intros Hr Hh. destruct passes as [|n]; [done|]. cbn [sync_loop]. unfold bind at 1, chain_size at 1, look at 1, access.
  assert (Hi : forall h w, exists e w', initial_expected h w = (Some e, w')).
  { intros h w0. unfold initial_expected, bind, get_block, look, access. destruct (0 <? h); by eexists _, _. }
  destruct (Hi (Z.of_nat (Chain_Size (chain_of (others (w_access w) (w_sys w))))) (mkWorld (others (w_access w) (w_sys w)) (S (w_access w)) (w_slept w))) as (e & w1 & E).
  unfold bind at 1. rewrite E. unfold bind at 1.
  pose proof (window_never_ends fuel fuel peer force ph (mkWindow (Z.of_nat (Chain_Size (chain_of (others (w_access w) (w_sys w))))) [] e located pooled probes) w1 Hr Hh eq_refl) as Hw.
  destruct (window_loop _ _ _ _ _ _ _ w1) as [[v|] w2]; done.
Qed.
End Hang.

(** ** A node with one outbound peer that is a block ahead *)

Module SyncScenario.
Import Scenario NetScenario.
#[local] Existing Instances Toy.ops Toy.laws.

Definition behind : system :=
  fold_left (handle late cfg)
    [ev_connect [5; 0; 0; 1] 9393; ev_recv 0%nat (frame_image (PACKET_TYPE_ACK_HELLO :: hello_bytes PROTO_VERSION 2 9393 7)) 0 0]
    (Node_Create node1 None true true [] 9393).

Definition block_answer : bytes := frame_image (PACKET_TYPE_BLOCK_DATA :: block_payload 1 (header block1) block1_txs).

(** The peer answers a request for its second block while we lack it. *)
Definition answering (s : system) : system :=
  match list.last (outbox (sy_net s)) with
  | Some (p, t :: _) =>
      if (t =? PACKET_TYPE_FETCH_BLOCK) && (Chain_Size (chain_of s) =? 1)%nat then io_recv late cfg s p block_answer 0 0 else s
  | _ => s
  end.

#[local] Instance responsive : Environment := {| others n s := answering s; time_at n := Z.of_nat n; takes n p frame := true |}.

Lemma answering_run n s : rtc (sys_step late cfg) s (others n s).
Proof.
  cbn [others responsive]. unfold answering. destruct (list.last _) as [[p [|t r]]|]; [apply rtc_refl| |apply rtc_refl].
  destruct (_ && _); [|apply rtc_refl]. apply rtc_once. apply (sys_event late cfg s (ev_recv p block_answer 0 0)). cbn [event_ok]. vm_decide.
Qed.

Definition at_start (s : system) : world := mkWorld s 0 0.

(** One pass brings the missing block. *)
Example sync_fetches : 
  let '(r, w) := sync late 10 false (at_start behind) in
  r = Some tt /\ map header (blocks (chain_of (w_sys w))) = [header genesis; header block1].
Proof. vm_compute. split; reflexivity. Qed.

Lemma behind_reached : rtc node_step (node_init None 5000) (chain_of behind).
Proof.
  assert (E : chain_of behind = node1) by (vm_compute; reflexivity). rewrite E. apply rtc_once, step_add.
Qed.

(** A peer that takes requests and never answers. *)
Definition mute : Environment := {| others n s := s; time_at n := 1700000000000; takes n p frame := true |}.

(** The same peer after its socket has failed. *)
Definition silent : Environment := {| others n s := s; time_at n := Z.of_nat n; takes n p frame := false |}.
End SyncScenario.
Import SyncScenario NetScenario Scenario.

(** ** Properties *)





(** C40: synchronising with a peer whose connection is gone never ends.  When the chosen peer advertised
    more blocks than the local chain has, its socket takes no more requests and nothing else moves the
    chain, the command does not return, however long it runs: each round asks, fails, sleeps and asks
    again.  (From a peer that is not ahead it returns at once.) *)
Theorem sync_hangs_on_dead_peer {ops : CryptoOps} {env : Environment} clock fuel force w peer peerHeight :
  fst (Node_GetBestOutboundPeer (sy_net (others (w_access w) (w_sys w)))) = Some (peer, peerHeight) -> refuses peer ->
  (forall n s, Chain_Size (chain_of (others n s)) = Chain_Size (chain_of s)) -> Z.of_nat (Chain_Size (chain_of (w_sys w))) < peerHeight ->
  fst (sync clock fuel force w) = None.
Proof.
  intros Hb Hr Ho Hh. unfold sync. unfold bind at 1, access at 1. destruct (Node_GetBestOutboundPeer _) as [best n]. cbn [fst] in Hb. subst best.
  unfold bind at 1, access at 1. unfold bind at 1. set (w1 := mkWorld _ _ _).
  pose proof (sync_never_ends clock fuel fuel peer force peerHeight false 0 0 w1 Hr) as Hn.
  destruct (sync_loop _ _ _ _ _ _ _ _ _ w1) as [[u|] w2]; [|done]. cbn [fst] in Hn. discriminate Hn.
  rewrite Ho. unfold w1. cbn [w_sys with_deliveries chain_of sy_store]. change (Z.of_nat (Chain_Size (chain_of (others (S (w_access w)) (with_net (others (w_access w) (w_sys w)) n)))) < peerHeight).
  rewrite Ho. change (Z.of_nat (Chain_Size (chain_of (others (w_access w) (w_sys w)))) < peerHeight). by rewrite Ho.
Qed.

Lemma sync_hangs_on_dead_peer_witness : fst (sync (env := silent) late 1000 false (at_start behind)) = None.
Proof.
  apply (@sync_hangs_on_dead_peer Toy.ops silent late 1000 false (at_start behind) 0%nat 2);
    [vm_compute; reflexivity|by intros n h|by intros n s|vm_compute; reflexivity].
Defined.
