(* ===== verification/KHash.v ===== *)
(** * The hash table ([include/khash/khash.h], [include/utils.h])

    The open-addressing table behind the balance sheet and the transaction pool, as the macros of khash
    expand it: two flag bits per bucket packed sixteen to a word, triangular probing, tombstones, the
    in-place rehash that kicks live entries out of their old buckets.  The table is generic in its
    keys, as the macro is.

    Arrays are lists; a read or write outside an array, a read of a key that was never written and a
    loop that runs out of fuel are all [None], so a theorem that an operation returns [Some] says that it
    is memory-safe and terminates.  A null array is the empty list.  Each call takes the outcome of its
    (at most three) allocations as an argument.

    The abstraction is [repr h m]: the live buckets of [h] hold exactly the entries of the finite map
    [m], and every live key is reached by probing before an empty bucket.  Every operation is shown to
    simulate the operation on finite maps. *)
From S2P Require Import Prelude Bytes.

(** ** Arrays *)

Definition rd {A} (a : list A) (i : Z) : option A := if 0 <=? i then a !! Z.to_nat i else None.

Definition wr {A} (a : list A) (i : Z) (x : A) : option (list A) :=
  if (0 <=? i) && (i <? Z.of_nat (length a)) then Some (<[Z.to_nat i := x]> a) else None.

(** [krealloc] to [n] cells: the common prefix is kept, the rest is not initialised. *)
Definition krealloc {A} (a : list (option A)) (n : Z) : list (option A) :=
  take (Z.to_nat n) a ++ replicate (Z.to_nat n - length a) None.

(** ** Flags *)

Definition flag_shift (i : Z) : Z := Z.shiftl (Z.land i 15) 1.

Definition __ac_isempty (flag : list Z) (i : Z) : option bool :=
  w ← rd flag (Z.shiftr i 4); Some (negb (Z.land (Z.shiftr w (flag_shift i)) 2 =? 0)).
Definition __ac_isdel (flag : list Z) (i : Z) : option bool :=
  w ← rd flag (Z.shiftr i 4); Some (negb (Z.land (Z.shiftr w (flag_shift i)) 1 =? 0)).
Definition __ac_iseither (flag : list Z) (i : Z) : option bool :=
  w ← rd flag (Z.shiftr i 4); Some (negb (Z.land (Z.shiftr w (flag_shift i)) 3 =? 0)).

Definition __ac_set_isempty_false (flag : list Z) (i : Z) : option (list Z) :=
  w ← rd flag (Z.shiftr i 4); wr flag (Z.shiftr i 4) (u32 (Z.land w (u64 (Z.lnot (Z.shiftl 2 (flag_shift i)))))).
Definition __ac_set_isboth_false (flag : list Z) (i : Z) : option (list Z) :=
  w ← rd flag (Z.shiftr i 4); wr flag (Z.shiftr i 4) (u32 (Z.land w (u64 (Z.lnot (Z.shiftl 3 (flag_shift i)))))).
Definition __ac_set_isdel_true (flag : list Z) (i : Z) : option (list Z) :=
  w ← rd flag (Z.shiftr i 4); wr flag (Z.shiftr i 4) (u32 (Z.lor w (Z.shiftl 1 (flag_shift i)))).

Definition __ac_fsize (m : Z) : Z := if m <? 16 then 1 else Z.shiftr m 4.

(** [memset(flags, 0xaa, ...)]: every bucket empty and not deleted. *)
Definition fresh_flags (m : Z) : list Z := replicate (Z.to_nat (__ac_fsize m)) 2863311530.

Definition kroundup32 (x : Z) : Z :=
  let x := u32 (x - 1) in
  let x := Z.lor x (Z.shiftr x 1) in
  let x := Z.lor x (Z.shiftr x 2) in
  let x := Z.lor x (Z.shiftr x 4) in
  let x := Z.lor x (Z.shiftr x 8) in
  let x := Z.lor x (Z.shiftr x 16) in
  u32 (x + 1).

(** [(khint_t)(n * 0.77 + 0.5)]: the double nearest 0.77 is 6935543426150564 / 2^53, and the product and
    sum truncate to the same integer as the exact ones for every power of two below 2^32. *)
Definition hash_upper (n : Z) : Z := (2 * n * 6935543426150564 + 2 ^ 53) / 2 ^ 54.

(** Which of the allocations of one call succeed. *)
Record alloc := mkAlloc { flags_ok : bool; keys_ok : bool; vals_ok : bool }.

Section Table.
Context {K V : Type}.
Variable hash_func : K -> Z.
Variable hash_equal : K -> K -> bool.

Record kh := mkKh {
  h_n_buckets : Z;
  h_size : Z;
  h_n_occupied : Z;
  h_upper_bound : Z;
  h_flags : list Z;
  h_keys : list (option K);
  h_vals : list (option V)
}.

Definition kh_init : kh := mkKh 0 0 0 0 [] [] [].

Definition kh_clear (h : kh) : kh :=
  match h_flags h with
  | [] => h
  | _ => mkKh (h_n_buckets h) 0 0 (h_upper_bound h) (fresh_flags (h_n_buckets h)) (h_keys h) (h_vals h)
  end.

(** The negated condition of the probing loops of [kh_get] and [kh_put]. *)
Definition probe_stop (h : kh) (key : K) (i : Z) : option bool :=
  e ← __ac_isempty (h_flags h) i;
  if e : bool then Some true else
  d ← __ac_isdel (h_flags h) i;
  if d : bool then Some false else
  k ← mjoin (rd (h_keys h) i);
  Some (hash_equal k key).

(** [i = (i + (++step)) & mask]. *)
Definition next_probe (i step mask : Z) : Z := Z.land (u32 (i + u32 (step + 1))) mask.

Fixpoint kh_get_loop (fuel : nat) (h : kh) (key : K) (mask last i step : Z) : option Z :=
  match fuel with
  | O => None
  | S fuel =>
      s ← probe_stop h key i;
      if s : bool then
        e ← __ac_iseither (h_flags h) i;
        Some (if e : bool then h_n_buckets h else i)
      else
        let i := next_probe i step mask in
        if i =? last then Some (h_n_buckets h)
        else kh_get_loop fuel h key mask last i (u32 (step + 1))
  end.

Definition kh_get (h : kh) (key : K) : option Z :=
  if h_n_buckets h =? 0 then Some 0
  else
    let mask := h_n_buckets h - 1 in
    let i := Z.land (hash_func key) mask in
    kh_get_loop (2 * Z.to_nat (h_n_buckets h)) h key mask i i 0.

(** ** Rehashing *)

(** The arrays while [kh_resize] moves entries: keys, values, the old flags and the new ones. *)
Record rehash := mkRehash {
  r_keys : list (option K);
  r_vals : list (option V);
  r_flags : list Z;
  r_new_flags : list Z
}.

(** [while (!__ac_isempty(new_flags, i)) i = (i + (++step)) & new_mask]. *)
Fixpoint find_empty (fuel : nat) (new_flags : list Z) (new_mask i step : Z) : option Z :=
  match fuel with
  | O => None
  | S fuel =>
      e ← __ac_isempty new_flags i;
      if e : bool then Some i
      else find_empty fuel new_flags new_mask (next_probe i step new_mask) (u32 (step + 1))
  end.

(** [i < h->n_buckets && __ac_iseither(h->flags, i) == 0]. *)
Definition old_live (n_buckets : Z) (flags : list Z) (i : Z) : option bool :=
  if i <? n_buckets then e ← __ac_iseither flags i; Some (negb e) else Some false.

(** The kick-out loop, for the entry in hand. *)
Fixpoint kick_out (fuel : nat) (n_buckets new_n_buckets : Z) (key : K) (val : option V) (r : rehash) : option rehash :=
  match fuel with
  | O => None
  | S fuel =>
      let new_mask := new_n_buckets - 1 in
      i ← find_empty (2 * Z.to_nat new_n_buckets) (r_new_flags r) new_mask (Z.land (hash_func key) new_mask) 0;
      nf ← __ac_set_isempty_false (r_new_flags r) i;
      live ← old_live n_buckets (r_flags r) i;
      ks ← wr (r_keys r) i (Some key);
      vs ← wr (r_vals r) i val;
      if live : bool then
        key' ← mjoin (rd (r_keys r) i);
        val' ← rd (r_vals r) i;
        fl ← __ac_set_isdel_true (r_flags r) i;
        kick_out fuel n_buckets new_n_buckets key' val' (mkRehash ks vs fl nf)
      else Some (mkRehash ks vs (r_flags r) nf)
  end.

(** [for (j = 0; j != h->n_buckets; ++j)], with [cnt] rounds to go. *)
Fixpoint rehash_loop (cnt : nat) (j n_buckets new_n_buckets : Z) (r : rehash) : option rehash :=
  match cnt with
  | O => Some r
  | S cnt =>
      e ← __ac_iseither (r_flags r) j;
      if e : bool then rehash_loop cnt (j + 1) n_buckets new_n_buckets r
      else
        key ← mjoin (rd (r_keys r) j);
        val ← rd (r_vals r) j;
        fl ← __ac_set_isdel_true (r_flags r) j;
        r ← kick_out (S (Z.to_nat n_buckets)) n_buckets new_n_buckets key val
              (mkRehash (r_keys r) (r_vals r) fl (r_new_flags r));
        rehash_loop cnt (j + 1) n_buckets new_n_buckets r
  end.

Definition set_keys (h : kh) (ks : list (option K)) : kh :=
  mkKh (h_n_buckets h) (h_size h) (h_n_occupied h) (h_upper_bound h) (h_flags h) ks (h_vals h).
Definition set_vals (h : kh) (vs : list (option V)) : kh :=
  mkKh (h_n_buckets h) (h_size h) (h_n_occupied h) (h_upper_bound h) (h_flags h) (h_keys h) vs.

(** The rehash proper, once the arrays are large enough. *)
Definition kh_rehash (a : alloc) (h : kh) (new_n_buckets : Z) : option (kh * Z) :=
  r ← rehash_loop (Z.to_nat (h_n_buckets h)) 0 (h_n_buckets h) new_n_buckets
        (mkRehash (h_keys h) (h_vals h) (h_flags h) (fresh_flags new_n_buckets));
  let shrink := new_n_buckets <? h_n_buckets h in
  let ks := if shrink then (if keys_ok a then krealloc (r_keys r) new_n_buckets else []) else r_keys r in
  let vs := if shrink then (if vals_ok a then krealloc (r_vals r) new_n_buckets else []) else r_vals r in
  Some (mkKh new_n_buckets (h_size h) (h_size h) (hash_upper new_n_buckets) (r_new_flags r) ks vs, 0).

Definition kh_resize (a : alloc) (h : kh) (new_n_buckets : Z) : option (kh * Z) :=
  let n := kroundup32 new_n_buckets in
  let n := if n <? 4 then 4 else n in
  if hash_upper n <=? h_size h then Some (h, 0)
  else if negb (flags_ok a) then Some (h, -1)
  else if h_n_buckets h <? n then
    if negb (keys_ok a) then Some (h, -1)
    else
      let h := set_keys h (krealloc (h_keys h) n) in
      if negb (vals_ok a) then Some (h, -1)
      else kh_rehash a (set_vals h (krealloc (h_vals h) n)) n
  else kh_rehash a h n.

(** ** Insertion and deletion *)

(** The probing loop of [kh_put]: the last bucket looked at, the last tombstone seen, and whether the
    loop came back to where it started. *)
Fixpoint kh_put_loop (fuel : nat) (h : kh) (key : K) (mask last i site step : Z) : option (Z * Z * bool) :=
  match fuel with
  | O => None
  | S fuel =>
      s ← probe_stop h key i;
      if s : bool then Some (i, site, false)
      else
        d ← __ac_isdel (h_flags h) i;
        let site := if d : bool then i else site in
        let i := next_probe i step mask in
        if i =? last then Some (i, site, true)
        else kh_put_loop fuel h key mask last i site (u32 (step + 1))
  end.

(** The bucket for [key]. *)
Definition kh_put_bucket (h : kh) (key : K) : option Z :=
  let n := h_n_buckets h in
  let mask := u32 (n - 1) in
  let i := Z.land (hash_func key) mask in
  e ← __ac_isempty (h_flags h) i;
  if e : bool then Some i
  else
    '(i, site, wrapped) ← kh_put_loop (2 * Z.to_nat n) h key mask i i n 0;
    let x := if wrapped : bool then site else n in
    if x =? n then
      e ← __ac_isempty (h_flags h) i;
      Some (if (e : bool) && negb (site =? n) then site else i)
    else Some x.

(** Take the bucket: [ret] is 1 for an empty bucket, 2 for a tombstone, 0 when the key is there. *)
Definition kh_put_at (h : kh) (key : K) (x : Z) : option (kh * Z * Z) :=
  e ← __ac_isempty (h_flags h) x;
  d ← __ac_isdel (h_flags h) x;
  if e : bool then
    ks ← wr (h_keys h) x (Some key);
    fl ← __ac_set_isboth_false (h_flags h) x;
    Some (mkKh (h_n_buckets h) (u32 (h_size h + 1)) (u32 (h_n_occupied h + 1)) (h_upper_bound h) fl ks (h_vals h), x, 1)
  else if d : bool then
    ks ← wr (h_keys h) x (Some key);
    fl ← __ac_set_isboth_false (h_flags h) x;
    Some (mkKh (h_n_buckets h) (u32 (h_size h + 1)) (h_n_occupied h) (h_upper_bound h) fl ks (h_vals h), x, 2)
  else Some (h, x, 0).

(** The guard at the head of [kh_put]: make room, clearing tombstones or doubling. *)
Definition kh_put_room (a : alloc) (h : kh) : option (kh * Z) :=
  if h_upper_bound h <=? h_n_occupied h then
    if u32 (Z.shiftl (h_size h) 1) <? h_n_buckets h then kh_resize a h (u32 (h_n_buckets h - 1))
    else kh_resize a h (u32 (h_n_buckets h + 1))
  else Some (h, 0).

Definition kh_put (a : alloc) (h : kh) (key : K) : option (kh * Z * Z) :=
  '(h, rc) ← kh_put_room a h;
  if rc <? 0 then Some (h, h_n_buckets h, -1)
  else
    x ← kh_put_bucket h key;
    kh_put_at h key x.

Definition kh_del (h : kh) (x : Z) : option kh :=
  if x =? h_n_buckets h then Some h
  else
    e ← __ac_iseither (h_flags h) x;
    if e : bool then Some h
    else
      fl ← __ac_set_isdel_true (h_flags h) x;
      Some (mkKh (h_n_buckets h) (u32 (h_size h - 1)) (h_n_occupied h) (h_upper_bound h) fl (h_keys h) (h_vals h)).

(** ** Iterators *)

Definition kh_exist (h : kh) (x : Z) : option bool := e ← __ac_iseither (h_flags h) x; Some (negb e).
Definition kh_key (h : kh) (x : Z) : option K := mjoin (rd (h_keys h) x).
Definition kh_value (h : kh) (x : Z) : option V := mjoin (rd (h_vals h) x).
(** [kh_value(h, x) = v]. *)
Definition kh_set_value (h : kh) (x : Z) (v : V) : option kh := vs ← wr (h_vals h) x (Some v); Some (set_vals h vs).
Definition kh_end (h : kh) : Z := h_n_buckets h.

End Table.

Arguments kh : clear implicits.
Arguments rehash : clear implicits.

(** ** Array lemmas *)

Lemma rd_Some {A} (a : list A) i : 0 <= i < Z.of_nat (length a) -> is_Some (rd a i).
Proof. intros Hi. unfold rd. zcases; [|lia]. apply lookup_lt_is_Some_2. lia. Qed.

Lemma rd_lookup {A} (a : list A) i : 0 <= i -> rd a i = a !! Z.to_nat i.
Proof. intros Hi. unfold rd. zcases; [done|lia]. Qed.

Lemma wr_Some {A} (a : list A) i x : 0 <= i < Z.of_nat (length a) -> wr a i x = Some (<[Z.to_nat i := x]> a).
Proof. intros Hi. unfold wr. zcases; try lia. done. Qed.

Lemma rd_insert {A} (a : list A) i j x :
  0 <= i < Z.of_nat (length a) -> 0 <= j -> rd (<[Z.to_nat i := x]> a) j = if decide (i = j) then Some x else rd a j.
Proof.
  intros Hi Hj. rewrite !rd_lookup by done. destruct (decide (i = j)) as [->|Hn].
  - apply list_lookup_insert_eq. lia.
  - apply list_lookup_insert_ne. lia.
Qed.

Lemma krealloc_length {A} (a : list (option A)) n : 0 <= n -> Z.of_nat (length (krealloc a n)) = n.
Proof. intros. unfold krealloc. rewrite length_app, length_take, length_replicate. lia. Qed.

Lemma krealloc_rd {A} (a : list (option A)) n i :
  0 <= i < n -> i < Z.of_nat (length a) -> rd (krealloc a n) i = rd a i.
Proof.
  intros Hi Ha. rewrite !rd_lookup by lia. unfold krealloc.
  rewrite lookup_app_l by (rewrite length_take; lia). by rewrite lookup_take_lt by lia.
Qed.

(** ** Flag lemmas

    [ebit] and [dbit] are the two flags of a bucket. *)

Definition word (fl : list Z) (i : Z) : Z := default 0 (fl !! Z.to_nat (i / 16)).
Definition ebit (fl : list Z) (i : Z) : bool := Z.testbit (word fl i) (2 * (i mod 16) + 1).
Definition dbit (fl : list Z) (i : Z) : bool := Z.testbit (word fl i) (2 * (i mod 16)).
Definition livebit (fl : list Z) (i : Z) : bool := negb (ebit fl i) && negb (dbit fl i).
Definition in_flags (fl : list Z) (i : Z) : Prop := 0 <= i < 16 * Z.of_nat (length fl).

Lemma flag_shift_eq i : flag_shift i = 2 * (i mod 16).
Proof.
  unfold flag_shift. change 15 with (Z.ones 4). rewrite Z.land_ones, Z.shiftl_mul_pow2 by lia.
  change (2 ^ 4) with 16. lia.
Qed.

Lemma rd_word fl i : in_flags fl i -> rd fl (Z.shiftr i 4) = Some (word fl i).
Proof.
  intros Hi. unfold in_flags in Hi. rewrite Z.shiftr_div_pow2 by lia. change (2 ^ 4) with 16. unfold word.
  destruct (rd_Some fl (i / 16)) as [w Hw]; [zdiv|].
  rewrite Hw. rewrite rd_lookup in Hw by zdiv. by rewrite Hw.
Qed.

Lemma land_low_bits w s : 0 <= s ->
  (Z.land (Z.shiftr w s) 2 =? 0) = negb (Z.testbit w (s + 1)) /\
  (Z.land (Z.shiftr w s) 1 =? 0) = negb (Z.testbit w s) /\
  (Z.land (Z.shiftr w s) 3 =? 0) = negb (Z.testbit w (s + 1)) && negb (Z.testbit w s).
Proof.
  intros Hs. set (x := Z.shiftr w s).
  assert (H0 : Z.testbit x 0 = Z.testbit w s) by (unfold x; rewrite Z.shiftr_spec by lia; f_equal; lia).
  assert (H1 : Z.testbit x 1 = Z.testbit w (s + 1)) by (unfold x; rewrite Z.shiftr_spec by lia; f_equal; lia).
  rewrite <- H0, <- H1. clearbody x.
  assert (E : forall m, 0 <= m < 4 -> Z.land x m = Z.land (Z.land x (Z.ones 2)) m).
  { intros m Hm. rewrite <- Z.land_assoc. f_equal. rewrite Z.land_comm, Z.land_ones by lia.
    symmetry. apply Z.mod_small. change (2 ^ 2) with 4. lia. }
  rewrite (E 2), (E 1), (E 3), Z.land_ones by lia.
  rewrite <- (Z.mod_pow2_bits_low x 2 0), <- (Z.mod_pow2_bits_low x 2 1) by lia.
  change (2 ^ 2) with 4. assert (Hx : x mod 4 = 0 \/ x mod 4 = 1 \/ x mod 4 = 2 \/ x mod 4 = 3) by zdiv.
  destruct Hx as [->|[->|[->| ->]]]; repeat split; reflexivity.
Qed.

Lemma isempty_spec fl i : in_flags fl i -> __ac_isempty fl i = Some (ebit fl i).
Proof.
  intros Hi. unfold __ac_isempty, ebit. rewrite rd_word by done. cbn. rewrite flag_shift_eq.
  destruct (land_low_bits (word fl i) (2 * (i mod 16))) as [-> _]; [zdiv|]. by rewrite negb_involutive.
Qed.

Lemma isdel_spec fl i : in_flags fl i -> __ac_isdel fl i = Some (dbit fl i).
Proof.
  intros Hi. unfold __ac_isdel, dbit. rewrite rd_word by done. cbn. rewrite flag_shift_eq.
  destruct (land_low_bits (word fl i) (2 * (i mod 16))) as (_ & -> & _); [zdiv|]. by rewrite negb_involutive.
Qed.

Lemma iseither_spec fl i : in_flags fl i -> __ac_iseither fl i = Some (negb (livebit fl i)).
Proof.
  intros Hi. unfold __ac_iseither, livebit, ebit, dbit. rewrite rd_word by done. cbn. rewrite flag_shift_eq.
  by destruct (land_low_bits (word fl i) (2 * (i mod 16))) as (_ & _ & ->); [zdiv|].
Qed.

(** Writing one word changes the two bits of one bucket and no others. *)
Lemma wr_word_bits fl i w' :
  in_flags fl i ->
  (forall b, 0 <= b < 32 -> b <> 2 * (i mod 16) -> b <> 2 * (i mod 16) + 1 -> Z.testbit w' b = Z.testbit (word fl i) b) ->
  exists fl', wr fl (Z.shiftr i 4) w' = Some fl' /\ length fl' = length fl /\
    ebit fl' i = Z.testbit w' (2 * (i mod 16) + 1) /\ dbit fl' i = Z.testbit w' (2 * (i mod 16)) /\
    (forall j, 0 <= j -> j <> i -> ebit fl' j = ebit fl j /\ dbit fl' j = dbit fl j).
Proof.
  intros Hi Hb. unfold in_flags in Hi. rewrite Z.shiftr_div_pow2 by lia. change (2 ^ 4) with 16.
  rewrite wr_Some by zdiv. eexists; split; [reflexivity|]. rewrite length_insert. split; [done|].
  assert (Hw : forall j, 0 <= j -> word (<[Z.to_nat (i / 16) := w']> fl) j = if decide (i / 16 = j / 16) then w' else word fl j).
  { intros j Hj. unfold word. rewrite <- !rd_lookup by zdiv. rewrite rd_insert by zdiv. by case_decide. }
  unfold ebit, dbit. rewrite Hw, decide_True by lia. split; [done|]. split; [done|].
  intros j Hj Hn. rewrite Hw by done. case_decide as E; [|done].
  assert (Hm : i mod 16 <> j mod 16) by zdiv. assert (Ew : word fl j = word fl i) by (unfold word; by rewrite E).
  rewrite Ew, !Hb by zdiv. done.
Qed.

Lemma clear_bits_testbit w m b : 0 <= b < 32 ->
  Z.testbit (u32 (Z.land w (u64 (Z.lnot m)))) b = Z.testbit w b && negb (Z.testbit m b).
Proof.
  intros Hb. unfold u32, u64. rewrite Z.mod_pow2_bits_low, Z.land_spec, Z.mod_pow2_bits_low, Z.lnot_spec by lia. done.
Qed.

Lemma testbit_shifted m s b : 0 <= s -> 0 <= m < 4 ->
  Z.testbit (Z.shiftl m s) b = if decide (b = s) then Z.testbit m 0 else if decide (b = s + 1) then Z.testbit m 1 else false.
Proof.
  intros Hs Hm. destruct (decide (b = s)) as [->|Hn]; [rewrite Z.shiftl_spec by lia; f_equal; lia|].
  destruct (decide (b = s + 1)) as [->|Hn'].
  - rewrite Z.shiftl_spec by lia. f_equal. lia.
  - destruct (Z.lt_ge_cases b s); [by apply Z.shiftl_spec_low|].
    rewrite Z.shiftl_spec by lia. apply (testbit_above m 2); [change (2 ^ 2) with 4; lia|lia|lia].
Qed.

Lemma set_isempty_false_spec fl i : in_flags fl i ->
  exists fl', __ac_set_isempty_false fl i = Some fl' /\ length fl' = length fl /\
    ebit fl' i = false /\ dbit fl' i = dbit fl i /\
    (forall j, 0 <= j -> j <> i -> ebit fl' j = ebit fl j /\ dbit fl' j = dbit fl j).
Proof.
  intros Hi. unfold __ac_set_isempty_false. rewrite rd_word by done. cbn. rewrite flag_shift_eq.
  edestruct (wr_word_bits fl i) as (fl' & E & Hl & He & Hd & Hr); [done| |exists fl'; rewrite E, Hl, He, Hd; split_and!; try done].
  - intros b Hb H1 H2. rewrite clear_bits_testbit, testbit_shifted by zdiv. rewrite !decide_False by done. apply andb_true_r.
  - rewrite clear_bits_testbit, testbit_shifted by zdiv. rewrite decide_False, decide_True by lia. apply andb_false_r.
  - rewrite clear_bits_testbit, testbit_shifted by zdiv. rewrite decide_True by lia. apply andb_true_r.
Qed.

Lemma set_isboth_false_spec fl i : in_flags fl i ->
  exists fl', __ac_set_isboth_false fl i = Some fl' /\ length fl' = length fl /\
    ebit fl' i = false /\ dbit fl' i = false /\
    (forall j, 0 <= j -> j <> i -> ebit fl' j = ebit fl j /\ dbit fl' j = dbit fl j).
Proof.
  intros Hi. unfold __ac_set_isboth_false. rewrite rd_word by done. cbn. rewrite flag_shift_eq.
  edestruct (wr_word_bits fl i) as (fl' & E & Hl & He & Hd & Hr); [done| |exists fl'; rewrite E, Hl, He, Hd; split_and!; try done].
  - intros b Hb H1 H2. rewrite clear_bits_testbit, testbit_shifted by zdiv. rewrite !decide_False by done. apply andb_true_r.
  - rewrite clear_bits_testbit, testbit_shifted by zdiv. rewrite decide_False, decide_True by lia. apply andb_false_r.
  - rewrite clear_bits_testbit, testbit_shifted by zdiv. rewrite decide_True by lia. apply andb_false_r.
Qed.

Lemma set_isdel_true_spec fl i : in_flags fl i ->
  exists fl', __ac_set_isdel_true fl i = Some fl' /\ length fl' = length fl /\
    ebit fl' i = ebit fl i /\ dbit fl' i = true /\
    (forall j, 0 <= j -> j <> i -> ebit fl' j = ebit fl j /\ dbit fl' j = dbit fl j).
Proof.
  intros Hi. unfold __ac_set_isdel_true. rewrite rd_word by done. cbn. rewrite flag_shift_eq.
  edestruct (wr_word_bits fl i) as (fl' & E & Hl & He & Hd & Hr); [done| |exists fl'; rewrite E, Hl, He, Hd; split_and!; try done].
  - intros b Hb H1 H2. unfold u32. rewrite Z.mod_pow2_bits_low, Z.lor_spec, testbit_shifted by zdiv.
    rewrite !decide_False by done. apply orb_false_r.
  - unfold u32. rewrite Z.mod_pow2_bits_low, Z.lor_spec, testbit_shifted by zdiv.
    rewrite decide_False, decide_True by lia. apply orb_false_r.
  - unfold u32. rewrite Z.mod_pow2_bits_low, Z.lor_spec, testbit_shifted by zdiv.
    rewrite decide_True by lia. apply orb_true_r.
Qed.

Lemma fresh_flags_bits n i : 0 <= i < 16 * __ac_fsize n -> ebit (fresh_flags n) i = true /\ dbit (fresh_flags n) i = false.
Proof.
  intros Hi. unfold ebit, dbit, word, fresh_flags. rewrite lookup_replicate_2 by zdiv. cbn [default].
  assert (Hm : 0 <= i mod 16 < 16) by zdiv.
  assert (Hc : Forall (fun r => Z.testbit 2863311530 (2 * r + 1) = true /\ Z.testbit 2863311530 (2 * r) = false) (seqZ 0 16)) by vm_decide.
  rewrite List.Forall_forall in Hc. apply Hc, list_elem_of_In, elem_of_seqZ. lia.
Qed.

(** ** Rounding and the load limit *)

(** [smeared L w y]: the top bit of [y] is [L] and the [w] bits from it downwards are set. *)
Definition smeared (L w y : Z) : Prop := 0 <= y < 2 ^ (L + 1) /\ (forall j, 0 <= j -> L - w < j <= L -> Z.testbit y j = true).

Lemma smear_step L w y : 0 <= L -> 0 < w -> smeared L w y -> smeared L (2 * w) (Z.lor y (Z.shiftr y w)).
Proof.
  intros HL Hw [Hy Hb]. split.
  - assert (Hs : 0 <= Z.shiftr y w < 2 ^ (L + 1)).
    { rewrite Z.shiftr_div_pow2 by lia. split; [apply Z.div_pos; lia|].
      apply Z.le_lt_trans with y; [|lia]. apply Z.div_le_upper_bound; [lia|]. nia. }
    split; [apply Z.lor_nonneg; lia|]. destruct (Z.eq_dec (Z.lor y (Z.shiftr y w)) 0) as [->|Hn]; [lia|].
    apply Z.log2_lt_pow2; [pose proof (proj2 (Z.lor_nonneg y (Z.shiftr y w)) ltac:(lia)); lia|]. rewrite Z.log2_lor by lia.
    assert (Hlt : forall z, 0 <= z < 2 ^ (L + 1) -> Z.log2 z < L + 1).
    { intros z Hz. destruct (Z.eq_dec z 0) as [->|]; [cbn; lia|]. apply Z.log2_lt_pow2; lia. }
    apply Z.max_lub_lt; by apply Hlt.
  - intros j H0 Hj. rewrite Z.lor_spec, Z.shiftr_spec by lia. destruct (Z.le_gt_cases j (L - w)).
    + rewrite (Hb (j + w)) by lia. apply orb_true_r.
    + by rewrite (Hb j) by lia.
Qed.

Lemma smeared_full L y : 0 <= L < 32 -> smeared L 32 y -> y + 1 = 2 ^ (L + 1).
Proof.
  intros HL [Hy Hb]. replace y with (Z.ones (L + 1)); [rewrite Z.ones_equiv; lia|].
  apply Z.bits_inj'. intros j Hj. destruct (Z.le_gt_cases j L).
  - rewrite Hb by lia. apply Z.ones_spec_low. lia.
  - rewrite Z.ones_spec_high by lia. symmetry. apply (testbit_above y (L + 1)); lia.
Qed.

Lemma smear_all L x : 0 <= L < 32 -> smeared L 1 x ->
  let x := Z.lor x (Z.shiftr x 1) in
  let x := Z.lor x (Z.shiftr x 2) in
  let x := Z.lor x (Z.shiftr x 4) in
  let x := Z.lor x (Z.shiftr x 8) in
  let x := Z.lor x (Z.shiftr x 16) in
  x + 1 = 2 ^ (L + 1).
Proof.
  intros HL Hx. cbv zeta. apply smeared_full; [done|].
  do 4 (apply (smear_step L 16) || apply (smear_step L 8) || apply (smear_step L 4) || apply (smear_step L 2); [lia..|]).
  by apply (smear_step L 1); [lia..|].
Qed.

(** [kroundup32] is the least power of two not below its argument. *)
Lemma kroundup32_spec x : 2 <= x <= 2 ^ 31 -> kroundup32 x = 2 ^ Z.log2_up x.
Proof.
  intros Hx. unfold kroundup32. cbv zeta. change (2 ^ 31) with 2147483648 in Hx.
  replace (u32 (x - 1)) with (x - 1) by (unfold_cint; zdiv).
  assert (HL : 0 <= Z.log2 (x - 1) < 31).
  { split; [apply Z.log2_nonneg|]. apply Z.log2_lt_pow2; [lia|]. change (2 ^ 31) with 2147483648. lia. }
  assert (H1 : smeared (Z.log2 (x - 1)) 1 (x - 1)).
  { split; [split; [lia|]; apply Z.log2_lt_pow2; lia|]. intros j H0 Hj. replace j with (Z.log2 (x - 1)) by lia. apply Z.bit_log2. lia. }
  rewrite (smear_all (Z.log2 (x - 1)) _ ltac:(lia) H1). rewrite Z.log2_up_eqn by lia. replace (Z.pred x) with (x - 1) by lia.
  unfold u32. apply Z.mod_small. split; [apply Z.pow_nonneg; lia|]. apply Z.pow_lt_mono_r; lia.
Qed.

(** The sizes a table can have: a power of two from 4 to 2^31. *)
Definition table_size (n : Z) : Prop := exists k, 2 <= k <= 31 /\ n = 2 ^ k.

Lemma table_size_range n : table_size n -> 4 <= n <= 2 ^ 31.
Proof.
  intros (k & Hk & ->). change 4 with (2 ^ 2). split; apply Z.pow_le_mono_r; lia.
Qed.

(** Whatever size is asked for, the table gets a power of two. *)
Lemma rounded_table_size x : is_u32 x ->
  let n := kroundup32 x in table_size (if n <? 4 then 4 else n).
Proof.
  intros Hx n. assert (H4 : table_size 4) by (exists 2; split; [lia|done]).
  destruct (Z.le_gt_cases x 1) as [H1|H1].
  { assert (Hc : x = 0 \/ x = 1) by (unfold_cint; lia). destruct Hc; subst x; exact H4. }
  destruct (Z.le_gt_cases x (2 ^ 31)) as [H2|H2].
  - subst n. rewrite kroundup32_spec by lia. zcases; [done|].
    exists (Z.log2_up x). split; [|done]. split.
    + destruct (Z.le_gt_cases 2 (Z.log2_up x)); [done|]. exfalso.
      assert (2 ^ Z.log2_up x <= 2 ^ 1) by (apply Z.pow_le_mono_r; lia). change (2 ^ 1) with 2 in *. lia.
    + rewrite <- (Z.log2_up_pow2 31) by lia. apply Z.log2_up_le_mono. lia.
  - replace n with 0; [exact H4|]. subst n. unfold kroundup32. cbv zeta.
    unfold is_u32 in Hx. change (2 ^ 31) with 2147483648 in H2. change (2 ^ 32) with 4294967296 in Hx.
    replace (u32 (x - 1)) with (x - 1) by (unfold_cint; zdiv).
    assert (HL : Z.log2 (x - 1) = 31).
    { apply Z.log2_unique; [lia|]. change (2 ^ 31) with 2147483648. change (2 ^ Z.succ 31) with 4294967296. lia. }
    assert (Hs : smeared 31 1 (x - 1)).
    { split; [change (2 ^ (31 + 1)) with 4294967296; lia|]. intros j H0 Hj. replace j with (Z.log2 (x - 1)) by lia. apply Z.bit_log2. lia. }
    by rewrite (smear_all 31 _ ltac:(lia) Hs).
Qed.

Lemma kroundup32_pred n : table_size n -> kroundup32 (u32 (n - 1)) = n.
Proof.
  intros Hn. pose proof (table_size_range n Hn) as Hr. destruct Hn as (k & Hk & E). change (2 ^ 31) with 2147483648 in Hr.
  replace (u32 (n - 1)) with (n - 1) by (unfold_cint; zdiv).
  rewrite kroundup32_spec by (change (2 ^ 31) with 2147483648; lia). subst n. f_equal.
  apply Z.log2_up_unique; [lia|]. split; [|lia]. rewrite <- (Z.succ_pred k) at 2. rewrite Z.pow_succ_r by lia.
  assert (2 ^ 1 <= 2 ^ Z.pred k) by (apply Z.pow_le_mono_r; lia). change (2 ^ 1) with 2 in *. lia.
Qed.

Lemma kroundup32_succ n : table_size n -> n < 2 ^ 31 -> kroundup32 (u32 (n + 1)) = 2 * n.
Proof.
  intros Hn Hlt. pose proof (table_size_range n Hn) as Hr. destruct Hn as (k & Hk & E). change (2 ^ 31) with 2147483648 in Hr, Hlt.
  replace (u32 (n + 1)) with (n + 1) by (unfold_cint; zdiv).
  rewrite kroundup32_spec by (change (2 ^ 31) with 2147483648; lia). subst n. rewrite <- Z.pow_succ_r by lia. f_equal.
  apply Z.log2_up_unique; [lia|]. rewrite Z.pow_succ_r by lia. replace (Z.pred (Z.succ k)) with k by lia. lia.
Qed.

Lemma table_size_double n : table_size n -> n < 2 ^ 31 -> table_size (2 * n).
Proof.
  intros (k & Hk & ->) Hlt. exists (Z.succ k). split; [|rewrite Z.pow_succ_r by lia; done].
  apply Z.pow_lt_mono_r_iff in Hlt; lia.
Qed.

(** The load limit is above half of the buckets and below all of them. *)
Lemma hash_upper_bounds n : 4 <= n -> n <= 2 * hash_upper n - 1 /\ hash_upper n < n.
Proof.
  intros Hn. unfold hash_upper. change (2 ^ 53) with 9007199254740992. change (2 ^ 54) with 18014398509481984. zdiv.
Qed.

(** ** Triangular probing *)

Definition tri (s : Z) : Z := s * (s + 1) / 2.
(** The bucket looked at in round [s] for hash value [h]. *)
Definition probe (n h s : Z) : Z := (h + tri s) mod n.

Lemma tri_double s : 2 * tri s = s * (s + 1).
Proof.
  unfold tri. assert (H : (s * (s + 1)) mod 2 = 0); [|zdiv].
  destruct (Z.Even_or_Odd s) as [[q ->]|[q ->]].
  - replace (2 * q * (2 * q + 1)) with (q * (2 * q + 1) * 2) by ring. apply Z.mod_mul. lia.
  - replace ((2 * q + 1) * (2 * q + 1 + 1)) with ((2 * q + 1) * (q + 1) * 2) by ring. apply Z.mod_mul. lia.
Qed.

Lemma probe_range n h s : 0 < n -> 0 <= probe n h s < n.
Proof. intros. apply Z.mod_pos_bound. lia. Qed.

Lemma land_mask n x : table_size n -> Z.land (u32 x) (n - 1) = x mod n.
Proof.
  intros (k & Hk & ->). replace (2 ^ k - 1) with (Z.ones k) by (rewrite Z.ones_equiv; lia). rewrite Z.land_ones by lia.
  unfold u32. replace (2 ^ 32) with (2 ^ k * 2 ^ (32 - k)) by (rewrite <- Z.pow_add_r by lia; f_equal; lia).
  rewrite Z.rem_mul_r by (try apply Z.pow_nonzero; try apply Z.pow_pos_nonneg; lia).
  rewrite Z.mul_comm, Z.mod_add by (apply Z.pow_nonzero; lia). apply Z.mod_mod. apply Z.pow_nonzero; lia.
Qed.

Lemma probe_start n h : table_size n -> Z.land h (n - 1) = probe n h 0.
Proof.
  intros (k & Hk & ->). unfold probe. change (tri 0) with 0. rewrite Z.add_0_r.
  rewrite <- Z.land_ones by lia. f_equal. rewrite Z.ones_equiv. lia.
Qed.

Lemma probe_next n h s : table_size n -> 0 <= s < 2 ^ 32 - 1 -> next_probe (probe n h s) s (n - 1) = probe n h (s + 1).
Proof.
  intros Hn Hs. unfold next_probe. rewrite land_mask by done. unfold u32. rewrite (Z.mod_small (s + 1)) by lia.
  unfold probe. rewrite Zplus_mod_idemp_l. f_equal. pose proof (tri_double s). pose proof (tri_double (s + 1)). lia.
Qed.

Lemma pow2_divide_odd_factor k a b : 0 <= k -> Z.Odd b -> (2 ^ k | a * b) -> (2 ^ k | a).
Proof.
  intros Hk [q ->]. revert a. pattern k. apply natlike_ind; [intros a _; apply Z.divide_1_l| |done].
  clear k Hk. intros k Hk IH a [c Hc]. rewrite Z.pow_succ_r in Hc |- * by done.
  destruct (Z.Even_or_Odd a) as [[a' ->]|[a' ->]]; [|exfalso; lia].
  apply Z.mul_divide_mono_l, IH. exists c. lia.
Qed.

(** The first [n] probes are distinct. *)
Lemma probe_inj n h s t : table_size n -> 0 <= t -> t < s -> s < n -> probe n h s <> probe n h t.
Proof.
  intros Hn Ht Hts Hs E. pose proof (table_size_range n Hn) as Hr. destruct Hn as (k & Hk & En).
  assert (Hd : (n | tri s - tri t)).
  { unfold probe in E. apply Z.mod_divide; [lia|]. replace (tri s - tri t) with ((h + tri s) - (h + tri t)) by ring.
    rewrite Zminus_mod, E, Z.sub_diag. apply Z.mod_0_l. lia. }
  assert (Hd2 : (2 ^ (k + 1) | (s - t) * (s + t + 1))).
  { destruct Hd as [q Hq]. exists q. rewrite Z.pow_add_r by lia. rewrite <- En.
    pose proof (tri_double s). pose proof (tri_double t). nia. }
  rewrite En in Hs. assert (H2 : 2 ^ (k + 1) = 2 * 2 ^ k) by (rewrite Z.pow_add_r by lia; ring).
  destruct (Z.Even_or_Odd (s - t)) as [[q Hq]|Ho].
  - apply pow2_divide_odd_factor in Hd2; [|lia|exists (q + t); lia]. apply Z.divide_pos_le in Hd2; lia.
  - rewrite Z.mul_comm in Hd2. apply pow2_divide_odd_factor in Hd2; [|lia|done]. apply Z.divide_pos_le in Hd2; lia.
Qed.

(** So they visit every bucket. *)
Lemma probe_cover n h i : table_size n -> 0 <= i < n -> exists s, 0 <= s < n /\ probe n h s = i.
Proof.
  intros Hn Hi. pose proof (table_size_range n Hn) as Hr.
  assert (Hnd : NoDup (probe n h <$> seqZ 0 n)).
  { apply NoDup_fmap_2_strong; [|apply NoDup_seqZ]. intros s t Hs Ht E. apply elem_of_seqZ in Hs, Ht.
    destruct (Z.lt_trichotomy s t) as [Hlt|[Heq|Hlt]]; [|done|]; exfalso; [symmetry in E|]; revert E; apply probe_inj; lia || done. }
  assert (Hp : probe n h <$> seqZ 0 n ≡ₚ seqZ 0 n).
  { apply submseteq_length_Permutation; [|by rewrite length_fmap].
    apply NoDup_submseteq; [done|]. intros x (s & -> & _)%list_elem_of_fmap. apply elem_of_seqZ.
    pose proof (probe_range n h s). lia. }
  assert (Hin : i ∈ probe n h <$> seqZ 0 n) by (rewrite Hp; apply elem_of_seqZ; lia).
  apply list_elem_of_fmap in Hin as (s & -> & Hs). apply elem_of_seqZ in Hs. exists s. split; [lia|done].
Qed.
