(* ===== verification/KHashInvariant.v ===== *)
(** * The hash table represents a finite map

    The invariant of the table of [KHash] and the simulation of each of its operations: [kh_get_spec],
    [kh_put_spec], [kh_del_spec], [kh_set_value_spec], [kh_clear_repr], and [kh_resize_spec] for the rehash
    in place, whose invariant is [rinv]. *)
From S2P Require Import Prelude KHash.

(** ** Entries under a flag

    The entries of a table are the buckets for which a function is defined, listed in order; changing one
    bucket changes one entry. *)

Lemma list_filter_id {A} (P : A -> Prop) `{forall x, Decision (P x)} (l : list A) : (forall x, x ∈ l -> P x) -> filter P l = l.
Proof.
  intros H0. induction l as [|x l IH]; [done|]. rewrite filter_cons, decide_True by (apply H0, list_elem_of_here).
  f_equal. apply IH. intros y Hy. by apply H0, list_elem_of_further.
Qed.

Lemma omap_split {A B} `{EqDecision A} (f : A -> option B) (l : list A) (i : A) :
  NoDup l -> i ∈ l -> omap f l ≡ₚ option_list (f i) ++ omap f (filter (.≠ i) l).
Proof.
  induction 1 as [|x l Hx Hl IH]; intros Hi; [by apply not_elem_of_nil in Hi|].
  rewrite filter_cons. apply elem_of_cons in Hi as [->|Hi].
  - rewrite decide_False by (intros H; by apply H). rewrite list_filter_id.
    2:{ intros y Hy. by intros ->. }
    cbn. by destruct (f x).
  - rewrite decide_True by (intros ->; done). specialize (IH Hi). cbn. destruct (f x) as [y|]; [|done].
    rewrite IH. destruct (f i); cbn; [apply Permutation_swap|done].
Qed.

Lemma omap_ext_on {A B} (f g : A -> option B) (l : list A) : (forall x, x ∈ l -> f x = g x) -> omap f l = omap g l.
Proof.
  intros H. induction l as [|x l IH]; [done|]. cbn. rewrite (H x) by apply list_elem_of_here.
  rewrite IH; [done|]. intros y Hy. apply H. by apply list_elem_of_further.
Qed.

(** Two families of entries that differ in one bucket. *)
Lemma omap_change {B} (f g : Z -> option B) n i :
  0 <= i < n -> (forall j, 0 <= j < n -> j <> i -> g j = f j) ->
  exists rest, omap f (seqZ 0 n) ≡ₚ option_list (f i) ++ rest /\ omap g (seqZ 0 n) ≡ₚ option_list (g i) ++ rest.
Proof.
  intros Hi Hj. exists (omap f (filter (.≠ i) (seqZ 0 n))).
  assert (Hin : i ∈ seqZ 0 n) by (apply elem_of_seqZ; lia).
  split; [by apply omap_split; [apply NoDup_seqZ|]|]. rewrite (omap_split g _ i) by (done || apply NoDup_seqZ).
  f_equiv. erewrite omap_ext_on; [done|]. intros j [Hn Hs]%list_elem_of_filter. apply elem_of_seqZ in Hs.
  by apply Hj; [lia|].
Qed.

Lemma omap_full {B} (f : Z -> option B) l : (forall j, j ∈ l -> is_Some (f j)) -> length (omap f l) = length l.
Proof.
  induction l as [|x l IH]; intros Hj; [done|]. cbn. destruct (Hj x) as [y ->]; [apply list_elem_of_here|].
  cbn. f_equal. apply IH. intros j Hl. by apply Hj, list_elem_of_further.
Qed.

Lemma length_entries_le {A B} (f : A -> option B) l : (length (omap f l) <= length l)%nat.
Proof. induction l as [|x l IH]; cbn; [lia|]. destruct (f x); cbn; lia. Qed.

Lemma omap_none {A B} (f : A -> option B) l : (forall j, j ∈ l -> f j = None) -> omap f l = [].
Proof.
  intros Hj. induction l as [|x l IH]; [done|]. cbn. rewrite Hj by apply list_elem_of_here.
  apply IH. intros j Hl. by apply Hj, list_elem_of_further.
Qed.

Lemma omap_same_length {A B C} (f : A -> option B) (g : A -> option C) l :
  (forall j, j ∈ l -> is_Some (f j) <-> is_Some (g j)) -> length (omap f l) = length (omap g l).
Proof.
  intros Hj. induction l as [|x l IH]; [done|]. cbn.
  assert (IH' : length (omap f l) = length (omap g l)) by (apply IH; intros j Hl; by apply Hj, list_elem_of_further).
  specialize (Hj x (list_elem_of_here _ _)). destruct (f x), (g x); cbn; rewrite ?IH'; try done; exfalso.
  - by destruct (proj1 Hj (ltac:(by eexists))).
  - by destruct (proj2 Hj (ltac:(by eexists))).
Qed.

(** Buckets that are not empty, and a bucket that is. *)
Definition occupied (fl : list Z) (n : Z) : list Z := omap (fun i => if ebit fl i then None else Some i) (seqZ 0 n).

Lemma some_bucket_empty fl n : 0 <= n -> Z.of_nat (length (occupied fl n)) < n -> exists i, 0 <= i < n /\ ebit fl i = true.
Proof.
  intros Hn Hlt. destruct (decide (Exists (fun i => ebit fl i = true) (seqZ 0 n))) as [He|He].
  - apply list.Exists_exists in He as (i & Hi & E). apply elem_of_seqZ in Hi. exists i. split; [lia|done].
  - exfalso. unfold occupied in Hlt. rewrite omap_full, length_seqZ in Hlt; [lia|].
    intros i Hi. destruct (ebit fl i) eqn:E; [|done]. destruct He. apply list.Exists_exists. by exists i.
Qed.

(** ** The invariant *)

Section Simulation.
Context {K V : Type} `{Countable K}.
Variable hash_func : K -> Z.
Variable hash_equal : K -> K -> bool.
Hypothesis hash_equal_spec : forall a b, hash_equal a b = true <-> a = b.
#[local] Abbreviation entry := (K * option V)%type.

Definition entry_at (ks : list (option K)) (vs : list (option V)) (occ : bool) (i : Z) : option entry :=
  if occ then k ← mjoin (rd ks i); v ← rd vs i; Some (k, v) else None.

(** Probing for [k] meets bucket [i] before any empty bucket. *)
Definition reach (fl : list Z) (n : Z) (k : K) (i : Z) : Prop :=
  exists s, 0 <= s < n /\ i = probe n (hash_func k) s /\ forall t, 0 <= t < s -> ebit fl (probe n (hash_func k) t) = false.

Definition slot (h : kh K V) (i : Z) : option entry := entry_at (h_keys h) (h_vals h) (livebit (h_flags h) i) i.
Definition entries (h : kh K V) : list entry := omap (slot h) (seqZ 0 (h_n_buckets h)).

Record wf (h : kh K V) : Prop := mkWf {
  wf_shape : (h_n_buckets h = 0 /\ h_flags h = [] /\ h_upper_bound h = 0) \/
             (table_size (h_n_buckets h) /\ Z.of_nat (length (h_flags h)) = __ac_fsize (h_n_buckets h) /\
              h_upper_bound h = hash_upper (h_n_buckets h));
  wf_keys : h_n_buckets h <= Z.of_nat (length (h_keys h));
  wf_vals : h_n_buckets h <= Z.of_nat (length (h_vals h));
  wf_init : forall i, 0 <= i < h_n_buckets h -> livebit (h_flags h) i = true -> is_Some (slot h i);
  wf_reach : forall i k v, 0 <= i < h_n_buckets h -> slot h i = Some (k, v) -> reach (h_flags h) (h_n_buckets h) k i;
  wf_occ : h_n_occupied h = Z.of_nat (length (occupied (h_flags h) (h_n_buckets h)));
  wf_load : h_n_occupied h <= h_upper_bound h;
  wf_size : h_size h = Z.of_nat (length (entries h))
}.

Definition repr (h : kh K V) (m : gmap K (option V)) : Prop := wf h /\ entries h ≡ₚ map_to_list m.

Lemma fsize_covers n : 0 <= n -> table_size n -> n <= 16 * __ac_fsize n.
Proof.
  intros _ (k & Hk & ->). unfold __ac_fsize. zcases; [lia|]. rewrite Z.shiftr_div_pow2 by lia.
  destruct (Z.le_gt_cases 4 k); [|assert (2 ^ k < 2 ^ 4) by (apply Z.pow_lt_mono_r; lia); change (2 ^ 4) with 16 in *; lia].
  replace k with (k - 4 + 4) by lia. rewrite Z.pow_add_r by lia. rewrite Z.div_mul by done. change (2 ^ 4) with 16. lia.
Qed.

Lemma wf_in_flags h i : wf h -> 0 <= i < h_n_buckets h -> in_flags (h_flags h) i.
Proof.
  intros Hw Hi. destruct (wf_shape h Hw) as [(E & _)|(Ht & Hl & _)]; [lia|].
  unfold in_flags. rewrite Hl. pose proof (fsize_covers (h_n_buckets h) ltac:(lia) Ht). lia.
Qed.

Lemma wf_nonzero h : wf h -> h_n_buckets h <> 0 -> table_size (h_n_buckets h).
Proof. intros Hw Hn. by destruct (wf_shape h Hw) as [(E & _)|(Ht & _)]. Qed.

Lemma slot_live h i e : slot h i = Some e -> livebit (h_flags h) i = true.
Proof. unfold slot, entry_at. by destruct (livebit (h_flags h) i). Qed.

Lemma slot_key h i k v : slot h i = Some (k, v) -> mjoin (rd (h_keys h) i) = Some k /\ rd (h_vals h) i = Some v.
Proof.
  unfold slot, entry_at. destruct (livebit (h_flags h) i); [|done].
  destruct (mjoin (rd (h_keys h) i)); [|done]. cbn. destruct (rd (h_vals h) i); [|done]. by intros [= -> ->].
Qed.

Lemma livebit_bits fl i : livebit fl i = true <-> ebit fl i = false /\ dbit fl i = false.
Proof. unfold livebit. destruct (ebit fl i), (dbit fl i); cbn; intuition congruence. Qed.

Lemma entries_slot h e : e ∈ entries h <-> exists i, 0 <= i < h_n_buckets h /\ slot h i = Some e.
Proof.
  unfold entries. rewrite list_elem_of_omap. split.
  - intros (i & Hi & E). apply elem_of_seqZ in Hi. exists i. split; [lia|done].
  - intros (i & Hi & E). exists i. split; [apply elem_of_seqZ; lia|done].
Qed.

Lemma repr_lookup h m k v : repr h m -> m !! k = Some v <-> exists i, 0 <= i < h_n_buckets h /\ slot h i = Some (k, v).
Proof. intros [_ Hp]. rewrite <- elem_of_map_to_list, <- Hp. apply entries_slot. Qed.

(** A key has one bucket. *)
Lemma repr_unique h m i j k v w :
  repr h m -> 0 <= i < h_n_buckets h -> 0 <= j < h_n_buckets h ->
  slot h i = Some (k, v) -> slot h j = Some (k, w) -> i = j.
Proof.
  intros [_ Hp] Hi Hj Ei Ej. destruct (decide (i = j)) as [|Hn]; [done|]. exfalso.
  pose proof (NoDup_fst_map_to_list m) as Hnd. rewrite <- Hp in Hnd. unfold entries in Hnd.
  rewrite (omap_split (slot h) _ i) in Hnd by (apply NoDup_seqZ || (apply elem_of_seqZ; lia)).
  rewrite Ei in Hnd. cbn in Hnd. apply list.NoDup_cons in Hnd as [Hk _]. apply Hk.
  apply list_elem_of_fmap. exists (k, w). split; [done|]. apply list_elem_of_omap. exists j. split; [|done].
  apply list_elem_of_filter. split; [by intros ->|]. apply elem_of_seqZ. lia.
Qed.

(** ** Looking up *)

Lemma slot_Some_live h i : wf h -> 0 <= i < h_n_buckets h -> livebit (h_flags h) i = true -> exists k v, slot h i = Some (k, v).
Proof. intros Hw Hi Hl. destruct (wf_init h Hw i Hi Hl) as [[k v] E]. by exists k, v. Qed.

(** What the condition of the probing loops evaluates to. *)
Lemma probe_stop_spec h key i : wf h -> 0 <= i < h_n_buckets h ->
  probe_stop hash_equal h key i =
    Some (ebit (h_flags h) i || bool_decide (fst <$> slot h i = Some key)).
Proof.
  intros Hw Hi. pose proof (wf_in_flags h i Hw Hi) as Hf. unfold probe_stop. rewrite isempty_spec by done. cbn.
  destruct (ebit (h_flags h) i) eqn:He; [done|]. rewrite isdel_spec by done. cbn.
  destruct (dbit (h_flags h) i) eqn:Hd.
  - f_equal. symmetry. apply bool_decide_eq_false_2. intros ([k v] & E & _)%fmap_Some.
    apply slot_live, livebit_bits in E as [_ E]. congruence.
  - destruct (slot_Some_live h i Hw Hi) as (k & v & E); [by apply livebit_bits|].
    destruct (slot_key h i k v E) as [-> _]. cbn. f_equal. rewrite E. apply Bool.eq_true_iff_eq.
    rewrite hash_equal_spec, bool_decide_eq_true. cbn. split; [by intros ->|by intros [= ->]].
Qed.

Lemma probe_stop_other h m key i j v : repr h m -> 0 <= i < h_n_buckets h -> 0 <= j < h_n_buckets h -> i <> j ->
  slot h j = Some (key, v) -> ebit (h_flags h) i = false -> probe_stop hash_equal h key i = Some false.
Proof.
  intros Hr Hi Hj Hn Ej He. rewrite probe_stop_spec by (done || apply Hr). rewrite He. cbn. f_equal.
  apply bool_decide_eq_false_2. intros ([k w] & Ei & ->)%fmap_Some. destruct Hn. by eapply repr_unique.
Qed.

Lemma probe_stop_absent h m key i : repr h m -> 0 <= i < h_n_buckets h -> m !! key = None ->
  probe_stop hash_equal h key i = Some (ebit (h_flags h) i).
Proof.
  intros Hr Hi Hm. rewrite probe_stop_spec by (done || apply Hr). rewrite bool_decide_eq_false_2; [by rewrite orb_false_r|].
  intros ([k v] & E & ->)%fmap_Some. cbn in Hm.
  assert (m !! k = Some v) by (apply (repr_lookup h m); [done|]; by exists i). congruence.
Qed.

Lemma bucket_found h i k v : wf h -> 0 <= i < h_n_buckets h -> slot h i = Some (k, v) ->
  probe_stop hash_equal h k i = Some true /\ __ac_iseither (h_flags h) i = Some false /\ __ac_isempty (h_flags h) i = Some false.
Proof.
  intros Hw Hi E. pose proof (wf_in_flags h i Hw Hi) as Hf. rewrite probe_stop_spec, iseither_spec, isempty_spec by done.
  rewrite (slot_live _ _ _ E). split; [|split; [done|]].
  - rewrite bool_decide_eq_true_2 by (by rewrite E). by rewrite orb_true_r.
  - apply slot_live, livebit_bits in E as [-> _]. done.
Qed.

Lemma kh_get_loop_hit h m key s0 v fuel s :
  repr h m -> 0 <= s0 < h_n_buckets h -> slot h (probe (h_n_buckets h) (hash_func key) s0) = Some (key, v) ->
  (forall t, 0 <= t < s0 -> ebit (h_flags h) (probe (h_n_buckets h) (hash_func key) t) = false) ->
  0 <= s <= s0 -> (Z.to_nat (s0 - s) < fuel)%nat ->
  kh_get_loop hash_equal fuel h key (h_n_buckets h - 1) (probe (h_n_buckets h) (hash_func key) 0)
    (probe (h_n_buckets h) (hash_func key) s) s = Some (probe (h_n_buckets h) (hash_func key) s0).
Proof.
  intros Hr Hs0 E Ht. set (n := h_n_buckets h) in *. assert (Hn : table_size n) by (apply wf_nonzero; [apply Hr|lia]).
  pose proof (table_size_range n Hn) as Hrg. change (2 ^ 31) with 2147483648 in Hrg.
  revert s; induction fuel as [|fuel IH]; intros s Hs Hf; [lia|]. cbn [kh_get_loop]. cbv zeta.
  destruct (Z.eq_dec s s0) as [->|Hne].
  - destruct (bucket_found h _ _ _ (proj1 Hr) (probe_range n _ s0 ltac:(lia)) E) as (-> & -> & _). done.
  - rewrite (probe_stop_other h m key _ (probe n (hash_func key) s0) v Hr);
      [|apply probe_range; lia|apply probe_range; lia|apply not_eq_sym, probe_inj; lia || done|done|by apply Ht; lia].
    cbn. unfold n. rewrite probe_next by (change (2 ^ 32) with 4294967296; lia || done). fold n.
    destruct (Z.eqb_spec (probe n (hash_func key) (s + 1)) (probe n (hash_func key) 0)) as [Eq|_].
    { exfalso. revert Eq. apply probe_inj; lia || done. }
    unfold u32. rewrite Z.mod_small by (change (2 ^ 32) with 4294967296; lia). apply IH; lia.
Qed.

Lemma kh_get_loop_miss h m key s0 fuel s :
  repr h m -> m !! key = None -> 0 <= s0 < h_n_buckets h ->
  ebit (h_flags h) (probe (h_n_buckets h) (hash_func key) s0) = true ->
  0 <= s <= s0 -> (Z.to_nat (s0 - s) < fuel)%nat ->
  kh_get_loop hash_equal fuel h key (h_n_buckets h - 1) (probe (h_n_buckets h) (hash_func key) 0)
    (probe (h_n_buckets h) (hash_func key) s) s = Some (h_n_buckets h).
Proof.
  intros Hr Hm Hs0 He. set (n := h_n_buckets h) in *. assert (Hn : table_size n) by (apply wf_nonzero; [apply Hr|lia]).
  pose proof (table_size_range n Hn) as Hrg. change (2 ^ 31) with 2147483648 in Hrg.
  revert s; induction fuel as [|fuel IH]; intros s Hs Hf; [lia|]. cbn [kh_get_loop]. cbv zeta.
  pose proof (probe_range n (hash_func key) s ltac:(lia)) as Hp.
  rewrite (probe_stop_absent h m) by done. cbn. destruct (ebit (h_flags h) (probe n (hash_func key) s)) eqn:Hes.
  - rewrite iseither_spec by (apply wf_in_flags; [apply Hr|done]). cbn. unfold livebit. by rewrite Hes.
  - unfold n. rewrite probe_next by (change (2 ^ 32) with 4294967296; lia || done). fold n.
    destruct (Z.eqb_spec (probe n (hash_func key) (s + 1)) (probe n (hash_func key) 0)) as [Eq|_]; [done|].
    assert (s <> s0) by congruence.
    unfold u32. rewrite Z.mod_small by (change (2 ^ 32) with 4294967296; lia). apply IH; lia.
Qed.

(** A probe sequence of a table below its load limit meets an empty bucket. *)
Lemma probe_meets_empty fl n hv : table_size n -> Z.of_nat (length (occupied fl n)) < n ->
  exists s, 0 <= s < n /\ ebit fl (probe n hv s) = true.
Proof.
  intros Hn Hlt. pose proof (table_size_range n Hn). destruct (some_bucket_empty fl n) as (i & Hi & He); [lia|done|].
  destruct (probe_cover n hv i Hn Hi) as (s & Hs & <-). by exists s.
Qed.

Lemma wf_below_full h : wf h -> h_n_buckets h <> 0 -> Z.of_nat (length (occupied (h_flags h) (h_n_buckets h))) < h_n_buckets h.
Proof.
  intros Hw Hn. pose proof (wf_occ h Hw) as Ho. pose proof (wf_load h Hw) as Hl.
  destruct (wf_shape h Hw) as [(E & _)|(Ht & _ & Hu)]; [done|]. pose proof (table_size_range _ Ht).
  destruct (hash_upper_bounds (h_n_buckets h)); lia.
Qed.

(** [kh_get] returns the bucket of the key, or the end iterator. *)
Lemma kh_get_spec h m key : repr h m ->
  exists x, kh_get hash_func hash_equal h key = Some x /\
    match m !! key with
    | Some v => 0 <= x < h_n_buckets h /\ slot h x = Some (key, v)
    | None => x = h_n_buckets h
    end.
Proof.
  intros Hr. pose proof (proj1 Hr) as Hw. unfold kh_get. cbv zeta. destruct (m !! key) as [v|] eqn:Hm.
  - apply (repr_lookup h m) in Hm as (i & Hi & E); [|done]. destruct (wf_reach h Hw i key v Hi E) as (s & Hs & -> & Ht).
    destruct (Z.eqb_spec (h_n_buckets h) 0) as [E0|Hn]; [lia|]. eexists. split; [|split; [exact Hi|exact E]].
    rewrite probe_start by (by apply wf_nonzero). eapply kh_get_loop_hit; [done..|lia|lia].
  - exists (h_n_buckets h). split; [|done]. destruct (Z.eqb_spec (h_n_buckets h) 0) as [E0|Hn]; [by rewrite E0|].
    rewrite probe_start by (by apply wf_nonzero).
    destruct (probe_meets_empty (h_flags h) (h_n_buckets h) (hash_func key)) as (s & Hs & He); [by apply wf_nonzero|by apply wf_below_full|].
    eapply kh_get_loop_miss; [done..|lia|lia].
Qed.

(** ** Changing one bucket *)

Lemma reach_mono fl fl' n k i : 0 < n ->
  (forall j, 0 <= j < n -> ebit fl' j = true -> ebit fl j = true) -> reach fl n k i -> reach fl' n k i.
Proof.
  intros Hn Hm (s & Hs & -> & Ht). exists s. split; [done|]. split; [done|]. intros t Hlt.
  destruct (ebit fl' (probe n (hash_func k) t)) eqn:E; [|done]. rewrite <- (Ht t Hlt). symmetry. apply Hm; [by apply probe_range|done].
Qed.

Record changed_at (x : Z) (h h' : kh K V) : Prop := mkChanged {
  ch_range : 0 <= x < h_n_buckets h;
  ch_n : h_n_buckets h' = h_n_buckets h;
  ch_upper : h_upper_bound h' = h_upper_bound h;
  ch_flags : length (h_flags h') = length (h_flags h);
  ch_keys : length (h_keys h') = length (h_keys h);
  ch_vals : length (h_vals h') = length (h_vals h);
  ch_ebit : forall j, 0 <= j -> j <> x -> ebit (h_flags h') j = ebit (h_flags h) j;
  ch_live : forall j, 0 <= j -> j <> x -> livebit (h_flags h') j = livebit (h_flags h) j;
  ch_slot : forall j, 0 <= j -> j <> x -> slot h' j = slot h j;
  ch_mono : ebit (h_flags h') x = true -> ebit (h_flags h) x = true;
  ch_occ : h_n_occupied h' = h_n_occupied h + (if ebit (h_flags h) x then if ebit (h_flags h') x then 0 else 1 else 0);
  ch_load : h_n_occupied h' <= h_upper_bound h;
  ch_size : h_size h' + Z.of_nat (length (option_list (slot h x))) = h_size h + Z.of_nat (length (option_list (slot h' x)));
  ch_init : livebit (h_flags h') x = true -> is_Some (slot h' x);
  ch_reach : forall k v, slot h' x = Some (k, v) -> reach (h_flags h) (h_n_buckets h) k x
}.

Lemma changed_entries x h h' : changed_at x h h' ->
  exists rest, entries h ≡ₚ option_list (slot h x) ++ rest /\ entries h' ≡ₚ option_list (slot h' x) ++ rest.
Proof.
  intros Hc. unfold entries. rewrite (ch_n _ _ _ Hc). apply omap_change; [apply (ch_range _ _ _ Hc)|].
  intros j Hj Hn. by apply (ch_slot _ _ _ Hc); [lia|].
Qed.

Lemma changed_occupied x h h' : changed_at x h h' ->
  Z.of_nat (length (occupied (h_flags h') (h_n_buckets h))) =
  Z.of_nat (length (occupied (h_flags h) (h_n_buckets h))) + (if ebit (h_flags h) x then if ebit (h_flags h') x then 0 else 1 else 0).
Proof.
  intros Hc. unfold occupied.
  destruct (omap_change (fun i => if ebit (h_flags h) i then None else Some i) (fun i => if ebit (h_flags h') i then None else Some i)
    (h_n_buckets h) x) as (rest & E & E'); [apply (ch_range _ _ _ Hc)|intros j Hj Hn; by rewrite (ch_ebit _ _ _ Hc) by (lia || done)|].
  rewrite E, E', !length_app. pose proof (ch_mono _ _ _ Hc) as Hm.
  destruct (ebit (h_flags h) x), (ebit (h_flags h') x); cbn; try lia.
Qed.

Lemma changed_wf x h h' : wf h -> changed_at x h h' -> wf h'.
Proof.
  intros Hw Hc. pose proof (changed_entries x h h' Hc) as (rest & E & E'). pose proof (changed_occupied x h h' Hc) as Ho.
  assert (He : forall j, 0 <= j -> ebit (h_flags h') j = true -> ebit (h_flags h) j = true).
  { intros j Hj. destruct (decide (j = x)) as [->|Hn]; [apply (ch_mono _ _ _ Hc)|by rewrite (ch_ebit _ _ _ Hc)]. }
  split; rewrite ?(ch_n _ _ _ Hc), ?(ch_upper _ _ _ Hc), ?(ch_flags _ _ _ Hc), ?(ch_keys _ _ _ Hc), ?(ch_vals _ _ _ Hc).
  - destruct (wf_shape h Hw) as [(E0 & _)|Hs]; [pose proof (ch_range _ _ _ Hc); lia|by right].
  - apply (wf_keys h Hw).
  - apply (wf_vals h Hw).
  - intros j Hj Hl. destruct (decide (j = x)) as [->|Hn]; [by apply (ch_init _ _ _ Hc)|].
    rewrite (ch_slot _ _ _ Hc) by (lia || done). apply (wf_init h Hw); [done|]. by rewrite <- (ch_live _ _ _ Hc) by (lia || done).
  - intros j k v Hj Es. apply (reach_mono (h_flags h)); [lia|intros; apply He; lia || done|].
    destruct (decide (j = x)) as [->|Hn]; [by eapply (ch_reach _ _ _ Hc)|].
    rewrite (ch_slot _ _ _ Hc) in Es by (lia || done). by eapply (wf_reach h Hw).
  - rewrite (ch_occ _ _ _ Hc), Ho, (wf_occ h Hw). done.
  - apply (ch_load _ _ _ Hc).
  - pose proof (ch_size _ _ _ Hc) as Hz. rewrite (wf_size h Hw), E in Hz. rewrite E', !length_app in *. lia.
Qed.

(** ** Deleting *)

Lemma perm_cons_cancel {B} (e : B) l l' k : l ≡ₚ e :: l' -> l ≡ₚ e :: k -> l' ≡ₚ k.
Proof. intros H1 H2. rewrite H1 in H2. by eapply Permutation_cons_inv. Qed.

Lemma kh_del_spec h m x k v : repr h m -> 0 <= x < h_n_buckets h -> slot h x = Some (k, v) ->
  exists h', kh_del h x = Some h' /\ repr h' (delete k m) /\ h_n_buckets h' = h_n_buckets h /\
    slot h' x = None /\ (forall j, 0 <= j -> j <> x -> slot h' j = slot h j).
Proof.
  intros [Hw Hp] Hx E. pose proof (wf_in_flags h x Hw Hx) as Hf. unfold kh_del. zcases; [lia|].
  pose proof (slot_live _ _ _ E) as Hl. rewrite iseither_spec by done. cbn. rewrite Hl. cbn.
  destruct (set_isdel_true_spec (h_flags h) x Hf) as (fl' & -> & Hlen & He & Hd & Hr). cbn.
  eexists; split; [reflexivity|]. set (h' := mkKh _ _ _ _ _ _ _).
  assert (Hs0 : slot h' x = None). { unfold slot, h', entry_at, livebit. cbn. rewrite Hd. by rewrite andb_false_r. }
  assert (Hlive : forall j, 0 <= j -> j <> x -> livebit (h_flags h') j = livebit (h_flags h) j).
  { intros j Hj Hn. unfold livebit, h'. cbn. by destruct (Hr j Hj Hn) as [-> ->]. }
  assert (Hsj : forall j, 0 <= j -> j <> x -> slot h' j = slot h j).
  { intros j Hj Hn. unfold slot. by rewrite Hlive. }
  assert (Hsz : 0 < h_size h <= h_n_buckets h).
  { rewrite (wf_size h Hw). pose proof (length_entries_le (slot h) (seqZ 0 (h_n_buckets h))) as Hle. rewrite length_seqZ in Hle.
    fold (entries h) in Hle. assert (Hin : (k, v) ∈ entries h) by (apply entries_slot; by exists x).
    destruct (entries h); [by apply not_elem_of_nil in Hin|]. cbn in *. lia. }
  assert (Hn31 : h_n_buckets h <= 2147483648) by (apply table_size_range, wf_nonzero; [done|lia]).
  assert (Hc : changed_at x h h').
  { split; try done.
    - intros j Hj Hn. by destruct (Hr j Hj Hn).
    - unfold h'. cbn. by rewrite He.
    - unfold h'. cbn. rewrite He. destruct (ebit (h_flags h) x); lia.
    - apply (wf_load h Hw).
    - rewrite Hs0, E. unfold h'. cbn. unfold u32. rewrite Z.mod_small by (change (2 ^ 32) with 4294967296; lia). lia.
    - unfold livebit, h'. cbn. rewrite Hd, andb_false_r. done.
    - by rewrite Hs0. }
  split; [split; [by eapply changed_wf|]|done].
  destruct (changed_entries x h h' Hc) as (rest & E1 & E2). rewrite E in E1. rewrite Hs0 in E2. cbn in E1, E2. rewrite E2.
  assert (Hm : m !! k = Some v) by (apply (repr_lookup h m); [by split|]; by exists x).
  eapply perm_cons_cancel; [exact E1|]. rewrite Hp. symmetry. by apply map_to_list_delete.
Qed.

(** ** Inserting *)

(** A tombstone that the probe for a key met before round [s]. *)
Definition site_ok (h : kh K V) (hv s site : Z) : Prop :=
  site = h_n_buckets h \/ exists t, 0 <= t < s /\ site = probe (h_n_buckets h) hv t /\ dbit (h_flags h) site = true.

Lemma kh_put_loop_hit h m key s0 v fuel s site :
  repr h m -> 0 <= s0 < h_n_buckets h -> slot h (probe (h_n_buckets h) (hash_func key) s0) = Some (key, v) ->
  (forall t, 0 <= t < s0 -> ebit (h_flags h) (probe (h_n_buckets h) (hash_func key) t) = false) ->
  0 <= s <= s0 -> (Z.to_nat (s0 - s) < fuel)%nat ->
  exists site', kh_put_loop hash_equal fuel h key (h_n_buckets h - 1) (probe (h_n_buckets h) (hash_func key) 0)
    (probe (h_n_buckets h) (hash_func key) s) site s = Some (probe (h_n_buckets h) (hash_func key) s0, site', false).
Proof.
  intros Hr Hs0 E Ht. set (n := h_n_buckets h) in *. assert (Hn : table_size n) by (apply wf_nonzero; [apply Hr|lia]).
  pose proof (table_size_range n Hn) as Hrg. change (2 ^ 31) with 2147483648 in Hrg.
  revert s site; induction fuel as [|fuel IH]; intros s site Hs Hf; [lia|]. cbn [kh_put_loop]. cbv zeta.
  destruct (Z.eq_dec s s0) as [->|Hne].
  - destruct (bucket_found h _ _ _ (proj1 Hr) (probe_range n _ s0 ltac:(lia)) E) as (-> & _). by exists site.
  - rewrite (probe_stop_other h m key _ (probe n (hash_func key) s0) v Hr);
      [|apply probe_range; lia|apply probe_range; lia|apply not_eq_sym, probe_inj; lia || done|done|by apply Ht; lia].
    cbn. rewrite isdel_spec by (apply wf_in_flags; [apply Hr|]; apply probe_range; lia). cbn.
    unfold n. rewrite probe_next by (change (2 ^ 32) with 4294967296; lia || done). fold n.
    destruct (Z.eqb_spec (probe n (hash_func key) (s + 1)) (probe n (hash_func key) 0)) as [Eq|_].
    { exfalso. revert Eq. apply probe_inj; lia || done. }
    unfold u32. rewrite Z.mod_small by (change (2 ^ 32) with 4294967296; lia). apply IH; lia.
Qed.

Lemma kh_put_loop_miss h m key s0 fuel s site :
  repr h m -> m !! key = None -> 0 <= s0 < h_n_buckets h ->
  ebit (h_flags h) (probe (h_n_buckets h) (hash_func key) s0) = true ->
  0 <= s <= s0 -> (Z.to_nat (s0 - s) < fuel)%nat ->
  (forall t, 0 <= t < s -> ebit (h_flags h) (probe (h_n_buckets h) (hash_func key) t) = false) ->
  site_ok h (hash_func key) s site ->
  exists s1 site', kh_put_loop hash_equal fuel h key (h_n_buckets h - 1) (probe (h_n_buckets h) (hash_func key) 0)
    (probe (h_n_buckets h) (hash_func key) s) site s = Some (probe (h_n_buckets h) (hash_func key) s1, site', false) /\
    0 <= s1 <= s0 /\ ebit (h_flags h) (probe (h_n_buckets h) (hash_func key) s1) = true /\
    (forall t, 0 <= t < s1 -> ebit (h_flags h) (probe (h_n_buckets h) (hash_func key) t) = false) /\
    site_ok h (hash_func key) s1 site'.
Proof.
  intros Hr Hm Hs0 He. set (n := h_n_buckets h) in *. assert (Hn : table_size n) by (apply wf_nonzero; [apply Hr|lia]).
  pose proof (table_size_range n Hn) as Hrg. change (2 ^ 31) with 2147483648 in Hrg.
  revert s site; induction fuel as [|fuel IH]; intros s site Hs Hf Ht Hsite; [lia|]. cbn [kh_put_loop]. cbv zeta.
  pose proof (probe_range n (hash_func key) s ltac:(lia)) as Hp.
  rewrite (probe_stop_absent h m) by done. cbn. destruct (ebit (h_flags h) (probe n (hash_func key) s)) eqn:Hes.
  - exists s, site. done.
  - rewrite isdel_spec by (apply wf_in_flags; [apply Hr|done]). cbn. assert (s <> s0) by congruence.
    unfold n. rewrite probe_next by (change (2 ^ 32) with 4294967296; lia || done). fold n.
    destruct (Z.eqb_spec (probe n (hash_func key) (s + 1)) (probe n (hash_func key) 0)) as [Eq|_].
    { exfalso. revert Eq. apply probe_inj; lia || done. }
    unfold u32. rewrite Z.mod_small by (change (2 ^ 32) with 4294967296; lia). apply IH; [lia|lia| |].
    + intros t Hlt. destruct (Z.eq_dec t s) as [->|]; [done|]. apply Ht. lia.
    + destruct (dbit (h_flags h) (probe n (hash_func key) s)) eqn:Hd.
      * right. exists s. split; [lia|done].
      * destruct Hsite as [->|(t & Hlt & E & D)]; [by left|]. right. exists t. split; [lia|done].
Qed.

(** Where a key goes: its own bucket, or one that is free and reached. *)
Lemma kh_put_bucket_spec h m key : repr h m -> h_n_buckets h <> 0 ->
  exists x, kh_put_bucket hash_func hash_equal h key = Some x /\ 0 <= x < h_n_buckets h /\
    match m !! key with
    | Some v => slot h x = Some (key, v)
    | None => livebit (h_flags h) x = false /\ reach (h_flags h) (h_n_buckets h) key x
    end.
Proof.
  intros Hr Hn0. pose proof (proj1 Hr) as Hw. pose proof (wf_nonzero h Hw Hn0) as Hn.
  pose proof (table_size_range _ Hn) as Hrg. change (2 ^ 31) with 2147483648 in Hrg. unfold kh_put_bucket. cbv zeta.
  set (n := h_n_buckets h) in *. replace (u32 (n - 1)) with (n - 1) by (unfold u32; rewrite Z.mod_small; lia).
  rewrite probe_start by done. pose proof (probe_range n (hash_func key) 0 ltac:(lia)) as Hp0.
  rewrite isempty_spec by (by apply wf_in_flags). cbn -[Nat.mul].
  destruct (m !! key) as [v|] eqn:Hm.
  - apply (repr_lookup h m) in Hm as (i & Hi & E); [|done]. destruct (wf_reach h Hw i key v Hi E) as (s & Hs & -> & Ht).
    fold n in E, Ht, Hs. exists (probe n (hash_func key) s). split; [|split; [apply probe_range; lia|done]].
    destruct (bucket_found h _ _ _ Hw (probe_range n (hash_func key) s ltac:(lia)) E) as (_ & _ & Hne).
    rewrite isempty_spec in Hne by (apply wf_in_flags; [done|apply probe_range; lia]). apply (inj Some) in Hne.
    assert (ebit (h_flags h) (probe n (hash_func key) 0) = false) as ->.
    { destruct (Z.eq_dec s 0) as [->|]; [done|]. apply Ht. lia. }
    destruct (kh_put_loop_hit h m key s v (2 * Z.to_nat n) 0 n Hr Hs E Ht) as [site El]; [lia|lia|].
    fold n in El. rewrite El. cbn. rewrite Z.eqb_refl.
    rewrite isempty_spec by (apply wf_in_flags; [done|apply probe_range; lia]). cbn. by rewrite Hne.
  - destruct (ebit (h_flags h) (probe n (hash_func key) 0)) eqn:He0.
    + exists (probe n (hash_func key) 0). split; [done|]. split; [done|]. split; [unfold livebit; by rewrite He0|].
      exists 0. split; [lia|]. split; [done|]. intros t Ht. lia.
    + destruct (probe_meets_empty (h_flags h) n (hash_func key) Hn (wf_below_full h Hw Hn0)) as (s & Hs & He).
      destruct (kh_put_loop_miss h m key s (2 * Z.to_nat n) 0 n Hr Hm Hs He) as (s1 & site & El & Hs1 & He1 & Ht1 & Hsite);
        [lia|lia|intros; lia|by left|].
      fold n in El, He1, Ht1, Hsite. rewrite El. cbn. rewrite Z.eqb_refl.
      rewrite isempty_spec by (apply wf_in_flags; [done|apply probe_range; lia]). cbn. rewrite He1. cbn.
      destruct (Z.eqb_spec site n) as [->|Hne]; cbn.
      * exists (probe n (hash_func key) s1). split; [done|]. split; [apply probe_range; lia|].
        split; [unfold livebit; by rewrite He1|]. exists s1. split; [lia|done].
      * destruct Hsite as [->|(t & Hlt & -> & Hd)]; [done|]. fold n in Hd. exists (probe n (hash_func key) t).
        split; [done|]. split; [apply probe_range; lia|]. split; [unfold livebit; by rewrite Hd, andb_false_r|].
        exists t. split; [lia|]. split; [done|]. intros t' Ht'. apply Ht1. lia.
Qed.

Lemma bucket_size h m : repr h m -> h_n_buckets h <> 0 ->
  0 <= h_size h <= h_n_buckets h /\ 0 <= h_n_occupied h < h_n_buckets h /\ 4 <= h_n_buckets h <= 2147483648.
Proof.
  intros [Hw _] Hn. pose proof (table_size_range _ (wf_nonzero h Hw Hn)) as Hrg. change (2 ^ 31) with 2147483648 in Hrg.
  pose proof (wf_below_full h Hw Hn). rewrite (wf_occ h Hw), (wf_size h Hw).
  pose proof (length_entries_le (slot h) (seqZ 0 (h_n_buckets h))) as Hle. rewrite length_seqZ in Hle. fold (entries h) in Hle. lia.
Qed.

(** A free bucket taken for a key, with whatever its value cell holds. *)
Lemma take_bucket h m x key fl ks occ :
  repr h m -> 0 <= x < h_n_buckets h -> h_n_occupied h < h_upper_bound h -> m !! key = None ->
  livebit (h_flags h) x = false -> reach (h_flags h) (h_n_buckets h) key x ->
  __ac_set_isboth_false (h_flags h) x = Some fl -> wr (h_keys h) x (Some key) = Some ks ->
  occ = h_n_occupied h + (if ebit (h_flags h) x then 1 else 0) ->
  exists v, let h' := mkKh (h_n_buckets h) (u32 (h_size h + 1)) occ (h_upper_bound h) fl ks (h_vals h) in
    repr h' (<[key := v]> m) /\ slot h' x = Some (key, v).
Proof.
  intros Hr Hx Hload Hm Hl Hre Hfl Hks Hocc. pose proof (proj1 Hr) as Hw.
  destruct (bucket_size h m Hr) as (Hsz & _ & Hn); [lia|].
  pose proof (wf_keys h Hw) as Hk. pose proof (wf_vals h Hw) as Hv.
  destruct (set_isboth_false_spec (h_flags h) x (wf_in_flags h x Hw Hx)) as (fl' & E & Hlen & He & Hd & Hj).
  rewrite Hfl in E. apply (inj Some) in E as <-. rewrite wr_Some in Hks by lia. apply (inj Some) in Hks as <-.
  destruct (rd_Some (h_vals h) x) as [v Ev]; [lia|]. exists v. intros h'.
  assert (Hs0 : slot h x = None) by (unfold slot, entry_at; by rewrite Hl).
  assert (Hs1 : slot h' x = Some (key, v)).
  { unfold slot, entry_at, livebit, h'. cbn. rewrite He, Hd. cbn. rewrite rd_insert, decide_True by (lia || done). cbn. by rewrite Ev. }
  assert (Hlive : forall j, 0 <= j -> j <> x -> livebit (h_flags h') j = livebit (h_flags h) j).
  { intros j Hj0 Hnj. unfold livebit, h'. cbn. by destruct (Hj j Hj0 Hnj) as [-> ->]. }
  assert (Hc : changed_at x h h').
  { split; try done.
    - unfold h'. cbn. by rewrite length_insert.
    - intros j Hj0 Hnj. by destruct (Hj j Hj0 Hnj).
    - intros j Hj0 Hnj. unfold slot, entry_at. rewrite Hlive by done. unfold h'. cbn. rewrite rd_insert by lia. by rewrite decide_False.
    - unfold h'. cbn. by rewrite He.
    - unfold h'. cbn. rewrite He. lia.
    - unfold h'. cbn. destruct (ebit (h_flags h) x); lia.
    - rewrite Hs0, Hs1. unfold h'. cbn. unfold u32. rewrite Z.mod_small; lia.
    - rewrite Hs1. by intros k w [= -> _]. }
  split; [|done]. split; [by eapply changed_wf|].
  destruct (changed_entries x h h' Hc) as (rest & E1 & E2). rewrite Hs0 in E1. rewrite Hs1 in E2. cbn in E1, E2.
  rewrite E2, <- E1, (proj2 Hr). symmetry. by apply map_to_list_insert.
Qed.

(** [kh_put] once there is room: the key's bucket, and the table with the key in it. *)
Lemma kh_put_at_spec h m key x :
  repr h m -> 0 <= x < h_n_buckets h -> h_n_occupied h < h_upper_bound h ->
  match m !! key with
  | Some v => slot h x = Some (key, v)
  | None => livebit (h_flags h) x = false /\ reach (h_flags h) (h_n_buckets h) key x
  end ->
  exists h' ret v, kh_put_at h key x = Some (h', x, ret) /\ h_n_buckets h' = h_n_buckets h /\ slot h' x = Some (key, v) /\
    match m !! key with
    | Some w => ret = 0 /\ v = w /\ repr h' m
    | None => (ret = 1 \/ ret = 2) /\ repr h' (<[key := v]> m)
    end.
Proof.
  intros Hr Hx Hload Hm. pose proof (proj1 Hr) as Hw. pose proof (wf_in_flags h x Hw Hx) as Hf. unfold kh_put_at.
  rewrite isempty_spec, isdel_spec by done. cbn. destruct (m !! key) as [w|] eqn:Em.
  - pose proof (slot_live _ _ _ Hm) as Hl. apply livebit_bits in Hl as [-> ->]. by exists h, 0, w.
  - destruct Hm as [Hl Hre]. destruct (bucket_size h m Hr) as (Hsz & Hoc & Hn); [lia|].
    destruct (set_isboth_false_spec (h_flags h) x Hf) as (fl & Efl & _). pose proof (wf_keys h Hw) as Hk.
    rewrite Efl, wr_Some by lia. cbn. set (ks := <[_ := _]> _). assert (Eks : wr (h_keys h) x (Some key) = Some ks) by (apply wr_Some; lia).
    destruct (ebit (h_flags h) x) eqn:He; [|destruct (dbit (h_flags h) x) eqn:Hd].
    + destruct (take_bucket h m x key fl ks (h_n_occupied h + 1)) as (v & Hr' & Hs'); [done..|by rewrite He|].
      replace (u32 (h_n_occupied h + 1)) with (h_n_occupied h + 1) by (unfold u32; rewrite Z.mod_small; lia).
      eexists _, 1, v. split; [reflexivity|]. split; [done|]. split; [exact Hs'|]. split; [by left|exact Hr'].
    + destruct (take_bucket h m x key fl ks (h_n_occupied h)) as (v & Hr' & Hs'); [done..|rewrite He; lia|].
      eexists _, 2, v. split; [reflexivity|]. split; [done|]. split; [exact Hs'|]. split; [by right|exact Hr'].
    + unfold livebit in Hl. by rewrite He, Hd in Hl.
Qed.

(** [kh_value(h, x) = v] on a live bucket. *)
Lemma kh_set_value_spec h m x k v w : repr h m -> 0 <= x < h_n_buckets h -> slot h x = Some (k, w) ->
  exists h', kh_set_value h x v = Some h' /\ repr h' (<[k := Some v]> m) /\ h_n_buckets h' = h_n_buckets h.
Proof.
  intros Hr Hx E. pose proof (proj1 Hr) as Hw. pose proof (wf_vals h Hw) as Hv. unfold kh_set_value.
  rewrite wr_Some by lia. cbn. eexists; split; [reflexivity|]. set (h' := set_vals _ _). split; [|done].
  pose proof (slot_live _ _ _ E) as Hl. destruct (slot_key _ _ _ _ E) as [Ek _].
  assert (Hs1 : slot h' x = Some (k, Some v)).
  { unfold slot, entry_at, h'. cbn. rewrite Hl, Ek. cbn. by rewrite rd_insert, decide_True by (lia || done). }
  assert (Hsj : forall j, 0 <= j -> j <> x -> slot h' j = slot h j).
  { intros j Hj Hn. unfold slot, entry_at, h'. cbn. rewrite rd_insert by lia. by rewrite decide_False. }
  assert (Hc : changed_at x h h').
  { split; try done.
    - unfold h'. cbn. by rewrite length_insert.
    - unfold h'. cbn. destruct (ebit (h_flags h) x); lia.
    - apply (wf_load h Hw).
    - rewrite Hs1, E. done.
    - rewrite Hs1. intros k' v' [= <- _]. by eapply (wf_reach h Hw). }
  split; [by eapply changed_wf|].
  destruct (changed_entries x h h' Hc) as (rest & E1 & E2). rewrite E in E1. rewrite Hs1 in E2. cbn in E1, E2.
  rewrite E2. rewrite <- insert_delete_eq, map_to_list_insert by apply lookup_delete_eq. f_equiv.
  assert (Hm : m !! k = Some w) by (apply (repr_lookup h m); [done|]; by exists x).
  eapply perm_cons_cancel; [exact E1|]. rewrite (proj2 Hr). symmetry. by apply map_to_list_delete.
Qed.

(** ** Rehashing in place

    While entries move, a bucket belongs to the new table (its new flag is not empty), to the old one (its
    old flags say live), or to neither; no bucket belongs to both, and the entries of the two together with
    the one in hand are those of the table before. *)

Section Rehash.
Variables n n' : Z.
Variable E0 : list entry.
Hypothesis Hn' : table_size n'.
Hypothesis HE0 : Z.of_nat (length E0) < n'.

Definition new_entry (r : rehash K V) (i : Z) : option entry := entry_at (r_keys r) (r_vals r) (negb (ebit (r_new_flags r) i)) i.
Definition old_entry (r : rehash K V) (i : Z) : option entry := entry_at (r_keys r) (r_vals r) (livebit (r_flags r) i) i.

Record rinv (r : rehash K V) (hand : list entry) : Prop := mkRinv {
  ri_old : n <= 16 * Z.of_nat (length (r_flags r));
  ri_new : n' <= 16 * Z.of_nat (length (r_new_flags r));
  ri_len : Z.of_nat (length (r_new_flags r)) = __ac_fsize n';
  ri_keys : n <= Z.of_nat (length (r_keys r)) /\ n' <= Z.of_nat (length (r_keys r));
  ri_vals : n <= Z.of_nat (length (r_vals r)) /\ n' <= Z.of_nat (length (r_vals r));
  ri_del : forall i, 0 <= i < n' -> dbit (r_new_flags r) i = false;
  ri_disjoint : forall i, 0 <= i < n -> 0 <= i < n' -> ebit (r_new_flags r) i = false -> livebit (r_flags r) i = false;
  ri_ninit : forall i, 0 <= i < n' -> ebit (r_new_flags r) i = false -> is_Some (new_entry r i);
  ri_oinit : forall i, 0 <= i < n -> livebit (r_flags r) i = true -> is_Some (old_entry r i);
  ri_reach : forall i k v, 0 <= i < n' -> new_entry r i = Some (k, v) -> reach (r_new_flags r) n' k i;
  ri_perm : omap (new_entry r) (seqZ 0 n') ++ omap (old_entry r) (seqZ 0 n) ++ hand ≡ₚ E0
}.

Definition old_count (r : rehash K V) : nat := length (omap (old_entry r) (seqZ 0 n)).

Lemma entry_at_insert ks vs key val occ i j : 0 <= i < Z.of_nat (length ks) -> 0 <= i < Z.of_nat (length vs) -> 0 <= j ->
  entry_at (<[Z.to_nat i := Some key]> ks) (<[Z.to_nat i := val]> vs) occ j =
  if decide (i = j) then if occ then Some (key, val) else None else entry_at ks vs occ j.
Proof.
  intros Hi Hi' Hj. unfold entry_at. destruct occ; [|by case_decide]. rewrite !rd_insert by lia. by case_decide.
Qed.

(** The entry in hand goes into an empty bucket; what the old table had there comes into hand. *)
Lemma place r key val i nf fl :
  rinv r [(key, val)] -> 0 <= i < n' -> ebit (r_new_flags r) i = true -> reach (r_new_flags r) n' key i ->
  __ac_set_isempty_false (r_new_flags r) i = Some nf -> length fl = length (r_flags r) ->
  (forall j, 0 <= j -> j <> i -> livebit fl j = livebit (r_flags r) j) -> (i < n -> livebit fl i = false) ->
  let r' := mkRehash (<[Z.to_nat i := Some key]> (r_keys r)) (<[Z.to_nat i := val]> (r_vals r)) fl nf in
  let out := option_list (if i <? n then old_entry r i else None) in
  rinv r' out /\ (old_count r' + length out = old_count r)%nat.
Proof.
  intros Hr Hi He Hre Hnf Hfl Hlj Hli r' out. pose proof (ri_keys _ _ Hr) as Hk. pose proof (ri_vals _ _ Hr) as Hv.
  pose proof (ri_new _ _ Hr) as Hnew. assert (Hin : in_flags (r_new_flags r) i) by (unfold in_flags; lia).
  destruct (set_isempty_false_spec _ _ Hin) as (nf' & E & Hlen & He' & Hd' & Hj). rewrite Hnf in E. apply (inj Some) in E as <-.
  assert (Hne : new_entry r i = None) by (unfold new_entry, entry_at; by rewrite He).
  assert (Hnj : forall j, 0 <= j -> new_entry r' j = if decide (i = j) then Some (key, val) else new_entry r j).
  { intros j Hj0. unfold new_entry, r'. cbn. rewrite entry_at_insert by lia. case_decide as Eij; [subst j; by rewrite He'|].
    by destruct (Hj j Hj0 ltac:(done)) as [-> _]. }
  assert (Hoj : forall j, 0 <= j < n -> old_entry r' j = if decide (i = j) then None else old_entry r j).
  { intros j Hj0. unfold old_entry, r'. cbn. rewrite entry_at_insert by lia. case_decide as Eij; [subst j; by rewrite Hli by lia|].
    by rewrite Hlj by lia. }
  assert (Hperm : exists R, omap (new_entry r) (seqZ 0 n') ≡ₚ R /\ omap (new_entry r') (seqZ 0 n') ≡ₚ (key, val) :: R).
  { destruct (omap_change (new_entry r) (new_entry r') n' i Hi) as (R & E1 & E2).
    - intros j Hj0 Hne0. rewrite Hnj by lia. by rewrite decide_False by done.
    - exists R. rewrite Hne in E1. rewrite Hnj, decide_True in E2 by (lia || done). done. }
  assert (Hold : exists Q, omap (old_entry r) (seqZ 0 n) ≡ₚ out ++ Q /\ omap (old_entry r') (seqZ 0 n) ≡ₚ Q).
  { unfold out. destruct (Z.ltb_spec i n) as [Hlt|Hge].
    - destruct (omap_change (old_entry r) (old_entry r') n i ltac:(lia)) as (Q & E1 & E2).
      + intros j Hj0 Hne0. rewrite Hoj by lia. by rewrite decide_False by done.
      + exists Q. rewrite Hoj, decide_True in E2 by (lia || done). done.
    - exists (omap (old_entry r) (seqZ 0 n)). split; [done|]. erewrite omap_ext_on; [done|].
      intros j Hj0%elem_of_seqZ. rewrite Hoj by lia. rewrite decide_False by lia. done. }
  destruct Hperm as (R & P1 & P2), Hold as (Q & Q1 & Q2). split; [split|].
  - cbn. rewrite Hfl. apply (ri_old _ _ Hr).
  - cbn. by rewrite Hlen.
  - cbn. rewrite Hlen. apply (ri_len _ _ Hr).
  - cbn. by rewrite length_insert.
  - cbn. by rewrite length_insert.
  - intros j Hj0. cbn. destruct (decide (j = i)) as [->|Hd]; [rewrite Hd'; by apply (ri_del _ _ Hr)|].
    destruct (Hj j ltac:(lia) Hd) as [_ ->]. by apply (ri_del _ _ Hr).
  - intros j Hj0 Hj1. cbn. destruct (decide (j = i)) as [->|Hd]; [intros _; apply Hli; lia|].
    destruct (Hj j ltac:(lia) Hd) as [-> _]. rewrite Hlj by lia. by apply (ri_disjoint _ _ Hr).
  - intros j Hj0 Hj1. rewrite Hnj by lia. case_decide as Hd; [by eexists|].
    apply (ri_ninit _ _ Hr); [done|]. by destruct (Hj j ltac:(lia) (not_eq_sym Hd)) as [<- _].
  - intros j Hj0 Hj1. rewrite Hoj by lia. case_decide as Hd.
    + subst j. exfalso. cbn in Hj1. rewrite Hli in Hj1 by lia. done.
    + apply (ri_oinit _ _ Hr); [done|]. by rewrite <- (Hlj j ltac:(lia) (not_eq_sym Hd)).
  - intros j k v Hj0. rewrite Hnj by lia. intros Hs. pose proof (table_size_range n' Hn') as Hrg.
    apply (reach_mono (r_new_flags r)); [lia| |].
    + intros t Ht. cbn. destruct (decide (t = i)) as [->|Hd]; [done|]. by destruct (Hj t ltac:(lia) Hd) as [-> _].
    + case_decide as Hd; [subst j; by injection Hs as <- _|by eapply (ri_reach _ _ Hr)].
  - pose proof (ri_perm _ _ Hr) as Hp. rewrite P1, Q1 in Hp. rewrite P2, Q2, <- Hp. solve_Permutation.
  - unfold old_count. rewrite Q1, Q2, length_app. lia.
Qed.

Lemma find_empty_spec fl hv s0 fuel s :
  n' <= 16 * Z.of_nat (length fl) -> 0 <= s0 < n' -> ebit fl (probe n' hv s0) = true ->
  0 <= s <= s0 -> (Z.to_nat (s0 - s) < fuel)%nat -> (forall t, 0 <= t < s -> ebit fl (probe n' hv t) = false) ->
  exists s1, find_empty fuel fl (n' - 1) (probe n' hv s) s = Some (probe n' hv s1) /\ 0 <= s1 < n' /\
    ebit fl (probe n' hv s1) = true /\ (forall t, 0 <= t < s1 -> ebit fl (probe n' hv t) = false).
Proof.
  intros Hl Hs0 He. pose proof (table_size_range n' Hn') as Hrg. change (2 ^ 31) with 2147483648 in Hrg.
  revert s; induction fuel as [|fuel IH]; intros s Hs Hf Ht; [lia|]. cbn [find_empty].
  pose proof (probe_range n' hv s ltac:(lia)) as Hp. rewrite isempty_spec by (unfold in_flags; lia). cbn.
  destruct (ebit fl (probe n' hv s)) eqn:Hes; [exists s; split_and!; lia || done|].
  rewrite probe_next by (change (2 ^ 32) with 4294967296; lia || done). assert (s <> s0) by congruence.
  unfold u32. rewrite Z.mod_small by (change (2 ^ 32) with 4294967296; lia). apply IH; [lia|lia|].
  intros t Hlt. destruct (Z.eq_dec t s) as [->|]; [done|]. apply Ht. lia.
Qed.

(** The new table never fills up, so the search for an empty bucket succeeds. *)
Lemma new_bucket r hand key : rinv r hand ->
  exists i, find_empty (2 * Z.to_nat n') (r_new_flags r) (n' - 1) (Z.land (hash_func key) (n' - 1)) 0 = Some i /\
    0 <= i < n' /\ ebit (r_new_flags r) i = true /\ reach (r_new_flags r) n' key i.
Proof.
  intros Hr. pose proof (table_size_range n' Hn') as Hrg. rewrite probe_start by done.
  destruct (probe_meets_empty (r_new_flags r) n' (hash_func key) Hn') as (s0 & Hs0 & He).
  { apply Z.le_lt_trans with (Z.of_nat (length E0)); [|done]. rewrite <- (ri_perm _ _ Hr), length_app.
    unfold occupied. rewrite (omap_same_length _ (new_entry r)); [lia|].
    intros j Hj%elem_of_seqZ. pose proof (ri_ninit _ _ Hr j ltac:(lia)) as Hi. unfold new_entry, entry_at in *.
    destruct (ebit (r_new_flags r) j); cbn in *; [by split; intros [? [=]]|]. split; [intros _; by apply Hi|by eexists]. }
  destruct (find_empty_spec (r_new_flags r) (hash_func key) s0 (2 * Z.to_nat n') 0 (ri_new _ _ Hr) Hs0 He) as (s1 & E & Hs1 & He1 & Ht);
    [lia|lia|intros; lia|].
  exists (probe n' (hash_func key) s1). split; [done|]. split; [apply probe_range; lia|]. split; [done|]. by exists s1.
Qed.

Lemma old_live_spec r hand i : rinv r hand -> 0 <= i ->
  old_live n (r_flags r) i = Some ((i <? n) && livebit (r_flags r) i).
Proof.
  intros Hr Hi. unfold old_live. zcases; [|done]. pose proof (ri_old _ _ Hr).
  rewrite iseither_spec by (unfold in_flags; lia). cbn. by rewrite negb_involutive.
Qed.

Lemma old_entry_cells r i k v : old_entry r i = Some (k, v) -> mjoin (rd (r_keys r) i) = Some k /\ rd (r_vals r) i = Some v.
Proof.
  unfold old_entry, entry_at. destruct (livebit (r_flags r) i); [|done]. destruct (mjoin (rd (r_keys r) i)); [|done]. cbn.
  destruct (rd (r_vals r) i); [|done]. by intros [= -> ->].
Qed.

Lemma isdel_live fl fl' i : dbit fl' i = true -> (forall j, 0 <= j -> j <> i -> ebit fl' j = ebit fl j /\ dbit fl' j = dbit fl j) ->
  livebit fl' i = false /\ (forall j, 0 <= j -> j <> i -> livebit fl' j = livebit fl j).
Proof.
  intros Hd Hj. unfold livebit. rewrite Hd, andb_false_r. split; [done|]. intros j H0 Hne. by destruct (Hj j H0 Hne) as [-> ->].
Qed.

(** The kick-out loop ends with nothing in hand and no new live entry in the old table. *)
Lemma kick_out_spec fuel r key val :
  rinv r [(key, val)] -> (old_count r < fuel)%nat ->
  exists r', kick_out hash_func fuel n n' key val r = Some r' /\ rinv r' [] /\
    (forall j, 0 <= j < n -> livebit (r_flags r) j = false -> livebit (r_flags r') j = false).
Proof.
  revert r key val; induction fuel as [|fuel IH]; intros r key val Hr Hf; [lia|]. cbn [kick_out]. cbv zeta.
  destruct (new_bucket r _ key Hr) as (i & -> & Hi & He & Hre). cbn.
  pose proof (ri_new _ _ Hr) as Hnew. pose proof (ri_old _ _ Hr) as Hol. pose proof (ri_keys _ _ Hr) as Hk. pose proof (ri_vals _ _ Hr) as Hv.
  destruct (set_isempty_false_spec (r_new_flags r) i ltac:(unfold in_flags; lia)) as (nf & Enf & _). rewrite Enf. cbn.
  rewrite (old_live_spec r _ i Hr ltac:(lia)). cbn. rewrite !wr_Some by lia. cbn.
  destruct (Z.ltb_spec i n) as [Hlt|Hge]; cbn; [destruct (livebit (r_flags r) i) eqn:Hl|].
  - destruct (ri_oinit _ _ Hr i ltac:(lia) Hl) as [[k2 v2] Eo]. destruct (old_entry_cells r i k2 v2 Eo) as [-> ->]. cbn.
    destruct (set_isdel_true_spec (r_flags r) i ltac:(unfold in_flags; lia)) as (fl & -> & Hlen & _ & Hd & Hj). cbn.
    destruct (isdel_live _ _ _ Hd Hj) as [Hi0 Hlj].
    destruct (place r key val i nf fl Hr Hi He Hre Enf Hlen Hlj ltac:(done)) as [Hr' Hc].
    rewrite (proj2 (Z.ltb_lt i n) Hlt), Eo in Hr', Hc. cbn in Hr', Hc.
    destruct (IH _ k2 v2 Hr') as (r' & E & Hr2 & Hlive); [cbn in *; lia|]. exists r'. split; [exact E|]. split; [done|].
    intros j Hj0 Hjl. apply Hlive; [done|]. cbn. destruct (decide (j = i)) as [->|Hne]; [done|]. by rewrite Hlj by lia.
  - destruct (place r key val i nf (r_flags r) Hr Hi He Hre Enf) as [Hr' _]; [done..|].
    rewrite (proj2 (Z.ltb_lt i n) Hlt) in Hr'. unfold old_entry, entry_at in Hr'. rewrite Hl in Hr'. eexists; by split; [reflexivity|].
  - destruct (place r key val i nf (r_flags r) Hr Hi He Hre Enf) as [Hr' _]; [done..|lia|].
    rewrite (proj2 (Z.ltb_ge i n) Hge) in Hr'. eexists; by split; [reflexivity|].
Qed.

(** Taking a live entry of the old table into hand. *)
Lemma pick r j k v fl : rinv r [] -> 0 <= j < n -> old_entry r j = Some (k, v) -> length fl = length (r_flags r) ->
  livebit fl j = false -> (forall i, 0 <= i -> i <> j -> livebit fl i = livebit (r_flags r) i) ->
  rinv (mkRehash (r_keys r) (r_vals r) fl (r_new_flags r)) [(k, v)].
Proof.
  intros Hr Hj E Hlen Hl Hlj. set (r' := mkRehash _ _ _ _).
  assert (Hoj : forall i, 0 <= i < n -> i <> j -> old_entry r' i = old_entry r i).
  { intros i Hi Hne. unfold old_entry, r'. cbn. by rewrite Hlj by lia. }
  destruct (omap_change (old_entry r) (old_entry r') n j Hj Hoj) as (Q & Q1 & Q2).
  rewrite E in Q1. unfold old_entry at 2, entry_at in Q2. cbn in Q1, Q2. rewrite Hl in Q2. cbn in Q2.
  split; try apply Hr; cbn.
  - rewrite Hlen. apply (ri_old _ _ Hr).
  - intros i Hi Hi' He. destruct (decide (i = j)) as [->|Hne]; [done|]. rewrite Hlj by lia. by apply (ri_disjoint _ _ Hr).
  - intros i Hi Hil. destruct (decide (i = j)) as [->|Hne]; [congruence|]. rewrite Hlj in Hil by lia.
    rewrite Hoj by lia. by apply (ri_oinit _ _ Hr).
  - pose proof (ri_perm _ _ Hr) as Hp. rewrite Q1 in Hp. rewrite Q2, <- Hp. unfold r'. solve_Permutation.
Qed.

Lemma rehash_loop_spec cnt j r :
  rinv r [] -> 0 <= j -> j + Z.of_nat cnt = n -> (forall i, 0 <= i < j -> livebit (r_flags r) i = false) ->
  exists r', rehash_loop hash_func cnt j n n' r = Some r' /\ rinv r' [] /\ (forall i, 0 <= i < n -> livebit (r_flags r') i = false).
Proof.
  revert j r; induction cnt as [|cnt IH]; intros j r Hr H0 Hj Hdone.
  { exists r. split; [done|]. split; [done|]. intros i Hi. apply Hdone. lia. }
  cbn [rehash_loop]. pose proof (ri_old _ _ Hr) as Hol. assert (Hf : in_flags (r_flags r) j) by (unfold in_flags; lia).
  rewrite iseither_spec by done. cbn -[kick_out]. destruct (livebit (r_flags r) j) eqn:Hl; cbn -[kick_out].
  - destruct (ri_oinit _ _ Hr j ltac:(lia) Hl) as [[k v] E]. destruct (old_entry_cells r j k v E) as [-> ->]. cbn -[kick_out].
    destruct (set_isdel_true_spec (r_flags r) j Hf) as (fl & -> & Hlen & _ & Hd & Hdj). cbn -[kick_out].
    destruct (isdel_live _ _ _ Hd Hdj) as [Hi0 Hlj]. pose proof (pick r j k v fl Hr ltac:(lia) E Hlen Hi0 Hlj) as Hp.
    destruct (kick_out_spec (S (Z.to_nat n)) _ k v Hp) as (r' & Ek & Hr' & Hlive).
    { unfold old_count. pose proof (length_entries_le (old_entry (mkRehash (r_keys r) (r_vals r) fl (r_new_flags r))) (seqZ 0 n)) as Hle.
      rewrite length_seqZ in Hle. lia. }
    rewrite Ek. cbn. apply IH; [done|lia|lia|]. intros i Hi. apply Hlive; [lia|]. cbn.
    destruct (decide (i = j)) as [->|Hne]; [done|]. rewrite Hlj by lia. apply Hdone. lia.
  - apply IH; [done|lia|lia|]. intros i Hi. destruct (decide (i = j)) as [->|Hne]; [done|]. apply Hdone. lia.
Qed.

End Rehash.

(** Arrays moved or resized around the same buckets represent the same map. *)
Lemma repr_arrays h m ks vs : repr h m ->
  h_n_buckets h <= Z.of_nat (length ks) -> h_n_buckets h <= Z.of_nat (length vs) ->
  (forall i, 0 <= i < h_n_buckets h -> rd ks i = rd (h_keys h) i /\ rd vs i = rd (h_vals h) i) ->
  repr (set_vals (set_keys h ks) vs) m.
Proof.
  intros [Hw Hp] Hk Hv Hrd. set (h' := set_vals (set_keys h ks) vs).
  assert (Hs : forall i, 0 <= i < h_n_buckets h -> slot h' i = slot h i).
  { intros i Hi. unfold slot, entry_at, h'. cbn. destruct (Hrd i Hi) as [-> ->]. done. }
  assert (He : entries h' = entries h).
  { unfold entries. apply omap_ext_on. intros i Hi%elem_of_seqZ. apply Hs. cbn in Hi. lia. }
  split; [|by rewrite He]. split; try apply Hw; try done.
  - intros i Hi Hl. rewrite Hs by done. by apply (wf_init h Hw).
  - intros i k v Hi Es. rewrite Hs in Es by done. by eapply (wf_reach h Hw).
  - rewrite He. apply (wf_size h Hw).
Qed.

(** The state in which the rehash starts. *)
Lemma rinv_start h m n' : repr h m -> table_size n' ->
  n' <= Z.of_nat (length (h_keys h)) -> n' <= Z.of_nat (length (h_vals h)) ->
  rinv (h_n_buckets h) n' (entries h) (mkRehash (h_keys h) (h_vals h) (h_flags h) (fresh_flags n')) [].
Proof.
  intros [Hw Hp] Hn' Hk Hv. pose proof (table_size_range n' Hn'). pose proof (fsize_covers n' ltac:(lia) Hn') as Hc.
  assert (Hfr : forall i, 0 <= i < n' -> ebit (fresh_flags n') i = true /\ dbit (fresh_flags n') i = false).
  { intros i Hi. apply fresh_flags_bits. lia. }
  assert (Hnone : forall i, 0 <= i < n' -> new_entry (mkRehash (h_keys h) (h_vals h) (h_flags h) (fresh_flags n')) i = None).
  { intros i Hi. unfold new_entry, entry_at. cbn. by destruct (Hfr i Hi) as [-> _]. }
  split; cbn.
  - destruct (wf_shape h Hw) as [(-> & _)|(Ht & -> & _)]; [lia|]. apply fsize_covers; [|done]. apply table_size_range in Ht. lia.
  - unfold fresh_flags. rewrite length_replicate. lia.
  - unfold fresh_flags. rewrite length_replicate. lia.
  - split; [apply (wf_keys h Hw)|done].
  - split; [apply (wf_vals h Hw)|done].
  - intros i Hi. by apply Hfr.
  - intros i _ Hi He. destruct (Hfr i Hi). congruence.
  - intros i Hi He. destruct (Hfr i Hi). congruence.
  - apply (wf_init h Hw).
  - intros i k v Hi. by rewrite Hnone.
  - rewrite omap_none, app_nil_r; [done|]. intros j Hj%elem_of_seqZ. apply Hnone. lia.
Qed.

(** The state in which it ends is a table with the same entries and no tombstones. *)
Lemma rinv_end h m n' r ks vs : repr h m -> table_size n' -> h_size h < hash_upper n' ->
  rinv (h_n_buckets h) n' (entries h) r [] -> (forall i, 0 <= i < h_n_buckets h -> livebit (r_flags r) i = false) ->
  n' <= Z.of_nat (length ks) -> n' <= Z.of_nat (length vs) ->
  (forall i, 0 <= i < n' -> rd ks i = rd (r_keys r) i /\ rd vs i = rd (r_vals r) i) ->
  repr (mkKh n' (h_size h) (h_size h) (hash_upper n') (r_new_flags r) ks vs) m.
Proof.
  intros [Hw Hp] Hn' Hsz Hr Hold Hk Hv Hrd. set (h' := mkKh _ _ _ _ _ _ _).
  assert (Hlive : forall i, 0 <= i < n' -> livebit (r_new_flags r) i = negb (ebit (r_new_flags r) i)).
  { intros i Hi. unfold livebit. rewrite (ri_del _ _ _ _ _ Hr i Hi). by rewrite andb_true_r. }
  assert (Hs : forall i, 0 <= i < n' -> slot h' i = new_entry r i).
  { intros i Hi. unfold slot, new_entry, entry_at, h'. cbn. rewrite Hlive by done. by destruct (Hrd i Hi) as [-> ->]. }
  assert (He : entries h' = omap (new_entry r) (seqZ 0 n')).
  { unfold entries. apply omap_ext_on. intros i Hi%elem_of_seqZ. apply Hs. cbn in Hi. lia. }
  assert (HE : entries h' ≡ₚ entries h).
  { rewrite He. rewrite <- (ri_perm _ _ _ _ _ Hr). rewrite (omap_none (old_entry r)), !app_nil_r; [done|].
    intros j Hj%elem_of_seqZ. unfold old_entry, entry_at. by rewrite Hold by lia. }
  split; [|by rewrite HE]. split; cbn; try done.
  - right. split; [done|]. split; [apply (ri_len _ _ _ _ _ Hr)|done].
  - intros i Hi Hl. rewrite Hs by done. apply (ri_ninit _ _ _ _ _ Hr); [done|]. rewrite Hlive in Hl by done. by apply negb_true_iff in Hl.
  - intros i k v Hi Es. rewrite Hs in Es by done. by eapply (ri_reach _ _ _ _ _ Hr).
  - rewrite (wf_size h Hw), <- HE, He. unfold occupied. f_equal. apply omap_same_length. intros i Hi%elem_of_seqZ.
    pose proof (ri_ninit _ _ _ _ _ Hr i ltac:(lia)) as Hi0. unfold new_entry, entry_at in *.
    destruct (ebit (r_new_flags r) i); cbn in *; [by split; intros [? [=]]|]. split; [by eexists|intros _; by apply Hi0].
  - lia.
  - rewrite HE. apply (wf_size h Hw).
Qed.

Lemma kh_rehash_spec a h m n' : repr h m -> table_size n' -> h_size h < hash_upper n' ->
  n' <= Z.of_nat (length (h_keys h)) -> n' <= Z.of_nat (length (h_vals h)) ->
  (n' < h_n_buckets h -> keys_ok a = true /\ vals_ok a = true) ->
  exists h', kh_rehash hash_func a h n' = Some (h', 0) /\ repr h' m /\ h_n_buckets h' = n' /\ h_n_occupied h' < h_upper_bound h'.
Proof.
  intros Hr Hn' Hsz Hk Hv Ha. pose proof (table_size_range n' Hn') as Hrg. pose proof (hash_upper_bounds n' ltac:(lia)) as Hu.
  assert (Hn0 : 0 <= h_n_buckets h).
  { destruct (wf_shape h (proj1 Hr)) as [(-> & _)|(Ht & _)]; [lia|]. apply table_size_range in Ht. lia. }
  assert (HE : Z.of_nat (length (entries h)) < n') by (rewrite <- (wf_size h (proj1 Hr)); lia).
  destruct (rehash_loop_spec (h_n_buckets h) n' (entries h) Hn' HE (Z.to_nat (h_n_buckets h)) 0 _ (rinv_start h m n' Hr Hn' Hk Hv))
    as (r & E & Hri & Hold); [lia|lia|intros; lia|].
  unfold kh_rehash. rewrite E. cbn. eexists; split; [reflexivity|]. split; [|split; [done|cbn; lia]].
  pose proof (ri_keys _ _ _ _ _ Hri) as Hrk. pose proof (ri_vals _ _ _ _ _ Hri) as Hrv.
  destruct (Z.ltb_spec n' (h_n_buckets h)) as [Hlt|Hge]; [destruct (Ha Hlt) as [-> ->]|]; eapply rinv_end; eauto.
  - by rewrite krealloc_length by lia.
  - by rewrite krealloc_length by lia.
  - intros i Hi. by rewrite !krealloc_rd by lia.
  - lia.
  - lia.
Qed.

(** [kh_resize]: the map is the same whatever happens; when it returns -1 an allocation failed, and when
    the requested size can hold the entries the table has that size. *)
Lemma kh_resize_spec a h m req : repr h m -> is_u32 req ->
  let n' := if kroundup32 req <? 4 then 4 else kroundup32 req in
  (n' < h_n_buckets h -> keys_ok a = true /\ vals_ok a = true) ->
  exists h' rc, kh_resize hash_func a h req = Some (h', rc) /\ repr h' m /\
    ((rc = -1 /\ flags_ok a && keys_ok a && vals_ok a = false /\ h_n_buckets h' = h_n_buckets h) \/
     (rc = 0 /\ hash_upper n' <= h_size h /\ h' = h) \/
     (rc = 0 /\ h_size h < hash_upper n' /\ h_n_buckets h' = n' /\ h_n_occupied h' < h_upper_bound h')).
Proof.
  intros Hr Hq n' Ha. pose proof (rounded_table_size req Hq) as Hn'. fold n' in Hn'. unfold kh_resize. fold n'. cbv zeta.
  pose proof (table_size_range n' Hn') as Hrg. pose proof (wf_keys h (proj1 Hr)) as Hk. pose proof (wf_vals h (proj1 Hr)) as Hv.
  destruct (Z.leb_spec (hash_upper n') (h_size h)) as [Hle|Hgt]; [exists h, 0; split; [done|]; split; [done|]; by right; left|].
  destruct (flags_ok a) eqn:Fa; cbn [negb]; [|exists h, (-1); split; [done|]; split; [done|]; by left].
  destruct (Z.ltb_spec (h_n_buckets h) n') as [Hlt|Hge].
  - destruct (keys_ok a) eqn:Ka; cbn [negb]; [|exists h, (-1); split; [done|]; split; [done|]; by left].
    assert (Hrk : forall i, 0 <= i < h_n_buckets h -> rd (krealloc (h_keys h) n') i = rd (h_keys h) i) by (intros; apply krealloc_rd; lia).
    assert (Hrv : forall i, 0 <= i < h_n_buckets h -> rd (krealloc (h_vals h) n') i = rd (h_vals h) i) by (intros; apply krealloc_rd; lia).
    destruct (vals_ok a) eqn:Va; cbn [negb].
    + destruct (kh_rehash_spec a (set_vals (set_keys h (krealloc (h_keys h) n')) (krealloc (h_vals h) n')) m n') as (h' & E & Hr' & Hb & Ho);
        [apply repr_arrays; [done|rewrite krealloc_length; lia|rewrite krealloc_length; lia|by split; auto]|done|cbn; lia|
         cbn; rewrite krealloc_length; lia|cbn; rewrite krealloc_length; lia|cbn; lia|].
      exists h', 0. split; [exact E|]. split; [done|]. by right; right.
    + exists (set_keys h (krealloc (h_keys h) n')), (-1). split; [done|]. split; [|by left].
      apply (repr_arrays h m (krealloc (h_keys h) n') (h_vals h)); [done|rewrite krealloc_length; lia|done|]. intros i Hi. by rewrite Hrk.
  - destruct (kh_rehash_spec a h m n') as (h' & E & Hr' & Hb & Ho); [done|done|done|lia|lia|intros; by apply Ha|].
    exists h', 0. split; [exact E|]. split; [done|]. by right; right.
Qed.

Definition alloc_ok (a : alloc) : bool := flags_ok a && keys_ok a && vals_ok a.

(** Making room: the table has a bucket to spare afterwards, or an allocation failed. *)
Lemma kh_put_room_spec a h m : repr h m -> h_size h < 2 ^ 30 ->
  exists h' rc, kh_put_room hash_func a h = Some (h', rc) /\ repr h' m /\
    ((rc = -1 /\ alloc_ok a = false) \/ (rc = 0 /\ h_n_buckets h' <> 0 /\ h_n_occupied h' < h_upper_bound h')).
Proof.
  intros Hr Hsz. pose proof (proj1 Hr) as Hw. change (2 ^ 30) with 1073741824 in Hsz.
  assert (Hs0 : 0 <= h_size h) by (rewrite (wf_size h Hw); lia). unfold kh_put_room.
  destruct (Z.leb_spec (h_upper_bound h) (h_n_occupied h)) as [Hle|Hlt].
  2:{ exists h, 0. split; [done|]. split; [done|]. right. split; [done|]. split; [|done].
      destruct (wf_shape h Hw) as [(_ & _ & E)|(Ht & _)]; [rewrite (wf_occ h Hw) in Hlt; lia|apply table_size_range in Ht; lia]. }
  rewrite Z.shiftl_mul_pow2 by lia. change (2 ^ 1) with 2. unfold u32 at 1. rewrite Z.mod_small by (change (2 ^ 32) with 4294967296; lia).
  assert (Hreq : forall req n', is_u32 req -> (if kroundup32 req <? 4 then 4 else kroundup32 req) = n' -> h_n_buckets h <= n' ->
    h_size h < hash_upper n' -> 4 <= n' -> exists h' rc, kh_resize hash_func a h req = Some (h', rc) /\ repr h' m /\
    ((rc = -1 /\ alloc_ok a = false) \/ (rc = 0 /\ h_n_buckets h' <> 0 /\ h_n_occupied h' < h_upper_bound h'))).
  { intros req n' Hq En Hn Hu H4. destruct (kh_resize_spec a h m req Hr Hq) as (h' & rc & E & Hr' & Hc); [rewrite En; lia|].
    rewrite En in Hc. exists h', rc. split; [done|]. split; [done|].
    destruct Hc as [(-> & Hf & _)|[(_ & Hbad & _)|(-> & _ & Hb & Ho)]]; [by left|lia|]. right. split; [done|]. split; [lia|done]. }
  destruct (wf_shape h Hw) as [(E0 & _ & _)|(Ht & _ & _)].
  - assert (Hz : h_size h = 0) by (rewrite (wf_size h Hw); unfold entries; by rewrite E0). rewrite E0, Hz. cbn [Z.mul Z.ltb Z.compare].
    by apply (Hreq (u32 (0 + 1)) 4); [apply Z.mod_pos_bound|vm_compute|lia|rewrite Hz|].
  - pose proof (table_size_range _ Ht) as Hrg. change (2 ^ 31) with 2147483648 in Hrg.
    destruct (hash_upper_bounds (h_n_buckets h)) as [Hu1 Hu2]; [lia|].
    destruct (Z.ltb_spec (h_size h * 2) (h_n_buckets h)).
    + apply (Hreq _ (h_n_buckets h)); [apply Z.mod_pos_bound; lia|rewrite kroundup32_pred by done; zcases; lia|lia|lia|lia].
    + destruct (hash_upper_bounds (2 * h_n_buckets h)) as [Hu3 _]; [lia|]. destruct (bucket_size h m Hr) as (Hbs & _); [lia|].
      apply (Hreq _ (2 * h_n_buckets h)); [apply Z.mod_pos_bound; lia| |lia|lia|lia].
      rewrite kroundup32_succ by (done || lia). zcases; lia.
Qed.

(** [kh_put]: an allocation failed and nothing changed, or the key has a bucket, its value untouched. *)
Lemma kh_put_spec a h m key : repr h m -> h_size h < 2 ^ 30 ->
  exists h' x ret, kh_put hash_func hash_equal a h key = Some (h', x, ret) /\
    ((ret = -1 /\ alloc_ok a = false /\ x = h_n_buckets h' /\ repr h' m) \/
     (0 <= x < h_n_buckets h' /\ exists v, slot h' x = Some (key, v) /\
        match m !! key with
        | Some w => ret = 0 /\ v = w /\ repr h' m
        | None => (ret = 1 \/ ret = 2) /\ repr h' (<[key := v]> m)
        end)).
Proof.
  intros Hr Hsz. destruct (kh_put_room_spec a h m Hr Hsz) as (h1 & rc & E & Hr1 & Hc). unfold kh_put. rewrite E. cbn.
  destruct Hc as [(-> & Hf)|(-> & Hn & Ho)].
  - exists h1, (h_n_buckets h1), (-1). split; [done|]. by left.
  - cbn. destruct (kh_put_bucket_spec h1 m key Hr1 Hn) as (x & Ex & Hx & Hm). rewrite Ex. cbn.
    destruct (kh_put_at_spec h1 m key x Hr1 Hx Ho Hm) as (h' & ret & v & E' & Hb & Hs & Hmm).
    exists h', x, ret. split; [done|]. right. split; [by rewrite Hb|]. by exists v.
Qed.

Lemma kh_init_repr : repr kh_init ∅.
Proof.
  split; [|by rewrite map_to_list_empty]. split; cbn; try done; try (intros; lia). by left.
Qed.

Lemma kh_clear_repr h m : repr h m -> repr (kh_clear h) ∅.
Proof.
  intros [Hw Hp]. unfold kh_clear. destruct (wf_shape h Hw) as [(E0 & Ef & Eu)|(Ht & Hl & Hu)].
  - rewrite Ef. split; [done|]. unfold entries. rewrite E0. cbn. by rewrite map_to_list_empty.
  - pose proof (table_size_range _ Ht) as Hrg. pose proof (fsize_covers (h_n_buckets h) ltac:(lia) Ht) as Hc.
    destruct (h_flags h) as [|w fl] eqn:Ef; [cbn in Hl; lia|]. set (h' := mkKh _ _ _ _ _ _ _).
    assert (Hfr : forall i, 0 <= i < h_n_buckets h -> ebit (h_flags h') i = true /\ dbit (h_flags h') i = false).
    { intros i Hi. apply fresh_flags_bits. lia. }
    assert (Hs : forall i, 0 <= i < h_n_buckets h -> slot h' i = None).
    { intros i Hi. unfold slot, entry_at, livebit. by destruct (Hfr i Hi) as [-> _]. }
    assert (He : entries h' = []) by (apply omap_none; intros i Hi%elem_of_seqZ; apply Hs; cbn in Hi; lia).
    split; [|by rewrite He, map_to_list_empty]. split; try apply Hw.
    + right. split; [done|]. split; [|done]. unfold h', fresh_flags. cbn. rewrite length_replicate. lia.
    + intros i Hi Hlv. exfalso. apply livebit_bits in Hlv as [Hlv _]. destruct (Hfr i Hi). congruence.
    + intros i k v Hi. by rewrite Hs.
    + cbn. unfold occupied. rewrite omap_none; [done|]. intros i Hi%elem_of_seqZ. cbn in Hfr. destruct (Hfr i) as [-> _]; [lia|done].
    + cbn. rewrite Hu. destruct (hash_upper_bounds (h_n_buckets h)); lia.
    + by rewrite He.
Qed.

End Simulation.
