(* ===== verification/Tables.v ===== *)
(** * The hash tables of the node ([include/utils.h], [src/txmempool.c], [src/balance_sheet.c])

    The idioms in which the node uses khash -- insert and store, look up, remove, delete while iterating,
    walk the buckets -- refine finite maps, for any sequence of calls and any pattern of failing
    allocations; the transaction pool and the balance sheet are instances, keyed by [hash_key32]. *)
From S2P Require Import Prelude Bytes UInt256 Utils Crypto Transaction BalanceSheet Mempool KHash KHashInvariant.

(** ** Keys *)

(** FNV-1a over the 32 bytes. *)
Definition hash_key32 (k : bytes) : Z :=
  fold_left (fun hash b => u32 (Z.lxor hash b * 16777619)) k 2166136261.

Definition eq_key32 (a b : bytes) : bool := memeq a b.

(** ** The idioms *)

Section Idioms.
Context {K V : Type}.
Variable hash_func : K -> Z.
Variable hash_equal : K -> K -> bool.

(** [k = kh_put(...); if (k == kh_end(h)) return -1; kh_value(h, k) = v; return ret]. *)
Definition table_insert (a : alloc) (h : kh K V) (key : K) (v : V) : option (kh K V * Z) :=
  '(h, x, ret) ← kh_put hash_func hash_equal a h key;
  if x =? kh_end h then Some (h, -1)
  else h ← kh_set_value h x v; Some (h, ret).

(** [k = kh_get(...); if (k != kh_end(h)) *out = kh_value(h, k)]. *)
Definition table_lookup (h : kh K V) (key : K) : option (option V) :=
  x ← kh_get hash_func hash_equal h key;
  if x =? kh_end h then Some None
  else v ← kh_value h x; Some (Some v).

Definition table_remove (h : kh K V) (key : K) : option (kh K V * bool) :=
  x ← kh_get hash_func hash_equal h key;
  if x =? kh_end h then Some (h, false)
  else h ← kh_del h x; Some (h, true).

(** [for (k = kh_begin(h); k != kh_end(h); ++k)] deleting what the test selects, with [cnt] buckets to go. *)
Fixpoint prune_loop (cnt : nat) (k : Z) (test : V -> bool) (h : kh K V) (removed : Z) : option (kh K V * Z) :=
  match cnt with
  | O => Some (h, removed)
  | S cnt =>
      e ← kh_exist h k;
      if e : bool then
        v ← kh_value h k;
        if test v then h ← kh_del h k; prune_loop cnt (k + 1) test h (removed + 1)
        else prune_loop cnt (k + 1) test h removed
      else prune_loop cnt (k + 1) test h removed
  end.
Definition table_prune (test : V -> bool) (h : kh K V) : option (kh K V * Z) :=
  prune_loop (Z.to_nat (kh_end h)) 0 test h 0.

(** The same walk, collecting keys and values. *)
Fixpoint kh_foreach_from (cnt : nat) (k : Z) (h : kh K V) : option (list (K * V)) :=
  match cnt with
  | O => Some []
  | S cnt =>
      e ← kh_exist h k;
      if e : bool then
        key ← kh_key h k;
        v ← kh_value h k;
        l ← kh_foreach_from cnt (k + 1) h;
        Some ((key, v) :: l)
      else kh_foreach_from cnt (k + 1) h
  end.
Definition kh_foreach (h : kh K V) : option (list (K * V)) := kh_foreach_from (Z.to_nat (kh_end h)) 0 h.

(** ** Calls on a table, and what they mean for a map *)

Inductive kop :=
| KInsert (a : alloc) (k : K) (v : V)
| KLookup (k : K)
| KRemove (k : K)
| KPrune (test : V -> bool)
| KForeach
| KSize
| KClear.

Inductive kres :=
| RInsert (ret : Z)
| RLookup (o : option V)
| RRemove (found : bool)
| RPrune (removed : Z)
| RForeach (l : list (K * V))
| RSize (n : Z)
| RClear.

Definition kh_step (h : kh K V) (op : kop) : option (kh K V * kres) :=
  match op with
  | KInsert a k v => '(h, ret) ← table_insert a h k v; Some (h, RInsert ret)
  | KLookup k => o ← table_lookup h k; Some (h, RLookup o)
  | KRemove k => '(h, b) ← table_remove h k; Some (h, RRemove b)
  | KPrune test => '(h, n) ← table_prune test h; Some (h, RPrune n)
  | KForeach => l ← kh_foreach h; Some (h, RForeach l)
  | KSize => Some (h, RSize (h_size h))
  | KClear => Some (kh_clear h, RClear)
  end.

Fixpoint kh_run (h : kh K V) (ops : list kop) : option (kh K V * list kres) :=
  match ops with
  | [] => Some (h, [])
  | op :: ops => '(h, r) ← kh_step h op; '(h, rs) ← kh_run h ops; Some (h, r :: rs)
  end.

Context `{Countable K}.

(** The specification: the same calls on a finite map.  Only a failed allocation makes an insertion
    fail, and then nothing changes; 0 says that the key was there, 1 or 2 that it is new. *)
Inductive map_step : gmap K V -> kop -> kres -> gmap K V -> Prop :=
| map_insert_failed m a k v : alloc_ok a = false -> map_step m (KInsert a k v) (RInsert (-1)) m
| map_insert_present m a k v w : m !! k = Some w -> map_step m (KInsert a k v) (RInsert 0) (<[k := v]> m)
| map_insert_new m a k v ret : m !! k = None -> ret = 1 \/ ret = 2 -> map_step m (KInsert a k v) (RInsert ret) (<[k := v]> m)
| map_look m k : map_step m (KLookup k) (RLookup (m !! k)) m
| map_remove m k : map_step m (KRemove k) (RRemove (bool_decide (is_Some (m !! k)))) (delete k m)
| map_prune m test :
    map_step m (KPrune test) (RPrune (Z.of_nat (size (filter (fun p => test p.2 = true) m)))) (filter (fun p => test p.2 = false) m)
| map_foreach m l : l ≡ₚ map_to_list m -> map_step m KForeach (RForeach l) m
| map_count m : map_step m KSize (RSize (Z.of_nat (size m))) m
| map_clear m : map_step m KClear RClear ∅.

Inductive map_run : gmap K V -> list kop -> list kres -> gmap K V -> Prop :=
| map_run_nil m : map_run m [] [] m
| map_run_cons m op r m' ops rs m'' : map_step m op r m' -> map_run m' ops rs m'' -> map_run m (op :: ops) (r :: rs) m''.

End Idioms.

Arguments kop : clear implicits.
Arguments kres : clear implicits.

(** ** Simulation *)

Section Refinement.
Context {K V : Type} `{Countable K}.
Variable hash_func : K -> Z.
Variable hash_equal : K -> K -> bool.
Hypothesis hash_equal_spec : forall a b, hash_equal a b = true <-> a = b.

(** The table holds the map: every live bucket has a value. *)
Definition holds (h : kh K V) (m : gmap K V) : Prop := repr hash_func h (Some <$> m).

Lemma holds_init : holds kh_init ∅.
Proof. unfold holds. rewrite fmap_empty. apply kh_init_repr. Qed.

Lemma holds_slot h m i k ov : holds h m -> 0 <= i < h_n_buckets h -> slot h i = Some (k, ov) ->
  exists v, ov = Some v /\ m !! k = Some v.
Proof.
  intros Hr Hi E. assert (Hm : (Some <$> m) !! k = Some ov) by (apply (repr_lookup hash_func h); [done|]; by exists i).
  apply lookup_fmap_Some in Hm as (v & <- & Hv). by exists v.
Qed.

Lemma holds_size h m : holds h m -> h_size h = Z.of_nat (size m).
Proof.
  intros [Hw Hp]. rewrite (wf_size _ _ Hw), Hp. fold (size (Some <$> m)). by rewrite length_map_to_list, map_size_fmap.
Qed.

Lemma kh_value_slot (h : kh K V) i k v : slot h i = Some (k, Some v) -> kh_value h i = Some v /\ kh_key h i = Some k.
Proof. intros E. destruct (slot_key h i k (Some v) E) as [Ek Ev]. unfold kh_value, kh_key. by rewrite Ev, Ek. Qed.

Lemma kh_exist_spec h m i : holds h m -> 0 <= i < h_n_buckets h -> kh_exist h i = Some (livebit (h_flags h) i).
Proof.
  intros Hr Hi. unfold kh_exist. rewrite iseither_spec by (eapply wf_in_flags; [apply Hr|done]). cbn. by rewrite negb_involutive.
Qed.

Lemma slot_dead (h : kh K V) i : livebit (h_flags h) i = false -> slot h i = None.
Proof. intros E. unfold slot, entry_at. by rewrite E. Qed.

Lemma table_insert_spec a h m k v : holds h m -> Z.of_nat (size m) < 2 ^ 30 ->
  exists h' ret m', table_insert hash_func hash_equal a h k v = Some (h', ret) /\ holds h' m' /\
    ((ret = -1 /\ alloc_ok a = false /\ m' = m) \/
     (m' = <[k := v]> m /\ match m !! k with Some _ => ret = 0 | None => ret = 1 \/ ret = 2 end)).
Proof.
  intros Hr Hsz. unfold table_insert.
  destruct (kh_put_spec hash_func hash_equal hash_equal_spec a h (Some <$> m) k Hr) as (h1 & x & ret & -> & Hc);
    [by rewrite (holds_size h m Hr)|]. cbn. unfold kh_end.
  destruct Hc as [(-> & Hf & -> & Hr1)|(Hx & ov & Es & Hm)].
  - rewrite Z.eqb_refl. exists h1, (-1), m. split; [done|]. split; [done|]. by left.
  - destruct (Z.eqb_spec x (h_n_buckets h1)) as [|_]; [lia|]. rewrite lookup_fmap in Hm.
    assert (Hr1 : exists m1, repr hash_func h1 m1 /\ <[k := Some v]> m1 = Some <$> <[k := v]> m).
    { rewrite fmap_insert. destruct (m !! k); cbn in Hm; [exists (Some <$> m)|exists (<[k := ov]> (Some <$> m))].
      - split; [apply Hm|done].
      - split; [apply Hm|]. apply insert_insert_eq. }
    destruct Hr1 as (m1 & Hr1 & Em). destruct (kh_set_value_spec hash_func h1 m1 x k v ov Hr1 Hx Es) as (h2 & -> & Hr2 & _).
    cbn. rewrite Em in Hr2. exists h2, ret, (<[k := v]> m). split; [done|]. split; [done|]. right. split; [done|].
    destruct (m !! k); cbn in Hm; [apply Hm|apply Hm].
Qed.

Lemma table_lookup_spec h m k : holds h m -> table_lookup hash_func hash_equal h k = Some (m !! k).
Proof.
  intros Hr. unfold table_lookup. destruct (kh_get_spec hash_func hash_equal hash_equal_spec h _ k Hr) as (x & -> & Hx). cbn.
  rewrite lookup_fmap in Hx. unfold kh_end. destruct (m !! k) as [v|]; cbn in Hx.
  - destruct Hx as [Hx E]. zcases; [lia|]. by destruct (kh_value_slot h x k v E) as [-> _].
  - subst x. by rewrite Z.eqb_refl.
Qed.

Lemma table_remove_spec h m k : holds h m ->
  exists h', table_remove hash_func hash_equal h k = Some (h', bool_decide (is_Some (m !! k))) /\ holds h' (delete k m).
Proof.
  intros Hr. unfold table_remove. destruct (kh_get_spec hash_func hash_equal hash_equal_spec h _ k Hr) as (x & -> & Hx). cbn.
  rewrite lookup_fmap in Hx. unfold kh_end. destruct (m !! k) as [v|] eqn:Em; cbn in Hx.
  - destruct Hx as [Hx E]. zcases; [lia|]. destruct (kh_del_spec hash_func h _ x k _ Hr Hx E) as (h' & -> & Hr' & _). cbn.
    exists h'. split; [done|]. unfold holds. by rewrite fmap_delete.
  - subst x. rewrite Z.eqb_refl. exists h. split; [done|]. by rewrite delete_id.
Qed.

Lemma kh_foreach_spec h m : holds h m -> exists l, kh_foreach h = Some l /\ l ≡ₚ map_to_list m.
Proof.
  intros Hr. pose (g := fun e : K * option V => v ← e.2; Some (e.1, v)).
  assert (Hl : forall cnt i, 0 <= i -> i + Z.of_nat cnt = h_n_buckets h ->
    kh_foreach_from cnt i h = Some (omap g (omap (slot h) (seqZ i (Z.of_nat cnt))))).
  { induction cnt as [|cnt IH]; intros i Hi Hn; [done|]. cbn [kh_foreach_from]. rewrite (kh_exist_spec h m i Hr) by lia. cbn [mbind option_bind].
    rewrite seqZ_cons, IH by lia. replace (Z.pred (Z.of_nat (S cnt))) with (Z.of_nat cnt) by lia. replace (Z.succ i) with (i + 1) by lia. cbn.
    destruct (livebit (h_flags h) i) eqn:El; [|by rewrite slot_dead].
    destruct (slot_Some_live hash_func h i (proj1 Hr) ltac:(lia) El) as (k & ov & E). rewrite E.
    destruct (holds_slot h m i k ov Hr ltac:(lia) E) as (v & -> & _). destruct (kh_value_slot h i k v E) as [-> ->]. done. }
  assert (Hn : 0 <= h_n_buckets h).
  { destruct (wf_shape _ _ (proj1 Hr)) as [(-> & _)|(Ht & _)]; [lia|]. apply table_size_range in Ht. lia. }
  unfold kh_foreach, kh_end. rewrite Hl by lia. eexists; split; [reflexivity|]. rewrite Z2Nat.id by lia. fold (entries h).
  rewrite (proj2 Hr), map_to_list_fmap. induction (map_to_list m) as [|[k v] l IH]; [done|]. cbn. by rewrite IH.
Qed.

(** What the pruning walk maintains: the map only shrinks, entries the test spares stay, and each removal
    is counted. *)
Lemma prune_loop_spec test cnt i h m m0 removed :
  holds h m -> 0 <= i -> i + Z.of_nat cnt = h_n_buckets h ->
  m ⊆ m0 -> (forall k v, m0 !! k = Some v -> test v = false -> m !! k = Some v) ->
  (forall j k v, 0 <= j < i -> slot h j = Some (k, Some v) -> test v = false) ->
  exists h' m', prune_loop cnt i test h removed = Some (h', removed + Z.of_nat (size m) - Z.of_nat (size m')) /\
    holds h' m' /\ m' ⊆ m0 /\ (forall k v, m0 !! k = Some v -> test v = false -> m' !! k = Some v) /\
    map_Forall (fun _ v => test v = false) m'.
Proof.
  revert i h m removed. induction cnt as [|cnt IH]; intros i h m removed Hr Hi Hn Hsub Hkeep Hdone.
  - exists h, m. cbn. split; [f_equal; f_equal; lia|]. split_and!; [done..|]. intros k v Hv.
    assert (Hs : (Some <$> m) !! k = Some (Some v)) by (by rewrite lookup_fmap, Hv).
    apply (repr_lookup hash_func h) in Hs as (j & Hj & Es); [|done]. apply (Hdone j k v); [lia|done].
  - cbn [prune_loop]. rewrite (kh_exist_spec h m i Hr) by lia. cbn. destruct (livebit (h_flags h) i) eqn:El.
    + destruct (slot_Some_live hash_func h i (proj1 Hr) ltac:(lia) El) as (k & ov & E).
      destruct (holds_slot h m i k ov Hr ltac:(lia) E) as (v & -> & Hv). destruct (kh_value_slot h i k v E) as [-> _]. cbn.
      destruct (test v) eqn:Et.
      * destruct (kh_del_spec hash_func h _ i k _ Hr ltac:(lia) E) as (h1 & -> & Hr1 & Hn1 & Hs1 & Hsj). cbn.
        rewrite <- fmap_delete in Hr1.
        destruct (IH (i + 1) h1 (delete k m) (removed + 1) Hr1) as (h' & m' & E' & Hr' & Hrest).
        -- lia.
        -- rewrite Hn1. lia.
        -- etrans; [apply delete_subseteq|done].
        -- intros k0 v0 H0 Ht0. rewrite lookup_delete_ne; [by apply Hkeep|]. intros ->.
           rewrite (Hkeep k0 v0 H0 Ht0) in Hv. injection Hv as ->. congruence.
        -- intros j k0 v0 Hj Es. destruct (decide (j = i)) as [->|Hne]; [by rewrite Hs1 in Es|].
           rewrite Hsj in Es by lia. apply (Hdone j k0 v0); [lia|done].
        -- exists h', m'. split; [|done]. rewrite E'. f_equal. f_equal.
           rewrite map_size_delete_Some by (by eexists).
           assert (size m <> 0%nat) by (intros Hz%map_size_empty_inv; rewrite Hz in Hv; by rewrite lookup_empty in Hv). lia.
      * apply (IH (i + 1) h m removed Hr ltac:(lia) ltac:(lia) Hsub Hkeep). intros j k0 v0 Hj Es.
        destruct (decide (j = i)) as [->|Hne]; [rewrite E in Es; injection Es as _ <-; done|]. apply (Hdone j k0 v0); [lia|done].
    + apply (IH (i + 1) h m removed Hr ltac:(lia) ltac:(lia) Hsub Hkeep). intros j k0 v0 Hj Es.
      destruct (decide (j = i)) as [->|Hne]; [by rewrite slot_dead in Es|]. apply (Hdone j k0 v0); [lia|done].
Qed.

Lemma filter_split_size (m : gmap K V) (test : V -> bool) :
  size m = (size (filter (fun p => test p.2 = true) m) + size (filter (fun p => test p.2 = false) m))%nat.
Proof.
  assert (E : filter (fun p => test p.2 = false) m = filter (fun p => ~ test p.2 = true) m).
  { apply map_eq. intros k. apply option_eq. intros v. rewrite !map_lookup_filter_Some. cbn. destruct (test v); intuition congruence. }
  rewrite E, <- map_size_disj_union by apply map_disjoint_filter_complement. by rewrite map_filter_union_complement.
Qed.

Lemma table_prune_spec h m test : holds h m ->
  exists h', table_prune test h = Some (h', Z.of_nat (size (filter (fun p => test p.2 = true) m))) /\
    holds h' (filter (fun p => test p.2 = false) m).
Proof.
  intros Hr. assert (Hn : 0 <= h_n_buckets h).
  { destruct (wf_shape _ _ (proj1 Hr)) as [(-> & _)|(Ht & _)]; [lia|]. apply table_size_range in Ht. lia. }
  destruct (prune_loop_spec test (Z.to_nat (h_n_buckets h)) 0 h m m 0 Hr) as (h' & m' & E & Hr' & Hsub & Hkeep & Hall);
    [lia|lia|done|done|intros; lia|].
  assert (Em : m' = filter (fun p => test p.2 = false) m).
  { apply map_eq. intros k. apply option_eq. intros v. rewrite map_lookup_filter_Some. cbn. split.
    - intros Hv. split; [by eapply lookup_weaken|by apply (Hall k v)].
    - intros [Hv Ht]. by apply Hkeep. }
  exists h'. unfold table_prune, kh_end. rewrite E, Em. split; [|by rewrite <- Em].
  pose proof (filter_split_size m test). f_equal. f_equal. lia.
Qed.

(** One call on the table is one call on the map. *)
Lemma kh_step_refines h m op : holds h m -> Z.of_nat (size m) < 2 ^ 30 ->
  exists h' r m', kh_step hash_func hash_equal h op = Some (h', r) /\ map_step m op r m' /\ holds h' m'.
Proof.
  intros Hr Hsz. destruct op as [a k v|k|k|test| | |]; cbn [kh_step].
  - destruct (table_insert_spec a h m k v Hr Hsz) as (h' & ret & m' & -> & Hr' & Hc). cbn. exists h', (RInsert ret), m'.
    split; [done|]. split; [|done]. destruct Hc as [(-> & Ha & ->)|(-> & Hm)]; [by constructor|].
    destruct (m !! k) as [w|] eqn:E; [subst ret; by eapply map_insert_present|by apply map_insert_new].
  - rewrite (table_lookup_spec h m) by done. exists h, (RLookup (m !! k)), m. split; [done|]. by split; [constructor|].
  - destruct (table_remove_spec h m k Hr) as (h' & -> & Hr'). cbn. eexists _, _, _. split; [reflexivity|]. by split; [constructor|].
  - destruct (table_prune_spec h m test Hr) as (h' & -> & Hr'). cbn. eexists _, _, _. split; [reflexivity|]. by split; [constructor|].
  - destruct (kh_foreach_spec h m Hr) as (l & -> & Hl). cbn. exists h, (RForeach l), m. split; [done|]. by split; [constructor|].
  - rewrite (holds_size h m) by done. eexists _, _, m. split; [reflexivity|]. by split; [constructor|].
  - eexists _, _, ∅. split; [reflexivity|]. split; [constructor|]. unfold holds. rewrite fmap_empty. by eapply kh_clear_repr.
Qed.

Lemma map_step_size (m m' : gmap K V) op r : map_step m op r m' -> (size m' <= S (size m))%nat.
Proof.
  destruct 1; try lia.
  - rewrite map_size_insert_Some by (by eexists). lia.
  - by rewrite map_size_insert_None.
  - pose proof (map_subseteq_size _ _ (delete_subseteq m k)). lia.
  - pose proof (filter_split_size m test). lia.
  - rewrite map_size_empty. lia.
Qed.

Lemma kh_run_refines ops h m : holds h m -> Z.of_nat (size m) + Z.of_nat (length ops) < 2 ^ 30 ->
  exists h' rs m', kh_run hash_func hash_equal h ops = Some (h', rs) /\ map_run m ops rs m' /\ holds h' m'.
Proof.
  revert h m. induction ops as [|op ops IH]; intros h m Hr Hsz; [exists h, [], m; split; [done|]; by split; [constructor|]|].
  cbn [length] in Hsz. cbn [kh_run].
  destruct (kh_step_refines h m op Hr) as (h1 & r & m1 & -> & Hs & Hr1); [lia|]. cbn [mbind option_bind]. pose proof (map_step_size _ _ _ _ Hs).
  destruct (IH h1 m1 Hr1) as (h2 & rs & m2 & -> & Hrun & Hr2); [lia|]. cbn.
  exists h2, (r :: rs), m2. split; [done|]. split; [|done]. by econstructor.
Qed.

End Refinement.

(** ** Properties *)

(** C30: The hash table refines a finite map.  From an empty table, for every sequence of fewer than 2^30
    calls (insertions with any pattern of failing allocations, lookups, removals, deletion during
    iteration, walks, clearing), each call ends without touching memory outside the arrays or reading a
    key or value that was not written, its result is one that the same call on the finite map allows,
    and the final table answers every lookup as the final map does.  The keys need a decidable equality;
    nothing is asked of the hash function. *)
Theorem khash_refines_map {K V} `{Countable K} (hash_func : K -> Z) (hash_equal : K -> K -> bool) (ops : list (kop K V)) :
  (forall a b, hash_equal a b = true <-> a = b) -> Z.of_nat (length ops) < 2 ^ 30 ->
  exists h rs m, kh_run hash_func hash_equal kh_init ops = Some (h, rs) /\ map_run ∅ ops rs m /\
    (forall k, table_lookup hash_func hash_equal h k = Some (m !! k)).
Proof.
  intros He Hl. destruct (kh_run_refines hash_func hash_equal He ops kh_init ∅ (holds_init hash_func)) as (h & rs & m & E & Hr & Hh).
  { rewrite map_size_empty. lia. }
  exists h, rs, m. split; [done|]. split; [done|]. intros k. by apply table_lookup_spec.
Qed.

Definition sample_alloc : alloc := mkAlloc true true true.
Definition sample_calls : list (kop bytes Z) :=
  [KInsert sample_alloc [1] 10; KInsert sample_alloc [2] 20; KInsert sample_alloc [3] 30; KRemove [2];
   KInsert (mkAlloc false true true) [4] 40; KInsert sample_alloc [4] 40; KInsert sample_alloc [4] 41;
   KPrune (fun v => v <? 15); KSize; KLookup [3]; KLookup [1]].

Lemma khash_refines_map_witness :
  snd <$> kh_run hash_key32 eq_key32 kh_init sample_calls =
    Some [RInsert 1; RInsert 1; RInsert 1; RRemove true; RInsert (-1); RInsert 1; RInsert 0; RPrune 1; RSize 2;
          RLookup (Some 30); RLookup None] /\
  exists h rs m, kh_run hash_key32 eq_key32 kh_init sample_calls = Some (h, rs) /\ map_run ∅ sample_calls rs m /\
    (forall k, table_lookup hash_key32 eq_key32 h k = Some (m !! k)).
Proof.
  split; [vm_compute; reflexivity|]. apply (khash_refines_map hash_key32 eq_key32 sample_calls); [apply memeq_true|reflexivity].
Defined.

(** ** The balance sheet and the transaction pool as tables *)

Abbreviation sheet_table := (kh bytes balance_sheet_entry).
Abbreviation pool_table := (kh bytes signed_transaction).

Module Tbl.
Definition BalanceSheet_InsertLocked (a : alloc) (h : sheet_table) (entry : balance_sheet_entry) : option (sheet_table * Z) :=
  table_insert hash_key32 eq_key32 a h (address entry) entry.

Definition BalanceSheet_Lookup (h : sheet_table) (addr : bytes) : option (option balance_sheet_entry) :=
  table_lookup hash_key32 eq_key32 h addr.

(** The entry through the overlay, or nothing when the overlay cannot grow. *)
Definition BalanceSheet_GetSimEntry (a : alloc) (h simMap : sheet_table) (addr : bytes)
  : option (option balance_sheet_entry * sheet_table) :=
  s ← table_lookup hash_key32 eq_key32 simMap addr;
  match s with
  | Some out => Some (Some out, simMap)
  | None =>
      o ← BalanceSheet_Lookup h addr;
      let out := match o with Some out => out | None => fresh_entry addr end in
      '(simMap, ret) ← table_insert hash_key32 eq_key32 a simMap addr out;
      Some (if ret <? 0 then None else Some out, simMap)
  end.

Definition BalanceSheet_StoreSimEntry (a : alloc) (simMap : sheet_table) (entry : balance_sheet_entry) : option (sheet_table * bool) :=
  '(simMap, ret) ← table_insert hash_key32 eq_key32 a simMap (address entry) entry; Some (simMap, 0 <=? ret).

(** The file lists the live buckets in order. *)
Definition BalanceSheet_SaveToFile (h : sheet_table) : option bytes :=
  l ← kh_foreach h; Some (concat (map (fun p => entry_bytes p.2) l)).

(** Loading stops at the first entry that cannot be inserted; [mem k] are the allocations of the [k]-th
    insertion. *)
Fixpoint load_entries (fuel : nat) (mem : nat -> alloc) (h : sheet_table) (file : bytes) : option (sheet_table * bool) :=
  match fuel with
  | O => Some (h, true)
  | S fuel =>
      match read_entry file with
      | None => Some (h, true)
      | Some (e, rest) =>
          '(h, ret) ← BalanceSheet_InsertLocked (mem 0%nat) h e;
          if ret <? 0 then Some (h, false) else load_entries fuel (fun k => mem (S k)) h rest
      end
  end.
Definition BalanceSheet_LoadFromFile (mem : nat -> alloc) (h : sheet_table) (file : bytes) : option (sheet_table * bool) :=
  load_entries (length file) mem h file.

Definition TxMempool_Lookup (h : pool_table) (txHash : bytes) : option (option signed_transaction) :=
  table_lookup hash_key32 eq_key32 h txHash.
Definition TxMempool_Remove (h : pool_table) (txHash : bytes) : option (pool_table * bool) :=
  table_remove hash_key32 eq_key32 h txHash.
Definition TxMempool_PruneExpired (h : pool_table) (nowMs : Z) : option (pool_table * Z) := table_prune (expired nowMs) h.
Definition TxMempool_Snapshot (h : pool_table) : option (list signed_transaction) := l ← kh_foreach h; Some (map snd l).
Definition TxMempool_Insert {ops : CryptoOps} (a : alloc) (h : pool_table) (tx : signed_transaction) : option (pool_table * Z) :=
  table_insert hash_key32 eq_key32 a h (Transaction_CalculateHash tx) tx.
End Tbl.

(** A table of the node holds a map. *)
Definition holds32 {V} (h : kh bytes V) (m : gmap bytes V) : Prop := holds hash_key32 h m.

Lemma insert32 {V} a (h : kh bytes V) m k v : holds32 h m -> Z.of_nat (size m) < 2 ^ 30 ->
  exists h' ret m', table_insert hash_key32 eq_key32 a h k v = Some (h', ret) /\ holds32 h' m' /\
    ((ret = -1 /\ alloc_ok a = false /\ m' = m) \/
     (m' = <[k := v]> m /\ match m !! k with Some _ => ret = 0 | None => ret = 1 \/ ret = 2 end)).
Proof. apply table_insert_spec, memeq_true. Qed.

Lemma lookup32 {V} (h : kh bytes V) m k : holds32 h m -> table_lookup hash_key32 eq_key32 h k = Some (m !! k).
Proof. apply table_lookup_spec, memeq_true. Qed.

Lemma insert_ret_nonneg {V} (m : gmap bytes V) k ret :
  match m !! k with Some _ => ret = 0 | None => ret = 1 \/ ret = 2 end -> 0 <= ret.
Proof. destruct (m !! k); lia. Qed.

(** Reading through the overlay, when its growth succeeds. *)
Lemma GetSimEntry32 a h simMap m s addr : alloc_ok a = true -> holds32 h m -> holds32 simMap s -> Z.of_nat (size s) < 2 ^ 30 ->
  exists simMap', Tbl.BalanceSheet_GetSimEntry a h simMap addr = Some (Some (fst (BalanceSheet_GetSimEntry m s addr)), simMap') /\
    holds32 simMap' (snd (BalanceSheet_GetSimEntry m s addr)).
Proof.
  intros Ha Hh Hs Hsz. unfold Tbl.BalanceSheet_GetSimEntry, BalanceSheet_GetSimEntry, Tbl.BalanceSheet_Lookup, BalanceSheet_Lookup.
  rewrite (lookup32 simMap s) by done. cbn. destruct (s !! addr) as [e|] eqn:Es; [by exists simMap|].
  rewrite (lookup32 h m) by done. cbn.
  set (out := match m !! addr with Some out => out | None => fresh_entry addr end).
  destruct (insert32 a simMap s addr out Hs Hsz) as (h' & ret & m' & -> & Hh' & Hc).
  destruct Hc as [(_ & Hf & _)|(-> & Hret)]; [congruence|]. apply insert_ret_nonneg in Hret. cbn. zcases; [lia|].
  exists h'. unfold out. by destruct (m !! addr).
Qed.

Lemma StoreSimEntry32 a simMap s e : alloc_ok a = true -> holds32 simMap s -> Z.of_nat (size s) < 2 ^ 30 ->
  exists simMap', Tbl.BalanceSheet_StoreSimEntry a simMap e = Some (simMap', true) /\ holds32 simMap' (BalanceSheet_StoreSimEntry s e).
Proof.
  intros Ha Hs Hsz. unfold Tbl.BalanceSheet_StoreSimEntry.
  destruct (insert32 a simMap s (address e) e Hs Hsz) as (h' & ret & m' & -> & Hh' & Hc).
  destruct Hc as [(_ & Hf & _)|(-> & Hret)]; [congruence|]. apply insert_ret_nonneg in Hret. cbn. zcases; [|lia]. by exists h'.
Qed.

Lemma insert_size_le {V} (m : gmap bytes V) k v : (size (<[k := v]> m) <= S (size m))%nat.
Proof. rewrite map_size_insert. destruct (m !! k); cbn; lia. Qed.

Lemma load_entries32 fuel mem h m file : (forall k, alloc_ok (mem k) = true) -> holds32 h m ->
  Z.of_nat (size m) + Z.of_nat fuel < 2 ^ 30 ->
  exists h', Tbl.load_entries fuel mem h file = Some (h', true) /\ holds32 h' (load_entries fuel m file).
Proof.
  revert mem h m file. induction fuel as [|fuel IH]; intros mem h m file Hmem Hh Hsz; [by exists h|].
  cbn [Tbl.load_entries load_entries]. destruct (read_entry file) as [[e rest]|]; [|by exists h].
  unfold Tbl.BalanceSheet_InsertLocked. destruct (insert32 (mem 0%nat) h m (address e) e Hh ltac:(lia)) as (h' & ret & m' & -> & Hh' & Hc).
  destruct Hc as [(_ & Hf & _)|(-> & Hret)]; [by rewrite Hmem in Hf|]. apply insert_ret_nonneg in Hret. cbn [mbind option_bind].
  destruct (Z.ltb_spec ret 0); [lia|]. apply IH; [intros; apply Hmem|done|].
  pose proof (insert_size_le m (address e) e). unfold BalanceSheet_InsertLocked. lia.
Qed.

(** The file of a table, loaded into an empty one. *)
Lemma saved_table_loads h m : holds32 h m -> sheet_ok m -> Z.of_nat (size m) * 72 < 2 ^ 30 ->
  exists file, Tbl.BalanceSheet_SaveToFile h = Some file /\
    forall mem, (forall k, alloc_ok (mem k) = true) ->
      exists h', Tbl.BalanceSheet_LoadFromFile mem kh_init file = Some (h', true) /\ holds32 h' m.
Proof.
  intros Hh Hok Hsz. destruct (kh_foreach_spec hash_key32 h m Hh) as (l & E & Hl). unfold Tbl.BalanceSheet_SaveToFile. rewrite E.
  eexists; split; [reflexivity|]. intros mem Hmem. set (file := concat _).
  assert (Hall : Forall (fun p => entry_ok p.1 p.2) l).
  { rewrite Hl. apply Forall_forall. intros [a e] Hin. apply list_elem_of_In, elem_of_map_to_list in Hin. by apply Hok. }
  assert (Hlen : length file = (72 * size m)%nat).
  { unfold file. transitivity (72 * length l)%nat; [|rewrite Hl; by rewrite length_map_to_list]. clear -Hall.
    induction Hall as [|[a e] r He _ IH]; cbn [map concat length fst snd] in *; [lia|].
    rewrite length_app, (length_entry_bytes a e He), IH. unfold SIZEOF_ENTRY. lia. }
  destruct (load_entries32 (length file) mem kh_init ∅ file Hmem (holds_init hash_key32)) as (h' & E' & Hh').
  { rewrite map_size_empty, Hlen. lia. }
  exists h'. split; [exact E'|]. unfold file in Hh' at 2. rewrite load_entries_written in Hh' by (done || by apply concat_length_ge).
  rewrite <- (rev_involutive l), fold_insert_list, map_union_empty in Hh'.
  replace (list_to_map (rev l)) with m in Hh'; [done|].
  transitivity (list_to_map (map_to_list m) : sheet); [symmetry; apply list_to_map_to_list|].
  apply list_to_map_proper; [apply NoDup_fst_map_to_list|]. rewrite <- Hl. apply Permutation_rev.
Qed.

(** C31: The balance sheet and the transaction pool behave as the maps they are modelled by.  On tables that
    hold a sheet and a pool and have room for 2^30 entries, with memory to be had: insertion, lookup, the
    overlay's reads and writes, removal and pruning do to the tables what the operations of
    [BalanceSheet] and [Mempool] do to the maps, with the same results; the snapshot lists the pool in
    bucket order; and the sheet's file, written in bucket order, loads into an empty table as the same
    sheet.  When memory runs out an insertion returns -1 and loses nothing. *)
Theorem node_tables_refine_maps {ops : CryptoOps} (h : sheet_table) (m : sheet) (t : pool_table) (pool : mempool) :
  holds32 h m -> holds32 t pool -> Z.of_nat (size m) * 72 < 2 ^ 30 -> Z.of_nat (size pool) < 2 ^ 30 -> sheet_ok m ->
  (forall a e, alloc_ok a = true -> exists h' ret, Tbl.BalanceSheet_InsertLocked a h e = Some (h', ret) /\ 0 <= ret /\
     holds32 h' (BalanceSheet_InsertLocked m e)) /\
  (forall addr, Tbl.BalanceSheet_Lookup h addr = Some (BalanceSheet_Lookup m addr)) /\
  (exists file, Tbl.BalanceSheet_SaveToFile h = Some file /\
     forall mem, (forall k, alloc_ok (mem k) = true) ->
       exists h', Tbl.BalanceSheet_LoadFromFile mem kh_init file = Some (h', true) /\ holds32 h' m) /\
  (forall tx, exists t' ret, Tbl.TxMempool_Insert sample_alloc t tx = Some (t', ret) /\
     (ret = 0 <-> fst (TxMempool_Insert pool tx) = 0) /\ 0 <= ret /\ holds32 t' (snd (TxMempool_Insert pool tx))) /\
  (forall tx a, exists t' ret, Tbl.TxMempool_Insert a t tx = Some (t', ret) /\ (ret < 0 -> alloc_ok a = false /\ holds32 t' pool)) /\
  (forall k, Tbl.TxMempool_Lookup t k = Some (TxMempool_Lookup pool k)) /\
  (forall k, exists t', Tbl.TxMempool_Remove t k = Some (t', fst (TxMempool_Remove pool k)) /\ holds32 t' (snd (TxMempool_Remove pool k))) /\
  (forall now, exists t', Tbl.TxMempool_PruneExpired t now = Some (t', Z.of_nat (fst (TxMempool_PruneExpired pool now))) /\
     holds32 t' (snd (TxMempool_PruneExpired pool now))) /\
  (exists l, Tbl.TxMempool_Snapshot t = Some l /\ l ≡ₚ TxMempool_Snapshot pool).
Proof.
  intros Hh Ht Hm Hp Hok. split_and!.
  - intros a e Ha. destruct (insert32 a h m (address e) e Hh ltac:(lia)) as (h' & ret & m' & E & Hh' & Hc).
    destruct Hc as [(_ & Hf & _)|(-> & Hret)]; [congruence|]. apply insert_ret_nonneg in Hret. by exists h', ret.
  - intros addr. by apply lookup32.
  - by apply saved_table_loads.
  - intros tx. destruct (insert32 sample_alloc t pool (Transaction_CalculateHash tx) tx Ht Hp) as (t' & ret & m' & E & Hh' & Hc).
    destruct Hc as [(_ & Hf & _)|(-> & Hret)]; [done|]. exists t', ret. split; [done|]. unfold TxMempool_Insert. cbn [fst snd].
    destruct (pool !! Transaction_CalculateHash tx); split_and!; lia || done.
  - intros tx a. destruct (insert32 a t pool (Transaction_CalculateHash tx) tx Ht Hp) as (t' & ret & m' & E & Hh' & Hc).
    exists t', ret. split; [done|]. intros Hneg. destruct Hc as [(_ & Hf & ->)|(_ & Hret)]; [done|]. apply insert_ret_nonneg in Hret. lia.
  - intros k. by apply lookup32.
  - intros k. destruct (table_remove_spec hash_key32 eq_key32 memeq_true t pool k Ht) as (t' & E & Hh'). exists t'.
    unfold Tbl.TxMempool_Remove, TxMempool_Remove. rewrite E. destruct (pool !! k) eqn:Ek; [done|]. by rewrite delete_id in Hh'.
  - intros now. by apply table_prune_spec.
  - destruct (kh_foreach_spec hash_key32 t pool Ht) as (l & E & Hl). unfold Tbl.TxMempool_Snapshot. rewrite E.
    eexists; split; [reflexivity|]. unfold TxMempool_Snapshot. by rewrite Hl.
Qed.

#[local] Existing Instances Toy.ops Toy.laws.

Lemma build32 {V} (h : kh bytes V) m k v : holds32 h m -> Z.of_nat (size m) < 2 ^ 30 -> exists h', holds32 h' (<[k := v]> m).
Proof.
  intros Hh Hsz. destruct (insert32 sample_alloc h m k v Hh Hsz) as (h' & ret & m' & _ & Hh' & [(_ & Hf & _)|(-> & _)]); [done|].
  by exists h'.
Qed.

Lemma sample_tables : exists (h : sheet_table) (t : pool_table), holds32 h sample_sheet /\ holds32 t {[Transaction_CalculateHash sample_tx := sample_tx]}.
Proof.
  destruct (build32 kh_init ∅ (replicate 32 2) (mkEntry (replicate 32 2) (uint256_from_u64 10) 0) (holds_init hash_key32)) as (h1 & H1); [done|].
  edestruct (build32 h1 _ (senderAddress (stx sample_payment)) (mkEntry (senderAddress (stx sample_payment)) (uint256_from_u64 5000) 3) H1) as (h2 & H2);
    [vm_compute; reflexivity|].
  destruct (build32 kh_init ∅ (Transaction_CalculateHash sample_tx) sample_tx (holds_init hash_key32)) as (t & Ht); [done|].
  exists h2, t. split; [exact H2|exact Ht].
Qed.

Lemma node_tables_refine_maps_witness :
  exists (h : sheet_table) (t : pool_table), holds32 h sample_sheet /\
    Tbl.BalanceSheet_Lookup h (replicate 32 2) = Some (Some (mkEntry (replicate 32 2) (uint256_from_u64 10) 0)) /\
    Tbl.TxMempool_Lookup t (Transaction_CalculateHash sample_tx) = Some (Some sample_tx).
Proof.
  destruct sample_tables as (h & t & Hh & Ht). exists h, t. split; [exact Hh|].
  destruct (node_tables_refine_maps h sample_sheet t _ Hh Ht) as (_ & Hl & _ & _ & _ & Hp & _);
    [vm_compute; reflexivity|vm_compute; reflexivity|apply sample_sheet_ok|].
  split; [rewrite Hl; vm_compute; reflexivity|rewrite Hp; vm_compute; reflexivity].
Defined.
