(* ===== verification/Vector.v ===== *)
(** * The vector library ([include/dlibc/vector.h])

    A growable array of fixed-size elements over one byte buffer, with an optional element destructor.
    The buffer is modelled byte by byte: a cell is a byte or indeterminate, copies are [memmove]s between
    ranges, and a range outside the buffer is [None], so a theorem that an operation returns [Some] says
    that it stays inside its buffer.  A pointer is null, to an object outside the buffer, or an offset
    into it; [size_t] arithmetic is written with its wrap.  A vector pointer is an [option].  Each call takes the outcome
    of its allocations ([mem k] is the [k]-th).  A destructor is a name; calls of it are recorded with the
    element they received.

    The abstraction is [vrep v l]: the buffer starts with the elements [l] one after another.  Every
    operation is shown to do to the list what its documentation says. *)
From S2P Require Import Prelude.

Abbreviation cell := (option Z).
Abbreviation elem := (list cell).

(** ** Buffers *)

Definition read_bytes (data : list cell) (off len : Z) : option (list cell) :=
  if (0 <=? off) && (0 <=? len) && (off + len <=? Z.of_nat (length data))
  then Some (take (Z.to_nat len) (drop (Z.to_nat off) data)) else None.

Definition write_bytes (data : list cell) (off : Z) (bs : list cell) : option (list cell) :=
  if (0 <=? off) && (off + Z.of_nat (length bs) <=? Z.of_nat (length data))
  then Some (take (Z.to_nat off) data ++ bs ++ drop (Z.to_nat off + length bs) data) else None.

Definition memmove (data : list cell) (dst src len : Z) : option (list cell) :=
  bs ← read_bytes data src len; write_bytes data dst bs.

Definition realloc (data : list cell) (n : Z) : list cell :=
  take (Z.to_nat n) data ++ replicate (Z.to_nat n - length data) None.

Definition SIZE_MAX : Z := UINT64_MAX.

(** Null, an object elsewhere with its bytes, or an offset into the vector's data. *)
Inductive ptr := Null | Outside (bs : list cell) | Inside (off : Z).

Record vector_t := mkVector {
  v_size : Z;
  v_capacity : Z;
  v_element_size : Z;
  v_data : list cell;
  v_destructor : option nat
}.

Abbreviation destroyed := (list (nat * elem)).

Definition set_size (v : vector_t) (n : Z) : vector_t :=
  mkVector n (v_capacity v) (v_element_size v) (v_data v) (v_destructor v).
Definition set_data (v : vector_t) (d : list cell) : vector_t :=
  mkVector (v_size v) (v_capacity v) (v_element_size v) d (v_destructor v).
Definition set_buffer (v : vector_t) (d : list cell) (capacity : Z) : vector_t :=
  mkVector (v_size v) capacity (v_element_size v) d (v_destructor v).

(** The bytes an element pointer leads to. *)
Definition load (v : vector_t) (p : ptr) : option elem :=
  match p with
  | Null => None
  | Outside bs => read_bytes bs 0 (v_element_size v)
  | Inside off => read_bytes (v_data v) off (v_element_size v)
  end.

Definition is_null (p : ptr) : bool := match p with Null => true | _ => false end.

(** ** Operations *)

Definition vector_is_aliased (vec : option vector_t) (p : ptr) : bool :=
  match vec, p with
  | Some v, Inside off => (0 <=? off) && (off <? v_capacity v *u64 v_element_size v)
  | _, _ => false
  end.

Definition INITIAL_CAPACITY : Z := 10.

Definition vector_create (mem : nat -> bool) (element_size : Z) : option vector_t :=
  if element_size =? 0 then None
  else if SIZE_MAX / element_size <? INITIAL_CAPACITY then None
  else if negb (mem 0%nat) then None
  else if negb (mem 1%nat) then None
  else Some (mkVector 0 INITIAL_CAPACITY element_size (replicate (Z.to_nat (INITIAL_CAPACITY *u64 element_size)) None) None).

Definition vector_set_destructor (vec : option vector_t) (destructor : option nat) : option vector_t * Z :=
  match vec with
  | None => (None, -1)
  | Some v => (Some (mkVector (v_size v) (v_capacity v) (v_element_size v) (v_data v) destructor), 0)
  end.

Definition vector_get_destructor (vec : option vector_t) : option nat := v ← vec; v_destructor v.

Definition vector_reserve (mem : nat -> bool) (vec : option vector_t) (new_capacity : Z) : option vector_t * Z :=
  match vec with
  | None => (None, -1)
  | Some v =>
      if v_element_size v =? 0 then (Some v, -1)
      else if new_capacity <=? v_capacity v then (Some v, 0)
      else if SIZE_MAX / v_element_size v <? new_capacity then (Some v, -1)
      else if negb (mem 0%nat) then (Some v, -1)
      else (Some (set_buffer v (realloc (v_data v) (new_capacity *u64 v_element_size v)) new_capacity), 0)
  end.

Definition vector_grow (mem : nat -> bool) (vec : option vector_t) : option vector_t * Z :=
  match vec with
  | None => (None, -1)
  | Some v =>
      if SIZE_MAX / 2 <? v_capacity v then (Some v, -1)
      else
        let new_capacity := if 0 <? v_capacity v then v_capacity v *u64 2 else 1 in
        vector_reserve mem (Some v) new_capacity
  end.

Definition vector_prune (mem : nat -> bool) (vec : option vector_t) : option vector_t * Z :=
  match vec with
  | None => (None, -1)
  | Some v =>
      if v_element_size v =? 0 then (Some v, -1)
      else if v_size v <? v_capacity v then
        let new_capacity := if 0 <? v_size v then v_size v else 1 in
        if SIZE_MAX / v_element_size v <? new_capacity then (Some v, -1)
        else if negb (mem 0%nat) then (Some v, -1)
        else (Some (set_buffer v (realloc (v_data v) (new_capacity *u64 v_element_size v)) new_capacity), 0)
      else (Some v, 0)
  end.

(** The vector with room for one more element, or the failure of growing it. *)
Definition make_room (mem : nat -> bool) (v : vector_t) : option vector_t :=
  if v_capacity v <=? v_size v then
    match vector_grow mem (Some v) with
    | (Some v, 0) => Some v
    | _ => None
    end
  else Some v.

(** An element inside the data keeps its offset when the buffer moves. *)
Definition vector_push_back (mem : nat -> bool) (vec : option vector_t) (element : ptr) : option (option vector_t * Z) :=
  match vec with
  | None => Some (None, -1)
  | Some v =>
      if is_null element then Some (vec, -1)
      else if bool_decide (is_Some (v_destructor v)) && vector_is_aliased vec element then Some (vec, -1)
      else
        match make_room mem v with
        | None => Some (vec, -1)
        | Some v =>
            bs ← load v element;
            data ← write_bytes (v_data v) (v_size v *u64 v_element_size v) bs;
            Some (Some (set_size (set_data v data) (v_size v +u64 1)), 0)
        end
  end.

(** [vec->destructor(element)], when there is one, on the element at an index. *)
Definition destroy_at (v : vector_t) (index : Z) : option destroyed :=
  match v_destructor v with
  | None => Some []
  | Some d => e ← read_bytes (v_data v) (index *u64 v_element_size v) (v_element_size v); Some [(d, e)]
  end.

Definition vector_pop_back (vec : option vector_t) : option (option vector_t * destroyed * Z) :=
  match vec with
  | None => Some (None, [], -1)
  | Some v =>
      if v_size v =? 0 then Some (vec, [], -1)
      else
        ds ← destroy_at v (v_size v -u64 1);
        Some (Some (set_size v (v_size v -u64 1)), ds, 0)
  end.

(** Elements after an index move one position to the left. *)
Definition shift_left (v : vector_t) (index : Z) : option vector_t :=
  let es := v_element_size v in
  data ← (if index +u64 1 <? v_size v
          then memmove (v_data v) (index *u64 es) ((index +u64 1) *u64 es) ((v_size v -u64 index -u64 1) *u64 es)
          else Some (v_data v));
  Some (set_size (set_data v data) (v_size v -u64 1)).

Definition vector_pop_at (vec : option vector_t) (index : Z) : option (option vector_t * destroyed * Z) :=
  match vec with
  | None => Some (None, [], -1)
  | Some v =>
      if v_size v <=? index then Some (vec, [], -1)
      else
        ds ← destroy_at v index;
        v ← shift_left v index;
        Some (Some v, ds, 0)
  end.

(** The bytes written to [out] come with the result. *)
Definition vector_take_at (vec : option vector_t) (index : Z) (out : ptr) : option (option vector_t * Z * option elem) :=
  match vec with
  | None => Some (None, -1, None)
  | Some v =>
      if (v_size v <=? index) || is_null out then Some (vec, -1, None)
      else if vector_is_aliased vec out then Some (vec, -1, None)
      else
        e ← read_bytes (v_data v) (index *u64 v_element_size v) (v_element_size v);
        v ← shift_left v index;
        Some (Some v, 0, Some e)
  end.

Definition vector_take_back (vec : option vector_t) (out : ptr) : option (option vector_t * Z * option elem) :=
  match vec with
  | None => Some (None, -1, None)
  | Some v =>
      if (v_size v =? 0) || is_null out then Some (vec, -1, None)
      else vector_take_at vec (v_size v -u64 1) out
  end.

(** An element inside the data is copied aside first. *)
Definition vector_insert (mem : nat -> bool) (vec : option vector_t) (index : Z) (element : ptr) : option (option vector_t * Z) :=
  match vec with
  | None => Some (None, -1)
  | Some v =>
      if is_null element || (v_size v <? index) then Some (vec, -1)
      else if bool_decide (is_Some (v_destructor v)) && vector_is_aliased vec element then Some (vec, -1)
      else
        temp ← (if vector_is_aliased vec element then
                  if mem 0%nat then bs ← load v element; Some (Some (Outside bs)) else Some None
                else Some (Some element));
        match temp with
        | None => Some (vec, -1)
        | Some element =>
            match make_room (fun k => mem (S k)) v with
            | None => Some (vec, -1)
            | Some v =>
                let es := v_element_size v in
                data ← memmove (v_data v) ((index +u64 1) *u64 es) (index *u64 es) ((v_size v -u64 index) *u64 es);
                bs ← load (set_data v data) element;
                data ← write_bytes data (index *u64 es) bs;
                Some (Some (set_size (set_data v data) (v_size v +u64 1)), 0)
            end
        end
  end.

(** The destructor on each element from [i] on. *)
Fixpoint destroy_from (cnt : nat) (v : vector_t) (i : Z) : option destroyed :=
  match cnt with
  | O => Some []
  | S cnt => d ← destroy_at v i; ds ← destroy_from cnt v (i + 1); Some (d ++ ds)
  end.

Definition vector_clear (vec : option vector_t) : option (option vector_t * destroyed * Z) :=
  match vec with
  | None => Some (None, [], -1)
  | Some v => ds ← destroy_from (Z.to_nat (v_size v)) v 0; Some (Some (set_size v 0), ds, 0)
  end.

Definition vector_set (vec : option vector_t) (index : Z) (element : ptr) : option (option vector_t * destroyed * Z) :=
  match vec with
  | None => Some (None, [], -1)
  | Some v =>
      if is_null element || (v_size v <=? index) then Some (vec, [], -1)
      else
        let slot := index *u64 v_element_size v in
        if match element with Inside off => off =? slot | _ => false end then Some (vec, [], 0)
        else if bool_decide (is_Some (v_destructor v)) && vector_is_aliased vec element then Some (vec, [], -1)
        else
          ds ← destroy_at v index;
          bs ← load v element;
          data ← write_bytes (v_data v) slot bs;
          Some (Some (set_data v data), ds, 0)
  end.

(** *** Accessors *)

Definition vector_is_empty (vec : option vector_t) : bool := match vec with None => true | Some v => v_size v =? 0 end.
Definition vector_front (vec : option vector_t) : ptr :=
  match vec with None => Null | Some v => if v_size v =? 0 then Null else Inside 0 end.
Definition vector_back (vec : option vector_t) : ptr :=
  match vec with None => Null | Some v => if v_size v =? 0 then Null else Inside ((v_size v -u64 1) *u64 v_element_size v) end.
Definition vector_get (vec : option vector_t) (index : Z) : ptr :=
  match vec with None => Null | Some v => if v_size v <=? index then Null else Inside (index *u64 v_element_size v) end.
Definition vector_size (vec : option vector_t) : Z := match vec with None => 0 | Some v => v_size v end.
Definition vector_capacity (vec : option vector_t) : Z := match vec with None => 0 | Some v => v_capacity v end.
Definition vector_element_size (vec : option vector_t) : Z := match vec with None => 0 | Some v => v_element_size v end.
Definition vector_as_c_array (vec : option vector_t) : ptr := match vec with None => Null | Some _ => Inside 0 end.

(** *** Whole vectors *)

Definition vector_destroy (vec : option vector_t) : option (option vector_t * destroyed * Z) :=
  match vec with
  | None => Some (None, [], 0)
  | Some target => ds ← destroy_from (Z.to_nat (v_size target)) target 0; Some (None, ds, 0)
  end.

(** How two vector pointers relate: distinct owners, the same vector, or a struct copied by hand. *)
Inductive pair_kind := Distinct | SameVector | SharedData.

(** The destination, the source pointer, what was destroyed. *)
Definition vector_move (kind : pair_kind) (dest src : option vector_t) : option (option vector_t * option vector_t * destroyed * Z) :=
  match dest, src with
  | Some _, Some s =>
      match kind with
      | SameVector => Some (dest, src, [], 0)
      | SharedData => Some (dest, src, [], -1)
      | Distinct =>
          '(_, ds, _) ← vector_clear dest;
          Some (Some (mkVector (v_size s) (v_capacity s) (v_element_size s) (v_data s) (v_destructor s)), None, ds, 0)
      end
  | _, _ => Some (dest, src, [], -1)
  end.

Definition vector_deep_copy (mem : nat -> bool) (vec : option vector_t) : option (option vector_t) :=
  match vec with
  | None => Some None
  | Some v =>
      match v_destructor v with
      | Some _ => Some None
      | None =>
          match vector_create mem (v_element_size v) with
          | None => Some None
          | Some new_vec =>
              match vector_reserve (fun k => mem (2 + k)%nat) (Some new_vec) (v_capacity v) with
              | (Some new_vec, 0) =>
                  if 0 <? v_size v then
                    bs ← read_bytes (v_data v) 0 (v_size v *u64 v_element_size v);
                    data ← write_bytes (v_data new_vec) 0 bs;
                    Some (Some (set_size (set_data new_vec data) (v_size v)))
                  else Some (Some new_vec)
              | _ => Some None
              end
          end
      end
  end.

(** ** Calls, and what they mean for a list of elements *)

(** An element argument: null, an object elsewhere, or what [vector_get] returned for an index. *)
Inductive source := ENull | EOutside (bs : elem) | EGet (index : Z).

Inductive vop :=
| VPush (mem : nat -> bool) (src : source)
| VInsert (mem : nat -> bool) (index : Z) (src : source)
| VSet (index : Z) (src : source)
| VPopBack
| VPopAt (index : Z)
| VTakeAt (index : Z) (out : source)
| VTakeBack (out : source)
| VClear
| VReserve (mem : nat -> bool) (new_capacity : Z)
| VPrune (mem : nat -> bool)
| VSetDestructor (d : option nat)
| VGet (index : Z)
| VBack
| VSize.

(** Return code, the element read or taken, the elements destroyed. *)
Record vres := mkRes { r_code : Z; r_out : option elem; r_destroyed : destroyed }.

Definition as_ptr (v : vector_t) (src : source) : ptr :=
  match src with ENull => Null | EOutside bs => Outside bs | EGet i => vector_get (Some v) i end.

Definition deref (v : vector_t) (p : ptr) : option (option elem) :=
  match p with Null => Some None | _ => e ← load v p; Some (Some e) end.

Definition vec_step (v : vector_t) (op : vop) : option (option vector_t * vres) :=
  match op with
  | VPush mem src => '(v, rc) ← vector_push_back mem (Some v) (as_ptr v src); Some (v, mkRes rc None [])
  | VInsert mem i src => '(v, rc) ← vector_insert mem (Some v) i (as_ptr v src); Some (v, mkRes rc None [])
  | VSet i src => '(v, ds, rc) ← vector_set (Some v) i (as_ptr v src); Some (v, mkRes rc None ds)
  | VPopBack => '(v, ds, rc) ← vector_pop_back (Some v); Some (v, mkRes rc None ds)
  | VPopAt i => '(v, ds, rc) ← vector_pop_at (Some v) i; Some (v, mkRes rc None ds)
  | VTakeAt i out => '(v, rc, e) ← vector_take_at (Some v) i (as_ptr v out); Some (v, mkRes rc e [])
  | VTakeBack out => '(v, rc, e) ← vector_take_back (Some v) (as_ptr v out); Some (v, mkRes rc e [])
  | VClear => '(v, ds, rc) ← vector_clear (Some v); Some (v, mkRes rc None ds)
  | VReserve mem n => let '(v, rc) := vector_reserve mem (Some v) n in Some (v, mkRes rc None [])
  | VPrune mem => let '(v, rc) := vector_prune mem (Some v) in Some (v, mkRes rc None [])
  | VSetDestructor d => let '(v, rc) := vector_set_destructor (Some v) d in Some (v, mkRes rc None [])
  | VGet i => e ← deref v (vector_get (Some v) i); Some (Some v, mkRes 0 e [])
  | VBack => e ← deref v (vector_back (Some v)); Some (Some v, mkRes 0 e [])
  | VSize => Some (Some v, mkRes (vector_size (Some v)) None [])
  end.

(** The specification: a list of elements and a destructor. *)
Record vstate := mkState { s_elems : list elem; s_destructor : option nat }.

Definition src_value (l : list elem) (src : source) : option elem :=
  match src with ENull => None | EOutside bs => Some bs | EGet i => l !! Z.to_nat i end.
(** The argument is an element of the vector itself. *)
Definition src_inside (src : source) : bool := match src with EGet _ => true | _ => false end.
Definition owning (s : vstate) : bool := bool_decide (is_Some (s_destructor s)).
Definition destroyed_by (d : option nat) (es : list elem) : destroyed :=
  match d with None => [] | Some d => map (fun e => (d, e)) es end.

Definition failed (s : vstate) : vstate * vres := (s, mkRes (-1) None []).
Definition done_with (s : vstate) (l : list elem) (out : option elem) (ds : destroyed) : vstate * vres :=
  (mkState l (s_destructor s), mkRes 0 out ds).

(** [room] says whether storage could be had where the call needs more. *)
Definition vspec (room : bool) (s : vstate) (op : vop) : vstate * vres :=
  let l := s_elems s in
  let d := s_destructor s in
  match op with
  | VPush _ src =>
      match src_value l src with
      | None => failed s
      | Some e => if (owning s && src_inside src) || negb room then failed s else done_with s (l ++ [e]) None []
      end
  | VInsert _ i src =>
      match src_value l src with
      | None => failed s
      | Some e =>
          if (Z.of_nat (length l) <? i) || (owning s && src_inside src) || negb room then failed s
          else done_with s (take (Z.to_nat i) l ++ e :: drop (Z.to_nat i) l) None []
      end
  | VSet i src =>
      match src_value l src, l !! Z.to_nat i with
      | Some e, Some old =>
          if match src with EGet j => j =? i | _ => false end then done_with s l None []
          else if owning s && src_inside src then failed s
          else done_with s (<[Z.to_nat i := e]> l) None (destroyed_by d [old])
      | _, _ => failed s
      end
  | VPopBack =>
      match list.last l with None => failed s | Some e => done_with s (removelast l) None (destroyed_by d [e]) end
  | VPopAt i =>
      match l !! Z.to_nat i with None => failed s | Some e => done_with s (delete (Z.to_nat i) l) None (destroyed_by d [e]) end
  | VTakeAt i out =>
      match src_value l out, l !! Z.to_nat i with
      | Some _, Some e => if src_inside out then failed s else done_with s (delete (Z.to_nat i) l) (Some e) []
      | _, _ => failed s
      end
  | VTakeBack out =>
      match src_value l out, list.last l with
      | Some _, Some e => if src_inside out then failed s else done_with s (removelast l) (Some e) []
      | _, _ => failed s
      end
  | VClear => done_with s [] None (destroyed_by d l)
  | VReserve _ _ | VPrune _ => if room then done_with s l None [] else failed s
  | VSetDestructor d => (mkState l d, mkRes 0 None [])
  | VGet i => done_with s l (l !! Z.to_nat i) []
  | VBack => done_with s l (list.last l) []
  | VSize => (s, mkRes (Z.of_nat (length l)) None [])
  end.

(** When a call may be short of storage: an allocation fails, or the byte count would not fit. *)
Definition may_fail (es : Z) (l : list elem) (op : vop) : Prop :=
  match op with
  | VPush mem _ => mem 0%nat = false \/ SIZE_MAX < 2 * Z.of_nat (length l) * es
  | VInsert mem _ _ => mem 0%nat = false \/ mem 1%nat = false \/ SIZE_MAX < 2 * Z.of_nat (length l) * es
  | VReserve mem n => mem 0%nat = false \/ SIZE_MAX < n * es
  | VPrune mem => mem 0%nat = false
  | _ => False
  end.

(** Arguments a caller may pass: elements of the vector's size, indices and capacities of [size_t]. *)
Definition src_ok (es : Z) (src : source) : Prop :=
  match src with ENull => True | EOutside bs => Z.of_nat (length bs) = es | EGet i => is_u64 i end.
Definition op_ok (es : Z) (op : vop) : Prop :=
  match op with
  | VPush _ src => src_ok es src
  | VInsert _ i src | VSet i src | VTakeAt i src => is_u64 i /\ src_ok es src
  | VTakeBack src => src_ok es src
  | VPopAt i | VGet i => is_u64 i
  | VReserve _ n => is_u64 n
  | _ => True
  end.

(** ** Representation *)

Record vwf (v : vector_t) : Prop := mkVwf {
  vw_es : 0 < v_element_size v;
  vw_size : 0 <= v_size v <= v_capacity v;
  vw_cap : 0 < v_capacity v;
  vw_bytes : v_capacity v * v_element_size v <= SIZE_MAX;
  vw_data : Z.of_nat (length (v_data v)) = v_capacity v * v_element_size v
}.

Definition sized (es : Z) (e : elem) : Prop := Z.of_nat (length e) = es.

Definition vrep (v : vector_t) (l : list elem) : Prop :=
  vwf v /\ Forall (sized (v_element_size v)) l /\ Z.of_nat (length l) = v_size v /\ exists spare, v_data v = concat l ++ spare.

Lemma concat_sized es l : Forall (sized es) l -> Z.of_nat (length (concat l)) = Z.of_nat (length l) * es.
Proof. induction 1 as [|e l He _ IH]; cbn; [lia|]. rewrite length_app. unfold sized in He. nia. Qed.

Lemma read_at a b c off len : off = Z.of_nat (length a) -> len = Z.of_nat (length b) -> read_bytes (a ++ b ++ c) off len = Some b.
Proof.
  intros -> ->. unfold read_bytes. rewrite !length_app. zcases; try lia. cbn [andb].
  rewrite !Nat2Z.id, drop_app_length, take_app_length. done.
Qed.

Lemma write_at a b b' c off : off = Z.of_nat (length a) -> length b = length b' -> write_bytes (a ++ b ++ c) off b' = Some (a ++ b' ++ c).
Proof.
  intros -> Hl. unfold write_bytes. rewrite !length_app. zcases; try lia. cbn [andb]. rewrite Nat2Z.id, take_app_length.
  replace (drop (length a + length b') (a ++ b ++ c)) with c; [done|].
  by rewrite <- Hl, <- length_app, (app_assoc a b c), drop_app_length.
Qed.

(** Offsets within the buffer do not wrap. *)
Lemma offset_small v i : vwf v -> 0 <= i <= v_capacity v -> i *u64 v_element_size v = i * v_element_size v.
Proof.
  intros Hw Hi. pose proof (vw_bytes v Hw) as Hb. pose proof (vw_es v Hw). apply u64_small. unfold is_u64, SIZE_MAX, UINT64_MAX in *. nia.
Qed.

Lemma cap_small v : vwf v -> v_capacity v < 2 ^ 64.
Proof. intros Hw. pose proof (vw_bytes v Hw). pose proof (vw_es v Hw). pose proof (vw_cap v Hw). unfold SIZE_MAX, UINT64_MAX in *. nia. Qed.

Lemma size_u64 v x : vwf v -> 0 <= x <= v_capacity v -> u64 x = x.
Proof. intros Hw Hx. pose proof (cap_small v Hw). apply u64_small. unfold is_u64. lia. Qed.

Lemma succ_u64 v i : vwf v -> 0 <= i < v_capacity v -> i +u64 1 = i + 1.
Proof. intros Hw Hi. apply (size_u64 v); [done|lia]. Qed.

Lemma pred_u64 v i : vwf v -> 0 < i <= v_capacity v -> i -u64 1 = i - 1.
Proof. intros Hw Hi. apply (size_u64 v); [done|lia]. Qed.

(** The buffer around the element at an index. *)
Lemma rep_split v l1 e l2 : vrep v (l1 ++ e :: l2) ->
  exists spare, v_data v = concat l1 ++ e ++ concat l2 ++ spare /\
    Z.of_nat (length (concat l1)) = Z.of_nat (length l1) * v_element_size v /\ Z.of_nat (length e) = v_element_size v /\
    Z.of_nat (length (concat l2)) = Z.of_nat (length l2) * v_element_size v /\
    Z.of_nat (length l1) + 1 + Z.of_nat (length l2) = v_size v.
Proof.
  intros (Hw & Hf & Hl & spare & Hd). exists spare. rewrite concat_app in Hd. cbn in Hd. rewrite <- !app_assoc in Hd.
  apply Forall_app in Hf as [H1 H2]. apply Forall_cons_iff in H2 as [He H2]. rewrite length_app in Hl. cbn in Hl.
  split; [done|]. split; [by apply concat_sized|]. split; [done|]. split; [by apply concat_sized|]. lia.
Qed.

Lemma rep_lookup v l i e : vrep v l -> l !! i = Some e -> exists l1 l2, l = l1 ++ e :: l2 /\ length l1 = i.
Proof. intros _ Hi. exists (take i l), (drop (S i) l). split; [by rewrite take_drop_middle|]. rewrite length_take. apply lookup_lt_Some in Hi. lia. Qed.

Lemma read_elem v l i e : vrep v l -> l !! Z.to_nat i = Some e -> 0 <= i ->
  read_bytes (v_data v) (i *u64 v_element_size v) (v_element_size v) = Some e /\ i < v_size v.
Proof.
  intros Hr Hi H0. destruct (rep_lookup v l _ e Hr Hi) as (l1 & l2 & -> & Hl1).
  destruct (rep_split v l1 e l2 Hr) as (spare & -> & Ha & He & Hb & Hs). pose proof (vw_size v (proj1 Hr)).
  rewrite offset_small by (apply Hr || lia). split; [|lia]. apply read_at; lia.
Qed.

Lemma index_out v l i : vrep v l -> 0 <= i -> l !! Z.to_nat i = None <-> v_size v <= i.
Proof. intros (_ & _ & Hl & _) Hi. rewrite lookup_ge_None. lia. Qed.

(** What an element argument leads to. *)
Lemma as_ptr_spec v l src : vrep v l -> src_ok (v_element_size v) src ->
  match src_value l src with
  | None => as_ptr v src = Null
  | Some e => is_null (as_ptr v src) = false /\ load v (as_ptr v src) = Some e /\ sized (v_element_size v) e /\
              vector_is_aliased (Some v) (as_ptr v src) = src_inside src
  end.
Proof.
  intros Hr Hok. destruct src as [|bs|i]; cbn in *; [done| |].
  - unfold sized. split; [done|]. split; [|done]. rewrite <- (app_nil_r bs) at 1. by apply (read_at []).
  - destruct (l !! Z.to_nat i) as [e|] eqn:E.
    + destruct (read_elem v l i e Hr E ltac:(unfold is_u64 in *; lia)) as [Hrd Hlt].
      destruct (Z.leb_spec (v_size v) i); [lia|]. cbn. split; [done|]. split; [done|].
      pose proof (vw_size v (proj1 Hr)). pose proof (vw_es v (proj1 Hr)). split.
      * destruct Hr as (_ & Hf & _). by eapply Forall_lookup_1.
      * unfold is_u64 in Hok. rewrite !offset_small by (apply Hr || lia). zcases; nia.
    + apply (index_out v l i Hr) in E; [|unfold is_u64 in *; lia]. by destruct (Z.leb_spec (v_size v) i); [|lia].
Qed.

(** New contents in the same buffer. *)
Lemma vrep_contents v data l spare n : vwf v -> data = concat l ++ spare -> Z.of_nat (length data) = Z.of_nat (length (v_data v)) ->
  Forall (sized (v_element_size v)) l -> Z.of_nat (length l) = n -> n <= v_capacity v -> vrep (set_size (set_data v data) n) l.
Proof.
  intros [] Hd Hl Hf Hn Hc. split; [split; cbn; lia|]. split; [done|]. split; [done|]. by exists spare.
Qed.

(** The same contents in a buffer of another size. *)
Lemma vrep_realloc v l n : vrep v l -> v_size v <= n -> 0 < n -> n * v_element_size v <= SIZE_MAX ->
  vrep (set_buffer v (realloc (v_data v) (n *u64 v_element_size v)) n) l.
Proof.
  intros (Hw & Hf & Hl & spare & Hd) Hn H0 Hb. pose proof (vw_es v Hw). pose proof (concat_sized _ _ Hf) as Hc.
  assert (En : n *u64 v_element_size v = n * v_element_size v) by (apply u64_small; unfold is_u64, SIZE_MAX, UINT64_MAX in *; nia).
  rewrite En. assert (Hlen : Z.of_nat (length (realloc (v_data v) (n * v_element_size v))) = n * v_element_size v).
  { unfold realloc. rewrite length_app, length_take, length_replicate. nia. }
  split; [split; cbn; try lia; apply Hw|]. split; [done|]. split; [done|]. unfold realloc. cbn. rewrite Hd.
  rewrite take_app_ge by nia. rewrite <- app_assoc. by eexists.
Qed.

Lemma div_lt_mul a b c : 0 < b -> a / b < c <-> a < c * b.
Proof. intros Hb. split; intros Hlt; [|apply Z.div_lt_upper_bound; lia]. pose proof (Z.mod_pos_bound a b Hb). pose proof (Z.div_mod a b ltac:(lia)). nia. Qed.

Lemma vector_reserve_spec mem v l n : vrep v l -> is_u64 n ->
  exists v' rc, vector_reserve mem (Some v) n = (Some v', rc) /\ vrep v' l /\ v_element_size v' = v_element_size v /\
    v_destructor v' = v_destructor v /\
    ((rc = 0 /\ n <= v_capacity v') \/ (rc = -1 /\ v' = v /\ (mem 0%nat = false \/ SIZE_MAX < n * v_element_size v))).
Proof.
  intros Hr Hn. pose proof (proj1 Hr) as Hw. pose proof (vw_es v Hw). pose proof (vw_size v Hw). unfold vector_reserve.
  destruct (Z.eqb_spec (v_element_size v) 0); [lia|].
  destruct (Z.leb_spec n (v_capacity v)); [exists v, 0; split_and!; [done..|by left]|].
  destruct (Z.ltb_spec (SIZE_MAX / v_element_size v) n) as [Hlt|Hge].
  { apply div_lt_mul in Hlt; [|done]. exists v, (-1). split_and!; [done..|]. right. split_and!; [done..|by right]. }
  destruct (mem 0%nat) eqn:Em; cbn [negb]; [|exists v, (-1); split_and!; [done..|]; right; split_and!; [done..|by left]].
  eexists _, 0. split; [reflexivity|]. assert (n * v_element_size v <= SIZE_MAX).
  { destruct (Z.le_gt_cases (n * v_element_size v) SIZE_MAX) as [|Hgt]; [done|]. apply div_lt_mul in Hgt; lia. }
  split; [apply vrep_realloc; lia || done|]. split_and!; [done..|]. left. split; [done|]. cbn. lia.
Qed.

(** Room for one more element, unless storage is short. *)
Lemma make_room_spec mem v l : vrep v l ->
  match make_room mem v with
  | Some v' => vrep v' l /\ v_size v' < v_capacity v' /\ v_element_size v' = v_element_size v /\ v_destructor v' = v_destructor v
  | None => mem 0%nat = false \/ SIZE_MAX < 2 * Z.of_nat (length l) * v_element_size v
  end.
Proof.
  intros Hr. pose proof (proj1 Hr) as Hw. pose proof (vw_es v Hw). pose proof (vw_size v Hw). pose proof (vw_cap v Hw).
  pose proof (proj1 (proj2 (proj2 Hr))) as Hl. unfold make_room, vector_grow.
  destruct (Z.leb_spec (v_capacity v) (v_size v)) as [Hge|Hlt]; [|done].
  destruct (Z.ltb_spec (SIZE_MAX / 2) (v_capacity v)) as [Hbig|Hok].
  { right. apply div_lt_mul in Hbig; [|lia]. nia. }
  destruct (Z.ltb_spec 0 (v_capacity v)) as [_|]; [|lia].
  assert (E2 : v_capacity v *u64 2 = v_capacity v * 2).
  { apply u64_small. unfold is_u64, SIZE_MAX, UINT64_MAX in *. change (2 ^ 64) with 18446744073709551616 in *. change (2 ^ 64 - 1) with 18446744073709551615 in *. zdiv. }
  rewrite E2. destruct (vector_reserve_spec mem v l (v_capacity v * 2) Hr) as (v' & rc & -> & Hr' & He & Hd & Hc).
  { rewrite <- E2. apply u64_range. }
  destruct Hc as [(-> & Hcap)|(-> & _ & Hbad)].
  - split; [done|]. pose proof (proj1 (proj2 (proj2 Hr'))). split; [lia|done].
  - destruct Hbad; [by left|right; nia].
Qed.

(** An element argument still leads to its value after the buffer has moved. *)
Lemma load_after_room mem v v1 l src e : vrep v l -> src_ok (v_element_size v) src -> make_room mem v = Some v1 ->
  src_value l src = Some e -> load v1 (as_ptr v src) = Some e.
Proof.
  intros Hr Hok Em Ee. pose proof (make_room_spec mem v l Hr) as Hm. rewrite Em in Hm. destruct Hm as (Hr1 & _ & Hes & _).
  destruct src as [|bs|i]; cbn in *; [done| |].
  - rewrite Hes. injection Ee as ->. rewrite <- (app_nil_r e) at 1. by apply (read_at []).
  - destruct (read_elem v l i e Hr Ee ltac:(unfold is_u64 in Hok; lia)) as [_ Hlt1].
    destruct (Z.leb_spec (v_size v) i); [lia|]. cbn. rewrite <- Hes.
    by destruct (read_elem v1 l i e Hr1 Ee ltac:(unfold is_u64 in Hok; lia)) as [-> _].
Qed.

(** The element after the last one. *)
Lemma append_elem v l e : vrep v l -> v_size v < v_capacity v -> sized (v_element_size v) e ->
  exists data, write_bytes (v_data v) (v_size v *u64 v_element_size v) e = Some data /\
    vrep (set_size (set_data v data) (v_size v +u64 1)) (l ++ [e]).
Proof.
  intros Hr Hlt He. pose proof Hr as (Hw & Hf & Hl & spare & Hd). pose proof (vw_data v Hw) as Hlen. pose proof (vw_es v Hw). pose proof (vw_size v Hw).
  pose proof (concat_sized _ _ Hf) as Hc. rewrite offset_small, (succ_u64 v) by (done || lia).
  assert (Hs : exists old rest, spare = old ++ rest /\ length old = length e).
  { exists (take (length e) spare), (drop (length e) spare). split; [by rewrite take_drop|]. rewrite length_take.
    rewrite Hd, length_app in Hlen. unfold sized in He. nia. }
  destruct Hs as (old & rest & -> & Hol). rewrite Hd. exists (concat l ++ e ++ rest). split; [apply write_at; lia || done|].
  apply (vrep_contents v _ _ rest); [done| | | | |lia].
  - by rewrite concat_app, <- app_assoc; cbn; rewrite app_nil_r.
  - rewrite Hd, !length_app, Hol. lia.
  - apply Forall_app. split; [done|]. by constructor.
  - rewrite length_app. cbn. lia.
Qed.

(** The elements after an index, moved left over it. *)
Lemma shift_left_spec v l1 e l2 : vrep v (l1 ++ e :: l2) ->
  exists v', shift_left v (Z.of_nat (length l1)) = Some v' /\ vrep v' (l1 ++ l2) /\ v_element_size v' = v_element_size v /\
    v_destructor v' = v_destructor v.
Proof.
  intros Hr. destruct (rep_split v l1 e l2 Hr) as (spare & Hd & Ha & He & Hb & Hs). pose proof Hr as (Hw & Hf & _ & _).
  pose proof (vw_size v Hw). pose proof (vw_es v Hw). unfold shift_left.
  rewrite (succ_u64 v), (pred_u64 v (v_size v)) by (done || lia).
  apply Forall_app in Hf as [H1 H2]. apply Forall_cons_iff in H2 as [_ H2].
  assert (Hfin : forall data tail, data = concat l1 ++ concat l2 ++ tail -> length data = length (v_data v) ->
    vrep (set_size (set_data v data) (v_size v - 1)) (l1 ++ l2)).
  { intros data tail Hdata Hlen. apply (vrep_contents v _ _ tail); [done|by rewrite concat_app, <- app_assoc|by rewrite Hlen| |rewrite length_app; lia|lia].
    by apply Forall_app. }
  destruct (Z.ltb_spec (Z.of_nat (length l1) + 1) (v_size v)) as [Hlt|Hge].
  - rewrite (size_u64 v (v_size v - Z.of_nat (length l1))), (size_u64 v (v_size v - Z.of_nat (length l1) - 1)) by (done || lia).
    rewrite !offset_small by (done || lia). unfold memmove.
    assert (Hrd : read_bytes (v_data v) ((Z.of_nat (length l1) + 1) * v_element_size v)
      ((v_size v - Z.of_nat (length l1) - 1) * v_element_size v) = Some (concat l2)).
    { rewrite Hd, (app_assoc (concat l1) e). apply read_at; rewrite ?length_app; nia. }
    rewrite Hrd. cbn.
    assert (Hw2 : exists tail, write_bytes (v_data v) (Z.of_nat (length l1) * v_element_size v) (concat l2) = Some (concat l1 ++ concat l2 ++ tail) /\
      length (concat l1 ++ concat l2 ++ tail) = length (v_data v)).
    { exists (drop (length (concat l2)) (e ++ concat l2 ++ spare)). rewrite Hd.
      rewrite <- (take_drop (length (concat l2)) (e ++ concat l2 ++ spare)) at 1. split.
      - apply write_at; [lia|]. rewrite length_take, !length_app. lia.
      - rewrite !length_app, length_drop, !length_app. lia. }
    destruct Hw2 as (tail & -> & Hlen). cbn. eexists; split; [reflexivity|]. split; [by apply (Hfin _ tail)|done].
  - destruct l2; [|cbn in *; lia]. cbn. eexists; split; [reflexivity|]. split; [|done]. by apply (Hfin _ (e ++ spare)).
Qed.

(** The elements from an index on, moved right, and the new element in the gap. *)
Lemma insert_elem v l1 l2 e : vrep v (l1 ++ l2) -> v_size v < v_capacity v -> sized (v_element_size v) e ->
  let es := v_element_size v in let i := Z.of_nat (length l1) in
  exists data data', memmove (v_data v) ((i +u64 1) *u64 es) (i *u64 es) ((v_size v -u64 i) *u64 es) = Some data /\
    load (set_data v data) (Outside e) = Some e /\ write_bytes data (i *u64 es) e = Some data' /\
    vrep (set_size (set_data v data') (v_size v +u64 1)) (l1 ++ e :: l2).
Proof.
  intros Hr Hlt He es i. pose proof Hr as (Hw & Hf & Hl & spare & Hd). pose proof (vw_data v Hw) as Hlen. pose proof (vw_es v Hw). pose proof (vw_size v Hw).
  apply Forall_app in Hf as [H1 H2]. rewrite length_app in Hl. pose proof (concat_sized _ _ H1) as C1. pose proof (concat_sized _ _ H2) as C2.
  rewrite !(succ_u64 v), (size_u64 v (v_size v - i)) by (done || lia). unfold es. rewrite !offset_small by (done || lia).
  rewrite concat_app, <- app_assoc in Hd. unfold sized in He. fold es in He, C1, C2, Hlen |- *.
  assert (Hsp : es <= Z.of_nat (length spare)) by (rewrite Hd, !length_app in Hlen; nia).
  set (old := take (length e) spare). set (rest := drop (length e) spare).
  assert (Hspare : spare = old ++ rest) by (unfold old, rest; by rewrite take_drop).
  assert (Hold : length old = length e) by (unfold old; rewrite length_take; lia).
  set (gap := take (length e) (concat l2 ++ old)). set (over := drop (length e) (concat l2 ++ old)).
  assert (Hgap : length gap = length e) by (unfold gap; rewrite length_take, length_app; lia).
  assert (Hover : length over = length (concat l2)) by (unfold over; rewrite length_drop, length_app; lia).
  assert (Hd2 : v_data v = concat l1 ++ gap ++ over ++ rest).
  { rewrite Hd, Hspare. f_equal. rewrite !(app_assoc). f_equal. unfold gap, over. by rewrite take_drop. }
  exists (concat l1 ++ gap ++ concat l2 ++ rest), (concat l1 ++ e ++ concat l2 ++ rest). split_and!.
  - unfold memmove. rewrite Hd at 1. rewrite (read_at (concat l1) (concat l2)) by lia. cbn. rewrite Hd2.
    rewrite (app_assoc (concat l1) gap). rewrite (write_at (concat l1 ++ gap) over) by (rewrite ?length_app; lia). by rewrite <- app_assoc.
  - cbn. fold es. rewrite <- (app_nil_r e) at 1. by apply (read_at []).
  - by apply write_at.
  - apply (vrep_contents v _ _ rest); [done|by rewrite concat_app; cbn; rewrite <- !app_assoc| |apply Forall_app; split; [done|by constructor]|rewrite length_app; cbn; lia|lia].
    rewrite Hd2, !length_app, Hgap, Hover. lia.
Qed.

(** An element overwritten in place. *)
Lemma overwrite_elem v l1 old l2 e : vrep v (l1 ++ old :: l2) -> sized (v_element_size v) e ->
  exists data, write_bytes (v_data v) (Z.of_nat (length l1) *u64 v_element_size v) e = Some data /\ vrep (set_data v data) (l1 ++ e :: l2).
Proof.
  intros Hr He. destruct (rep_split v l1 old l2 Hr) as (spare & Hd & Ha & Ho & Hb & Hs). pose proof Hr as (Hw & Hf & Hl & _).
  pose proof (vw_size v Hw). rewrite offset_small by (done || lia). exists (concat l1 ++ e ++ concat l2 ++ spare). unfold sized in He. split.
  - rewrite Hd. apply write_at; lia.
  - apply Forall_app in Hf as [H1 H2]. apply Forall_cons_iff in H2 as [_ H2].
    assert (Hv : vrep (set_size (set_data v (concat l1 ++ e ++ concat l2 ++ spare)) (v_size v)) (l1 ++ e :: l2)); [|exact Hv].
    apply (vrep_contents v _ _ spare); [done|by rewrite concat_app; cbn; rewrite <- !app_assoc|rewrite Hd, !length_app; lia| |rewrite length_app; cbn; lia|lia].
    apply Forall_app. split; [done|]. by constructor.
Qed.

Lemma destroy_at_spec v l i e : vrep v l -> l !! Z.to_nat i = Some e -> 0 <= i ->
  destroy_at v i = Some (destroyed_by (v_destructor v) [e]).
Proof.
  intros Hr Hi H0. unfold destroy_at, destroyed_by. destruct (v_destructor v) as [d|]; [|done].
  by destruct (read_elem v l i e Hr Hi H0) as [-> _].
Qed.

Lemma destroyed_by_app d a b : destroyed_by d (a ++ b) = destroyed_by d a ++ destroyed_by d b.
Proof. unfold destroyed_by. destruct d; [|done]. apply map_app. Qed.

Lemma destroy_from_spec v l1 l2 : vrep v (l1 ++ l2) ->
  destroy_from (length l2) v (Z.of_nat (length l1)) = Some (destroyed_by (v_destructor v) l2).
Proof.
  revert l1. induction l2 as [|e l2 IH]; intros l1 Hr; cbn [destroy_from length].
  - by destruct (v_destructor v).
  - rewrite (destroy_at_spec v (l1 ++ e :: l2) _ e Hr) by (rewrite ?Nat2Z.id, ?list_lookup_middle by done; done || lia). cbn [mbind option_bind].
    specialize (IH (l1 ++ [e])). rewrite <- app_assoc in IH. cbn in IH. rewrite length_app in IH. cbn in IH.
    replace (Z.of_nat (length l1) + 1) with (Z.of_nat (length l1 + 1)) by lia. rewrite IH by done. cbn.
    change (e :: l2) with ([e] ++ l2). by rewrite destroyed_by_app.
Qed.

Lemma destroy_all_spec v l : vrep v l -> destroy_from (Z.to_nat (v_size v)) v 0 = Some (destroyed_by (v_destructor v) l).
Proof. intros Hr. rewrite <- (proj1 (proj2 (proj2 Hr))), Nat2Z.id. apply (destroy_from_spec v [] l Hr). Qed.

Lemma vrep_empty v l : vrep v l -> vrep (set_size v 0) [].
Proof.
  intros (Hw & _). split; [|split; [done|split; [done|by exists (v_data v)]]]. destruct Hw. split; cbn; lia || done.
Qed.

(** ** Simulation *)

Definition vabs (v : vector_t) (s : vstate) : Prop := vrep v (s_elems s) /\ v_destructor v = s_destructor s.

(** One call does to the vector what [vspec] does to the list, short of storage only for a reason. *)
Definition sim (v : vector_t) (s : vstate) (op : vop) : Prop :=
  exists v' room, vec_step v op = Some (Some v', snd (vspec room s op)) /\ vabs v' (fst (vspec room s op)) /\
    v_element_size v' = v_element_size v /\ (room = false -> may_fail (v_element_size v) (s_elems s) op).

(** A call that changes nothing. *)
Lemma sim_same v s op r : vabs v s -> vec_step v op = Some (Some v, r) -> vspec true s op = (s, r) -> sim v s op.
Proof. intros Hv Hs He. exists v, true. rewrite He. by split_and!. Qed.

Lemma owning_spec v s : vabs v s -> bool_decide (is_Some (v_destructor v)) = owning s.
Proof. intros [_ E]. unfold owning. by rewrite E. Qed.

Lemma sim_push v s mem src : vabs v s -> src_ok (v_element_size v) src -> sim v s (VPush mem src).
Proof.
  intros Hv Hok. pose proof Hv as [Hr Hd]. pose proof (as_ptr_spec v _ src Hr Hok) as Hp.
  assert (Hown := owning_spec v s Hv). destruct (src_value (s_elems s) src) as [e|] eqn:Ee.
  2:{ eapply sim_same; [done| |by cbn; rewrite Ee]. cbn. by rewrite Hp. }
  destruct Hp as (Hn & Hl & He & Ha).
  destruct (owning s && src_inside src) eqn:Eo.
  { eapply sim_same; [done| |by cbn; rewrite Ee, Eo]. cbn -[vector_is_aliased]. by rewrite Hn, Hown, Ha, Eo. }
  pose proof (make_room_spec mem v _ Hr) as Hm. destruct (make_room mem v) as [v1|] eqn:Em.
  - destruct Hm as (Hr1 & Hlt & Hes & Hd1). destruct (append_elem v1 _ e Hr1 Hlt) as (data & Ew & Hr2); [by rewrite Hes|].
    exists (set_size (set_data v1 data) (v_size v1 +u64 1)), true. cbn -[vector_is_aliased]. rewrite Ee, Eo. cbn -[vector_is_aliased].
    rewrite Hn, Hown, Ha, Eo, Em.
    pose proof (load_after_room mem v v1 _ src e Hr Hok Em Ee) as Hl1.
    rewrite Hl1. cbn. rewrite Ew. cbn. split; [done|]. split; [split; [exact Hr2|cbn; congruence]|done].
  - exists v, false. cbn -[vector_is_aliased]. rewrite Ee, Eo. cbn -[vector_is_aliased]. rewrite Hn, Hown, Ha, Eo, Em. by split_and!.
Qed.

Lemma sim_insert v s mem i src : vabs v s -> is_u64 i -> src_ok (v_element_size v) src -> sim v s (VInsert mem i src).
Proof.
  intros Hv Hi Hok. pose proof Hv as [Hr Hd]. pose proof (as_ptr_spec v _ src Hr Hok) as Hp. unfold is_u64 in Hi.
  pose proof (proj1 (proj2 (proj2 Hr))) as Hlen. assert (Hown := owning_spec v s Hv).
  destruct (src_value (s_elems s) src) as [e|] eqn:Ee.
  2:{ eapply sim_same; [done| |by cbn; rewrite Ee]. cbn. by rewrite Hp. }
  destruct Hp as (Hn & Hl & He & Ha).
  destruct (Z.ltb_spec (v_size v) i) as [Hgt|Hle].
  { eapply sim_same; [done| |cbn; rewrite Ee, Hlen; by rewrite (proj2 (Z.ltb_lt _ _) Hgt)]. cbn -[vector_is_aliased]. rewrite Hn. cbn -[vector_is_aliased].
    by rewrite (proj2 (Z.ltb_lt _ _) Hgt). }
  assert (Hge : (Z.of_nat (length (s_elems s)) <? i) = false) by (apply Z.ltb_ge; lia).
  destruct (owning s && src_inside src) eqn:Eo.
  { eapply sim_same; [done| |cbn; rewrite Ee, Eo, Hge; done]. cbn -[vector_is_aliased]. rewrite Hn, Hown, Ha, Eo. rewrite (proj2 (Z.ltb_ge _ _) Hle). done. }
  assert (Htemp : exists temp, (if src_inside src then if mem 0%nat then bs ← load v (as_ptr v src); Some (Some (Outside bs)) else Some None
      else Some (Some (as_ptr v src))) = Some temp /\ (temp = Some (Outside e) \/ temp = None /\ mem 0%nat = false)).
  { destruct src as [|bs|j]; cbn in Ee; [done| |].
    - injection Ee as ->. eexists; split; [done|by left].
    - cbn. destruct (mem 0%nat); [|eexists; split; [done|by right]]. cbn in Hl. rewrite Hl. eexists; split; [done|by left]. }
  destruct Htemp as (temp & Et & [->|[-> Hm0]]).
  2:{ exists v, false. cbn -[vector_is_aliased]. rewrite Ee, Eo, Hge. cbn -[vector_is_aliased]. rewrite Hn, Hown, Ha, Eo, (proj2 (Z.ltb_ge _ _) Hle). cbn -[vector_is_aliased].
      rewrite ?Ha, Et. cbn. split_and!; try done. by left. }
  pose proof (make_room_spec (fun k => mem (S k)) v _ Hr) as Hm. destruct (make_room (fun k => mem (S k)) v) as [v1|] eqn:Em.
  - destruct Hm as (Hr1 & Hlt & Hes & Hd1). pose proof (proj1 (proj2 (proj2 Hr1))) as Hlen1.
    rewrite <- (take_drop (Z.to_nat i) (s_elems s)) in Hr1.
    destruct (insert_elem v1 _ _ e Hr1 Hlt) as (data & data' & Emv & Eld & Ew & Hr2); [by rewrite Hes|].
    rewrite length_take, Nat.min_l, Z2Nat.id in Emv, Ew by lia.
    exists (set_size (set_data v1 data') (v_size v1 +u64 1)), true. cbn -[vector_is_aliased load]. rewrite Ee, Eo, Hge. cbn -[vector_is_aliased load].
    rewrite Hn, Hown, Ha, Eo, (proj2 (Z.ltb_ge _ _) Hle). cbn -[vector_is_aliased load]. rewrite ?Ha, Et. cbn -[load]. rewrite Em, Emv. cbn -[load]. rewrite Eld. cbn. rewrite Ew. cbn.
    split; [done|]. split; [split; [exact Hr2|cbn; congruence]|done].
  - exists v, false. cbn -[vector_is_aliased]. rewrite Ee, Eo, Hge. cbn -[vector_is_aliased]. rewrite Hn, Hown, Ha, Eo, (proj2 (Z.ltb_ge _ _) Hle). cbn -[vector_is_aliased].
    rewrite ?Ha, Et. cbn. rewrite Em. split_and!; try done. intros _. by right.
Qed.

Lemma sim_set v s i src : vabs v s -> is_u64 i -> src_ok (v_element_size v) src -> sim v s (VSet i src).
Proof.
  intros Hv Hi Hok. pose proof Hv as [Hr Hd]. pose proof (as_ptr_spec v _ src Hr Hok) as Hp. unfold is_u64 in Hi.
  assert (Hown := owning_spec v s Hv). destruct (src_value (s_elems s) src) as [e|] eqn:Ee.
  2:{ eapply sim_same; [done| |by cbn; rewrite Ee]. cbn. by rewrite Hp. }
  destruct Hp as (Hn & Hl & He & Ha). destruct (s_elems s !! Z.to_nat i) as [old|] eqn:Eo.
  2:{ eapply sim_same; [done| |by cbn; rewrite Ee, Eo]. apply (index_out v _ i Hr) in Eo; [|lia]. cbn -[vector_is_aliased].
      rewrite Hn, (proj2 (Z.leb_le _ _) Eo). done. }
  destruct (read_elem v _ i old Hr Eo ltac:(lia)) as [_ Hlt].
  assert (Hself : match as_ptr v src with Inside off => off =? i *u64 v_element_size v | _ => false end =
                  match src with EGet j => j =? i | _ => false end).
  { destruct src as [|bs|j]; [done|done|]. cbn in Ee, Hok |- *. unfold is_u64 in Hok.
    destruct (read_elem v _ j e Hr Ee ltac:(lia)) as [_ Hltj]. destruct (Z.leb_spec (v_size v) j); [lia|].
    pose proof (vw_size v (proj1 Hr)). pose proof (vw_es v (proj1 Hr)). rewrite !offset_small by (apply Hr || lia). zcases; nia. }
  destruct (match src with EGet j => j =? i | _ => false end) eqn:Es.
  { eapply sim_same; [done| |cbn; rewrite Ee, Eo, Es; by destruct s]. cbn -[vector_is_aliased].
    rewrite Hn, (proj2 (Z.leb_gt _ _) Hlt). cbn -[vector_is_aliased]. by rewrite Hself. }
  destruct (owning s && src_inside src) eqn:Ew.
  { eapply sim_same; [done| |cbn; rewrite Ee, Eo, Es, Ew; done]. cbn -[vector_is_aliased].
    rewrite Hn, (proj2 (Z.leb_gt _ _) Hlt). cbn -[vector_is_aliased]. by rewrite Hself, Hown, Ha, Ew. }
  destruct (rep_lookup v _ _ old Hr Eo) as (l1 & l2 & El & Hl1). rewrite El in Hr.
  destruct (overwrite_elem v l1 old l2 e Hr He) as (data & Ewr & Hr2). replace (Z.of_nat (length l1)) with i in Ewr by lia.
  exists (set_data v data), true. cbn -[vector_is_aliased load]. rewrite Ee, Eo, Es, Ew, Hn, (proj2 (Z.leb_gt _ _) Hlt). cbn -[vector_is_aliased load].
  rewrite Hself, Hown, Ha, Ew. rewrite (destroy_at_spec v (s_elems s) i old) by (done || lia || by rewrite El). cbn -[load]. rewrite Hl. cbn. rewrite Ewr. cbn.
  rewrite Hd. split; [done|]. split; [split; [|done]|done]. cbn. rewrite El, <- Hl1. by rewrite insert_app_r_alt, Nat.sub_diag by done.
Qed.

(** The last element, and the vector without it. *)
Lemma rep_last v l : vrep v l ->
  match list.last l with
  | Some e => v_size v <> 0 /\ l !! Z.to_nat (v_size v - 1) = Some e /\ l = removelast l ++ [e] /\ v_size v -u64 1 = v_size v - 1
  | None => v_size v = 0
  end.
Proof.
  intros Hr. pose proof Hr as (Hw & _ & Hl & _). destruct l as [|x l] using rev_ind; [done|]. clear IHl.
  rewrite last_snoc. rewrite removelast_last. rewrite length_app in Hl. cbn in Hl. pose proof (vw_size v Hw). split_and!; [lia| |done|apply (pred_u64 v); done || lia].
  apply list_lookup_middle. lia.
Qed.

Lemma drop_last_elem v l e : vrep v (l ++ [e]) -> vrep (set_size v (v_size v - 1)) l.
Proof.
  intros (Hw & Hf & Hlen & spare & Hdt). rewrite concat_app, <- app_assoc in Hdt.
  rewrite length_app in Hlen. cbn in Hlen. apply Forall_app in Hf as [Hf _].
  split; [destruct Hw; split; cbn; lia|]. split; [done|]. split; [cbn; lia|]. by eexists.
Qed.

Lemma sim_pop_back v s : vabs v s -> sim v s VPopBack.
Proof.
  intros Hv. pose proof Hv as [Hr Hd]. pose proof (rep_last v _ Hr) as Hl. destruct (list.last (s_elems s)) as [e|] eqn:El.
  - destruct Hl as (Hn & Hi & Hs & Hp). exists (set_size v (v_size v - 1)), true. cbn. rewrite El.
    destruct (Z.eqb_spec (v_size v) 0); [done|]. pose proof (vw_size v (proj1 Hr)). rewrite Hp.
    rewrite (destroy_at_spec v (s_elems s) _ e) by (done || lia). cbn. rewrite Hd. split; [done|]. split; [split; [|done]|done]. cbn.
    rewrite Hs in Hr. by apply drop_last_elem in Hr.
  - eapply sim_same; [done| |by cbn; rewrite El]. cbn. by rewrite Hl.
Qed.

(** Removing the element at an index. *)
Lemma shift_at v l i e : vrep v l -> l !! Z.to_nat i = Some e -> 0 <= i ->
  exists v', shift_left v i = Some v' /\ vrep v' (delete (Z.to_nat i) l) /\ v_element_size v' = v_element_size v /\ v_destructor v' = v_destructor v.
Proof.
  intros Hr Hi H0. destruct (rep_lookup v l _ e Hr Hi) as (l1 & l2 & -> & Hl1). rewrite <- Hl1.
  replace i with (Z.of_nat (length l1)) by lia. rewrite delete_middle. by apply (shift_left_spec v l1 e l2).
Qed.

Lemma sim_pop_at v s i : vabs v s -> is_u64 i -> sim v s (VPopAt i).
Proof.
  intros Hv Hi. pose proof Hv as [Hr Hd]. unfold is_u64 in Hi. destruct (s_elems s !! Z.to_nat i) as [e|] eqn:E.
  - destruct (read_elem v _ i e Hr E ltac:(lia)) as [_ Hlt]. destruct (shift_at v _ i e Hr E ltac:(lia)) as (v' & Es & Hr' & He & Hd').
    exists v', true. cbn. rewrite E. destruct (Z.leb_spec (v_size v) i); [lia|].
    rewrite (destroy_at_spec v (s_elems s) i e) by (done || lia). cbn. rewrite Es. cbn. rewrite Hd. split; [done|]. split; [split; [done|cbn; congruence]|done].
  - eapply sim_same; [done| |by cbn; rewrite E]. cbn. apply (index_out v _ i Hr) in E; [|lia]. by rewrite (proj2 (Z.leb_le _ _) E).
Qed.

Lemma take_at_spec v s i out : vabs v s -> 0 <= i -> src_ok (v_element_size v) out ->
  exists v', vector_take_at (Some v) i (as_ptr v out) = Some (Some v', r_code (snd (vspec true s (VTakeAt i out))), r_out (snd (vspec true s (VTakeAt i out)))) /\
    vabs v' (fst (vspec true s (VTakeAt i out))) /\ v_element_size v' = v_element_size v.
Proof.
  intros Hv Hi Hok. pose proof Hv as [Hr Hd]. pose proof (as_ptr_spec v _ out Hr Hok) as Hp. unfold vector_take_at. cbn -[vector_is_aliased].
  destruct (s_elems s !! Z.to_nat i) as [e|] eqn:E.
  - destruct (read_elem v _ i e Hr E Hi) as [Hrd Hlt]. rewrite (proj2 (Z.leb_gt _ _) Hlt). cbn -[vector_is_aliased].
    destruct (src_value (s_elems s) out) as [o|].
    + destruct Hp as (Hn & _ & _ & Ha). rewrite Hn, Ha. destruct (src_inside out); [by exists v|]. rewrite Hrd.
      destruct (shift_at v _ i e Hr E Hi) as (v' & Es & Hr' & He & Hd'). cbn. rewrite Es. exists v'. cbn. split; [done|]. split; [split; [done|cbn; congruence]|done].
    + rewrite Hp. cbn. by exists v.
  - apply (index_out v _ i Hr) in E as E'; [|done]. rewrite (proj2 (Z.leb_le _ _) E'). cbn. exists v.
    destruct (src_value (s_elems s) out); done.
Qed.

Lemma sim_take_at v s i out : vabs v s -> is_u64 i -> src_ok (v_element_size v) out -> sim v s (VTakeAt i out).
Proof.
  intros Hv Hi Hok. unfold is_u64 in Hi. destruct (take_at_spec v s i out Hv ltac:(lia) Hok) as (v' & E & Hv' & He). exists v', true.
  cbn [vec_step]. rewrite E. split; [|by split_and!]. cbn [mbind option_bind].
  assert (Hds : forall r : vres, r_destroyed r = [] -> mkRes (r_code r) (r_out r) [] = r) by (by intros [] [= ->]).
  rewrite Hds; [done|]. cbn. destruct (src_value (s_elems s) out); [|done]. destruct (s_elems s !! Z.to_nat i); [|done]. by destruct (src_inside out).
Qed.

Lemma delete_last {A} (l : list A) e : l = removelast l ++ [e] -> delete (length l - 1)%nat l = removelast l.
Proof.
  intros Hl. rewrite Hl at 2. replace (length l - 1)%nat with (length (removelast l)) by (rewrite Hl at 2; rewrite length_app; cbn; lia).
  rewrite delete_middle. apply app_nil_r.
Qed.

Lemma sim_take_back v s out : vabs v s -> src_ok (v_element_size v) out -> sim v s (VTakeBack out).
Proof.
  intros Hv Hok. pose proof Hv as [Hr Hd]. pose proof (rep_last v _ Hr) as Hl. pose proof (as_ptr_spec v _ out Hr Hok) as Hp.
  destruct (list.last (s_elems s)) as [e|] eqn:El.
  - destruct Hl as (Hn & Hi & Hs & Hpr). pose proof (vw_size v (proj1 Hr)). pose proof (proj1 (proj2 (proj2 Hr))) as Hlen.
    destruct (take_at_spec v s (v_size v - 1) out Hv ltac:(lia) Hok) as (v' & E & Hv' & He). cbn -[vector_take_at] in E, Hv'. rewrite Hi in E, Hv'.
    assert (Hdel : delete (Z.to_nat (v_size v - 1)) (s_elems s) = removelast (s_elems s)).
    { replace (Z.to_nat (v_size v - 1)) with (length (s_elems s) - 1)%nat by lia. by eapply delete_last. }
    rewrite Hdel in E, Hv'. exists v', true. cbn -[vector_take_at]. rewrite El. destruct (Z.eqb_spec (v_size v) 0); [done|]. rewrite Hpr.
    destruct (src_value (s_elems s) out) as [o|].
    + destruct Hp as (Hnn & _). rewrite Hnn. cbn -[vector_take_at]. rewrite E. cbn. split; [by destruct (src_inside out)|]. by split_and!.
    + rewrite Hp. rewrite Hp in E. unfold vector_take_at in E. rewrite orb_true_r in E. injection E as <-. cbn. by split_and!.
  - eapply sim_same; [done| |cbn; rewrite El; by destruct (src_value (s_elems s) out)]. cbn. by rewrite Hl.
Qed.

Lemma sim_clear v s : vabs v s -> sim v s VClear.
Proof.
  intros [Hr Hd]. exists (set_size v 0), true. cbn. rewrite (destroy_all_spec v _ Hr). cbn. rewrite Hd.
  split; [done|]. split; [split; [by eapply vrep_empty|done]|done].
Qed.

Lemma sim_reserve v s mem n : vabs v s -> is_u64 n -> sim v s (VReserve mem n).
Proof.
  intros [Hr Hd] Hn. destruct (vector_reserve_spec mem v _ n Hr Hn) as (v' & rc & E & Hr' & He & Hd' & Hc).
  destruct Hc as [(-> & _)|(-> & -> & Hbad)].
  - exists v', true. cbn -[vector_reserve]. rewrite E. split; [done|]. split; [split; [done|cbn; congruence]|done].
  - exists v, false. cbn -[vector_reserve]. rewrite E. by split_and!.
Qed.

Lemma sim_prune v s mem : vabs v s -> sim v s (VPrune mem).
Proof.
  intros Hv. pose proof Hv as [Hr Hd]. pose proof (proj1 Hr) as Hw. pose proof (vw_es v Hw). pose proof (vw_size v Hw). pose proof (vw_bytes v Hw).
  unfold sim. cbn. destruct (Z.eqb_spec (v_element_size v) 0); [lia|].
  destruct (Z.ltb_spec (v_size v) (v_capacity v)) as [Hlt|_].
  2:{ exists v, true. split; [done|]. split; [by destruct s|done]. }
  set (cap := if 0 <? v_size v then v_size v else 1). assert (Hn : v_size v <= cap <= v_capacity v /\ 0 < cap) by (unfold cap; zcases; lia).
  destruct (Z.ltb_spec (SIZE_MAX / v_element_size v) cap) as [Hbad|_]; [apply div_lt_mul in Hbad; nia|].
  destruct (mem 0%nat) eqn:Em; cbn [negb].
  - eexists _, true. split; [reflexivity|]. split; [split; [apply vrep_realloc; [done|lia|lia|nia]|done]|done].
  - exists v, false. by split_and!.
Qed.

Lemma sim_get v s i : vabs v s -> is_u64 i -> sim v s (VGet i).
Proof.
  intros Hv Hi. pose proof Hv as [Hr Hd]. pose proof (as_ptr_spec v _ (EGet i) Hr Hi) as Hp. cbn in Hp.
  eapply sim_same; [done| |by cbn; destruct s]. cbn -[load]. destruct (s_elems s !! Z.to_nat i) as [e|].
  - destruct Hp as (Hn & Hl & _). destruct (v_size v <=? i); [done|]. cbn [deref]. rewrite Hl. done.
  - by rewrite Hp.
Qed.

Lemma sim_back v s : vabs v s -> sim v s VBack.
Proof.
  intros Hv. pose proof Hv as [Hr Hd]. pose proof (rep_last v _ Hr) as Hl. eapply sim_same; [done| |by cbn; destruct s]. cbn -[load].
  destruct (list.last (s_elems s)) as [e|]; [|by rewrite Hl]. destruct Hl as (Hn & Hi & _ & Hp).
  destruct (Z.eqb_spec (v_size v) 0); [done|]. pose proof (vw_size v (proj1 Hr)). rewrite Hp. cbn.
  by destruct (read_elem v _ _ e Hr Hi ltac:(lia)) as [-> _].
Qed.

Lemma vec_step_refines v s op : vabs v s -> op_ok (v_element_size v) op -> sim v s op.
Proof.
  intros Hv Hok. destruct op as [mem src|mem i src|i src| |i|i out|out| |mem n|mem|d|i| |]; cbn in Hok; try match type of Hok with _ /\ _ => destruct Hok end;
    eauto using sim_push, sim_insert, sim_set, sim_pop_back, sim_pop_at, sim_take_at, sim_take_back, sim_clear, sim_reserve, sim_prune, sim_get, sim_back.
  - exists (mkVector (v_size v) (v_capacity v) (v_element_size v) (v_data v) d), true. split; [done|].
    split; [split; [|done]|done]. destruct Hv as [([] & Hr) _]. by split; [split|].
  - eapply sim_same; [done|done|]. cbn. destruct Hv as [(_ & _ & -> & _) _]. done.
Qed.

(** ** Runs *)

Fixpoint vec_run (v : vector_t) (ops : list vop) : option (option vector_t * list vres) :=
  match ops with
  | [] => Some (Some v, [])
  | op :: ops =>
      '(v, r) ← vec_step v op;
      match v with
      | None => None
      | Some v => '(v, rs) ← vec_run v ops; Some (v, r :: rs)
      end
  end.

(** The same calls on the list; [rooms] says for each whether storage could be had. *)
Fixpoint spec_run (rooms : list bool) (s : vstate) (ops : list vop) : vstate * list vres :=
  match ops, rooms with
  | op :: ops, room :: rooms =>
      let '(s, r) := vspec room s op in
      let '(s, rs) := spec_run rooms s ops in (s, r :: rs)
  | _, _ => (s, [])
  end.

(** Every allocation of the call succeeds, and the capacity it asks for is at most [B] elements. *)
Definition plenty (B : Z) (op : vop) : Prop :=
  match op with
  | VPush mem _ | VInsert mem _ _ | VPrune mem => forall k, mem k = true
  | VReserve mem n => (forall k, mem k = true) /\ n <= B
  | _ => True
  end.

Lemma vspec_length room s op : (length (s_elems (fst (vspec room s op))) <= S (length (s_elems s)))%nat.
Proof.
  destruct op; cbn; repeat (case_match; cbn); try lia; rewrite ?length_app, ?length_insert, ?length_delete by (by eexists); cbn;
    rewrite ?length_take, ?length_drop; try lia.
  all: try (rewrite removelast_firstn_len, length_take; lia).
Qed.

Lemma vec_run_refines ops v s B : vabs v s -> Forall (op_ok (v_element_size v)) ops ->
  exists v' rooms, length rooms = length ops /\ vec_run v ops = Some (Some v', snd (spec_run rooms s ops)) /\
    vabs v' (fst (spec_run rooms s ops)) /\ v_element_size v' = v_element_size v /\
    (Forall (plenty B) ops -> Z.of_nat (length (s_elems s)) + Z.of_nat (length ops) <= B -> 2 * B * v_element_size v <= SIZE_MAX ->
     rooms = replicate (length ops) true).
Proof.
  revert v s. induction ops as [|op ops IH]; intros v s Hv Hok; [by exists v, []|].
  apply Forall_cons_iff in Hok as [Ho Hok]. destruct (vec_step_refines v s op Hv Ho) as (v1 & room & E & Hv1 & He & Hf).
  rewrite <- He in Hok. destruct (IH v1 _ Hv1 Hok) as (v' & rooms & Hl & Er & Hv' & He' & Hp).
  exists v', (room :: rooms). cbn [vec_run spec_run length]. rewrite E. cbn [mbind option_bind]. rewrite Er. cbn [mbind option_bind].
  pose proof (vspec_length room s op) as Hlen.
  destruct (vspec room s op) as [s1 r]. cbn [fst snd] in *. destruct (spec_run rooms s1 ops) as [s2 rs]. cbn [fst snd] in *.
  split; [by rewrite Hl|]. split; [done|]. split; [done|]. split; [congruence|].
  intros Hpl HB Hmax. apply Forall_cons_iff in Hpl as [Hpo Hpl]. cbn [replicate]. f_equal.
  - destruct room; [done|]. exfalso. specialize (Hf eq_refl). pose proof (vw_es v (proj1 (proj1 Hv))).
    destruct op; cbn in Hf, Hpo; try done; try destruct Hpo as [Hpo Hb]; rewrite ?Hpo in Hf; intuition (try congruence; nia).
  - apply Hp; [done|lia|by rewrite He].
Qed.

(** ** Ownership *)

(** The elements a successful call brings in, and those it hands to the caller. *)
Definition entered (s : vstate) (op : vop) (r : vres) : list elem :=
  if r_code r =? 0 then
    match op with
    | VPush _ src | VInsert _ _ src => option_list (src_value (s_elems s) src)
    | VSet i src => if match src with EGet j => j =? i | _ => false end then [] else option_list (src_value (s_elems s) src)
    | _ => []
    end
  else [].
Definition handed_out (op : vop) (r : vres) : list elem :=
  match op with VTakeAt _ _ | VTakeBack _ => option_list (r_out r) | _ => [] end.

Fixpoint run_entered (rooms : list bool) (s : vstate) (ops : list vop) : list elem :=
  match ops, rooms with
  | op :: ops, room :: rooms => entered s op (snd (vspec room s op)) ++ run_entered rooms (fst (vspec room s op)) ops
  | _, _ => []
  end.
Definition run_handed (ops : list vop) (rs : list vres) : list elem := concat (zip_with handed_out ops rs).
Definition run_destroyed (rs : list vres) : list elem := concat (map (fun r => map snd (r_destroyed r)) rs).

Definition keeps_destructor (op : vop) : Prop := match op with VSetDestructor _ => False | _ => True end.

Lemma destroyed_by_elems d l : map snd (destroyed_by (Some d) l) = l.
Proof. cbn. rewrite map_map. cbn. apply map_id. Qed.

Lemma delete_perm {A} (l : list A) i x : l !! i = Some x -> l ≡ₚ x :: delete i l.
Proof. apply delete_Permutation. Qed.

Lemma last_perm {A} (l : list A) x : list.last l = Some x -> l ≡ₚ x :: removelast l.
Proof.
  destruct l as [|y l _] using rev_ind; [done|]. rewrite last_snoc, removelast_last. intros [= ->]. by rewrite Permutation_app_comm.
Qed.

Lemma vinsert_perm {A} (l : list A) i old x : l !! i = Some old -> old :: <[i := x]> l ≡ₚ l ++ [x].
Proof.
  intros Hi. rewrite <- (take_drop_middle l i old Hi) at 2. rewrite insert_take_drop by (by eapply lookup_lt_Some). solve_Permutation.
Qed.

(** Nothing an owning vector was given is lost or duplicated by a call. *)
Lemma step_conserves room s op d : s_destructor s = Some d -> keeps_destructor op ->
  let s' := fst (vspec room s op) in let r := snd (vspec room s op) in
  s_destructor s' = Some d /\
  s_elems s' ++ handed_out op r ++ map snd (r_destroyed r) ≡ₚ s_elems s ++ entered s op r.
Proof.
  intros Hd Hk. destruct s as [l d0]. cbn in Hd. subst d0.
  destruct op as [mem src|mem i src|i src| |i|i out|out| |mem n|mem|d'|i| |]; cbn in Hk |- *; try done.
  - destruct (src_value l src) as [e|] eqn:E; [|cbn; by rewrite !app_nil_r]. cbn.
    destruct (src_inside src || negb room); cbn; [by rewrite !app_nil_r|]. by rewrite E, app_nil_r.
  - destruct (src_value l src) as [e|] eqn:E; [|cbn; by rewrite !app_nil_r]. cbn.
    destruct ((Z.of_nat (length l) <? i) || src_inside src || negb room); cbn; [by rewrite !app_nil_r|]. rewrite E. split; [done|].
    rewrite app_nil_r. rewrite <- (take_drop (Z.to_nat i) l) at 3. cbn. solve_Permutation.
  - destruct (src_value l src) as [e|] eqn:E; [|cbn; by rewrite !app_nil_r]. destruct (l !! Z.to_nat i) as [old|] eqn:Eo; [|cbn; by rewrite !app_nil_r].
    destruct (match src with EGet j => j =? i | _ => false end) eqn:Es; cbn; [by rewrite Es, !app_nil_r|].
    destruct (src_inside src); cbn; [by rewrite !app_nil_r|]. rewrite Es, E. split; [done|]. cbn.
    rewrite <- (vinsert_perm l _ old e Eo). solve_Permutation.
  - destruct (list.last l) as [e|] eqn:E; cbn; [|by rewrite !app_nil_r]. split; [done|]. rewrite app_nil_r. rewrite (last_perm l e E) at 2. solve_Permutation.
  - destruct (l !! Z.to_nat i) as [e|] eqn:E; cbn; [|by rewrite !app_nil_r]. split; [done|]. rewrite app_nil_r. rewrite (delete_perm l _ e E) at 2. solve_Permutation.
  - destruct (src_value l out); cbn; [|by rewrite !app_nil_r]. destruct (l !! Z.to_nat i) as [e|] eqn:E; cbn; [|by rewrite !app_nil_r].
    destruct (src_inside out); cbn; [by rewrite !app_nil_r|]. split; [done|]. rewrite !app_nil_r. rewrite (delete_perm l _ e E) at 2. solve_Permutation.
  - destruct (src_value l out); cbn; [|by rewrite !app_nil_r]. destruct (list.last l) as [e|] eqn:E; cbn; [|by rewrite !app_nil_r].
    destruct (src_inside out); cbn; [by rewrite !app_nil_r|]. split; [done|]. rewrite !app_nil_r. rewrite (last_perm l e E) at 2. solve_Permutation.
  - rewrite map_map. cbn. by rewrite map_id, app_nil_r.
  - destruct room; cbn; by rewrite !app_nil_r.
  - destruct room; cbn; by rewrite !app_nil_r.
  - unfold entered. cbn. split; [done|]. by case_match; rewrite !app_nil_r.
Qed.

Lemma run_conserves rooms s ops d : s_destructor s = Some d -> Forall keeps_destructor ops -> length rooms = length ops ->
  let '(s', rs) := spec_run rooms s ops in
  s_destructor s' = Some d /\
  s_elems s' ++ run_handed ops rs ++ run_destroyed rs ≡ₚ s_elems s ++ run_entered rooms s ops.
Proof.
  revert rooms s. induction ops as [|op ops IH]; intros [|room rooms] s Hd Hk Hl; try done; cbn [spec_run].
  apply Forall_cons_iff in Hk as [Ho Hk]. destruct (step_conserves room s op d Hd Ho) as [Hd1 H1]. cbn [run_entered].
  destruct (vspec room s op) as [s1 r]. cbn [fst snd] in *. specialize (IH rooms s1 Hd1 Hk ltac:(cbn in Hl; lia)).
  destruct (spec_run rooms s1 ops) as [s2 rs]. destruct IH as [Hd2 H2]. split; [done|]. unfold run_handed, run_destroyed in *. cbn.
  rewrite (app_assoc (s_elems s)), <- H1. rewrite <- !app_assoc. transitivity (handed_out op r ++ map snd (r_destroyed r) ++ s_elems s1 ++ run_entered rooms s1 ops).
  - rewrite <- H2. solve_Permutation.
  - solve_Permutation.
Qed.

(** ** Properties *)

Lemma create_rep mem es v : 0 <= es -> vector_create mem es = Some v -> vabs v (mkState [] None) /\ v_element_size v = es.
Proof.
  intros H0. unfold vector_create, INITIAL_CAPACITY. destruct (Z.eqb_spec es 0); [done|].
  destruct (Z.ltb_spec (SIZE_MAX / es) 10) as [|Hok]; [done|]. destruct (mem 0%nat), (mem 1%nat); cbn [negb]; try done. intros E. apply (inj Some) in E as <-.
  assert (Hb : 10 * es <= SIZE_MAX).
  { destruct (Z.le_gt_cases (10 * es) SIZE_MAX) as [|Hgt]; [done|]. apply div_lt_mul in Hgt; lia. }
  assert (Em : 10 *u64 es = 10 * es) by (apply u64_small; unfold is_u64, SIZE_MAX, UINT64_MAX in *; lia).
  split; [|done]. split; [|done]. split; [split; cbn; rewrite ?length_replicate, ?Em; lia|]. split; [done|]. split; [done|]. by eexists.
Qed.

(** C32: A vector is a list of its elements.  From a created vector, for every sequence of calls (with
    elements from outside, or pointers into the vector itself, or null), every copy stays inside the
    buffer, each result -- return code, element read or taken, elements passed to the destructor -- is the
    one the list specification gives, and the final buffer holds the final list; a call falls short of
    storage only when an allocation fails or the size in bytes would not fit, and never when memory is
    plentiful and at most [B] elements are in play. *)
Theorem vector_refines_list mem es v ops B :
  0 <= es -> vector_create mem es = Some v -> Forall (op_ok es) ops ->
  exists v' rooms, length rooms = length ops /\
    vec_run v ops = Some (Some v', snd (spec_run rooms (mkState [] None) ops)) /\
    vrep v' (s_elems (fst (spec_run rooms (mkState [] None) ops))) /\
    (Forall (plenty B) ops -> Z.of_nat (length ops) <= B -> 2 * B * es <= SIZE_MAX -> rooms = replicate (length ops) true).
Proof.
  intros H0 Hc Hok. destruct (create_rep mem es v H0 Hc) as [Hv He]. rewrite <- He in Hok.
  destruct (vec_run_refines ops v _ B Hv Hok) as (v' & rooms & Hl & E & Hv' & He' & Hp). exists v', rooms.
  split; [done|]. split; [done|]. split; [apply Hv'|]. rewrite <- He. intros Hpl Hn Hm. apply Hp; [done|cbn; lia|done].
Qed.

Definition cells (x : Z) : elem := [Some x; None].
Definition all_mem : nat -> bool := fun _ => true.
Definition sample_ops : list vop :=
  [VPush all_mem (EOutside (cells 1)); VPush all_mem (EOutside (cells 2)); VInsert all_mem 0 (EGet 1); VSet 2 (EOutside (cells 3));
   VPush (fun _ => false) (EGet 0); VTakeAt 1 (EOutside (cells 0)); VPopAt 7; VPrune all_mem; VPush all_mem (EGet 1); VBack; VSize].

Lemma vector_refines_list_witness :
  exists v, vector_create all_mem 2 = Some v /\ Forall (op_ok 2) sample_ops /\
    (exists v' rooms, length rooms = length sample_ops /\
      vec_run v sample_ops = Some (Some v', snd (spec_run rooms (mkState [] None) sample_ops)) /\
      vrep v' (s_elems (fst (spec_run rooms (mkState [] None) sample_ops))) /\
      (Forall (plenty 100) sample_ops -> Z.of_nat (length sample_ops) <= 100 -> 2 * 100 * 2 <= SIZE_MAX -> rooms = replicate (length sample_ops) true)) /\
    snd <$> vec_run v sample_ops =
      Some [mkRes 0 None []; mkRes 0 None []; mkRes 0 None []; mkRes 0 None []; mkRes 0 None []; mkRes 0 (Some (cells 1)) [];
            mkRes (-1) None []; mkRes 0 None []; mkRes 0 None []; mkRes 0 (Some (cells 3)) []; mkRes 4 None []].
Proof.
  eexists. split; [reflexivity|].
  assert (Hok : Forall (op_ok 2) sample_ops) by (repeat constructor; vm_compute; done).
  split; [exact Hok|]. split; [exact (vector_refines_list all_mem 2 _ sample_ops 100 ltac:(lia) eq_refl Hok)|vm_compute; reflexivity].
Defined.

(** An owning vector destroys each element once.  On a vector given a destructor when it was created,
    whatever the calls: the elements put in are, as a multiset, those still in the vector, those handed
    out by the take functions and those passed to the destructor; and destroying the vector passes the
    remaining ones to the destructor, so that nothing is leaked or destroyed twice. *)
Theorem vector_ownership mem es v d v0 ops :
  0 <= es -> vector_create mem es = Some v0 -> vector_set_destructor (Some v0) (Some d) = (Some v, 0) ->
  Forall (op_ok es) ops -> Forall keeps_destructor ops ->
  exists v' rooms rs l ds, vec_run v ops = Some (Some v', rs) /\ length rooms = length ops /\ vrep v' l /\
    l ++ run_handed ops rs ++ run_destroyed rs ≡ₚ run_entered rooms (mkState [] (Some d)) ops /\
    vector_destroy (Some v') = Some (None, ds, 0) /\
    map snd ds ++ run_handed ops rs ++ run_destroyed rs ≡ₚ run_entered rooms (mkState [] (Some d)) ops.
Proof.
  intros H0 Hc Hs Hok Hk. destruct (create_rep mem es v0 H0 Hc) as [[Hr0 _] He]. injection Hs as <-.
  set (v := mkVector _ _ _ _ _). assert (Hv : vabs v (mkState [] (Some d))).
  { split; [|done]. destruct Hr0 as ([] & Hrest). by split; [split|]. }
  destruct (vec_run_refines ops v _ 0 Hv) as (v' & rooms & Hl & E & [Hr' Hd'] & _); [by cbn; rewrite He|].
  pose proof (run_conserves rooms (mkState [] (Some d)) ops d eq_refl Hk Hl) as Hcons.
  destruct (spec_run rooms (mkState [] (Some d)) ops) as [s' rs]. cbn [fst snd] in *. destruct Hcons as [Hd2 Hp].
  exists v', rooms, rs, (s_elems s'), (destroyed_by (Some d) (s_elems s')). split_and!; try done.
  - unfold vector_destroy. rewrite (destroy_all_spec v' _ Hr'), Hd', Hd2. done.
  - by rewrite destroyed_by_elems.
Qed.

Lemma vector_ownership_witness :
  let ops := [VPush all_mem (EOutside (cells 1)); VPush all_mem (EOutside (cells 2)); VPush all_mem (EGet 0); VSet 0 (EOutside (cells 3)); VTakeAt 1 (EOutside (cells 0))] in
  exists v0 v, vector_create all_mem 2 = Some v0 /\ vector_set_destructor (Some v0) (Some 7%nat) = (Some v, 0) /\
    (snd <$> vec_run v ops) = Some [mkRes 0 None []; mkRes 0 None []; mkRes (-1) None []; mkRes 0 None [(7%nat, cells 1)]; mkRes 0 (Some (cells 2)) []] /\
    exists v' rooms rs l ds, vec_run v ops = Some (Some v', rs) /\ length rooms = length ops /\ vrep v' l /\
      l ++ run_handed ops rs ++ run_destroyed rs ≡ₚ run_entered rooms (mkState [] (Some 7%nat)) ops /\
      vector_destroy (Some v') = Some (None, ds, 0) /\
      map snd ds ++ run_handed ops rs ++ run_destroyed rs ≡ₚ run_entered rooms (mkState [] (Some 7%nat)) ops.
Proof.
  intros ops. eexists _, _. split; [reflexivity|]. split; [reflexivity|]. split; [vm_compute; reflexivity|].
  apply (vector_ownership all_mem 2 _ 7 _ ops ltac:(lia) eq_refl eq_refl); repeat constructor; vm_compute; done.
Defined.

(** Moving and copying whole vectors: the destination's elements are destroyed with its own destructor and the
    source's contents, element size and destructor arrive unchanged, the source pointer becoming null; a
    copy has the same elements in a buffer of its own, is refused to owning vectors, and fails otherwise
    only for want of memory. *)
Theorem vector_move_and_copy dest src s1 s2 mem :
  vabs dest s1 -> vabs src s2 ->
  vector_move Distinct (Some dest) (Some src) = Some (Some src, None, destroyed_by (s_destructor s1) (s_elems s1), 0) /\
  match vector_deep_copy mem (Some src) with
  | None => False
  | Some None => is_Some (s_destructor s2) \/ (exists k, mem k = false) \/ SIZE_MAX < 10 * v_element_size src
  | Some (Some copy) => s_destructor s2 = None /\ vabs copy s2 /\ v_element_size copy = v_element_size src
  end.
Proof.
  intros [H1 D1] [H2 D2]. split.
  { unfold vector_move, vector_clear. rewrite (destroy_all_spec dest _ H1), D1. cbn. by destruct src. }
  unfold vector_deep_copy. rewrite <- D2. destruct (v_destructor src) as [d|] eqn:Ed; [left; by eexists|].
  pose proof (proj1 H2) as Hw. pose proof (vw_es src Hw). pose proof (vw_size src Hw). pose proof (cap_small src Hw).
  destruct (vector_create mem (v_element_size src)) as [nv|] eqn:Ec.
  2:{ right. unfold vector_create, INITIAL_CAPACITY in Ec. destruct (Z.eqb_spec (v_element_size src) 0); [lia|].
      destruct (Z.ltb_spec (SIZE_MAX / v_element_size src) 10) as [Hb|]; [right; by apply div_lt_mul in Hb|].
      left. destruct (mem 0%nat) eqn:M0; [|by exists 0%nat]. destruct (mem 1%nat) eqn:M1; [done|by exists 1%nat]. }
  destruct (create_rep mem (v_element_size src) nv ltac:(lia) Ec) as [[Hn Dn] En]. cbn in Hn, Dn.
  destruct (vector_reserve_spec (fun k => mem (2 + k)%nat) nv [] (v_capacity src) Hn) as (v1 & rc & E1 & Hr1 & Es1 & Dd1 & Hc); [unfold is_u64; lia|].
  cbn [Nat.add] in E1. cbn [Nat.add]. rewrite E1. destruct Hc as [(-> & Hcap)|(-> & _ & Hbad)].
  2:{ right. left. destruct Hbad as [Hbad|Hbad]; [by exists 2%nat|]. pose proof (vw_bytes src Hw). rewrite En in Hbad. lia. }
  destruct H2 as (_ & Hf & Hl & spare & Hd). pose proof (concat_sized _ _ Hf) as Hcs.
  destruct (Z.ltb_spec 0 (v_size src)) as [Hpos|Hz].
  - rewrite offset_small by (done || lia). rewrite Hd. rewrite (read_at [] (concat (s_elems s2)) spare) by (cbn; nia). cbn [mbind option_bind].
    pose proof (proj1 Hr1) as Hw1. pose proof (vw_data v1 Hw1) as Hd1. rewrite Es1, En in Hd1.
    assert (Ew : write_bytes (v_data v1) 0 (concat (s_elems s2)) = Some (concat (s_elems s2) ++ drop (length (concat (s_elems s2))) (v_data v1))).
    { rewrite <- (take_drop (length (concat (s_elems s2))) (v_data v1)) at 1.
      apply (write_at [] (take (length (concat (s_elems s2))) (v_data v1))); [done|]. rewrite length_take. nia. }
    rewrite Ew. cbn [mbind option_bind].
    split; [done|]. split; [|cbn; congruence]. split; [|cbn; congruence].
    apply (vrep_contents v1 _ _ (drop (length (concat (s_elems s2))) (v_data v1))); [done|done|rewrite length_app, length_drop; nia|by rewrite Es1, En|done|lia].
  - cbn. assert (s_elems s2 = []) as E0 by (destruct (s_elems s2); [done|cbn in Hl; lia]).
    split; [done|]. split; [|by rewrite Es1]. split; [by rewrite E0|congruence].
Qed.
