(* ===== verification/DSet.v ===== *)
(** * The set library ([include/dlibc/set.h])

    A set is the buffer of a vector together with a comparator; the functions that only manage the buffer
    are, in the source, those of [vector.h] word for word, and are modelled by them ([base]).  A comparator
    is a name, interpreted by [cmp]; without one elements are compared byte by byte.  Pointers, allocations
    and destructors are as in [Vector].

    The elements are shown to behave as a set: no two are equal under the set's rule, insertion, removal
    and the set algebra mean what they say, [set_dedupe] restores uniqueness. *)
From S2P Require Import Prelude Vector.

Record set_t := mkSet { base : vector_t; comparator : option nat }.

Definition SET_NPOS : Z := SIZE_MAX.

Section Sets.
(** The comparators: 0 for equal elements. *)
Variable cmp : nat -> elem -> elem -> Z.

Definition set_is_aliased (set : option set_t) (p : ptr) : bool := vector_is_aliased (base <$> set) p.

(** The set's equality rule on two elements. *)
Definition set_elements_equal (rule : option nat) (a b : elem) : bool :=
  match rule with
  | Some c => cmp c a b =? 0
  | None => bool_decide (a = b)
  end.

Definition set_create (mem : nat -> bool) (element_size : Z) : option set_t :=
  (fun v => mkSet v None) <$> vector_create mem element_size.

(** Lift an operation on the buffer. *)
Definition on_base (f : option vector_t -> option vector_t * Z) (set : option set_t) : option set_t * Z :=
  match set with
  | None => (None, -1)
  | Some s => let '(v, rc) := f (Some (base s)) in ((fun v => mkSet v (comparator s)) <$> v, rc)
  end.

Definition set_set_destructor (set : option set_t) (d : option nat) : option set_t * Z :=
  on_base (fun v => vector_set_destructor v d) set.
Definition set_get_destructor (set : option set_t) : option nat := s ← set; v_destructor (base s).
Definition set_set_comparator (set : option set_t) (c : option nat) : option set_t * Z :=
  match set with None => (None, -1) | Some s => (Some (mkSet (base s) c), 0) end.
Definition set_get_comparator (set : option set_t) : option nat := s ← set; comparator s.
Definition set_reserve (mem : nat -> bool) (set : option set_t) (n : Z) : option set_t * Z :=
  on_base (fun v => vector_reserve mem v n) set.
Definition set_grow (mem : nat -> bool) (set : option set_t) : option set_t * Z := on_base (vector_grow mem) set.
Definition set_prune (mem : nat -> bool) (set : option set_t) : option set_t * Z := on_base (vector_prune mem) set.

(** The element at an index. *)
Definition slot (s : set_t) (i : Z) : option elem :=
  read_bytes (v_data (base s)) (i *u64 v_element_size (base s)) (v_element_size (base s)).

(** The scan of [set_find], with [cnt] elements to go. *)
Fixpoint find_from (cnt : nat) (s : set_t) (element : ptr) (i : Z) : option Z :=
  match cnt with
  | O => Some SET_NPOS
  | S cnt =>
      a ← slot s i;
      e ← load (base s) element;
      if set_elements_equal (comparator s) a e then Some i else find_from cnt s element (i + 1)
  end.

Definition set_find (set : option set_t) (element : ptr) : option Z :=
  match set with
  | None => Some SET_NPOS
  | Some s => if is_null element then Some SET_NPOS else find_from (Z.to_nat (v_size (base s))) s element 0
  end.

Definition set_contains (set : option set_t) (element : ptr) : option bool :=
  i ← set_find set element; Some (negb (i =? SET_NPOS)).

Definition set_insert (mem : nat -> bool) (set : option set_t) (element : ptr) : option (option set_t * Z) :=
  match set with
  | None => Some (None, -1)
  | Some s =>
      if is_null element then Some (set, -1)
      else if bool_decide (is_Some (v_destructor (base s))) && set_is_aliased set element then Some (set, -1)
      else
        i ← set_find set element;
        if negb (i =? SET_NPOS) then Some (set, 1)
        else
          match make_room mem (base s) with
          | None => Some (set, -1)
          | Some v =>
              bs ← load v element;
              data ← write_bytes (v_data v) (v_size v *u64 v_element_size v) bs;
              Some (Some (mkSet (set_size (set_data v data) (v_size v +u64 1)) (comparator s)), 0)
          end
  end.

(** The last element moves into the slot that is freed. *)
Definition fill_hole (s : set_t) (index : Z) : option set_t :=
  let v := base s in
  let last := v_size v -u64 1 in
  data ← (if negb (index =? last)
          then memmove (v_data v) (index *u64 v_element_size v) (last *u64 v_element_size v) (v_element_size v)
          else Some (v_data v));
  Some (mkSet (set_size (set_data v data) (v_size v -u64 1)) (comparator s)).

Definition set_remove_at (set : option set_t) (index : Z) : option (option set_t * destroyed * Z) :=
  match set with
  | None => Some (None, [], -1)
  | Some s =>
      if v_size (base s) <=? index then Some (set, [], -1)
      else
        ds ← destroy_at (base s) index;
        s ← fill_hole s index;
        Some (Some s, ds, 0)
  end.

Definition set_remove (set : option set_t) (element : ptr) : option (option set_t * destroyed * Z) :=
  match set with
  | None => Some (None, [], -1)
  | Some s =>
      if is_null element then Some (set, [], -1)
      else
        i ← set_find set element;
        if i =? SET_NPOS then Some (set, [], 1) else set_remove_at set i
  end.

Definition set_take_at (set : option set_t) (index : Z) (out : ptr) : option (option set_t * Z * option elem) :=
  match set with
  | None => Some (None, -1, None)
  | Some s =>
      if (v_size (base s) <=? index) || is_null out then Some (set, -1, None)
      else if set_is_aliased set out then Some (set, -1, None)
      else
        e ← slot s index;
        s ← fill_hole s index;
        Some (Some s, 0, Some e)
  end.

Definition set_take (set : option set_t) (element out : ptr) : option (option set_t * Z * option elem) :=
  match set with
  | None => Some (None, -1, None)
  | Some s =>
      if is_null element || is_null out then Some (set, -1, None)
      else if set_is_aliased set out then Some (set, -1, None)
      else
        i ← set_find set element;
        if i =? SET_NPOS then Some (set, 1, None) else set_take_at set i out
  end.

(** [while (j < set->size)]: drop what equals the element at [i]. *)
Fixpoint dedupe_inner (fuel : nat) (s : set_t) (i j : Z) : option (set_t * destroyed) :=
  if v_size (base s) <=? j then Some (s, [])
  else
    match fuel with
    | O => None
    | S fuel =>
        kept ← slot s i;
        candidate ← slot s j;
        if set_elements_equal (comparator s) kept candidate then
          '(s', ds, _) ← set_remove_at (Some s) j;
          match s' with
          | None => None
          | Some s' => '(s', ds') ← dedupe_inner fuel s' i j; Some (s', ds ++ ds')
          end
        else dedupe_inner fuel s i (j + 1)
    end.

(** [for (i = 0; i + 1 < set->size; ++i)]. *)
Fixpoint dedupe_outer (fuel : nat) (s : set_t) (i : Z) : option (set_t * destroyed) :=
  if v_size (base s) <=? i +u64 1 then Some (s, [])
  else
    match fuel with
    | O => None
    | S fuel =>
        '(s, ds) ← dedupe_inner (Z.to_nat (v_size (base s))) s i (i + 1);
        '(s, ds') ← dedupe_outer fuel s (i + 1);
        Some (s, ds ++ ds')
    end.

Definition set_dedupe (set : option set_t) : option (option set_t * destroyed * Z) :=
  match set with
  | None => Some (None, [], -1)
  | Some s => '(s', ds) ← dedupe_outer (Z.to_nat (v_size (base s))) s 0; Some (Some s', ds, 0)
  end.

Definition set_clear (set : option set_t) : option (option set_t * destroyed * Z) :=
  match set with
  | None => Some (None, [], -1)
  | Some s => '(v, ds, rc) ← vector_clear (Some (base s)); Some (option_map (fun v => mkSet v (comparator s)) v, ds, rc)
  end.

Definition set_is_empty (set : option set_t) : bool := vector_is_empty (base <$> set).
Definition set_get_const (set : option set_t) (index : Z) : ptr := vector_get (base <$> set) index.
Definition set_size_of (set : option set_t) : Z := vector_size (base <$> set).
Definition set_capacity (set : option set_t) : Z := vector_capacity (base <$> set).
Definition set_element_size (set : option set_t) : Z := vector_element_size (base <$> set).
Definition set_as_c_array (set : option set_t) : ptr := vector_as_c_array (base <$> set).

Definition set_destroy (set : option set_t) : option (option set_t * destroyed * Z) :=
  '(_, ds, rc) ← vector_destroy (base <$> set); Some (None, ds, rc).

Definition set_move (kind : pair_kind) (dest src : option set_t) : option (option set_t * option set_t * destroyed * Z) :=
  match dest, src with
  | Some _, Some s =>
      match kind with
      | SameVector => Some (dest, src, [], 0)
      | SharedData => Some (dest, src, [], -1)
      | Distinct => '(_, ds, _) ← set_clear dest; Some (Some (mkSet (base s) (comparator s)), None, ds, 0)
      end
  | _, _ => Some (dest, src, [], -1)
  end.

Definition set_deep_copy (mem : nat -> bool) (set : option set_t) : option (option set_t) :=
  match set with
  | None => Some None
  | Some s => v ← vector_deep_copy mem (Some (base s)); Some (option_map (fun v => mkSet v (comparator s)) v)
  end.

(** ** Set algebra *)

Definition set_is_compatible (a b : option set_t) : bool :=
  match a, b with
  | Some a, Some b =>
      (v_element_size (base a) =? v_element_size (base b)) && bool_decide (comparator a = comparator b) &&
      bool_decide (v_destructor (base a) = None) && bool_decide (v_destructor (base b) = None)
  | _, _ => false
  end.

(** [for (i = 0; i < from->size; ++i) set_insert(result, element i)] for the elements [want] selects, with
    [cnt] elements to go; nothing is left when an insertion fails.  [mem k] are the allocations of the
    [k]-th round. *)
Fixpoint insert_all (cnt : nat) (mem : nat -> nat -> bool) (want : elem -> option bool) (from result : set_t) (i : Z)
  : option (option set_t) :=
  match cnt with
  | O => Some (Some result)
  | S cnt =>
      e ← slot from i;
      w ← want e;
      if negb w then insert_all cnt (fun k => mem (S k)) want from result (i + 1)
      else
        '(r, rc) ← set_insert (mem 0%nat) (Some result) (Outside e);
        match r with
        | Some result => if rc <? 0 then Some None else insert_all cnt (fun k => mem (S k)) want from result (i + 1)
        | None => None
        end
  end.

Definition set_union (mem : nat -> bool) (mema memb : nat -> nat -> bool) (a b : option set_t) : option (option set_t) :=
  if negb (set_is_compatible a b) then Some None else
  match a, b with
  | Some a, Some b =>
      match set_create mem (v_element_size (base a)) with
      | None => Some None
      | Some result =>
          r ← insert_all (Z.to_nat (v_size (base a))) mema (fun _ => Some true) a (mkSet (base result) (comparator a)) 0;
          match r with
          | None => Some None
          | Some result => insert_all (Z.to_nat (v_size (base b))) memb (fun _ => Some true) b result 0
          end
      end
  | _, _ => Some None
  end.

(** Intersection keeps the elements of [a] that [b] contains, difference the others. *)
Definition set_select (keep : bool) (mem : nat -> bool) (mema : nat -> nat -> bool) (a b : option set_t) : option (option set_t) :=
  if negb (set_is_compatible a b) then Some None else
  match a, b with
  | Some a, Some b =>
      match set_create mem (v_element_size (base a)) with
      | None => Some None
      | Some result =>
          insert_all (Z.to_nat (v_size (base a))) mema
            (fun e => c ← set_contains (Some b) (Outside e); Some (Bool.eqb c keep)) a (mkSet (base result) (comparator a)) 0
      end
  | _, _ => Some None
  end.
Definition set_intersection := set_select true.
Definition set_difference := set_select false.

Fixpoint subset_from (cnt : nat) (a : set_t) (b : option set_t) (i : Z) : option bool :=
  match cnt with
  | O => Some true
  | S cnt =>
      e ← slot a i;
      c ← set_contains b (Outside e);
      if negb c then Some false else subset_from cnt a b (i + 1)
  end.

Definition set_is_subset (a b : option set_t) : option bool :=
  match a, b with
  | Some sa, Some sb =>
      if negb (v_element_size (base sa) =? v_element_size (base sb)) || negb (bool_decide (comparator sa = comparator sb)) then Some false
      else subset_from (Z.to_nat (v_size (base sa))) sa b 0
  | _, _ => Some false
  end.

Definition set_is_equal (a b : option set_t) : option bool :=
  match a, b with
  | Some sa, Some sb =>
      if negb (v_size (base sa) =? v_size (base sb)) then Some false
      else x ← set_is_subset a b; if x : bool then set_is_subset b a else Some false
  | _, _ => Some false
  end.

End Sets.

(** ** Calls, and what they mean for the elements *)

Inductive sop :=
| SInsert (mem : nat -> bool) (src : source)
| SRemove (src : source)
| SRemoveAt (index : Z)
| STake (src out : source)
| STakeAt (index : Z) (out : source)
| SContains (src : source)
| SClear
| SReserve (mem : nat -> bool) (new_capacity : Z)
| SPrune (mem : nat -> bool)
| SSetDestructor (d : option nat)
| SGet (index : Z)
| SSize.

Section Spec.
Variable cmp : nat -> elem -> elem -> Z.

Definition set_step (s : set_t) (op : sop) : option (option set_t * vres) :=
  let p := as_ptr (base s) in
  match op with
  | SInsert mem src => '(s, rc) ← set_insert cmp mem (Some s) (p src); Some (s, mkRes rc None [])
  | SRemove src => '(s, ds, rc) ← set_remove cmp (Some s) (p src); Some (s, mkRes rc None ds)
  | SRemoveAt i => '(s, ds, rc) ← set_remove_at (Some s) i; Some (s, mkRes rc None ds)
  | STake src out => '(s, rc, e) ← set_take cmp (Some s) (p src) (p out); Some (s, mkRes rc e [])
  | STakeAt i out => '(s, rc, e) ← set_take_at (Some s) i (p out); Some (s, mkRes rc e [])
  | SContains src => c ← set_contains cmp (Some s) (p src); Some (Some s, mkRes (if c : bool then 1 else 0) None [])
  | SClear => '(s, ds, rc) ← set_clear (Some s); Some (s, mkRes rc None ds)
  | SReserve mem n => let '(s, rc) := set_reserve mem (Some s) n in Some (s, mkRes rc None [])
  | SPrune mem => let '(s, rc) := set_prune mem (Some s) in Some (s, mkRes rc None [])
  | SSetDestructor d => let '(s, rc) := set_set_destructor (Some s) d in Some (s, mkRes rc None [])
  | SGet i => e ← deref (base s) (set_get_const (Some s) i); Some (Some s, mkRes 0 e [])
  | SSize => Some (Some s, mkRes (set_size_of (Some s)) None [])
  end.

(** The first element the rule equates with [e]. *)
Definition index_of (rule : option nat) (e : elem) (l : list elem) : option (nat * elem) :=
  list_find (fun a => set_elements_equal cmp rule a e = true) l.

(** Element [i] out, the last one in its place. *)
Definition swap_out (i : nat) (l : list elem) : list elem :=
  match list.last (drop (S i) l) with
  | None => take i l
  | Some x => take i l ++ x :: removelast (drop (S i) l)
  end.

Definition sspec (rule : option nat) (room : bool) (s : vstate) (op : sop) : vstate * vres :=
  let l := s_elems s in
  let d := s_destructor s in
  let code rc := (s, mkRes rc None []) in
  match op with
  | SInsert _ src =>
      match src_value l src with
      | None => failed s
      | Some e =>
          if owning s && src_inside src then failed s
          else if bool_decide (is_Some (index_of rule e l)) then code 1
          else if room then done_with s (l ++ [e]) None [] else failed s
      end
  | SRemove src =>
      match src_value l src with
      | None => failed s
      | Some e =>
          match index_of rule e l with
          | None => code 1
          | Some (i, a) => done_with s (swap_out i l) None (destroyed_by d [a])
          end
      end
  | SRemoveAt i =>
      match l !! Z.to_nat i with None => failed s | Some a => done_with s (swap_out (Z.to_nat i) l) None (destroyed_by d [a]) end
  | STake src out =>
      match src_value l src, src_value l out with
      | Some e, Some _ =>
          if src_inside out then failed s
          else match index_of rule e l with None => code 1 | Some (i, a) => done_with s (swap_out i l) (Some a) [] end
      | _, _ => failed s
      end
  | STakeAt i out =>
      match src_value l out, l !! Z.to_nat i with
      | Some _, Some a => if src_inside out then failed s else done_with s (swap_out (Z.to_nat i) l) (Some a) []
      | _, _ => failed s
      end
  | SContains src =>
      match src_value l src with
      | None => code 0
      | Some e => code (if bool_decide (is_Some (index_of rule e l)) then 1 else 0)
      end
  | SClear => done_with s [] None (destroyed_by d l)
  | SReserve _ _ | SPrune _ => if room then done_with s l None [] else failed s
  | SSetDestructor d => (mkState l d, mkRes 0 None [])
  | SGet i => done_with s l (l !! Z.to_nat i) []
  | SSize => (s, mkRes (Z.of_nat (length l)) None [])
  end.

Definition s_may_fail (es : Z) (l : list elem) (op : sop) : Prop :=
  match op with
  | SInsert mem _ => mem 0%nat = false \/ SIZE_MAX < 2 * Z.of_nat (length l) * es
  | SReserve mem n => mem 0%nat = false \/ SIZE_MAX < n * es
  | SPrune mem => mem 0%nat = false
  | _ => False
  end.

Definition sop_ok (es : Z) (op : sop) : Prop :=
  match op with
  | SInsert _ src | SRemove src | SContains src => src_ok es src
  | STake src out => src_ok es src /\ src_ok es out
  | STakeAt i out => is_u64 i /\ src_ok es out
  | SRemoveAt i | SGet i => is_u64 i
  | SReserve _ n => is_u64 n
  | _ => True
  end.

(** ** Simulation *)

Lemma slot_spec s l i e : vrep (base s) l -> l !! i = Some e -> slot s (Z.of_nat i) = Some e.
Proof.
  intros Hr Hi. unfold slot. rewrite <- (Nat2Z.id i) in Hi. by destruct (read_elem (base s) l _ e Hr Hi ltac:(lia)) as [-> _].
Qed.

Lemma find_from_spec s p e l1 l2 : vrep (base s) (l1 ++ l2) -> load (base s) p = Some e ->
  find_from cmp (length l2) s p (Z.of_nat (length l1)) =
  Some (match index_of (comparator s) e l2 with Some (i, _) => Z.of_nat (length l1 + i) | None => SET_NPOS end).
Proof.
  revert l1. induction l2 as [|a l2 IH]; intros l1 Hr Hl; [done|]. cbn [find_from length].
  rewrite (slot_spec s (l1 ++ a :: l2) _ a Hr) by (by apply list_lookup_middle). cbn [mbind option_bind]. rewrite Hl. cbn [mbind option_bind].
  unfold index_of. cbn [list_find]. destruct (set_elements_equal cmp (comparator s) a e) eqn:E.
  - rewrite decide_True by done. do 2 f_equal. lia.
  - rewrite decide_False by congruence. specialize (IH (l1 ++ [a])). rewrite <- app_assoc in IH. cbn in IH. rewrite length_app in IH. cbn in IH.
    replace (Z.of_nat (length l1) + 1) with (Z.of_nat (length l1 + 1)) by lia. rewrite IH by done. unfold index_of.
    destruct (list_find _ l2) as [[i x]|]; cbn; [|done]. do 2 f_equal. lia.
Qed.

Lemma set_find_spec s p e l : vrep (base s) l -> is_null p = false -> load (base s) p = Some e ->
  set_find cmp (Some s) p = Some (match index_of (comparator s) e l with Some (i, _) => Z.of_nat i | None => SET_NPOS end).
Proof.
  intros Hr Hn Hl. unfold set_find. rewrite Hn. rewrite <- (proj1 (proj2 (proj2 Hr))), Nat2Z.id. apply (find_from_spec s p e [] l Hr Hl).
Qed.

(** An index found is never the marker for nothing. *)
Lemma index_not_npos v l i : vrep v l -> (i < length l)%nat -> (Z.of_nat i =? SET_NPOS) = false.
Proof.
  intros (Hw & _ & Hl & _) Hi. apply Z.eqb_neq. pose proof (vw_size v Hw). pose proof (vw_bytes v Hw). pose proof (vw_es v Hw). unfold SET_NPOS. nia.
Qed.

Lemma index_of_lookup rule e l i a : index_of rule e l = Some (i, a) -> l !! i = Some a /\ set_elements_equal cmp rule a e = true.
Proof. intros Hf. apply list_find_Some in Hf as (Hi & He & _). done. Qed.

Lemma found_npos s l e : vrep (base s) l ->
  (match index_of (comparator s) e l with Some (i, _) => Z.of_nat i | None => SET_NPOS end =? SET_NPOS) =
  negb (bool_decide (is_Some (index_of (comparator s) e l))).
Proof.
  intros Hr. destruct (index_of (comparator s) e l) as [[i a]|] eqn:E; [|by rewrite Z.eqb_refl].
  apply index_of_lookup in E as [Hi _]. apply lookup_lt_Some in Hi. rewrite (index_not_npos _ l) by done. done.
Qed.

End Spec.

Section Simulation.
Variable cmp : nat -> elem -> elem -> Z.

Lemma swap_out_middle l1 e l2 : swap_out (length l1) (l1 ++ e :: l2) =
  match list.last l2 with None => l1 | Some x => l1 ++ x :: removelast l2 end.
Proof.
  unfold swap_out. rewrite take_app_length. replace (drop (S (length l1)) (l1 ++ e :: l2)) with l2; [done|].
  rewrite drop_app_ge by lia. by replace (S (length l1) - length l1)%nat with 1%nat by lia.
Qed.

Lemma fill_hole_spec s l i e : vrep (base s) l -> l !! i = Some e ->
  exists s', fill_hole s (Z.of_nat i) = Some s' /\ vrep (base s') (swap_out i l) /\ comparator s' = comparator s /\
    v_element_size (base s') = v_element_size (base s) /\ v_destructor (base s') = v_destructor (base s).
Proof.
  intros Hr Hi. destruct (rep_lookup _ l i e Hr Hi) as (l1 & l2 & -> & <-). rewrite swap_out_middle.
  pose proof Hr as (Hw & _ & Hl & _). rewrite length_app in Hl. cbn in Hl. pose proof (vw_size _ Hw).
  unfold fill_hole. cbv zeta. rewrite !(pred_u64 (base s)) by (done || lia).
  destruct l2 as [|x l3 _] using rev_ind.
  - cbn in Hl |- *. rewrite (proj2 (Z.eqb_eq _ _)) by lia. cbn. eexists; split; [reflexivity|]. split; [|done]. cbn.
    assert (E : set_data (base s) (v_data (base s)) = base s) by (by destruct (base s)). rewrite E. by eapply drop_last_elem.
  - rewrite last_snoc, removelast_last. rewrite length_app in Hl. cbn in Hl. rewrite (proj2 (Z.eqb_neq _ _)) by lia. cbn [negb].
    unfold memmove. destruct (read_elem (base s) (l1 ++ e :: l3 ++ [x]) (v_size (base s) - 1) x Hr) as [-> _]; [|lia|].
    { rewrite app_comm_cons, app_assoc. apply list_lookup_middle. rewrite length_app. cbn. lia. }
    cbn [mbind option_bind]. assert (Hx : sized (v_element_size (base s)) x).
    { destruct Hr as (_ & Hf & _). rewrite app_comm_cons, app_assoc in Hf. apply Forall_app in Hf as [_ Hf]. by apply Forall_cons_iff in Hf as [? _]. }
    destruct (overwrite_elem (base s) l1 e (l3 ++ [x]) x Hr Hx) as (data & -> & Hr2). cbn. eexists; split; [reflexivity|].
    split; [|done]. cbn. rewrite app_comm_cons, app_assoc in Hr2. by apply drop_last_elem in Hr2.
Qed.

Definition sabs (s : set_t) (st : vstate) : Prop := vabs (base s) st.

Definition ssim (s : set_t) (st : vstate) (op : sop) : Prop :=
  exists s' room, let r := sspec cmp (comparator s) room st op in
    set_step cmp s op = Some (Some s', snd r) /\ sabs s' (fst r) /\ comparator s' = comparator s /\
    v_element_size (base s') = v_element_size (base s) /\ (room = false -> s_may_fail (v_element_size (base s)) (s_elems st) op).

Lemma ssim_same s st op r : sabs s st -> set_step cmp s op = Some (Some s, r) -> sspec cmp (comparator s) true st op = (st, r) -> ssim s st op.
Proof. intros Hv Hs He. exists s, true. cbv zeta. rewrite He. by split_and!. Qed.

Lemma ssim_insert s st mem src : sabs s st -> src_ok (v_element_size (base s)) src -> ssim s st (SInsert mem src).
Proof.
  intros Hv Hok. pose proof Hv as [Hr Hd]. pose proof (as_ptr_spec (base s) _ src Hr Hok) as Hp.
  assert (Hown := owning_spec (base s) st Hv). destruct (src_value (s_elems st) src) as [e|] eqn:Ee.
  2:{ eapply ssim_same; [done| |by cbn; rewrite Ee]. cbn. by rewrite Hp. }
  destruct Hp as (Hn & Hl & He & Ha). destruct (owning st && src_inside src) eqn:Eo.
  { eapply ssim_same; [done| |by cbn; rewrite Ee, Eo]. cbn [set_step set_insert]. rewrite Hn, Hown. unfold set_is_aliased.
    cbn [fmap option_fmap option_map]. by rewrite Ha, Eo. }
  assert (Hstep : set_step cmp s (SInsert mem src) = ('(s', rc) ← (if bool_decide (is_Some (index_of cmp (comparator s) e (s_elems st)))
      then Some (Some s, 1) else
      match make_room mem (base s) with
      | None => Some (Some s, -1)
      | Some v => bs ← load v (as_ptr (base s) src); data ← write_bytes (v_data v) (v_size v *u64 v_element_size v) bs;
                  Some (Some (mkSet (set_size (set_data v data) (v_size v +u64 1)) (comparator s)), 0)
      end); Some (s', mkRes rc None []))).
  { cbn [set_step set_insert]. rewrite Hn, Hown. unfold set_is_aliased. cbn [fmap option_fmap option_map].
    rewrite Ha, Eo, (set_find_spec cmp s _ e _ Hr Hn Hl). cbn [mbind option_bind]. by rewrite (found_npos cmp s _ e Hr), negb_involutive. }
  unfold ssim. cbv zeta. rewrite Hstep. cbn [sspec s_may_fail]. rewrite Ee, Eo.
  destruct (bool_decide (is_Some (index_of cmp (comparator s) e (s_elems st)))); [exists s, true; by split_and!|].
  pose proof (make_room_spec mem _ _ Hr) as Hm. destruct (make_room mem (base s)) as [v1|] eqn:Em.
  - destruct Hm as (Hr1 & Hlt & Hes & Hd1). destruct (append_elem v1 _ e Hr1 Hlt) as (data & Ew & Hr2); [by rewrite Hes|].
    rewrite (load_after_room mem _ v1 _ src e Hr Hok Em Ee). cbn [mbind option_bind]. rewrite Ew.
    eexists _, true. split; [reflexivity|]. split; [split; [exact Hr2|cbn; congruence]|done].
  - exists s, false. by split_and!.
Qed.

(** Removing by index, with or without the destructor. *)
Lemma remove_at_spec s st i a : sabs s st -> s_elems st !! i = Some a ->
  exists s', set_remove_at (Some s) (Z.of_nat i) = Some (Some s', destroyed_by (s_destructor st) [a], 0) /\
    sabs s' (mkState (swap_out i (s_elems st)) (s_destructor st)) /\ comparator s' = comparator s /\
    v_element_size (base s') = v_element_size (base s).
Proof.
  intros [Hr Hd] Hi. destruct (fill_hole_spec s _ i a Hr Hi) as (s' & E & Hr' & Hc & He & Hd').
  exists s'. unfold set_remove_at. rewrite <- (Nat2Z.id i) in Hi. destruct (read_elem (base s) _ _ a Hr Hi ltac:(lia)) as [_ Hlt].
  destruct (Z.leb_spec (v_size (base s)) (Z.of_nat i)); [lia|]. rewrite (destroy_at_spec (base s) _ _ a Hr Hi) by lia.
  cbn [mbind option_bind]. rewrite E, Hd. split; [done|]. split; [split; [done|cbn; congruence]|done].
Qed.

Lemma ssim_remove_at s st i : sabs s st -> is_u64 i -> ssim s st (SRemoveAt i).
Proof.
  intros Hv Hi. unfold is_u64 in Hi. destruct (s_elems st !! Z.to_nat i) as [a|] eqn:E.
  - destruct (remove_at_spec s st _ a Hv E) as (s' & Er & Hv' & Hc & He). rewrite Z2Nat.id in Er by lia.
    exists s', true. cbv zeta. cbn -[set_remove_at]. rewrite E, Er. by split_and!.
  - eapply ssim_same; [done| |by cbn; rewrite E]. cbn. apply (index_out (base s) _ i (proj1 Hv)) in E; [|lia]. by rewrite (proj2 (Z.leb_le _ _) E).
Qed.

Lemma ssim_remove s st src : sabs s st -> src_ok (v_element_size (base s)) src -> ssim s st (SRemove src).
Proof.
  intros Hv Hok. pose proof Hv as [Hr Hd]. pose proof (as_ptr_spec (base s) _ src Hr Hok) as Hp.
  destruct (src_value (s_elems st) src) as [e|] eqn:Ee.
  2:{ eapply ssim_same; [done| |by cbn; rewrite Ee]. cbn. by rewrite Hp. }
  destruct Hp as (Hn & Hl & He & Ha). unfold ssim. cbv zeta. cbn [set_step set_remove sspec s_may_fail]. rewrite Ee, Hn.
  rewrite (set_find_spec cmp s _ e _ Hr Hn Hl). cbn [mbind option_bind].
  destruct (index_of cmp (comparator s) e (s_elems st)) as [[i a]|] eqn:Ei.
  - apply index_of_lookup in Ei as [Hi _]. rewrite (index_not_npos _ _ i Hr) by (by eapply lookup_lt_Some).
    destruct (remove_at_spec s st i a Hv Hi) as (s' & Er & Hv' & Hc & Hes). rewrite Er. exists s', true. by split_and!.
  - rewrite Z.eqb_refl. exists s, true. by split_and!.
Qed.

Lemma set_take_at_spec s st i a out : sabs s st -> s_elems st !! i = Some a -> is_null out = false -> set_is_aliased (Some s) out = false ->
  exists s', set_take_at (Some s) (Z.of_nat i) out = Some (Some s', 0, Some a) /\
    sabs s' (mkState (swap_out i (s_elems st)) (s_destructor st)) /\ comparator s' = comparator s /\
    v_element_size (base s') = v_element_size (base s).
Proof.
  intros [Hr Hd] Hi Hn Ha. destruct (fill_hole_spec s _ i a Hr Hi) as (s' & E & Hr' & Hc & He & Hd').
  exists s'. unfold set_take_at. rewrite (slot_spec s _ i a Hr Hi). rewrite <- (Nat2Z.id i) in Hi.
  destruct (read_elem (base s) _ _ a Hr Hi ltac:(lia)) as [_ Hlt]. destruct (Z.leb_spec (v_size (base s)) (Z.of_nat i)); [lia|].
  rewrite Hn, Ha. cbn. rewrite E. split; [done|]. split; [split; [done|cbn; congruence]|done].
Qed.

Lemma ssim_take_at s st i out : sabs s st -> is_u64 i -> src_ok (v_element_size (base s)) out -> ssim s st (STakeAt i out).
Proof.
  intros Hv Hi Hok. pose proof Hv as [Hr Hd]. pose proof (as_ptr_spec (base s) _ out Hr Hok) as Hp. unfold is_u64 in Hi.
  unfold ssim. cbv zeta. cbn [set_step sspec s_may_fail]. destruct (s_elems st !! Z.to_nat i) as [a|] eqn:E.
  - destruct (src_value (s_elems st) out) as [o|] eqn:Eo.
    + destruct Hp as (Hn & _ & _ & Ha). destruct (src_inside out) eqn:Es.
      * exists s, true. cbn. rewrite Hn, orb_false_r. destruct (read_elem (base s) _ _ a Hr E ltac:(lia)) as [_ Hlt].
        rewrite (proj2 (Z.leb_gt _ _) Hlt). unfold set_is_aliased. cbn in Ha |- *. rewrite Ha. by split_and!.
      * destruct (set_take_at_spec s st _ a (as_ptr (base s) out) Hv E Hn Ha) as (s' & Er & Hv' & Hc & He). rewrite Z2Nat.id in Er by lia.
        exists s', true. rewrite Er. by split_and!.
    + exists s, true. rewrite Hp. cbn. rewrite orb_true_r. by split_and!.
  - exists s, true. apply (index_out (base s) _ i Hr) in E; [|lia]. cbn. rewrite (proj2 (Z.leb_le _ _) E). cbn.
    by destruct (src_value (s_elems st) out); split_and!.
Qed.

Lemma ssim_take s st src out : sabs s st -> src_ok (v_element_size (base s)) src -> src_ok (v_element_size (base s)) out -> ssim s st (STake src out).
Proof.
  intros Hv Hok Hok'. pose proof Hv as [Hr Hd]. pose proof (as_ptr_spec (base s) _ src Hr Hok) as Hp. pose proof (as_ptr_spec (base s) _ out Hr Hok') as Hp'.
  unfold ssim. cbv zeta. cbn [set_step set_take sspec s_may_fail]. destruct (src_value (s_elems st) src) as [e|] eqn:Ee.
  2:{ exists s, true. rewrite Hp. by split_and!. }
  destruct Hp as (Hn & Hl & _ & _). rewrite Hn. destruct (src_value (s_elems st) out) as [o|] eqn:Eo; [|exists s, true; rewrite Hp'; by split_and!].
  destruct Hp' as (Hn' & _ & _ & Ha). rewrite Hn'. cbn [orb]. unfold set_is_aliased at 1. cbn [fmap option_fmap option_map]. rewrite Ha.
  destruct (src_inside out) eqn:Es; [exists s, true; by split_and!|]. rewrite (set_find_spec cmp s _ e _ Hr Hn Hl). cbn [mbind option_bind].
  destruct (index_of cmp (comparator s) e (s_elems st)) as [[i a]|] eqn:Ei.
  - apply index_of_lookup in Ei as [Hi _]. rewrite (index_not_npos _ _ i Hr) by (by eapply lookup_lt_Some).
    destruct (set_take_at_spec s st i a (as_ptr (base s) out) Hv Hi Hn' Ha) as (s' & Er & Hv' & Hc & Hes). rewrite Er. exists s', true. by split_and!.
  - rewrite Z.eqb_refl. exists s, true. by split_and!.
Qed.

Lemma ssim_contains s st src : sabs s st -> src_ok (v_element_size (base s)) src -> ssim s st (SContains src).
Proof.
  intros Hv Hok. pose proof Hv as [Hr Hd]. pose proof (as_ptr_spec (base s) _ src Hr Hok) as Hp.
  unfold ssim. cbv zeta. cbn [set_step set_contains sspec s_may_fail]. unfold set_contains.
  destruct (src_value (s_elems st) src) as [e|] eqn:Ee.
  - destruct Hp as (Hn & Hl & _). rewrite (set_find_spec cmp s _ e _ Hr Hn Hl). cbn [mbind option_bind].
    rewrite (found_npos cmp s _ e Hr), negb_involutive. exists s, true. by split_and!.
  - exists s, true. rewrite Hp. by split_and!.
Qed.

(** A call that only manages the buffer is the vector's. *)
Lemma ssim_base s st op vo : sabs s st -> sim (base s) st vo ->
  (forall v r, vec_step (base s) vo = Some (Some v, r) -> set_step cmp s op = Some (Some (mkSet v (comparator s)), r)) ->
  (forall room, vspec room st vo = sspec cmp (comparator s) room st op) ->
  (may_fail (v_element_size (base s)) (s_elems st) vo -> s_may_fail (v_element_size (base s)) (s_elems st) op) -> ssim s st op.
Proof.
  intros Hv (v' & room & E & Hv' & He & Hf) Hstep Hspec Hm. exists (mkSet v' (comparator s)), room. cbv zeta. rewrite <- Hspec.
  split; [by apply Hstep|]. split; [done|]. split; [done|]. split; [done|]. intros Hroom. by apply Hm, Hf.
Qed.

Lemma set_step_refines s st op : sabs s st -> sop_ok (v_element_size (base s)) op -> ssim s st op.
Proof.
  intros Hv Hok. destruct op as [mem src|src|i|src out|i out|src| |mem n|mem|d|i|]; cbn in Hok; try match type of Hok with _ /\ _ => destruct Hok end;
    eauto using ssim_insert, ssim_remove, ssim_remove_at, ssim_take, ssim_take_at, ssim_contains.
  - apply (ssim_base s st SClear VClear); [done|by apply sim_clear| |done|done]. intros v r. cbn.
    destruct (destroy_from _ (base s) 0); cbn; [|done]. by intros [= <- <-].
  - apply (ssim_base s st (SReserve mem n) (VReserve mem n)); [done|by apply sim_reserve| |done|done]. intros v r. cbn -[vector_reserve].
    destruct (vector_reserve mem (Some (base s)) n) as [o rc]. by intros [= -> <-].
  - apply (ssim_base s st (SPrune mem) (VPrune mem)); [done|by apply sim_prune| |done|done]. intros v r. cbn -[vector_prune].
    destruct (vector_prune mem (Some (base s))) as [o rc]. by intros [= -> <-].
  - apply (ssim_base s st (SSetDestructor d) (VSetDestructor d)); [done|by apply vec_step_refines| |done|done]. intros v r. cbn. by intros [= <- <-].
  - apply (ssim_base s st (SGet i) (VGet i)); [done|by apply sim_get| |done|done]. intros v r. unfold set_step, set_get_const. cbn -[deref vector_get].
    destruct (deref (base s) (vector_get (Some (base s)) i)); cbn; [|done]. intros [= <- <-]. by destruct s.
  - apply (ssim_base s st SSize VSize); [done|by apply vec_step_refines| |done|done]. intros v r. cbn. intros [= <- <-]. by destruct s.
Qed.

End Simulation.
