(* ===== verification/DSetTheorems.v ===== *)
(** * Sets of [set.h] are sets

    Under a comparator that is an equivalence, the elements of a set are pairwise unequal, every call means
    the operation of its name, [set_dedupe] restores uniqueness after a change of comparator, and the set
    algebra computes unions, intersections, differences, inclusion and equality. *)
From Stdlib Require Import SetoidList SetoidPermutation.
From S2P Require Import Prelude Vector DSet.

Section Meaning.
Variable cmp : nat -> elem -> elem -> Z.
Variable rule : option nat.

(** Equal under the set's rule, and membership up to it. *)
Definition same (a b : elem) : Prop := set_elements_equal cmp rule a b = true.
Definition member (e : elem) (l : list elem) : Prop := InA same e l.
Definition unique (l : list elem) : Prop := NoDupA same l.

Context {Hequiv : Equivalence same}.

Lemma same_sym a b : same a b <-> same b a.
Proof. split; intros; by symmetry. Qed.

Lemma member_alt e l : member e l <-> exists a, a ∈ l /\ same a e.
Proof.
  unfold member. rewrite InA_alt. split.
  - intros (a & Hs & Ha). exists a. split; [by apply list_elem_of_In|by symmetry].
  - intros (a & Ha & Hs). exists a. split; [by symmetry|by apply list_elem_of_In].
Qed.

Lemma member_perm e l k : l ≡ₚ k -> member e l <-> member e k.
Proof. intros Hp. rewrite !member_alt. by setoid_rewrite Hp. Qed.

Lemma unique_perm l k : l ≡ₚ k -> unique l -> unique k.
Proof. intros Hp Hl. eapply PermutationA_preserves_NoDupA; [apply _|by apply Permutation_PermutationA|done]. Qed.

Lemma index_of_member e l : is_Some (index_of cmp rule e l) <-> member e l.
Proof.
  rewrite member_alt. unfold index_of. split.
  - intros [[i a] (Hi & He & _)%list_find_Some]. exists a. split; [by eapply list_elem_of_lookup_2|done].
  - intros (a & Ha & Hs). by eapply list_find_elem_of.
Qed.

Lemma swap_out_perm i l a : l !! i = Some a -> l ≡ₚ a :: swap_out i l.
Proof.
  intros Hi. rewrite <- (take_drop_middle l i a Hi) at 1. unfold swap_out. set (t := drop (S i) l).
  destruct (list.last t) as [x|] eqn:El.
  - rewrite (last_perm t x El) at 1. solve_Permutation.
  - apply last_None in El. rewrite El. solve_Permutation.
Qed.

(** Without one of its elements, a set has no member equal to it. *)
Lemma member_without a l l' z : unique l -> l ≡ₚ a :: l' -> member z l' <-> member z l /\ ~ same z a.
Proof.
  intros Hu Hp. rewrite (member_perm z l (a :: l') Hp). apply (unique_perm _ _ Hp) in Hu. inversion_clear Hu as [|? ? Hn Hu']. unfold member. rewrite InA_cons. split.
  - intros Hz. split; [by right|]. intros Hs. apply Hn. by eapply InA_eqA.
  - intros [[Hs|Hz] Hns]; done.
Qed.

Lemma unique_without a l l' : unique l -> l ≡ₚ a :: l' -> unique l'.
Proof. intros Hu Hp. apply (unique_perm _ _ Hp) in Hu. by inversion_clear Hu. Qed.

Lemma member_snoc z l e : member z (l ++ [e]) <-> member z l \/ same z e.
Proof. unfold member. rewrite InA_app_iff, InA_singleton. done. Qed.

Lemma unique_snoc l e : unique l -> ~ member e l -> unique (l ++ [e]).
Proof.
  intros Hu Hn. eapply unique_perm; [apply Permutation_cons_append|]. by constructor.
Qed.

(** What a call on a set means. *)
Definition meaning (l : list elem) (op : sop) (r : vres) (l' : list elem) : Prop :=
  match op with
  | SInsert _ src =>
      match src_value l src with
      | None => r_code r = -1 /\ l' = l
      | Some e =>
          (r_code r = 0 /\ ~ member e l /\ (forall z, member z l' <-> member z l \/ same z e)) \/
          (r_code r = 1 /\ member e l /\ l' = l) \/ (r_code r = -1 /\ l' = l)
      end
  | SRemove src =>
      match src_value l src with
      | None => r_code r = -1 /\ l' = l
      | Some e => (r_code r = 0 /\ member e l /\ (forall z, member z l' <-> member z l /\ ~ same z e)) \/ (r_code r = 1 /\ ~ member e l /\ l' = l)
      end
  | STake src _ =>
      (r_code r = -1 /\ l' = l) \/
      exists e, src_value l src = Some e /\
        ((r_code r = 1 /\ ~ member e l /\ l' = l) \/
         (r_code r = 0 /\ (exists a, r_out r = Some a /\ a ∈ l /\ same a e) /\ (forall z, member z l' <-> member z l /\ ~ same z e)))
  | SRemoveAt i | STakeAt i _ =>
      (r_code r = -1 /\ l' = l) \/ exists a, l !! Z.to_nat i = Some a /\ r_code r = 0 /\ (forall z, member z l' <-> member z l /\ ~ same z a)
  | SContains src => l' = l /\ match src_value l src with None => r_code r = 0 | Some e => r_code r = 1 <-> member e l end
  | SClear => l' = []
  | _ => l' = l
  end.

Lemma removed_meaning l i a e : unique l -> l !! i = Some a -> same a e ->
  unique (swap_out i l) /\ (forall z, member z (swap_out i l) <-> member z l /\ ~ same z e).
Proof.
  intros Hu Hi Hs. pose proof (swap_out_perm i l a Hi) as Hp. split; [by eapply unique_without|].
  intros z. rewrite (member_without a l _ z Hu Hp). split; intros [Hz Hn]; (split; [done|]); intros Hse; apply Hn.
  - etrans; [exact Hse|by symmetry].
  - by etrans.
Qed.

#[local] Arguments index_of : simpl never.

(** Every call keeps the elements unique and means what it says. *)
Lemma sspec_meaning room st op : unique (s_elems st) ->
  let r := sspec cmp rule room st op in unique (s_elems (fst r)) /\ meaning (s_elems st) op (snd r) (s_elems (fst r)).
Proof.
  intros Hu. destruct st as [l d]. cbn in Hu.
  destruct op as [mem src|src|i|src out|i out|src| |mem n|mem|d'|i|]; cbn; try done.
  - destruct (src_value l src) as [e|]; cbn; [|done]. destruct (owning _ && src_inside src); cbn; [split; [done|]; by right; right|].
    destruct (bool_decide_reflect (is_Some (index_of cmp rule e l))) as [Hf|Hf]; rewrite index_of_member in Hf; cbn.
    + split; [done|]. right. by left.
    + destruct room; cbn; [|split; [done|]; by right; right]. split; [by apply unique_snoc|]. left. split; [done|]. split; [done|]. intros z. apply member_snoc.
  - destruct (src_value l src) as [e|]; cbn; [|done]. destruct (index_of cmp rule e l) as [[i a]|] eqn:Ei; cbn.
    + assert (Hm : member e l) by (apply index_of_member; by eexists). apply index_of_lookup in Ei as [Hi Hs].
      destruct (removed_meaning l i a e Hu Hi Hs). split; [done|]. by left.
    + split; [done|]. right. split; [done|]. split; [|done]. rewrite <- index_of_member, Ei. by intros [? [=]].
  - destruct (l !! Z.to_nat i) as [a|] eqn:Ei; cbn; [|split; [done|]; by left].
    destruct (removed_meaning l _ a a Hu Ei ltac:(done)). split; [done|]. right. by exists a.
  - destruct (src_value l src) as [e|]; cbn; [|split; [done|]; by left]. destruct (src_value l out); cbn; [|split; [done|]; by left].
    destruct (src_inside out); cbn; [split; [done|]; by left|]. destruct (index_of cmp rule e l) as [[i a]|] eqn:Ei; cbn.
    + apply index_of_lookup in Ei as [Hi Hs]. destruct (removed_meaning l i a e Hu Hi Hs). split; [done|]. right. exists e. split; [done|]. right.
      split; [done|]. split; [|done]. exists a. split; [done|]. split; [by eapply list_elem_of_lookup_2|done].
    + split; [done|]. right. exists e. split; [done|]. left. split; [done|]. split; [|done]. rewrite <- index_of_member, Ei. by intros [? [=]].
  - destruct (src_value l out); cbn; [|split; [done|]; by left]. destruct (l !! Z.to_nat i) as [a|] eqn:Ei; cbn; [|split; [done|]; by left].
    destruct (src_inside out); cbn; [split; [done|]; by left|]. destruct (removed_meaning l _ a a Hu Ei ltac:(done)). split; [done|]. right. by exists a.
  - destruct (src_value l src) as [e|]; cbn; [|done]. split; [done|]. split; [done|]. rewrite <- index_of_member.
    destruct (bool_decide_reflect (is_Some (index_of cmp rule e l))); cbn; split; done.
  - split; [constructor|done].
  - by destruct room.
  - by destruct room.
Qed.

Fixpoint set_run (s : set_t) (ops : list sop) : option (option set_t * list vres) :=
  match ops with
  | [] => Some (Some s, [])
  | op :: ops =>
      '(s, r) ← set_step cmp s op;
      match s with
      | None => None
      | Some s => '(s, rs) ← set_run s ops; Some (s, r :: rs)
      end
  end.

Lemma set_run_unique ops s st : sabs s st -> comparator s = rule -> unique (s_elems st) -> Forall (sop_ok (v_element_size (base s))) ops ->
  exists s' st' rs, set_run s ops = Some (Some s', rs) /\ sabs s' st' /\ comparator s' = rule /\ unique (s_elems st') /\
    v_element_size (base s') = v_element_size (base s) /\ length rs = length ops.
Proof.
  revert s st. induction ops as [|op ops IH]; intros s st Hv Hc Hu Hok; [by exists s, st, []|].
  apply Forall_cons_iff in Hok as [Ho Hok]. destruct (set_step_refines cmp s st op Hv Ho) as (s1 & room & E & Hv1 & Hc1 & He & _).
  rewrite Hc in E, Hv1. rewrite <- He in Hok.
  destruct (IH s1 _ Hv1 ltac:(congruence) (proj1 (sspec_meaning room st op Hu)) Hok) as (s' & st' & rs & E' & Hv' & Hc' & Hu' & He' & Hl).
  exists s', st'. eexists. cbn [set_run]. rewrite E. cbn [mbind option_bind]. rewrite E'. split; [reflexivity|].
  split; [done|]. split; [done|]. split; [done|]. split; [congruence|cbn; by rewrite Hl].
Qed.

(** ** Removing duplicates *)

Lemma same_dec a b : set_elements_equal cmp rule a b = false <-> ~ same a b.
Proof. unfold same. destruct (set_elements_equal cmp rule a b); split; congruence || done. Qed.

Lemma swap_out_at l1 c l2 : exists l2', swap_out (length l1) (l1 ++ c :: l2) = l1 ++ l2' /\ l2' ≡ₚ l2 /\ length l2' = length l2.
Proof.
  rewrite swap_out_middle. destruct (list.last l2) as [x|] eqn:El.
  - pose proof (last_perm l2 x El) as Hp. exists (x :: removelast l2). split; [done|]. split; [by symmetry|]. by apply Permutation_length.
  - apply last_None in El as ->. exists []. by rewrite app_nil_r.
Qed.

(** The inner loop leaves nothing equal to the kept element after it. *)
Lemma dedupe_inner_spec fuel s st l1 a l2 l3 :
  sabs s st -> comparator s = rule -> s_elems st = l1 ++ a :: l2 ++ l3 -> Forall (fun x => ~ same a x) l2 -> (length l3 <= fuel)%nat ->
  exists s' l2' removed, dedupe_inner cmp fuel s (Z.of_nat (length l1)) (Z.of_nat (length l1 + 1 + length l2)) =
      Some (s', destroyed_by (s_destructor st) removed) /\
    sabs s' (mkState (l1 ++ a :: l2') (s_destructor st)) /\ comparator s' = rule /\ Forall (fun x => ~ same a x) l2' /\
    Forall (same a) removed /\ l2' ++ removed ≡ₚ l2 ++ l3.
Proof.
  revert s st l2 l3. induction fuel as [|fuel IH]; intros s st l2 l3 Hv Hc El Hl2 Hf; pose proof Hv as [Hr Hd];
    pose proof (proj1 (proj2 (proj2 Hr))) as Hlen; rewrite El, length_app in Hlen; cbn [length] in Hlen; rewrite length_app in Hlen.
  all: destruct l3 as [|c l3]; [exists s, l2, []; rewrite app_nil_r in El |- *; unfold sabs; rewrite <- El; cbn [dedupe_inner];
    rewrite (proj2 (Z.leb_le _ _)) by (cbn in Hlen; lia); split; [by destruct (s_destructor st)|]; split; [by destruct st|]; by split_and!|cbn [length] in Hf, Hlen; try lia].
  cbn [dedupe_inner]. rewrite (proj2 (Z.leb_gt _ _)) by lia.
  assert (Hj : s_elems st !! (length l1 + 1 + length l2)%nat = Some c).
  { rewrite El. replace (l1 ++ a :: l2 ++ c :: l3) with ((l1 ++ a :: l2) ++ c :: l3) by (by rewrite <- app_assoc). apply list_lookup_middle. rewrite length_app. cbn. lia. }
  rewrite (slot_spec s _ (length l1) a Hr) by (rewrite El; by apply list_lookup_middle). cbn [mbind option_bind].
  rewrite (slot_spec s _ _ c Hr Hj). cbn [mbind option_bind]. rewrite Hc. destruct (set_elements_equal cmp rule a c) eqn:Es.
  - destruct (remove_at_spec s st _ c Hv Hj) as (s1 & -> & Hv1 & Hc1 & _). cbn [mbind option_bind].
    destruct (swap_out_at (l1 ++ a :: l2) c l3) as (l3' & Esw & Hp & Hl3).
    assert (E1 : swap_out (length l1 + 1 + length l2) (s_elems st) = l1 ++ a :: l2 ++ l3').
    { rewrite El. replace (l1 ++ a :: l2 ++ c :: l3) with ((l1 ++ a :: l2) ++ c :: l3) by (by rewrite <- app_assoc).
      replace (length l1 + 1 + length l2)%nat with (length (l1 ++ a :: l2)) by (rewrite length_app; cbn; lia). rewrite Esw. by rewrite <- app_assoc. }
    rewrite E1 in Hv1. destruct (IH s1 _ l2 l3' Hv1 ltac:(congruence) eq_refl Hl2 ltac:(lia)) as (s' & l2' & removed & -> & Hv' & Hc' & H1 & H2 & H3).
    cbn [mbind option_bind s_destructor]. exists s', l2', (c :: removed). split; [by destruct (s_destructor st)|]. split; [done|]. split; [done|]. split; [done|].
    split; [by constructor|]. rewrite <- Hp. rewrite <- Permutation_middle, H3. by rewrite Permutation_middle.
  - replace (Z.of_nat (length l1 + 1 + length l2) + 1) with (Z.of_nat (length l1 + 1 + length (l2 ++ [c]))) by (rewrite length_app; cbn; lia).
    destruct (IH s st (l2 ++ [c]) l3 Hv Hc) as (s' & l2' & removed & -> & Hv' & Hc' & H1 & H2 & H3).
    + by rewrite El, <- app_assoc.
    + apply Forall_app. split; [done|]. constructor; [|done]. by apply same_dec.
    + lia.
    + exists s', l2', removed. split_and!; try done. by rewrite H3, <- app_assoc.
Qed.

(** Elements of [l1] differ from one another and from everything after them. *)
Definition settled (l1 l2 : list elem) : Prop := unique l1 /\ Forall (fun x => Forall (fun y => ~ same x y) l2) l1.

Lemma settled_perm l1 l2 l2' : l2' ⊆ l2 -> settled l1 l2 -> settled l1 l2'.
Proof.
  intros Hs [Hu Hf]. split; [done|]. eapply Forall_impl; [|exact Hf]. cbn. intros x Hx. apply Forall_forall. intros y Hy%list_elem_of_In.
  rewrite Forall_forall in Hx. apply Hx, list_elem_of_In, Hs. done.
Qed.

Lemma settled_member x y l1 l2 : settled l1 l2 -> x ∈ l1 -> y ∈ l2 -> ~ same x y.
Proof.
  intros [_ Hf] Hx Hy. rewrite Forall_forall in Hf. specialize (Hf x (proj1 (list_elem_of_In _ _) Hx)). rewrite Forall_forall in Hf. apply Hf. by apply list_elem_of_In.
Qed.

Lemma settled_unique l1 l2 : settled l1 l2 -> unique l2 -> unique (l1 ++ l2).
Proof.
  intros Hs Hu. unfold unique. apply NoDupA_app; [apply _|apply Hs|done|]. intros x H1 H2. apply member_alt in H1 as (a & Ha & Sa), H2 as (b & Hb & Sb).
  apply (settled_member a b l1 l2 Hs Ha Hb). etrans; [exact Sa|by symmetry].
Qed.

Lemma settled_next l1 a l2 : settled l1 (a :: l2) -> Forall (fun x => ~ same a x) l2 -> settled (l1 ++ [a]) l2.
Proof.
  intros Hs Ha. split.
  - apply unique_snoc; [apply Hs|]. rewrite member_alt. intros (x & Hx & Sx). revert Sx. eapply settled_member; [done|done|]. apply list_elem_of_here.
  - apply Forall_app. split; [|by constructor]. apply (settled_perm l1 (a :: l2) l2); [|done]. intros y Hy. by apply list_elem_of_further.
Qed.

Lemma dedupe_outer_spec fuel s st l1 l2 :
  sabs s st -> comparator s = rule -> s_elems st = l1 ++ l2 -> settled l1 l2 -> (length l2 <= fuel)%nat -> Z.of_nat (length l1) < SIZE_MAX ->
  exists s' l' removed, dedupe_outer cmp fuel s (Z.of_nat (length l1)) = Some (s', destroyed_by (s_destructor st) removed) /\
    sabs s' (mkState l' (s_destructor st)) /\ unique l' /\ l' ++ removed ≡ₚ l1 ++ l2 /\
    Forall (fun x => exists y, y ∈ l' /\ same y x) removed /\ l1 `prefix_of` l'.
Proof.
  revert s st l1 l2. induction fuel as [|fuel IH]; intros s st l1 l2 Hv Hc El Hs Hf Hmax; pose proof Hv as [Hr Hd];
    pose proof (proj1 (proj2 (proj2 Hr))) as Hlen; rewrite El, length_app in Hlen;
    assert (Ei : Z.of_nat (length l1) +u64 1 = Z.of_nat (length l1 + 1)) by (rewrite u64_small; [lia|unfold is_u64, SIZE_MAX, UINT64_MAX in *; lia]).
  all: destruct (decide (length l2 <= 1)%nat) as [Hle|Hgt];
    [exists s, (l1 ++ l2), []; cbn [dedupe_outer]; rewrite Ei, (proj2 (Z.leb_le _ _)) by lia; unfold sabs; rewrite <- El, app_nil_r;
     split; [by destruct (s_destructor st)|]; split; [by destruct st|]; rewrite El; split_and!; [|done|done|by apply prefix_app_r];
     apply settled_unique; [done|]; destruct l2 as [|x [|]]; [constructor|apply NoDupA_singleton|cbn in Hle; lia]|try lia].
  destruct l2 as [|a l2]; [cbn in Hgt; lia|]. cbn [length] in *. cbn [dedupe_outer]. rewrite Ei, (proj2 (Z.leb_gt _ _)) by lia.
  destruct (dedupe_inner_spec (Z.to_nat (v_size (base s))) s st l1 a [] l2 Hv Hc El) as (s1 & l2' & removed & E1 & Hv1 & Hc1 & H1 & H2 & H3); [done|lia|].
  cbn [length] in E1. rewrite Nat.add_0_r in E1. replace (Z.of_nat (length l1) + 1) with (Z.of_nat (length l1 + 1)) by lia. rewrite E1. cbn [mbind option_bind].
  assert (Hs1 : settled (l1 ++ [a]) l2').
  { apply settled_next; [|done]. eapply settled_perm; [|exact Hs]. intros x Hx. apply elem_of_cons in Hx as [->|Hx]; [apply list_elem_of_here|].
    apply list_elem_of_further. cbn in H3. rewrite <- H3. apply elem_of_app. by left. }
  pose proof (Permutation_length H3) as Hpl. rewrite length_app in Hpl. cbn in Hpl.
  destruct (IH s1 (mkState (l1 ++ a :: l2') (s_destructor st)) (l1 ++ [a]) l2' Hv1 Hc1) as (s' & l' & rem' & E2 & Hv' & Hu & Hp & Hrm & Hpre);
    [by rewrite <- app_assoc|done|lia|rewrite length_app; cbn; pose proof (vw_size _ (proj1 Hr)); pose proof (cap_small _ (proj1 Hr)); unfold SIZE_MAX, UINT64_MAX in *; lia|].
  rewrite length_app in E2. cbn [length] in E2. rewrite E2. cbn [mbind option_bind s_destructor].
  exists s', l', (removed ++ rem'). split; [by rewrite destroyed_by_app|]. split; [done|]. split; [done|]. split; [|split].
  - rewrite (Permutation_app_comm removed), app_assoc, Hp, <- !app_assoc. cbn. by rewrite H3.
  - apply Forall_app. split; [|done]. eapply Forall_impl; [|exact H2]. intros x Hx. exists a. split; [|done].
    destruct Hpre as [tail ->]. apply elem_of_app. left. apply elem_of_app. right. apply list_elem_of_here.
  - etrans; [|exact Hpre]. by apply prefix_app_r.
Qed.

(** ** Set algebra *)

(** Inserting a copy of an element from elsewhere. *)
Lemma insert_outside mem s l e : sabs s (mkState l None) -> comparator s = rule -> unique l -> sized (v_element_size (base s)) e ->
  exists s' rc l', set_insert cmp mem (Some s) (Outside e) = Some (Some s', rc) /\ sabs s' (mkState l' None) /\ comparator s' = rule /\
    v_element_size (base s') = v_element_size (base s) /\ unique l' /\ (length l' <= S (length l))%nat /\
    ((rc = -1 /\ (mem 0%nat = false \/ SIZE_MAX < 2 * Z.of_nat (length l) * v_element_size (base s))) \/
     (0 <= rc /\ forall z, member z l' <-> member z l \/ same z e)).
Proof.
  intros Hv Hc Hu He. destruct (ssim_insert cmp s _ mem (EOutside e) Hv He) as (s' & room & E & Hv' & Hc' & Hes & Hf).
  rewrite Hc in E, Hv'. cbn [set_step as_ptr] in E.
  destruct (set_insert cmp mem (Some s) (Outside e)) as [[o rc]|]; cbn [mbind option_bind] in E; [|done]. injection E as -> E.
  cbn in E, Hv'. destruct (bool_decide_reflect (is_Some (index_of cmp rule e l))) as [Hi|Hi]; rewrite index_of_member in Hi.
  - injection E as ->. exists s', 1, l. split_and!; try done; [congruence|lia|]. right. split; [done|]. intros z. split; [by left|].
    intros [Hz|Hz]; [done|]. eapply InA_eqA; [apply _|symmetry; exact Hz|exact Hi].
  - destruct room; injection E as ->.
    + exists s', 0, (l ++ [e]). split_and!; try done; [congruence|by apply unique_snoc|rewrite length_app; cbn; lia|]. right. split; [done|]. intros z. apply member_snoc.
    + exists s', (-1), l. split_and!; try done; [congruence|lia|]. left. split; [done|]. by apply Hf.
Qed.

Lemma insert_all_spec cnt mem want w from l1 l2 s l :
  vrep (base from) (l1 ++ l2) -> length l2 = cnt -> (forall e, e ∈ l2 -> want e = Some (w e)) ->
  sabs s (mkState l None) -> comparator s = rule -> unique l -> v_element_size (base s) = v_element_size (base from) ->
  exists out, insert_all cmp cnt mem want from s (Z.of_nat (length l1)) = Some out /\
    match out with
    | None => (exists k, mem k 0%nat = false) \/ SIZE_MAX < 2 * Z.of_nat (length l + length l2) * v_element_size (base s)
    | Some s' => exists l', sabs s' (mkState l' None) /\ comparator s' = rule /\ unique l' /\ (length l' <= length l + length l2)%nat /\
        v_element_size (base s') = v_element_size (base s) /\
        (forall z, member z l' <-> member z l \/ exists e, e ∈ l2 /\ w e = true /\ same z e)
    end.
Proof.
  revert mem l1 l2 s l. induction cnt as [|cnt IH]; intros mem l1 l2 s l Hr Hl Hw Hv Hc Hu He.
  { destruct l2; [|done]. exists (Some s). split; [done|]. exists l. split_and!; try done; [cbn; lia|]. intros z. split; [by left|].
    intros [Hz|(e & Hn & _)]; [done|]. by apply not_elem_of_nil in Hn. }
  destruct l2 as [|e l2]; [done|]. cbn [length] in *. injection Hl as Hl. cbn [insert_all].
  rewrite (slot_spec from (l1 ++ e :: l2) _ e Hr) by (by apply list_lookup_middle). cbn [mbind option_bind].
  rewrite Hw by apply list_elem_of_here. cbn [mbind option_bind].
  assert (Hr' : vrep (base from) ((l1 ++ [e]) ++ l2)) by (by rewrite <- app_assoc).
  assert (Hw' : forall x, x ∈ l2 -> want x = Some (w x)) by (intros x Hx; by apply Hw, list_elem_of_further).
  replace (Z.of_nat (length l1) + 1) with (Z.of_nat (length (l1 ++ [e]))) by (rewrite length_app; cbn; lia).
  pose proof (vw_es _ (proj1 (proj1 Hv))) as Hes0.
  destruct (w e) eqn:Ew; cbn [negb].
  - assert (Hsz : sized (v_element_size (base s)) e).
    { rewrite He. destruct Hr as (_ & Hf & _). apply Forall_app in Hf as [_ Hf]. by apply Forall_cons_iff in Hf as [? _]. }
    destruct (insert_outside (mem 0%nat) s l e Hv Hc Hu Hsz) as (s1 & rc & l0 & -> & Hv1 & Hc1 & Hes1 & Hu1 & Hln & Hrc). cbn [mbind option_bind].
    destruct Hrc as [(-> & Hbad)|(Hrc & Hmem)].
    + exists None. split; [done|]. destruct Hbad as [Hb|Hb]; [left; by exists 0%nat|right; nia].
    + rewrite (proj2 (Z.ltb_ge _ _) Hrc).
      destruct (IH (fun k => mem (S k)) (l1 ++ [e]) l2 s1 l0 Hr' Hl Hw' Hv1 Hc1 Hu1) as (out & -> & Hout); [congruence|]. exists out. split; [done|].
      destruct out as [s'|].
      * destruct Hout as (l' & Hv' & Hc' & Hu' & Hl' & Hes' & Hm'). exists l'. split_and!; try done; [lia|congruence|].
        intros z. rewrite Hm', Hmem. split.
        -- intros [[Hz|Hz]|(x & Hx & Hwx & Sx)]; [by left|right; exists e; split; [apply list_elem_of_here|done]|right; exists x; split; [by apply list_elem_of_further|done]].
        -- intros [Hz|(x & Hx & Hwx & Sx)]; [by left; left|]. apply elem_of_cons in Hx as [->|Hx]; [left; by right|right; by exists x].
      * rewrite Hes1 in Hout. destruct Hout as [[k Hk]|Hk]; [left; by exists (S k)|right; nia].
  - destruct (IH (fun k => mem (S k)) (l1 ++ [e]) l2 s l Hr' Hl Hw' Hv Hc Hu He) as (out & -> & Hout). exists out. split; [done|].
    destruct out as [s'|].
    + destruct Hout as (l' & Hv' & Hc' & Hu' & Hl' & Hes' & Hm'). exists l'. split_and!; try done; [lia|]. intros z. rewrite Hm'.
      split; (intros [Hz|(x & Hx & Hwx & Sx)]; [by left|]); [right; exists x; split; [by apply list_elem_of_further|done]|].
      apply elem_of_cons in Hx as [->|Hx]; [congruence|right; by exists x].
    + destruct Hout as [[k Hk]|Hk]; [left; by exists (S k)|right; nia].
Qed.

Lemma contains_spec s l e : vrep (base s) l -> comparator s = rule -> sized (v_element_size (base s)) e ->
  set_contains cmp (Some s) (Outside e) = Some (bool_decide (is_Some (index_of cmp rule e l))).
Proof.
  intros Hr Hc He. unfold set_contains. assert (Hld : load (base s) (Outside e) = Some e).
  { cbn. rewrite <- (app_nil_r e) at 1. by apply (read_at []). }
  rewrite (set_find_spec cmp s (Outside e) e l Hr eq_refl Hld). cbn [mbind option_bind]. rewrite (found_npos cmp s l e Hr), negb_involutive. by rewrite Hc.
Qed.

Lemma subset_from_spec a b l1 l2 lb : vrep (base a) (l1 ++ l2) -> vrep (base b) lb -> comparator b = rule ->
  v_element_size (base a) = v_element_size (base b) ->
  exists r, subset_from cmp (length l2) a (Some b) (Z.of_nat (length l1)) = Some r /\ (r = true <-> forall e, e ∈ l2 -> member e lb).
Proof.
  revert l1. induction l2 as [|e l2 IH]; intros l1 Ha Hb Hc He; cbn [subset_from length].
  { exists true. split; [done|]. split; [|done]. intros _ e Hn. by apply not_elem_of_nil in Hn. }
  rewrite (slot_spec a (l1 ++ e :: l2) _ e Ha) by (by apply list_lookup_middle). cbn [mbind option_bind].
  rewrite (contains_spec b lb e Hb Hc).
  2:{ rewrite <- He. destruct Ha as (_ & Hf & _). apply Forall_app in Hf as [_ Hf]. by apply Forall_cons_iff in Hf as [? _]. }
  cbn [mbind option_bind]. destruct (bool_decide_reflect (is_Some (index_of cmp rule e lb))) as [Hi|Hi]; rewrite index_of_member in Hi; cbn [negb].
  - destruct (IH (l1 ++ [e])) as (r & E & Hr); [by rewrite <- app_assoc|done..|].
    replace (Z.of_nat (length l1) + 1) with (Z.of_nat (length (l1 ++ [e]))) by (rewrite length_app; cbn; lia). exists r. split; [done|].
    rewrite Hr. split; [|intros H x Hx; by apply H, list_elem_of_further]. intros H x Hx. apply elem_of_cons in Hx as [->|Hx]; [done|by apply H].
  - exists false. split; [done|]. split; [done|]. intros H. destruct Hi. apply H, list_elem_of_here.
Qed.

Lemma member_incl la lb : (forall e, e ∈ la -> member e lb) <-> (forall z, member z la -> member z lb).
Proof.
  split.
  - intros H z (a & Ha & Hs)%member_alt. eapply InA_eqA; [apply _|exact Hs|]. by apply H.
  - intros H e He. apply H, member_alt. by exists e.
Qed.

Lemma set_is_subset_spec a b la lb : vrep (base a) la -> vrep (base b) lb -> comparator a = rule -> comparator b = rule ->
  v_element_size (base a) = v_element_size (base b) ->
  exists r, set_is_subset cmp (Some a) (Some b) = Some r /\ (r = true <-> forall z, member z la -> member z lb).
Proof.
  intros Ha Hb Ca Cb He. destruct (subset_from_spec a b [] la lb Ha Hb Cb He) as (r & E & Hr). exists r.
  unfold set_is_subset. rewrite He, Z.eqb_refl, Ca, Cb, bool_decide_eq_true_2 by done. cbn [negb orb].
  rewrite <- (proj1 (proj2 (proj2 Ha))), Nat2Z.id. split; [exact E|]. by rewrite Hr, member_incl.
Qed.

Lemma unique_equal_length la lb : unique la -> unique lb -> (forall z, member z la <-> member z lb) -> length la = length lb.
Proof.
  intros Ua Ub Hm. assert (Hp : PermutationA same la lb) by (apply NoDupA_equivlistA_PermutationA; [apply _|done|done|exact Hm]).
  clear -Hp. induction Hp; cbn; congruence.
Qed.

End Meaning.

(** ** Properties *)

Section Theorems.
Variable cmp : nat -> elem -> elem -> Z.

Lemma set_create_rep mem es s : 0 <= es -> set_create mem es = Some s -> sabs s (mkState [] None) /\ v_element_size (base s) = es /\ comparator s = None.
Proof.
  intros H0. unfold set_create. destruct (vector_create mem es) as [v|] eqn:E; [|done]. intros Hs. apply (inj Some) in Hs as <-.
  destruct (create_rep mem es v H0 E). done.
Qed.

Lemma set_create_fails mem es : 0 < es -> set_create mem es = None -> mem 0%nat = false \/ mem 1%nat = false \/ SIZE_MAX < 10 * es.
Proof.
  intros H0. unfold set_create, vector_create, INITIAL_CAPACITY. destruct (Z.eqb_spec es 0); [lia|].
  destruct (Z.ltb_spec (SIZE_MAX / es) 10) as [Hb|_]; [intros _; right; right; by apply div_lt_mul in Hb|].
  destruct (mem 0%nat); [|by left]. destruct (mem 1%nat); [done|right; by left].
Qed.

(** When a set operation may return nothing: an allocation fails, or the size in bytes would not fit. *)
Definition short_of_storage (es : Z) (n : nat) (mem : nat -> bool) (mems : list (nat -> nat -> bool)) : Prop :=
  (exists k, mem k = false) \/ Exists (fun m => exists k, m k 0%nat = false) mems \/
  SIZE_MAX < 10 * es \/ SIZE_MAX < 2 * Z.of_nat n * es.

(** A result: a new set of the same rule with given members, or nothing for want of storage. *)
Definition yields (rule : option nat) (es : Z) (n : nat) (mem : nat -> bool) (mems : list (nat -> nat -> bool)) (P : elem -> Prop) (out : option (option set_t)) : Prop :=
  match out with
  | None => False
  | Some None => short_of_storage es n mem mems
  | Some (Some c) => exists l, sabs c (mkState l None) /\ comparator c = rule /\ unique cmp rule l /\ (forall z, member cmp rule z l <-> P z)
  end.

Lemma select_yields keep mem mema a b la lb rule `{!Equivalence (same cmp rule)} :
  sabs a (mkState la None) -> sabs b (mkState lb None) -> comparator a = rule -> comparator b = rule ->
  v_element_size (base a) = v_element_size (base b) ->
  yields rule (v_element_size (base a)) (length la + length lb) mem [mema]
    (fun z => exists e, e ∈ la /\ Bool.eqb (bool_decide (is_Some (index_of cmp rule e lb))) keep = true /\ same cmp rule z e)
    (set_select cmp keep mem mema (Some a) (Some b)).
Proof.
  intros [Ha Da] [Hb Db] Ca Cb He. unfold set_select, set_is_compatible. cbn in Da, Db.
  rewrite He, Z.eqb_refl, Ca, Cb, Da, Db, !bool_decide_eq_true_2 by done. cbn [andb negb].
  pose proof (vw_es _ (proj1 Hb)) as Hes. destruct (set_create mem (v_element_size (base b))) as [res|] eqn:Ec.
  - destruct (set_create_rep mem (v_element_size (base b)) res ltac:(lia) Ec) as (Hv & Er & _).
    destruct (insert_all_spec cmp rule (length la) mema (fun e => c ← set_contains cmp (Some b) (Outside e); Some (Bool.eqb c keep))
      (fun e => Bool.eqb (bool_decide (is_Some (index_of cmp rule e lb))) keep) a [] la (mkSet (base res) rule) []) as (out & E & Hout).
    + done.
    + done.
    + intros e Hin. rewrite (contains_spec cmp rule b lb e Hb Cb); [done|]. rewrite <- He. destruct Ha as (_ & Hf & _). cbn in Hf. rewrite Forall_forall in Hf.
      apply Hf. by apply list_elem_of_In.
    + exact Hv.
    + done.
    + constructor.
    + cbn. congruence.
    + cbn [length] in E. replace (Z.to_nat (v_size (base a))) with (length la) by (rewrite <- (proj1 (proj2 (proj2 Ha))); cbn; lia).
      change (Z.of_nat 0) with 0 in E. rewrite E. destruct out as [c|]; cbn.
      * destruct Hout as (l & Hl & Hc & Hu & _ & _ & Hm). exists l. split_and!; [done..|]. intros z. rewrite Hm. unfold member. rewrite InA_nil. tauto.
      * cbn in Hout. destruct Hout as [Hk|Hk]; [right; left; by constructor|]. right. right. right. rewrite Er in Hk. nia.
  - cbn. destruct (set_create_fails mem _ Hes Ec) as [Hk|[Hk|Hk]]; [left; by eexists|left; by eexists|right; right; by left].
Qed.

Lemma union_yields mem mema memb a b la lb rule `{!Equivalence (same cmp rule)} :
  sabs a (mkState la None) -> sabs b (mkState lb None) -> comparator a = rule -> comparator b = rule ->
  v_element_size (base a) = v_element_size (base b) ->
  yields rule (v_element_size (base a)) (length la + length lb) mem [mema; memb]
    (fun z => member cmp rule z la \/ member cmp rule z lb) (set_union cmp mem mema memb (Some a) (Some b)).
Proof.
  intros [Ha Da] [Hb Db] Ca Cb He. unfold set_union, set_is_compatible. cbn in Da, Db, Ha, Hb.
  rewrite He, Z.eqb_refl, Ca, Cb, Da, Db, !bool_decide_eq_true_2 by done. cbn [andb negb].
  pose proof (vw_es _ (proj1 Hb)) as Hes. destruct (set_create mem (v_element_size (base b))) as [res|] eqn:Ec.
  2:{ cbn. destruct (set_create_fails mem _ Hes Ec) as [Hk|[Hk|Hk]]; [left; by eexists|left; by eexists|right; right; by left]. }
  destruct (set_create_rep mem (v_element_size (base b)) res ltac:(lia) Ec) as (Hv & Er & _).
  assert (Hall : forall z l, (exists e, e ∈ l /\ true = true /\ same cmp rule z e) <-> member cmp rule z l).
  { intros z l. rewrite (member_alt cmp rule). split; intros (e & Hin & Hs); exists e; [|split_and!; [done..|by symmetry]].
    split; [done|]. symmetry. apply Hs. }
  destruct (insert_all_spec cmp rule (length la) mema (fun _ => Some true) (fun _ => true) a [] la (mkSet (base res) rule) [] Ha eq_refl)
    as (out & E & Hout); [done|exact Hv|done|constructor|cbn; congruence|].
  change (Z.of_nat (length [])) with 0 in E. replace (Z.to_nat (v_size (base a))) with (length la) by (rewrite <- (proj1 (proj2 (proj2 Ha))); lia).
  rewrite E. cbn [mbind option_bind]. cbn in Hout. destruct out as [c|].
  2:{ cbn. destruct Hout as [Hk|Hk]; [right; left; by constructor|]. right. right. right. rewrite Er in Hk. nia. }
  destruct Hout as (l & Hl & Hc & Hu & Hle & Hec & Hm).
  destruct (insert_all_spec cmp rule (length lb) memb (fun _ => Some true) (fun _ => true) b [] lb c l Hb eq_refl)
    as (out & E2 & Hout); [done|exact Hl|done|done|congruence|].
  change (Z.of_nat (length [])) with 0 in E2. replace (Z.to_nat (v_size (base b))) with (length lb) by (rewrite <- (proj1 (proj2 (proj2 Hb))); lia).
  rewrite E2. destruct out as [c2|]; cbn.
  - destruct Hout as (l2 & Hl2 & Hc2 & Hu2 & _ & _ & Hm2). exists l2. split_and!; [done..|]. intros z. rewrite Hm2, Hm, !Hall. unfold member at 1. rewrite InA_nil. tauto.
  - destruct Hout as [Hk|Hk]; [right; left; by constructor; constructor|]. right. right. right. rewrite Hec, Er in Hk. nia.
Qed.

End Theorems.

(** A set is a set.  For any comparator that is an equivalence (or none), after any sequence of calls on
    a new set -- with elements from outside, pointers into the set, null, failing allocations -- no two
    elements are equal under the set's rule and every copy has stayed inside the buffer; and one more call
    then means what its name says: insertion adds the element unless it is there (returning 1), removal
    and taking drop it and nothing else, the test is membership, and a failure changes nothing. *)
Theorem set_is_a_set (cmp : nat -> elem -> elem -> Z) (rule : option nat) mem es s0 ops op :
  Equivalence (same cmp rule) -> 0 <= es -> set_create mem es = Some s0 -> Forall (sop_ok es) ops -> sop_ok es op ->
  exists s rs l d s' r l' d', set_run cmp (mkSet (base s0) rule) ops = Some (Some s, rs) /\ sabs s (mkState l d) /\ unique cmp rule l /\
    set_step cmp s op = Some (Some s', r) /\ sabs s' (mkState l' d') /\ unique cmp rule l' /\ meaning cmp rule l op r l'.
Proof.
  intros Heq H0 Hc Hok Ho. destruct (set_create_rep mem es s0 H0 Hc) as (Hv & He & _).
  destruct (set_run_unique cmp rule ops (mkSet (base s0) rule) (mkState [] None)) as (s & [l d] & rs & E & Hs & Hr & Hu & Hes & _);
    [exact Hv|done|constructor|cbn; by rewrite He|]. cbn in Hes.
  destruct (set_step_refines cmp s (mkState l d) op Hs) as (s' & room & E' & Hs' & _); [by rewrite Hes, He|]. rewrite Hr in E', Hs'.
  destruct (sspec_meaning cmp rule room (mkState l d) op Hu) as [Hu' Hm].
  destruct (sspec cmp rule room (mkState l d) op) as [[l' d'] r]. exists s, rs, l, d, s', r, l', d'. by split_and!.
Qed.

(** Bytes compared as they are, and a rule that looks at the first byte only. *)
Definition first_byte (_ : nat) (a b : elem) : Z := if bool_decide (head a = head b) then 0 else 1.

Lemma first_byte_equiv : Equivalence (same first_byte (Some 0%nat)).
Proof.
  assert (E : forall a b, same first_byte (Some 0%nat) a b <-> head a = head b).
  { intros a b. unfold same, set_elements_equal, first_byte. case_bool_decide; split; intros; done. }
  split; intros x; [|intros y|intros y z]; rewrite !E; congruence.
Qed.

Definition sample_set_calls : list sop :=
  [SInsert all_mem (EOutside (cells 1)); SInsert all_mem (EOutside [Some 1; Some 9]); SInsert all_mem (EOutside (cells 2));
   SInsert all_mem (EOutside (cells 3)); SRemove (EGet 0); SContains (EOutside (cells 3)); SSize].

Lemma set_is_a_set_witness :
  exists s0, set_create all_mem 2 = Some s0 /\
    snd <$> set_run first_byte (mkSet (base s0) (Some 0%nat)) sample_set_calls =
      Some [mkRes 0 None []; mkRes 1 None []; mkRes 0 None []; mkRes 0 None []; mkRes 0 None []; mkRes 1 None []; mkRes 2 None []] /\
    exists s rs l d s' r l' d', set_run first_byte (mkSet (base s0) (Some 0%nat)) sample_set_calls = Some (Some s, rs) /\ sabs s (mkState l d) /\
      unique first_byte (Some 0%nat) l /\ set_step first_byte s (SInsert all_mem (EOutside (cells 3))) = Some (Some s', r) /\
      sabs s' (mkState l' d') /\ unique first_byte (Some 0%nat) l' /\ meaning first_byte (Some 0%nat) l (SInsert all_mem (EOutside (cells 3))) r l'.
Proof.
  eexists. split; [reflexivity|]. split; [vm_compute; reflexivity|].
  apply (set_is_a_set first_byte (Some 0%nat) all_mem 2 _ sample_set_calls (SInsert all_mem (EOutside (cells 3))) first_byte_equiv); [lia|reflexivity|repeat constructor; vm_compute; done|reflexivity].
Defined.

(** The set algebra is exact.  For two sets with the same element size, the same comparator -- an
    equivalence -- and no destructors, union, intersection and difference return a new set whose elements
    are unique and whose members are those of either, both, or the first only, or nothing when storage is
    short; inclusion and equality are those of the members, whatever the order of the elements. *)
Theorem set_algebra_exact (cmp : nat -> elem -> elem -> Z) a b la lb mem mema memb :
  Equivalence (same cmp (comparator a)) -> sabs a (mkState la None) -> sabs b (mkState lb None) ->
  unique cmp (comparator a) la -> unique cmp (comparator a) lb ->
  comparator b = comparator a -> v_element_size (base a) = v_element_size (base b) ->
  let r := comparator a in let es := v_element_size (base a) in let n := (length la + length lb)%nat in
  yields cmp r es n mem [mema; memb] (fun z => member cmp r z la \/ member cmp r z lb) (set_union cmp mem mema memb (Some a) (Some b)) /\
  yields cmp r es n mem [mema] (fun z => member cmp r z la /\ member cmp r z lb) (set_intersection cmp mem mema (Some a) (Some b)) /\
  yields cmp r es n mem [mema] (fun z => member cmp r z la /\ ~ member cmp r z lb) (set_difference cmp mem mema (Some a) (Some b)) /\
  (exists x, set_is_subset cmp (Some a) (Some b) = Some x /\ (x = true <-> forall z, member cmp r z la -> member cmp r z lb)) /\
  (exists x, set_is_equal cmp (Some a) (Some b) = Some x /\ (x = true <-> forall z, member cmp r z la <-> member cmp r z lb)).
Proof.
  intros Heq Ha Hb Ua Ub Hc He r es n.
  assert (Hsel : forall keep z, (exists e, e ∈ la /\ Bool.eqb (bool_decide (is_Some (index_of cmp r e lb))) keep = true /\ same cmp r z e) <->
    member cmp r z la /\ (if keep then member cmp r z lb else ~ member cmp r z lb)).
  { intros keep z. rewrite (member_alt cmp r z la).
    assert (Hiff : forall e, same cmp r z e -> Bool.eqb (bool_decide (is_Some (index_of cmp r e lb))) keep = true <-> (if keep then member cmp r z lb else ~ member cmp r z lb)).
    { intros e Hs. assert (Hm : member cmp r e lb <-> member cmp r z lb) by (split; intros Hx; (eapply InA_eqA; [apply _| |exact Hx]); [by symmetry|done]).
      rewrite eqb_true_iff. destruct keep; rewrite <- Hm, <- (index_of_member cmp r); [by rewrite bool_decide_eq_true|by rewrite bool_decide_eq_false]. }
    split.
    - intros (e & Hin & Hk & Hs). split; [exists e; split; [done|by symmetry]|by apply (Hiff e)].
    - intros [(e & Hin & Hs) Hk]. exists e. symmetry in Hs. split; [done|]. split; [by apply Hiff|done]. }
  assert (Hy : forall keep, yields cmp r es n mem [mema] (fun z => member cmp r z la /\ (if keep : bool then member cmp r z lb else ~ member cmp r z lb))
     (set_select cmp keep mem mema (Some a) (Some b))).
  { intros keep. pose proof (select_yields cmp keep mem mema a b la lb r Ha Hb eq_refl Hc He) as Hy. fold es n in Hy. unfold yields in *.
    destruct (set_select cmp keep mem mema (Some a) (Some b)) as [[c|]|]; [|done..].
    destruct Hy as (l & Hl & Hcc & Hu & Hm). exists l. split_and!; [done..|]. intros z. rewrite Hm. apply Hsel. }
  destruct (set_is_subset_spec cmp r a b la lb (proj1 Ha) (proj1 Hb) eq_refl Hc He) as (x & Ex & Hx).
  destruct (set_is_subset_spec cmp r b a lb la (proj1 Hb) (proj1 Ha) Hc eq_refl (eq_sym He)) as (y & Ey & Hy').
  split; [by apply union_yields|]. split; [apply (Hy true)|]. split; [apply (Hy false)|]. split; [by exists x|].
  unfold set_is_equal. pose proof (proj1 (proj2 (proj2 (proj1 Ha)))) as La. pose proof (proj1 (proj2 (proj2 (proj1 Hb)))) as Lb. cbn in La, Lb.
  destruct (Z.eqb_spec (v_size (base a)) (v_size (base b))) as [Hs|Hs]; cbn [negb].
  - rewrite Ex. cbn [mbind option_bind]. destruct x.
    + exists y. split; [done|]. rewrite Hy'. split; [intros H z; split; [by apply Hx|apply H]|intros H z; apply H].
    + exists false. split; [done|]. split; [done|]. intros H. apply Hx. intros z. apply H.
  - exists false. split; [done|]. split; [done|]. intros H. exfalso. apply Hs. rewrite <- La, <- Lb. f_equal. by apply (unique_equal_length cmp r).
Qed.

Lemma bytes_rule cmp : Equivalence (same cmp None).
Proof.
  assert (E : forall a b, same cmp None a b <-> a = b) by (intros a b; unfold same; cbn; by rewrite bool_decide_eq_true).
  split; intros x; [|intros y|intros y z]; rewrite !E; congruence.
Qed.

Definition set_of (l : list elem) : set_t :=
  mkSet (mkVector (Z.of_nat (length l)) (Z.of_nat (length l)) 2 (concat l) None) None.

Lemma set_of_rep l : l <> [] -> (length l < 100)%nat -> Forall (sized 2) l -> sabs (set_of l) (mkState l None).
Proof.
  intros Hne Hlt Hf. split; [|done]. pose proof (concat_sized _ _ Hf) as Hc. unfold sized in Hf.
  assert (0 < length l)%nat by (destruct l; cbn; [done|lia]).
  split; [split; cbn; unfold SIZE_MAX, UINT64_MAX; lia|]. split; [done|]. split; [done|]. exists []. by rewrite app_nil_r.
Qed.

Lemma set_algebra_exact_witness :
  let a := set_of [cells 1; cells 2] in let b := set_of [cells 2; cells 3; cells 4] in
  (match set_intersection first_byte all_mem (fun _ => all_mem) (Some a) (Some b) with Some (Some c) => slot c 0 | _ => None end) = Some (cells 2) /\
  exists x, set_is_subset first_byte (Some a) (Some b) = Some x /\
    (x = true <-> forall z, member first_byte None z [cells 1; cells 2] -> member first_byte None z [cells 2; cells 3; cells 4]).
Proof.
  intros a b. split; [vm_compute; reflexivity|].
  assert (Hu : forall l, bool_decide (NoDup l) = true -> unique first_byte None l).
  { intros l Hl%bool_decide_eq_true. induction Hl as [|x l Hx Hl IH]; constructor; [|done].
    intros Hin. apply (member_alt first_byte None (Hequiv := bytes_rule first_byte)) in Hin as (y & Hy & Hs). apply bool_decide_eq_true in Hs as ->. done. }
  apply (set_algebra_exact first_byte a b [cells 1; cells 2] [cells 2; cells 3; cells 4] all_mem (fun _ => all_mem) (fun _ => all_mem));
    [apply bytes_rule|apply set_of_rep; [done|cbn; lia|repeat constructor]|apply set_of_rep; [done|cbn; lia|repeat constructor]|apply Hu; reflexivity|apply Hu; reflexivity|reflexivity|reflexivity].
Defined.

(** [set_dedupe] restores uniqueness.  After the comparator of a populated set has been replaced by another
    equivalence, it ends with a set whose elements are unique under the new rule; what it kept and what it
    removed are together the elements there were, each removed element has an equal one among the kept, the
    members are unchanged, and exactly the removed ones are passed to the
    destructor.  But of equal elements it does not always keep the one with the lowest index: the element
    moved into a freed slot overtakes those between. *)
Theorem set_dedupe_restores_uniqueness (cmp : nat -> elem -> elem -> Z) s l d :
  Equivalence (same cmp (comparator s)) -> sabs s (mkState l d) ->
  (exists s' l' removed, set_dedupe cmp (Some s) = Some (Some s', destroyed_by d removed, 0) /\ sabs s' (mkState l' d) /\
    unique cmp (comparator s) l' /\ l' ++ removed ≡ₚ l /\ (forall z, member cmp (comparator s) z l' <-> member cmp (comparator s) z l)) /\
  (exists kept_later, (fun r => match r with (Some s', _, _) => slot s' 1 | _ => None end) <$>
     set_dedupe first_byte (Some (mkSet (base (set_of [cells 1; [Some 1; Some 5]; cells 2; [Some 2; Some 7]])) (Some 0%nat))) = Some (Some kept_later) /\
     kept_later = [Some 2; Some 7]).
Proof.
  intros Heq Hv. split; [|eexists; split; [vm_compute; reflexivity|reflexivity]].
  pose proof (proj1 (proj2 (proj2 (proj1 Hv)))) as Hl. cbn in Hl.
  destruct (dedupe_outer_spec cmp (comparator s) (Z.to_nat (v_size (base s))) s (mkState l d) [] l Hv eq_refl eq_refl) as (s' & l' & removed & E & Hv' & Hu & Hp & Hr & _);
    [split; [constructor|done]|lia|done|].
  exists s', l', removed. unfold set_dedupe. change (Z.of_nat (length [])) with 0 in E. rewrite E. split; [done|]. split; [done|]. split; [done|].
  split; [done|]. intros z. rewrite <- (member_perm cmp (comparator s) z _ _ Hp). rewrite !member_alt by apply _. split.
  - intros (a & Ha & Hs). exists a. split; [apply elem_of_app; by left|done].
  - intros (a & Ha & Hs). apply elem_of_app in Ha as [Ha|Ha]; [by exists a|]. rewrite Forall_forall in Hr.
    destruct (Hr a (proj1 (list_elem_of_In _ _) Ha)) as (y & Hy & Hsy). exists y. split; [done|]. by transitivity a.
Qed.

Lemma set_dedupe_restores_uniqueness_witness :
  let s := mkSet (base (set_of [cells 1; cells 2; [Some 1; Some 5]])) (Some 0%nat) in
  (fun r => match r with (Some s', _, rc) => (v_size (base s'), rc) | _ => (0, 0) end) <$> set_dedupe first_byte (Some s) = Some (2, 0) /\
  exists s' l' removed, set_dedupe first_byte (Some s) = Some (Some s', destroyed_by None removed, 0) /\ sabs s' (mkState l' None) /\
    unique first_byte (Some 0%nat) l' /\ l' ++ removed ≡ₚ [cells 1; cells 2; [Some 1; Some 5]] /\
    (forall z, member first_byte (Some 0%nat) z l' <-> member first_byte (Some 0%nat) z [cells 1; cells 2; [Some 1; Some 5]]).
Proof.
  intros s. split; [vm_compute; reflexivity|].
  apply (set_dedupe_restores_uniqueness first_byte s [cells 1; cells 2; [Some 1; Some 5]] None); [apply first_byte_equiv|].
  apply (set_of_rep [cells 1; cells 2; [Some 1; Some 5]]); [done|cbn; lia|repeat constructor].
Defined.
