(* ===== verification/CommandLine.v ===== *)
(** * Lines, words and numbers ([src/main.c], [main] and [ApplyRuntimeConfigFromEnv])

    How the command loop reads its input: [fgets] into a buffer of 1024 bytes, [strtok] on blanks,
    [strtoull], [strtoul] and [strtol] with their end pointers, and the checks the commands make on what
    they return; the environment variables and the start-up argument.  Characters are bytes. *)
From Stdlib Require Import String.
From S2P Require Import Prelude Bytes UInt256 Utils Storage Peers Protocol NetNode.

(** ** The standard library on C strings *)

Definition isspace (c : Z) : bool := (c =? 32) || ((9 <=? c) && (c <=? 13)).

(** A C string ends at the first NUL. *)
Fixpoint c_string (l : bytes) : bytes :=
  match l with
  | [] => []
  | c :: r => if c =? 0 then [] else c :: c_string r
  end.

(** At most [k] bytes, up to and with a newline: the bytes and the rest of the input. *)
Fixpoint read_line (k : nat) (input : bytes) : bytes * bytes :=
  match k, input with
  | O, _ => ([], input)
  | _, [] => ([], [])
  | S k, c :: r => if c =? 10 then ([c], r) else let '(l, r) := read_line k r in (c :: l, r)
  end.

Definition fgets (n : nat) (input : bytes) : option (bytes * bytes) :=
  match input with [] => None | _ => Some (read_line (n - 1) input) end.

(** [line[strcspn(line, chars)] = 0]. *)
Fixpoint cut_at (stop : Z -> bool) (s : bytes) : bytes :=
  match s with
  | [] => []
  | c :: r => if stop c then [] else c :: cut_at stop r
  end.

Definition blank (c : Z) : bool := (c =? 32) || (c =? 9).

Fixpoint skip (p : Z -> bool) (s : bytes) : bytes :=
  match s with
  | [] => []
  | c :: r => if p c then skip p r else s
  end.

(** [strtok]: the next word and what the next call goes on with (the separator after it is consumed). *)
Definition strtok (s : bytes) : option (bytes * bytes) :=
  match skip blank s with
  | [] => None
  | s => let word := cut_at blank s in Some (word, drop (S (length word)) s)
  end.

(** Successive calls of [strtok] on one line; past the end each returns NULL. *)
Definition next_word (s : bytes) : option bytes * bytes :=
  match strtok s with
  | None => (None, [])
  | Some (word, rest) => (Some word, rest)
  end.

Definition digit_of (base c : Z) : option Z :=
  let v := hex_value c in if (0 <=? v) && (v <? base) then Some v else None.

(** Digits as far as they go: the value, whether there were any, the rest. *)
Fixpoint scan (base acc : Z) (any : bool) (s : bytes) : Z * bool * bytes :=
  match s with
  | [] => (acc, any, [])
  | c :: r =>
      match digit_of base c with
      | Some d => scan base (acc * base + d) true r
      | None => (acc, any, s)
      end
  end.

Definition sign_of (s : bytes) : bool * bytes :=
  match s with
  | [] => (false, [])
  | c :: r => if c =? 43 then (false, r) else if c =? 45 then (true, r) else (false, s)
  end.

(** [0x] before hexadecimal digits. *)
Definition skip_prefix (base : Z) (s : bytes) : bytes :=
  match s with
  | z :: x :: d :: r =>
      if (base =? 16) && (z =? 48) && ((x =? 120) || (x =? 88)) && bool_decide (is_Some (digit_of 16 d)) then d :: r else s
  | _ => s
  end.

(** The sign, the magnitude and [endptr]; without digits nothing is consumed. *)
Definition strto (base : Z) (s : bytes) : bool * Z * bytes :=
  let '(neg, t) := sign_of (skip isspace s) in
  let '(v, any, rest) := scan base 0 false (skip_prefix base t) in
  if any : bool then (neg, v, rest) else (false, 0, s).

(** [unsigned long] and [unsigned long long] have 64 bits: too large a magnitude gives the maximum, a
    minus sign negates modulo 2^64. *)
Definition strtoull (s : bytes) (base : Z) : Z * bytes :=
  let '(neg, v, rest) := strto base s in
  (if UINT64_MAX <? v then UINT64_MAX else if neg : bool then u64 (- v) else v, rest).
Definition strtoul : bytes -> Z -> Z * bytes := strtoull.

Definition LONG_MIN : Z := - 2 ^ 63.
Definition strtol (s : bytes) (base : Z) : Z * bytes :=
  let '(neg, v, rest) := strto base s in
  let v := if neg : bool then - v else v in
  (if v <? LONG_MIN then LONG_MIN else if LONG_MAX <? v then LONG_MAX else v, rest).

(** ** The checks of the commands *)

(** [*s == 0 || s[0] == '-' || (endptr && *endptr != 0)] is refused. *)
Definition starts_with_minus (s : bytes) : bool := match s with c :: _ => c =? 45 | [] => false end.
Definition is_empty (s : bytes) : bool := match s with [] => true | _ => false end.

Definition parse_count (s : bytes) : option Z :=
  let '(v, endptr) := strtoull s 10 in
  if is_empty s || starts_with_minus s || negb (is_empty endptr) then None else Some v.

(** The port of [connect]. *)
Definition parse_port (s : bytes) : option Z :=
  let '(v, endptr) := strtol s 10 in
  if is_empty s || starts_with_minus s || negb (is_empty endptr) || (v <=? 0) || (65535 <? v) then None else Some (u16 v).

(** The byte of two characters in [sendrawtx]. *)
Definition parse_hex_byte (hi lo : Z) : option Z :=
  let '(v, endptr) := strtoul (c_string [hi; lo]) 16 in
  if negb (is_empty endptr) then None else Some (u8 v).

(** ** Environment and arguments *)

(** The data directory and the configuration after [ApplyRuntimeConfigFromEnv]. *)
Definition ApplyRuntimeConfigFromEnv (getenv : string -> option bytes) (g_chainDataDir : bytes) (cfg : config) : bytes * config :=
  let set (name : string) := match getenv name with Some (c :: r) => Some (c :: r) | _ => None end in
  let dir := default g_chainDataDir (set "SKALACOIN_CHAIN_DATA_DIR"%string) in
  let port := match set "SKALACOIN_LISTEN_PORT"%string with
              | None => g_listenPort cfg
              | Some portStr =>
                  let '(parsed, endptr) := strtol portStr 10 in
                  if is_empty endptr && (0 <? parsed) && (parsed <=? 65535) then u16 parsed else g_listenPort cfg
              end in
  let flag (name : string) (old : bool) := match set name with None => old | Some v => negb (bool_decide (v = [48])) end in
  (dir, mkConfig port (g_localNodeId cfg) (flag "SKALACOIN_ECHO_PEERS"%string (g_echoPeersEnabled cfg))
          (flag "SKALACOIN_FORCE_ORPHAN_REORG"%string (g_forceOrphanReorgEnabled cfg))).

(** The arguments after the program's name: [None] when the process exits with 1, otherwise the pause
    between hashes that [--throttle] asks for. *)
Definition startup_args (argv : list bytes) : option (option Z) :=
  match argv with
  | [] => Some None
  | a :: r =>
      if bool_decide (a = text "--throttle") then
        match r with
        | [] => Some (Some 1000)
        | us :: _ => v ← parse_count us; Some (Some v)
        end
      else None
  end.
