(* ===== verification/Identity.v ===== *)
(** * Random numbers and identities ([src/numgen.c], [include/utils.h])

    Numbers assembled from [rand()], the node identity drawn from the system's generator with a fallback,
    and the two ways a key pair and its address are made.  [rand] is a stream; a draw returns its value and
    the position after it. *)
From Stdlib Require Import String.
From S2P Require Import Prelude Bytes Utils Crypto Transaction Protocol Startup.

Section Numbers.
Context (rand : nat -> Z).

Definition random_byte (i : nat) : Z * nat := (rand i mod 256, S i).

(** [bytes[i] = random_byte()] for [n] bytes. *)
Fixpoint random_bytes (n : nat) (i : nat) : bytes * nat :=
  match n with
  | O => ([], i)
  | S n => let '(b, i) := random_byte i in let '(l, i) := random_bytes n i in (b :: l, i)
  end.

Definition random_two_byte (i : nat) : Z * nat := let '(l, i) := random_bytes 2 i in (le_val l, i).
Definition random_four_byte (i : nat) : Z * nat := let '(l, i) := random_bytes 4 i in (le_val l, i).
Definition random_eight_byte (i : nat) : Z * nat := let '(l, i) := random_bytes 8 i in (le_val l, i).

(** [urandom]: what could be read of [/dev/urandom], if it could be opened; then the clock (zeros when it
    fails) and the process. *)
Definition random_secure_eight_byte (urandom : option bytes) (tv_sec tv_nsec pid : Z) (i : nat) : Z * nat :=
  let drawn := match urandom with Some l => if (length l =? 8)%nat then le_val l else 0 | None => 0 end in
  if negb (drawn =? 0) then (drawn, i)
  else
    let '(x, i) := random_eight_byte i in
    let x := Z.lxor x (u64 tv_nsec) in
    let x := Z.lxor x (u64 (Z.shiftl (u64 tv_sec) 16)) in
    let x := Z.lxor x (u64 (Z.shiftl (u64 pid) 40)) in
    (if x =? 0 then 1 else x, i).

Lemma random_bytes_ok n i : bytes_n n (fst (random_bytes n i)).
Proof.
  revert i; induction n as [|n IH]; intros i; [by split; [|constructor]|]. cbn. specialize (IH (S i)). destruct (random_bytes n (S i)) as [l k]. cbn in *.
  destruct IH as [Hl Hb]. split; [cbn; lia|]. apply Forall_cons_iff. split; [unfold is_u8; pose proof (Z.mod_pos_bound (rand i) 256); lia|done].
Qed.

Lemma le_val_u64 l : length l = 8%nat -> bytes_ok l -> is_u64 (le_val l).
Proof. intros Hl Hb. pose proof (le_val_bounds l Hb) as Hr. rewrite Hl in Hr. change (256 ^ Z.of_nat 8) with (2 ^ 64) in Hr. exact Hr. Qed.

Lemma random_eight_u64 i : is_u64 (fst (random_eight_byte i)).
Proof.
  unfold random_eight_byte. pose proof (random_bytes_ok 8 i) as [Hl Hb]. destruct (random_bytes 8 i) as [l k]. cbn [fst] in *.
  by apply le_val_u64.
Qed.

Lemma lxor_u64 a b : is_u64 a -> is_u64 b -> is_u64 (Z.lxor a b).
Proof.
  intros Ha Hb. unfold is_u64 in *. assert (H0 : 0 <= Z.lxor a b) by (apply Z.lxor_nonneg; lia). split; [done|].
  destruct (Z.eq_dec (Z.lxor a b) 0) as [->|Hn]; [lia|]. apply Z.log2_lt_pow2; [lia|]. pose proof (Z.log2_lxor a b ltac:(lia) ltac:(lia)) as Hx.
  assert (Hl : forall c, 0 <= c < 2 ^ 64 -> Z.log2 c < 64).
  { intros c Hc. destruct (Z.eq_dec c 0) as [->|]; [done|]. apply Z.log2_lt_pow2; lia. }
  pose proof (Hl a Ha). pose proof (Hl b Hb). lia.
Qed.

(** The identity is a 64-bit number other than 0, which on the wire means that there is none. *)
Lemma secure_nonzero urandom tv_sec tv_nsec pid i : match urandom with Some l => bytes_ok l | None => True end ->
  let x := fst (random_secure_eight_byte urandom tv_sec tv_nsec pid i) in is_u64 x /\ x <> 0.
Proof.
  intros Hu. unfold random_secure_eight_byte.
  assert (Hd : is_u64 (match urandom with Some l => if (length l =? 8)%nat then le_val l else 0 | None => 0 end)).
  { destruct urandom as [l|]; [|vm_decide]. destruct (Nat.eqb_spec (length l) 8) as [E|]; [|vm_decide].
    by apply le_val_u64. }
  cbv zeta. destruct (Z.eqb_spec (match urandom with Some l => if (length l =? 8)%nat then le_val l else 0 | None => 0 end) 0) as [E|E]; cbn [negb]; [|done].
  pose proof (random_eight_u64 i) as H8. destruct (random_eight_byte i) as [x k]. cbn [fst] in *.
  set (y := Z.lxor _ _). assert (Hy : is_u64 y) by (unfold y; repeat apply lxor_u64; try apply u64_range; done).
  destruct (Z.eqb_spec y 0); [split; [vm_decide|done]|done].
Qed.
End Numbers.

(** ** Key pairs *)

Section Keys.
Context {ops : CryptoOps}.

Definition AddressFromCompressedPubkey (compressedPubkey : bytes) : bytes := SHA256 compressedPubkey.

Definition identity_of (privateKey : bytes) : option wallet :=
  if secp256k1_ec_seckey_verify privateKey
  then let pub := secp256k1_ec_pubkey_create privateKey in Some (mkWallet privateKey pub (AddressFromCompressedPubkey pub))
  else None.

(** The attempts: 32 low bytes of [rand()] each. *)
Fixpoint random_identity (attempts : nat) (rand : nat -> Z) (i : nat) : option wallet :=
  match attempts with
  | O => None
  | S attempts =>
      match identity_of (map (fun k => Z.land (rand (i + k)%nat) 255) (seq 0 32)) with
      | Some w => Some w
      | None => random_identity attempts rand (i + 32)
      end
  end.
Definition GenerateRandomTestAddress (rand : nat -> Z) (i : nat) : option wallet := random_identity (Z.to_nat 4096) rand i.

Fixpoint counted_identity (attempts : nat) (counter : Z) : option wallet :=
  match attempts with
  | O => None
  | S attempts =>
      match identity_of (SHA256 (text "skalacoin-test-miner-key"%string ++ le_bytes 8 counter)) with
      | Some w => Some w
      | None => counted_identity attempts (counter + 1)
      end
  end.
Definition GenerateTestMinerIdentity : option wallet := counted_identity 1024 0.

(** A wallet as [GenerateRandomTestAddress] makes it, with a key the library signs with. *)
Record wallet_ok {ops : CryptoOps} (w : wallet) : Prop := mkWalletOk {
  wallet_key : secp256k1_ec_seckey_verify (minerPrivateKey w) = true;
  wallet_pub : minerCompressedPubkey w = secp256k1_ec_pubkey_create (minerPrivateKey w);
  wallet_pub_size : bytes_n 33 (minerCompressedPubkey w);
  wallet_addr : minerAddress w = SHA256 (minerCompressedPubkey w);
  wallet_user : minerAddress w <> COINBASE_ADDRESS;
  wallet_signs : forall d, exists s, secp256k1_ecdsa_sign d (minerPrivateKey w) = Some s /\ bytes_n 64 (secp256k1_ecdsa_signature_serialize_compact s)
}.

(** The library writes compressed keys of 33 bytes and signatures of 64, and signs with every valid key. *)
Definition signing_library : Prop :=
  forall sk, secp256k1_ec_seckey_verify sk = true -> bytes_n 33 (secp256k1_ec_pubkey_create sk) /\
    forall d, exists s, secp256k1_ecdsa_sign d sk = Some s /\ bytes_n 64 (secp256k1_ecdsa_signature_serialize_compact s).

Lemma identity_sound sk w : signing_library -> identity_of sk = Some w -> minerAddress w <> COINBASE_ADDRESS -> wallet_ok w.
Proof.
  intros Hlib. unfold identity_of. destruct (secp256k1_ec_seckey_verify sk) eqn:Ev; [|done]. intros E Hc. injection E as <-.
  destruct (Hlib sk Ev) as [Hp Hs]. by split.
Qed.

Lemma random_identity_draws attempts rand i w : random_identity attempts rand i = Some w ->
  exists k, (k < attempts)%nat /\ identity_of (map (fun j => Z.land (rand (i + 32 * k + j)%nat) 255) (seq 0 32)) = Some w.
Proof.
  revert i; induction attempts as [|n IH]; intros i; cbn [random_identity]; [done|].
  destruct (identity_of (map (fun k => Z.land (rand (i + k)%nat) 255) (seq 0 32))) as [w'|] eqn:E.
  - intros Hw. injection Hw as <-. exists 0%nat. split; [lia|]. rewrite <- E. f_equal. apply map_ext. intros j. do 2 f_equal. lia.
  - intros Hw. apply IH in Hw as (k & Hk & Hw). exists (S k). split; [lia|]. rewrite <- Hw. f_equal. apply map_ext. intros j. do 2 f_equal. lia.
Qed.

(** A generated identity is a wallet that [send] can use; the generator gives up only after 4096 keys the
    library refuses. *)
Lemma generated_wallet_ok rand i w : signing_library -> GenerateRandomTestAddress rand i = Some w -> minerAddress w <> COINBASE_ADDRESS -> wallet_ok w.
Proof. intros Hlib Hg Hc. apply random_identity_draws in Hg as (k & _ & Hk). by eapply identity_sound. Qed.

Lemma generator_gives_up attempts rand i : random_identity attempts rand i = None ->
  forall k, (k < attempts)%nat -> secp256k1_ec_seckey_verify (map (fun j => Z.land (rand (i + 32 * k + j)%nat) 255) (seq 0 32)) = false.
Proof.
  revert i; induction attempts as [|n IH]; intros i Hn k Hk; [lia|]. cbn [random_identity] in Hn.
  destruct (identity_of (map (fun k => Z.land (rand (i + k)%nat) 255) (seq 0 32))) eqn:E; [done|]. destruct k as [|k].
  - unfold identity_of in E. rewrite (map_ext _ (fun k => Z.land (rand (i + k)%nat) 255)) by (intros j; do 2 f_equal; lia).
    by destruct (secp256k1_ec_seckey_verify _).
  - rewrite (map_ext _ (fun j => Z.land (rand (i + 32 + 32 * k + j)%nat) 255)) by (intros j; do 2 f_equal; lia). apply IH; [done|lia].
Qed.
End Keys.
