(* ===== verification/Console.v ===== *)
(** * The command loop ([src/main.c], [main])

    The commands of the console as programs over the state they share with the network threads (the
    [prog] of [Sync]): every call of a locked operation is one access, before which the other threads act.
    A command consumes the words of its line and ends with what it prints; the loop reads the input to its
    end or to [exit], flushes and shuts down. *)
From Stdlib Require Import String.
From S2P Require Import Prelude Bytes UInt256 Utils Crypto Transaction Autolykos2 Block Emission.
From S2P Require Import BalanceSheet Ledger Difficulty DagEpochs Mempool Storage Chain ChainInvariant OrphanPool.
From S2P Require Import Framing Deliveries Peers UdpNode Discovery Protocol NetNode FullVerify Startup Miner Sync CommandLine Identity.
#[local] Open Scope sync_scope.

(** [hints.ai_family]. *)
Inductive address_family := FAMILY_INET | FAMILY_INET6.

(** What the command thread takes from outside at access [n]: a connection dialled, the clock during the
    nonce search, the values [rand()] will return, the indeterminate contents of a local
    [signed_transaction_t]; and whether [getaddrinfo] takes a text for a numeric address ([AI_NUMERICHOST]) of a family. *)
Class Operator := {
  dials : nat -> net_node -> bytes -> Z -> option ptr;
  mining_clock : nat -> nat -> Z;
  rand_at : nat -> nat -> Z;
  indeterminate : nat -> nat -> Z;
  getaddrinfo : address_family -> bytes -> bool
}.

Definition IsValidIPv4 {operator : Operator} (ip : bytes) : bool := negb (is_empty ip) && getaddrinfo FAMILY_INET ip.
Definition IsValidIPv6 {operator : Operator} (ip : bytes) : bool := negb (is_empty ip) && getaddrinfo FAMILY_INET6 ip.

(** What a command prints: a fixed message, or the data of a report. *)
Inductive output :=
| Say (msg : string)
| SayVote (vote : Z)
| SayTxHash (hex : bytes)
| SayRawTx (hex : bytes)
| SayBalance (addrHex balanceStr : bytes)
| SayAllBalances (l : list (bytes * bytes))
| SayTransaction (calcHash : bytes) (tx : signed_transaction) (coinbase : bool)
| SayBlock (hdr : block_header) (txCount : Z) (canonicalHash powHash : bytes)
| SayConnect (ok : bool) (ip : bytes) (port : Z)
| SayPeers (peers : option (list discovered_peer * list sockaddr))
| SayVerdict (ok : bool)
| SayAddress (hex : bytes).

(** The vote of a node that was told nothing. *)
Definition DAG_VOTE_GROW : Z := 0.

Definition word_is (w : bytes) (s : string) : bool := bool_decide (w = text s).

(** The payment [send] signs. *)
Definition payment_of {ops : CryptoOps} (w : wallet) (recipientAddress : bytes) (amount fee now : Z) : signed_transaction :=
  Transaction_Sign
    (mkSigned (mkTx now fee amount 0 (minerAddress w) recipientAddress (zeros 32) (minerCompressedPubkey w) 1 (zeros 6)) (zeros 64))
    (minerPrivateKey w).

(** The bytes [sendrawtx] writes over the transaction; [continue] belongs to this loop, so a pair that is
    not a number leaves the byte as it was. *)
Fixpoint decode_raw (old : nat -> Z) (i : nat) (rawTxHex : bytes) : bytes :=
  match rawTxHex with
  | hi :: lo :: r => default (u8 (old i)) (parse_hex_byte hi lo) :: decode_raw old (S i) r
  | _ => []
  end.

Section Commands.
Context {ops : CryptoOps} `{AddrText} {env : Environment} {operator : Operator} (clock : node -> nat -> Z) (cfg : config).

#[local] Instance sockets_at (n : nat) : Sockets := {| sock := takes n; dial := dials n |}.

Definition say (msg : string) : prog (list output) := ret [Say msg].

(** A change of the chain and its files. *)
Definition on_store {A} (f : store -> A * store) : prog A :=
  access (fun _ s => let '(x, y) := f (sy_store s) in (x, with_store s y)).
Definition on_chain {A} (f : node -> A * node) : prog A :=
  on_store (fun x => let '(r, st) := f (st_chain x) in (r, mkStore st (st_orphans x) (st_sheetFile x))).

Definition flush : prog bool := on_store FlushChainAndSheet.

(** ** [mine] *)

(** The block of one round: selection, target, header, reward and coinbase are read one after another. *)
Definition build_block (g_dagVote : Z) (minerAddress : bytes) : prog (option block) :=
  let* sel := look (fun _ s => BuildSpendableMempoolSelection (chain_of s)) in
  let* target := look (fun _ s => Chain_GetTargetForHeight (blocks (chain_of s)) (Z.of_nat (Chain_Size (chain_of s)))) in
  let* b := look_now (fun now s => BuildNextBlock (chain_of s) g_dagVote target now) in
  let* coinbaseAmount := look (fun _ s => g_currentReward (chain_of s)) in
  if UINT64_MAX - coinbaseAmount <? sel.2 then ret None
  else
    let* now := get_current_time_ms in
    ret (Some (fold_left Block_AddTransaction sel.1 (AddCoinbaseTransaction b minerAddress (coinbaseAmount +u64 sel.2) now))).

(** [MineAndAppendBlock], with the nonce search outside the chain's lock. *)
Definition mine_and_append (fuel : nat) (b : block) : prog bool :=
  let b := set_merkleRoot (merkle_root (default [] (transactions b))) b in
  let* n := look (fun n _ => n) in
  let* mined := on_chain (fun st => match MineBlock fuel (mining_clock n) st b with
                                    | Some (ok, st', b') => (Some (ok, b'), st')
                                    | None => (None, st)
                                    end) in
  match mined with
  | None => out_of_fuel
  | Some (false, _) => ret false
  | Some (true, b) =>
      let* added := on_chain (fun st => Chain_AddBlock st b) in
      if negb added then ret false
      else
        let* attached := attempt_attach clock false in
        (if (0 <? attached)%nat then on_store (fun x => (tt, persist_store x)) else ret tt) ;;
        on_chain (fun st => (tt, snd (Chain_DagParamsForHeight st (blockNumber (header b))))) ;;
        ret true
  end.

(** [for (i = 0; i < requested; ++i)]: whether all blocks were mined. *)
Fixpoint mine_blocks (rounds fuel : nat) (g_dagVote : Z) (minerAddress : bytes) (i requested : Z) : prog bool :=
  if requested <=? i then ret true
  else
    match rounds with
    | O => out_of_fuel
    | S rounds =>
        let* b := build_block g_dagVote minerAddress in
        match b with
        | None => ret false
        | Some b =>
            let* ok := mine_and_append fuel b in
            if negb ok then ret false
            else
              let* size := chain_size in
              access (fun n s => (tt, Node_BroadcastChainRange (sockets := sockets_at n) s (size -u64 1) None)) ;;
              (if i mod 50 =? 0 then flush else ret true) ;;
              mine_blocks rounds fuel g_dagVote minerAddress (i + 1) requested
        end
    end.

Definition do_mine (fuel : nat) (w : wallet) (g_dagVote : Z) (line : bytes) : prog (list output) :=
  match fst (next_word line) with
  | None => say "usage: mine <x>"
  | Some blocksStr =>
      match parse_count blocksStr with
      | None => say "invalid block count"
      | Some requested =>
          let* minedAll := mine_blocks fuel fuel g_dagVote (minerAddress w) 0 requested in
          if minedAll : bool then flush ;; say "mine finished and chain flushed" else ret []
      end
  end.

(** ** Sending *)

(** Admission to the pool, the hash, and the announcement: what [send] and [sendrawtx] share. *)
Definition pool_transaction (tx : signed_transaction) (broadcast : bool) : prog (list output) :=
  let* now := get_current_time_ms in
  if negb (TxMempool_PolicyAccepts tx now) then say "transaction timestamp is outside the accepted window, not sending"
  else
    let* rc := on_chain (fun st => let '(rc, pool) := TxMempool_Insert (g_txMempool st) tx in (rc, set_pool st pool)) in
    if rc <? 0 then say "failed to add transaction to mempool, transaction rejected"
    else if broadcast then
      access (fun n s => (tt, Node_BroadcastTransaction (sockets := sockets_at n) s tx None)) ;;
      ret [SayTxHash (to_hex (Transaction_CalculateHash tx)); Say "transaction broadcast to peers"]
    else ret [SayTxHash (to_hex (Transaction_CalculateHash tx)); SayRawTx (to_hex (signed_transaction_bytes tx))].

(** The words of [send]: recipient, amount, fee, broadcast; or the message that refuses them. *)
Definition parse_send (line : bytes) : string + (bytes * Z * Z * bool) :=
  let '(addressStr, line) := next_word line in
  let '(amountStr, line) := next_word line in
  let '(feeStr, line) := next_word line in
  let '(broadcastStr, _) := next_word line in
  match addressStr, amountStr with
  | Some addressStr, Some amountStr =>
      match ParseHexAddress32 addressStr with
      | None => inl "invalid address"%string
      | Some recipientAddress =>
          match parse_count amountStr with
          | None | Some 0 => inl "invalid amount"%string
          | Some amount =>
              match match feeStr with None => Some 0 | Some feeStr => parse_count feeStr end with
              | None => inl "invalid fee"%string
              | Some fee =>
                  match match broadcastStr with
                        | None => Some true
                        | Some s => if word_is s "false" then Some false else if word_is s "true" then Some true else None
                        end with
                  | None => inl "invalid broadcast value: expected true or false"%string
                  | Some broadcast =>
                      if UINT64_MAX - amount <? fee then inl "invalid fee: overflow"%string
                      else inr (recipientAddress, amount, fee, broadcast)
                  end
              end
          end
      end
  | _, _ => inl "usage: send <address> <amount> [fee, default=0] [broadcast (true/false), default=true]"%string
  end.

(** The balance is compared with the amount alone; the block built here is not used. *)
Definition do_send (w : wallet) (g_dagVote : Z) (line : bytes) : prog (list output) :=
  match parse_send line with
  | inl msg => say msg
  | inr (recipientAddress, amount, fee, broadcast) =>
      let* senderEntry := look (fun _ s => BalanceSheet_Lookup (g_sheetMap (chain_of s)) (minerAddress w)) in
      match senderEntry with
      | None => say "send failed: miner address has no balance"
      | Some senderEntry =>
          if uint256_cmp (balance senderEntry) (uint256_from_u64 amount) <? 0 then say "send failed: insufficient balance"
          else
            let* target := look (fun _ s => Chain_GetTargetForHeight (blocks (chain_of s)) (Z.of_nat (Chain_Size (chain_of s)))) in
            let* unused := look_now (fun now s => BuildNextBlock (chain_of s) g_dagVote target now) in
            let* now := get_current_time_ms in
            pool_transaction (payment_of w recipientAddress amount fee now) broadcast
      end
  end.

Definition do_sendrawtx (line : bytes) : prog (list output) :=
  match fst (next_word line) with
  | None => say "usage: sendrawtx <raw transaction hex>"
  | Some rawTxHex =>
      if negb (length rawTxHex =? 2 * SIZEOF_SIGNED_TRANSACTION)%nat then say "invalid raw transaction hex length"
      else
        let* old := look (fun n _ => indeterminate n) in
        match read_signed_transaction (decode_raw old 0 rawTxHex) with
        | None => ret []
        | Some (tx, _) =>
            if negb (Transaction_Verify tx) then say "invalid transaction" else pool_transaction tx true
        end
  end.

(** ** Reports *)

Definition do_txpooldetail (line : bytes) : prog (list output) :=
  match fst (next_word line) with
  | None => say "usage: txpooldetail <txhash>"
  | Some hashStr =>
      match ParseHexAddress32 hashStr with
      | None => say "invalid tx hash: expected 64 hex chars"
      | Some txHash =>
          let* tx := look (fun _ s => TxMempool_Lookup (g_txMempool (chain_of s)) txHash) in
          match tx with
          | None => say "transaction not found in mempool"
          | Some tx => ret [SayTransaction (Transaction_CalculateHash tx) tx (Address_IsCoinbase (senderAddress (stx tx)))]
          end
      end
  end.

Definition ComputeHistoricalAutolykosHashFromDisk (files : option chain_files) (blockHeight : Z) (b : block) : option bytes :=
  let '(loaded, _, headerChain) := Chain_LoadFromFile files [] false in
  if loaded : bool then fst (ComputeHistoricalAutolykosHashFromChain headerChain [] b blockHeight) else None.

Definition do_blockdetail (line : bytes) : prog (list output) :=
  let '(blockNumberStr, line) := next_word line in
  let '(extra, _) := next_word line in
  match blockNumberStr, extra with
  | Some blockNumberStr, None =>
      match parse_count blockNumberStr with
      | None => say "invalid block number"
      | Some requestedBlock =>
          let* detail := look (fun _ s => Chain_LoadBlockFromFile (g_files (chain_of s)) requestedBlock false) in
          match detail with
          | None => say "block not found"
          | Some (detailBlock, txCount) =>
              let* powHash := look (fun _ s => ComputeHistoricalAutolykosHashFromDisk (g_files (chain_of s)) requestedBlock detailBlock) in
              match powHash with
              | None => say "failed to calculate block proof hash"
              | Some powHash => ret [SayBlock (header detailBlock) txCount (Block_CalculateHash detailBlock) powHash]
              end
          end
      end
  | _, _ => say "usage: blockdetail <block number>"
  end.

(** The address of every entry and its balance. *)
Definition BalanceSheet_Print (m : sheet) : list (bytes * bytes) :=
  map (fun p => (to_hex p.1, uint256_serialize (balance p.2))) (map_to_list m).

Definition do_balance (w : wallet) (line : bytes) : prog (list output) :=
  let '(addressStr, line) := next_word line in
  let '(extra, _) := next_word line in
  match extra with
  | Some _ => say "usage: balance [address]"
  | None =>
      let report (addr : bytes) :=
        let* entry := look (fun _ s => BalanceSheet_Lookup (g_sheetMap (chain_of s)) addr) in
        let value := match entry with Some e => balance e | None => uint256_from_u64 0 end in
        ret [SayBalance (to_hex addr) (Uint256ToDecimal value 80)] in
      match addressStr with
      | None => report (minerAddress w)
      | Some addressStr =>
          if word_is addressStr "all" then let* l := look (fun _ s => BalanceSheet_Print (g_sheetMap (chain_of s))) in ret [SayAllBalances l]
          else match ParseHexAddress32 addressStr with
               | None => say "invalid address"
               | Some addr => report addr
               end
      end
  end.

Definition do_connect (line : bytes) : prog (list output) :=
  let '(ipStr, line) := next_word line in
  let '(portStr, line) := next_word line in
  let '(extra, _) := next_word line in
  match ipStr, extra with
  | Some ipStr, None =>
      if negb (IsValidIPv4 ipStr) && negb (IsValidIPv6 ipStr) then say "invalid IPv4 or IPv6 address"
      else
        match match portStr with None => Some (g_listenPort cfg) | Some portStr => parse_port portStr end with
        | None => say "invalid port"
        | Some peerPort =>
            let* rc := access (fun n s => Node_ConnectPeer (sockets := sockets_at n) cfg s ipStr peerPort) in
            ret [SayConnect (rc =? 0) ipStr peerPort]
        end
  | _, _ => say "usage: connect <ipv4/ipv6> [port]"
  end.

Definition do_peers (line : bytes) : prog (list output) :=
  match fst (next_word line) with
  | Some _ => say "usage: peers"
  | None => let* d := look (fun _ s => d ← sy_disc s; Some (d_peers d, d_self d)) in ret [SayPeers d]
  end.

Definition do_sync (fuel : nat) (line : bytes) : prog (list output) :=
  match fst (next_word line) with
  | None => sync clock fuel false ;; ret []
  | Some syncArg => if word_is syncArg "force" then sync clock fuel true ;; ret [] else say "usage: sync [force]"
  end.

Definition do_flushchain : prog (list output) :=
  let* saved := flush in
  if saved : bool then say "chain flushed" else ret [].

Definition do_fullverify : prog (list output) :=
  let* ok := look (fun _ s => fullverify (g_files (chain_of s)) (g_currentReward (chain_of s))) in ret [SayVerdict ok].

Definition do_wipechain : prog (list output) :=
  on_store (fun x => (tt, wipechain x)) ;; say "chain data wiped".

Definition do_genaddr : prog (list output) :=
  let* id := look (fun n _ => GenerateRandomTestAddress (rand_at n) 0) in
  match id with
  | None => say "failed to generate address"
  | Some w => ret [SayAddress (to_hex (minerAddress w))]
  end.

(** The new vote, and the answer. *)
Definition do_dagvote (g_dagVote : Z) (line : bytes) : Z * list output :=
  match fst (next_word line) with
  | None => (g_dagVote, [SayVote g_dagVote; Say "usage: dagvote <grow|hold|down>"])
  | Some voteStr =>
      if word_is voteStr "grow" then (DAG_VOTE_GROW, [SayVote DAG_VOTE_GROW])
      else if word_is voteStr "hold" then (DAG_VOTE_HOLD, [SayVote DAG_VOTE_HOLD])
      else if word_is voteStr "down" then (DAG_VOTE_DOWN, [SayVote DAG_VOTE_DOWN])
      else (g_dagVote, [Say "usage: dagvote <grow|hold|down>"])
  end.

(** ** The loop *)

(** Every command but [dagvote] and [exit]. *)
Definition run_command (fuel : nat) (w : wallet) (g_dagVote : Z) (cmd line : bytes) : prog (list output) :=
  if word_is cmd "mine" then do_mine fuel w g_dagVote line
  else if word_is cmd "send" then do_send w g_dagVote line
  else if word_is cmd "sendrawtx" then do_sendrawtx line
  else if word_is cmd "sync" then do_sync fuel line
  else if word_is cmd "txpooldetail" then do_txpooldetail line
  else if word_is cmd "blockdetail" then do_blockdetail line
  else if word_is cmd "balance" then do_balance w line
  else if word_is cmd "connect" then do_connect line
  else if word_is cmd "peers" then do_peers line
  else if word_is cmd "flushchain" then do_flushchain
  else if word_is cmd "fullverify" then do_fullverify
  else if word_is cmd "wipechain" then do_wipechain
  else if word_is cmd "genaddr" then do_genaddr
  else say "Unknown command".

Definition end_of_line (c : Z) : bool := (c =? 13) || (c =? 10).
Definition LINE_SIZE : nat := 1024.

(** [while (true)], with [lines] rounds to go: what was printed. *)
Fixpoint command_loop (lines fuel : nat) (w : wallet) (g_dagVote : Z) (input : bytes) : prog (list output) :=
  match lines with
  | O => out_of_fuel
  | S lines =>
      match fgets LINE_SIZE input with
      | None => ret []
      | Some (line, input) =>
          match strtok (cut_at end_of_line (c_string line)) with
          | None => command_loop lines fuel w g_dagVote input
          | Some (cmd, rest) =>
              if word_is cmd "dagvote" then
                let '(g_dagVote, out) := do_dagvote g_dagVote rest in
                let* more := command_loop lines fuel w g_dagVote input in ret (out ++ more)
              else if word_is cmd "exit" || word_is cmd "quit" then ret []
              else
                let* out := run_command fuel w g_dagVote cmd rest in
                let* more := command_loop lines fuel w g_dagVote input in ret (out ++ more)
          end
      end
  end.

(** The loop on the whole input, then the flush and the shutdown. *)
Definition console (fuel : nat) (w : wallet) (input : bytes) : prog (list output) :=
  let* out := command_loop (S (length input)) fuel w DAG_VOTE_GROW input in
  flush ;;
  on_chain (fun st => (tt, set_pow st (Block_ShutdownPowContext (g_pow st)))) ;;
  access (fun _ s => (tt, Node_Destroy s)) ;;
  ret out.
End Commands.
