(* ===== verification/ConsoleTheorems.v ===== *)
(** * Properties of the command loop

    Whatever is typed, the chain moves only by appends, branch replacements and saves, by the wipe where
    [wipechain] is typed, and by the emptying of the pool at shutdown; a payment printed as hexadecimal by [send] is pooled unchanged by
    [sendrawtx]; and what the two commands let through although they should not. *)
From Stdlib Require Import String.
From S2P Require Import Prelude Bytes UInt256 Utils Crypto Transaction Autolykos2 Block Emission.
From S2P Require Import BalanceSheet Ledger Difficulty DagEpochs Mempool Storage Chain ChainInvariant ChainTheorems OrphanPool.
From S2P Require Import Framing Deliveries Peers UdpNode Discovery Protocol ProtocolTheorems NetNode NetInvariant NetTheorems.
From S2P Require Import FullVerify Startup Miner Sync CommandLine Identity Console.
#[local] Open Scope sync_scope.

(** ** Reading lines *)

Lemma read_line_consumes k input : (0 < k)%nat -> input <> [] -> (length (snd (read_line k input)) < length input)%nat.
Proof.
  revert input; induction k as [|k IH]; intros input Hk Hi; [lia|]. destruct input as [|c r]; [done|]. cbn [read_line].
  destruct (c =? 10); [cbn; lia|]. destruct k as [|k]; [cbn; lia|]. destruct r as [|d r]; [cbn; lia|].
  specialize (IH (d :: r) ltac:(lia) ltac:(done)). destruct (read_line (S k) (d :: r)). cbn in *. lia.
Qed.

Lemma fgets_consumes n input line rest : (1 < n)%nat -> fgets n input = Some (line, rest) -> (length rest < length input)%nat.
Proof.
  intros Hn. unfold fgets. destruct input as [|c r]; [done|]. intros Hs. apply (inj Some) in Hs.
  pose proof (read_line_consumes (n - 1) (c :: r) ltac:(lia) ltac:(done)) as Hl. by rewrite Hs in Hl.
Qed.

(** The text of [read_line] and the rest are the input. *)
Lemma read_line_app k input : fst (read_line k input) ++ snd (read_line k input) = input.
Proof.
  revert input; induction k as [|k IH]; intros [|c r]; cbn [read_line]; [done..|]. destruct (c =? 10); [done|].
  specialize (IH r). destruct (read_line k r). cbn in *. by rewrite IH.
Qed.

(** ** The chain under the command loop *)

(** The wipe is among the moves only where [wipes] says so. *)
Inductive chain_move {ops : CryptoOps} (wipes : bool) : node -> node -> Prop :=
| move_step st st' : live_step st st' -> chain_move wipes st st'
| move_wipe x : wipes = true -> chain_move wipes (st_chain x) (st_chain (wipechain x))
| move_shutdown st : chain_move wipes st (set_pool st TxMempool_Init).

Lemma chain_move_ok {ops : CryptoOps} {laws : CryptoLaws ops} wipes st st' : chain_move wipes st st' -> node_ok st -> node_ok st'.
Proof.
  intros [a b Hs|x _|a] Hok; [by apply (node_step_ok a b); [apply live_node_step|]| |exact Hok].
  split; [apply consensus_nil|]. split; [apply coherent_nil|]. apply Hok.
Qed.

Lemma chain_moves_ok {ops : CryptoOps} {laws : CryptoLaws ops} wipes st st' : rtc (chain_move wipes) st st' -> node_ok st -> node_ok st'.
Proof. induction 1 as [|x y z Hs _ IH]; [done|]. intros Hx. by apply IH, (chain_move_ok wipes x y). Qed.

Lemma unwiped_outcome {ops : CryptoOps} {laws : CryptoLaws ops} st st' :
  rtc (chain_move false) st st' -> node_ok st -> outcome (chain_move false) st st'.
Proof.
  apply outcome_rtc. intros x y Hs Hok. split; [by apply (chain_move_ok false x y)|].
  destruct Hs as [x y Hs|x Hx|x]; [by apply live_step_outcome|done|by apply same_blocks_outcome].
Qed.

(** The first words of the lines the loop reads, up to [exit] or the end of the input. *)
Fixpoint words_typed (lines : nat) (input : bytes) : list bytes :=
  match lines with
  | O => []
  | S lines =>
      match fgets LINE_SIZE input with
      | None => []
      | Some (line, input) =>
          match strtok (cut_at end_of_line (c_string line)) with
          | None => words_typed lines input
          | Some (cmd, _) => if word_is cmd "exit" || word_is cmd "quit" then [cmd] else cmd :: words_typed lines input
          end
      end
  end.

Definition wipe_typed (lines : nat) (input : bytes) : bool := existsb (fun cmd => word_is cmd "wipechain") (words_typed lines input).

Section Unchanged.
Context {ops : CryptoOps} `{AddrText} {sockets : Sockets} (cfg : config).

Lemma connect_chain s ip port : chain_of (snd (Node_ConnectPeer cfg s ip port)) = chain_of s.
Proof.
  unfold Node_ConnectPeer. destruct (match NetNode_MakeEndpoint ip _, sy_disc s with Some t, Some d => _ | _, _ => _ end); [done|].
  destruct (match NetNode_MakeEndpoint ip _ with Some t => _ | None => _ end); [done|]. destruct (first_index _ _ _) as [i|]; [|done].
  destruct (TcpClient_Connect _ _ _ _ _) as [rc n]. by destruct (if rc =? 0 then _ else None).
Qed.

Lemma range_chain s h src : chain_of (Node_BroadcastChainRange s h src) = chain_of s.
Proof. unfold Node_BroadcastChainRange. by destruct (_ <=? _). Qed.

Lemma disconnect_chain s p : chain_of (Node_HandlePeerDisconnect s p) = chain_of s.
Proof.
  unfold Node_HandlePeerDisconnect. destruct (mbind _ _) as [[c ep]|]; [|done]. destruct (Node_HasLiveConnectionTo _ _ _ _); [done|]. apply on_disc_chain.
Qed.

Lemma destroy_outbound_chain s p : chain_of (destroy_outbound s p) = chain_of s.
Proof.
  unfold destroy_outbound. set (s1 := close s p). change (chain_of s) with (chain_of s1). destruct (conns (sy_net s1) !! p) as [c|]; [|done].
  destruct (disconnectedNotified c); [done|]. exact (disconnect_chain _ p).
Qed.

Lemma stop_client_chain s p : chain_of (stop_client s p) = chain_of s.
Proof.
  unfold stop_client. set (s1 := close s p). change (chain_of s) with (chain_of s1). destruct (conns (sy_net s1) !! p) as [c|]; [|done].
  destruct (disconnectedNotified c); [done|]. exact (disconnect_chain _ p).
Qed.

Lemma fold_chain (f : system -> ptr -> system) l s : (forall s p, chain_of (f s p) = chain_of s) -> chain_of (fold_left f l s) = chain_of s.
Proof. intros Hf. revert s; induction l as [|p l IH]; intros s; [done|]. cbn [fold_left]. by rewrite IH, Hf. Qed.

Lemma destroy_chain s : chain_of (Node_Destroy s) = set_pool (chain_of s) TxMempool_Init.
Proof.
  unfold Node_Destroy. cbv zeta. set (s1 := fold_left destroy_outbound _ _). change (chain_of (mkSys ?x _ _ _ _)) with (st_chain x). cbn [st_chain].
  change (set_pool (chain_of (TcpServer_Stop s1)) TxMempool_Init = set_pool (chain_of s) TxMempool_Init). f_equal.
  unfold TcpServer_Stop. rewrite fold_chain by apply stop_client_chain. unfold s1. change (chain_of (with_net ?a _)) with (chain_of a).
  rewrite fold_chain by apply destroy_outbound_chain. done.
Qed.
End Unchanged.

Section Safety.
Context {ops : CryptoOps} `{AddrText} {alaws : AddrTextLaws _} {sockets : Sockets} {slaws : SocketLaws sockets} {env : Environment} {operator : Operator}.
Context (clock : node -> nat -> Z) (cfg : config).
Context (Hothers : forall n s, rtc (sys_step clock cfg) s (others n s)).

Context (wipes : bool).

Definition sound {A} (m : prog A) : Prop := forall w, rtc (chain_move wipes) (chain_of (w_sys w)) (chain_of (w_sys (snd (m w)))).

Lemma steps_moves st st' : rtc live_step st st' -> rtc (chain_move wipes) st st'.
Proof. induction 1 as [|x y z Hs _ IH]; [apply rtc_refl|]. eapply rtc_l; [by apply move_step|exact IH]. Qed.

Lemma sound_keeps {A} (m : prog A) : keeps m -> sound m.
Proof. intros Hm w. apply steps_moves, Hm. Qed.

Lemma sound_ret {A} (x : A) : sound (ret x).
Proof. intros w. apply rtc_refl. Qed.

Lemma sound_fuel {A} : sound (@out_of_fuel A).
Proof. intros w. apply rtc_refl. Qed.

Lemma sound_bind {A B} (m : prog A) (k : A -> prog B) : sound m -> (forall x, sound (k x)) -> sound (bind m k).
Proof.
  intros Hm Hk w. specialize (Hm w). unfold bind. destruct (m w) as [[x|] w1]; cbn [snd] in *; [|exact Hm]. etrans; [exact Hm|apply Hk].
Qed.

Lemma sound_access {A} (f : nat -> system -> A * system) :
  (forall n s, rtc (chain_move wipes) (chain_of s) (chain_of (snd (f n s)))) -> sound (access f).
Proof.
  intros Hf w. unfold access. specialize (Hf (w_access w) (others (w_access w) (w_sys w))). destruct (f _ _) as [x s]. cbn [snd w_sys] in *.
  etrans; [apply steps_moves, (run_moves clock cfg _ _ (Hothers (w_access w) (w_sys w)))|exact Hf].
Qed.

Lemma sound_look {A} (f : nat -> system -> A) : sound (look f).
Proof. apply sound_access. intros n s. apply rtc_refl. Qed.

Lemma sound_now {A} (f : Z -> system -> A) : sound (look_now f).
Proof. intros w. apply (sound_look (fun _ s => f (clock_of w) s) w). Qed.

Lemma sound_store {A} (f : store -> A * store) : (forall x, rtc (chain_move wipes) (st_chain x) (st_chain (snd (f x)))) -> sound (on_store f).
Proof. intros Hf. apply sound_access. intros n s. specialize (Hf (sy_store s)). by destruct (f (sy_store s)). Qed.

Lemma sound_chain {A} (f : node -> A * node) : (forall st, rtc live_step st (snd (f st))) -> sound (on_chain f).
Proof. intros Hf. apply sound_store. intros x. specialize (Hf (st_chain x)). destruct (f (st_chain x)). by apply steps_moves. Qed.

Lemma sound_flush : sound flush.
Proof.
  apply sound_store. intros x. unfold FlushChainAndSheet. pose proof (live_save (st_chain x)) as Hs. destruct (node_save (st_chain x)) as [ok st].
  by apply rtc_once, move_step.
Qed.

Lemma mine_block_moves fuel mclock st b ok st' b' : MineBlock fuel mclock st b = Some (ok, st', b') -> rtc live_step st st'.
Proof.
  unfold MineBlock. pose proof (live_dag st (blockNumber (header b))) as Hd. destruct (Chain_DagParamsForHeight st _) as [params st1]. cbn [snd] in Hd.
  destruct params as [[n seed]|]; [|intros E; injection E as _ <- _; by apply rtc_once].
  destruct (mine_loop _ _ _ _ _ _) as [[ok1 b1]|]; [|done]. intros E. injection E as _ <- _.
  eapply rtc_l; [exact Hd|]. apply rtc_once, live_pow, step_ensure.
Qed.

Create HintDb console.
#[local] Hint Resolve sound_ret sound_fuel sound_look sound_now sound_flush : console.

(** Binds, branches and the accesses above. *)
Ltac sound_step :=
  cbv zeta; match goal with
  | |- sound (bind _ _) => apply sound_bind; [|intros]
  | |- sound (match ?x with _ => _ end) => destruct x
  | |- sound (let '(_, _) := ?x in _) => destruct x
  end.
Ltac sounds := repeat sound_step; auto with console.

Lemma sound_build vote addr : sound (build_block vote addr).
Proof. unfold build_block, get_current_time_ms. sounds. Qed.

Lemma sound_append fuel b : sound (mine_and_append clock fuel b).
Proof.
  unfold mine_and_append. apply sound_bind; [auto with console|]. intros n. apply sound_bind.
  { apply sound_chain. intros st. destruct (MineBlock _ _ _ _) as [[[ok st'] b']|] eqn:E; [by eapply mine_block_moves|apply rtc_refl]. }
  intros [[[] b']|]; [|auto with console..]. apply sound_bind; [apply sound_chain; intros st; apply rtc_once, live_add|].
  intros []; cbn [negb]; [|auto with console]. apply sound_bind; [by apply sound_keeps, (keeps_attach clock cfg)|]. intros attached.
  apply sound_bind.
  { destruct (0 <? attached)%nat; [|auto with console]. apply sound_store. intros x. apply rtc_once, move_step, live_save. }
  intros _. apply sound_bind; [apply sound_chain; intros st; apply rtc_once, live_dag|auto with console].
Qed.
#[local] Hint Resolve sound_build sound_append : console.

Lemma sound_mine rounds fuel vote addr i requested : sound (mine_blocks clock rounds fuel vote addr i requested).
Proof.
  revert i; induction rounds as [|r IH]; intros i; cbn [mine_blocks]; destruct (requested <=? i); auto with console.
  unfold chain_size. sounds. apply sound_access. intros n s. cbn [snd]. rewrite range_chain. apply rtc_refl.
Qed.

Lemma sound_pool tx broadcast : sound (pool_transaction tx broadcast).
Proof.
  unfold pool_transaction, get_current_time_ms, say. apply sound_bind; [auto with console|]. intros now. destruct (negb _); [auto with console|].
  apply sound_bind; [apply sound_chain; intros st; apply rtc_once, (live_pool st), pool_insert|]. intros rc. sounds.
  apply sound_access. intros n s. apply rtc_refl.
Qed.
#[local] Hint Resolve sound_mine sound_pool : console.

Lemma sound_command fuel w vote cmd line :
  (word_is cmd "wipechain" = true -> wipes = true) -> sound (run_command clock cfg fuel w vote cmd line).
Proof.
  intros Hw.
  unfold run_command, do_mine, do_send, do_sendrawtx, do_sync, do_txpooldetail, do_blockdetail, do_balance, do_connect, do_peers, do_flushchain,
    do_fullverify, do_wipechain, do_genaddr, say, get_current_time_ms.
  assert (Hsync : forall force, sound (sync clock fuel force)) by (intros force; by apply sound_keeps, (keeps_sync clock cfg)).
  repeat match goal with |- sound (if word_is cmd ?c then _ else _) => destruct (word_is cmd c) eqn:? end; sounds.
  - apply sound_access. intros n s. rewrite connect_chain. apply rtc_refl.
  - apply sound_store. intros x. by apply rtc_once, move_wipe, Hw.
Qed.

Lemma sound_loop lines fuel w vote input :
  (wipe_typed lines input = true -> wipes = true) -> sound (command_loop clock cfg lines fuel w vote input).
Proof.
  unfold wipe_typed. revert vote input; induction lines as [|n IH]; intros vote input Hw; cbn [command_loop words_typed] in *; [auto with console|].
  destruct (fgets LINE_SIZE input) as [[line rest]|]; [|auto with console].
  destruct (strtok (cut_at end_of_line (c_string line))) as [[cmd r]|]; [|by apply IH].
  destruct (word_is cmd "dagvote") eqn:Ed.
  - assert (Hx : word_is cmd "exit" || word_is cmd "quit" = false) by (unfold word_is in *; by repeat case_bool_decide; simplify_eq).
    rewrite Hx in Hw. cbn [existsb] in Hw. destruct (do_dagvote vote r) as [v out]. apply sound_bind; [|auto with console].
    apply IH. intros E. apply Hw. by rewrite E, orb_true_r.
  - destruct (word_is cmd "exit" || word_is cmd "quit"); [auto with console|]. cbn [existsb] in Hw.
    apply sound_bind; [apply sound_command; intros E; apply Hw; by rewrite E|]. intros out. apply sound_bind; [|auto with console].
    apply IH. intros E. apply Hw. by rewrite E, orb_true_r.
Qed.

Lemma sound_console fuel w input :
  (wipe_typed (S (length input)) input = true -> wipes = true) -> sound (console clock cfg fuel w input).
Proof.
  intros Hw. unfold console. apply sound_bind; [by apply sound_loop|]. intros out. apply sound_bind; [auto with console|]. intros _.
  apply sound_bind; [apply sound_chain; intros st; apply rtc_once, live_pow, step_shutdown|]. intros _. apply sound_bind; [|auto with console].
  apply sound_access. intros n s. cbn [snd]. rewrite destroy_chain. apply rtc_once, move_shutdown.
Qed.
End Safety.

(** ** Numbers *)

Lemma digit_of_digit base d : 0 <= d < base -> base <= 16 -> digit_of base (hex_digit d) = Some d.
Proof.
  intros Hd Hb. unfold digit_of. rewrite hex_value_digit by lia.
  by rewrite (proj2 (Z.leb_le 0 d)), (proj2 (Z.ltb_lt d base)) by lia.
Qed.

Lemma hex_byte_roundtrip b : is_u8 b -> parse_hex_byte (hex_digit (Z.shiftr b 4)) (hex_digit (Z.land b 15)) = Some b.
Proof.
  intros Hb. assert (Hall : Forall (fun b => parse_hex_byte (hex_digit (Z.shiftr b 4)) (hex_digit (Z.land b 15)) = Some b) (seqZ 0 256))
    by vm_decide.
  rewrite list.Forall_forall in Hall. apply Hall, elem_of_seqZ. unfold is_u8 in Hb. lia.
Qed.

(** A decimal numeral, whatever its length, is read as its value or as 2^64 - 1. *)
Lemma scan_digits s acc any : Forall is_digit s ->
  scan 10 acc any s = (acc * 10 ^ Z.of_nat (length s) + dec_val s, any || negb (is_empty s), []).
Proof.
  revert acc any; induction s as [|c r IH]; intros acc any Hs; cbn [scan is_empty negb].
  { rewrite orb_false_r. f_equal. f_equal. cbn. lia. }
  apply Forall_cons_iff in Hs as [Hc Hr]. unfold is_digit in Hc. assert (Hd : digit_of 10 c = Some (c - 48)).
  { rewrite <- (digit_of_digit 10 (c - 48)) by lia. f_equal. unfold hex_digit. rewrite (proj2 (Z.ltb_lt _ _)) by lia. lia. }
  rewrite Hd, IH by done. cbn [orb]. rewrite orb_true_r. f_equal. f_equal. unfold dec_val. cbn [rev].
  rewrite dec_val_lsf_app, length_rev. cbn [length dec_val_lsf]. rewrite Nat2Z.inj_succ, Z.pow_succ_r by lia. unfold dec_val_lsf. lia.
Qed.

Lemma parse_count_decimal s : s <> [] -> Forall is_digit s -> parse_count s = Some (Z.min (dec_val s) UINT64_MAX).
Proof.
  intros Hne Hs. destruct s as [|c r]; [done|]. pose proof Hs as Hd. apply Forall_cons_iff in Hd as [Hc _]. unfold is_digit in Hc.
  assert (Hsp : skip isspace (c :: r) = c :: r).
  { cbn [skip]. unfold isspace. rewrite (proj2 (Z.eqb_neq c 32)), (proj2 (Z.leb_gt c 13)) by lia. by rewrite andb_false_r. }
  assert (Hsg : sign_of (c :: r) = (false, c :: r)).
  { cbn [sign_of]. by rewrite (proj2 (Z.eqb_neq c 43)), (proj2 (Z.eqb_neq c 45)) by lia. }
  assert (Hpf : skip_prefix 10 (c :: r) = c :: r) by (by destruct r as [|x [|d r]]).
  assert (Hm : starts_with_minus (c :: r) = false) by (by apply Z.eqb_neq; lia).
  unfold parse_count, strtoull, strto. rewrite Hsp, Hsg, Hpf, scan_digits by done. cbn [is_empty negb orb]. rewrite Hm. cbn [orb]. f_equal.
  rewrite Z.mul_0_l, Z.add_0_l. destruct (Z.ltb_spec UINT64_MAX (dec_val (c :: r))); lia.
Qed.

(** ** Sending when the other threads rest *)

Definition quiet (env : Environment) : Prop := forall n s, others n s = s.

(** The system with a transaction put into its pool. *)
Definition pooled {ops : CryptoOps} (tx : signed_transaction) (s : system) : system :=
  let x := sy_store s in
  with_store s (mkStore (set_pool (st_chain x) (<[Transaction_CalculateHash tx := tx]> (g_txMempool (st_chain x)))) (st_orphans x) (st_sheetFile x)).

Section Sending.
Context {ops : CryptoOps} {laws : CryptoLaws ops}.

Lemma look_quiet {env : Environment} {A} (f : nat -> system -> A) w :
  quiet env -> look f w = (Some (f (w_access w) (w_sys w)), mkWorld (w_sys w) (S (w_access w)) (w_slept w)).
Proof. intros Hq. unfold look, access. by rewrite Hq. Qed.

Lemma now_quiet {env : Environment} {A} (f : Z -> system -> A) w :
  quiet env -> look_now f w = (Some (f (clock_of w) (w_sys w)), mkWorld (w_sys w) (S (w_access w)) (w_slept w)).
Proof. intros Hq. apply (look_quiet (fun _ s => f (clock_of w) s) w Hq). Qed.

(** The world after [n] accesses that changed nothing. *)
Definition later (n : nat) (w : world) : world := mkWorld (w_sys w) (n + w_access w) (w_slept w).

Lemma bind_some {A B} (m : prog A) (k : A -> prog B) w x w' : m w = (Some x, w') -> bind m k w = k x w'.
Proof. intros E. unfold bind. by rewrite E. Qed.

(** Pooling an acceptable transaction: what is printed, and the chain's side of the state. *)
Lemma pool_quiet {env : Environment} {operator : Operator} tx broadcast w :
  quiet env -> TxMempool_PolicyAccepts tx (clock_of w) = true ->
  exists w', pool_transaction tx broadcast w =
    (Some [SayTxHash (to_hex (Transaction_CalculateHash tx));
           if broadcast then Say "transaction broadcast to peers" else SayRawTx (to_hex (signed_transaction_bytes tx))], w') /\
    sy_store (w_sys w') = sy_store (pooled tx (w_sys w)).
Proof.
  intros Hq Hp. unfold pool_transaction, get_current_time_ms. rewrite (bind_some _ _ _ _ _ (now_quiet _ w Hq)), Hp. cbn [negb].
  unfold on_chain, on_store. unfold bind at 1, access at 1. cbn [w_access w_sys]. rewrite Hq. cbn [TxMempool_Insert fst snd]. cbv zeta.
  destruct (g_txMempool _ !! _); cbn [Z.ltb Z.compare]; (destruct broadcast; [unfold bind, access; cbn [w_access w_sys]; rewrite Hq|]; by eexists).
Qed.

Lemma payment_sized w r amount fee now :
  wallet_ok w -> bytes_n 32 r -> is_u64 amount -> is_u64 fee -> is_u64 now -> stx_ok (payment_of w r amount fee now).
Proof.
  intros Hw Hr Ha Hf Hn. unfold payment_of, Transaction_Sign. cbn [stx]. split; cbn [stx stx_signature].
  - unfold tx_ok. cbn. repeat match goal with |- _ /\ _ => split end; try done; try vm_decide; [|apply Hw].
    rewrite (wallet_addr w Hw). apply sha256_size.
  - unfold Crypto_SignData. rewrite (wallet_key w Hw). cbn [negb]. destruct (wallet_signs w Hw (SHA256 (Transaction_CalculateHash
      (mkSigned (mkTx now fee amount 0 (minerAddress w) r (zeros 32) (minerCompressedPubkey w) 1 (zeros 6)) (zeros 64))))) as (s & -> & Hs). exact Hs.
Qed.

Lemma payment_verifies w r amount fee now :
  wallet_ok w -> bytes_n 32 r -> is_u64 amount -> is_u64 fee -> is_u64 now -> 0 < amount -> r <> COINBASE_ADDRESS ->
  Transaction_Verify (payment_of w r amount fee now) = (fee <=? amount).
Proof.
  intros Hw Hr Ha Hf Hn Hpos Hrc. set (t := mkTx now fee amount 0 (minerAddress w) r (zeros 32) (minerCompressedPubkey w) 1 (zeros 6)).
  assert (Hs : bytes_n 32 (minerAddress w)) by (rewrite (wallet_addr w Hw); apply sha256_size).
  destruct (Z.leb_spec fee amount) as [Hle|Hgt].
  - apply (signed_payment_verifies (mkSigned t (zeros 64)) (minerPrivateKey w)); try done; try apply Hw.
    + split; [|vm_decide]. unfold tx_ok, t. cbn. repeat match goal with |- _ /\ _ => split end; try done; try vm_decide. apply Hw.
    + destruct (wallet_signs w Hw (SHA256 (Transaction_CalculateHash (mkSigned t (zeros 64))))) as (s & -> & _). done.
  - unfold payment_of, Transaction_Sign, Transaction_Verify. cbn [stx]. cbn [senderAddress recipientAddress1 recipientAddress2 compressedPublicKey tx_amount1 tx_fee].
    rewrite (proj2 (coinbase_address_false _ (proj1 Hs)) (wallet_user w Hw)), (wallet_addr w Hw), (proj2 (memeq_true _ _) eq_refl). cbn [negb].
    destruct (amount =? 0); [done|]. by rewrite (proj2 (Z.ltb_lt _ _)) by lia.
Qed.
End Sending.

(** ** What the parsers let through *)

Lemma scan_nonneg base acc any s : 0 <= acc -> 0 <= base -> 0 <= (scan base acc any s).1.1.
Proof.
  intros Ha Hb. revert acc any Ha; induction s as [|c r IH]; intros acc any Ha; cbn [scan]; [done|].
  destruct (digit_of base c) as [d|] eqn:E; [|done]. apply IH. unfold digit_of in E.
  destruct (Z.leb_spec 0 (hex_value c)), (Z.ltb_spec (hex_value c) base); cbn [andb] in E; try done. injection E as <-. nia.
Qed.

Lemma strtoull_u64 s base : 0 <= base -> is_u64 (fst (strtoull s base)).
Proof.
  intros Hb. unfold strtoull, strto. destruct (sign_of _) as [neg t]. pose proof (scan_nonneg base 0 false (skip_prefix base t) ltac:(done) Hb) as Hs.
  destruct (scan base 0 false _) as [[v any] rest]. cbn [fst] in Hs.
  assert (Hv : forall neg v, 0 <= v -> is_u64 (if UINT64_MAX <? v then UINT64_MAX else if neg : bool then u64 (- v) else v)).
  { clear. intros neg v Hv. destruct (Z.ltb_spec UINT64_MAX v); [vm_decide|]. destruct neg; [apply u64_range|]. unfold is_u64, UINT64_MAX in *. lia. }
  destruct any; cbn [fst]; [by apply Hv|vm_decide].
Qed.

Lemma parse_count_u64 s n : parse_count s = Some n -> is_u64 n.
Proof.
  unfold parse_count. pose proof (strtoull_u64 s 10 ltac:(done)) as Hs. destruct (strtoull s 10) as [v e]. cbn [fst] in Hs.
  destruct (_ || _); [done|]. intros E. by injection E as <-.
Qed.

Lemma parse_pairs_ok s a : parse_hex_pairs s = Some a -> bytes_ok a /\ length s = (2 * length a)%nat.
Proof.
  revert a; induction s as [s IH] using (induction_ltof1 _ (@length Z)); unfold ltof in IH; intros a.
  destruct s as [|hi [|lo r]]; cbn [parse_hex_pairs]; [intros E; injection E as <-; by split; [constructor|]|done|].
  destruct (_ || _); [done|]. destruct (parse_hex_pairs r) as [t|] eqn:E; [|done]. cbn [mbind option_bind]. intros H. injection H as <-.
  destruct (IH r ltac:(cbn; lia) t E) as [Ht Hl]. split; [|cbn; lia]. apply Forall_cons_iff. split; [unfold is_u8, u8; zdiv|done].
Qed.

Lemma parse_address_size s a : ParseHexAddress32 s = Some a -> bytes_n 32 a.
Proof.
  unfold ParseHexAddress32. destruct (length (skip_0x s) =? 64)%nat eqn:El; [|done]. apply Nat.eqb_eq in El. cbn [negb].
  intros E. destruct (parse_pairs_ok _ _ E). split; [lia|done].
Qed.

Lemma parse_send_ok line r amount fee broadcast : parse_send line = inr (r, amount, fee, broadcast) ->
  bytes_n 32 r /\ is_u64 amount /\ 0 < amount /\ is_u64 fee /\ amount + fee <= UINT64_MAX.
Proof.
  unfold parse_send. destruct (next_word line) as [[a|] l1]; [|by destruct (next_word l1) as [? l2], (next_word l2) as [? l3], (next_word l3)].
  destruct (next_word l1) as [[n|] l2]; destruct (next_word l2) as [f l3], (next_word l3) as [b l4]; [|done].
  destruct (ParseHexAddress32 a) as [addr|] eqn:Ea; [|done]. destruct (parse_count n) as [amt|] eqn:En; [|done].
  assert (Hn := parse_count_u64 n amt En).
  assert (Hf : forall v, match f with Some feeStr => parse_count feeStr | None => Some 0 end = Some v -> is_u64 v).
  { intros v. destruct f as [f|]; [apply parse_count_u64|]. intros E. injection E as <-. vm_decide. }
  destruct (match f with Some feeStr => parse_count feeStr | None => Some 0 end) as [v|]; [|by destruct amt].
  specialize (Hf v eq_refl). destruct (match b with Some s => _ | None => _ end) as [br|]; [|by destruct amt].
  destruct (Z.ltb_spec (UINT64_MAX - amt) v); [by destruct amt|]. destruct amt as [|amt|amt]; [done| |unfold is_u64 in Hn; lia].
  intros E. injection E as <- <- <- <-. split; [by eapply parse_address_size|]. split; [done|]. split; [lia|]. split; [done|lia].
Qed.

(** ** Hexadecimal transactions *)

Lemma decode_to_hex old i bs : bytes_ok bs -> decode_raw old i (to_hex bs) = bs.
Proof.
  revert i; induction bs as [|b bs IH]; intros i Hb; [done|]. apply Forall_cons_iff in Hb as [Hb Hr].
  change (to_hex (b :: bs)) with (hex_digit (Z.shiftr b 4) :: hex_digit (Z.land b 15) :: to_hex bs). cbn [decode_raw].
  by rewrite (hex_byte_roundtrip b Hb), IH.
Qed.

Lemma decode_app old i a b : Nat.even (length a) = true -> decode_raw old i (a ++ b) = decode_raw old i a ++ decode_raw old (i + Nat.div2 (length a)) b.
Proof.
  revert i; induction a as [a IH] using (induction_ltof1 _ (@length Z)); unfold ltof in IH; intros i He.
  destruct a as [|x [|y a]]; [cbn; by rewrite Nat.add_0_r|done|]. cbn [app decode_raw]. f_equal.
  rewrite IH by (done || (cbn; lia)). do 2 f_equal. cbn [length Nat.div2]. lia.
Qed.

Lemma hex_digit_range v : 0 <= v < 16 -> 48 <= hex_digit v <= 102.
Proof. intros Hv. unfold hex_digit. zcases; lia. Qed.

(** A hexadecimal string is one word. *)
Lemma to_hex_chars bs : bytes_ok bs -> Forall (fun c => blank c = false) (to_hex bs).
Proof.
  induction bs as [|b bs IH]; intros Hb; [constructor|]. apply Forall_cons_iff in Hb as [Hb Hr].
  change (to_hex (b :: bs)) with (hex_digit (Z.shiftr b 4) :: hex_digit (Z.land b 15) :: to_hex bs).
  destruct (hex_pair b Hb) as (H1 & H2 & _).
  assert (Hx : forall v, 0 <= v < 16 -> blank (hex_digit v) = false).
  { intros v Hv. pose proof (hex_digit_range v Hv). unfold blank. by rewrite (proj2 (Z.eqb_neq _ 32)), (proj2 (Z.eqb_neq _ 9)) by lia. }
  constructor; [by apply Hx|]. constructor; [by apply Hx|by apply IH].
Qed.

Lemma next_word_plain s : s <> [] -> Forall (fun c => blank c = false) s -> next_word s = (Some s, []).
Proof.
  intros Hne Hs. assert (Hc : forall s, Forall (fun c => blank c = false) s -> cut_at blank s = s).
  { clear. induction s as [|c r IH]; intros Hs; [done|]. apply Forall_cons_iff in Hs as [Hc Hr]. cbn. by rewrite Hc, IH. }
  unfold next_word, strtok. destruct s as [|c r]; [done|]. pose proof Hs as H. apply Forall_cons_iff in H as [Hb _]. cbn [skip]. rewrite Hb.
  rewrite Hc by done. rewrite drop_ge by lia. done.
Qed.

(** ** The commands that send *)

Section Commands.
Context {ops : CryptoOps} {laws : CryptoLaws ops}.

(** A payment the balance covers reaches the pool, four accesses later. *)
Lemma send_quiet {env : Environment} {operator : Operator} w vote line r amount fee broadcast x e :
  quiet env -> parse_send line = inr (r, amount, fee, broadcast) ->
  BalanceSheet_Lookup (g_sheetMap (chain_of (w_sys x))) (minerAddress w) = Some e -> uint256_ok (balance e) -> amount <= val (balance e) ->
  do_send w vote line x =
    pool_transaction (payment_of w r amount fee (clock_of (later 3 x))) broadcast (later 4 x).
Proof.
  intros Hq Hp He Hb Ha. destruct (parse_send_ok _ _ _ _ _ Hp) as (_ & Hu & _). unfold do_send, get_current_time_ms. rewrite Hp.
  rewrite (bind_some _ _ _ _ _ (look_quiet _ x Hq)), He.
  assert (Hc : (uint256_cmp (balance e) (uint256_from_u64 amount) <? 0) = false).
  { apply Z.ltb_ge. pose proof (cmp_lt_iff (balance e) (uint256_from_u64 amount) Hb (from_u64_ok amount Hu)) as Hl.
    rewrite val_from_u64 in Hl by done. lia. }
  rewrite Hc. rewrite (bind_some _ _ _ _ _ (look_quiet _ (mkWorld _ _ _) Hq)).
  do 2 rewrite (bind_some _ _ _ _ _ (now_quiet _ (mkWorld _ _ _) Hq)). reflexivity.
Qed.

(** Undisturbed, a round of [mine] builds the block of [assemble_block]. *)
Lemma build_quiet {env : Environment} vote addr x : quiet env ->
  exists k, build_block vote addr x =
    (Some (assemble_block (chain_of (w_sys x)) vote addr (clock_of (later 2 x)) (clock_of (later 4 x))), later k x).
Proof.
  intros Hq. unfold build_block, assemble_block, get_current_time_ms. rewrite (bind_some _ _ _ _ _ (look_quiet _ x Hq)).
  rewrite (bind_some _ _ _ _ _ (look_quiet _ (mkWorld _ _ _) Hq)), (bind_some _ _ _ _ _ (now_quiet _ (mkWorld _ _ _) Hq)).
  rewrite (bind_some _ _ _ _ _ (look_quiet _ (mkWorld _ _ _) Hq)). cbn [w_sys w_access w_slept].
  destruct (BuildSpendableMempoolSelection (chain_of (w_sys x))) as [l fees]. cbn [fst snd]. destruct (_ <? fees); [by exists 4%nat|].
  rewrite (bind_some _ _ _ _ _ (now_quiet _ (mkWorld _ _ _) Hq)). by exists 5%nat.
Qed.

(** A transaction that does not verify is never selected. *)
Lemma select_verified m sim l acc fees t :
  t ∈ (select_loop m sim l acc fees).1 -> t ∈ acc \/ Transaction_Verify t = true.
Proof.
  revert sim acc fees; induction l as [|tx l IH]; intros sim acc fees Ht; cbn [select_loop] in Ht; [by left|].
  destruct (Address_IsCoinbase (senderAddress (stx tx))) eqn:Ec; [by eapply IH|].
  destruct (BalanceSheet_ApplyCandidateTransaction m sim tx) as [[] sim'] eqn:Ea; [|by eapply IH].
  apply IH in Ht as [Ht|Ht]; [|by right]. apply elem_of_app in Ht as [Ht|Ht]; [by left|]. apply list_elem_of_singleton in Ht as ->. right.
  unfold BalanceSheet_ApplyCandidateTransaction in Ea. rewrite Ec in Ea. by destruct (Transaction_Verify tx).
Qed.

(** Nor does a peer take it. *)
Lemma unverified_dropped {sockets : Sockets} s p tx now :
  stx_ok tx -> Transaction_Verify tx = false -> on_transaction s p (signed_transaction_bytes tx) now = s.
Proof.
  intros Hok Hv. unfold on_transaction. rewrite length_signed_transaction_bytes by done. cbn [negb Nat.eqb].
  pose proof (read_signed_app tx [] Hok) as Er. rewrite app_nil_r in Er. by rewrite Er, Hv.
Qed.

Lemma raw_quiet {env : Environment} {operator : Operator} tx x :
  quiet env -> stx_ok tx -> Transaction_Verify tx = true ->
  do_sendrawtx (to_hex (signed_transaction_bytes tx)) x = pool_transaction tx true (later 1 x).
Proof.
  intros Hq Hok Hv. pose proof (length_signed_transaction_bytes tx Hok) as Hl. assert (Hb := bytes_ok_signed tx Hok).
  unfold do_sendrawtx. rewrite next_word_plain; [|intros E; apply (f_equal length) in E; rewrite length_to_hex, Hl in E; done|by apply to_hex_chars].
  cbn [fst]. rewrite length_to_hex, Hl, Nat.eqb_refl. cbn [negb]. rewrite (bind_some _ _ _ _ _ (look_quiet _ x Hq)).
  rewrite decode_to_hex by done. pose proof (read_signed_app tx [] Hok) as Er. rewrite app_nil_r in Er. by rewrite Er, Hv.
Qed.
End Commands.

(** ** The loop's own bound *)

Lemma lines_enough {ops : CryptoOps} `{AddrText} {env : Environment} {operator : Operator} clock cfg n m fuel w vote input x :
  (length input < n)%nat -> (length input < m)%nat ->
  command_loop clock cfg n fuel w vote input x = command_loop clock cfg m fuel w vote input x.
Proof.
  revert m vote input x; induction n as [|n IH]; intros [|m] vote input x Hn Hm; [lia..|]. cbn [command_loop].
  destruct (fgets LINE_SIZE input) as [[line rest]|] eqn:Ef; [|done].
  apply fgets_consumes in Ef; [|apply Nat.ltb_lt; reflexivity].
  assert (Hr : forall v x, command_loop clock cfg n fuel w v rest x = command_loop clock cfg m fuel w v rest x) by (intros v y; apply IH; lia).
  destruct (strtok _) as [[cmd r]|]; [|apply Hr]. destruct (word_is cmd "dagvote").
  - destruct (do_dagvote vote r) as [v out]. unfold bind. by rewrite Hr.
  - destruct (_ || _); [done|]. unfold bind. destruct (run_command _ _ _ _ _ _ _ _) as [[out|] y]; [|done]. by rewrite Hr.
Qed.

Module ConsoleScenario.
Import Scenario NetScenario.
#[local] Existing Instances Toy.ops Toy.laws.

(** The miner of genesis at the console; the network rests. *)
Definition operator_wallet : wallet := mkWallet sample_key (Toy.pub sample_key) miner.
Definition resting : Environment := {| others n s := s; time_at n := 1700000100000 + Z.of_nat n; takes n p frame := true |}.
Definition leftovers (bs : bytes) : Operator :=
  {| dials n net ip port := None; mining_clock n k := 1700000100000; rand_at n k := 0; indeterminate n k := nth k bs 0;
     getaddrinfo f t := true |}.
Definition desk (st : node) : world := mkWorld (Node_Create st None true true [] 9393) 0 0.

Definition recipient : bytes := replicate 32 2.
Definition send_line (amount fee : string) : bytes := to_hex recipient ++ text (" " ++ amount ++ " " ++ fee ++ " false").
Definition miner_entry : balance_sheet_entry := default (fresh_entry []) (BalanceSheet_Lookup (g_sheetMap node1) miner).

Lemma operator_wallet_ok : wallet_ok operator_wallet.
Proof.
  split; [reflexivity|reflexivity|vm_decide|reflexivity|vm_compute; congruence|]. intros d. eexists. split; [reflexivity|].
  change (bytes_n 64 (SHA256 (d ++ Toy.pub sample_key) ++ zeros 32)). destruct (sha256_size (ops := Toy.ops) (d ++ Toy.pub sample_key)) as [Hl Hb].
  split; [by rewrite length_app, Hl|]. apply bytes_ok_app. split; [exact Hb|apply zeros_ok].
Qed.

Lemma resting_quiet : quiet resting.
Proof. by intros n s. Qed.

(** A session: the vote is changed, balances are asked for, an unknown word is typed; what follows [exit]
    is not read. *)
Definition session : bytes :=
  text "dagvote hold" ++ [10] ++ text "  balance" ++ [9; 13; 10; 10] ++ text "mine -1" ++ [10] ++ text "hello" ++ [10] ++ text "wipechain" ++ [10] ++
  text "balance" ++ [10] ++ text "exit" ++ [10] ++ text "mine 1".
Example session_runs :
  let '(out, y) := console (env := resting) (operator := leftovers []) late cfg 10 operator_wallet session (desk node1) in
  out = Some [SayVote 1; SayBalance (to_hex miner) (text "5000"); Say "invalid block count"; Say "Unknown command"; Say "chain data wiped";
              SayBalance (to_hex miner) (text "0")] /\
  blocks (chain_of (w_sys y)) = [].
Proof. vm_compute. split; reflexivity. Qed.
End ConsoleScenario.
Import ConsoleScenario NetScenario Scenario.

(** ** Properties *)


(** One session wipes the chain, another mines on it. *)
Definition mining_session : bytes := text "mine 1" ++ [10] ++ text "balance" ++ [10] ++ text "exit" ++ [10] ++ text "wipechain".


(** C17: a payment survives its print-out.  On a node whose other threads rest, [send <address> <amount>
    <fee> false] with a sound wallet, an amount the balance covers, a fee of at most the amount and a
    recipient that is not the coinbase address pools the signed payment and prints it in hexadecimal, if
    the pool's age policy takes it; typed into [sendrawtx] at any node whose other threads rest and whose
    age policy takes it then, whatever that node's memory holds, it is decoded to the same transaction,
    verified, and pooled under the same hash, which both commands print. *)
Theorem raw_transaction_roundtrip {ops : CryptoOps} {laws : CryptoLaws ops} (env env' : Environment) (operator operator' : Operator)
    w vote line r amount fee e (x y : world) :
  quiet env -> quiet env' -> is_u64 (@clock_of env (later 3 x)) -> wallet_ok w ->
  parse_send line = inr (r, amount, fee, false) -> fee <= amount -> r <> COINBASE_ADDRESS ->
  BalanceSheet_Lookup (g_sheetMap (chain_of (w_sys x))) (minerAddress w) = Some e -> uint256_ok (balance e) -> amount <= val (balance e) ->
  let tx := payment_of w r amount fee (@clock_of env (later 3 x)) in
  TxMempool_PolicyAccepts tx (@clock_of env (later 4 x)) = true -> TxMempool_PolicyAccepts tx (@clock_of env' (later 1 y)) = true ->
  exists x' y' hex, do_send (env := env) (operator := operator) w vote line x = (Some [SayTxHash (to_hex (Transaction_CalculateHash tx)); SayRawTx hex], x') /\
    sy_store (w_sys x') = sy_store (pooled tx (w_sys x)) /\
    do_sendrawtx (env := env') (operator := operator') hex y =
      (Some [SayTxHash (to_hex (Transaction_CalculateHash tx)); Say "transaction broadcast to peers"], y') /\
    sy_store (w_sys y') = sy_store (pooled tx (w_sys y)).
Proof.
  intros Hq Hq' Hn Hw Hp Hf Hr He Hb Ha tx Hpol Hpol'. destruct (parse_send_ok _ _ _ _ _ Hp) as (Hrs & Hau & Hpos & Hfu & _).
  assert (Hok : stx_ok tx) by (by apply payment_sized).
  assert (Hv : Transaction_Verify tx = true) by (unfold tx; rewrite payment_verifies by done; by apply Z.leb_le).
  destruct (pool_quiet (env := env) (operator := operator) tx false (later 4 x) Hq Hpol) as (x' & Ex & Sx).
  destruct (pool_quiet (env := env') (operator := operator') tx true (later 1 y) Hq' Hpol') as (y' & Ey & Sy).
  exists x', y', (to_hex (signed_transaction_bytes tx)). split; [by rewrite (send_quiet (env := env) w vote line r amount fee false x e) by done|].
  split; [exact Sx|]. split; [|exact Sy]. by rewrite raw_quiet.
Qed.

Lemma raw_transaction_roundtrip_witness :
  exists x' y' hex, do_send (env := resting) (operator := leftovers []) operator_wallet 0 (send_line "1000" "7") (desk node1) =
      (Some [SayTxHash (to_hex (Transaction_CalculateHash (payment_of operator_wallet recipient 1000 7 1700000100003))); SayRawTx hex], x') /\
    sy_store (w_sys x') = sy_store (pooled (payment_of operator_wallet recipient 1000 7 1700000100003) (w_sys (desk node1))) /\
    do_sendrawtx (env := resting) (operator := leftovers [1]) hex (desk node2) =
      (Some [SayTxHash (to_hex (Transaction_CalculateHash (payment_of operator_wallet recipient 1000 7 1700000100003)));
             Say "transaction broadcast to peers"], y') /\
    sy_store (w_sys y') = sy_store (pooled (payment_of operator_wallet recipient 1000 7 1700000100003) (w_sys (desk node2))).
Proof.
  apply (raw_transaction_roundtrip resting resting (leftovers []) (leftovers [1]) operator_wallet 0 (send_line "1000" "7") recipient 1000 7 miner_entry
    (desk node1) (desk node2)); try apply resting_quiet; try apply operator_wallet_ok; try vm_decide; try (vm_compute; reflexivity); vm_compute; congruence.
Defined.

(** [send] pools payments nobody can use.  It compares the balance with the amount alone and does not
    verify what it signs: on a quiet node, a payment whose fee exceeds its amount is put into the pool and
    its hash reported, although it fails verification, no selection from any sheet ever includes it and
    every peer drops it. *)
Theorem send_pools_unusable_payment {ops : CryptoOps} {laws : CryptoLaws ops} {env : Environment} {operator : Operator}
    w vote line r amount fee broadcast e x :
  quiet env -> is_u64 (clock_of (later 3 x)) -> wallet_ok w ->
  parse_send line = inr (r, amount, fee, broadcast) -> amount < fee -> r <> COINBASE_ADDRESS ->
  BalanceSheet_Lookup (g_sheetMap (chain_of (w_sys x))) (minerAddress w) = Some e -> uint256_ok (balance e) -> amount <= val (balance e) ->
  let tx := payment_of w r amount fee (clock_of (later 3 x)) in
  TxMempool_PolicyAccepts tx (clock_of (later 4 x)) = true ->
  (exists out x', do_send w vote line x = (Some (SayTxHash (to_hex (Transaction_CalculateHash tx)) :: out), x') /\
     sy_store (w_sys x') = sy_store (pooled tx (w_sys x))) /\
  Transaction_Verify tx = false /\
  (forall m l, tx ∉ (BalanceSheet_SelectSpendableTransactions m l).1) /\
  (forall (sockets : Sockets) s p now, on_transaction s p (signed_transaction_bytes tx) now = s).
Proof.
  intros Hq Hn Hw Hp Hf Hr He Hb Ha tx Hpol. destruct (parse_send_ok _ _ _ _ _ Hp) as (Hrs & Hau & Hpos & Hfu & _).
  assert (Hv : Transaction_Verify tx = false) by (unfold tx; rewrite payment_verifies by done; by apply Z.leb_gt).
  destruct (pool_quiet tx broadcast (later 4 x) Hq Hpol) as (x' & Ex & Sx).
  split; [eexists _, x'; split; [by rewrite (send_quiet w vote line r amount fee broadcast x e) by done|exact Sx]|].
  split; [exact Hv|]. split.
  - intros m l Ht. apply select_verified in Ht as [Ht|Ht]; [by apply not_elem_of_nil in Ht|congruence].
  - intros sockets s p now. apply unverified_dropped; [by apply payment_sized|exact Hv].
Qed.

Lemma send_pools_unusable_payment_witness :
  exists out x', do_send (env := resting) (operator := leftovers []) operator_wallet 0 (send_line "5" "6") (desk node1) =
      (Some (SayTxHash (to_hex (Transaction_CalculateHash (payment_of operator_wallet recipient 5 6 1700000100003))) :: out), x') /\
    sy_store (w_sys x') = sy_store (pooled (payment_of operator_wallet recipient 5 6 1700000100003) (w_sys (desk node1))).
Proof.
  refine (proj1 (send_pools_unusable_payment (env := resting) (operator := leftovers []) operator_wallet 0 (send_line "5" "6") recipient 5 6 false miner_entry
    (desk node1) _ _ _ _ _ _ _ _ _ _)); try apply resting_quiet; try apply operator_wallet_ok; try vm_decide; try (vm_compute; reflexivity); vm_compute; congruence.
Defined.

(** A pair of characters that is not a hexadecimal number does not stop [sendrawtx].  The command goes
    on with whatever its stack holds in place of that byte: it does exactly what it would do had the
    operator typed the indeterminate byte. *)
Theorem sendrawtx_uses_indeterminate_bytes {ops : CryptoOps} {env : Environment} {operator : Operator} a hi lo b x :
  Nat.even (length a) = true -> Forall (fun c => blank c = false) (a ++ hi :: lo :: b) -> parse_hex_byte hi lo = None ->
  do_sendrawtx (a ++ hi :: lo :: b) x =
  do_sendrawtx (a ++ to_hex [u8 (indeterminate (w_access x) (Nat.div2 (length a)))] ++ b) x.
Proof.
  intros He Hs Hp. set (o := u8 _). assert (Ho : is_u8 o) by (unfold o, is_u8, u8; zdiv). unfold do_sendrawtx.
  apply Forall_app in Hs as [Ha Hb]. apply Forall_cons_iff in Hb as [Hhi Hb]. apply Forall_cons_iff in Hb as [Hlo Hb].
  rewrite !next_word_plain; [|by destruct a|apply Forall_app; split; [done|]; apply Forall_app; split; [by apply to_hex_chars; constructor|done]
    |by destruct a|by apply Forall_app; repeat constructor].
  cbn [fst]. rewrite !length_app. cbn [length]. rewrite length_to_hex. cbn [length Nat.mul Nat.add].
  destruct (negb _); [done|]. unfold bind at 1 2, look, access.
  change (to_hex [o]) with [hex_digit (Z.shiftr o 4); hex_digit (Z.land o 15)].
  rewrite !decode_app by done. cbn [app decode_raw]. rewrite Hp, (hex_byte_roundtrip o Ho). cbn [length Nat.div2]. by rewrite Nat.add_1_r.
Qed.

(** With the right byte left on the stack the garbled transaction is pooled. *)
Lemma sendrawtx_uses_indeterminate_bytes_witness :
  let tx := payment_of operator_wallet recipient 1000 7 1700000100000 in
  let hex := to_hex (signed_transaction_bytes tx) in
  let garbled := text "zz" ++ drop 2 hex in
  do_sendrawtx (env := resting) (operator := leftovers (signed_transaction_bytes tx)) garbled (desk node1) =
    do_sendrawtx (env := resting) (operator := leftovers (signed_transaction_bytes tx)) hex (desk node1) /\
  (do_sendrawtx (env := resting) (operator := leftovers (signed_transaction_bytes tx)) garbled (desk node1)).1 =
    Some [SayTxHash (to_hex (Transaction_CalculateHash tx)); Say "transaction broadcast to peers"].
Proof.
  cbv zeta. split; [|vm_compute; reflexivity].
  refine (eq_trans (sendrawtx_uses_indeterminate_bytes (env := resting)
    (operator := leftovers (signed_transaction_bytes (payment_of operator_wallet recipient 1000 7 1700000100000))) [] 122 122
    (drop 2 (to_hex (signed_transaction_bytes (payment_of operator_wallet recipient 1000 7 1700000100000)))) (desk node1) _ _ _) _);
    [reflexivity|vm_decide|vm_compute; reflexivity|vm_compute; reflexivity].
Defined.
