(* ===== verification/Lifecycle.v ===== *)
(** * Descriptors, threads and memory of the daemons ([src/tcpd/tcpserver.c], [src/udpd/udpnode.c])

    What the TCP server, its client threads, the outbound connections and the UDP node take from the
    operating system and give back, from [Node_Create] to [Node_Destroy], with every call allowed to fail.
    The blocks counted are the node's, the server's and its client array's, the connections', the UDP node's
    and the arguments of threads; the pools, the set of seen blocks and discovery have modules of their own.  Closing a descriptor that
    is not open, freeing a block that is not allocated and joining a thread that does not exist have no
    result: a run that would do so is [None]. *)
From S2P Require Import Prelude Bytes Peers.

(** ** The operating system *)

(** What is held, and the next number to hand out; threads are the created ones nobody joined or detached. *)
Record os := mkOs { fds : list Z; threads : list nat; heap : list nat; fresh_id : nat }.

Definition io (A : Type) : Type := os -> option (A * os).
#[export] Instance io_ret : MRet io := fun _ x o => Some (x, o).
#[export] Instance io_bind : MBind io := fun _ _ k m o => '(x, o) ← m o; k x o.

(** One occurrence less, if there is one. *)
Fixpoint remove1 {A} `{EqDecision A} (x : A) (l : list A) : option (list A) :=
  match l with
  | [] => None
  | y :: r => if decide (x = y) then Some r else r ← remove1 x r; Some (y :: r)
  end.

(** A descriptor, or -1. *)
Definition open_fd (ok : bool) : io Z := fun o =>
  if ok then Some (Z.of_nat (fresh_id o), mkOs (Z.of_nat (fresh_id o) :: fds o) (threads o) (heap o) (S (fresh_id o))) else Some (-1, o).
Definition close (fd : Z) : io unit := fun o => l ← remove1 fd (fds o); Some (tt, mkOs l (threads o) (heap o) (fresh_id o)).

Definition malloc (ok : bool) : io (option nat) := fun o =>
  if ok then Some (Some (fresh_id o), mkOs (fds o) (threads o) (fresh_id o :: heap o) (S (fresh_id o))) else Some (None, o).
Definition free (p : option nat) : io unit := fun o =>
  match p with
  | None => Some (tt, o)
  | Some p => l ← remove1 p (heap o); Some (tt, mkOs (fds o) (threads o) l (fresh_id o))
  end.

(** A thread's handle, or 0, which is what the structures are cleared to. *)
Definition pthread_create (ok : bool) : io nat := fun o =>
  if ok then Some (fresh_id o, mkOs (fds o) (fresh_id o :: threads o) (heap o) (S (fresh_id o))) else Some (0%nat, o).
Definition pthread_join (t : nat) : io unit := fun o => l ← remove1 t (threads o); Some (tt, mkOs (fds o) l (heap o) (fresh_id o)).
Definition pthread_detach : nat -> io unit := pthread_join.

(** [if (fd >= 0) { close(fd); fd = -1; }]. *)
Definition close_if_open (fd : Z) : io unit := if 0 <=? fd then close fd else mret tt.

(** ** The TCP server *)

Record conn := mkConnRes { c_self : nat; c_fd : Z; ioThread : nat }.

Record tcp_server := mkServer {
  sv_self : nat;
  sockFd : Z;
  sockFdV4 : Z;
  isRunning : bool;
  clientsArrPtr : option nat;
  clients : list (option conn);
  svrThread : nat;
  svrThreadV4 : nat
}.

Definition TcpServer_Create (mem mutex : bool) : io (option tcp_server) :=
  p ← malloc mem;
  match p with
  | None => mret None
  | Some self =>
      if mutex then mret (Some (mkServer self (-1) (-1) false None [] 0 0)) else free (Some self);; mret None
  end.

(** A socket that could be created and bound, or the descriptor there was. *)
Definition bind_socket (sock bound : bool) (old : Z) : io Z :=
  fd ← open_fd sock;
  if 0 <=? fd then if bound then mret fd else close fd;; mret old else mret old.

Record init_answers := mkInit { sock6 : bool; bind6 : bool; sock4 : bool; bind4 : bool }.

Definition TcpServer_Init (s : tcp_server) (a : init_answers) : io tcp_server :=
  fd6 ← bind_socket (sock6 a) (bind6 a) (sockFd s);
  fd4 ← bind_socket (sock4 a) (bind4 a) (sockFdV4 s);
  mret (mkServer (sv_self s) fd6 fd4 (isRunning s) (clientsArrPtr s) (clients s) (svrThread s) (svrThreadV4 s)).

(** A receiving or accepting thread for a socket; the thread frees its arguments first of all. *)
Definition start_thread (fd : Z) (mem thr : bool) : io nat :=
  if fd <? 0 then mret 0%nat
  else
    args ← malloc mem;
    match args with
    | None => mret 0%nat
    | Some _ => t ← pthread_create thr; free args;; mret t
    end.

Record start_answers := mkStart { listen6 : bool; listen4 : bool; array : bool; args6 : bool; thread6 : bool; args4 : bool; thread4 : bool }.

Definition listen_or_close (fd : Z) (ok : bool) : io Z :=
  if 0 <=? fd then if ok then mret fd else close fd;; mret (-1) else mret fd.

Definition TcpServer_Start (s : tcp_server) (maxcons : nat) (a : start_answers) : io tcp_server :=
  if ((sockFd s <? 0) && (sockFdV4 s <? 0)) || (maxcons =? 0)%nat || isRunning s then mret s
  else
    fd6 ← listen_or_close (sockFd s) (listen6 a);
    fd4 ← listen_or_close (sockFdV4 s) (listen4 a);
    if (fd6 <? 0) && (fd4 <? 0)
    then mret (mkServer (sv_self s) fd6 fd4 (isRunning s) (clientsArrPtr s) (clients s) (svrThread s) (svrThreadV4 s))
    else
      p ← malloc (array a);
      match p with
      | None => mret (mkServer (sv_self s) fd6 fd4 (isRunning s) None [] (svrThread s) (svrThreadV4 s))
      | Some arr =>
          t6 ← start_thread fd6 (args6 a) (thread6 a);
          t4 ← start_thread fd4 (args4 a) (thread4 a);
          if (t6 =? 0)%nat && (t4 =? 0)%nat
          then free (Some arr);; mret (mkServer (sv_self s) fd6 fd4 false None [] t6 t4)
          else mret (mkServer (sv_self s) fd6 fd4 true (Some arr) (replicate maxcons None) t6 t4)
      end.

Definition TcpConnection_Destroy (c : conn) : io unit := close_if_open (c_fd c).

(** The end of a client thread. *)
Definition client_finish (c : conn) : io unit := TcpConnection_Destroy c;; free (Some (c_self c)).

(** From another thread than the connection's own. *)
Definition TcpServer_Disconnect (c : conn) : io unit := pthread_join (ioThread c).
(** The linger option makes the close abortive; what is given back is the same. *)
Definition TcpServer_KillClient (c : conn) : io unit := TcpServer_Disconnect c.

Definition set_clients (s : tcp_server) (l : list (option conn)) : tcp_server :=
  mkServer (sv_self s) (sockFd s) (sockFdV4 s) (isRunning s) (clientsArrPtr s) l (svrThread s) (svrThreadV4 s).

Record accept_answers := mkAccept { conn_mem : bool; conn_init : bool; arg_mem : bool; io_thread : bool }.

(** One round of the accept loop, for a client that arrived. *)
Definition server_accept (s : tcp_server) (a : accept_answers) : io tcp_server :=
  clientFd ← open_fd true;
  p ← malloc (conn_mem a);
  match p with
  | None => close clientFd;; mret s
  | Some self =>
      if negb (conn_init a) then close clientFd;; free (Some self);; mret s
      else
        match first_index (fun c => bool_decide (c = None)) 0 (clients s) with
        | None => client_finish (mkConnRes self clientFd 0);; mret s
        | Some i =>
            arg ← malloc (arg_mem a);
            match arg with
            | None => TcpServer_Disconnect (mkConnRes self clientFd 0);; mret (set_clients s (<[i := Some (mkConnRes self clientFd 0)]> (clients s)))
            | Some _ =>
                t ← pthread_create (io_thread a);
                free arg;;
                let s := set_clients s (<[i := Some (mkConnRes self clientFd t)]> (clients s)) in
                if (t =? 0)%nat then TcpServer_Disconnect (mkConnRes self clientFd t);; mret s else mret s
            end
        end
  end.

(** A client thread that ends while its slot is its own. *)
Definition client_exit (s : tcp_server) (i : nat) : io tcp_server :=
  match clients s !! i with
  | Some (Some c) => pthread_detach (ioThread c);; client_finish c;; mret (set_clients s (<[i := None]> (clients s)))
  | _ => mret s
  end.

Definition join_if_any (t : nat) : io unit := if (t =? 0)%nat then mret tt else pthread_join t.

(** The claimed clients end and are joined. *)
Fixpoint join_clients (l : list (option conn)) : io unit :=
  match l with
  | [] => mret tt
  | None :: r => join_clients r
  | Some c :: r => client_finish c;; pthread_join (ioThread c);; join_clients r
  end.

(** Clients that were asked to close and are not waited for: their slots are gone, so they do not detach. *)
Fixpoint abandon_clients (l : list (option conn)) : io unit :=
  match l with
  | [] => mret tt
  | None :: r => abandon_clients r
  | Some c :: r => client_finish c;; abandon_clients r
  end.

(** [handles]: the array of handles could be allocated; without it nobody is joined. *)
Definition TcpServer_Stop (s : tcp_server) (handles : bool) : io tcp_server :=
  if negb (isRunning s) then mret s
  else
    close_if_open (sockFd s);;
    close_if_open (sockFdV4 s);;
    join_if_any (svrThread s);;
    join_if_any (svrThreadV4 s);;
    p ← malloc handles;
    match p with
    | None => abandon_clients (clients s)
    | Some _ => join_clients (clients s);; free p
    end;;
    free (clientsArrPtr s);;
    mret (mkServer (sv_self s) (-1) (-1) false None [] 0 0).

Definition TcpServer_Destroy (s : tcp_server) (handles : bool) : io unit :=
  s ← TcpServer_Stop s handles; free (clientsArrPtr s);; free (Some (sv_self s)).

(** ** Outbound connections *)

Record dial_answers := mkDial { d_address : bool; d_sock : bool; d_connected : bool; d_mem : bool; d_init : bool; d_thread : bool }.

(** On a slot without a connection: the slot's new content. *)
Definition TcpClient_Connect (a : dial_answers) : io (option conn) :=
  if negb (d_address a) then mret None
  else
    fd ← open_fd (d_sock a);
    if fd <? 0 then mret None
    else if negb (d_connected a) then close fd;; mret None
    else
      p ← malloc (d_mem a);
      match p with
      | None => close fd;; mret None
      | Some self =>
          if negb (d_init a) then free p;; close fd;; mret None
          else
            t ← pthread_create (d_thread a);
            let c := mkConnRes self fd t in
            if (t =? 0)%nat then TcpConnection_Destroy c;; free p;; mret None else mret (Some c)
      end.

(** The first free slot is dialled. *)
Definition Node_ConnectPeer (l : list (option conn)) (a : dial_answers) : io (list (option conn)) :=
  match first_index (fun c => bool_decide (c = None)) 0 l with
  | None => mret l
  | Some i => c ← TcpClient_Connect a; mret (<[i := c]> l)
  end.

(** A connection taken out of its slot. *)
Definition hang_up (c : conn) : io unit := pthread_join (ioThread c);; client_finish c.

(** The connection of one client object, closed from outside its thread. *)
Definition TcpClient_Disconnect (c : option conn) : io (option conn) :=
  match c with
  | None => mret None
  | Some c => hang_up c;; mret None
  end.
Definition TcpClient_Destroy : option conn -> io (option conn) := TcpClient_Disconnect.

(** [dead i]: the connection of slot [i] is notified and not pinned. *)
Fixpoint Node_ReapDeadOutbound (dead : nat -> bool) (i : nat) (l : list (option conn)) : io (list (option conn)) :=
  match l with
  | [] => mret []
  | None :: r => l ← Node_ReapDeadOutbound dead (S i) r; mret (None :: l)
  | Some c :: r =>
      if dead i then hang_up c;; l ← Node_ReapDeadOutbound dead (S i) r; mret (None :: l)
      else l ← Node_ReapDeadOutbound dead (S i) r; mret (Some c :: l)
  end.

Fixpoint close_outbound (l : list (option conn)) : io unit :=
  match l with
  | [] => mret tt
  | None :: r => close_outbound r
  | Some c :: r => hang_up c;; close_outbound r
  end.

(** ** The UDP node *)

Record udp_res := mkUdpRes { u_self : nat; u_sockFd : Z; u_sockFdV4 : Z; u_running : bool; recvThreadV6 : nat; recvThreadV4 : nat; retryThread : nat }.

(** Whether a socket was bound, and the node. *)
Definition UdpNode_Init (self : nat) (a : init_answers) : io (bool * udp_res) :=
  fd6 ← bind_socket (sock6 a) (bind6 a) (-1);
  fd4 ← bind_socket (sock4 a) (bind4 a) (-1);
  mret (negb ((fd6 <? 0) && (fd4 <? 0)), mkUdpRes self fd6 fd4 false 0 0 0).

Record udp_answers := mkUdpStart { u_args6 : bool; u_thread6 : bool; u_args4 : bool; u_thread4 : bool; u_retry : bool }.

Definition UdpNode_Start (u : udp_res) (a : udp_answers) : io (bool * udp_res) :=
  if u_running u || ((u_sockFd u <? 0) && (u_sockFdV4 u <? 0)) then mret (false, u)
  else
    t6 ← start_thread (u_sockFd u) (u_args6 a) (u_thread6 a);
    t4 ← start_thread (u_sockFdV4 u) (u_args4 a) (u_thread4 a);
    t ← pthread_create (u_retry a);
    let any := negb ((t6 =? 0)%nat && (t4 =? 0)%nat && (t =? 0)%nat) in
    mret (any, mkUdpRes (u_self u) (u_sockFd u) (u_sockFdV4 u) any t6 t4 t).

(** The three threads are joined whether they were created or not. *)
Definition UdpNode_Stop (u : udp_res) : io udp_res :=
  if negb (u_running u) then mret u
  else
    close_if_open (u_sockFd u);;
    close_if_open (u_sockFdV4 u);;
    pthread_join (recvThreadV6 u);;
    pthread_join (recvThreadV4 u);;
    pthread_join (retryThread u);;
    mret (mkUdpRes (u_self u) (-1) (-1) false (recvThreadV6 u) (recvThreadV4 u) (retryThread u)).

Definition UdpNode_Destroy (u : udp_res) : io unit := close_if_open (u_sockFd u);; close_if_open (u_sockFdV4 u).

(** ** The node *)

Record node_res := mkNodeRes {
  nr_self : nat; nr_server : tcp_server; outboundClients : list (option conn); nr_udp : option udp_res; maintenanceThread : option nat
}.

Record create_answers := mkCreate {
  node_mem : bool; server_mem : bool; server_mutex : bool; server_init : init_answers; server_start : start_answers;
  udp_mem : bool; udp_init : init_answers; udp_start : udp_answers; maintenance : bool
}.

(** The part of [Node_Create] that starts the UDP node; a failure leaves the node without one. *)
Definition create_udp (a : create_answers) : io (option udp_res) :=
  p ← malloc (udp_mem a);
  match p with
  | None => mret None
  | Some self =>
      r ← UdpNode_Init self (udp_init a);
      if r.1 : bool then
        r ← UdpNode_Start r.2 (udp_start a);
        if r.1 : bool then mret (Some r.2) else UdpNode_Destroy r.2;; free p;; mret None
      else free p;; mret None
  end.

Definition Node_Create (a : create_answers) : io (option node_res) :=
  p ← malloc (node_mem a);
  match p with
  | None => mret None
  | Some self =>
      svr ← TcpServer_Create (server_mem a) (server_mutex a);
      match svr with
      | None => free p;; mret None
      | Some s =>
          s ← TcpServer_Init s (server_init a);
          s ← TcpServer_Start s MAX_CONS (server_start a);
          u ← create_udp a;
          t ← pthread_create (maintenance a);
          mret (Some (mkNodeRes self s (replicate MAX_CONS None) u (if (t =? 0)%nat then None else Some t)))
      end
  end.

Definition Node_Destroy (n : node_res) (handles : bool) : io unit :=
  match maintenanceThread n with None => mret tt | Some t => pthread_join t end;;
  close_outbound (outboundClients n);;
  s ← TcpServer_Stop (nr_server n) handles;
  TcpServer_Destroy s handles;;
  match nr_udp n with
  | None => mret tt
  | Some u => u ← UdpNode_Stop u; UdpNode_Destroy u;; free (Some (u_self u))
  end;;
  free (Some (nr_self n)).

(** What happens between the two: a client arrives or leaves, a peer is dialled, dead ones are reaped. *)
Inductive arrival := Arrive (a : accept_answers) | Leave (i : nat) | Dial (a : dial_answers) | Reap (dead : nat -> bool).

Definition serve_one (e : arrival) (s : tcp_server) (l : list (option conn)) : io (tcp_server * list (option conn)) :=
  match e with
  | Arrive a => s ← (if isRunning s then server_accept s a else mret s); mret (s, l)
  | Leave i => s ← client_exit s i; mret (s, l)
  | Dial a => l ← Node_ConnectPeer l a; mret (s, l)
  | Reap dead => l ← Node_ReapDeadOutbound dead 0 l; mret (s, l)
  end.

Fixpoint serve (s : tcp_server) (l : list (option conn)) (evs : list arrival) : io (tcp_server * list (option conn)) :=
  match evs with
  | [] => mret (s, l)
  | e :: r => x ← serve_one e s l; serve x.1 x.2 r
  end.

Definition life (a : create_answers) (evs : list arrival) (handles : bool) : io bool :=
  n ← Node_Create a;
  match n with
  | None => mret false
  | Some n =>
      x ← serve (nr_server n) (outboundClients n) evs;
      Node_Destroy (mkNodeRes (nr_self n) x.1 x.2 (nr_udp n) (maintenanceThread n)) handles;;
      mret true
  end.

(** ** Accounting *)

Lemma remove1_perm {A} `{EqDecision A} (x : A) l r : l ≡ₚ x :: r -> exists l', remove1 x l = Some l' /\ l' ≡ₚ r.
Proof.
  revert r; induction l as [|y l IH]; intros r Hp; [by apply Permutation_nil_cons in Hp|]. cbn [remove1]. destruct (decide (x = y)) as [<-|Hne].
  - exists l. split; [done|]. by apply Permutation_cons_inv in Hp.
  - assert (Hy : y ∈ r). { assert (Hy : y ∈ x :: r) by (rewrite <- Hp; left). apply elem_of_cons in Hy as [->|Hy]; done. }
    apply elem_of_Permutation in Hy as [k Hk]. destruct (IH k) as (l' & E & Hl).
    { apply (Permutation_cons_inv (a := y)). rewrite Hp, Hk. apply perm_swap. }
    exists (y :: l'). rewrite E. split; [done|]. by rewrite Hl, Hk.
Qed.

Lemma remove1_none {A} `{EqDecision A} (x : A) l : x ∉ l -> remove1 x l = None.
Proof.
  induction l as [|y l IH]; intros Hx; [done|]. apply not_elem_of_cons in Hx as [Hne Hx]. cbn [remove1]. rewrite decide_False by done. by rewrite IH.
Qed.

(** What is held, in any order; handle numbers are positive. *)
Definition holds (o : os) (F : list Z) (T H : list nat) : Prop :=
  fds o ≡ₚ F /\ threads o ≡ₚ T /\ heap o ≡ₚ H /\ (0 < fresh_id o)%nat /\ 0%nat ∉ threads o.

#[export] Instance holds_proper o : Proper (Permutation ==> Permutation ==> Permutation ==> iff) (holds o).
Proof. intros F F' HF T T' HT H H' HH. unfold holds. by rewrite HF, HT, HH. Qed.

(** [m] ends, and what holds of its result. *)
Definition ends {A} (m : io A) (o : os) (Q : A -> os -> Prop) : Prop := exists x o', m o = Some (x, o') /\ Q x o'.

Lemma ends_ret {A} (x : A) o (Q : A -> os -> Prop) : Q x o -> ends (mret x) o Q.
Proof. intros Hq. by exists x, o. Qed.

Lemma ends_bind {A B} (m : io A) (k : A -> io B) o (P : A -> os -> Prop) (Q : B -> os -> Prop) :
  ends m o P -> (forall x o', P x o' -> ends (k x) o' Q) -> ends (m ≫= k) o Q.
Proof. intros (x & o' & E & Hp) Hk. destruct (Hk x o' Hp) as (y & o2 & E2 & Hq). exists y, o2. split; [|done]. unfold mbind, io_bind. by rewrite E. Qed.

Lemma ends_mono {A} (m : io A) o (P Q : A -> os -> Prop) : ends m o P -> (forall x o', P x o' -> Q x o') -> ends m o Q.
Proof. intros (x & o' & E & Hp) Hq. exists x, o'. split; [done|by apply Hq]. Qed.

Definition fd_list (fd : Z) : list Z := if 0 <=? fd then [fd] else [].
Definition tid_list (t : nat) : list nat := if (t =? 0)%nat then [] else [t].

Section Primitives.
Context (o : os) (F : list Z) (T H : list nat).

Lemma close_ends fd : holds o (fd :: F) T H -> ends (close fd) o (fun _ o' => holds o' F T H).
Proof.
  intros (HF & Hrest). destruct (remove1_perm fd (fds o) F HF) as (l & E & Hl). exists tt, (mkOs l (threads o) (heap o) (fresh_id o)).
  split; [unfold close; by rewrite E|]. by split.
Qed.

Lemma close_if_open_ends fd : holds o (fd_list fd ++ F) T H -> ends (close_if_open fd) o (fun _ o' => holds o' F T H).
Proof. unfold close_if_open, fd_list. destruct (0 <=? fd); [apply close_ends|]. intros Hh. by apply ends_ret. Qed.

Lemma free_ends p : holds o F T (p :: H) -> ends (free (Some p)) o (fun _ o' => holds o' F T H).
Proof.
  intros (HF & HT & HH & Hrest). destruct (remove1_perm p (heap o) H HH) as (l & E & Hl). exists tt, (mkOs (fds o) (threads o) l (fresh_id o)).
  split; [unfold free; by rewrite E|]. by split.
Qed.

Lemma join_ends t : holds o F (t :: T) H -> ends (pthread_join t) o (fun _ o' => holds o' F T H).
Proof.
  intros (HF & HT & HH & Hf & H0). destruct (remove1_perm t (threads o) T HT) as (l & E & Hl). exists tt, (mkOs (fds o) l (heap o) (fresh_id o)).
  split; [unfold pthread_join; by rewrite E|]. split; [done|]. split; [done|]. split; [done|]. split; [done|]. cbn.
  intros Hin. apply H0. rewrite HT, <- Hl. by right.
Qed.

Lemma join_if_any_ends t : holds o F (tid_list t ++ T) H -> ends (join_if_any t) o (fun _ o' => holds o' F T H).
Proof. unfold join_if_any, tid_list. destruct (t =? 0)%nat; [intros Hh; by apply ends_ret|apply join_ends]. Qed.

Lemma malloc_ends ok : holds o F T H ->
  ends (malloc ok) o (fun p o' => match p with Some p => ok = true /\ holds o' F T (p :: H) | None => ok = false /\ holds o' F T H end).
Proof.
  intros (HF & HT & HH & Hf & H0). destruct ok; eexists _, _; (split; [reflexivity|]); (split; [done|]); [|by split].
  split; [done|]. split; [done|]. split; [by cbn; rewrite HH|]. split; [cbn; lia|done].
Qed.

Lemma create_ends ok : holds o F T H -> ends (pthread_create ok) o (fun t o' => holds o' F (tid_list t ++ T) H /\ (t =? 0)%nat = negb ok).
Proof.
  intros (HF & HT & HH & Hf & H0). destruct ok; eexists _, _; (split; [reflexivity|]).
  - assert (E : (fresh_id o =? 0)%nat = false) by (apply Nat.eqb_neq; lia). unfold tid_list. rewrite E. split; [|done].
    split; [done|]. split; [by cbn; rewrite HT|]. split; [done|]. split; [cbn; lia|]. cbn. intros Hin. apply elem_of_cons in Hin as [Hin|Hin]; [lia|done].
  - by split.
Qed.

Lemma open_ends ok : holds o F T H -> ends (open_fd ok) o (fun fd o' => holds o' (fd_list fd ++ F) T H /\ (0 <=? fd) = ok).
Proof.
  intros (HF & HT & HH & Hf & H0). destruct ok; eexists _, _; (split; [reflexivity|]); [|by split].
  assert (E : (0 <=? Z.of_nat (fresh_id o)) = true) by (apply Z.leb_le; lia). unfold fd_list. rewrite E. split; [|done].
  split; [by cbn; rewrite HF|]. split; [done|]. split; [done|]. split; [cbn; lia|done].
Qed.
End Primitives.

(** The holdings at hand, reordered. *)
Ltac held :=
  match goal with
  | Hh : holds ?o _ _ _ |- holds ?o _ _ _ => first [exact Hh | eapply holds_proper; [..|exact Hh]; solve_Permutation]
  end.
Ltac after L := eapply ends_bind; [apply L; held|cbn beta].

Section Derived.
Context (o : os) (F : list Z) (T H : list nat).

Lemma bind_socket_ends sk bd : holds o F T H ->
  ends (bind_socket sk bd (-1)) o (fun fd o' => holds o' (fd_list fd ++ F) T H /\ (0 <=? fd) = sk && bd).
Proof.
  intros Hh. unfold bind_socket. after open_ends. intros fd o1 [H1 E]. rewrite E. unfold fd_list in H1. rewrite E in H1. destruct sk; [|by apply ends_ret].
  cbn [andb]. destruct bd; [apply ends_ret; unfold fd_list; by rewrite E|]. after close_ends. intros _ o2 H2. by apply ends_ret.
Qed.

Lemma listen_ends fd ok : holds o (fd_list fd ++ F) T H ->
  ends (listen_or_close fd ok) o (fun fd' o' => holds o' (fd_list fd' ++ F) T H /\ (0 <=? fd') = (0 <=? fd) && ok).
Proof.
  intros Hh. unfold listen_or_close. destruct (0 <=? fd) eqn:E; [|by apply ends_ret]. destruct ok; [by apply ends_ret; rewrite E|].
  unfold fd_list in Hh. rewrite E in Hh. after close_ends. intros _ o1 H1. by apply ends_ret.
Qed.

Lemma start_thread_ends fd mem thr : holds o F T H ->
  ends (start_thread fd mem thr) o (fun t o' => holds o' F (tid_list t ++ T) H /\ (t =? 0)%nat = negb ((0 <=? fd) && mem && thr)).
Proof.
  intros Hh. unfold start_thread. rewrite Z.ltb_antisym. destruct (0 <=? fd); cbn [negb andb]; [|by apply ends_ret].
  after malloc_ends. intros [p|] o1 [-> H1]; cbn [andb]; [|by apply ends_ret]. after create_ends. intros t o2 [H2 E].
  after free_ends. intros _ o3 H3. by apply ends_ret.
Qed.
End Derived.

(** ** The server's holdings *)

Definition conn_fds (c : option conn) : list Z := match c with Some c => [c_fd c] | None => [] end.
Definition conn_threads (c : option conn) : list nat := match c with Some c => [ioThread c] | None => [] end.
Definition conn_heap (c : option conn) : list nat := match c with Some c => [c_self c] | None => [] end.

Definition server_fds (s : tcp_server) : list Z := fd_list (sockFd s) ++ fd_list (sockFdV4 s) ++ concat (map conn_fds (clients s)).
Definition server_threads (s : tcp_server) : list nat :=
  tid_list (svrThread s) ++ tid_list (svrThreadV4 s) ++ concat (map conn_threads (clients s)).
Definition server_heap (s : tcp_server) : list nat :=
  sv_self s :: option_list (clientsArrPtr s) ++ concat (map conn_heap (clients s)).

(** A connection has a descriptor. *)
Definition conns_ok (l : list (option conn)) : Prop := Forall (fun c => match c with Some c => 0 <= c_fd c | None => True end) l.

(** A server that does not run has neither clients nor threads. *)
Definition server_ok (s : tcp_server) : Prop :=
  conns_ok (clients s) /\
  (isRunning s = false -> clients s = [] /\ clientsArrPtr s = None /\ svrThread s = 0%nat /\ svrThreadV4 s = 0%nat) /\
  (isRunning s = true -> exists p, clientsArrPtr s = Some p).

Lemma concat_insert_none {A B} (f : option A -> list B) (l : list (option A)) i c :
  f None = [] -> l !! i = Some None -> concat (map f (<[i := Some c]> l)) ≡ₚ f (Some c) ++ concat (map f l).
Proof.
  intros Hf. revert i; induction l as [|x l IH]; intros [|i] Hi; [done|done| |].
  - injection Hi as ->. cbn. by rewrite Hf.
  - cbn in Hi. change (<[S i := Some c]> (x :: l)) with (x :: <[i := Some c]> l). cbn [map concat]. rewrite (IH i Hi). solve_Permutation.
Qed.

Lemma concat_insert_some {A B} (f : option A -> list B) (l : list (option A)) i c :
  f None = [] -> l !! i = Some (Some c) -> concat (map f l) ≡ₚ f (Some c) ++ concat (map f (<[i := None]> l)).
Proof.
  intros Hf. revert i; induction l as [|x l IH]; intros [|i] Hi; [done|done| |].
  - injection Hi as ->. cbn. by rewrite Hf.
  - cbn in Hi. change (<[S i := None]> (x :: l)) with (x :: <[i := None]> l). cbn [map concat]. rewrite (IH i Hi). solve_Permutation.
Qed.

Lemma first_none (l : list (option conn)) k i : first_index (fun c => bool_decide (c = None)) k l = Some i -> (k <= i)%nat /\ l !! (i - k)%nat = Some None.
Proof.
  revert k; induction l as [|x l IH]; intros k; cbn [first_index]; [done|]. case_bool_decide as Hx.
  - intros E. injection E as <-. subst x. split; [lia|]. by rewrite Nat.sub_diag.
  - intros E. apply IH in E as [Hk Hl]. split; [lia|]. by replace (i - k)%nat with (S (i - S k)) by lia.
Qed.

Definition server_holds (s : tcp_server) (o : os) (F : list Z) (T H : list nat) : Prop :=
  server_ok s /\ holds o (server_fds s ++ F) (server_threads s ++ T) (server_heap s ++ H).

Section Server.
Context (F : list Z) (T H : list nat).

Lemma create_server_ends mem mutex o : holds o F T H ->
  ends (TcpServer_Create mem mutex) o (fun r o' => match r with
    | Some s => mem && mutex = true /\ isRunning s = false /\ sockFd s = -1 /\ sockFdV4 s = -1 /\ server_holds s o' F T H
    | None => mem && mutex = false /\ holds o' F T H
    end).
Proof.
  intros Hh. unfold TcpServer_Create. after malloc_ends. intros [p|] o1 [-> H1]; cbn [andb]; [|by apply ends_ret]. destruct mutex.
  - apply ends_ret. split; [done|]. split; [done|]. split; [done|]. split; [done|]. split; [|exact H1]. split; [constructor|]. by split.
  - after free_ends. intros _ o2 H2. by apply ends_ret.
Qed.

Lemma init_server_ends s a o : isRunning s = false -> sockFd s = -1 -> sockFdV4 s = -1 -> server_holds s o F T H ->
  ends (TcpServer_Init s a) o (fun s' o' => isRunning s' = false /\ server_holds s' o' F T H /\
    (0 <=? sockFd s') = sock6 a && bind6 a /\ (0 <=? sockFdV4 s') = sock4 a && bind4 a).
Proof.
  intros Hr E6 E4 [(_ & Hn & _) Hh]. destruct (Hn Hr) as (Ec & Ea & Et & Et4). unfold server_fds, server_threads, server_heap in Hh.
  rewrite E6, E4, Ec, Ea, Et, Et4 in Hh. unfold TcpServer_Init. rewrite E6, E4, Ea, Ec, Et, Et4, Hr. cbn in Hh.
  after bind_socket_ends. intros fd6 o1 [H1 B6]. after bind_socket_ends. intros fd4 o2 [H2 B4]. apply ends_ret. split; [done|].
  split; [|by split]. split; [split; [constructor|by split]|]. unfold server_fds, server_threads, server_heap. cbn. held.
Qed.

Definition starts (b6 b4 : bool) (a : start_answers) : bool :=
  array a && ((b6 && listen6 a && args6 a && thread6 a) || (b4 && listen4 a && args4 a && thread4 a)).

Lemma replicate_none {B} (f : option conn -> list B) n : f None = [] -> concat (map f (replicate n None)) = [].
Proof. intros Hf. induction n as [|n IH]; [done|]. cbn. by rewrite Hf, IH. Qed.

Lemma start_server_ends s a n o : isRunning s = false -> (0 < n)%nat -> server_holds s o F T H ->
  let b6 := 0 <=? sockFd s in let b4 := 0 <=? sockFdV4 s in
  ends (TcpServer_Start s n a) o (fun s' o' => server_holds s' o' F T H /\ isRunning s' = starts b6 b4 a /\
    (0 <=? sockFd s') = b6 && listen6 a /\ (0 <=? sockFdV4 s') = b4 && listen4 a).
Proof.
  intros Hr Hn [Hok Hh] b6 b4. pose proof Hok as (_ & Hidle & _). destruct (Hidle Hr) as (Ec & Ea & Et & Et4).
  unfold TcpServer_Start, starts. rewrite Hr, !Z.ltb_antisym. fold b6 b4. rewrite (proj2 (Nat.eqb_neq n 0)) by lia.
  destruct (negb b6 && negb b4 || false || false) eqn:En.
  { assert (b6 = false /\ b4 = false) as [E6 E4] by (by destruct b6, b4). rewrite E6, E4. apply ends_ret. fold b6 b4. rewrite E6, E4. cbn [andb orb].
    rewrite andb_false_r. by split. }
  unfold server_fds, server_threads, server_heap in Hh. rewrite Ec, Ea, Et, Et4 in Hh. cbn in Hh.
  after (listen_ends o (fd_list (sockFdV4 s) ++ F) T (sv_self s :: H)). intros fd6 o1 [H1 B6]. fold b6 in B6.
  after (listen_ends o1 (fd_list fd6 ++ F) T (sv_self s :: H)). intros fd4 o2 [H2 B4]. fold b4 in B4.
  rewrite !Z.ltb_antisym, B6, B4. rewrite Ec, Ea, Et, Et4.
  assert (Hidle' : server_holds (mkServer (sv_self s) fd6 fd4 false None [] 0 0) o2 F T H).
  { split; [split; [constructor|by split]|]. unfold server_fds, server_threads, server_heap. cbn. held. }
  destruct (negb (b6 && listen6 a) && negb (b4 && listen4 a)) eqn:El.
  { apply ends_ret. split; [done|]. split; [|done]. cbn. destruct (b6 && listen6 a), (b4 && listen4 a); try done. by rewrite andb_false_r. }
  after malloc_ends. intros [arr|] o3 [-> H3]; cbn [andb].
  2: { apply ends_ret. split; [|done]. destruct Hidle' as [Ho _]. split; [done|]. unfold server_fds, server_threads, server_heap. cbn. held. }
  after start_thread_ends. intros t6 o4 [H4 T6]. after start_thread_ends. intros t4 o5 [H5 T4]. rewrite B6 in T6. rewrite B4 in T4. rewrite T6, T4.
  destruct (negb (b6 && listen6 a && args6 a && thread6 a) && negb (b4 && listen4 a && args4 a && thread4 a)) eqn:Eb.
  - after free_ends. intros _ o6 H6. assert (E0 : (b6 && listen6 a && args6 a && thread6 a || b4 && listen4 a && args4 a && thread4 a) = false)
      by (by destruct (b6 && listen6 a && args6 a && thread6 a), (b4 && listen4 a && args4 a && thread4 a)).
    rewrite E0. apply ends_ret. apply andb_true_iff in Eb as [N6 N4]. rewrite N6 in T6. rewrite N4 in T4. apply Nat.eqb_eq in T6, T4. subst t6 t4.
    split; [|done]. split; [split; [constructor|by split]|]. unfold server_fds, server_threads, server_heap. cbn in H6 |- *. held.
  - apply ends_ret. split.
    + split; [split; [by apply Forall_replicate|]; split; [done|]; intros _; by eexists|]. unfold server_fds, server_threads, server_heap. cbn [clients sockFd sockFdV4 svrThread svrThreadV4 sv_self clientsArrPtr option_list].
      rewrite !replicate_none by done. held.
    + split; [|done]. cbn. by destruct (b6 && listen6 a && args6 a && thread6 a), (b4 && listen4 a && args4 a && thread4 a).
Qed.
End Server.

Section Serving.
Context (F : list Z) (T H : list nat).

Lemma same_server s o o' : server_holds s o F T H -> holds o' (server_fds s ++ F) (server_threads s ++ T) (server_heap s ++ H) -> server_holds s o' F T H.
Proof. by intros [Hok _] Hh. Qed.

Definition spawns (a : accept_answers) : Prop := arg_mem a = true /\ io_thread a = true.

Lemma accept_ends s a o : isRunning s = true -> spawns a -> server_holds s o F T H ->
  ends (server_accept s a) o (fun s' o' => isRunning s' = true /\ server_holds s' o' F T H).
Proof.
  intros Hr [Ha Ht] Hs. pose proof Hs as [(Hc & _ & Hp) Hh]. unfold server_accept. after open_ends. intros fd o1 [H1 Ef].
  unfold fd_list in H1. rewrite Ef in H1. after malloc_ends. intros [self|] o2 [_ H2].
  2: { after close_ends. intros _ o3 H3. apply ends_ret. split; [done|by eapply same_server]. }
  destruct (negb (conn_init a)). { after close_ends. intros _ o3 H3. after free_ends. intros _ o4 H4.
    apply ends_ret. split; [done|by eapply same_server]. }
  destruct (first_index _ 0 (clients s)) as [i|] eqn:Ei.
  2: { unfold client_finish, TcpConnection_Destroy. eapply ends_bind.
       { eapply ends_bind; [apply close_if_open_ends; unfold fd_list; cbn; rewrite Ef; held|cbn beta]. intros _ o3 H3. apply free_ends. held. }
       cbn beta. intros _ o3 H3. apply ends_ret. split; [done|by eapply same_server]. }
  apply first_none in Ei as [_ Ei]. rewrite Nat.sub_0_r in Ei. rewrite Ha, Ht. after malloc_ends. intros [arg|] o3 [E3 H3]; [|done].
  after create_ends. intros t o4 [H4 Et]. rewrite Et. cbn [negb]. after free_ends. intros _ o5 H5. apply ends_ret. split; [done|].
  split.
  - split; [apply Forall_insert; [done|cbn; by apply Z.leb_le]|]. split; [cbn; congruence|]. done.
  - unfold tid_list in H5. rewrite Et in H5. unfold server_fds, server_threads, server_heap in *. cbn [set_clients clients sockFd sockFdV4 svrThread svrThreadV4 sv_self clientsArrPtr].
    rewrite !concat_insert_none by done. cbn [conn_fds conn_threads conn_heap c_fd ioThread c_self]. held.
Qed.

Lemma finish_ends c o F' T' H' : 0 <= c_fd c -> holds o (c_fd c :: F') T' (c_self c :: H') -> ends (client_finish c) o (fun _ o' => holds o' F' T' H').
Proof.
  intros Hc Hh. unfold client_finish, TcpConnection_Destroy. eapply ends_bind.
  { apply close_if_open_ends. unfold fd_list. rewrite (proj2 (Z.leb_le 0 (c_fd c)) Hc). held. }
  cbn beta. intros _ o1 H1. apply free_ends. held.
Qed.

Lemma exit_ends s i o : server_holds s o F T H ->
  ends (client_exit s i) o (fun s' o' => isRunning s' = isRunning s /\ server_holds s' o' F T H).
Proof.
  intros Hs. pose proof Hs as [(Hc & Hidle & Hp) Hh]. unfold client_exit. destruct (clients s !! i) as [[c|]|] eqn:Ei; [|by apply ends_ret..].
  assert (Hfd : 0 <= c_fd c) by exact (Forall_lookup_1 _ _ _ _ Hc Ei).
  set (s' := set_clients s (<[i := None]> (clients s))).
  assert (Hh' : holds o (c_fd c :: server_fds s' ++ F) (ioThread c :: server_threads s' ++ T) (c_self c :: server_heap s' ++ H)).
  { unfold server_fds, server_threads, server_heap in *. cbn [s' set_clients clients sockFd sockFdV4 svrThread svrThreadV4 sv_self clientsArrPtr].
    rewrite (concat_insert_some conn_fds _ _ _ eq_refl Ei), (concat_insert_some conn_threads _ _ _ eq_refl Ei),
      (concat_insert_some conn_heap _ _ _ eq_refl Ei) in Hh. cbn [conn_fds conn_threads conn_heap] in Hh. held. }
  eapply ends_bind; [apply join_ends, Hh'|cbn beta]. intros _ o1 H1. eapply ends_bind; [by apply finish_ends|cbn beta]. intros _ o2 H2. apply ends_ret.
  split; [done|]. split; [|exact H2]. split; [by apply Forall_insert|]. split; [|exact Hp].
  intros Hr. destruct (Hidle Hr) as (Ec & _). by rewrite Ec in Ei.
Qed.

(** Outbound connections beside what else is held. *)
Definition conns_hold (l : list (option conn)) (o : os) (F' : list Z) (T' H' : list nat) : Prop :=
  conns_ok l /\ holds o (concat (map conn_fds l) ++ F') (concat (map conn_threads l) ++ T') (concat (map conn_heap l) ++ H').

Lemma connect_ends a o F' T' H' : holds o F' T' H' ->
  ends (TcpClient_Connect a) o (fun r o' => match r with
    | Some c => 0 <= c_fd c /\ holds o' (c_fd c :: F') (ioThread c :: T') (c_self c :: H')
    | None => holds o' F' T' H'
    end).
Proof.
  intros Hh. unfold TcpClient_Connect. destruct (negb (d_address a)); [by apply ends_ret|]. after open_ends. intros fd o1 [H1 Ef].
  rewrite Z.ltb_antisym. unfold fd_list in H1. destruct (0 <=? fd) eqn:E; cbn [negb]; [|by apply ends_ret].
  destruct (negb (d_connected a)). { after close_ends. intros _ o2 H2. by apply ends_ret. }
  after malloc_ends. intros [self|] o2 [_ H2]. 2: { after close_ends. intros _ o3 H3. by apply ends_ret. }
  destruct (negb (d_init a)). { after free_ends. intros _ o3 H3. after close_ends. intros _ o4 H4. by apply ends_ret. }
  after create_ends. intros t o3 [H3 Et]. unfold tid_list in H3. destruct (t =? 0)%nat.
  - eapply ends_bind; [apply close_if_open_ends; unfold fd_list; cbn [c_fd]; rewrite E; exact H3|cbn beta]. intros _ o4 H4.
    eapply ends_bind; [apply free_ends; exact H4|cbn beta]. intros _ o5 H5. by apply ends_ret.
  - apply ends_ret. split; [by apply Z.leb_le|exact H3].
Qed.

Lemma dial_ends l a o F' T' H' : conns_hold l o F' T' H' -> ends (Node_ConnectPeer l a) o (fun l' o' => conns_hold l' o' F' T' H').
Proof.
  intros [Hl Hh]. unfold Node_ConnectPeer. destruct (first_index _ 0 l) as [i|] eqn:Ei; [|by apply ends_ret].
  apply first_none in Ei as [_ Ei]. rewrite Nat.sub_0_r in Ei. eapply ends_bind; [apply connect_ends; exact Hh|cbn beta]. intros [c|] o1.
  - intros [Hc H1]. apply ends_ret. split; [by apply Forall_insert|].
    rewrite (concat_insert_none conn_fds _ _ _ eq_refl Ei), (concat_insert_none conn_threads _ _ _ eq_refl Ei), (concat_insert_none conn_heap _ _ _ eq_refl Ei). exact H1.
  - intros H1. rewrite list_insert_id by done. by apply ends_ret.
Qed.

Lemma hang_up_ends c o F' T' H' : 0 <= c_fd c -> holds o (c_fd c :: F') (ioThread c :: T') (c_self c :: H') -> ends (hang_up c) o (fun _ o' => holds o' F' T' H').
Proof. intros Hc Hh. unfold hang_up. eapply ends_bind; [apply join_ends; exact Hh|cbn beta]. intros _ o1 H1. by apply finish_ends. Qed.

(** Dialling and disconnecting gives back what was taken, however far the dialling got. *)
Lemma connect_disconnect a o F' T' H' : holds o F' T' H' -> ends (c ← TcpClient_Connect a; TcpClient_Destroy c) o (fun c o' => c = None /\ holds o' F' T' H').
Proof.
  intros Hh. eapply ends_bind; [by apply connect_ends|cbn beta]. intros [c|] o1; [intros [Hc H1]|intros H1; by apply ends_ret].
  cbn [TcpClient_Destroy TcpClient_Disconnect]. eapply ends_bind; [by apply hang_up_ends|cbn beta]. intros _ o2 H2. by apply ends_ret.
Qed.

Lemma reap_ends l dead i o F' T' H' : conns_hold l o F' T' H' -> ends (Node_ReapDeadOutbound dead i l) o (fun l' o' => conns_hold l' o' F' T' H').
Proof.
  revert i o F' T' H'; induction l as [|[c|] l IH]; intros i o F' T' H' [Hl Hh]; cbn [Node_ReapDeadOutbound]; [by apply ends_ret| |].
  - apply Forall_cons_iff in Hl as [Hc Hl]. cbn in Hh. destruct (dead i).
    + eapply ends_bind; [apply hang_up_ends; [done|exact Hh]|cbn beta]. intros _ o1 H1. eapply ends_bind; [apply IH; by split|cbn beta].
      intros l' o2 [Hl' H2]. apply ends_ret. split; [by apply Forall_cons_iff|exact H2].
    + eapply ends_bind; [apply (IH (S i) o (c_fd c :: F') (ioThread c :: T') (c_self c :: H')); split; [done|held]|cbn beta].
      intros l' o2 [Hl' H2]. apply ends_ret. split; [by apply Forall_cons_iff|cbn; held].
  - apply Forall_cons_iff in Hl as [_ Hl]. eapply ends_bind; [apply IH; by split|cbn beta].
    intros l' o2 [Hl' H2]. apply ends_ret. split; [by apply Forall_cons_iff|exact H2].
Qed.

Lemma close_outbound_ends l o F' T' H' : conns_hold l o F' T' H' -> ends (close_outbound l) o (fun _ o' => holds o' F' T' H').
Proof.
  revert o; induction l as [|[c|] l IH]; intros o [Hl Hh]; cbn [close_outbound]; [by apply ends_ret| |].
  - apply Forall_cons_iff in Hl as [Hc Hl]. cbn in Hh. eapply ends_bind; [apply hang_up_ends; [done|exact Hh]|cbn beta]. intros _ o1 H1. apply IH. by split.
  - apply Forall_cons_iff in Hl as [_ Hl]. apply IH. by split.
Qed.

(** The server and the outbound connections. *)
Definition both_hold (s : tcp_server) (l : list (option conn)) (o : os) : Prop :=
  conns_ok l /\ server_holds s o (concat (map conn_fds l) ++ F) (concat (map conn_threads l) ++ T) (concat (map conn_heap l) ++ H).

Lemma both_conns s l o : server_ok s ->
  conns_hold l o (server_fds s ++ F) (server_threads s ++ T) (server_heap s ++ H) <-> both_hold s l o.
Proof. intros Hok. split; intros [Hl Hh]; (split; [done|]); [split; [done|]|destruct Hh as [_ Hh]]; held. Qed.
End Serving.

Section Served.
Context (F : list Z) (T H : list nat).

Lemma step_ends e s l o : match e with Arrive a => spawns a | _ => True end -> both_hold F T H s l o ->
  ends (serve_one e s l) o (fun x o' => isRunning x.1 = isRunning s /\ both_hold F T H x.1 x.2 o' /\ (isRunning s = false -> x.1 = s)).
Proof.
  intros He [Hl Hs]. pose proof Hs as [Hok _].
  assert (Hout : forall m, (forall o F' T' H', conns_hold l o F' T' H' -> ends m o (fun l' o' => conns_hold l' o' F' T' H')) ->
    ends (l ← m; mret (s, l)) o (fun x o' => isRunning x.1 = isRunning s /\ both_hold F T H x.1 x.2 o' /\ (isRunning s = false -> x.1 = s))).
  { intros m Hm. eapply ends_bind; [apply Hm, both_conns; [exact Hok|by split]|cbn beta]. intros l' o1 H1. apply ends_ret. split; [done|].
    split; [by apply both_conns|done]. }
  destruct e as [a|i|a|dead]; cbn [serve_one].
  - destruct (isRunning s) eqn:E.
    + eapply ends_bind; [by apply accept_ends|cbn beta]. intros s1 o1 [E1 H1]. apply ends_ret. split; [done|]. split; [by split|done].
    + eapply (ends_bind _ _ _ (fun x o' => x = s /\ o' = o)); [by apply ends_ret|]. intros x o' [-> ->]. apply ends_ret. split; [done|]. by split.
  - destruct (isRunning s) eqn:E.
    + eapply ends_bind; [by apply exit_ends|cbn beta]. intros s1 o1 [E1 H1]. apply ends_ret. cbn. split; [congruence|]. by split.
    + destruct Hok as (_ & Hidle & _). destruct (Hidle E) as (Ec & _). unfold client_exit. rewrite Ec. cbn [lookup list_lookup].
      eapply (ends_bind _ _ _ (fun s1 o1 => s1 = s /\ o1 = o)); [by apply ends_ret|]. intros s1 o1 [-> ->]. apply ends_ret. split; [done|]. by split.
  - apply Hout. intros. by apply dial_ends.
  - apply Hout. intros. by apply reap_ends.
Qed.

Lemma serve_ends evs s l o : Forall (fun e => match e with Arrive a => spawns a | _ => True end) evs -> both_hold F T H s l o ->
  ends (serve s l evs) o (fun x o' => isRunning x.1 = isRunning s /\ both_hold F T H x.1 x.2 o' /\ (isRunning s = false -> x.1 = s)).
Proof.
  revert s l o; induction evs as [|e evs IH]; intros s l o He Hs; cbn [serve]; [by apply ends_ret|]. apply Forall_cons_iff in He as [He Hr].
  eapply ends_bind; [by apply step_ends|cbn beta]. intros [s1 l1] o1 (E1 & H1 & K1). cbn [fst snd] in *. eapply ends_mono; [by apply IH|].
  intros [s2 l2] o2 (E2 & H2 & K2). cbn [fst snd] in *. split; [congruence|]. split; [done|]. intros Hn. rewrite K2 by congruence. by apply K1.
Qed.

Lemma join_clients_ends l o F' T' H' : conns_ok l ->
  holds o (concat (map conn_fds l) ++ F') (concat (map conn_threads l) ++ T') (concat (map conn_heap l) ++ H') ->
  ends (join_clients l) o (fun _ o' => holds o' F' T' H').
Proof.
  revert o; induction l as [|[c|] l IH]; intros o Hl Hh; cbn [join_clients]; [by apply ends_ret| |].
  - apply Forall_cons_iff in Hl as [Hc Hl]. cbn in Hh. eapply ends_bind; [apply finish_ends; [done|exact Hh]|cbn beta]. intros _ o1 H1.
    eapply ends_bind; [apply join_ends; exact H1|cbn beta]. intros _ o2 H2. by apply IH.
  - apply Forall_cons_iff in Hl as [_ Hl]. by apply IH.
Qed.

(** A running server gives everything back but itself; one that does not run gives nothing back. *)
Lemma stop_ends s o : server_holds s o F T H ->
  ends (TcpServer_Stop s true) o (fun s' o' => isRunning s' = false /\ sv_self s' = sv_self s /\ clientsArrPtr s' = None /\
    holds o' ((if isRunning s then [] else fd_list (sockFd s) ++ fd_list (sockFdV4 s)) ++ F) T (sv_self s :: H)).
Proof.
  intros [(Hc & Hidle & Hp) Hh]. unfold TcpServer_Stop. unfold server_fds, server_threads, server_heap in Hh.
  destruct (isRunning s) eqn:E; cbn [negb].
  - destruct (Hp eq_refl) as [arr Ea]. rewrite Ea in Hh |- *. cbn [option_list] in Hh. set (CF := concat (map conn_fds (clients s))) in Hh.
    set (CT := concat (map conn_threads (clients s))) in Hh. set (CH := concat (map conn_heap (clients s))) in Hh.
    assert (H0 : holds o (fd_list (sockFd s) ++ fd_list (sockFdV4 s) ++ CF ++ F) (tid_list (svrThread s) ++ tid_list (svrThreadV4 s) ++ CT ++ T)
      (arr :: CH ++ sv_self s :: H)) by held. clear Hh.
    eapply ends_bind; [apply close_if_open_ends; exact H0|cbn beta]. intros _ o1 H1.
    eapply ends_bind; [apply close_if_open_ends; exact H1|cbn beta]. intros _ o2 H2.
    eapply ends_bind; [apply join_if_any_ends; exact H2|cbn beta]. intros _ o3 H3.
    eapply ends_bind; [apply join_if_any_ends; exact H3|cbn beta]. intros _ o4 H4. after malloc_ends. intros [p|] o5 [E5 H5]; [|done].
    eapply ends_bind.
    { eapply ends_bind; [apply (join_clients_ends (clients s) o5 F T (p :: arr :: sv_self s :: H)); [done|]; fold CF CT CH; held|cbn beta].
      intros _ o6 H6. apply free_ends. exact H6. }
    cbn beta. intros _ o6 H6. eapply ends_bind; [apply free_ends; exact H6|cbn beta]. intros _ o7 H7. apply ends_ret. split; [done|]. split; [done|]. by split.
  - destruct (Hidle eq_refl) as (Ec & Ea & Et & Et4). apply ends_ret. split; [done|]. split; [done|]. split; [done|]. rewrite Ec, Ea, Et, Et4 in Hh. cbn in Hh. held.
Qed.
End Served.

(** ** The UDP node's holdings *)

Section Udp.
Context (F : list Z) (T H : list nat).

Definition udp_holds (u : udp_res) (o : os) : Prop :=
  holds o (fd_list (u_sockFd u) ++ fd_list (u_sockFdV4 u) ++ F) (tid_list (recvThreadV6 u) ++ tid_list (recvThreadV4 u) ++ tid_list (retryThread u) ++ T)
    (u_self u :: H).

(** Which threads the answers give a node: receivers for the bound families, and the one that retries. *)
Definition recv6 (a : create_answers) : bool := sock6 (udp_init a) && bind6 (udp_init a) && u_args6 (udp_start a) && u_thread6 (udp_start a).
Definition recv4 (a : create_answers) : bool := sock4 (udp_init a) && bind4 (udp_init a) && u_args4 (udp_start a) && u_thread4 (udp_start a).
Definition udp_bound (a : create_answers) : bool := (sock6 (udp_init a) && bind6 (udp_init a)) || (sock4 (udp_init a) && bind4 (udp_init a)).
Definition udp_started (a : create_answers) : bool := udp_mem a && udp_bound a && (recv6 a || recv4 a || u_retry (udp_start a)).
Definition udp_complete (a : create_answers) : bool := recv6 a && recv4 a && u_retry (udp_start a).

Lemma udp_init_ends self a o : holds o F T (self :: H) ->
  ends (UdpNode_Init self a) o (fun r o' => r.1 = (sock6 a && bind6 a) || (sock4 a && bind4 a) /\ (0 <=? u_sockFd r.2) = sock6 a && bind6 a /\
    (0 <=? u_sockFdV4 r.2) = sock4 a && bind4 a /\ u_running r.2 = false /\ u_self r.2 = self /\
    holds o' (fd_list (u_sockFd r.2) ++ fd_list (u_sockFdV4 r.2) ++ F) T (self :: H)).
Proof.
  intros Hh. unfold UdpNode_Init. after bind_socket_ends. intros fd6 o2 [H2 B6]. after bind_socket_ends. intros fd4 o3 [H3 B4]. apply ends_ret. cbn.
  rewrite !Z.ltb_antisym, B6, B4, negb_andb, !negb_involutive. split; [done|]. split; [done|]. split; [done|]. split; [done|]. split; [done|]. held.
Qed.

Lemma udp_start_ends u a o : u_running u = false -> (0 <=? u_sockFd u) || (0 <=? u_sockFdV4 u) = true ->
  holds o (fd_list (u_sockFd u) ++ fd_list (u_sockFdV4 u) ++ F) T (u_self u :: H) ->
  let r6 := (0 <=? u_sockFd u) && u_args6 a && u_thread6 a in let r4 := (0 <=? u_sockFdV4 u) && u_args4 a && u_thread4 a in
  ends (UdpNode_Start u a) o (fun r o' => r.1 = r6 || r4 || u_retry a /\ u_running r.2 = r.1 /\ u_self r.2 = u_self u /\ udp_holds r.2 o' /\
    (recvThreadV6 r.2 =? 0)%nat = negb r6 /\ (recvThreadV4 r.2 =? 0)%nat = negb r4 /\ (retryThread r.2 =? 0)%nat = negb (u_retry a)).
Proof.
  intros Er Hb Hh r6 r4. unfold UdpNode_Start. rewrite Er, !Z.ltb_antisym, <- negb_orb, Hb. cbn [negb orb].
  after start_thread_ends. intros t6 o3 [H3 T6]. after start_thread_ends. intros t4 o4 [H4 T4]. after create_ends. intros t o5 [H5 Tr]. fold r6 in T6. fold r4 in T4.
  apply ends_ret. cbn. rewrite T6, T4, Tr, !negb_andb, !negb_involutive. split; [done|]. split; [done|]. split; [done|]. split; [unfold udp_holds; cbn; held|by split].
Qed.

Lemma create_udp_ends a o : holds o F T H ->
  ends (create_udp a) o (fun r o' => match r with
    | Some u => udp_started a = true /\ u_running u = true /\ udp_holds u o' /\
        (recvThreadV6 u =? 0)%nat = negb (recv6 a) /\ (recvThreadV4 u =? 0)%nat = negb (recv4 a) /\ (retryThread u =? 0)%nat = negb (u_retry (udp_start a))
    | None => udp_started a = false /\ holds o' F T H
    end).
Proof.
  intros Hh. unfold create_udp, udp_started, udp_bound, recv6, recv4. after malloc_ends. intros [self|] o1 [-> H1]; cbn [andb]; [|by apply ends_ret].
  after udp_init_ends. intros [up u] o2 (Eu & B6 & B4 & Er & <- & H2). cbn [fst snd] in *. rewrite <- B6, <- B4 in *. rewrite Eu.
  destruct ((0 <=? u_sockFd u) || (0 <=? u_sockFdV4 u)) eqn:Eb; cbn [andb].
  2: { apply orb_false_iff in Eb as [E6 E4]. unfold fd_list in H2. rewrite E6, E4 in H2. after free_ends. intros _ o3 H3. by apply ends_ret. }
  eapply ends_bind; [by apply udp_start_ends|cbn beta]. intros [any v] o3 (Ea & Ev & Es & H3 & T6 & T4 & Tr). cbn [fst snd] in *. rewrite <- Ea. destruct any.
  - apply ends_ret. split; [done|]. split; [done|]. split; [exact H3|]. by split.
  - symmetry in Ea. apply orb_false_iff in Ea as [Ea Nr]. apply orb_false_iff in Ea as [N6 N4]. rewrite N6 in T6. rewrite N4 in T4. rewrite Nr in Tr.
    unfold udp_holds, tid_list in H3. rewrite T6, T4, Tr, Es in H3. cbn [negb app] in H3. unfold UdpNode_Destroy. eapply ends_bind.
    { eapply ends_bind; [apply close_if_open_ends; exact H3|cbn beta]. intros _ o4 H4. apply close_if_open_ends. exact H4. }
    cbn beta. intros _ o4 H4. eapply ends_bind; [apply free_ends; exact H4|cbn beta]. intros _ o5 H5. by apply ends_ret.
Qed.
End Udp.

(** ** The whole life *)

Lemma bind_none {A B} (m : io A) (k : A -> io B) o : m o = None -> (m ≫= k) o = None.
Proof. intros E. unfold mbind, io_bind. by rewrite E. Qed.

Lemma bind_fails {A B} (m : io A) (k : A -> io B) o (P : A -> os -> Prop) : ends m o P -> (forall x o', P x o' -> k x o' = None) -> (m ≫= k) o = None.
Proof. intros (x & o' & E & Hp) Hk. unfold mbind, io_bind. rewrite E. cbn. by apply Hk. Qed.

(** Joining a handle that was never filled in. *)
Lemma join_missing t o F T H : holds o F T H -> (t =? 0)%nat = true -> pthread_join t o = None.
Proof. intros (_ & _ & _ & _ & H0) Et. apply Nat.eqb_eq in Et. subst t. unfold pthread_join. by rewrite remove1_none. Qed.

(** What the node took for the UDP node. *)
Definition udp_fds (r : option udp_res) : list Z := match r with Some u => fd_list (u_sockFd u) ++ fd_list (u_sockFdV4 u) | None => [] end.
Definition udp_threads (r : option udp_res) : list nat :=
  match r with Some u => tid_list (recvThreadV6 u) ++ tid_list (recvThreadV4 u) ++ tid_list (retryThread u) | None => [] end.
Definition udp_heap (r : option udp_res) : list nat := match r with Some u => [u_self u] | None => [] end.

Definition end_udp (r : option udp_res) : io unit :=
  match r with
  | None => mret tt
  | Some u => u ← UdpNode_Stop u; UdpNode_Destroy u;; free (Some (u_self u))
  end.

Section Shutdown.
Context (F : list Z) (T H : list nat).

Lemma end_udp_ends r o :
  match r with Some u => u_running u = true /\ (recvThreadV6 u =? 0)%nat = false /\ (recvThreadV4 u =? 0)%nat = false /\ (retryThread u =? 0)%nat = false | None => True end ->
  holds o (udp_fds r ++ F) (udp_threads r ++ T) (udp_heap r ++ H) -> ends (end_udp r) o (fun _ o' => holds o' F T H).
Proof.
  intros Hr Hh. destruct r as [u|]; [|by apply ends_ret]. destruct Hr as (Eu & E6 & E4 & Er). unfold udp_fds, udp_threads, udp_heap, tid_list in Hh.
  rewrite E6, E4, Er in Hh. cbn in Hh. rewrite <- app_assoc in Hh. unfold end_udp, UdpNode_Stop. rewrite Eu. cbn [negb].
  eapply ends_bind.
  { eapply ends_bind; [apply close_if_open_ends; exact Hh|cbn beta]. intros _ o1 H1. eapply ends_bind; [apply close_if_open_ends; exact H1|cbn beta]. intros _ o2 H2.
    eapply ends_bind; [apply join_ends; exact H2|cbn beta]. intros _ o3 H3. eapply ends_bind; [apply join_ends; exact H3|cbn beta]. intros _ o4 H4.
    eapply ends_bind; [apply join_ends; exact H4|cbn beta]. intros _ o5 H5.
    apply (ends_ret _ _ (fun v o' => u_sockFd v = -1 /\ u_sockFdV4 v = -1 /\ u_self v = u_self u /\ holds o' F T (u_self u :: H))). by split. }
  cbn beta. intros v o6 (F6 & F4 & Es & H6). unfold UdpNode_Destroy. rewrite F6, F4, Es.
  eapply ends_bind; [eapply ends_bind; [apply close_if_open_ends; exact H6|cbn beta; intros _ o7 H7; apply close_if_open_ends; exact H7]|cbn beta].
  intros _ o7 H7. by apply free_ends.
Qed.

Lemma end_udp_fails u o : u_running u = true -> (recvThreadV6 u =? 0)%nat || (recvThreadV4 u =? 0)%nat || (retryThread u =? 0)%nat = true ->
  holds o (udp_fds (Some u) ++ F) (udp_threads (Some u) ++ T) (udp_heap (Some u) ++ H) -> end_udp (Some u) o = None.
Proof.
  intros Eu Hm Hh. cbn in Hh. rewrite <- !app_assoc in Hh. apply bind_none. unfold UdpNode_Stop. rewrite Eu. cbn [negb].
  eapply bind_fails; [apply close_if_open_ends; exact Hh|cbn beta]. intros _ o1 H1. eapply bind_fails; [apply close_if_open_ends; exact H1|cbn beta]. intros _ o2 H2.
  destruct (recvThreadV6 u =? 0)%nat eqn:E6; [by apply bind_none; eapply join_missing|]. unfold tid_list in H2 at 1. rewrite E6 in H2. cbn [orb] in Hm.
  eapply bind_fails; [apply join_ends; exact H2|cbn beta]. intros _ o3 H3.
  destruct (recvThreadV4 u =? 0)%nat eqn:E4; [by apply bind_none; eapply join_missing|]. unfold tid_list in H3 at 1. rewrite E4 in H3. cbn [orb] in Hm.
  eapply bind_fails; [apply join_ends; exact H3|cbn beta]. intros _ o4 H4. by apply bind_none; eapply join_missing.
Qed.

(** Stopping and destroying the server. *)
Lemma end_server_ends s o : server_holds s o F T H ->
  ends (s' ← TcpServer_Stop s true; TcpServer_Destroy s' true) o
    (fun _ o' => holds o' ((if isRunning s then [] else fd_list (sockFd s) ++ fd_list (sockFdV4 s)) ++ F) T H).
Proof.
  intros Hs. eapply ends_bind; [by apply stop_ends|cbn beta]. intros s' o1 (Er & Es & Ea & H1). unfold TcpServer_Destroy, TcpServer_Stop. rewrite Er. cbn [negb].
  eapply (ends_bind _ _ _ (fun x o' => x = s' /\ o' = o1)); [by apply ends_ret|]. intros x o' [-> ->]. rewrite Ea, Es.
  eapply (ends_bind _ _ _ (fun _ o' => o' = o1)); [by exists tt, o1|]. intros _ o' ->. by apply free_ends.
Qed.
End Shutdown.

(** The answers under which the node exists, listens on a family, and has an accepting thread. *)
Definition created (a : create_answers) : bool := node_mem a && (server_mem a && server_mutex a).
Definition listens6 (a : create_answers) : bool := sock6 (server_init a) && bind6 (server_init a) && listen6 (server_start a).
Definition listens4 (a : create_answers) : bool := sock4 (server_init a) && bind4 (server_init a) && listen4 (server_start a).
Definition serving (a : create_answers) : bool :=
  starts (sock6 (server_init a) && bind6 (server_init a)) (sock4 (server_init a) && bind4 (server_init a)) (server_start a).

Definition nothing : os := mkOs [] [] [] 1.
Lemma nothing_holds : holds nothing [] [] [].
Proof. repeat (split; [done|]). split; [cbn; lia|]. apply not_elem_of_nil. Qed.

(** The state of a created node: its server, its connections, its UDP node and its maintenance thread. *)
Definition node_holds (a : create_answers) (n : node_res) (o : os) : Prop :=
  let t := match maintenanceThread n with Some t => [t] | None => [] end in
  isRunning (nr_server n) = serving a /\
  (serving a = false -> (0 <=? sockFd (nr_server n)) = listens6 a /\ (0 <=? sockFdV4 (nr_server n)) = listens4 a) /\
  match nr_udp n with
  | Some u => udp_started a = true /\ u_running u = true /\ (recvThreadV6 u =? 0)%nat = negb (recv6 a) /\
      (recvThreadV4 u =? 0)%nat = negb (recv4 a) /\ (retryThread u =? 0)%nat = negb (u_retry (udp_start a))
  | None => udp_started a = false
  end /\
  both_hold (udp_fds (nr_udp n)) (t ++ udp_threads (nr_udp n)) (udp_heap (nr_udp n) ++ [nr_self n]) (nr_server n) (outboundClients n) o.

Lemma node_create_ends a : ends (Node_Create a) nothing (fun r o => match r with
  | Some n => created a = true /\ node_holds a n o
  | None => created a = false /\ holds o [] [] []
  end).
Proof.
  unfold Node_Create, created. eapply ends_bind; [apply malloc_ends, nothing_holds|cbn beta]. intros [self|] o1 [-> H1]; cbn [andb]; [|by apply ends_ret].
  after create_server_ends. intros [s|] o2; cbn beta iota.
  2: { intros [E H2]. eapply ends_bind; [apply free_ends; exact H2|cbn beta]. intros _ o3 H3. by apply ends_ret. }
  intros (Ec & Er & E6 & E4 & H2). eapply ends_bind; [by apply init_server_ends|cbn beta]. intros s1 o3 (Er1 & H3 & B6 & B4).
  eapply ends_bind; [apply start_server_ends; [done|unfold MAX_CONS; lia|exact H3]|cbn beta]. intros s2 o4 (H4 & Es & L6 & L4). rewrite B6, B4 in *.
  destruct H4 as [Hok H4]. eapply ends_bind; [apply create_udp_ends; exact H4|cbn beta]. intros u o5 Hu.
  assert (H5 : holds o5 (udp_fds u ++ server_fds s2) (udp_threads u ++ server_threads s2) (udp_heap u ++ server_heap s2 ++ [self])).
  { destruct u as [u|]; [destruct Hu as (_ & _ & Hu & _); unfold udp_holds in Hu|destruct Hu as [_ Hu]]; cbn; held. }
  eapply ends_bind; [apply create_ends; exact H5|cbn beta]. intros t o6 [H6 Et]. apply ends_ret. split; [done|].
  split; [exact Es|]. split; [done|]. split; [destruct u as [u|]; [|apply Hu]; destruct Hu as (U1 & U2 & _ & U3); by split|].
  unfold both_hold. split; [by apply Forall_replicate|]. split; [exact Hok|]. cbn [outboundClients nr_server nr_udp nr_self maintenanceThread].
  rewrite !replicate_none by done. unfold tid_list in H6. destruct (t =? 0)%nat; held.
Qed.

Lemma join_maintenance s l m o F T H : both_hold F (match m with Some t => [t] | None => [] end ++ T) H s l o ->
  ends (match m with None => mret tt | Some t => pthread_join t end) o (fun _ o' => both_hold F T H s l o').
Proof.
  intros [Hl [Hok Hh]]. destruct m as [t|]; [|apply ends_ret; by split].
  eapply ends_mono; [apply (join_ends o (server_fds s ++ concat (map conn_fds l) ++ F) (server_threads s ++ concat (map conn_threads l) ++ T)
    (server_heap s ++ concat (map conn_heap l) ++ H)); held|cbn beta]. intros _ o1 H1. split; [done|by split].
Qed.

Lemma drop_outbound s l o F T H : both_hold F T H s l o -> ends (close_outbound l) o (fun _ o' => server_holds s o' F T H).
Proof.
  intros Hb. pose proof Hb as [_ [Hok _]]. apply both_conns in Hb; [|done]. eapply ends_mono; [by apply close_outbound_ends|cbn beta]. intros _ o' Hh. by split.
Qed.

(** What a node that serves no one leaves open. *)
Definition left_open (a : create_answers) : nat :=
  if serving a then 0 else ((if listens6 a then 1 else 0) + (if listens4 a then 1 else 0))%nat.

Lemma node_destroy_ends a n o : node_holds a n o -> udp_started a && negb (udp_complete a) = false ->
  ends (Node_Destroy n true) o (fun _ o' => exists F, holds o' F [] [] /\ length F = left_open a).
Proof.
  intros (Er & Hl & Hu & Hs) Hc. unfold Node_Destroy. set (t := maintenanceThread n) in *.
  set (G := if serving a then [] else fd_list (sockFd (nr_server n)) ++ fd_list (sockFdV4 (nr_server n))).
  assert (HG : length G = left_open a).
  { unfold G, left_open. destruct (serving a); [done|]. destruct (Hl eq_refl) as [L6 L4]. unfold fd_list. rewrite L6, L4. by destruct (listens6 a), (listens4 a). }
  eapply ends_bind; [apply join_maintenance; exact Hs|cbn beta]. intros _ o0 H0. eapply ends_bind; [by apply drop_outbound|cbn beta]. intros _ o1 H1. change (ends ((s ← TcpServer_Stop (nr_server n) true; TcpServer_Destroy s true;; (end_udp (nr_udp n);; free (Some (nr_self n))))) o1
    (fun _ o' => exists F, holds o' F [] [] /\ length F = left_open a)).
  assert (Hassoc : forall o', (s ← TcpServer_Stop (nr_server n) true; TcpServer_Destroy s true;; (end_udp (nr_udp n);; free (Some (nr_self n)))) o' =
    ((s ← TcpServer_Stop (nr_server n) true; TcpServer_Destroy s true) ;; (end_udp (nr_udp n);; free (Some (nr_self n)))) o').
  { intros o'. unfold mbind, io_bind. destruct (TcpServer_Stop (nr_server n) true o') as [[s o2]|]; done. }
  unfold ends. rewrite Hassoc. fold (ends (((s ← TcpServer_Stop (nr_server n) true; TcpServer_Destroy s true) ;; (end_udp (nr_udp n);; free (Some (nr_self n))))) o1
    (fun _ o' => exists F, holds o' F [] [] /\ length F = left_open a)).
  eapply ends_bind; [by apply end_server_ends|cbn beta]. intros _ o2 H2. rewrite Er in H2. fold G in H2.
  eapply ends_bind; [apply (end_udp_ends G [] [nr_self n])|cbn beta].
  - destruct (nr_udp n) as [u|]; [|done]. destruct Hu as (U0 & U1 & U6 & U4 & Ut). rewrite U0 in Hc. cbn [andb] in Hc. apply negb_false_iff in Hc.
    unfold udp_complete in Hc. apply andb_true_iff in Hc as [Hc Rt]. apply andb_true_iff in Hc as [R6 R4]. rewrite U6, U4, Ut, R6, R4, Rt. done.
  - rewrite app_nil_r. held.
  - intros _ o3 H3. eapply ends_mono; [apply free_ends; exact H3|cbn beta]. intros _ o4 H4. by exists G.
Qed.

Lemma node_destroy_fails a n o : node_holds a n o -> udp_started a && negb (udp_complete a) = true -> Node_Destroy n true o = None.
Proof.
  intros (Er & Hl & Hu & Hs) Hc. apply andb_true_iff in Hc as [Hst Hc]. apply negb_true_iff in Hc.
  destruct (nr_udp n) as [u|] eqn:Eu; [|congruence]. destruct Hu as (_ & U1 & U6 & U4 & Ut). unfold Node_Destroy. rewrite Eu.
  eapply bind_fails; [apply join_maintenance; exact Hs|cbn beta]. intros _ o0 H0. eapply bind_fails; [by apply drop_outbound|cbn beta]. intros _ o1 H1. eapply bind_fails; [by apply stop_ends|cbn beta]. intros s' o2 (Er2 & Es & Ea & H2). unfold TcpServer_Destroy, TcpServer_Stop. rewrite Er2. cbn [negb].
  eapply bind_fails.
  { eapply (ends_bind _ _ _ (fun x o' => x = s' /\ o' = o2)); [by apply ends_ret|]. intros x o' [-> ->]. rewrite Ea, Es.
    eapply (ends_bind _ _ _ (fun _ o' => o' = o2)); [by exists tt, o2|]. intros _ o' ->. apply free_ends. exact H2. }
  cbn beta. intros _ o3 H3. apply bind_none. change (end_udp (Some u) o3 = None).
  apply (end_udp_fails (if isRunning (nr_server n) then [] else fd_list (sockFd (nr_server n)) ++ fd_list (sockFdV4 (nr_server n))) [] [nr_self n]); [done| |].
  - rewrite U6, U4, Ut. unfold udp_complete in Hc. by destruct (recv6 a), (recv4 a), (u_retry (udp_start a)).
  - rewrite app_nil_r. held.
Qed.

(** ** Properties *)

(** C21: what the node takes from the system it gives back, under two conditions.  From a clean process,
    whatever fails while the node is created, whomever it dials and reaps, and whoever connects and leaves
    in whatever order, provided that every accepted client gets its argument block and its thread
    ([spawns]; a client without a thread is joined on a handle that was never filled in, see
    [accept_without_thread]) and that the array of handles in [TcpServer_Stop] can be allocated:
    [Node_Destroy] closes no descriptor twice, frees no block twice and joins no thread that does not
    exist, and afterwards no thread and no block is left -- except that a UDP node that runs without both
    receiving threads and the retrying one is joined on a handle that was never filled in (so on a host
    without one of the address families), and that sockets bound by a server that could not start are
    never closed. *)
Theorem shutdown_exact a evs :
  Forall (fun e => match e with Arrive c => spawns c | _ => True end) evs ->
  (created a && udp_started a && negb (udp_complete a) = true -> life a evs true nothing = None) /\
  (created a && udp_started a && negb (udp_complete a) = false ->
   exists o, life a evs true nothing = Some (created a, o) /\ threads o = [] /\ heap o = [] /\
     length (fds o) = if created a then left_open a else 0%nat).
Proof.
  intros He. split; intros Hc.
  - apply andb_true_iff in Hc as [Hc Hn]. apply andb_true_iff in Hc as [Hc Hs]. unfold life. eapply bind_fails; [apply node_create_ends|cbn beta].
    intros [n|] o' [Er Hh]; [|congruence]. destruct Hh as (R1 & R2 & R3 & R4).
    eapply bind_fails; [apply serve_ends; [exact He|exact R4]|cbn beta]. intros [s l] o2 (S1 & S2 & S3). cbn [fst snd] in *. apply bind_none.
    apply (node_destroy_fails a); [|by rewrite Hs, Hn]. split; [cbn; congruence|]. split; [|by split]. cbn. intros Hf. rewrite S3 by congruence. by apply R2.
  - assert (Hd : ends (life a evs true) nothing (fun b o => b = created a /\ exists F, holds o F [] [] /\ length F = if created a then left_open a else 0%nat)).
    { unfold life. eapply ends_bind; [apply node_create_ends|cbn beta]. intros [n|] o2.
      2: { intros [Ec Hh]. apply ends_ret. split; [done|]. rewrite Ec. by exists []. }
      intros [Ec (R1 & R2 & R3 & R4)]. rewrite Ec in Hc |- *. eapply ends_bind; [apply serve_ends; [exact He|exact R4]|cbn beta]. intros [s l] o3 (S1 & S2 & S3). cbn [fst snd] in *.
      eapply ends_bind; [apply (node_destroy_ends a)|cbn beta].
      - split; [cbn; congruence|]. split; [|by split]. cbn. intros Hf. rewrite S3 by congruence. by apply R2.
      - exact Hc.
      - intros _ o4 Hf. by apply ends_ret. }
    destruct Hd as (b & o & El & -> & F & (HF & HT & HH & _) & HL). exists o. split; [exact El|].
    split; [by apply Permutation_nil_r in HT|]. split; [by apply Permutation_nil_r in HH|]. by rewrite HF.
Qed.

Definition all_well : create_answers :=
  mkCreate true true true (mkInit true true true true) (mkStart true true true true true true true) true (mkInit true true true true) (mkUdpStart true true true true true) true.
(** A host without IPv6. *)
Definition only_v4 : create_answers :=
  mkCreate true true true (mkInit false false true true) (mkStart true true true true true true true) true (mkInit false false true true) (mkUdpStart true true true true true) true.
Definition guests : list arrival := [Arrive (mkAccept true true true true); Arrive (mkAccept true true true true); Arrive (mkAccept false true true true); Leave 0;
  Dial (mkDial true true true true true true); Dial (mkDial true true true true true false); Dial (mkDial true true true true true true); Reap (Nat.eqb 0)].

Lemma shutdown_exact_witness :
  (exists o, life all_well guests true nothing = Some (true, o) /\ threads o = [] /\ heap o = [] /\ length (fds o) = 0%nat) /\
  life only_v4 guests true nothing = None.
Proof.
  assert (He : Forall (fun e => match e with Arrive c => spawns c | _ => True end) guests) by (by repeat constructor).
  split; [exact (proj2 (shutdown_exact all_well guests He) eq_refl)|exact (proj1 (shutdown_exact only_v4 guests He) eq_refl)].
Defined.

(** A client whose thread cannot be created is "joined" all the same. *)
Lemma accept_without_thread s a o F T H i : holds o F T H -> conn_mem a = true -> conn_init a = true -> arg_mem a && io_thread a = false ->
  first_index (fun c => bool_decide (c = None)) 0 (clients s) = Some i -> server_accept s a o = None.
Proof.
  intros Hh Hm Hi Ht Ei. unfold server_accept. eapply bind_fails; [apply open_ends; exact Hh|cbn beta]. intros fd o1 [H1 _].
  eapply bind_fails; [apply malloc_ends; exact H1|cbn beta]. intros [self|] o2 [E2 H2]; [|congruence]. rewrite Hi. cbn [negb]. rewrite Ei.
  eapply bind_fails; [apply malloc_ends; exact H2|cbn beta]. intros [arg|] o3 [E3 H3].
  - rewrite E3 in Ht. cbn [andb] in Ht. eapply bind_fails; [apply create_ends; exact H3|cbn beta]. intros t o4 [H4 Et]. rewrite Ht in Et. cbn [negb] in Et.
    eapply bind_fails; [apply free_ends; exact H4|cbn beta]. intros _ o5 H5. rewrite Et. apply bind_none. by eapply join_missing.
  - apply bind_none. by eapply join_missing.
Qed.
