(* ===== verification/Concurrency.v ===== *)
(** * Threads, locks and shared tables: a small theory

    Code reduced to what it locks, which shared tables it touches and where it waits for a socket or for
    another thread to end, with branches and loops left open; pools of threads that run such code; an
    executable check of the order in which locks are taken, of the lock that guards each table and of who
    waits for whose end; and what a pool of checked threads can never do: wait in a circle of locks and
    joins, or touch a guarded table from two threads at once.  [Locking] instantiates
    it with the locks and the functions of the program. *)
From stdpp Require Import relations.
From S2P Require Import Prelude.

Inductive mode := Shared | Exclusive.
#[export] Instance mode_eq_dec : EqDecision mode.
Proof. solve_decision. Defined.

Section Syntax.
Context {lock var : Type}.

Inductive code :=
| Skip
| Lock (l : lock) (m : mode)
| Unlock (l : lock)
| Read (v : var)
| Write (v : var)
| Io                       (** a send or receive on the current connection *)
| Join (k : nat)           (** [pthread_join] of a thread of level [k] *)
| Wait (j : nat)           (** inside [pthread_join] of thread [j] *)
| Pick                     (** going over to some connection *)
| Seq (a b : code)
| Either (a b : code)
| Repeat (a : code).
End Syntax.
Arguments code : clear implicits.

Declare Scope code_scope.
Delimit Scope code_scope with code.
Bind Scope code_scope with code.
Notation "a >> b" := (Seq a b) (at level 62, right associativity) : code_scope.

Section Theory.
Context {lock var : Type} `{EqDecision lock} (per_connection : lock -> bool) (rank : lock -> nat) (guard : var -> option lock).

(** A lock of a connection has one instance per connection, the others have one. *)
Definition instance (l : lock) (c : nat) : nat := if per_connection l then c else 0%nat.

(** The level of a thread (it joins threads of lower levels), the locks it holds, the connection it works
    on, and what is left to run. *)
Record thread := mkThread { level : nat; held : list (lock * nat * mode); cur : nat; todo : list (code lock var) }.

Definition wants (t : thread) : option (lock * nat * mode) :=
  match todo t with Lock l m :: _ => Some (l, instance l (cur t), m) | _ => None end.

(** One instance of a lock is held by one thread, or by readers only; a thread does not take a lock again. *)
Definition compatible (l : lock) (i : nat) (m : mode) (x : lock * nat * mode) : bool :=
  negb (bool_decide (x.1 = (l, i))) || (bool_decide (m = Shared) && bool_decide (x.2 = Shared)).

(** [prefer]: whether a reader also waits behind a writer that waits, which POSIX leaves open. *)
Definition grants (prefer : bool) (p : list thread) (l : lock) (i : nat) (m : mode) : bool :=
  forallb (fun t => forallb (compatible l i m) (held t)) p &&
  (negb (prefer && bool_decide (m = Shared)) || forallb (fun t => negb (bool_decide (wants t = Some (l, i, Exclusive)))) p).

Fixpoint release (l : lock) (h : list (lock * nat * mode)) : option (list (lock * nat * mode)) :=
  match h with
  | [] => None
  | x :: r => if decide (x.1.1 = l) then Some r else r ← release l r; Some (x :: r)
  end.

(** One thread moves beside the others; [responds c]: the peer of connection [c] reads and writes.  A join
    picks a thread of its level and returns when that thread has nothing left to run; where the pool has
    no thread of the level there is nobody to join. *)
Inductive thread_step (prefer : bool) (responds : nat -> bool) (p : list thread) : thread -> thread -> Prop :=
| step_skip v h c k : thread_step prefer responds p (mkThread v h c (Skip :: k)) (mkThread v h c k)
| step_lock v h c l m k : grants prefer p l (instance l c) m = true ->
    thread_step prefer responds p (mkThread v h c (Lock l m :: k)) (mkThread v ((l, instance l c, m) :: h) c k)
| step_unlock v h h' c l k : release l h = Some h' -> thread_step prefer responds p (mkThread v h c (Unlock l :: k)) (mkThread v h' c k)
| step_read v h c x k : thread_step prefer responds p (mkThread v h c (Read x :: k)) (mkThread v h c k)
| step_write v h c x k : thread_step prefer responds p (mkThread v h c (Write x :: k)) (mkThread v h c k)
| step_io v h c k : responds c = true -> thread_step prefer responds p (mkThread v h c (Io :: k)) (mkThread v h c k)
| step_join v h c n j u k : p !! j = Some u -> level u = n -> thread_step prefer responds p (mkThread v h c (Join n :: k)) (mkThread v h c (Wait j :: k))
| step_nobody v h c n k : Forall (fun u => level u <> n) p -> thread_step prefer responds p (mkThread v h c (Join n :: k)) (mkThread v h c k)
| step_wait v h c j u k : p !! j = Some u -> todo u = [] -> thread_step prefer responds p (mkThread v h c (Wait j :: k)) (mkThread v h c k)
| step_pick v h c c' k : thread_step prefer responds p (mkThread v h c (Pick :: k)) (mkThread v h c' k)
| step_seq v h c a b k : thread_step prefer responds p (mkThread v h c (Seq a b :: k)) (mkThread v h c (a :: b :: k))
| step_left v h c a b k : thread_step prefer responds p (mkThread v h c (Either a b :: k)) (mkThread v h c (a :: k))
| step_right v h c a b k : thread_step prefer responds p (mkThread v h c (Either a b :: k)) (mkThread v h c (b :: k))
| step_leave v h c a k : thread_step prefer responds p (mkThread v h c (Repeat a :: k)) (mkThread v h c k)
| step_again v h c a k : thread_step prefer responds p (mkThread v h c (Repeat a :: k)) (mkThread v h c (a :: Repeat a :: k)).

Definition pool_step (prefer : bool) (responds : nat -> bool) (p p' : list thread) : Prop :=
  exists i t t', p !! i = Some t /\ thread_step prefer responds p t t' /\ p' = <[i := t']> p.

(** Threads that start with nothing locked. *)
Definition start (v c : nat) (a : code lock var) : thread := mkThread v [] c [a].

(** [t] cannot have its lock because of [t'], which holds it or waits for it as a writer. *)
Definition waits_for_lock (prefer : bool) (t t' : thread) : Prop :=
  exists l i m, wants t = Some (l, i, m) /\
    ((exists x, x ∈ held t' /\ compatible l i m x = false) \/ (prefer = true /\ m = Shared /\ wants t' = Some (l, i, Exclusive))).

(** [t] is joining [t'], which has not ended. *)
Definition waits_for_end (p : list thread) (t t' : thread) : Prop :=
  exists j k, todo t = Wait j :: k /\ p !! j = Some t' /\ todo t' <> [].

Definition waits_for (prefer : bool) (p : list thread) (t t' : thread) : Prop :=
  t ∈ p /\ t' ∈ p /\ (waits_for_lock prefer t t' \/ waits_for_end p t t').

(** The table a thread is about to touch, the connection it does so for, and whether it writes. *)
Definition next_access (t : thread) : option (var * nat * bool) :=
  match todo t with
  | Read v :: _ => Some (v, cur t, false)
  | Write v :: _ => Some (v, cur t, true)
  | _ => None
  end.

(** ** The check *)

Fixpoint drop_lock (l : lock) (h : list (lock * mode)) : option (list (lock * mode)) :=
  match h with
  | [] => None
  | x :: r => if decide (x.1 = l) then Some r else r ← drop_lock l r; Some (x :: r)
  end.

(** The locks held after [c], starting with [h]: locks are taken in the order of their ranks, a guarded table
    is read under its lock and written under its lock taken exclusively, a thread of level [v] joins only
    threads of lower levels and only with nothing locked, and the connection does not change under a lock of a connection. *)
Fixpoint check (v : nat) (h : list (lock * mode)) (c : code lock var) : option (list (lock * mode)) :=
  match c with
  | Skip | Io => Some h
  | Lock l m => if forallb (fun x => rank x.1 <? rank l)%nat h then Some ((l, m) :: h) else None
  | Unlock l => drop_lock l h
  | Read x => match guard x with Some g => if existsb (fun x => bool_decide (x.1 = g)) h then Some h else None | None => Some h end
  | Write x => match guard x with Some g => if bool_decide ((g, Exclusive) ∈ h) then Some h else None | None => Some h end
  | Join k => match h with [] => if (k <? v)%nat then Some [] else None | _ => None end
  | Wait _ => None
  | Pick => if existsb (fun x => per_connection x.1) h then None else Some h
  | Seq a b => h' ← check v h a; check v h' b
  | Either a b => x ← check v h a; y ← check v h b; if decide (x = y) then Some x else None
  | Repeat a => x ← check v h a; if decide (x = h) then Some h else None
  end.

Fixpoint check_all (v : nat) (h : list (lock * mode)) (k : list (code lock var)) : option (list (lock * mode)) :=
  match k with
  | [] => Some h
  | c :: k => h' ← check v h c; check_all v h' k
  end.

(** A thread that is joining holds nothing; a join begins nowhere but at the head. *)
Definition check_todo (v : nat) (h : list (lock * mode)) (k : list (code lock var)) : option (list (lock * mode)) :=
  match k with
  | Wait _ :: k => match h with [] => check_all v [] k | _ => None end
  | _ => check_all v h k
  end.

(** Code that may be the whole of a thread of level [v]. *)
Definition disciplined (v : nat) (c : code lock var) : bool := bool_decide (check v [] c = Some []).

(** ** Soundness *)

Fixpoint erase (h : list (lock * nat * mode)) : list (lock * mode) :=
  match h with
  | [] => []
  | x :: r => (x.1.1, x.2) :: erase r
  end.

(** What is left of the thread passes the check from what it holds, and its locks are of its connection. *)
Definition sound_thread (t : thread) : Prop :=
  check_todo (level t) (erase (held t)) (todo t) = Some [] /\ Forall (fun x => x.1.2 = instance x.1.1 (cur t)) (held t).

(** Two threads never hold one lock, except as readers. *)
Definition exclusive_pool (p : list thread) : Prop :=
  forall i j s t, i <> j -> p !! i = Some s -> p !! j = Some t -> forall x y, x ∈ held s -> y ∈ held t -> x.1 = y.1 ->
    x.2 = Shared /\ y.2 = Shared.

(** A thread waits only for the end of threads of lower levels. *)
Definition joins_downwards (p : list thread) : Prop :=
  forall t j k, t ∈ p -> todo t = Wait j :: k -> exists u, p !! j = Some u /\ (level u < level t)%nat.

Definition sound_pool (p : list thread) : Prop := Forall sound_thread p /\ exclusive_pool p /\ joins_downwards p.

Lemma drop_release l h r : drop_lock l (erase h) = Some r -> exists h', release l h = Some h' /\ erase h' = r.
Proof.
  revert r; induction h as [|x h IH]; intros r; cbn; [done|]. destruct (decide (x.1.1 = l)).
  - intros E. injection E as <-. by exists h.
  - destruct (drop_lock l (erase h)) as [r'|] eqn:E; [|done]. cbn. intros E'. injection E' as <-.
    destruct (IH r' eq_refl) as (h' & -> & He). exists (x :: h'). split; [done|]. cbn. by rewrite He.
Qed.

Lemma release_inv l h h' : release l h = Some h' -> drop_lock l (erase h) = Some (erase h') /\ forall x, x ∈ h' -> x ∈ h.
Proof.
  revert h'; induction h as [|x h IH]; intros h'; cbn; [done|]. destruct (decide (x.1.1 = l)).
  - intros E. injection E as <-. split; [done|]. intros y Hy. by right.
  - destruct (release l h) as [r|]; [|done]. cbn. intros E. injection E as <-. destruct (IH r eq_refl) as [-> Hs]. split; [done|].
    intros y Hy. apply elem_of_cons in Hy as [->|Hy]; [left|right; by apply Hs].
Qed.

Lemma elem_erase x h : x ∈ h -> (x.1.1, x.2) ∈ erase h.
Proof. induction 1; cbn; [by left|by right]. Qed.

Lemma erase_elem l m h : (l, m) ∈ erase h -> exists i, (l, i, m) ∈ h.
Proof.
  induction h as [|[[l' i] m'] h IH]; cbn; intros Hx; [by apply not_elem_of_nil in Hx|]. apply elem_of_cons in Hx as [E|Hx].
  - injection E as -> ->. exists i. by left.
  - destruct (IH Hx) as [k Hk]. exists k. by right.
Qed.

(** A connection can change only while no lock of a connection is held. *)
Lemma pick_instance h c c' : existsb (fun x => per_connection x.1) (erase h) = false ->
  Forall (fun x => x.1.2 = instance x.1.1 c) h -> Forall (fun x => x.1.2 = instance x.1.1 c') h.
Proof.
  induction h as [|x h IH]; cbn; intros He Hh; [constructor|]. apply orb_false_iff in He as [Hx He]. apply Forall_cons_iff in Hh as [H1 H2].
  apply Forall_cons_iff. split; [|by apply IH]. unfold instance in *. by rewrite Hx in *.
Qed.

(** ** A step keeps a thread sound *)

Lemma check_todo_all v h k : check_todo v h k = Some [] -> (forall j r, k <> Wait j :: r) -> check_all v h k = Some [].
Proof. intros H Hk. destruct k as [|[] k]; try done. by destruct (Hk j k). Qed.

Lemma check_all_todo v h k : check_all v h k = Some [] -> check_todo v h k = Some [].
Proof. by destruct k as [|[] k]. Qed.

Lemma sound_step prefer responds p t t' : thread_step prefer responds p t t' -> sound_thread t -> sound_thread t'.
Proof.
  intros Hs [Hc Hi]. unfold sound_thread in *.
  destruct Hs; cbn [level held todo cur] in *; (split; [first [match goal with |- check_todo _ _ (Wait _ :: _) = _ => idtac end|apply check_all_todo]|try done]); cbn [check_todo check_all check mbind option_bind] in *.
  - done.
  - by destruct (forallb _ _).
  - by apply Forall_cons_iff.
  - destruct (release_inv _ _ _ H) as [E _]. by rewrite E in Hc.
  - destruct (release_inv _ _ _ H) as [_ Hsub]. apply list.Forall_forall. intros x Hx. exact (proj1 (list.Forall_forall _ _) Hi x (Hsub x Hx)).
  - destruct (guard x); [by destruct (existsb _ _)|done].
  - destruct (guard x); [by case_bool_decide|done].
  - done.
  - destruct (erase h); [|done]. by destruct (n <? v)%nat.
  - destruct (erase h); [|done]. by destruct (n <? v)%nat.
  - by destruct (erase h).
  - by destruct (existsb _ _).
  - destruct (existsb _ _) eqn:E; [done|]. by eapply pick_instance.
  - by destruct (check v (erase h) a).
  - destruct (check v (erase h) a) as [x|]; [|done]. cbn in *. destruct (check v (erase h) b); [|done]. cbn in *. by destruct (decide _).
  - destruct (check v (erase h) a) as [x|]; [|done]. cbn in *. destruct (check v (erase h) b); [|done]. cbn in *. destruct (decide _); [|done]. by subst.
  - destruct (check v (erase h) a) as [x|]; [|done]. cbn in *. by destruct (decide _).
  - destruct (check v (erase h) a) as [x|] eqn:E; [|done]. cbn in *. destruct (decide _); [|done]. subst x. cbn in *. rewrite E. cbn. by rewrite decide_True by done.
Qed.

(** What a thread holds after a step it held before, or has just been granted. *)
Lemma held_step prefer responds p t t' x : thread_step prefer responds p t t' -> x ∈ held t' ->
  x ∈ held t \/ grants prefer p x.1.1 x.1.2 x.2 = true.
Proof.
  intros Hs Hx. destruct Hs; cbn [held] in *; try by left.
  - apply elem_of_cons in Hx as [->|Hx]; [by right|by left].
  - left. by apply (release_inv _ _ _ H).
Qed.

Lemma granted prefer p l i m t y : grants prefer p l i m = true -> t ∈ p -> y ∈ held t -> (l, i) = y.1 -> m = Shared /\ y.2 = Shared.
Proof.
  intros Hg Ht Hy E. apply andb_true_iff in Hg as [Hg _]. rewrite forallb_forall in Hg. apply list_elem_of_In in Ht, Hy. specialize (Hg t Ht).
  rewrite forallb_forall in Hg. specialize (Hg y Hy). unfold compatible in Hg. rewrite (bool_decide_true _ (eq_sym E)) in Hg. cbn in Hg.
  apply andb_true_iff in Hg as [H1 H2]. by apply bool_decide_eq_true in H1, H2.
Qed.

Lemma level_step prefer responds p t t' : thread_step prefer responds p t t' -> level t' = level t.
Proof. by destruct 1. Qed.

(** A thread that is joining after a step was joining before, or has just begun. *)
Lemma wait_step prefer responds p t t' j k : thread_step prefer responds p t t' -> sound_thread t -> todo t' = Wait j :: k ->
  exists u, p !! j = Some u /\ (level u < level t)%nat.
Proof.
  intros Hs [Hc _] Ht. destruct Hs as [| | | | | |v h c n i u r Hi <-| | | | | | | |]; cbn [level held todo cur] in *.
  7: { injection Ht as -> ->. exists u. split; [done|]. cbn [check_todo check_all check mbind option_bind] in Hc. destruct (erase h); [|done].
       by destruct (Nat.ltb_spec (level u) v). }
  all: exfalso; try (injection Ht as -> <-); try subst; cbn [check_todo check_all check mbind option_bind] in Hc.
  all: repeat match type of Hc with
              | context [check ?v ?h ?a ≫= _] => destruct (check v h a); cbn [mbind option_bind] in Hc
              | ?x ≫= _ = Some _ => destruct x; cbn [mbind option_bind] in Hc
              | context [match ?x with _ => _ end] => destruct x
              end; discriminate.
Qed.

Lemma sound_pool_step prefer responds p p' : pool_step prefer responds p p' -> sound_pool p -> sound_pool p'.
Proof.
  intros (n & t & t' & Hn & Hs & ->) (Hall & Hex & Hdown). pose proof (Forall_lookup_1 _ _ _ _ Hall Hn) as Hst. split; [|split].
  { apply Forall_insert; [done|]. by eapply sound_step. }
  - assert (Hone : forall j s x y, n <> j -> p !! j = Some s -> x ∈ held t' -> y ∈ held s -> x.1 = y.1 -> x.2 = Shared /\ y.2 = Shared).
    { intros j s x y Hj Hs' Hx Hy E. destruct (held_step _ _ _ _ _ _ Hs Hx) as [Hx'|Hg]; [by eapply Hex|].
      eapply granted; [exact Hg|by eapply list_elem_of_lookup_2|exact Hy|]. by destruct x as [[? ?] ?]. }
    intros i j s u Hij Hi Hj x y Hx Hy E. apply list_lookup_insert_Some in Hi, Hj.
    destruct Hi as [(<- & -> & _)|[Hni Hi]], Hj as [(<- & -> & _)|[Hnj Hj]].
    + done.
    + exact (Hone j u x y Hij Hj Hx Hy E).
    + destruct (Hone i s y x (not_eq_sym Hij) Hi Hy Hx (eq_sym E)); auto.
    + exact (Hex i j s u Hij Hi Hj x y Hx Hy E).
  - intros s j k Hin Ht. assert (Hlv : forall u, p !! j = Some u -> exists u', <[n := t']> p !! j = Some u' /\ level u' = level u).
    { intros u Hu. destruct (decide (n = j)) as [->|]; [|exists u; by rewrite list_lookup_insert_ne]. exists t'.
      assert (u = t) as -> by congruence. split; [by eapply list_lookup_insert_eq, lookup_lt_Some|by eapply level_step]. }
    assert (Hu : exists u, p !! j = Some u /\ (level u < level s)%nat).
    { apply list_elem_of_lookup in Hin as [i Hi]. apply list_lookup_insert_Some in Hi as [(_ & -> & _)|[_ Hi]].
      - rewrite (level_step _ _ _ _ _ Hs). by eapply wait_step.
      - by eapply Hdown; [eapply list_elem_of_lookup_2|]. }
    destruct Hu as (u & Hu & Hl). destruct (Hlv u Hu) as (u' & Hu' & El). exists u'. split; [done|lia].
Qed.

Lemma sound_start p : Forall (fun t => held t = [] /\ exists a, todo t = [a] /\ disciplined (level t) a = true) p -> sound_pool p.
Proof.
  intros Hp. split; [|split].
  - eapply list.Forall_impl; [exact Hp|]. intros t (Hh & a & Ht & Ha). unfold sound_thread. rewrite Hh, Ht. split; [|constructor].
    apply check_all_todo. cbn. apply bool_decide_eq_true in Ha. by rewrite Ha.
  - intros i j s t _ Hi _ x y Hx. destruct (Forall_lookup_1 _ _ _ _ Hp Hi) as [Hh _]. rewrite Hh in Hx. by apply not_elem_of_nil in Hx.
  - intros t j k Hin Ht. pose proof (proj1 (list.Forall_forall _ _) Hp t Hin) as (_ & a & Ha & Hd). rewrite Ht in Ha. injection Ha as <- _.
    by apply bool_decide_eq_true in Hd.
Qed.

Lemma sound_reachable prefer responds p p' : rtc (pool_step prefer responds) p p' -> sound_pool p -> sound_pool p'.
Proof. induction 1 as [|a b c Hab _ IH]; [done|]. intros Ha. apply IH. by eapply sound_pool_step. Qed.

(** ** No two threads at one guarded table *)

Lemma access_guarded t v c b g : sound_thread t -> next_access t = Some (v, c, b) -> guard v = Some g ->
  exists m, (g, instance g c, m) ∈ held t /\ (b = true -> m = Exclusive).
Proof.
  intros [Hc Hi] Ha Hg. unfold next_access in Ha. destruct (todo t) as [|[] k]; try done; injection Ha as -> <- <-; cbn in Hc; rewrite Hg in Hc.
  - destruct (existsb _ _) eqn:E; [|done]. apply existsb_exists in E as ([g' m] & Hin & E). apply bool_decide_eq_true in E. cbn in E. subst g'.
    apply list_elem_of_In, erase_elem in Hin as [i Hin]. exists m. split; [|done]. pose proof (proj1 (list.Forall_forall _ _) Hi _ Hin) as E. cbn in E. by rewrite <- E.
  - case_bool_decide as E; [|done]. apply erase_elem in E as [i Hin]. exists Exclusive. split; [|done].
    pose proof (proj1 (list.Forall_forall _ _) Hi _ Hin) as E. cbn in E. by rewrite <- E.
Qed.

(** The connection matters only for tables guarded by a lock of a connection. *)
Lemma sound_no_race p i j s t v c d a b g : sound_pool p -> i <> j -> p !! i = Some s -> p !! j = Some t ->
  next_access s = Some (v, c, a) -> next_access t = Some (v, d, b) -> guard v = Some g -> instance g c = instance g d -> a = false /\ b = false.
Proof.
  intros (Hall & Hex & _) Hij Hi Hj Hs Ht Hg Hcd.
  destruct (access_guarded s v c a g) as (m & Hm & Ha); [exact (Forall_lookup_1 _ _ _ _ Hall Hi)|done|done|].
  destruct (access_guarded t v d b g) as (m' & Hm' & Hb); [exact (Forall_lookup_1 _ _ _ _ Hall Hj)|done|done|].
  destruct (Hex i j s t Hij Hi Hj _ _ Hm Hm') as [E E']; [cbn; congruence|]. cbn in E, E'. destruct a, b; naive_solver.
Qed.

(** ** No waiting in a circle *)

(** A thread that cannot move waits for a lock or for the end of another thread. *)
Lemma sound_blocked prefer p t : sound_pool p -> t ∈ p -> todo t <> [] -> (exists t', thread_step prefer (fun _ => true) p t t') \/
  (exists l m, wants t = Some (l, instance l (cur t), m) /\ grants prefer p l (instance l (cur t)) m = false) \/
  exists t', t' ∈ p /\ waits_for_end p t t'.
Proof.
  intros (Hall & _ & Hdown) Hin Hn. destruct (proj1 (list.Forall_forall _ _) Hall t Hin) as [Hc _].
  destruct t as [v h c k]. cbn [level held cur todo] in *. destruct k as [|a k]; [done|].
  destruct a; try (left; unshelve (eexists; by constructor); exact 0%nat).
  - destruct (grants prefer p l (instance l c) m) eqn:Eg; [left; eexists; by constructor|]. right. left. by exists l, m.
  - left. cbn in Hc. destruct (drop_lock l (erase h)) as [r|] eqn:E; [|done]. apply drop_release in E as (h' & E & _). eexists. by constructor.
  - left. destruct (decide (Forall (fun u => level u <> k0) p)) as [Hf|Hf]; [eexists; by apply step_nobody|].
    apply not_Forall_Exists in Hf; [|apply _]. apply Exists_exists in Hf as (u & Hu & El). apply dec_stable in El.
    apply list_elem_of_In, list_elem_of_lookup in Hu as [j Hj]. eexists. by eapply step_join.
  - destruct (Hdown _ j k Hin eq_refl) as (u & Hu & _). destruct (decide (todo u = [])) as [E|E]; [left; eexists; by eapply step_wait|].
    right. right. exists u. split; [by eapply list_elem_of_lookup_2|]. by exists j, k.
Qed.

Lemma not_granted prefer p l i m : grants prefer p l i m = false -> exists t', t' ∈ p /\
  ((exists x, x ∈ held t' /\ compatible l i m x = false) \/ (prefer = true /\ m = Shared /\ wants t' = Some (l, i, Exclusive))).
Proof.
  intros Hg. unfold grants in Hg. apply andb_false_iff in Hg as [Hg|Hg].
  - assert (Hx : existsb (fun t => negb (forallb (compatible l i m) (held t))) p = true).
    { apply not_false_iff_true. intros He. apply not_true_iff_false in Hg. apply Hg, forallb_forall. intros t Ht.
      destruct (forallb _ (held t)) eqn:E; [done|]. exfalso. eapply eq_true_false_abs; [|exact He]. apply existsb_exists. exists t. by rewrite E. }
    apply existsb_exists in Hx as (t & Ht & Hx). exists t. split; [by apply list_elem_of_In|]. left. apply negb_true_iff in Hx.
    induction (held t) as [|y r IH]; cbn in Hx; [done|]. apply andb_false_iff in Hx as [Hx|Hx]; [exists y; split; [left|done]|].
    destruct (IH Hx) as (x & Hin & E). exists x. split; [by right|done].
  - apply orb_false_iff in Hg as [Hp Hg]. apply negb_false_iff, andb_true_iff in Hp as [-> Hm]. apply bool_decide_eq_true in Hm.
    induction p as [|t p IH]; cbn in Hg; [done|]. apply andb_false_iff in Hg as [Hg|Hg].
    + exists t. split; [left|]. right. apply negb_false_iff, bool_decide_eq_true in Hg. done.
    + destruct (IH Hg) as (t' & Ht & Hw). exists t'. split; [by right|done].
Qed.

Context (top : nat) (rank_top : forall l, (rank l <= top)%nat).

Definition distance (l : lock) (m : mode) : nat := (2 * (top - rank l) + match m with Shared => 1 | Exclusive => 0 end)%nat.

Lemma sound_wants t l i m x : sound_thread t -> wants t = Some (l, i, m) -> x ∈ held t -> (rank x.1.1 < rank l)%nat.
Proof.
  intros [Hc _] Hw Hx. unfold wants in Hw. destruct (todo t) as [|[] k]; try done. injection Hw as -> _ ->. cbn in Hc.
  destruct (forallb _ _) eqn:E; [|done]. rewrite forallb_forall in E. by apply elem_erase, list_elem_of_In, E, Nat.ltb_lt in Hx.
Qed.

(** How far a waiting thread is from one that can move: a lock by its rank, a join above all locks and by
    the level of the thread that joins. *)
Definition weight (t : thread) : nat :=
  match todo t with
  | Lock l m :: _ => distance l m
  | Wait _ :: _ => (2 * top + 2 + level t)%nat
  | _ => 0%nat
  end.

Definition waiting (t : thread) : Prop := (exists l i m, wants t = Some (l, i, m)) \/ (exists j k, todo t = Wait j :: k).

Lemma distance_bound l m : (distance l m <= 2 * top + 1)%nat.
Proof. unfold distance. destruct m; lia. Qed.

Lemma wants_weight t l i m : wants t = Some (l, i, m) -> weight t = distance l m.
Proof. unfold wants, weight. destruct (todo t) as [|[] k]; try done. by intros [= -> _ ->]. Qed.

Lemma wait_holds_nothing t j k : sound_thread t -> todo t = Wait j :: k -> held t = [].
Proof. intros [Hc _] E. rewrite E in Hc. cbn in Hc. by destruct (held t). Qed.

(** Along a chain of waiting threads the weights fall. *)
Lemma waiting_descends prefer p t t' : sound_pool p -> waits_for prefer p t t' -> waiting t' -> (weight t' < weight t)%nat.
Proof.
  intros (Hall & _ & Hdown) (Ht & Ht' & Hw) Hwt. pose proof (proj1 (list.Forall_forall _ _) Hall t' Ht') as Hs.
  destruct Hw as [(l & i & m & Hwl & Hb)|(j & k & Ej & Hj & _)].
  - rewrite (wants_weight t l i m Hwl). destruct Hb as [(x & Hx & Hc)|(_ & -> & E)].
    + destruct Hwt as [(l' & i' & m' & Hw')|(j & k & Ej)]; [|rewrite (wait_holds_nothing t' j k Hs Ej) in Hx; by apply not_elem_of_nil in Hx].
      rewrite (wants_weight t' l' i' m' Hw'). pose proof (rank_top l). pose proof (rank_top l'). pose proof (sound_wants t' l' i' m' x Hs Hw' Hx) as Hr.
      unfold compatible in Hc. apply orb_false_iff in Hc as [Hc _]. apply negb_false_iff, bool_decide_eq_true in Hc. rewrite Hc in Hr. cbn in Hr.
      unfold distance. destruct m, m'; lia.
    + rewrite (wants_weight t' l i Exclusive E). unfold distance. lia.
  - assert (E : weight t = (2 * top + 2 + level t)%nat) by (unfold weight; by rewrite Ej). rewrite E.
    destruct Hwt as [(l' & i' & m' & Hw')|(j' & k' & Ej')].
    + rewrite (wants_weight t' l' i' m' Hw'). pose proof (distance_bound l' m'). lia.
    + destruct (Hdown t j k Ht Ej) as (u & Hu & Hl). assert (u = t') as -> by congruence. unfold weight. rewrite Ej'. lia.
Qed.

Lemma waits_for_waiting prefer p t t' : waits_for prefer p t t' -> waiting t.
Proof. intros (_ & _ & [(l & i & m & Hw & _)|(j & k & E & _)]); [left; by exists l, i, m|right; by exists j, k]. Qed.

Lemma chain_waiting prefer p t t' : tc (waits_for prefer p) t t' -> waiting t.
Proof. destruct 1; by eapply waits_for_waiting. Qed.

Lemma sound_acyclic prefer p t : sound_pool p -> ~ tc (waits_for prefer p) t t.
Proof.
  intros Hp Hc. assert (Hd : forall s u, tc (waits_for prefer p) s u -> waiting u -> (weight u < weight s)%nat).
  { induction 1 as [s u Hsu|s v u Hsv Hvu IH]; intros Hu; [by eapply waiting_descends|].
    transitivity (weight v); [by apply IH|]. eapply waiting_descends; [done|done|by eapply chain_waiting]. }
  exact (Nat.lt_irrefl _ (Hd t t Hc (chain_waiting _ _ _ _ Hc))).
Qed.

(** Somebody who is waited for has something left to run. *)
Lemma waited_for_runs prefer p t t' : sound_pool p -> waits_for prefer p t t' -> todo t' <> [].
Proof.
  intros (Hall & _) (_ & Ht' & [(l & i & m & _ & Hb)|(j & k & _ & _ & Hn)]) E; [|done].
  destruct (proj1 (list.Forall_forall _ _) Hall t' Ht') as [Hc _]. rewrite E in Hc. cbn in Hc.
  destruct Hb as [(x & Hx & _)|(_ & _ & Hw)]; [|by unfold wants in Hw; rewrite E in Hw]. destruct (held t'); [by apply not_elem_of_nil in Hx|done].
Qed.

(** From every thread that is not done the chain of those it waits for leads to one that can move. *)
Lemma sound_progress prefer p t : sound_pool p -> t ∈ p -> todo t <> [] ->
  exists t' t'', rtc (waits_for prefer p) t t' /\ t' ∈ p /\ thread_step prefer (fun _ => true) p t' t''.
Proof.
  intros Hp. remember (weight t) as d eqn:Ed. revert t Ed. induction (lt_wf d) as [d _ IH]. intros t -> Ht Hn.
  assert (Hnext : (exists t', thread_step prefer (fun _ => true) p t t') \/ exists t', waits_for prefer p t t').
  { destruct (sound_blocked prefer p t Hp Ht Hn) as [H|[(l & m & Hw & Hg)|(t' & Ht' & Hw)]]; [by left|right|right].
    - destruct (not_granted _ _ _ _ _ Hg) as (t' & Ht' & Hb). exists t'. split; [done|]. split; [done|]. left. by exists l, (instance l (cur t)), m.
    - exists t'. split; [done|]. split; [done|]. by right. }
  destruct Hnext as [[t' Hs]|[t' Hw]]; [by exists t, t'|]. pose proof Hw as (_ & Ht' & _). pose proof (waited_for_runs _ _ _ _ Hp Hw) as Hn'.
  destruct (sound_blocked prefer p t' Hp Ht' Hn') as [[t'' Hs]|Hb]; [exists t', t''; split; [by apply rtc_once|done]|].
  assert (Hwt : waiting t').
  { destruct Hb as [(l & m & Hw' & _)|(u & _ & j & k & E & _)]; [left; by exists l, (instance l (cur t')), m|right; by exists j, k]. }
  destruct (IH _ (waiting_descends _ _ _ _ Hp Hw Hwt) t' eq_refl Ht' Hn') as (u & u' & Hu & Hin & Hs). exists u, u'. split; [by eapply rtc_l|done].
Qed.

(** ** Driving one thread of a pool

    The choices decide branches ([true]: the first) and loops ([true]: once more); a connection gone over to is
    number 0.  The thread stops when [target] holds of it. *)

Definition move (prefer : bool) (responds : nat -> bool) (p : list thread) (cs : list bool) (t : thread) : option (thread * list bool) :=
  match todo t with
  | [] => None
  | a :: k =>
      let go k' := mkThread (level t) (held t) (cur t) k' in
      match a with
      | Skip | Read _ | Write _ => Some (go k, cs)
      | Join n => match list_find (fun u => level u = n) p with Some (j, _) => Some (go (Wait j :: k), cs) | None => Some (go k, cs) end
      | Wait j => u ← p !! j; match todo u with [] => Some (go k, cs) | _ => None end
      | Io => if responds (cur t) then Some (go k, cs) else None
      | Pick => Some (mkThread (level t) (held t) 0 k, cs)
      | Lock l m => if grants prefer p l (instance l (cur t)) m then Some (mkThread (level t) ((l, instance l (cur t), m) :: held t) (cur t) k, cs) else None
      | Unlock l => h ← release l (held t); Some (mkThread (level t) h (cur t) k, cs)
      | Seq a b => Some (go (a :: b :: k), cs)
      | Either a b => match cs with true :: cs => Some (go (a :: k), cs) | false :: cs => Some (go (b :: k), cs) | [] => None end
      | Repeat b => match cs with true :: cs => Some (go (b :: a :: k), cs) | false :: cs => Some (go k, cs) | [] => None end
      end
  end.

Fixpoint drive (fuel : nat) (prefer : bool) (responds : nat -> bool) (target : thread -> bool) (i : nat) (cs : list bool) (p : list thread) : option (list thread) :=
  match fuel with
  | O => None
  | S fuel =>
      t ← p !! i;
      if target t then Some p
      else '(t', cs) ← move prefer responds p cs t; drive fuel prefer responds target i cs (<[i := t']> p)
  end.

Lemma move_step prefer responds p cs t t' cs' : move prefer responds p cs t = Some (t', cs') -> thread_step prefer responds p t t'.
Proof.
  destruct t as [v h c k]. unfold move. cbn [level todo held cur]. destruct k as [|[] k]; try (intros E; injection E as <- <-; constructor); [done|..].
  - destruct (grants _ _ _ _ _) eqn:Eg; [|done]. intros E. injection E as <- <-. by constructor.
  - destruct (release l h) as [h'|] eqn:Er; [|done]. cbn. intros E. injection E as <- <-. by constructor.
  - destruct (responds c) eqn:Er; [|done]. intros E. injection E as <- <-. by constructor.
  - destruct (list_find _ p) as [[j u]|] eqn:El; intros E; injection E as <- <-.
    + apply list_find_Some in El as (Hj & Hl & _). by eapply step_join.
    + apply step_nobody. apply list_find_None in El. exact El.
  - destruct (p !! j) as [u|] eqn:Ej; [|done]. cbn. destruct (todo u) eqn:Eu; [|done]. intros E. injection E as <- <-. by eapply step_wait.
  - destruct cs as [|[] cs]; [done|..]; intros E; injection E as <- <-; constructor.
  - destruct cs as [|[] cs]; [done|..]; intros E; injection E as <- <-; constructor.
Qed.

Lemma drive_reaches fuel prefer responds target i cs p p' : drive fuel prefer responds target i cs p = Some p' -> rtc (pool_step prefer responds) p p'.
Proof.
  revert cs p; induction fuel as [|fuel IH]; intros cs p; cbn [drive]; [done|]. destruct (p !! i) as [t|] eqn:Ei; [|done]. cbn.
  destruct (target t); [intros E; by injection E as <-|].
  destruct (move prefer responds p cs t) as [[t' cs']|] eqn:Em; [|done]. cbn. intros Hd. eapply rtc_l; [|by eapply IH].
  exists i, t, t'. split; [done|]. split; [by eapply move_step|done].
Qed.

(** Several threads driven one after the other, each to its target with its choices. *)
Fixpoint run (prefer : bool) (responds : nat -> bool) (plan : list (nat * (thread -> bool) * list bool)) (p : list thread) : option (list thread) :=
  match plan with
  | [] => Some p
  | (i, target, cs) :: plan => p ← drive 200 prefer responds target i cs p; run prefer responds plan p
  end.

Lemma run_reaches prefer responds plan p p' : run prefer responds plan p = Some p' -> rtc (pool_step prefer responds) p p'.
Proof.
  revert p; induction plan as [|[[i target] cs] plan IH]; intros p; cbn [run]; [intros E; by injection E as <-|].
  destruct (drive 200 prefer responds target i cs p) as [q|] eqn:E; [|done]. intros Hr. etransitivity; [by eapply drive_reaches|by apply IH].
Qed.

(** A thread that waits for a peer that never answers stays where it is, with its locks. *)
Lemma stalled_stays prefer responds p p' i t k : rtc (pool_step prefer responds) p p' -> p !! i = Some t -> todo t = Io :: k ->
  responds (cur t) = false -> p' !! i = Some t.
Proof.
  intros Hr Hi Ht Hc. induction Hr as [|a b d Hab _ IH]; [done|]. apply IH. destruct Hab as (n & s & s' & Hn & Hs & ->).
  destruct (decide (n = i)) as [->|]; [|by rewrite list_lookup_insert_ne]. exfalso. rewrite Hi in Hn. injection Hn as <-.
  destruct Hs; cbn in *; try done. congruence.
Qed.

(** And so does everyone who waits for a lock it holds. *)
Lemma waiting_stays prefer responds p p' i j t u k x l n m : rtc (pool_step prefer responds) p p' -> p !! i = Some t -> todo t = Io :: k ->
  responds (cur t) = false -> x ∈ held t -> compatible l n m x = false -> p !! j = Some u -> wants u = Some (l, n, m) -> p' !! j = Some u.
Proof.
  intros Hr Hi Ht Hc Hx Hl Hj Hw. induction Hr as [|a b d Hab _ IH]; [done|].
  assert (Hib : b !! i = Some t) by (by eapply stalled_stays; [apply rtc_once|..]). apply IH; [done|]. destruct Hab as (q & s & s' & Hq & Hs & ->).
  destruct (decide (q = j)) as [->|]; [|by rewrite list_lookup_insert_ne]. exfalso. rewrite Hj in Hq. injection Hq as <-.
  destruct Hs; cbn in *; try done. injection Hw as -> <- ->. apply andb_true_iff in H as [H _]. rewrite forallb_forall in H.
  specialize (H t). rewrite <- list_elem_of_In in H. specialize (H (list_elem_of_lookup_2 _ _ _ Hi)). rewrite forallb_forall in H.
  specialize (H x). rewrite <- list_elem_of_In, Hl in H. by specialize (H Hx).
Qed.
End Theory.
Arguments thread : clear implicits.
