(* ===== verification/Locking.v ===== *)
(** * The locks of the node ([src/block/chain.c], [src/nets], [src/tcpd], [src/udpd], [src/main.c])

    Every function that locks, waits for a socket or touches a shared table, reduced to that: the calls in
    their order, an [if] as a choice, a loop as a repetition, an early return as the choice not to go on.
    The connection a thread works on is changed by [Pick] only, also when it goes back to its own.  The
    tables are the chain's blocks and files, the memo table of DAG sizes, the mining DAG, the balance sheet,
    the pools, the receipts, the relay set, the peer table, the pending pings, the two connection tables and
    the state flags of a connection; the counters of supply, reward and target are not among them.  What
    [main] does before the node exists and after its last thread was joined is left out. *)
From stdpp Require Import relations.
From S2P Require Import Prelude Concurrency.

Inductive lock :=
| ChainLock | BalanceSheetLock | SheetLock | TxMempoolLock | DagCacheLock | PowCtxLock | OrphanLock
| DeliveryLock | SeenLock | DiscLock | PingsMutex | OutboundLock | ClientsMutex | StateLock | SendLock.
#[export] Instance lock_eq_dec : EqDecision lock.
Proof. solve_decision. Defined.

Inductive table :=
| Blocks | ChainFiles | DagEpochs | Dag | Sheet | Mempool | Orphans | Deliveries | SeenBlocks | PeerTable
| PendingPings | Outbound | Clients | ConnState.
#[export] Instance table_eq_dec : EqDecision table.
Proof. solve_decision. Defined.

Definition per_connection (l : lock) : bool := match l with StateLock | SendLock => true | _ => false end.

(** The order in which locks are taken. *)
Definition rank (l : lock) : nat :=
  match l with
  | ChainLock => 0 | BalanceSheetLock => 1 | SheetLock => 2 | TxMempoolLock => 3 | DagCacheLock => 4 | PowCtxLock => 5
  | OrphanLock => 6 | DeliveryLock => 7 | SeenLock => 8 | DiscLock => 9 | PingsMutex => 10 | OutboundLock => 11
  | ClientsMutex => 12 | StateLock => 13 | SendLock => 14
  end.

(** The lock every access of a table is made under; four tables have none. *)
Definition guard (v : table) : option lock :=
  match v with
  | Blocks | ChainFiles | Sheet | Outbound => None
  | DagEpochs => Some DagCacheLock | Dag => Some PowCtxLock | Mempool => Some TxMempoolLock | Orphans => Some OrphanLock
  | Deliveries => Some DeliveryLock | SeenBlocks => Some SeenLock | PeerTable => Some DiscLock
  | PendingPings => Some PingsMutex | Clients => Some ClientsMutex | ConnState => Some StateLock
  end.

Abbreviation prog := (code lock table).

Module Lk.
#[local] Open Scope code_scope.

Definition within (l : lock) (m : mode) (a : prog) : prog := Lock l m >> a >> Unlock l.
Definition mutex (l : lock) (a : prog) : prog := within l Exclusive a.
Definition may (a : prog) : prog := Either a Skip.

(** ** Connections ([tcpconnection.c]) *)

Definition TcpConnection_SendRaw : prog := Repeat Io.
Definition TcpConnection_SendFramed : prog := may (mutex SendLock (TcpConnection_SendRaw >> may TcpConnection_SendRaw)).
Definition TcpConnection_RequestClose : prog := mutex StateLock (Read ConnState >> may (Write ConnState)).
Definition TcpConnection_MarkDisconnectNotified : prog := mutex StateLock (Write ConnState).
Definition TcpConnection_IsDisconnectNotified : prog := mutex StateLock (Read ConnState).
Definition Node_SendPacket : prog := may TcpConnection_SendFramed.

(** ** Proof of work ([block.c]) *)

Definition Block_ShutdownPowContext : prog := mutex PowCtxLock (Read Dag >> Write Dag).
Definition Block_EnsureAutolykos2Dag : prog := may (mutex PowCtxLock (Read Dag >> may (Write Dag))).
Definition Block_PowHashHeavy : prog := may (mutex PowCtxLock (Read Dag)).
Definition Block_HasValidProofOfWorkWithParams : prog := may Block_PowHashHeavy.

(** ** The transaction pool ([txmempool.c]) *)

Definition TxMempool_PruneExpired : prog := may (mutex TxMempoolLock (Repeat (Read Mempool >> may (Write Mempool)))).
Definition TxMempool_Insert : prog := may (mutex TxMempoolLock (Write Mempool)).
Definition TxMempool_Lookup : prog := may (mutex TxMempoolLock (Read Mempool)).
Definition TxMempool_Snapshot : prog := may (mutex TxMempoolLock (Read Mempool)).
Definition TxMempool_Remove : prog := may (mutex TxMempoolLock (Read Mempool >> may (Write Mempool))).
Definition TxMempool_Destroy : prog := may (mutex TxMempoolLock (Write Mempool)).

(** ** The balance sheet ([balance_sheet.c]) *)

(** The pointer of the table is looked at before the lock is taken. *)
Definition BalanceSheet_Insert : prog := Read Sheet >> may (mutex SheetLock (Write Sheet)).
Definition BalanceSheet_Lookup : prog := may (mutex SheetLock (Read Sheet)).
Definition BalanceSheet_SaveToFile : prog := Read Sheet >> may (mutex SheetLock (Repeat (Read Sheet))).
Definition BalanceSheet_Print : prog := Read Sheet >> may (mutex SheetLock (Repeat (Read Sheet))).
(** No lock: the table and its mutex are replaced. *)
Definition BalanceSheet_Destroy : prog := Write Sheet.
Definition BalanceSheet_Init : prog := Write Sheet.
Definition BalanceSheet_GetSimEntry : prog := may BalanceSheet_Lookup.
Definition BalanceSheet_ApplyCandidateTransaction : prog :=
  may (BalanceSheet_GetSimEntry >> may (BalanceSheet_GetSimEntry >> may BalanceSheet_GetSimEntry)).
Definition BalanceSheet_SelectSpendableTransactions : prog := Repeat BalanceSheet_ApplyCandidateTransaction.

(** ** The chain ([chain.c]) *)

Definition Chain_InvalidateDagEpochs : prog := mutex DagCacheLock (Write DagEpochs).
Definition Chain_ClearBlocks : prog := Write Blocks >> Chain_InvalidateDagEpochs.
Definition Chain_LoadBlockFromFile : prog := Read ChainFiles.
Definition Chain_BorrowBlockTransactions : prog := Read Blocks >> may Chain_LoadBlockFromFile.
Definition Chain_ExtendDagEpochsLocked : prog := Repeat (Read DagEpochs >> Read Blocks >> Write DagEpochs).
Definition Chain_DagParamsForHeightLocked : prog :=
  mutex DagCacheLock (Chain_ExtendDagEpochsLocked >> may (Read DagEpochs)) >> may (Read Blocks).
Definition Chain_DagParamsForHeight : prog := within ChainLock Shared Chain_DagParamsForHeightLocked.
Definition Chain_ComputeTargetAtHeight : prog := may (Read Blocks).
(** No lock. *)
Definition Chain_GetTargetForHeight : prog := Repeat Chain_ComputeTargetAtHeight.
Definition Chain_Size : prog := within ChainLock Shared (Read Blocks).
Definition Chain_GetBlockCopy : prog := within ChainLock Shared (Read Blocks).
Definition Chain_OnTipAdvanced : prog := Chain_Size >> Chain_GetTargetForHeight.

Definition CreditAddress : prog := may (BalanceSheet_Lookup >> may BalanceSheet_Insert).
Definition DebitAddress : prog := may (BalanceSheet_Lookup >> may BalanceSheet_Insert).
Definition Chain_BlockRespectsSenderOrdering : prog := Repeat (may BalanceSheet_Lookup).
(** One transaction of the second pass of an append. *)
Definition ledger_pass : prog := may (DebitAddress >> may (CreditAddress >> may CreditAddress)).

Definition Chain_AddBlockLocked : prog :=
  Read Blocks >>
  may (may (Read Blocks) >> may (Chain_DagParamsForHeightLocked >>
  may (Block_HasValidProofOfWorkWithParams >>
  may (Chain_GetTargetForHeight >>
  may (BalanceSheet_SelectSpendableTransactions >>
  may (Chain_BlockRespectsSenderOrdering >>
  may (Write Blocks >> Repeat ledger_pass >> Repeat (Read Blocks >> TxMempool_Remove)))))))).

Definition Chain_AddBlock : prog :=
  may (within ChainLock Exclusive (mutex BalanceSheetLock Chain_AddBlockLocked) >> may Chain_OnTipAdvanced).

(** The sheet is destroyed and made anew under the locks of the chain, not under its own. *)
Definition Chain_RollbackToHeightLocked : prog :=
  Read Blocks >>
  may (Repeat (Chain_BorrowBlockTransactions >> Repeat TxMempool_Insert) >>
       Repeat (Write Blocks) >>
       Chain_InvalidateDagEpochs >>
       BalanceSheet_Destroy >> BalanceSheet_Init >>
       Repeat (Chain_BorrowBlockTransactions >> Repeat (BalanceSheet_Lookup >> BalanceSheet_Insert))).

Definition Chain_MedianTimePastLocked : prog := Repeat (Read Blocks).
Definition Chain_IsInitialBlockDownload : prog := Read Blocks >> may Chain_MedianTimePastLocked.
Definition Chain_BranchIsLinkedLocked : prog := may (Read Blocks).
Definition Chain_ComputeWorkRange : prog := Repeat (Read Blocks).

Definition Chain_ReplaceBranch : prog :=
  may (within ChainLock Exclusive (mutex BalanceSheetLock (
         Read Blocks >>
         may (Chain_BranchIsLinkedLocked >>
         may (Chain_IsInitialBlockDownload >>
         may (Chain_ComputeWorkRange >>
         may (Repeat Chain_BorrowBlockTransactions >>
         may (Chain_RollbackToHeightLocked >> Repeat Chain_AddBlockLocked >>
         may (Chain_RollbackToHeightLocked >> Repeat Chain_AddBlockLocked)))))))) >>
       Chain_OnTipAdvanced).

(** No lock on the blocks. *)
Definition Chain_Wipe : prog := Chain_ClearBlocks.

Definition Chain_SaveToFile : prog :=
  may (within ChainLock Exclusive (
    Repeat (Read Blocks >> may Chain_LoadBlockFromFile >> may (Write Blocks)) >> may (Read Blocks >> may (Write ChainFiles)))).

(** ** The orphan pool ([orphan_pool.c]) *)

Definition OrphanPool_Insert : prog := mutex OrphanLock (Read Orphans >> may (Write Orphans)).
Definition OrphanPool_PruneStale : prog :=
  Chain_Size >> may (mutex OrphanLock (Read Orphans) >> Repeat Chain_GetBlockCopy >> may (mutex OrphanLock (Write Orphans))).
Definition OrphanPool_ExtendTip : prog :=
  Repeat (Chain_Size >> may Chain_GetBlockCopy >>
          may (mutex OrphanLock (Read Orphans) >>
          may (Chain_AddBlock >> mutex OrphanLock (Write Orphans)))).
Definition OrphanPool_TryAdoptBranch : prog :=
  Chain_Size >>
  Repeat (Chain_GetBlockCopy >>
          may (mutex OrphanLock (Read Orphans) >> may Chain_ReplaceBranch >> may (mutex OrphanLock (Write Orphans)))).
Definition OrphanPool_AttemptAttachForced : prog :=
  mutex OrphanLock (Read Orphans) >> may (Repeat (OrphanPool_ExtendTip >> OrphanPool_TryAdoptBranch) >> OrphanPool_PruneStale).

(** A chain and its sheet written one after the other. *)
Definition save_both : prog := Chain_SaveToFile >> BalanceSheet_SaveToFile.

(** ** Pings ([udpnode.c]) and discovery ([nodediscovery.c]) *)

Definition UdpNode_SendPing : prog := may (mutex PingsMutex (Read PendingPings >> may (Write PendingPings))).

Definition NodeDiscovery_OnPong : prog := mutex DiscLock (Read PeerTable >> may (Write PeerTable)).
Definition NodeDiscovery_OnPingTimeout : prog := mutex DiscLock (Read PeerTable >> may (Write PeerTable)).
Definition NodeDiscovery_OnPeersReceived : prog := may (mutex DiscLock (Read PeerTable >> Repeat (Read PeerTable >> may (Write PeerTable)))).
Definition NodeDiscovery_RemovePeer : prog := mutex DiscLock (Read PeerTable >> may (Write PeerTable)).
Definition NodeDiscovery_NoteIdentity : prog := may (mutex DiscLock (Read PeerTable >> Write PeerTable)).
Definition NodeDiscovery_MarkSelfEndpoint : prog := mutex DiscLock (Write PeerTable).
Definition NodeDiscovery_IsSelfEndpoint : prog := mutex DiscLock (Read PeerTable).
Definition NodeDiscovery_PrintPeers : prog := may (mutex DiscLock (Read PeerTable)).

Definition UdpNode_HandlePacket : prog := may (mutex PingsMutex (Read PendingPings >> may (Write PendingPings)) >> may NodeDiscovery_OnPong).
Definition UdpNode_RecvThreadProc : prog := Repeat UdpNode_HandlePacket.
Definition UdpNode_RetryThreadProc : prog :=
  Repeat (mutex PingsMutex (Repeat (Read PendingPings >> may (Write PendingPings))) >> Repeat NodeDiscovery_OnPingTimeout).

(** ** The node ([net_node.c]) *)

(** A walk over the outbound or the inbound table, skipping connections that are being torn down. *)
Definition over_outbound (a : prog) : prog := mutex OutboundLock (Repeat (Read Outbound >> Pick >> may TcpConnection_IsDisconnectNotified >> a)).
Definition over_clients (a : prog) : prog := mutex ClientsMutex (Repeat (Read Clients >> Pick >> may TcpConnection_IsDisconnectNotified >> a)).

Definition Node_HasOutboundTo : prog := mutex OutboundLock (Repeat (Read Outbound)).
Definition Node_HasOtherInboundFrom : prog := may (over_clients Skip).
Definition Node_HasOtherConnectionToNode : prog := may (over_outbound Skip >> may (over_clients Skip)).
Definition Node_HasLiveConnectionTo : prog := over_outbound Skip >> may (over_clients Skip).
Definition Node_HandlePeerDisconnect : prog := may (Node_HasLiveConnectionTo >> may NodeDiscovery_RemovePeer).
Definition Node_GetPeerEndpoints : prog := may (over_outbound Skip >> may (over_clients Skip)).
Definition Node_CheckPeerIdentity : prog :=
  may (Either (may NodeDiscovery_MarkSelfEndpoint) (may NodeDiscovery_NoteIdentity >> Node_HasOtherConnectionToNode)).
Definition Node_NoteBlockDelivered : prog := mutex DeliveryLock (Read Deliveries >> Write Deliveries).
Definition Node_TakeBlockDelivery : prog := mutex DeliveryLock (Read Deliveries >> may (Write Deliveries)).
Definition Node_ResetBlockDeliveries : prog := mutex DeliveryLock (Write Deliveries).
Definition Node_GetCurrentBlockHeight : prog := may Chain_Size.
Definition Node_GetClientList : prog := over_outbound Skip.
Definition Node_GetBestOutboundPeer : prog := over_outbound Skip.
(** The advertised height of the slot of this connection. *)
Definition note_peer_height : prog := mutex OutboundLock (Repeat (Read Outbound) >> may (Write Outbound)).

Definition Node_ReapDeadOutbound : prog :=
  mutex OutboundLock (Repeat (Read Outbound >> Pick >> TcpConnection_IsDisconnectNotified >> may (Write Outbound))) >> Repeat (may (Join 0)).

Definition Node_ParseAndAcceptBlock : prog :=
  may (Chain_Size >>
       Either OrphanPool_Insert
         (may Chain_GetBlockCopy >>
          Either (may OrphanPool_Insert)
            (Chain_AddBlock >> may (may save_both >> OrphanPool_AttemptAttachForced >> may save_both)))).

Definition Node_Client_OnConnect : prog := Node_GetCurrentBlockHeight >> Node_SendPacket.

(** Dialling writes the slot, without the lock of the table. *)
Definition TcpClient_Connect : prog := may (Read Outbound >> may (Pick >> Write Outbound >> Node_Client_OnConnect >> may (Write Outbound))).
Definition Node_ConnectPeer : prog :=
  may (may NodeDiscovery_IsSelfEndpoint >> may (may Node_HasOutboundTo >> Repeat (Read Outbound) >> may TcpClient_Connect)).

(** The peers are written to while the table is locked. *)
Definition Node_BroadcastTransaction : prog := may (mutex OutboundLock (Repeat (Read Outbound >> Pick >> may Node_SendPacket))).

(** One block: the targets are collected under the locks of the tables and written to without them. *)
Definition relay_block : prog :=
  Either Chain_GetBlockCopy (Chain_GetBlockCopy >> Chain_LoadBlockFromFile) >>
  may (mutex SeenLock (Read SeenBlocks) >>
  may (over_outbound Skip >> may (over_clients Skip) >> Repeat (Pick >> Node_SendPacket) >> may (mutex SeenLock (Write SeenBlocks)))).
Definition Node_BroadcastChainRange : prog := may (Chain_Size >> Repeat relay_block).

Definition Node_Server_OnConnect : prog := may (mutex OutboundLock (Repeat (Read Outbound)) >> may Node_ConnectPeer).
Definition NodeDiscovery_OnGetPeers : prog := Node_GetPeerEndpoints >> Pick >> Node_SendPacket.

(** A refusal: an error packet, and the connection is closed. *)
Definition refuse : prog := Node_SendPacket >> TcpConnection_RequestClose.
Definition on_peer_packets : prog := Either (may NodeDiscovery_OnGetPeers) (may NodeDiscovery_OnPeersReceived).

Definition server_hello : prog :=
  Node_GetCurrentBlockHeight >> Node_SendPacket >> Node_CheckPeerIdentity >>
  Either (Pick >> TcpConnection_RequestClose) (may Node_HasOtherInboundFrom >> may (Pick >> TcpConnection_RequestClose)).
(** The file is read without any lock. *)
Definition server_fetch : prog :=
  Node_GetCurrentBlockHeight >>
  Either Node_SendPacket (Chain_GetBlockCopy >> may Chain_LoadBlockFromFile >> Node_SendPacket).
Definition accept_and_relay : prog := Node_ParseAndAcceptBlock >> may Node_BroadcastChainRange.
Definition server_transaction : prog := may (TxMempool_Lookup >> may (TxMempool_Insert >> may Node_BroadcastTransaction)).

Definition Node_Server_OnData : prog :=
  may (Either server_hello (Either refuse (Either server_fetch (Either accept_and_relay (Either server_transaction on_peer_packets))))).
Definition Node_Server_OnDisconnect : prog := Node_HandlePeerDisconnect.

Definition client_hello : prog := Node_CheckPeerIdentity >> Either (Pick >> TcpConnection_RequestClose) (may note_peer_height).
Definition client_block : prog := Node_ParseAndAcceptBlock >> may Node_NoteBlockDelivered >> may (note_peer_height >> Node_BroadcastChainRange).
Definition Node_Client_OnData : prog :=
  may (Either client_hello (Either refuse (Either client_block on_peer_packets))).
Definition Node_Client_OnDisconnect : prog := may note_peer_height >> Node_HandlePeerDisconnect.

Definition NodeDiscovery_Iterate : prog :=
  may (Node_GetClientList >>
       mutex DiscLock (Repeat (Write PeerTable) >>
                       Repeat (Read PeerTable >> may (Write PeerTable >> UdpNode_SendPing)) >>
                       Repeat (Read PeerTable >> may (Write PeerTable))) >>
       Repeat (Pick >> Node_SendPacket) >> Repeat Node_ConnectPeer).

Definition Node_MaintenanceThread : prog :=
  Repeat (may (OrphanPool_AttemptAttachForced >> may save_both) >> TxMempool_PruneExpired >> Node_ReapDeadOutbound >> may NodeDiscovery_Iterate).

(** ** Server and client threads ([tcpserver.c], [tcpclient.c]) *)

Definition TcpServer_Disconnect : prog := TcpConnection_RequestClose >> may (Join 0).
Definition TcpServer_threadprocess : prog :=
  Repeat (Pick >> may (mutex ClientsMutex (Read Clients >> may (Write Clients)) >>
                       may (may Node_Server_OnConnect >> may (Pick >> TcpServer_Disconnect)))).

(** The notification of a disconnect, once. *)
Definition notify (a : prog) : prog := Pick >> TcpConnection_IsDisconnectNotified >> may (TcpConnection_MarkDisconnectNotified >> a).
Definition TcpServer_clientthreadprocess : prog :=
  Repeat (Pick >> Io >> Repeat Node_Server_OnData) >>
  Pick >> TcpConnection_RequestClose >> notify Node_Server_OnDisconnect >>
  mutex ClientsMutex (Read Clients >> may (Write Clients)).
Definition TcpClient_ThreadProc : prog :=
  may (Repeat (Pick >> Io >> Repeat Node_Client_OnData) >> notify Node_Client_OnDisconnect).

Definition TcpServer_Stop : prog :=
  may (may (Join 1) >> may (Join 1) >>
       mutex ClientsMutex (Repeat (Read Clients >> Pick >> TcpConnection_RequestClose >> may (Write Clients))) >>
       Repeat (Join 0) >> mutex ClientsMutex (Write Clients)).

Definition Node_Destroy : prog :=
  may (Join 1) >>
  mutex OutboundLock (Repeat (Read Outbound >> may (Write Outbound))) >>
  Repeat (Pick >> TcpConnection_RequestClose >> may (Join 0) >> notify Node_Client_OnDisconnect) >>
  TcpServer_Stop >> may (Join 0 >> Join 0 >> Join 0).

(** ** The command thread ([main.c]) *)

Definition MineBlock : prog := Chain_DagParamsForHeight >> may (Block_EnsureAutolykos2Dag >> Repeat Block_HasValidProofOfWorkWithParams).
Definition BuildNextBlock : prog := Chain_Size >> Chain_Size >> may (Chain_Size >> Chain_GetBlockCopy).
Definition BuildSpendableMempoolSelection : prog := TxMempool_Snapshot >> may BalanceSheet_SelectSpendableTransactions.
Definition MineAndAppendBlock : prog :=
  MineBlock >> may (Chain_AddBlock >> may (OrphanPool_AttemptAttachForced >> may save_both >> Chain_DagParamsForHeight)).
Definition mine : prog :=
  Repeat (BuildSpendableMempoolSelection >>
          may (Chain_Size >> Chain_GetTargetForHeight >> BuildNextBlock >>
          may (MineAndAppendBlock >> may (Chain_Size >> Node_BroadcastChainRange >> may save_both)))) >> may save_both.
Definition send : prog :=
  may (BalanceSheet_Lookup >>
       may (Chain_Size >> Chain_GetTargetForHeight >> BuildNextBlock >> may (TxMempool_Insert >> may Node_BroadcastTransaction))).
Definition sendrawtx : prog := may (TxMempool_Insert >> may Node_BroadcastTransaction).

Definition RequestForkWindow : prog :=
  Repeat (Repeat (Pick >> Node_SendPacket) >> Repeat Node_TakeBlockDelivery).
(** Realigning the window on the tip. *)
Definition realign : prog := Chain_Size >> Chain_Size >> may (Chain_Size >> Chain_GetBlockCopy).
Definition sync_window : prog :=
  Repeat (Repeat (Pick >> Node_SendPacket) >>
          Repeat (Chain_Size >>
                  Either (Chain_GetBlockCopy >> may (RequestForkWindow >> OrphanPool_AttemptAttachForced >> realign))
                    (Node_TakeBlockDelivery >>
                     Either (may RequestForkWindow >> may (OrphanPool_AttemptAttachForced >> may realign))
                       (may (Pick >> Node_SendPacket))))).
(** Whether the node is catching up is asked without a lock. *)
Definition sync : prog :=
  may (Node_GetBestOutboundPeer >>
       may (Node_ResetBlockDeliveries >>
            Repeat (Chain_Size >> Chain_IsInitialBlockDownload >> may Chain_GetBlockCopy >> sync_window >>
                    may OrphanPool_AttemptAttachForced >> Chain_Size >>
                    may (mutex OutboundLock (Repeat (Read Outbound)) >>
                         may (may (RequestForkWindow >> may OrphanPool_AttemptAttachForced) >> may Chain_Size))))).
Definition blockdetail : prog := may (Chain_LoadBlockFromFile >> may (Read ChainFiles >> may Chain_DagParamsForHeight)).
Definition balance : prog := may (Either BalanceSheet_Print BalanceSheet_Lookup).
Definition fullverify : prog := Read ChainFiles >> may (Chain_Size >> Repeat (Chain_GetBlockCopy >> may Chain_GetBlockCopy >> may Chain_DagParamsForHeight >> Chain_Size)).
Definition wipechain : prog := Write ChainFiles >> Chain_Wipe >> BalanceSheet_Destroy >> BalanceSheet_Init >> Chain_Size.

Definition commands : prog :=
  Either mine (Either send (Either sendrawtx (Either sync (Either TxMempool_Lookup (Either blockdetail (Either balance
  (Either Node_ConnectPeer (Either NodeDiscovery_PrintPeers (Either save_both (Either fullverify wipechain)))))))))).

(** The command loop, the flush and the shutdown. *)
Definition main : prog := Repeat (may commands) >> save_both >> Block_ShutdownPowContext >> Node_Destroy.

(** The threads with their levels: those that serve a connection or the UDP sockets join nobody, the
    accepting and the maintaining thread join those of connections, and the command thread joins all. *)
Definition threads : list (nat * prog) :=
  [(2%nat, main); (1%nat, TcpServer_threadprocess); (0%nat, TcpServer_clientthreadprocess); (0%nat, TcpClient_ThreadProc);
   (1%nat, Node_MaintenanceThread); (0%nat, UdpNode_RecvThreadProc); (0%nat, UdpNode_RetryThreadProc)].
End Lk.

(** Any number of threads of the node, each at the start of its function. *)
Definition started (p : list (thread lock table)) : Prop := Forall (fun t => exists v c a, t = start v c a /\ (v, a) ∈ Lk.threads) p.

(** A node with one thread of each kind. *)
Definition node_threads : list (thread lock table) := map (fun x => start x.1 0 x.2) Lk.threads.

Lemma threads_disciplined v a : (v, a) ∈ Lk.threads -> disciplined per_connection rank guard v a = true.
Proof.
  assert (H : Forall (fun x => disciplined per_connection rank guard x.1 x.2 = true) Lk.threads) by vm_decide.
  intros Ha. exact (proj1 (list.Forall_forall _ _) H (v, a) Ha).
Qed.
