(* ===== verification/LockingTheorems.v ===== *)
(** * What the locks of the node give, and what they do not

    For any number of threads of every kind, at any time: nobody waits in a circle, and the ten tables that
    have a lock are never touched by two threads at once when one of them writes.  The other four can be, and a
    peer that reads nothing can stop every thread that uses the table of outbound connections. *)
From stdpp Require Import relations.
From S2P Require Import Prelude Concurrency Locking.

(** Two threads are about to touch one table (of one connection, where it belongs to one), and one writes. *)
Definition race (v : table) (p : list (thread lock table)) : Prop :=
  exists i j s t c d b, i <> j /\ p !! i = Some s /\ p !! j = Some t /\
    next_access s = Some (v, c, true) /\ next_access t = Some (v, d, b) /\ (v = ConnState -> c = d).

Lemma rank_top l : (rank l <= 14)%nat.
Proof. destruct l; cbn; lia. Qed.

Lemma started_sound prefer responds p0 p : started p0 -> rtc (pool_step per_connection prefer responds) p0 p -> sound_pool per_connection rank guard p.
Proof.
  intros H0 Hr. eapply sound_reachable; [exact Hr|]. apply sound_start. eapply list.Forall_impl; [exact H0|].
  intros t (v & c & a & -> & Ha). split; [done|]. exists a. split; [done|]. by apply threads_disciplined.
Qed.

Lemma node_threads_started : started node_threads.
Proof. unfold started, node_threads. apply list.Forall_forall. intros t Ht. apply list_elem_of_fmap in Ht as ([v a] & -> & Ha). by exists v, 0%nat, a. Qed.

(** ** Schedules *)

Abbreviation T := true (only parsing).
Abbreviation F := false (only parsing).

(** A thread about to read or write [v] with exactly the locks [h], about to send, or about to take [l]. *)
Definition about (v : table) (w : bool) (h : list lock) (t : thread lock table) : bool :=
  bool_decide (next_access t = Some (v, cur t, w)) && bool_decide (map (fun x => x.1.1) (held t) = h).
Definition sending (t : thread lock table) : bool := match todo t with Io :: _ => true | _ => false end.
Definition wanting (l : lock) (t : thread lock table) : bool := bool_decide (wants per_connection t = Some (l, 0%nat, Exclusive)).

(** The choices that lead a thread to a place. *)
Definition to_send : list bool := [T;T;F;T;T;T;T;T;T].
Definition to_connect : list bool := [T;T;F;F;F;F;F;F;F;T;T;F;T;F;F;T;T;T].
Definition to_save : list bool := [T;T;F;F;F;F;F;F;F;F;F;T;T;F;T;T].
Definition to_dial_back : list bool := [T;T;F;T;T;T;F;T;T;F;T;F;F;T;T;T].
Definition to_fetch : list bool := [T;T;T;F;F;T;T;F;T].
Definition to_append : list bool := [T;T;T;F;F;F;T;T;F;F;F;T;T;T;T;F;F;F;T;F;T;F;T;F;T;F;T].
Definition to_rollback : list bool := [T;T;T;T;F;T;T;T;T;T;T;T;T;F;T;F;T;F;T;T;F;F].
Definition to_broadcast : list bool := [T;T;F;F;T;T;T;T;T;T;T;T;T;T].
Definition to_reap : list bool := [T;F;F].

(** A transaction is sent to a peer and the table of outbound connections is waited for. *)
Definition waiting_plan : list (nat * (thread lock table -> bool) * list bool) :=
  [(0%nat, sending, to_broadcast); (4%nat, wanting OutboundLock, to_reap)].
Definition waiting_pool : list (thread lock table) := default [] (run per_connection true (fun _ => true) waiting_plan node_threads).

Lemma waiting_pool_reached : rtc (pool_step per_connection true (fun _ => true)) node_threads waiting_pool.
Proof. apply (run_reaches per_connection true (fun _ => true) waiting_plan). vm_compute. reflexivity. Qed.

(** ** The order of the locks *)

(** C19: whatever the threads of a running node do, no thread ever waits for itself through a chain of locks and
    joins -- a thread waits for those that hold its lock or (where writers go first) want it as writers, and in
    [pthread_join] for the end of the thread it joins -- and from every unfinished thread that chain leads to
    one that can go on as soon as its peer answers. *)
Theorem no_circular_wait prefer responds p0 p : started p0 -> rtc (pool_step per_connection prefer responds) p0 p ->
  (forall t, ~ tc (waits_for per_connection prefer p) t t) /\
  (forall t, t ∈ p -> todo t <> [] -> exists t' t'', rtc (waits_for per_connection prefer p) t t' /\ t' ∈ p /\
     thread_step per_connection prefer (fun _ => true) p t' t'').
Proof.
  intros H0 Hr. pose proof (started_sound _ _ _ _ H0 Hr) as Hs. split.
  - intros t. exact (sound_acyclic _ _ _ 14 rank_top prefer p t Hs).
  - intros t. exact (sound_progress _ _ _ 14 rank_top prefer p t Hs).
Qed.

Lemma no_circular_wait_witness : (exists t u, waits_for per_connection true waiting_pool t u) /\ forall t, ~ tc (waits_for per_connection true waiting_pool) t t.
Proof.
  split.
  - destruct (waiting_pool !! 4%nat) as [t|] eqn:Ht; [|vm_compute in Ht; discriminate]. destruct (waiting_pool !! 0%nat) as [u|] eqn:Hu; [|vm_compute in Hu; discriminate].
    exists t, u. split; [by eapply list_elem_of_lookup_2|]. split; [by eapply list_elem_of_lookup_2|]. left. vm_compute in Ht, Hu.
    injection Ht as <-. injection Hu as <-. exists OutboundLock, 0%nat, Exclusive. split; [reflexivity|]. left.
    exists (OutboundLock, 0%nat, Exclusive). split; vm_decide.
  - apply (no_circular_wait true (fun _ => true) node_threads waiting_pool); [exact node_threads_started|exact waiting_pool_reached].
Defined.

(** What the order rules out: a thread that joins another under the table's lock waits for it, and is waited for. *)
Example joining_under_the_lock : exists p t u,
  rtc (pool_step per_connection true (fun _ => true)) [start 1 0 (Lk.mutex OutboundLock (Join 0)); start 0 0 (Lk.mutex OutboundLock Skip)] p /\
  waits_for per_connection true p t u /\ waits_for per_connection true p u t.
Proof.
  set (t := mkThread 1 [(OutboundLock, 0%nat, Exclusive)] 0 [Wait 1; Unlock OutboundLock : code lock table]).
  set (u := mkThread 0 [] 0 [Lock OutboundLock Exclusive; (Skip >> Unlock OutboundLock)%code : code lock table]).
  exists [t; u], t, u. split; [|split].
  - apply (run_reaches per_connection true (fun _ => true)
      [(1%nat, wanting OutboundLock, []); (0%nat, fun t => match todo t with Wait _ :: _ => true | _ => false end, [])]). vm_compute. reflexivity.
  - split; [left|]. split; [right; left|]. right. by exists 1%nat, [Unlock OutboundLock].
  - split; [right; left|]. split; [left|]. left. exists OutboundLock, 0%nat, Exclusive. split; [reflexivity|]. left.
    exists (OutboundLock, 0%nat, Exclusive). split; vm_decide.
Qed.

(** C20: the memo table, the mining DAG, the pools, the receipts, the relay set, the peers, the pending pings,
    the inbound connections and the flags of a connection are never touched by two threads at once with one
    of them writing, at any time and with any number of threads. *)
Theorem guarded_tables_never_raced prefer responds p0 p v : started p0 -> rtc (pool_step per_connection prefer responds) p0 p ->
  guard v <> None -> ~ race v p.
Proof.
  intros H0 Hr Hg (i & j & s & t & c & d & b & Hij & Hi & Hj & Hs & Ht & Hcd). destruct (guard v) as [g|] eqn:E; [|done].
  destruct (sound_no_race per_connection rank guard p i j s t v c d true b g) as [? _]; try done; [by eapply started_sound|].
  destruct v; try done; injection E as <-; cbn; [done..|]. by apply Hcd.
Qed.

Lemma guarded_tables_never_raced_witness : (exists v, guard v = Some PowCtxLock) /\ ~ race Dag waiting_pool.
Proof.
  split; [by exists Dag|].
  apply (guarded_tables_never_raced true (fun _ => true) node_threads waiting_pool Dag); [exact node_threads_started|exact waiting_pool_reached|discriminate].
Defined.

(** ** Four tables without a lock *)

(** Thread [i] is driven to one access of [v] and then thread [j] to another; both are there at the end. *)
Definition meet (prefer : bool) (v : table) (i : nat) (w : bool) (h : list lock) (cs : list bool) (j : nat) (w' : bool) (h' : list lock) (cs' : list bool) :
    option (list (thread lock table)) :=
  p ← run per_connection prefer (fun _ => true) [(i, about v w h, cs); (j, about v w' h', cs')] node_threads;
  s ← p !! i;
  t ← p !! j;
  if negb (i =? j)%nat && (w || w') && about v w h s && about v w' h' t && (cur s =? cur t)%nat then Some p else None.

Lemma meet_race prefer v i w h cs j w' h' cs' : is_Some (meet prefer v i w h cs j w' h' cs') ->
  exists p, rtc (pool_step per_connection prefer (fun _ => true)) node_threads p /\ race v p.
Proof.
  unfold meet. intros [r Hr]. destruct (run per_connection prefer _ _ _) as [p|] eqn:E; [|done]. cbn [mbind option_bind] in Hr.
  exists p. split; [by eapply run_reaches|].
  destruct (p !! i) as [s|] eqn:Hi; [|done]. cbn in Hr. destruct (p !! j) as [t|] eqn:Hj; [|done]. cbn in Hr.
  destruct (i =? j)%nat eqn:Hij; [done|]. apply Nat.eqb_neq in Hij. destruct (about v w h s) eqn:Hs; [|by rewrite andb_false_r in Hr].
  destruct (about v w' h' t) eqn:Ht; [|by rewrite andb_false_r in Hr]. destruct (cur s =? cur t)%nat eqn:Hc; [|by rewrite andb_false_r in Hr].
  apply Nat.eqb_eq in Hc. apply andb_true_iff in Hs as [Hs _], Ht as [Ht _]. apply bool_decide_eq_true in Hs, Ht.
  destruct w; [exists i, j, s, t, (cur s), (cur t), w'|destruct w'; [|done]; exists j, i, t, s, (cur t), (cur s), false]; repeat split; auto.
Qed.

(** C36: a node with one thread of each kind can get to where a command reads the blocks without a lock
    while a received block is appended, a lookup reads the balance sheet under the sheet's lock while a
    rollback frees it under the chain's, two dialling threads write one slot of the outbound table, and a file
    of the chain is read for a peer while the chain is saved over it. *)
Theorem unguarded_tables_race prefer v : guard v = None ->
  exists p, rtc (pool_step per_connection prefer (fun _ => true)) node_threads p /\ race v p.
Proof.
  destruct v; try done; intros _.
  - apply (meet_race prefer Blocks 0 F [] to_send 2 T [BalanceSheetLock; ChainLock] to_append). destruct prefer; vm_compute; by eexists.
  - apply (meet_race prefer ChainFiles 2 F [] to_fetch 0 T [ChainLock] to_save). destruct prefer; vm_compute; by eexists.
  - apply (meet_race prefer Sheet 0 F [SheetLock] to_send 4 T [BalanceSheetLock; ChainLock] to_rollback). destruct prefer; vm_compute; by eexists.
  - apply (meet_race prefer Outbound 0 T [] to_connect 1 T [] to_dial_back). destruct prefer; vm_compute; by eexists.
Qed.

Lemma unguarded_tables_race_witness : guard Sheet = None /\ exists p, rtc (pool_step per_connection true (fun _ => true)) node_threads p /\ race Sheet p.
Proof. split; [reflexivity|]. apply (unguarded_tables_race true Sheet). reflexivity. Defined.

(** ** One peer *)

(** A transaction is being written to the peer of connection 0; the threads that accept, serve and reap
    connections have come to the table of outbound connections. *)
Definition stopped_plan : list (nat * (thread lock table -> bool) * list bool) :=
  [(0%nat, sending, to_broadcast); (1%nat, wanting OutboundLock, [T;T;F;T;T;T]); (2%nat, wanting OutboundLock, [F;T;T;T]);
   (3%nat, wanting OutboundLock, [T;F;T;T]); (4%nat, wanting OutboundLock, to_reap)].

(** Thread 0 waits to send under the table's lock, and threads 1 to 4 wait for that lock. *)
Definition stopped (p : list (thread lock table)) : bool :=
  match p with
  | t :: a :: s :: c :: m :: _ => sending t && (cur t =? 0)%nat && bool_decide ((OutboundLock, 0%nat, Exclusive) ∈ held t) && forallb (wanting OutboundLock) [a; s; c; m]
  | _ => false
  end.

Lemma stopped_for_good prefer responds p p' : responds 0%nat = false -> stopped p = true -> rtc (pool_step per_connection prefer responds) p p' ->
  forall i, (i <= 4)%nat -> p' !! i = p !! i.
Proof.
  intros Hr Hp Hs i Hi. destruct p as [|t [|a [|s [|c [|m p]]]]]; try done. cbn [stopped forallb] in Hp. rewrite !andb_true_iff in Hp.
  destruct Hp as (((Hsend & Hc) & Ho) & Ha & Hse & Hcl & Hm & _). apply Nat.eqb_eq in Hc. apply bool_decide_eq_true in Ho, Ha, Hse, Hcl, Hm.
  unfold sending in Hsend. destruct (todo t) as [|[] k] eqn:Ht; try done. rewrite <- Hc in Hr.
  assert (Hw : forall j u, (t :: a :: s :: c :: m :: p) !! j = Some u -> wants per_connection u = Some (OutboundLock, 0%nat, Exclusive) -> p' !! j = Some u).
  { intros j u Hj Hu. eapply (waiting_stays _ _ _ _ _ 0 j t u k); [exact Hs|done|done|done|exact Ho| |exact Hj|exact Hu]. done. }
  do 5 (destruct i as [|i]; [first [by eapply (stalled_stays _ _ _ _ _ 0 t k)|by apply Hw]|]). lia.
Qed.

(** C37: with a peer that reads nothing, a node with one thread of each kind can get to where the command thread
    and the threads that accept, serve and reap connections never move again; nothing ends the wait. *)
Theorem one_peer_stops_the_node prefer responds : responds 0%nat = false ->
  exists p, rtc (pool_step per_connection prefer responds) node_threads p /\ stopped p = true /\
    forall p', rtc (pool_step per_connection prefer responds) p p' -> forall i, (i <= 4)%nat -> p' !! i = p !! i.
Proof.
  intros Hr. destruct (run per_connection prefer responds stopped_plan node_threads) as [p|] eqn:E; [|destruct prefer; vm_compute in E; discriminate].
  exists p. split; [by eapply run_reaches|]. assert (Hp : stopped p = true) by (destruct prefer; vm_compute in E; injection E as <-; reflexivity).
  split; [done|]. intros p' Hs. by eapply stopped_for_good.
Qed.

Lemma one_peer_stops_the_node_witness : exists p, stopped p = true /\
  forall p', rtc (pool_step per_connection true (fun c => (c =? 1)%nat)) p p' -> p' !! 4%nat = p !! 4%nat.
Proof.
  destruct (one_peer_stops_the_node true (fun c => (c =? 1)%nat) eq_refl) as (p & _ & Hp & Hs). exists p. split; [exact Hp|].
  intros p' Hr. apply (Hs p' Hr). lia.
Defined.
