(* ===== verification/BlockMemory.v ===== *)
(** * The memory of blocks ([chain.c], [orphan_pool.c], [block.c], and their callers)

    Who owns the heap blocks and the vectors of transactions: the functions that allocate, copy, hand over
    and free them, with every allocation, file access and check allowed to go either way.  A pointer that is
    used or freed when its object is gone, or is of another kind, has no result: such a run is [None].  What
    the functions check and compute is in [Chain] and [OrphanPool]; here the outcome of a check, of a
    look-up by hash and of the number of rounds of an unbounded loop is taken from a list of choices, so that
    a theorem for all lists covers every outcome, also those other threads bring about between two locks. *)
From S2P Require Import Prelude.

Module Bm.

(** ** The heap *)

(** A vector of transactions, a [block_t] with its pointer to one, or plain memory; addresses are not reused. *)
Inductive cell := Vector | Block (transactions : option nat) | Buffer.

(** [blocks]: the pointer each element of the chain holds; [orphans]: the block each entry of the pool holds. *)
Record memory := mkMemory { heap : gmap nat cell; next : nat; blocks : list (option nat); orphans : list nat; choices : list nat }.

Definition mem (A : Type) : Type := memory -> option (A * memory).
Definition ret {A} (x : A) : mem A := fun s => Some (x, s).
Definition bind {A B} (m : mem A) (k : A -> mem B) : mem B := fun s => match m s with Some (x, s) => k x s | None => None end.

Declare Scope mem_scope.
Delimit Scope mem_scope with mem.
Bind Scope mem_scope with mem.
Notation "'let*' x := m 'in' k" := (bind m (fun x => k)) (at level 10, x name, m at level 100, k at level 200) : mem_scope.
Notation "m ;; k" := (bind m (fun _ => k)) (at level 100, right associativity) : mem_scope.
#[local] Open Scope mem_scope.

(** A number from the outside; 0 when there are no more. *)
Definition choose : mem nat := fun s =>
  match choices s with
  | [] => Some (0%nat, s)
  | c :: r => Some (c, mkMemory (heap s) (next s) (blocks s) (orphans s) r)
  end.
Definition decision : mem bool := let* c := choose in ret (negb (c =? 0)%nat).

Definition undefined {A} : mem A := fun _ => None.
Definition get_heap : mem (gmap nat cell) := fun s => Some (heap s, s).
Definition set_heap (h : gmap nat cell) : mem unit := fun s => Some (tt, mkMemory h (next s) (blocks s) (orphans s) (choices s)).
Definition get_blocks : mem (list (option nat)) := fun s => Some (blocks s, s).
Definition set_blocks (l : list (option nat)) : mem unit := fun s => Some (tt, mkMemory (heap s) (next s) l (orphans s) (choices s)).
Definition get_orphans : mem (list nat) := fun s => Some (orphans s, s).
Definition set_orphans (l : list nat) : mem unit := fun s => Some (tt, mkMemory (heap s) (next s) (blocks s) l (choices s)).

Definition alloc (c : cell) : mem nat := fun s =>
  Some (next s, mkMemory (<[next s := c]> (heap s)) (S (next s)) (blocks s) (orphans s) (choices s)).
Definition malloc (c : cell) : mem (option nat) :=
  let* ok := decision in
  if negb ok then ret None else let* l := alloc c in ret (Some l).

Definition load (l : nat) : mem cell := let* h := get_heap in match h !! l with Some c => ret c | None => undefined end.
Definition store (l : nat) (c : cell) : mem unit := load l;; let* h := get_heap in set_heap (<[l := c]> h).
Definition free (l : nat) : mem unit := load l;; let* h := get_heap in set_heap (delete l h).

(** ** Vectors and blocks ([vector.h], [block.c]) *)

Definition expect_vector (v : nat) : mem unit := let* c := load v in match c with Vector => ret tt | _ => undefined end.
(** Reading the transactions behind a pointer; a null vector reads as empty. *)
Definition touch (t : option nat) : mem unit := match t with Some v => expect_vector v | None => ret tt end.
Definition vector_destroy (t : option nat) : mem unit := match t with Some v => expect_vector v;; free v | None => ret tt end.

Definition transactions (b : nat) : mem (option nat) := let* c := load b in match c with Block t => ret t | _ => undefined end.
Definition set_transactions (b : nat) (t : option nat) : mem unit := transactions b;; store b (Block t).
(** [vector_destroy(&blk->transactions)]: the pointer is cleared. *)
Definition destroy_transactions (b : nat) : mem unit := let* t := transactions b in vector_destroy t;; set_transactions b None.
Definition free_block (b : nat) : mem unit := transactions b;; free b.

Definition free_buffer (p : option nat) : mem unit :=
  match p with Some p => let* c := load p in match c with Buffer => free p | _ => undefined end | None => ret tt end.

Definition Block_Create : mem (option nat) :=
  let* b := malloc (Block None) in
  match b with
  | None => ret None
  | Some w =>
      let* v := malloc Vector in
      match v with
      | None => free_block w;; ret None
      | Some v => set_transactions w (Some v);; ret (Some w)
      end
  end.

Definition Block_Destroy (b : option nat) : mem unit :=
  match b with Some w => destroy_transactions w;; free_block w | None => ret tt end.

(** Of a block, only its pointer to the transactions matters. *)
Definition Block_Copy (t : option nat) : mem (option nat) :=
  let* b := malloc (Block None) in
  match b with
  | None => ret None
  | Some dst =>
      match t with
      | None => ret (Some dst)
      | Some v =>
          expect_vector v;;
          let* v' := malloc Vector in
          match v' with
          | None => free_block dst;; ret None
          | Some v' => set_transactions dst (Some v');; ret (Some dst)
          end
      end
  end.

(** ** Reading blocks from the files ([chain.c]) *)

(** [vector_create], [vector_reserve] and the loop that fills the vector; a failure frees the block. *)
Definition fill_block (w : nat) : mem bool :=
  let* v := malloc Vector in
  match v with
  | None => destroy_transactions w;; free_block w;; ret false
  | Some v =>
      set_transactions w (Some v);;
      let* ok := decision in
      if ok then ret true else destroy_transactions w;; free_block w;; ret false
  end.

Definition Chain_LoadBlockFromFile (loadTransactions : bool) : mem (option nat) :=
  let* found := decision in
  if negb found then ret None
  else
    let* b := malloc (Block None) in
    match b with
    | None => ret None
    | Some w =>
        let* ok := decision in
        if negb ok then free_block w;; ret None
        else if loadTransactions then let* ok := fill_block w in ret (if ok then Some w else None)
        else let* ok := decision in if ok then ret (Some w) else free_block w;; ret None
    end.

(** The transactions of the block at an index: of the element itself, or of a temporary block from the files. *)
Definition Chain_BorrowBlockTransactions (i : nat) : mem (option (option nat * option nat)) :=
  let* l := get_blocks in
  match l !! i with
  | Some (Some v) => ret (Some (Some v, None))
  | _ =>
      let* b := Chain_LoadBlockFromFile true in
      match b with
      | None => ret None
      | Some w => let* t := transactions w in ret (Some (t, Some w))
      end
  end.

Definition Chain_ReturnBlockTransactions (loaded : option nat) : mem unit :=
  match loaded with Some w => destroy_transactions w;; free_block w | None => ret tt end.

Definition Chain_GetBlockCopy (i : nat) : mem (option nat) :=
  let* l := get_blocks in
  match l !! i with
  | None => ret None
  | Some t => Block_Copy t
  end.

(** ** The elements of the chain *)

Definition vector_push_back (t : option nat) : mem bool :=
  let* ok := decision in
  if ok then let* l := get_blocks in set_blocks (l ++ [t]);; ret true else ret false.

(** Popping the last element runs the element destructor on it. *)
Definition pop_last : mem unit :=
  let* l := get_blocks in
  match reverse l with
  | [] => ret tt
  | t :: r => vector_destroy t;; set_blocks (reverse r)
  end.

Fixpoint destroy_elements (l : list (option nat)) : mem unit :=
  match l with
  | [] => set_blocks []
  | t :: r => vector_destroy t;; destroy_elements r
  end.
Definition Chain_ClearBlocks : mem unit := let* l := get_blocks in destroy_elements l.

Definition BalanceSheet_SelectSpendableTransactions : mem (option (option nat)) :=
  let* accepted := malloc Buffer in
  match accepted with
  | None => ret None
  | Some _ =>
      let* simMap := malloc Buffer in
      match simMap with
      | None => free_buffer accepted;; ret None
      | Some _ =>
          free_buffer simMap;;
          let* any := decision in
          if any then ret (Some accepted) else free_buffer accepted;; ret (Some None)
      end
  end.

(** The selection, the coinbase and the order of the senders. *)
Definition validate_transactions (v : nat) : mem bool :=
  expect_vector v;;
  let* some := decision in
  if negb some then ret false
  else
    let* candidateTxs := malloc Buffer in
    match candidateTxs with
    | None => ret false
    | Some _ =>
        let* copied := decision in
        if negb copied then free_buffer candidateTxs;; ret false
        else
          let* spendable := BalanceSheet_SelectSpendableTransactions in
          free_buffer candidateTxs;;
          match spendable with
          | None => ret false
          | Some spendableTxs =>
              expect_vector v;;
              let* ok := decision in
              free_buffer spendableTxs;;
              if ok then expect_vector v;; decision else ret false
          end
    end.

(** On success, and when the ledger pass fails, the chain has the vector and the caller's pointer is cleared. *)
Definition Chain_AddBlockLocked (w : nat) : mem bool :=
  let* t := transactions w in
  match t with
  | None => ret false
  | Some v =>
      let* linked := decision in
      if negb linked then ret false
      else
        let* valid := validate_transactions v in
        if negb valid then ret false
        else
          let* pushed := vector_push_back (Some v) in
          if negb pushed then ret false
          else
            set_transactions w None;;
            expect_vector v;;
            decision
  end.

Definition Chain_AddBlock (w : nat) : mem bool := let* t := transactions w in match t with None => ret false | Some _ => Chain_AddBlockLocked w end.

(** The transactions of the blocks from [i + n - 1] down to [i] go back to the pool of transactions. *)
Fixpoint restore_discarded (n i : nat) : mem unit :=
  match n with
  | O => ret tt
  | S n =>
      let* b := Chain_BorrowBlockTransactions (i + n)%nat in
      match b with
      | None => restore_discarded n i
      | Some (t, loaded) => touch t;; Chain_ReturnBlockTransactions loaded;; restore_discarded n i
      end
  end.

Fixpoint pop_blocks (n : nat) : mem unit := match n with O => ret tt | S n => pop_last;; pop_blocks n end.

(** The sheet is rebuilt from the blocks [i], [i + 1], ... *)
Fixpoint rebuild_sheet (n i : nat) : mem bool :=
  match n with
  | O => ret true
  | S n =>
      let* b := Chain_BorrowBlockTransactions i in
      match b with
      | None => ret false
      | Some (t, loaded) => touch t;; Chain_ReturnBlockTransactions loaded;; rebuild_sheet n (S i)
      end
  end.

Definition Chain_RollbackToHeightLocked (height : nat) : mem bool :=
  let* l := get_blocks in
  if (length l <=? height)%nat then ret true
  else
    restore_discarded (length l - height) height;;
    pop_blocks (length l - height);;
    rebuild_sheet height 0.

(** ** Replacing a branch *)

Fixpoint destroy_blocks (bs : list (option nat)) : mem unit :=
  match bs with
  | [] => ret tt
  | b :: r => Block_Destroy b;; destroy_blocks r
  end.

Definition Chain_FreeBlockArray (array : option nat) (bs : list (option nat)) : mem unit :=
  match array with
  | None => ret tt
  | Some _ => destroy_blocks bs;; free_buffer array
  end.

(** Copies of the blocks [i], [i + 1], ...; what was copied before a failure stays in the array. *)
Fixpoint snapshot_blocks (n i : nat) : mem (list (option nat) * bool) :=
  match n with
  | O => ret ([], true)
  | S n =>
      let* b := Chain_BorrowBlockTransactions i in
      match b with
      | None => ret ([], false)
      | Some (t, loaded) =>
          let* c := Block_Copy t in
          Chain_ReturnBlockTransactions loaded;;
          match c with
          | None => ret ([], false)
          | Some _ => let* r := snapshot_blocks n (S i) in ret (c :: r.1, r.2)
          end
      end
  end.

Fixpoint copy_blocks (bs : list nat) : mem (list (option nat) * bool) :=
  match bs with
  | [] => ret ([], true)
  | b :: bs =>
      let* t := transactions b in
      let* c := Block_Copy t in
      match c with
      | None => ret ([], false)
      | Some _ => let* r := copy_blocks bs in ret (c :: r.1, r.2)
      end
  end.

Fixpoint add_blocks (bs : list (option nat)) : mem bool :=
  match bs with
  | [] => ret true
  | Some b :: bs => let* ok := Chain_AddBlockLocked b in if ok then add_blocks bs else ret false
  | None :: _ => ret false
  end.

(** Rolling back, applying the branch and, where that fails, putting the snapshot back. *)
Definition swap_branch (forkHeight : nat) (snapshot candidate : list (option nat)) : mem bool :=
  let* rolled := Chain_RollbackToHeightLocked forkHeight in
  if negb rolled then ret false
  else
    let* applied := add_blocks candidate in
    if applied then ret true
    else
      let* rolled := Chain_RollbackToHeightLocked forkHeight in
      if negb rolled then ret false else add_blocks snapshot;; ret false.

(** The part of the replacement that works on copies of the branch, and frees both arrays. *)
Definition apply_branch (forkHeight : nat) (newBlocks : list nat) (snapshot : option nat) (saved : list (option nat)) : mem bool :=
  let* candidate := malloc Buffer in
  match candidate with
  | None => Chain_FreeBlockArray snapshot saved;; ret false
  | Some _ =>
      let* branch := copy_blocks newBlocks in
      let* ok := (if branch.2 then swap_branch forkHeight saved branch.1 else ret false) in
      Chain_FreeBlockArray snapshot saved;;
      Chain_FreeBlockArray candidate branch.1;;
      ret ok
  end.

Definition Chain_ReplaceBranch (forkHeight : nat) (newBlocks : list nat) : mem bool :=
  let* l := get_blocks in
  let* wanted := decision in
  if (length l <? forkHeight)%nat || negb wanted then ret false
  else if (length l =? forkHeight)%nat then apply_branch forkHeight newBlocks None []
  else
    let* snapshot := malloc Buffer in
    match snapshot with
    | None => ret false
    | Some _ =>
        let* saved := snapshot_blocks (length l - forkHeight) forkHeight in
        if negb saved.2 then Chain_FreeBlockArray snapshot saved.1;; ret false else apply_branch forkHeight newBlocks snapshot saved.1
    end.

Definition Chain_Wipe : mem unit := Chain_ClearBlocks.

(** ** Saving and loading *)

(** The blocks [i], [i + 1], ... are written; a block in memory gives up its transactions, a block read back
    for the purpose is freed. *)
Fixpoint save_blocks (n i : nat) : mem bool :=
  match n with
  | O => ret true
  | S n =>
      let* l := get_blocks in
      match l !! i with
      | None => ret false
      | Some (Some v) =>
          expect_vector v;;
          let* written := decision in
          if written then vector_destroy (Some v);; set_blocks (<[i := None]> l);; save_blocks n (S i) else ret false
      | Some None =>
          let* b := Chain_LoadBlockFromFile true in
          match b with
          | None => ret false
          | Some w =>
              let* t := transactions w in
              match t with
              | None => ret false
              | Some v =>
                  expect_vector v;;
                  let* written := decision in
                  Block_Destroy b;;
                  if written then save_blocks n (S i) else ret false
              end
          end
      end
  end.

Definition Chain_SaveToFile : mem bool :=
  let* opened := decision in
  if negb opened then ret false
  else
    let* l := get_blocks in
    let* ok := save_blocks (length l) 0 in
    if ok then decision else ret false.

(** Each block is read into a temporary one, whose transactions the element takes over. *)
Fixpoint load_blocks (n : nat) (loadTransactions : bool) : mem bool :=
  match n with
  | O => ret true
  | S n =>
      let* found := decision in
      if negb found then ret false
      else
        let* b := malloc (Block None) in
        match b with
        | None => ret false
        | Some w =>
            let* header := decision in
            if negb header then free_block w;; ret false
            else
              let* filled := (if loadTransactions then fill_block w
                              else let* ok := decision in if ok then ret true else free_block w;; ret false) in
              if negb filled then ret false
              else
                let* t := transactions w in
                let* pushed := vector_push_back t in
                if pushed then free_block w;; load_blocks n loadTransactions else Block_Destroy b;; ret false
        end
  end.

Definition Chain_LoadFromFile (loadTransactions : bool) : mem bool :=
  let* read := decision in
  if negb read then ret false
  else
    Chain_ClearBlocks;;
    let* savedSize := choose in
    load_blocks savedSize loadTransactions.

(** ** The orphan pool ([orphan_pool.c]) *)

Definition MAX_ORPHAN_BLOCKS : nat := 512.

(** An entry is dropped with its block, or handed out. *)
Definition drop_at (i : nat) : mem unit :=
  let* l := get_orphans in
  match l !! i with
  | None => ret tt
  | Some w => Block_Destroy (Some w);; set_orphans (delete i l)
  end.
Definition take_at (i : nat) : mem (option nat) :=
  let* l := get_orphans in
  match l !! i with
  | None => ret None
  | Some w => set_orphans (delete i l);; ret (Some w)
  end.

Definition OrphanPool_TakeByHashLocked : mem (option nat) := let* i := choose in take_at i.
Definition OrphanPool_DropByHashLocked : mem unit := let* i := choose in drop_at i.
Fixpoint drop_hashes (n : nat) : mem unit := match n with O => ret tt | S n => OrphanPool_DropByHashLocked;; drop_hashes n end.

Definition OrphanPool_EvictOldestLocked : mem bool :=
  let* l := get_orphans in
  match l with
  | [] => ret false
  | _ => let* i := choose in drop_at (i mod length l)%nat;; ret true
  end.

Fixpoint evict_loop (fuel : nat) : mem unit :=
  match fuel with
  | O => ret tt
  | S fuel =>
      let* l := get_orphans in
      if (MAX_ORPHAN_BLOCKS <=? length l)%nat then let* evicted := OrphanPool_EvictOldestLocked in if evicted then evict_loop fuel else ret tt else ret tt
  end.

(** The pool takes the block over: it keeps it or frees it. *)
Definition OrphanPool_Insert (w : nat) : mem unit :=
  let* ready := decision in
  if negb ready then Block_Destroy (Some w)
  else
    let* known := decision in
    if known then Block_Destroy (Some w)
    else
      let* l := get_orphans in
      evict_loop (length l);;
      let* pushed := decision in
      if pushed then let* l := get_orphans in set_orphans (l ++ [w]) else Block_Destroy (Some w).

Definition OrphanPool_FindChildLocked : mem (option nat) :=
  let* i := choose in
  let* l := get_orphans in
  match l !! i with
  | None => ret None
  | Some w => transactions w;; ret (Some w)
  end.

Fixpoint collect_loop (n : nat) : mem (list nat) :=
  match n with
  | O => ret []
  | S n =>
      let* child := OrphanPool_FindChildLocked in
      match child with
      | None => ret []
      | Some w => let* pushed := decision in if pushed then let* r := collect_loop n in ret (w :: r) else ret []
      end
  end.

(** The pooled blocks of a branch, the array that holds them and the array of their hashes. *)
Definition OrphanPool_CollectBranchLocked : mem (list nat * option nat * option nat) :=
  let* collected := malloc Buffer in
  let* hashes := malloc Buffer in
  if negb (bool_decide (is_Some collected)) || negb (bool_decide (is_Some hashes))
  then free_buffer collected;; free_buffer hashes;; ret ([], None, None)
  else
    let* rounds := choose in
    let* found := collect_loop rounds in
    if (length found =? 0)%nat then free_buffer collected;; free_buffer hashes;; ret ([], None, None)
    else
      let* array := malloc Buffer in
      let* hashOut := malloc Buffer in
      if negb (bool_decide (is_Some array)) || negb (bool_decide (is_Some hashOut))
      then free_buffer array;; free_buffer hashOut;; free_buffer collected;; free_buffer hashes;; ret ([], None, None)
      else free_buffer collected;; free_buffer hashes;; ret (found, array, hashOut).

(** The hash of a block of the chain is taken from a copy. *)
Definition hash_of_block (i : nat) : mem bool :=
  let* c := Chain_GetBlockCopy i in
  match c with
  | None => ret false
  | Some _ => Block_Destroy c;; ret true
  end.

Fixpoint extend_tip_loop (n : nat) : mem nat :=
  match n with
  | O => ret 0%nat
  | S n =>
      let* l := get_blocks in
      let* tip := (if (length l =? 0)%nat then ret true else hash_of_block (length l - 1)) in
      if negb tip then ret 0%nat
      else
        let* pooled := OrphanPool_FindChildLocked in
        match pooled with
        | None => ret 0%nat
        | Some p =>
            let* t := transactions p in
            let* candidate := Block_Copy t in
            match candidate with
            | None => ret 0%nat
            | Some w =>
                let* added := Chain_AddBlock w in
                Block_Destroy candidate;;
                if added then
                  let* taken := OrphanPool_TakeByHashLocked in
                  Block_Destroy taken;;
                  let* r := extend_tip_loop n in
                  ret (S r)
                else OrphanPool_DropByHashLocked;; extend_tip_loop n
            end
        end
  end.
Definition OrphanPool_ExtendTip : mem nat := let* rounds := choose in extend_tip_loop rounds.

(** Copies of pooled blocks; a failed copy leaves a null entry. *)
Fixpoint copy_each (bs : list nat) : mem (list (option nat)) :=
  match bs with
  | [] => ret []
  | b :: bs =>
      let* t := transactions b in
      let* c := Block_Copy t in
      let* r := copy_each bs in
      ret (c :: r)
  end.

Definition all_copied (bs : list (option nat)) : bool := forallb (fun b => bool_decide (is_Some b)) bs.

(** Fork points [forkHeight], [forkHeight - 1], ..., 1. *)
Fixpoint adopt_loop (forkHeight : nat) : mem nat :=
  match forkHeight with
  | O => ret 0%nat
  | S below =>
      let* parent := hash_of_block below in
      if negb parent then adopt_loop below
      else
        let* collected := OrphanPool_CollectBranchLocked in
        let '(found, branch, branchHashes) := collected in
        let* branchCopies := (if (length found =? 0)%nat then ret None else malloc Buffer) in
        let* copied := (match branchCopies with None => ret [] | Some _ => copy_each found end) in
        free_buffer branch;;
        match branchCopies with
        | None => free_buffer branchHashes;; adopt_loop below
        | Some _ =>
            let* adopted := (if all_copied copied then Chain_ReplaceBranch forkHeight (omap id copied) else ret false) in
            destroy_blocks copied;;
            free_buffer branchCopies;;
            if adopted then drop_hashes (length found);; free_buffer branchHashes;; ret (length found)
            else free_buffer branchHashes;; adopt_loop below
        end
  end.
Definition OrphanPool_TryAdoptBranch : mem nat := let* l := get_blocks in adopt_loop (length l).

(** The candidates whose hash is that of the chain's block at their height. *)
Fixpoint doomed_loop (n : nat) : mem nat :=
  match n with
  | O => ret 0%nat
  | S n =>
      let* height := choose in
      let* found := hash_of_block height in
      let* same := decision in
      let* r := doomed_loop n in
      ret (if found && same then S r else r)
  end.
Definition OrphanPool_PruneStale : mem unit :=
  let* doomed := malloc Buffer in
  match doomed with
  | None => ret tt
  | Some _ =>
      let* candidates := malloc Buffer in
      let* candidateHeights := malloc Buffer in
      let* n := choose in
      let* dropped := doomed_loop n in
      drop_hashes dropped;;
      free_buffer candidates;;
      free_buffer candidateHeights;;
      free_buffer doomed
  end.

Fixpoint attach_loop (n : nat) : mem nat :=
  match n with
  | O => ret 0%nat
  | S n =>
      let* extended := OrphanPool_ExtendTip in
      let* adopted := OrphanPool_TryAdoptBranch in
      if (extended + adopted =? 0)%nat then ret 0%nat else let* r := attach_loop n in ret (extended + adopted + r)%nat
  end.
Definition OrphanPool_AttemptAttach : mem nat :=
  let* l := get_orphans in
  if (length l =? 0)%nat then ret 0%nat
  else
    let* rounds := choose in
    let* attached := attach_loop rounds in
    OrphanPool_PruneStale;;
    ret attached.

Fixpoint destroy_entries (l : list nat) : mem unit :=
  match l with
  | [] => set_orphans []
  | w :: r => Block_Destroy (Some w);; destroy_entries r
  end.
Definition OrphanPool_Destroy : mem unit := let* l := get_orphans in destroy_entries l.

(** ** The node ([net_node.c]) *)

Definition save_after (attached : nat) : mem unit := if (attached =? 0)%nat then ret tt else Chain_SaveToFile;; ret tt.

(** A block for the tip: it is appended, and the wrapper freed either way. *)
Definition append_received (w : nat) (persist : bool) : mem unit :=
  let* added := Chain_AddBlock w in
  if negb added then Block_Destroy (Some w)
  else
    (if persist then Chain_SaveToFile else ret true);;
    Block_Destroy (Some w);;
    let* attached := OrphanPool_AttemptAttach in
    save_after attached.

(** A block of valid structure: above the tip, below it, or next to it. *)
Definition place_block (w : nat) (persist : bool) : mem unit :=
  let* l := get_blocks in
  let* place := choose in
  match place with
  | O => OrphanPool_Insert w
  | 1%nat =>
      let* height := choose in
      let* known := hash_of_block height in
      let* same := decision in
      if known && same then destroy_transactions w;; free_block w else OrphanPool_Insert w
  | _ =>
      if (length l =? 0)%nat then append_received w persist
      else
        let* last := Chain_GetBlockCopy (length l - 1) in
        match last with
        | None => OrphanPool_Insert w
        | Some _ =>
            let* linked := decision in
            if linked then Block_Destroy last;; append_received w persist else OrphanPool_Insert w;; Block_Destroy last
        end
  end.

Definition Node_ParseAndAcceptBlock (persist : bool) : mem unit :=
  let* long := decision in
  if negb long then ret tt
  else
    let* b := malloc (Block None) in
    match b with
    | None => ret tt
    | Some w =>
        let* fits := decision in
        if negb fits then free_block w
        else
          let* filled := fill_block w in
          if negb filled then ret tt
          else
            let* valid := decision in
            if negb valid then destroy_transactions w;; free_block w else place_block w persist
    end.

(** A copy of a block with its transactions, from memory or from the files. *)
Definition find_full_block (height : nat) : mem (option nat) :=
  let* c := Chain_GetBlockCopy height in
  match c with
  | None => Chain_LoadBlockFromFile true
  | Some w =>
      let* t := transactions w in
      match t with
      | Some _ => ret c
      | None =>
          let* full := Chain_LoadBlockFromFile true in
          match full with
          | Some _ => Block_Destroy c;; ret full
          | None => ret c
          end
      end
  end.

(** A block served or relayed: serialised into a buffer and sent. *)
Definition send_block (height : nat) : mem unit :=
  let* b := find_full_block height in
  match b with
  | None => ret tt
  | Some w =>
      let* t := transactions w in
      match t with
      | None => Block_Destroy b
      | Some v =>
          let* seen := decision in
          if seen then Block_Destroy b
          else
            let* data := malloc Buffer in
            match data with
            | None => Block_Destroy b
            | Some _ => expect_vector v;; free_buffer data;; Block_Destroy b
            end
      end
  end.

(** ** The command thread ([main.c]) *)

Definition BuildNextBlock : mem (option nat) :=
  let* b := Block_Create in
  match b with
  | None => ret None
  | Some _ =>
      let* l := get_blocks in
      (if (length l =? 0)%nat then ret true else hash_of_block (length l - 1));;
      ret b
  end.

Definition MineAndAppendBlock (w : nat) : mem bool :=
  let* mined := decision in
  if negb mined then ret false
  else
    let* t := transactions w in
    touch t;;
    let* added := Chain_AddBlock w in
    if negb added then ret false
    else
      let* attached := OrphanPool_AttemptAttach in
      save_after attached;;
      ret true.

(** A snapshot of the pool of transactions, and what can be spent of it. *)
Definition BuildSpendableMempoolSelection : mem (option (option nat)) :=
  let* empty := decision in
  if empty then ret (Some None)
  else
    let* snapshot := malloc Buffer in
    match snapshot with
    | None => ret None
    | Some _ => let* r := BalanceSheet_SelectSpendableTransactions in free_buffer snapshot;; ret r
    end.

Definition mine_block : mem bool :=
  let* accepted := BuildSpendableMempoolSelection in
  match accepted with
  | None => ret false
  | Some acceptedTxs =>
      let* b := BuildNextBlock in
      match b with
      | None => free_buffer acceptedTxs;; ret false
      | Some w =>
          let* fits := decision in
          if negb fits then free_buffer acceptedTxs;; Block_Destroy b;; ret false
          else
            let* t := transactions w in
            touch t;;
            free_buffer acceptedTxs;;
            let* ok := MineAndAppendBlock w in
            Block_Destroy b;;
            (if ok then let* l := get_blocks in send_block (length l - 1);; let* flush := decision in if flush then Chain_SaveToFile else ret true else ret true);;
            ret ok
      end
  end.

(** A block is built for the payment; the code that would mine and free it is commented out.  The answer
    is whether the block was built. *)
Definition send : mem bool :=
  let* valid := decision in
  if negb valid then ret false
  else
    let* b := BuildNextBlock in
    match b with
    | None => ret false
    | Some w => let* t := transactions w in touch t;; ret true
    end.

(** A second chain, for [blockdetail] and [fullverify]: it is made, used and destroyed. *)
Definition with_other_chain (m : mem bool) : mem bool :=
  let* other := malloc Buffer in
  match other with
  | None => ret false
  | Some _ =>
      let* l := get_blocks in
      set_blocks [];;
      let* r := m in
      Chain_ClearBlocks;;
      set_blocks l;;
      free_buffer other;;
      ret r
  end.

Definition blockdetail : mem unit :=
  let* b := Chain_LoadBlockFromFile false in
  match b with
  | None => ret tt
  | Some _ => with_other_chain (Chain_LoadFromFile false);; Block_Destroy b
  end.

(** The blocks [i], [i + 1], ... of the chain, one copy at a time. *)
Fixpoint verify_blocks (n i : nat) : mem bool :=
  match n with
  | O => ret true
  | S n =>
      let* b := Chain_GetBlockCopy i in
      match b with
      | None => ret false
      | Some w =>
          let* t := transactions w in
          match t with
          | None => Block_Destroy b;; ret false
          | Some _ =>
              let* numbered := decision in
              if negb numbered then Block_Destroy b;; ret false
              else
                let* linked := (if (i =? 0)%nat then decision else let* prev := hash_of_block (i - 1) in let* same := decision in ret (prev && same)) in
                if negb linked then Block_Destroy b;; ret false
                else
                  let* valid := decision in
                  if negb valid then Block_Destroy b;; ret false
                  else
                    touch t;;
                    destroy_transactions w;;
                    let* pushed := decision in
                    Block_Destroy b;;
                    if pushed then verify_blocks n (S i) else ret false
          end
      end
  end.

Definition VerifyChainFully : mem bool :=
  let* prevChain := malloc Buffer in
  match prevChain with
  | None => ret false
  | Some _ =>
      let* l := get_blocks in
      let* ok := verify_blocks (length l) 0 in
      free_buffer prevChain;;
      ret ok
  end.

Definition fullverify : mem bool :=
  with_other_chain (let* loaded := Chain_LoadFromFile true in if loaded then VerifyChainFully else ret false).

(** The orphan pool goes with the node, the chain after it. *)
Definition shutdown : mem unit := OrphanPool_Destroy;; Chain_ClearBlocks.

(** ** Any sequence of these *)

Inductive operation :=
| Receive (persist : bool) | Serve (height : nat) | Attach | Save | Load | RollBack (height : nat) | Wipe | Mine | Send | Detail | Verify.

Definition perform (op : operation) : mem unit :=
  match op with
  | Receive persist => Node_ParseAndAcceptBlock persist
  | Serve height => send_block height
  | Attach => let* attached := OrphanPool_AttemptAttach in save_after attached
  | Save => Chain_SaveToFile;; ret tt
  | Load => Chain_LoadFromFile false;; ret tt
  | RollBack height => Chain_RollbackToHeightLocked height;; ret tt
  | Wipe => Chain_Wipe
  | Mine => mine_block;; ret tt
  | Send => send;; ret tt
  | Detail => blockdetail
  | Verify => fullverify;; ret tt
  end.

Fixpoint perform_all (ops : list operation) : mem unit :=
  match ops with
  | [] => ret tt
  | op :: ops => perform op;; perform_all ops
  end.

(** The same run, counting the sends that got as far as building their block. *)
Fixpoint perform_counting (ops : list operation) : mem nat :=
  match ops with
  | [] => ret 0%nat
  | Send :: ops => let* built := send in let* n := perform_counting ops in ret (if built then S n else n)
  | op :: ops => perform op;; perform_counting ops
  end.

(** Nothing allocated yet. *)
Definition start (cs : list nat) : memory := mkMemory ∅ 0 [] [] cs.

End Bm.
