(* ===== verification/MemoryLogic.v ===== *)
(** * Ownership of blocks and vectors

    Assertions on the heap as lists of cells and triples in the manner of separation logic: what an operation
    is given, what it gives back, and everything else as it was. *)
From S2P Require Import Prelude BlockMemory.
Import Bm.

(** The cells of a vector and of a block, as their owner knows them. *)
Definition vec (t : option nat) : list (nat * cell) := match t with Some v => [(v, Vector)] | None => [] end.
Definition blk (w : nat) (t : option nat) : list (nat * cell) := (w, Block t) :: vec t.
Definition pool (o : list (nat * option nat)) : list (nat * cell) := concat (map (fun x => blk x.1 x.2) o).
Definition chain (b : list (option nat)) : list (nat * cell) := concat (map vec b).

(** The heap has exactly the cells [g], and the chain and the pool are [b] and [o]. *)
Definition holds (g : list (nat * cell)) (b : list (option nat)) (o : list nat) (s : memory) : Prop :=
  map_to_list (heap s) ≡ₚ g /\ blocks s = b /\ orphans s = o /\ (forall l c, heap s !! l = Some c -> l < next s)%nat.

(** The heap is the cells of [f], those of the chain and those of the pool, and nothing else. *)
Definition owns (f : list (nat * cell)) (s : memory) : Prop :=
  exists b o, holds (f ++ chain b ++ pool o) b (map fst o) s.

Definition triple {A} (p : memory -> Prop) (m : mem A) (q : A -> memory -> Prop) : Prop :=
  forall s, p s -> exists a s', m s = Some (a, s') /\ q a s'.

Lemma triple_ret {A} (x : A) (p : memory -> Prop) (q : A -> memory -> Prop) : (forall s, p s -> q x s) -> triple p (ret x) q.
Proof. intros H s Hs. exists x, s. auto. Qed.

Lemma triple_skip {A} (x : A) (p : memory -> Prop) : triple p (ret x) (fun _ => p).
Proof. by apply triple_ret. Qed.

Lemma triple_bind {A B} (m : mem A) (k : A -> mem B) p q r : triple p m q -> (forall a, triple (q a) (k a) r) -> triple p (bind m k) r.
Proof. intros Hm Hk s Hs. destruct (Hm s Hs) as (a & s' & E & Ha). unfold bind. rewrite E. exact (Hk a s' Ha). Qed.

Lemma triple_mono {A} (m : mem A) p (q q' : A -> memory -> Prop) : triple p m q -> (forall a s, q a s -> q' a s) -> triple p m q'.
Proof. intros Hm Hq s Hs. destruct (Hm s Hs) as (a & s' & E & Ha). exists a, s'. auto. Qed.

Lemma triple_pre {A} (m : mem A) (p p' : memory -> Prop) q : (forall s, p s -> p' s) -> triple p' m q -> triple p m q.
Proof. intros Hp Hm s Hs. exact (Hm s (Hp s Hs)). Qed.

Lemma triple_ex {A B} (m : mem A) (p : B -> memory -> Prop) q : (forall b, triple (p b) m q) -> triple (fun s => exists b, p b s) m q.
Proof. intros Hm s [b Hs]. exact (Hm b s Hs). Qed.

Lemma triple_holds {A} g g' b o (m : mem A) q : g ≡ₚ g' -> triple (holds g' b o) m q -> triple (holds g b o) m q.
Proof. intros Hg. apply triple_pre. intros s (Hh & Hr). split; [by rewrite Hh|done]. Qed.

Lemma triple_open {A} f (m : mem A) q : (forall b o, triple (holds (f ++ chain b ++ pool o) b (map fst o)) m q) -> triple (owns f) m q.
Proof. intros Hm s (b & o & Hs). exact (Hm b o s Hs). Qed.

(** An operation that leaves chain and pool alone, seen from a caller that owns [f]. *)
Lemma holds_owns f g b o s : holds g b (map fst o) s -> g ≡ₚ f ++ chain b ++ pool o -> owns f s.
Proof. intros (Hh & Hr) Hg. exists b, o. split; [by rewrite Hh|done]. Qed.

Lemma triple_fact {A} (phi : Prop) p (m : mem A) q : (phi -> triple p m q) -> triple (fun s => phi /\ p s) m q.
Proof. intros Hm s [H Hs]. exact (Hm H s Hs). Qed.

(** The first of two steps, by the triple [t] proves. *)
Tactic Notation "step" tactic3(t) := eapply triple_bind; [t|]; cbn beta.

(** ** The heap *)

Lemma holds_lookup g b o l c s : holds g b o s -> (l, c) ∈ g -> heap s !! l = Some c.
Proof. intros (Hh & _) Hin. apply elem_of_map_to_list. by rewrite Hh. Qed.

Lemma triple_choose g b o : triple (holds g b o) choose (fun _ => holds g b o).
Proof. intros s Hs. unfold choose. destruct (choices s) as [|c r] eqn:E; eexists _, _; (split; [reflexivity|exact Hs]). Qed.

Lemma triple_decision g b o : triple (holds g b o) decision (fun _ => holds g b o).
Proof. step (apply triple_choose). intros c. by apply triple_ret. Qed.

Lemma triple_load g b o l c : (l, c) ∈ g -> triple (holds g b o) (load l) (fun c' s => c' = c /\ holds g b o s).
Proof. intros Hl s Hs. unfold load, bind, get_heap. rewrite (holds_lookup _ _ _ _ _ _ Hs Hl). by exists c, s. Qed.

Lemma triple_store g b o l c c' : triple (holds ((l, c) :: g) b o) (store l c') (fun _ => holds ((l, c') :: g) b o).
Proof.
  intros s Hs. pose proof (holds_lookup _ _ _ l c _ Hs (list_elem_of_here _ _)) as Hl. unfold store, load, bind, get_heap. rewrite Hl. eexists _, _. split; [reflexivity|].
  destruct Hs as (Hh & Hb & Ho & Hn). split; [|split; [done|split; [done|]]]; cbn.
  - rewrite <- insert_delete_eq. rewrite map_to_list_insert by apply lookup_delete_eq. apply Permutation_cons; [done|].
    apply (Permutation_cons_inv (a := (l, c))). by rewrite (map_to_list_delete (heap s) l c Hl).
  - intros k d. destruct (decide (k = l)) as [->|]; [intros _; by eapply Hn|]. rewrite lookup_insert_ne by done. apply Hn.
Qed.

Lemma triple_free g b o l c : triple (holds ((l, c) :: g) b o) (free l) (fun _ => holds g b o).
Proof.
  intros s Hs. pose proof (holds_lookup _ _ _ l c _ Hs (list_elem_of_here _ _)) as Hl. unfold free, load, bind, get_heap. rewrite Hl. eexists _, _. split; [reflexivity|].
  destruct Hs as (Hh & Hb & Ho & Hn). split; [|split; [done|split; [done|]]]; cbn.
  - apply (Permutation_cons_inv (a := (l, c))). by rewrite (map_to_list_delete (heap s) l c Hl).
  - intros k d Hk. apply lookup_delete_Some in Hk as [_ Hk]. by eapply Hn.
Qed.

Lemma triple_malloc g b o c : triple (holds g b o) (malloc c) (fun r => match r with Some l => holds ((l, c) :: g) b o | None => holds g b o end).
Proof.
  step (apply triple_decision). intros ok. destruct ok; cbn [negb]; [|by apply triple_ret].
  intros s (Hh & Hb & Ho & Hn). unfold bind, alloc, ret. eexists _, _. split; [reflexivity|]. split; [|split; [done|split; [done|]]]; cbn.
  - rewrite map_to_list_insert; [by rewrite Hh|]. destruct (heap s !! next s) eqn:E; [|done]. apply Hn in E. lia.
  - intros k d. destruct (decide (k = next s)) as [->|]; [lia|]. rewrite lookup_insert_ne by done. intros Hk. apply Hn in Hk. lia.
Qed.

(** ** Vectors and blocks *)

Lemma triple_expect_vector g b o v : (v, Vector) ∈ g -> triple (holds g b o) (expect_vector v) (fun _ => holds g b o).
Proof. intros Hv. step (by apply triple_load). intros c. apply triple_fact. intros ->. by apply triple_ret. Qed.

(** A pointer to transactions whose vector is there. *)
Definition readable (t : option nat) (g : list (nat * cell)) : Prop := forall v, t = Some v -> (v, Vector) ∈ g.

Lemma triple_touch g b o t : readable t g -> triple (holds g b o) (touch t) (fun _ => holds g b o).
Proof. intros Hr. destruct t as [v|]; [apply triple_expect_vector; by apply Hr|by apply triple_ret]. Qed.

Lemma triple_vector_destroy g b o t : triple (holds (vec t ++ g) b o) (vector_destroy t) (fun _ => holds g b o).
Proof.
  destruct t as [v|]; [|by apply triple_ret]. cbn. step (apply triple_expect_vector; left). intros _. apply triple_free.
Qed.

Lemma triple_transactions g b o w t : (w, Block t) ∈ g -> triple (holds g b o) (transactions w) (fun t' s => t' = t /\ holds g b o s).
Proof. intros Hw. step (by apply triple_load). intros c. apply triple_fact. intros ->. apply triple_ret. by auto. Qed.

Lemma triple_set_transactions g b o w t t' : triple (holds ((w, Block t) :: g) b o) (set_transactions w t') (fun _ => holds ((w, Block t') :: g) b o).
Proof. step (apply (triple_transactions _ _ _ _ t); left). intros t0. apply triple_fact. intros ->. apply triple_store. Qed.

Lemma triple_destroy_transactions g b o w t : triple (holds (blk w t ++ g) b o) (destroy_transactions w) (fun _ => holds ((w, Block None) :: g) b o).
Proof.
  step (apply (triple_transactions _ _ _ _ t); left). intros t0. apply triple_fact. intros ->.
  step (apply (triple_holds _ (vec t ++ (w, Block t) :: g)); [unfold blk; solve_Permutation|apply triple_vector_destroy]). intros _. apply triple_set_transactions.
Qed.

Lemma triple_free_block g b o w t : triple (holds ((w, Block t) :: g) b o) (free_block w) (fun _ => holds g b o).
Proof. step (apply (triple_transactions _ _ _ _ t); left). intros t0. apply triple_fact. intros ->. apply triple_free. Qed.

Lemma triple_free_buffer g b o p : triple (holds ((p, Buffer) :: g) b o) (free_buffer (Some p)) (fun _ => holds g b o).
Proof. step (apply (triple_load _ _ _ _ Buffer); left). intros c. apply triple_fact. intros ->. apply triple_free. Qed.

Lemma triple_Block_Destroy g b o w t : triple (holds (blk w t ++ g) b o) (Block_Destroy (Some w)) (fun _ => holds g b o).
Proof. step (apply triple_destroy_transactions). intros _. apply triple_free_block. Qed.

(** A new block, if there is one. *)
Definition fresh_block (phi : option nat -> Prop) (g : list (nat * cell)) (b : list (option nat)) (o : list nat) (r : option nat) (s : memory) : Prop :=
  match r with
  | Some w => exists t, phi t /\ holds (blk w t ++ g) b o s
  | None => holds g b o s
  end.

Lemma triple_new_vector g b o w : triple (holds ((w, Block None) :: g) b o)
  (bind (malloc Vector) (fun v => match v with None => free_block w;; ret None | Some v => set_transactions w (Some v);; ret (Some w) end)%mem)
  (fresh_block is_Some g b o).
Proof.
  step (apply triple_malloc). intros [v|].
  - step (apply (triple_holds _ ((w, Block None) :: (v, Vector) :: g)); [solve_Permutation|apply triple_set_transactions]). intros _. apply triple_ret. intros s Hs. by exists (Some v).
  - step (apply triple_free_block). intros _. by apply triple_ret.
Qed.

Lemma triple_Block_Create g b o : triple (holds g b o) Block_Create (fresh_block is_Some g b o).
Proof. step (apply triple_malloc). intros [w|]; [apply triple_new_vector|by apply triple_ret]. Qed.

Lemma triple_Block_Copy g b o t : readable t g -> triple (holds g b o) (Block_Copy t) (fresh_block (fun _ => True) g b o).
Proof.
  intros Hr. step (apply triple_malloc). intros [w|]; [|by apply triple_ret]. destruct t as [v|].
  - step (apply triple_expect_vector; right; by apply Hr). intros _. eapply triple_mono; [apply triple_new_vector|].
    intros [w'|] s; [|done]. intros (t & _ & Hs). by exists t.
  - apply triple_ret. intros s Hs. by exists None.
Qed.

Lemma triple_fill_block g b o w : triple (holds ((w, Block None) :: g) b o) (fill_block w)
  (fun ok s => if ok : bool then exists v, holds (blk w (Some v) ++ g) b o s else holds g b o s).
Proof.
  step (apply triple_malloc). intros [v|].
  - step (apply (triple_holds _ ((w, Block None) :: (v, Vector) :: g)); [solve_Permutation|apply triple_set_transactions]). intros _.
    step (apply triple_decision). intros [|]; [apply triple_ret; intros s Hs; by exists v|].
    step (apply (triple_destroy_transactions g b o w (Some v))). intros _. step (apply triple_free_block). intros _. by apply triple_ret.
  - step (apply (triple_destroy_transactions g b o w None)). intros _. step (apply triple_free_block). intros _. by apply triple_ret.
Qed.

Lemma triple_Chain_LoadBlockFromFile g b o lt : triple (holds g b o) (Chain_LoadBlockFromFile lt) (fresh_block (fun t => lt = true -> is_Some t) g b o).
Proof.
  step (apply triple_decision). intros [|]; cbn [negb]; [|by apply triple_ret]. step (apply triple_malloc). intros [w|]; [|by apply triple_ret].
  step (apply triple_decision). intros [|]; cbn [negb]; [|step (apply triple_free_block); intros _; by apply triple_ret]. destruct lt.
  - step (apply triple_fill_block). intros [|]; apply triple_ret; intros s Hs; [|done]. destruct Hs as [v Hs]. by exists (Some v).
  - step (apply triple_decision). intros [|]; [apply triple_ret; intros s Hs; by exists None|]. step (apply triple_free_block). intros _. by apply triple_ret.
Qed.

Lemma triple_get_blocks g b o : triple (holds g b o) get_blocks (fun l s => l = b /\ holds g b o s).
Proof. intros s Hs. exists b, s. destruct Hs as (Hh & Hb & Hr). split; [|by split]. unfold get_blocks. by rewrite Hb. Qed.

Lemma triple_set_blocks g b b' o : triple (holds g b o) (set_blocks b') (fun _ => holds g b' o).
Proof. intros s (Hh & Hb & Hr). eexists _, _. split; [reflexivity|]. by split. Qed.

Lemma triple_get_orphans g b o : triple (holds g b o) get_orphans (fun l s => l = o /\ holds g b o s).
Proof. intros s Hs. exists o, s. destruct Hs as (Hh & Hb & Ho & Hr). split; [|by split]. unfold get_orphans. by rewrite Ho. Qed.

Lemma triple_set_orphans g b o o' : triple (holds g b o) (set_orphans o') (fun _ => holds g b o').
Proof. intros s (Hh & Hb & Ho & Hr). eexists _, _. split; [reflexivity|]. by split. Qed.

(** What is borrowed: an element's own transactions, or those of a temporary block. *)
Definition borrowed (g : list (nat * cell)) (b : list (option nat)) (o : list nat) (r : option (option nat * option nat)) (s : memory) : Prop :=
  match r with
  | None => holds g b o s
  | Some (t, None) => t ∈ b /\ holds g b o s
  | Some (t, Some w) => holds (blk w t ++ g) b o s
  end.

Lemma triple_Chain_BorrowBlockTransactions g b o i : triple (holds g b o) (Chain_BorrowBlockTransactions i) (borrowed g b o).
Proof.
  step (apply triple_get_blocks). intros l. apply triple_fact. intros ->.
  assert (Hload : triple (holds g b o) (let* c := Chain_LoadBlockFromFile true in
    match c with None => ret None | Some w => let* t := transactions w in ret (Some (t, Some w)) end)%mem (borrowed g b o)).
  { step (apply triple_Chain_LoadBlockFromFile). intros [w|]; [|by apply triple_ret]. apply triple_ex. intros t. apply triple_fact. intros _.
    step (apply (triple_transactions _ _ _ _ t); left). intros t0. apply triple_fact. intros ->. by apply triple_ret. }
  destruct (b !! i) as [[v|]|] eqn:E; [|exact Hload..]. apply triple_ret. intros s Hs. split; [by eapply list_elem_of_lookup_2|done].
Qed.

Lemma readable_borrowed t b f g : t ∈ b -> readable t (f ++ chain b ++ g).
Proof.
  intros Ht v ->. apply elem_of_app. right. apply elem_of_app. left. unfold chain. apply list_elem_of_In, in_concat. exists (vec (Some v)).
  split; [|by left]. apply in_map_iff. exists (Some v). split; [done|by apply list_elem_of_In].
Qed.

(** A borrowed block is read by [m], which may add cells, is given back, and [k] goes on. *)
Lemma triple_use_borrowed {A B} f b h o (m : mem A) (k : A -> mem B) (q : A -> list (nat * cell) -> Prop) r t loaded :
  (forall g, readable t g -> triple (holds g b o) m (fun a s => exists e, q a e /\ holds (e ++ g) b o s)) ->
  (forall x e, q x e -> triple (holds (e ++ f ++ chain b ++ h) b o) (k x) r) ->
  triple (borrowed (f ++ chain b ++ h) b o (Some (t, loaded))) (let* x := m in Chain_ReturnBlockTransactions loaded;; k x)%mem r.
Proof.
  intros Hm Hk. destruct loaded as [w|]; cbn [borrowed].
  - step (apply Hm). { intros v ->. right. left. } intros x. apply triple_ex. intros e. apply triple_fact. intros He.
    step (apply (triple_holds _ (blk w t ++ e ++ f ++ chain b ++ h)); [unfold blk; solve_Permutation|apply triple_Block_Destroy]). intros _. by apply Hk.
  - apply triple_fact. intros Ht. step (apply Hm; by apply readable_borrowed). intros x. apply triple_ex. intros e. apply triple_fact. intros He.
    step (apply triple_skip). intros _. by apply Hk.
Qed.

(** The transactions are only looked at. *)
Lemma triple_read_borrowed {B} f b h o (k : mem B) r t loaded : triple (holds (f ++ chain b ++ h) b o) k r ->
  triple (borrowed (f ++ chain b ++ h) b o (Some (t, loaded))) (touch t;; Chain_ReturnBlockTransactions loaded;; k)%mem r.
Proof.
  intros Hk. apply (triple_use_borrowed f b h o (touch t) (fun _ => k) (fun _ e => e = [])).
  - intros g Hg. eapply triple_mono; [by apply triple_touch|]. intros ? s Hs. by exists [].
  - by intros _ e ->.
Qed.

Lemma triple_Chain_GetBlockCopy f b h o i : triple (holds (f ++ chain b ++ h) b o) (Chain_GetBlockCopy i) (fresh_block (fun _ => True) (f ++ chain b ++ h) b o).
Proof.
  step (apply triple_get_blocks). intros l. apply triple_fact. intros ->. destruct (b !! i) as [t|] eqn:E; [|by apply triple_ret].
  apply triple_Block_Copy, readable_borrowed. by eapply list_elem_of_lookup_2.
Qed.

(** ** Appending and removing blocks *)

Lemma chain_app b b' : chain (b ++ b') = chain b ++ chain b'.
Proof. unfold chain. by rewrite map_app, concat_app. Qed.

Lemma chain_one t : chain [t] = vec t.
Proof. unfold chain. cbn. apply app_nil_r. Qed.

Lemma triple_vector_push_back g b o t : triple (holds g b o) (vector_push_back t)
  (fun ok => if ok : bool then holds g (b ++ [t]) o else holds g b o).
Proof.
  step (apply triple_decision). intros [|]; [|by apply triple_ret]. step (apply triple_get_blocks). intros l. apply triple_fact. intros ->.
  step (apply triple_set_blocks). intros _. by apply triple_ret.
Qed.

Lemma triple_pop_last f b h o : triple (holds (f ++ chain b ++ h) b o) pop_last (fun _ s => exists b', holds (f ++ chain b' ++ h) b' o s).
Proof.
  step (apply triple_get_blocks). intros l. apply triple_fact. intros ->. destruct (reverse b) as [|t r] eqn:E.
  - apply triple_ret. intros s Hs. by exists b.
  - assert (Hb : b = reverse r ++ [t]) by (by rewrite <- (reverse_involutive b), E, reverse_cons). rewrite Hb, chain_app, chain_one.
    step (apply (triple_holds _ (vec t ++ f ++ chain (reverse r) ++ h)); [solve_Permutation|apply triple_vector_destroy]). intros _.
    eapply triple_mono; [apply triple_set_blocks|]. intros ? s Hs. by exists (reverse r).
Qed.

Lemma triple_destroy_elements f l b o : triple (holds (chain l ++ f) b o) (destroy_elements l) (fun _ => holds f [] o).
Proof.
  induction l as [|t r IH]; cbn [destroy_elements]; [apply triple_set_blocks|].
  step (apply (triple_holds _ (vec t ++ chain r ++ f)); [unfold chain; cbn; by rewrite app_assoc|apply triple_vector_destroy]). intros _. exact IH.
Qed.

Lemma triple_Chain_ClearBlocks f : triple (owns f) Chain_ClearBlocks (fun _ => owns f).
Proof.
  apply triple_open. intros b o. step (apply triple_get_blocks). intros l. apply triple_fact. intros ->.
  eapply triple_mono; [apply (triple_holds _ (chain b ++ f ++ pool o)); [solve_Permutation|apply triple_destroy_elements]|].
  intros ? s Hs. by apply (holds_owns _ _ [] o s Hs).
Qed.

Lemma triple_Select g b o : triple (holds g b o) BalanceSheet_SelectSpendableTransactions
  (fun r => match r with Some (Some a) => holds ((a, Buffer) :: g) b o | _ => holds g b o end).
Proof.
  step (apply triple_malloc). intros [a|]; [|by apply triple_ret]. step (apply triple_malloc). intros [m|].
  - step (apply triple_free_buffer). intros _. step (apply triple_decision). intros [|]; [by apply triple_ret|].
    step (apply triple_free_buffer). intros _. by apply triple_ret.
  - step (apply triple_free_buffer). intros _. by apply triple_ret.
Qed.

Lemma triple_validate_transactions g b o v : (v, Vector) ∈ g -> triple (holds g b o) (validate_transactions v) (fun _ => holds g b o).
Proof.
  intros Hv. step (by apply triple_expect_vector). intros _. step (apply triple_decision). intros [|]; cbn [negb]; [|by apply triple_ret].
  step (apply triple_malloc). intros [c|]; [|by apply triple_ret]. step (apply triple_decision). intros [|]; cbn [negb].
  2: { step (apply triple_free_buffer). intros _. by apply triple_ret. }
  step (apply triple_Select). intros [[a|]|].
  - step (apply (triple_holds _ ((c, Buffer) :: (a, Buffer) :: g)); [solve_Permutation|apply triple_free_buffer]). intros _.
    step (apply triple_expect_vector; by right). intros _. step (apply triple_decision). intros ok. step (apply triple_free_buffer). intros _.
    destruct ok; [|by apply triple_ret]. step (by apply triple_expect_vector). intros _. apply triple_decision.
  - step (apply triple_free_buffer). intros _. step (by apply triple_expect_vector). intros _. step (apply triple_decision). intros ok. step (apply triple_skip). intros _.
    destruct ok; [|by apply triple_ret]. step (by apply triple_expect_vector). intros _. apply triple_decision.
  - step (apply triple_free_buffer). intros _. by apply triple_ret.
Qed.

(** The block stays the caller's; its transactions are its own or the chain's. *)
Lemma triple_Chain_AddBlockLocked f w t : triple (owns (blk w t ++ f)) (Chain_AddBlockLocked w) (fun _ s => exists t', owns (blk w t' ++ f) s).
Proof.
  apply triple_open. intros b o.
  assert (Hkeep : forall a : bool, triple (holds ((blk w t ++ f) ++ chain b ++ pool o) b (map fst o)) (ret a) (fun _ s => exists t', owns (blk w t' ++ f) s)).
  { intros a. apply triple_ret. intros s Hs. exists t. by apply (holds_owns _ _ b o s Hs). }
  step (apply (triple_transactions _ _ _ _ t); left). intros t0. apply triple_fact. intros ->. destruct t as [v|]; [|apply Hkeep].
  step (apply triple_decision). intros [|]; cbn [negb]; [|apply Hkeep]. step (apply triple_validate_transactions; right; left).
  intros [|]; cbn [negb]; [|apply Hkeep]. step (apply triple_vector_push_back). intros [|]; cbn [negb]; [|apply Hkeep].
  step (apply triple_set_transactions). intros _. step (apply triple_expect_vector; right; left). intros _.
  eapply triple_mono; [apply triple_decision|]. intros ? s Hs. exists None. apply (holds_owns _ _ _ o s Hs). rewrite chain_app, chain_one. cbn. solve_Permutation.
Qed.

Lemma triple_Chain_AddBlock f w t : triple (owns (blk w t ++ f)) (Chain_AddBlock w) (fun _ s => exists t', owns (blk w t' ++ f) s).
Proof.
  intros s (b & o & Hs). unfold Chain_AddBlock, bind.
  destruct (triple_transactions _ b (map fst o) w t (list_elem_of_here _ _) s Hs) as (t0 & s0 & -> & -> & Hs0). destruct t as [v|].
  - destruct (triple_Chain_AddBlockLocked f w (Some v) s0) as (ok' & s'' & E' & Hs''); [by exists b, o|]. by exists ok', s''.
  - exists false, s0. split; [done|]. exists None, b, o. done.
Qed.

(** ** Rolling back *)

Lemma triple_restore_discarded f b h o n i : triple (holds (f ++ chain b ++ h) b o) (restore_discarded n i) (fun _ => holds (f ++ chain b ++ h) b o).
Proof.
  induction n as [|n IH]; cbn [restore_discarded]; [by apply triple_ret|]. step (apply triple_Chain_BorrowBlockTransactions).
  intros [[t loaded]|]; [by apply triple_read_borrowed|exact IH].
Qed.

Lemma triple_rebuild_sheet f b h o n i : triple (holds (f ++ chain b ++ h) b o) (rebuild_sheet n i) (fun _ => holds (f ++ chain b ++ h) b o).
Proof.
  revert i; induction n as [|n IH]; intros i; cbn [rebuild_sheet]; [by apply triple_ret|]. step (apply triple_Chain_BorrowBlockTransactions).
  intros [[t loaded]|]; [by apply triple_read_borrowed|by apply triple_ret].
Qed.

Lemma triple_pop_blocks f b h o n : triple (holds (f ++ chain b ++ h) b o) (pop_blocks n) (fun _ s => exists b', holds (f ++ chain b' ++ h) b' o s).
Proof.
  revert b; induction n as [|n IH]; intros b; cbn [pop_blocks]; [apply triple_ret; intros s Hs; by exists b|].
  step (apply triple_pop_last). intros _. apply triple_ex. exact IH.
Qed.

Lemma triple_Chain_RollbackToHeightLocked f height : triple (owns f) (Chain_RollbackToHeightLocked height) (fun _ => owns f).
Proof.
  apply triple_open. intros b o. step (apply triple_get_blocks). intros l. apply triple_fact. intros ->.
  destruct (length b <=? height)%nat; [apply triple_ret; intros s Hs; by apply (holds_owns _ _ b o s Hs)|].
  step (apply triple_restore_discarded). intros _. step (apply triple_pop_blocks). intros _. apply triple_ex. intros b'.
  eapply triple_mono; [apply triple_rebuild_sheet|]. intros ? s Hs. by apply (holds_owns _ _ b' o s Hs).
Qed.

(** ** Replacing a branch *)

Lemma pool_cons w t ws : pool ((w, t) :: ws) = blk w t ++ pool ws.
Proof. done. Qed.

(** The entries of an array that was filled with the blocks [ws]. *)
Definition entries (ws : list (nat * option nat)) : list (option nat) := map (fun x => Some x.1) ws.

(** What leaves chain and pool alone can be used by any owner. *)
Lemma triple_lift {A} e (m : mem A) (q : A -> list (nat * cell) -> Prop) f :
  (forall g b o, triple (holds (e ++ g) b o) m (fun a s => exists e', q a e' /\ holds (e' ++ g) b o s)) ->
  triple (owns (e ++ f)) m (fun a s => exists e', q a e' /\ owns (e' ++ f) s).
Proof.
  intros Hm. apply triple_open. intros b o. eapply triple_mono; [apply (triple_holds _ (e ++ f ++ chain b ++ pool o)); [solve_Permutation|apply Hm]|].
  intros a s (e' & Hq & Hs). exists e'. split; [done|]. apply (holds_owns _ _ b o s Hs). solve_Permutation.
Qed.

Lemma triple_destroy_blocks g b o ws : triple (holds (pool ws ++ g) b o) (destroy_blocks (entries ws)) (fun _ => holds g b o).
Proof.
  revert g; induction ws as [|[w t] ws IH]; intros g; [by apply triple_ret|]. change (entries ((w, t) :: ws)) with (Some w :: entries ws). cbn [destroy_blocks].
  step (apply (triple_holds _ (blk w t ++ pool ws ++ g)); [rewrite pool_cons; solve_Permutation|apply triple_Block_Destroy]). intros _. apply IH.
Qed.

Lemma triple_Chain_FreeBlockArray g b o a ws : triple (holds ((a, Buffer) :: pool ws ++ g) b o) (Chain_FreeBlockArray (Some a) (entries ws)) (fun _ => holds g b o).
Proof.
  cbn [Chain_FreeBlockArray]. step (apply (triple_holds _ (pool ws ++ (a, Buffer) :: g)); [solve_Permutation|apply triple_destroy_blocks]). intros _. apply triple_free_buffer.
Qed.

(** Copies made one after the other. *)
Definition copies (g : list (nat * cell)) (b : list (option nat)) (o : list nat) (r : list (option nat) * bool) (s : memory) : Prop :=
  exists ws, r.1 = entries ws /\ holds (pool ws ++ g) b o s.

Lemma copies_cons g b o w t x r s : copies (blk w t ++ g) b o r s -> copies g b o (Some w :: r.1, x) s.
Proof.
  intros (ws & E & Hh & Hr). exists ((w, t) :: ws). split; [cbn; by rewrite E|]. split; [|done]. rewrite Hh, pool_cons. solve_Permutation.
Qed.

Lemma triple_copy_blocks nb g b o : (forall w t, (w, t) ∈ nb -> (w, Block t) ∈ g /\ readable t g) ->
  triple (holds g b o) (copy_blocks (map fst nb)) (copies g b o).
Proof.
  revert g; induction nb as [|[w t] nb IH]; intros g Hg; cbn [map copy_blocks fst]; [apply triple_ret; intros s Hs; by exists []|].
  destruct (Hg w t) as [Hw Ht]; [left|]. step (by apply triple_transactions). intros t0. apply triple_fact. intros ->.
  step (by apply triple_Block_Copy). intros [c|]; [|apply triple_ret; intros s Hs; by exists []]. apply triple_ex. intros t'. apply triple_fact. intros _.
  step (apply IH). { intros w' t'' Hin. destruct (Hg w' t'') as [H1 H2]; [by right|]. split; [apply elem_of_app; by right|]. intros v Hv. apply elem_of_app. right. by apply H2. }
  intros r. apply triple_ret. intros s. apply copies_cons.
Qed.

Lemma triple_snapshot_blocks f b h o n i : triple (holds (f ++ chain b ++ h) b o) (snapshot_blocks n i) (copies (f ++ chain b ++ h) b o).
Proof.
  revert f i; induction n as [|n IH]; intros f i; cbn [snapshot_blocks]; [apply triple_ret; intros s Hs; by exists []|].
  step (apply triple_Chain_BorrowBlockTransactions). intros [[t loaded]|]; [|apply triple_ret; intros s Hs; by exists []].
  apply (triple_use_borrowed _ _ _ _ _ _ (fun c e => match c with Some w => exists t', e = blk w t' | None => e = [] end)).
  - intros g Hg. eapply triple_mono; [by apply triple_Block_Copy|]. intros [w|] s; [intros (t' & _ & Hs); exists (blk w t'); split; [by exists t'|done]|]. intros Hs. by exists [].
  - intros [w|] e; [intros (t' & ->)|intros ->]; [|apply triple_ret; intros s Hs; by exists []].
    step (apply (triple_holds _ ((blk w t' ++ f) ++ chain b ++ h)); [by rewrite <- app_assoc|apply IH]). intros r. apply triple_ret. intros s Hs.
    apply (copies_cons _ _ _ _ t'). by rewrite app_assoc.
Qed.

Lemma triple_add_blocks ws f : triple (owns (pool ws ++ f)) (add_blocks (entries ws)) (fun _ s => exists ws', map fst ws' = map fst ws /\ owns (pool ws' ++ f) s).
Proof.
  revert f; induction ws as [|[w t] ws IH]; intros f; [apply triple_ret; intros s Hs; by exists []|]. change (entries ((w, t) :: ws)) with (Some w :: entries ws). cbn [add_blocks].
  rewrite pool_cons, <- app_assoc. step (apply triple_Chain_AddBlockLocked). intros ok. apply triple_ex. intros t'. destruct ok.
  - apply (triple_pre _ _ (owns (pool ws ++ blk w t' ++ f))). { intros s (b & o & Hh & Hr). exists b, o. split; [rewrite Hh; solve_Permutation|done]. }
    eapply triple_mono; [apply IH|]. intros ? s (ws' & E & b & o & Hh & Hr). exists ((w, t') :: ws'). split; [cbn; by rewrite E|].
    exists b, o. split; [rewrite Hh, pool_cons; solve_Permutation|done].
  - apply triple_ret. intros s Hs. exists ((w, t') :: ws). split; [done|]. by rewrite pool_cons, <- app_assoc.
Qed.

Lemma entries_fst ws ws' : map fst ws' = map fst ws -> entries ws' = entries ws.
Proof. intros E. unfold entries. rewrite <- !(map_map fst Some). by rewrite E. Qed.

Lemma triple_owns {A} f f' (m : mem A) q : f ≡ₚ f' -> triple (owns f') m q -> triple (owns f) m q.
Proof. intros Hf. apply triple_pre. intros s (b & o & Hh & Hr). exists b, o. split; [by rewrite Hh, Hf|done]. Qed.

Lemma owns_perm f f' s : f ≡ₚ f' -> owns f' s -> owns f s.
Proof. intros Hf (b & o & Hh & Hr). exists b, o. split; [by rewrite Hh, Hf|done]. Qed.

Lemma triple_swap_branch height ws cs f : triple (owns (pool ws ++ pool cs ++ f)) (swap_branch height (entries ws) (entries cs))
  (fun _ s => exists ws' cs', map fst ws' = map fst ws /\ map fst cs' = map fst cs /\ owns (pool ws' ++ pool cs' ++ f) s).
Proof.
  step (apply triple_Chain_RollbackToHeightLocked). intros [|]; cbn [negb]; [|apply triple_ret; intros s Hs; by exists ws, cs].
  step (apply (triple_owns _ (pool cs ++ pool ws ++ f)); [solve_Permutation|apply triple_add_blocks]). intros ok.
  apply triple_ex. intros cs'. apply triple_fact. intros Ec. destruct ok.
  { apply triple_ret. intros s Hs. exists ws, cs'. split; [done|]. split; [done|]. eapply owns_perm; [|exact Hs]. solve_Permutation. }
  step (apply triple_Chain_RollbackToHeightLocked). intros [|]; cbn [negb].
  2: { apply triple_ret. intros s Hs. exists ws, cs'. split; [done|]. split; [done|]. eapply owns_perm; [|exact Hs]. solve_Permutation. }
  step (apply (triple_owns _ (pool ws ++ pool cs' ++ f)); [solve_Permutation|apply triple_add_blocks]). intros _.
  apply triple_ret. intros s (ws' & Ew & Hs). by exists ws', cs'.
Qed.

(** An array of blocks, if it was allocated. *)
Definition array (a : option nat) (ws : list (nat * option nat)) : list (nat * cell) := match a with Some a => (a, Buffer) :: pool ws | None => [] end.

Lemma triple_free_array f a ws ws' : map fst ws' = map fst ws ->
  triple (owns (array a ws' ++ f)) (Chain_FreeBlockArray a (entries ws)) (fun _ => owns f).
Proof.
  intros E. rewrite <- (entries_fst _ _ E). apply triple_open. intros b o. destruct a as [a|]; cbn [array].
  - eapply triple_mono; [apply (triple_holds _ ((a, Buffer) :: pool ws' ++ f ++ chain b ++ pool o)); [solve_Permutation|apply triple_Chain_FreeBlockArray]|].
    intros ? s Hs. by apply (holds_owns _ _ b o s Hs).
  - apply triple_ret. intros s Hs. by apply (holds_owns _ _ b o s Hs).
Qed.

Lemma triple_malloc_owns f c : triple (owns f) (malloc c) (fun r => match r with Some l => owns ((l, c) :: f) | None => owns f end).
Proof.
  apply triple_open. intros b o. eapply triple_mono; [apply triple_malloc|]. intros [l|] s Hs; by apply (holds_owns _ _ b o s Hs).
Qed.

Lemma triple_decision_owns f : triple (owns f) decision (fun _ => owns f).
Proof. apply triple_open. intros b o. eapply triple_mono; [apply triple_decision|]. intros ? s Hs. by apply (holds_owns _ _ b o s Hs). Qed.

Lemma pool_elem w t nb : (w, t) ∈ nb -> (w, Block t) ∈ pool nb /\ readable t (pool nb).
Proof.
  intros Hin. assert (Hsub : forall x, x ∈ blk w t -> x ∈ pool nb).
  { intros x Hx. unfold pool. apply list_elem_of_In, in_concat. exists (blk w t). split; [|by apply list_elem_of_In]. apply in_map_iff. exists (w, t). split; [done|by apply list_elem_of_In]. }
  split; [apply Hsub; left|]. intros v ->. apply Hsub. right. left.
Qed.

Lemma triple_copy_blocks_owns nb f : triple (owns (pool nb ++ f)) (copy_blocks (map fst nb)) (fun r s => exists cs, r.1 = entries cs /\ owns (pool cs ++ pool nb ++ f) s).
Proof.
  apply triple_open. intros b o. eapply triple_mono; [apply triple_copy_blocks|].
  - intros w t Hin. destruct (pool_elem w t nb Hin) as [H1 H2]. rewrite <- app_assoc. split; [apply elem_of_app; by left|]. intros v Hv. apply elem_of_app. left. by apply H2.
  - intros r s (cs & E & Hs). exists cs. split; [done|]. apply (holds_owns _ _ b o s Hs). solve_Permutation.
Qed.

Lemma triple_apply_branch height nb a ws f : (a = None -> ws = []) ->
  triple (owns (array a ws ++ pool nb ++ f)) (apply_branch height (map fst nb) a (entries ws)) (fun _ => owns (pool nb ++ f)).
Proof.
  intros Ha. assert (Hsplit : forall g, array a ws ++ g ≡ₚ pool ws ++ array a [] ++ g).
  { intros g. destruct a as [a|]; [cbn; solve_Permutation|]. by rewrite (Ha eq_refl). }
  assert (Hjoin : forall ws' g, map fst ws' = map fst ws -> pool ws' ++ array a [] ++ g ≡ₚ array a ws' ++ g).
  { intros ws' g E. destruct a as [a|]; [cbn; solve_Permutation|]. rewrite (Ha eq_refl) in E. by destruct ws'. }
  step (apply triple_malloc_owns). intros [c|].
  2: { step (by apply triple_free_array). intros _. by apply triple_ret. }
  step (apply (triple_owns _ (pool nb ++ (c, Buffer) :: array a ws ++ f)); [solve_Permutation|apply triple_copy_blocks_owns]).
  intros [branch ok]. apply triple_ex. intros cs. apply triple_fact. cbn [fst snd]. intros ->.
  apply (triple_bind _ _ _ (fun _ s => exists ws' cs', map fst ws' = map fst ws /\ map fst cs' = map fst cs /\ owns (array a ws' ++ array (Some c) cs' ++ pool nb ++ f) s)).
  - destruct ok; [|apply triple_ret; intros s Hs; exists ws, cs; split; [done|]; split; [done|]; eapply owns_perm; [|exact Hs]; cbn; solve_Permutation].
    apply (triple_owns _ (pool ws ++ pool cs ++ array a [] ++ pool nb ++ [(c, Buffer)] ++ f)).
    { transitivity (array a ws ++ (pool cs ++ pool nb ++ [(c, Buffer)] ++ f)); [solve_Permutation|]. rewrite Hsplit. solve_Permutation. }
    eapply triple_mono; [apply triple_swap_branch|]. intros ? s (ws' & cs' & Ew & Ec & Hs). exists ws', cs'. split; [done|]. split; [done|]. eapply owns_perm; [|exact Hs].
    rewrite <- (Hjoin ws' _ Ew). cbn. solve_Permutation.
  - intros ok'. apply triple_ex. intros ws'. apply triple_ex. intros cs'. apply triple_fact. intros Ew. apply triple_fact. intros Ec.
    step (by apply triple_free_array). intros _. step (by apply triple_free_array). intros _. by apply triple_ret.
Qed.

(** The caller keeps its branch, whatever happens. *)
Lemma triple_Chain_ReplaceBranch height nb f : triple (owns (pool nb ++ f)) (Chain_ReplaceBranch height (map fst nb)) (fun _ => owns (pool nb ++ f)).
Proof.
  apply triple_open. intros b o. assert (Hclose : forall g s, holds ((g ++ f) ++ chain b ++ pool o) b (map fst o) s -> owns (g ++ f) s).
  { intros g s Hs. by apply (holds_owns _ _ b o s Hs). }
  step (apply triple_get_blocks). intros l. apply triple_fact. intros ->. step (apply triple_decision). intros wanted.
  destruct ((length b <? height)%nat || negb wanted); [apply triple_ret, Hclose|]. destruct (length b =? height)%nat.
  { eapply triple_pre; [apply Hclose|]. by apply (triple_apply_branch height nb None [] f). }
  step (apply triple_malloc). intros [a|]; [|apply triple_ret, Hclose].
  step (apply (triple_holds _ (((a, Buffer) :: pool nb ++ f) ++ chain b ++ pool o)); [done|apply triple_snapshot_blocks]). intros [saved ok].
  apply triple_ex. intros ws. apply triple_fact. cbn [fst snd]. intros ->.
  apply (triple_pre _ _ (owns (array (Some a) ws ++ pool nb ++ f))). { intros s Hs. apply (holds_owns _ _ b o s Hs). cbn. solve_Permutation. }
  destruct ok; cbn [negb]; [by apply triple_apply_branch|]. step (by apply triple_free_array). intros _. by apply triple_ret.
Qed.
