(* ===== verification/MemoryTheorems.v ===== *)
(** * The memory of blocks is exact

    The triples of the orphan pool, of the node and of the command thread, and what follows for any run: no
    block or vector is used after it was freed or freed twice, none is lost except by [send], and nothing is
    left when the node is gone. *)
From S2P Require Import Prelude BlockMemory MemoryLogic.
Import Bm.
#[local] Open Scope mem_scope.

(** ** The heap, for an owner of [f] *)

(** An operation on the cells [e] that leaves chain and pool alone. *)
Lemma triple_local {A} e (e' : A -> list (nat * cell)) (m : mem A) f :
  (forall g b o, triple (holds (e ++ g) b o) m (fun a => holds (e' a ++ g) b o)) -> triple (owns (e ++ f)) m (fun a => owns (e' a ++ f)).
Proof.
  intros Hm. apply triple_open. intros b o. eapply triple_mono; [apply (triple_holds _ (e ++ f ++ chain b ++ pool o)); [solve_Permutation|apply Hm]|].
  intros a s Hs. apply (holds_owns _ _ b o s Hs). solve_Permutation.
Qed.

Lemma own_Block_Destroy f w t : triple (owns (blk w t ++ f)) (Block_Destroy (Some w)) (fun _ => owns f).
Proof. apply (triple_local (blk w t) (fun _ => [])). intros. apply triple_Block_Destroy. Qed.

Lemma own_destroy_transactions f w t : triple (owns (blk w t ++ f)) (destroy_transactions w) (fun _ => owns (blk w None ++ f)).
Proof. apply (triple_local (blk w t) (fun _ => blk w None)). intros. apply triple_destroy_transactions. Qed.

Lemma own_free_block f w : triple (owns (blk w None ++ f)) (free_block w) (fun _ => owns f).
Proof. apply (triple_local (blk w None) (fun _ => [])). intros. apply triple_free_block. Qed.

Lemma own_free_both f w t : triple (owns (blk w t ++ f)) (destroy_transactions w;; free_block w) (fun _ => owns f).
Proof. step (apply own_destroy_transactions). intros _. apply own_free_block. Qed.

(** A buffer, or none. *)
Definition buf (p : option nat) : list (nat * cell) := match p with Some p => [(p, Buffer)] | None => [] end.

Lemma own_free_buffer f p : triple (owns (buf p ++ f)) (free_buffer p) (fun _ => owns f).
Proof. destruct p as [p|]; [|by apply triple_ret]. apply (triple_local (buf (Some p)) (fun _ => [])). intros. apply triple_free_buffer. Qed.

Lemma own_buffer f : triple (owns f) (malloc Buffer) (fun p => owns (buf p ++ f)).
Proof. eapply triple_mono; [apply triple_malloc_owns|]. by intros [p|]. Qed.

Lemma own_choose f : triple (owns f) choose (fun _ => owns f).
Proof. apply (triple_local [] (fun _ => [])). intros. apply triple_choose. Qed.

Lemma own_transactions f w t : triple (owns (blk w t ++ f)) (transactions w) (fun t' s => t' = t /\ owns (blk w t ++ f) s).
Proof.
  apply triple_open. intros b o. eapply triple_mono; [apply (triple_transactions _ _ _ _ t); left|]. intros t' s [-> Hs]. split; [done|]. by apply (holds_owns _ _ b o s Hs).
Qed.

Lemma own_touch f w t : triple (owns (blk w t ++ f)) (touch t) (fun _ => owns (blk w t ++ f)).
Proof.
  apply triple_open. intros b o. eapply triple_mono; [apply triple_touch|intros ? s Hs; by apply (holds_owns _ _ b o s Hs)]. intros v ->. right. left.
Qed.

(** A new block of the owner's, if there is one. *)
Definition fresh_own (phi : option nat -> Prop) (f : list (nat * cell)) (r : option nat) (s : memory) : Prop :=
  match r with Some w => exists t, phi t /\ owns (blk w t ++ f) s | None => owns f s end.

Lemma own_fresh phi (m : mem (option nat)) f :
  (forall b o, triple (holds (f ++ chain b ++ pool o) b (map fst o)) m (fresh_block phi (f ++ chain b ++ pool o) b (map fst o))) -> triple (owns f) m (fresh_own phi f).
Proof.
  intros Hm. apply triple_open. intros b o. eapply triple_mono; [apply Hm|]. intros [w|] s; [|intros Hs; by apply (holds_owns _ _ b o s Hs)].
  intros (t & Ht & Hs). exists t. split; [done|]. apply (holds_owns _ _ b o s Hs). solve_Permutation.
Qed.

Lemma own_Block_Create f : triple (owns f) Block_Create (fresh_own is_Some f).
Proof. apply own_fresh. intros. apply triple_Block_Create. Qed.

Lemma own_Chain_LoadBlockFromFile f lt : triple (owns f) (Chain_LoadBlockFromFile lt) (fresh_own (fun t => lt = true -> is_Some t) f).
Proof. apply own_fresh. intros. apply triple_Chain_LoadBlockFromFile. Qed.

Lemma own_Chain_GetBlockCopy f i : triple (owns f) (Chain_GetBlockCopy i) (fresh_own (fun _ => True) f).
Proof. apply own_fresh. intros. apply triple_Chain_GetBlockCopy. Qed.

Lemma own_fill_block f w : triple (owns (blk w None ++ f)) (fill_block w) (fun ok s => if ok : bool then exists v, owns (blk w (Some v) ++ f) s else owns f s).
Proof.
  apply triple_open. intros b o. eapply triple_mono; [apply triple_fill_block|]. intros [|] s; [|intros Hs; by apply (holds_owns _ _ b o s Hs)].
  intros [v Hs]. exists v. apply (holds_owns _ _ b o s Hs). solve_Permutation.
Qed.

Lemma own_new_block f : triple (owns f) (malloc (Block None)) (fun r => match r with Some w => owns (blk w None ++ f) | None => owns f end).
Proof. apply triple_malloc_owns. Qed.

Lemma own_get_blocks f : triple (owns f) get_blocks (fun _ => owns f).
Proof. apply triple_open. intros b o. eapply triple_mono; [apply triple_get_blocks|]. intros l s [-> Hs]. by apply (holds_owns _ _ b o s Hs). Qed.

Lemma own_get_orphans f : triple (owns f) get_orphans (fun _ => owns f).
Proof. apply triple_open. intros b o. eapply triple_mono; [apply triple_get_orphans|]. intros l s [-> Hs]. by apply (holds_owns _ _ b o s Hs). Qed.

(** What is taken from a fresh block is known. *)
Lemma triple_fresh {A} phi f r (m : mem A) q :
  (forall w t, r = Some w -> phi t -> triple (owns (blk w t ++ f)) m q) -> (r = None -> triple (owns f) m q) -> triple (fresh_own phi f r) m q.
Proof. intros H1 H2. destruct r as [w|]; cbn [fresh_own]; [apply triple_ex; intros t; apply triple_fact; intros Ht; by apply (H1 w t)|by apply H2]. Qed.

(** Steps that change nothing for the owner. *)
Create HintDb own discriminated.
#[export] Hint Resolve triple_decision_owns own_choose own_get_blocks own_get_orphans triple_Chain_ClearBlocks triple_Chain_RollbackToHeightLocked triple_skip : own.
Ltac quiet := eapply triple_bind; [solve [auto with own]|]; cbn beta; intros ?.

(** ** Hashes of blocks, saving and loading *)

Lemma own_hash_of_block f i : triple (owns f) (hash_of_block i) (fun _ => owns f).
Proof.
  step (apply own_Chain_GetBlockCopy). intros [w|]; apply triple_fresh; try done; intros.
  - injection H as <-. step (apply own_Block_Destroy). intros _. by apply triple_ret.
  - by apply triple_ret.
Qed.
#[export] Hint Resolve own_hash_of_block : own.

Lemma chain_clear b i t : b !! i = Some t -> chain b ≡ₚ vec t ++ chain (<[i := None]> b).
Proof.
  revert i; induction b as [|x b IH]; intros [|i] E; try done.
  - injection E as ->. done.
  - change (vec x ++ chain b ≡ₚ vec t ++ vec x ++ chain (<[i := None]> b)). rewrite (IH i E). solve_Permutation.
Qed.

Lemma own_save_blocks f n i : triple (owns f) (save_blocks n i) (fun _ => owns f).
Proof.
  revert i; induction n as [|n IH]; intros i; cbn [save_blocks]; [by apply triple_ret|]. apply triple_open. intros b o.
  step (apply triple_get_blocks). intros l. apply triple_fact. intros ->.
  assert (Hclose : forall s, holds (f ++ chain b ++ pool o) b (map fst o) s -> owns f s) by (intros s Hs; by apply (holds_owns _ _ b o s Hs)).
  destruct (b !! i) as [[v|]|] eqn:E; [| |by apply triple_ret].
  - step (apply triple_expect_vector, (readable_borrowed (Some v)); [by eapply list_elem_of_lookup_2|done]). intros _.
    step (apply triple_decision). intros [|]; [|by apply triple_ret].
    step (apply (triple_holds _ (vec (Some v) ++ f ++ chain (<[i := None]> b) ++ pool o)); [rewrite (chain_clear b i _ E); solve_Permutation|apply triple_vector_destroy]).
    intros _. step (apply triple_set_blocks). intros _. eapply triple_pre; [|apply IH]. intros s Hs. by apply (holds_owns _ _ (<[i := None]> b) o s Hs).
  - eapply triple_pre; [exact Hclose|]. step (apply own_Chain_LoadBlockFromFile). intros r. apply triple_fresh; intros; subst r; [|by apply triple_ret].
    destruct (H0 eq_refl) as [v ->]. step (apply own_transactions). intros t0. apply triple_fact. intros ->.
    step (apply (own_touch f w (Some v))). intros _. quiet. step (apply own_Block_Destroy). intros _. destruct a; [apply IH|by apply triple_ret].
Qed.

Lemma own_Chain_SaveToFile f : triple (owns f) Chain_SaveToFile (fun _ => owns f).
Proof.
  unfold Chain_SaveToFile. quiet. destruct a; cbn [negb]; [|by apply triple_ret]. quiet. step (apply own_save_blocks). intros [|]; [auto with own|by apply triple_ret].
Qed.

(** The element takes the transactions over, and the temporary block goes. *)
Lemma own_push_and_free f w t (k : mem bool) : triple (owns f) k (fun _ => owns f) ->
  triple (owns (blk w t ++ f)) (let* pushed := vector_push_back t in if pushed then free_block w;; k else Block_Destroy (Some w);; ret false) (fun _ => owns f).
Proof.
  intros Hk. apply triple_open. intros b o. step (apply triple_vector_push_back). intros [|].
  - step (apply triple_free_block). intros _. eapply triple_pre; [|exact Hk]. intros s Hs. apply (holds_owns _ _ _ o s Hs). rewrite chain_app, chain_one. solve_Permutation.
  - apply (triple_pre _ _ (owns (blk w t ++ f))); [intros s Hs; by apply (holds_owns _ _ b o s Hs)|]. step (apply own_Block_Destroy). intros _. by apply triple_ret.
Qed.

Lemma own_load_blocks f n lt : triple (owns f) (load_blocks n lt) (fun _ => owns f).
Proof.
  induction n as [|n IH]; cbn [load_blocks]; [by apply triple_ret|]. quiet. destruct a; cbn [negb]; [|by apply triple_ret].
  step (apply own_new_block). intros [w|]; [|by apply triple_ret]. quiet. destruct a; cbn [negb]; [|step (apply own_free_block); intros _; by apply triple_ret].
  apply (triple_bind _ _ _ (fun (ok : bool) s => if ok then exists t, owns (blk w t ++ f) s else owns f s)).
  - destruct lt; [eapply triple_mono; [apply own_fill_block|]; intros [|] s; [intros [v Hs]; by exists (Some v)|done]|].
    quiet. destruct a; [apply triple_ret; intros s Hs; by exists None|]. step (apply own_free_block). intros _. by apply triple_ret.
  - intros [|]; cbn [negb]; [|by apply triple_ret]. apply triple_ex. intros t. step (apply own_transactions). intros t0. apply triple_fact. intros ->. by apply own_push_and_free.
Qed.

Lemma own_Chain_LoadFromFile f lt : triple (owns f) (Chain_LoadFromFile lt) (fun _ => owns f).
Proof. unfold Chain_LoadFromFile. quiet. destruct a; cbn [negb]; [|by apply triple_ret]. quiet. quiet. apply own_load_blocks. Qed.
#[export] Hint Resolve own_Chain_SaveToFile own_Chain_LoadFromFile : own.

(** ** The orphan pool *)

Lemma pool_perm o o' : o ≡ₚ o' -> pool o ≡ₚ pool o'.
Proof.
  induction 1 as [|[w t] o o' _ IH|[w t] [w' t'] o|o1 o2 o3 _ IH1 _ IH2]; [done|by rewrite !pool_cons, IH| |by rewrite IH1].
  rewrite !pool_cons. solve_Permutation.
Qed.

Lemma pool_delete (o : list (nat * option nat)) i w : map fst o !! i = Some w -> exists t, o !! i = Some (w, t) /\ pool o ≡ₚ blk w t ++ pool (delete i o) /\ map fst (delete i o) = delete i (map fst o).
Proof.
  intros E. rewrite list_lookup_fmap in E. destruct (o !! i) as [[w' t]|] eqn:Ei; [|done]. injection E as ->. exists t. split; [done|]. split.
  - rewrite <- pool_cons. apply pool_perm. by apply delete_Permutation.
  - apply (list_fmap_delete fst).
Qed.

Lemma own_take_at f i : triple (owns f) (take_at i) (fresh_own (fun _ => True) f).
Proof.
  apply triple_open. intros b o. step (apply triple_get_orphans). intros l. apply triple_fact. intros ->.
  destruct (map fst o !! i) as [w|] eqn:E; [|apply triple_ret; intros s Hs; by apply (holds_owns _ _ b o s Hs)].
  destruct (pool_delete o i w E) as (t & _ & Hp & Hd). step (apply triple_set_orphans). intros _. apply triple_ret. intros s Hs. exists t. split; [done|].
  rewrite <- Hd in Hs. apply (holds_owns _ _ b (delete i o) s Hs). rewrite Hp. solve_Permutation.
Qed.

Lemma own_drop_at f i : triple (owns f) (drop_at i) (fun _ => owns f).
Proof.
  apply triple_open. intros b o. step (apply triple_get_orphans). intros l. apply triple_fact. intros ->.
  destruct (map fst o !! i) as [w|] eqn:E; [|apply triple_ret; intros s Hs; by apply (holds_owns _ _ b o s Hs)].
  destruct (pool_delete o i w E) as (t & _ & Hp & Hd).
  step (apply (triple_holds _ (blk w t ++ f ++ chain b ++ pool (delete i o))); [rewrite Hp; solve_Permutation|apply triple_Block_Destroy]). intros _.
  rewrite <- Hd. eapply triple_mono; [apply triple_set_orphans|]. intros ? s Hs. by apply (holds_owns _ _ b (delete i o) s Hs).
Qed.
#[export] Hint Resolve own_drop_at : own.

Lemma own_TakeByHash f : triple (owns f) OrphanPool_TakeByHashLocked (fresh_own (fun _ => True) f).
Proof. unfold OrphanPool_TakeByHashLocked. quiet. apply own_take_at. Qed.

Lemma own_DropByHash f : triple (owns f) OrphanPool_DropByHashLocked (fun _ => owns f).
Proof. unfold OrphanPool_DropByHashLocked. quiet. auto with own. Qed.
#[export] Hint Resolve own_DropByHash : own.

Lemma own_drop_hashes f n : triple (owns f) (drop_hashes n) (fun _ => owns f).
Proof. induction n as [|n IH]; cbn [drop_hashes]; [by apply triple_ret|]. quiet. exact IH. Qed.

Lemma own_EvictOldest f : triple (owns f) OrphanPool_EvictOldestLocked (fun _ => owns f).
Proof. unfold OrphanPool_EvictOldestLocked. quiet. destruct a; [by apply triple_ret|]. quiet. quiet. by apply triple_ret. Qed.
#[export] Hint Resolve own_drop_hashes own_EvictOldest : own.

Lemma own_evict_loop f n : triple (owns f) (evict_loop n) (fun _ => owns f).
Proof.
  induction n as [|n IH]; cbn [evict_loop]; [by apply triple_ret|]. quiet. destruct (_ <=? _)%nat; [|by apply triple_ret]. quiet. destruct a0; [exact IH|by apply triple_ret].
Qed.
#[export] Hint Resolve own_evict_loop : own.

(** The pool takes the block. *)
Lemma own_OrphanPool_Insert f w t : triple (owns (blk w t ++ f)) (OrphanPool_Insert w) (fun _ => owns f).
Proof.
  unfold OrphanPool_Insert. quiet. destruct a; cbn [negb]; [|apply own_Block_Destroy]. quiet. destruct a; [apply own_Block_Destroy|]. quiet. quiet. quiet.
  destruct a1; [|apply own_Block_Destroy]. apply triple_open. intros b o. step (apply triple_get_orphans). intros l. apply triple_fact. intros ->.
  change (map fst o ++ [w]) with (map fst o ++ map fst [(w, t)]). rewrite <- map_app. eapply triple_mono; [apply triple_set_orphans|].
  intros ? s Hs. apply (holds_owns _ _ b (o ++ [(w, t)]) s Hs). rewrite (pool_perm (o ++ [(w, t)]) ((w, t) :: o)) by solve_Permutation. rewrite pool_cons. solve_Permutation.
Qed.

(** A pooled block is found, and it is one of the pool's. *)
Lemma triple_FindChild f b o : triple (holds (f ++ chain b ++ pool o) b (map fst o)) OrphanPool_FindChildLocked
  (fun r s => (forall w, r = Some w -> exists t, (w, t) ∈ o) /\ holds (f ++ chain b ++ pool o) b (map fst o) s).
Proof.
  step (apply triple_choose). intros i. step (apply triple_get_orphans). intros l. apply triple_fact. intros ->.
  destruct (map fst o !! i) as [w|] eqn:E; [|by apply triple_ret]. destruct (pool_delete o i w E) as (t & Ei & _). apply list_elem_of_lookup_2 in Ei.
  step (apply (triple_transactions _ _ _ _ t); apply elem_of_app; right; apply elem_of_app; right; by apply pool_elem). intros t0. apply triple_fact. intros ->.
  apply triple_ret. intros s Hs. split; [|done]. intros w' Ew. injection Ew as <-. by exists t.
Qed.

Lemma triple_collect_loop f b o n : triple (holds (f ++ chain b ++ pool o) b (map fst o)) (collect_loop n)
  (fun r s => (exists ws, r = map fst ws /\ forall x, x ∈ ws -> x ∈ o) /\ holds (f ++ chain b ++ pool o) b (map fst o) s).
Proof.
  assert (Hnil : exists ws : list (nat * option nat), [] = map fst ws /\ forall x, x ∈ ws -> x ∈ o) by (exists []; split; [done|]; by intros x ?%not_elem_of_nil).
  induction n as [|n IH]; cbn [collect_loop]; [by apply triple_ret|]. step (apply triple_FindChild). intros r. apply triple_fact. intros Hr. destruct r as [w|]; [|by apply triple_ret].
  destruct (Hr w eq_refl) as [t Ht]. step (apply triple_decision). intros [|]; [|by apply triple_ret]. step (exact IH). intros r. apply triple_fact. intros (ws & -> & Hws).
  apply triple_ret. intros s Hs. split; [|done]. exists ((w, t) :: ws). split; [done|]. intros x Hx. apply elem_of_cons in Hx as [->|Hx]; auto.
Qed.

Lemma hold_buffer g b o : triple (holds g b o) (malloc Buffer) (fun p => holds (buf p ++ g) b o).
Proof. eapply triple_mono; [apply triple_malloc|]. by intros [p|]. Qed.

Lemma hold_free_buffer g b o p : triple (holds (buf p ++ g) b o) (free_buffer p) (fun _ => holds g b o).
Proof. destruct p as [p|]; [apply triple_free_buffer|by apply triple_ret]. Qed.

(** Two buffers freed one after the other. *)
Lemma hold_free_two {A} g b o p q (m : mem A) r : triple (holds g b o) m r ->
  triple (holds (buf q ++ buf p ++ g) b o) (free_buffer p;; free_buffer q;; m) r.
Proof.
  intros Hm. step (apply (triple_holds _ (buf p ++ buf q ++ g)); [solve_Permutation|apply hold_free_buffer]). intros _. step (apply hold_free_buffer). intros _. exact Hm.
Qed.

(** The blocks of a branch are the pool's; the two arrays are the caller's. *)
Definition collected (f : list (nat * cell)) b o (r : list nat * option nat * option nat) (s : memory) : Prop :=
  (exists ws, r.1.1 = map fst ws /\ forall x, x ∈ ws -> x ∈ o) /\ holds (buf r.1.2 ++ buf r.2 ++ f ++ chain b ++ pool o) b (map fst o) s.

Lemma triple_CollectBranch f b o : triple (holds (f ++ chain b ++ pool o) b (map fst o)) OrphanPool_CollectBranchLocked (collected f b o).
Proof.
  assert (Hnone : triple (holds (f ++ chain b ++ pool o) b (map fst o)) (ret ([], None, None)) (collected f b o)).
  { apply triple_ret. intros s Hs. split; [|done]. exists []. split; [done|]. by intros x ?%not_elem_of_nil. }
  step (apply hold_buffer). intros p. step (apply hold_buffer). intros q. destruct (negb _ || negb _); [by apply hold_free_two|].
  step (apply triple_choose). intros rounds. step (apply (triple_holds _ ((buf q ++ buf p ++ f) ++ chain b ++ pool o)); [solve_Permutation|apply triple_collect_loop]).
  intros found. apply triple_fact. intros Hf. destruct (length found =? 0)%nat.
  { apply (triple_holds _ (buf q ++ buf p ++ f ++ chain b ++ pool o)); [solve_Permutation|]. by apply hold_free_two. }
  step (apply hold_buffer). intros a. step (apply hold_buffer). intros h.
  apply (triple_holds _ (buf h ++ buf a ++ buf q ++ buf p ++ f ++ chain b ++ pool o)); [solve_Permutation|]. destruct (negb _ || negb _).
  { apply hold_free_two. by apply hold_free_two. }
  apply (triple_holds _ (buf q ++ buf p ++ buf a ++ buf h ++ f ++ chain b ++ pool o)); [solve_Permutation|]. apply hold_free_two. apply triple_ret. intros s Hs. by split.
Qed.

Lemma triple_copy_each ws g b o : (forall w t, (w, t) ∈ ws -> (w, Block t) ∈ g /\ readable t g) ->
  triple (holds g b o) (copy_each (map fst ws)) (fun r s => exists cs, omap id r = map fst cs /\ holds (pool cs ++ g) b o s).
Proof.
  revert g; induction ws as [|[w t] ws IH]; intros g Hg; cbn [map copy_each fst]; [apply triple_ret; intros s Hs; by exists []|].
  destruct (Hg w t) as [Hw Ht]; [left|]. step (by apply triple_transactions). intros t0. apply triple_fact. intros ->.
  step (by apply triple_Block_Copy). intros [c|].
  - apply triple_ex. intros t'. apply triple_fact. intros _. step (apply IH).
    { intros w' t'' Hin. destruct (Hg w' t'') as [H1 H2]; [by right|]. split; [apply elem_of_app; by right|]. intros v Hv. apply elem_of_app. right. by apply H2. }
    intros r. apply triple_ret. intros s (cs & E & Hh & Hr). exists ((c, t') :: cs). split; [cbn; by rewrite E|]. split; [rewrite Hh, pool_cons; solve_Permutation|done].
  - step (apply IH; intros w' t'' Hin; apply Hg; by right). intros r. by apply triple_ret.
Qed.

Lemma own_destroy_copies r cs f : omap id r = map fst cs -> triple (owns (pool cs ++ f)) (destroy_blocks r) (fun _ => owns f).
Proof.
  revert cs; induction r as [|[w|] r IH]; intros cs E; cbn [destroy_blocks].
  - destruct cs; [|done]. by apply triple_ret.
  - destruct cs as [|[w' t] cs]; [done|]. injection E as <- E. rewrite pool_cons, <- app_assoc. step (apply own_Block_Destroy). intros _. by apply IH.
  - cbn [Block_Destroy]. quiet. by apply IH.
Qed.

(** One fork point: the branch is copied, tried and freed. *)
Lemma own_adopt_loop f n : triple (owns f) (adopt_loop n) (fun _ => owns f).
Proof.
  induction n as [|n IH]; cbn [adopt_loop]; [by apply triple_ret|]. quiet. destruct a; cbn [negb]; [|exact IH].
  apply triple_open. intros b o. step (apply triple_CollectBranch). intros [[found branch] hashes]. apply triple_fact. cbn [fst snd]. intros (ws & -> & Hws).
  apply (triple_bind _ _ _ (fun p => holds (buf p ++ buf branch ++ buf hashes ++ f ++ chain b ++ pool o) b (map fst o))).
  { destruct (_ =? 0)%nat; [by apply triple_ret|apply hold_buffer]. }
  intros p. apply (triple_bind _ _ _ (fun r s => exists cs, omap id r = map fst cs /\ (p = None -> cs = []) /\
    holds (pool cs ++ buf p ++ buf branch ++ buf hashes ++ f ++ chain b ++ pool o) b (map fst o) s)).
  { destruct p as [p|]; [|apply triple_ret; intros s Hs; by exists []]. eapply triple_mono; [apply triple_copy_each|intros r s (cs & E & Hs); by exists cs].
    intros w t Hin. destruct (pool_elem w t o) as [H1 H2]; [by apply Hws|]. rewrite !app_assoc. split; [apply elem_of_app; by right|]. intros v Hv. apply elem_of_app. right. by apply H2. }
  intros r. apply triple_ex. intros cs. apply triple_fact. intros E. apply triple_fact. intros Hp.
  apply (triple_pre _ _ (owns (buf branch ++ pool cs ++ buf p ++ buf hashes ++ f))). { intros s Hs. apply (holds_owns _ _ b o s Hs). solve_Permutation. }
  step (apply own_free_buffer). intros _. destruct p as [p|].
  2: { rewrite (Hp eq_refl). step (apply (own_free_buffer f hashes)). intros _. exact IH. }
  apply (triple_bind _ _ _ (fun _ => owns (pool cs ++ buf (Some p) ++ buf hashes ++ f))).
  { destruct (all_copied r); [|by apply triple_ret]. rewrite E. apply triple_Chain_ReplaceBranch. }
  intros adopted. step (by apply own_destroy_copies). intros _. step (apply own_free_buffer). intros _. destruct adopted.
  - quiet. step (apply own_free_buffer). intros _. by apply triple_ret.
  - step (apply own_free_buffer). intros _. exact IH.
Qed.
#[export] Hint Resolve own_adopt_loop : own.

(** A pooled block is found and copied under the pool's lock. *)
Lemma own_copy_child {A} f (k : option nat -> nat -> mem A) (z : mem A) q :
  (forall w t, triple (owns (blk w t ++ f)) (k (Some w) w) q) -> triple (owns f) z q ->
  triple (owns f) (let* pooled := OrphanPool_FindChildLocked in
    match pooled with
    | None => z
    | Some p => let* t := transactions p in let* c := Block_Copy t in match c with None => z | Some w => k c w end
    end) q.
Proof.
  intros Hk Hz. apply triple_open. intros b o. step (apply triple_FindChild). intros r. apply triple_fact. intros Hr.
  assert (Hclose : forall s, holds (f ++ chain b ++ pool o) b (map fst o) s -> owns f s) by (intros s Hs; by apply (holds_owns _ _ b o s Hs)).
  destruct r as [p|]; [|by eapply triple_pre]. destruct (Hr p eq_refl) as [t Ht]. destruct (pool_elem p t o Ht) as [H1 H2].
  step (apply (triple_transactions _ _ _ _ t); apply elem_of_app; right; apply elem_of_app; by right). intros t0. apply triple_fact. intros ->.
  step (apply triple_Block_Copy; intros v Hv; apply elem_of_app; right; apply elem_of_app; right; by apply H2).
  intros [w|]; [|by eapply triple_pre]. apply triple_ex. intros t'. apply triple_fact. intros _. eapply triple_pre; [|apply (Hk w t')].
  intros s Hs. apply (holds_owns _ _ b o s Hs). solve_Permutation.
Qed.

Lemma own_destroy_fresh {A} phi f r (k : mem A) q : triple (owns f) k q -> triple (fresh_own phi f r) (Block_Destroy r;; k) q.
Proof.
  intros Hk. apply triple_fresh; [intros w t -> _|intros ->].
  - step (apply own_Block_Destroy). intros _. exact Hk.
  - cbn [Block_Destroy]. quiet. exact Hk.
Qed.

Lemma own_extend_tip_loop f n : triple (owns f) (extend_tip_loop n) (fun _ => owns f).
Proof.
  induction n as [|n IH]; cbn [extend_tip_loop]; [by apply triple_ret|]. quiet. apply (triple_bind _ _ _ (fun _ => owns f)); [destruct (_ =? 0)%nat; auto with own|].
  intros [|]; cbn [negb]; [|by apply triple_ret]. apply own_copy_child; [|by apply triple_ret]. intros w t. step (apply triple_Chain_AddBlock). intros added.
  apply triple_ex. intros t'. step (apply own_Block_Destroy). intros _. destruct added; [|quiet; exact IH].
  step (apply own_TakeByHash). intros taken. apply own_destroy_fresh. step (exact IH). intros r. by apply triple_ret.
Qed.

Lemma own_ExtendTip f : triple (owns f) OrphanPool_ExtendTip (fun _ => owns f).
Proof. unfold OrphanPool_ExtendTip. quiet. apply own_extend_tip_loop. Qed.

Lemma own_TryAdoptBranch f : triple (owns f) OrphanPool_TryAdoptBranch (fun _ => owns f).
Proof. unfold OrphanPool_TryAdoptBranch. quiet. auto with own. Qed.

Lemma own_doomed_loop f n : triple (owns f) (doomed_loop n) (fun _ => owns f).
Proof. induction n as [|n IH]; cbn [doomed_loop]; [by apply triple_ret|]. quiet. quiet. quiet. step (exact IH). intros r. by apply triple_ret. Qed.
#[export] Hint Resolve own_ExtendTip own_TryAdoptBranch own_doomed_loop : own.

Lemma own_PruneStale f : triple (owns f) OrphanPool_PruneStale (fun _ => owns f).
Proof.
  step (apply own_buffer). intros d. assert (Hdone : triple (owns (buf d ++ f)) (free_buffer d) (fun _ => owns f)) by apply own_free_buffer.
  destruct d as [d|]; [|by apply triple_ret]. step (apply own_buffer). intros p. step (apply own_buffer). intros q. quiet. quiet. quiet.
  step (apply (triple_owns _ (buf p ++ buf q ++ buf (Some d) ++ f)); [solve_Permutation|apply own_free_buffer]). intros _. step (apply own_free_buffer). intros _. exact Hdone.
Qed.
#[export] Hint Resolve own_PruneStale : own.

Lemma own_attach_loop f n : triple (owns f) (attach_loop n) (fun _ => owns f).
Proof.
  induction n as [|n IH]; cbn [attach_loop]; [by apply triple_ret|]. quiet. quiet. destruct (_ =? 0)%nat; [by apply triple_ret|]. step (exact IH). intros r. by apply triple_ret.
Qed.
#[export] Hint Resolve own_attach_loop : own.

Lemma own_AttemptAttach f : triple (owns f) OrphanPool_AttemptAttach (fun _ => owns f).
Proof. unfold OrphanPool_AttemptAttach. quiet. destruct (_ =? 0)%nat; [by apply triple_ret|]. quiet. quiet. quiet. by apply triple_ret. Qed.
#[export] Hint Resolve own_AttemptAttach : own.

Lemma own_save_after f n : triple (owns f) (save_after n) (fun _ => owns f).
Proof. unfold save_after. destruct (_ =? 0)%nat; [by apply triple_ret|]. quiet. by apply triple_ret. Qed.
#[export] Hint Resolve own_save_after : own.

(** ** The node *)

Lemma own_append_received f w t persist : triple (owns (blk w t ++ f)) (append_received w persist) (fun _ => owns f).
Proof.
  step (apply triple_Chain_AddBlock). intros added. apply triple_ex. intros t'. destruct added; cbn [negb]; [|apply own_Block_Destroy].
  apply (triple_bind _ _ _ (fun _ => owns (blk w t' ++ f))); [destruct persist; auto with own|]. intros _. step (apply own_Block_Destroy). intros _. quiet. auto with own.
Qed.

Lemma own_place_block f w t persist : triple (owns (blk w t ++ f)) (place_block w persist) (fun _ => owns f).
Proof.
  unfold place_block. quiet. quiet. destruct a0 as [|[|n]]; [apply own_OrphanPool_Insert| |].
  - quiet. quiet. quiet. destruct (_ && _); [apply own_free_both|apply own_OrphanPool_Insert].
  - destruct (_ =? 0)%nat; [apply own_append_received|]. step (apply own_Chain_GetBlockCopy). intros last. apply triple_fresh; [intros l u -> _|intros ->; apply own_OrphanPool_Insert].
    quiet. destruct a0; [step (apply own_Block_Destroy); intros _; apply own_append_received|].
    step (apply (triple_owns _ (blk w t ++ blk l u ++ f)); [solve_Permutation|apply own_OrphanPool_Insert]). intros _. apply own_Block_Destroy.
Qed.

Lemma own_Receive f persist : triple (owns f) (Node_ParseAndAcceptBlock persist) (fun _ => owns f).
Proof.
  unfold Node_ParseAndAcceptBlock. quiet. destruct a; cbn [negb]; [|by apply triple_ret]. step (apply own_new_block). intros [w|]; [|by apply triple_ret].
  quiet. destruct a; cbn [negb]; [|apply own_free_block]. step (apply own_fill_block). intros [|]; cbn [negb]; [|by apply triple_ret]. apply triple_ex. intros v.
  quiet. destruct a; cbn [negb]; [apply own_place_block|apply own_free_both].
Qed.

Lemma own_find_full_block f h : triple (owns f) (find_full_block h) (fresh_own (fun _ => True) f).
Proof.
  assert (Hload : forall g, triple (owns g) (Chain_LoadBlockFromFile true) (fresh_own (fun _ => True) g)).
  { intros g. eapply triple_mono; [apply own_Chain_LoadBlockFromFile|]. intros [w|] s; [intros (t & _ & Hs); by exists t|done]. }
  step (apply own_Chain_GetBlockCopy). intros c. apply triple_fresh; [intros w t -> _|intros ->; apply Hload].
  step (apply own_transactions). intros t0. apply triple_fact. intros ->. destruct t as [v|]; [apply triple_ret; intros s Hs; by exists (Some v)|].
  step (apply Hload). intros full. apply triple_fresh; [intros w' t' -> _|intros ->; apply triple_ret; intros s Hs; by exists None].
  step (apply (triple_owns _ (blk w None ++ blk w' t' ++ f)); [solve_Permutation|apply own_Block_Destroy]). intros _. apply triple_ret. intros s Hs. by exists t'.
Qed.

Lemma own_send_block f h : triple (owns f) (send_block h) (fun _ => owns f).
Proof.
  step (apply own_find_full_block). intros r. apply triple_fresh; [intros w t -> _|intros ->; by apply triple_ret]. step (apply own_transactions). intros t0. apply triple_fact. intros ->.
  destruct t as [v|]; [|apply own_Block_Destroy]. quiet. destruct a; [apply own_Block_Destroy|]. step (apply own_buffer). intros [p|]; [|apply own_Block_Destroy].
  apply (triple_owns _ (blk w (Some v) ++ buf (Some p) ++ f)); [solve_Permutation|]. step (apply (own_touch _ w (Some v))). intros _.
  step (apply (triple_owns _ (buf (Some p) ++ blk w (Some v) ++ f)); [solve_Permutation|apply own_free_buffer]). intros _. apply own_Block_Destroy.
Qed.
#[export] Hint Resolve own_Receive own_send_block : own.

(** ** The command thread *)

Lemma own_BuildNextBlock f : triple (owns f) BuildNextBlock (fresh_own is_Some f).
Proof.
  step (apply own_Block_Create). intros r. apply triple_fresh; [intros w t -> Ht|intros ->; by apply triple_ret]. quiet.
  apply (triple_bind _ _ _ (fun _ => owns (blk w t ++ f))); [destruct (_ =? 0)%nat; auto with own|]. intros _. apply triple_ret. intros s Hs. by exists t.
Qed.

Lemma own_MineAndAppendBlock f w t : triple (owns (blk w t ++ f)) (MineAndAppendBlock w) (fun _ s => exists t', owns (blk w t' ++ f) s).
Proof.
  unfold MineAndAppendBlock. quiet. destruct a; cbn [negb]; [|apply triple_ret; intros s Hs; by exists t]. step (apply own_transactions). intros t0. apply triple_fact. intros ->.
  step (apply own_touch). intros _. step (apply triple_Chain_AddBlock). intros added. apply triple_ex. intros t'.
  destruct added; cbn [negb]; [|apply triple_ret; intros s Hs; by exists t']. quiet. quiet. apply triple_ret. intros s Hs. by exists t'.
Qed.

(** The accepted transactions, if there are any. *)
Definition selection (f : list (nat * cell)) (r : option (option nat)) : memory -> Prop := match r with Some a => owns (buf a ++ f) | None => owns f end.

Lemma own_Select f : triple (owns f) BalanceSheet_SelectSpendableTransactions (selection f).
Proof. apply triple_open. intros b o. eapply triple_mono; [apply triple_Select|]. intros [[a|]|] s Hs; by apply (holds_owns _ _ b o s Hs). Qed.

Lemma own_BuildSpendableMempoolSelection f : triple (owns f) BuildSpendableMempoolSelection (selection f).
Proof.
  unfold BuildSpendableMempoolSelection. quiet. destruct a; [by apply triple_ret|]. step (apply own_buffer). intros [p|]; [|by apply triple_ret]. step (apply own_Select). intros [a|].
  - step (apply (triple_owns _ (buf (Some p) ++ buf a ++ f)); [solve_Permutation|apply own_free_buffer]). intros _. by apply triple_ret.
  - step (apply own_free_buffer). intros _. by apply triple_ret.
Qed.

Lemma own_mine_block f : triple (owns f) mine_block (fun _ => owns f).
Proof.
  step (apply own_BuildSpendableMempoolSelection). intros [a|]; [|by apply triple_ret]. step (apply own_BuildNextBlock). intros r.
  apply triple_fresh; [intros w t -> _|intros ->; step (apply own_free_buffer); intros _; by apply triple_ret].
  apply (triple_owns _ (buf a ++ blk w t ++ f)); [solve_Permutation|]. quiet. destruct a0; cbn [negb].
  2: { step (apply own_free_buffer). intros _. step (apply own_Block_Destroy). intros _. by apply triple_ret. }
  apply (triple_owns _ (blk w t ++ buf a ++ f)); [solve_Permutation|]. step (apply own_transactions). intros t0. apply triple_fact. intros ->. step (apply own_touch). intros _.
  step (apply (triple_owns _ (buf a ++ blk w t ++ f)); [solve_Permutation|apply own_free_buffer]). intros _. step (apply own_MineAndAppendBlock). intros ok.
  apply triple_ex. intros t'. step (apply own_Block_Destroy). intros _. apply (triple_bind _ _ _ (fun _ => owns f)); [|intros _; by apply triple_ret].
  destruct ok; [|by apply triple_ret]. quiet. quiet. quiet. destruct a2; auto with own.
Qed.

(** Blocks that are nobody's, each with its vector. *)
Definition lost_blocks (n : nat) (e : list (nat * option nat)) : Prop := length e = n /\ Forall (fun x => is_Some x.2) e.

(** The block built for a payment is nobody's in the end. *)
Lemma own_send f : triple (owns f) send (fun built s => exists e, lost_blocks (if built then 1 else 0) e /\ owns (pool e ++ f) s).
Proof.
  assert (Hnone : forall s, owns f s -> exists e, lost_blocks 0 e /\ owns (pool e ++ f) s) by (intros s Hs; exists []; by split; [split|]).
  unfold send. quiet. destruct a; cbn [negb]; [|by apply triple_ret]. step (apply own_BuildNextBlock). intros r. apply triple_fresh; [intros w t -> Ht|intros ->; by apply triple_ret].
  step (apply own_transactions). intros t0. apply triple_fact. intros ->. step (apply own_touch). intros _. apply triple_ret. intros s Hs.
  exists [(w, t)]. split; [split; [done|by constructor]|]. eapply owns_perm; [|exact Hs]. rewrite pool_cons. solve_Permutation.
Qed.

Lemma triple_clear f : triple (owns f) Chain_ClearBlocks (fun _ s => exists o, holds (f ++ pool o) [] (map fst o) s).
Proof.
  apply triple_open. intros b o. step (apply triple_get_blocks). intros l. apply triple_fact. intros ->.
  eapply triple_mono; [apply (triple_holds _ (chain b ++ f ++ pool o)); [solve_Permutation|apply triple_destroy_elements]|]. intros ? s Hs. by exists o.
Qed.

Lemma own_with_other_chain f m : (forall g, triple (owns g) m (fun _ => owns g)) -> triple (owns f) (with_other_chain m) (fun _ => owns f).
Proof.
  intros Hm. step (apply own_buffer). intros [p|]; [|by apply triple_ret]. apply triple_open. intros b o. step (apply triple_get_blocks). intros l. apply triple_fact. intros ->.
  step (apply triple_set_blocks). intros _. apply (triple_pre _ _ (owns (chain b ++ buf (Some p) ++ f))). { intros s Hs. apply (holds_owns _ _ [] o s Hs). solve_Permutation. }
  step (apply Hm). intros r. step (apply triple_clear). intros _. apply triple_ex. intros o'. step (apply triple_set_blocks). intros _.
  apply (triple_pre _ _ (owns (buf (Some p) ++ f))). { intros s Hs. apply (holds_owns _ _ b o' s Hs). solve_Permutation. }
  step (apply own_free_buffer). intros _. by apply triple_ret.
Qed.

Lemma own_blockdetail f : triple (owns f) blockdetail (fun _ => owns f).
Proof.
  step (apply own_Chain_LoadBlockFromFile). intros r. apply triple_fresh; [intros w t -> _|intros ->; by apply triple_ret].
  step (apply own_with_other_chain; auto with own). intros _. apply own_Block_Destroy.
Qed.

Lemma own_verify_blocks f n i : triple (owns f) (verify_blocks n i) (fun _ => owns f).
Proof.
  revert i; induction n as [|n IH]; intros i; cbn [verify_blocks]; [by apply triple_ret|]. step (apply own_Chain_GetBlockCopy). intros r.
  apply triple_fresh; [intros w t -> _|intros ->; by apply triple_ret]. step (apply own_transactions). intros t0. apply triple_fact. intros ->.
  assert (Hno : triple (owns (blk w t ++ f)) (Block_Destroy (Some w);; ret false) (fun _ => owns f)) by (step (apply own_Block_Destroy); intros _; by apply triple_ret).
  destruct t as [v|]; [|exact Hno]. quiet. destruct a; cbn [negb]; [|exact Hno].
  apply (triple_bind _ _ _ (fun _ => owns (blk w (Some v) ++ f))). { destruct (i =? 0)%nat; [auto with own|]. quiet. quiet. by apply triple_ret. }
  intros [|]; cbn [negb]; [|exact Hno]. quiet. destruct a; cbn [negb]; [|exact Hno]. step (apply own_touch). intros _. step (apply own_destroy_transactions). intros _. quiet.
  step (apply own_Block_Destroy). intros _. destruct a; [apply IH|by apply triple_ret].
Qed.

Lemma own_fullverify f : triple (owns f) fullverify (fun _ => owns f).
Proof.
  apply own_with_other_chain. intros g. quiet. destruct a; [|by apply triple_ret]. step (apply own_buffer). intros [p|]; [|by apply triple_ret]. quiet.
  step (apply own_verify_blocks). intros ok. step (apply own_free_buffer). intros _. by apply triple_ret.
Qed.
#[export] Hint Resolve own_mine_block own_blockdetail own_fullverify : own.

(** ** Any run *)

Fixpoint sends (ops : list operation) : nat :=
  match ops with
  | [] => 0
  | Send :: ops => S (sends ops)
  | _ :: ops => sends ops
  end.

Lemma pool_app o o' : pool (o ++ o') = pool o ++ pool o'.
Proof. unfold pool. by rewrite map_app, concat_app. Qed.

Lemma own_perform f op : op <> Send -> triple (owns f) (perform op) (fun _ => owns f).
Proof. intros Hop. destruct op; [..|done| |]; cbn [perform]; first [solve [auto with own]|quiet; solve [auto with own]]. Qed.

Lemma lost_app n m e e' : lost_blocks n e -> lost_blocks m e' -> lost_blocks (m + n) (e' ++ e).
Proof. intros [L H] [L' H']. split; [rewrite length_app; lia|by apply Forall_app]. Qed.

Lemma own_counting ops f : triple (owns f) (perform_counting ops) (fun n s => exists e, lost_blocks n e /\ owns (pool e ++ f) s).
Proof.
  revert f; induction ops as [|op ops IH]; intros f; [apply triple_ret; intros s Hs; exists []; by split; [split|]|].
  assert (Hother : op <> Send -> triple (owns f) (perform op;; perform_counting ops) (fun n s => exists e, lost_blocks n e /\ owns (pool e ++ f) s))
    by (intros Hop; step (by apply own_perform); intros _; apply IH).
  destruct op; try (by apply Hother). cbn [perform_counting]. clear Hother. step (apply own_send). intros built. apply triple_ex. intros e. apply triple_fact. intros He.
  step (apply IH). intros n. apply triple_ret. intros s (e' & He' & Hs). exists (e' ++ e). split; [|by rewrite pool_app, <- app_assoc].
  pose proof (lost_app _ _ _ _ He He'). destruct built; [by rewrite Nat.add_1_r in *|by rewrite Nat.add_0_r in *].
Qed.

(** Counting does not change the run, and counts no more than the sends. *)
Lemma counting_all ops s n s' : perform_counting ops s = Some (n, s') -> perform_all ops s = Some (tt, s') /\ (n <= sends ops)%nat.
Proof.
  revert s n; induction ops as [|op ops IH]; intros s n E; [by injection E as <- <-|]. destruct op; cbn [perform_counting perform_all perform sends] in *; unfold bind in *.
  all: try (match type of E with match ?m with _ => _ end = _ => destruct m as [[[] s1]|]; [|done] end; by apply IH).
  all: unfold ret in *; match type of E with match ?m with _ => _ end = _ => destruct m as [[x s1]|]; [|done] end.
  all: try (by destruct (IH _ _ E)).
  destruct (perform_counting ops s1) as [[k s2]|] eqn:Ek; [|done]. injection E as <- <-. destruct (IH _ _ Ek) as [E' Hk]. split; [done|]. destruct x; lia.
Qed.

Lemma triple_OrphanPool_Destroy f : triple (owns f) OrphanPool_Destroy (fun _ s => exists b, holds (f ++ chain b) b [] s).
Proof.
  apply triple_open. intros b o. step (apply triple_get_orphans). intros l. apply triple_fact. intros ->.
  apply (triple_mono _ _ (fun _ => holds (f ++ chain b) b [])); [|intros ? s Hs; by exists b].
  generalize (map fst o) at 1. revert f; induction o as [|[w t] o IH]; intros f l; cbn [map destroy_entries fst].
  - eapply triple_mono; [apply triple_set_orphans|]. intros ? s Hs. by rewrite app_nil_r in Hs.
  - step (apply (triple_holds _ (blk w t ++ f ++ chain b ++ pool o)); [rewrite pool_cons; solve_Permutation|apply triple_Block_Destroy]). intros _. apply IH.
Qed.

Lemma triple_shutdown f : triple (owns f) shutdown (fun _ => holds f [] []).
Proof.
  step (apply triple_OrphanPool_Destroy). intros _. apply triple_ex. intros b. step (apply triple_get_blocks). intros l. apply triple_fact. intros ->.
  apply (triple_holds _ (chain b ++ f)); [solve_Permutation|]. apply triple_destroy_elements.
Qed.

Lemma start_owns cs : owns [] (start cs).
Proof. exists [], []. split; [|split; [done|split; [done|]]]; cbn; [by rewrite map_to_list_empty|]. intros l c Hl. by rewrite lookup_empty in Hl. Qed.

(** C18: whatever blocks arrive, are mined, pooled, appended, served, saved, loaded, rolled back, swapped for a
    heavier branch or verified, and whichever allocation, file access or check fails on the way, no block and no
    vector of transactions is used after it was freed or freed twice; the heap is at all times what the chain
    and the orphan pool own and at most one block for each [send], and that is all the shutdown leaves. *)
Theorem block_memory_exact ops cs : exists s s' lost, perform_all ops (start cs) = Some (tt, s) /\
  (length lost <= sends ops)%nat /\ owns (pool lost) s /\
  shutdown s = Some (tt, s') /\ map_to_list (heap s') ≡ₚ pool lost.
Proof.
  destruct (own_counting ops [] (start cs) (start_owns cs)) as (n & s & E & lost & [Hl _] & Hs). rewrite app_nil_r in Hs.
  destruct (counting_all _ _ _ _ E) as [Ea Hn]. destruct (triple_shutdown (pool lost) s Hs) as ([] & s' & E' & Hh & _).
  exists s, s', lost. split; [done|]. split; [lia|done].
Qed.

Lemma length_pool n e : lost_blocks n e -> length (pool e) = (2 * n)%nat.
Proof.
  intros [<- H]. induction H as [|[w t] e [v Ht] _ IH]; [done|]. cbn [snd] in Ht. subst t. rewrite pool_cons, length_app, IH. cbn [length fst snd blk vec]. lia.
Qed.

(** C38: every [send] that gets as far as building its block loses it.  Through any operations, with any outcome of
    allocations, files and checks, the shutdown leaves exactly as many blocks as there were sends whose payment was
    valid and whose block could be allocated, each with its vector: twice that many cells. *)
Theorem send_loses_its_block ops cs : exists built s s' lost,
  perform_counting ops (start cs) = Some (built, s) /\ perform_all ops (start cs) = Some (tt, s) /\
  shutdown s = Some (tt, s') /\ map_to_list (heap s') ≡ₚ pool lost /\ length lost = built /\ size (heap s') = (2 * built)%nat.
Proof.
  destruct (own_counting ops [] (start cs) (start_owns cs)) as (n & s & E & lost & Hl & Hs). rewrite app_nil_r in Hs.
  destruct (counting_all _ _ _ _ E) as [Ea _]. destruct (triple_shutdown (pool lost) s Hs) as ([] & s' & E' & Hh & _).
  exists n, s, s', lost. repeat (split; [done|]). split; [apply Hl|]. by rewrite <- length_map_to_list, Hh, (length_pool n).
Qed.

(** Two blocks are mined, then two payments made: two blocks are lost. *)
Example mine_then_send : fst <$> perform_counting [Mine; Mine; Send; Send] (start (replicate 100 1%nat)) = Some 2%nat.
Proof. vm_compute. reflexivity. Qed.
