(* ===== verification/Helpers.v ===== *)
(** * Clocks, paths, hexadecimal output and the growth of the epoch table ([include/utils.h], [src/block/chain.c])

    The small functions under the others: what they compute, and that their buffers, divisions and loops stay
    within bounds. *)
From S2P Require Import Prelude Bytes Utils.

(** ** Clocks ([utils.h]) *)

(** The answer of [clock_gettime], if it gave one. *)
Definition get_current_time_ms (spec : option (Z * Z)) : Z :=
  match spec with
  | None => 0
  | Some (sec, nsec) => u64 (u64 (sec * 1000) + nsec / 1000000)
  end.

(** The [timespec] a sleep is asked with. *)
Definition sleep_for_microseconds (microseconds : Z) : Z * Z := (microseconds / 1000000, u64 (microseconds mod 1000000 * 1000)).
Definition sleep_for_milliseconds (milliseconds : Z) : Z * Z := sleep_for_microseconds (u64 (milliseconds * 1000)).

(** A sleep asks for the time it was given, in a form [nanosleep] takes. *)
Lemma sleep_exact us : 0 <= us -> let '(s, ns) := sleep_for_microseconds us in 0 <= ns < 1000000000 /\ s * 1000000000 + ns = us * 1000.
Proof.
  intros Hu. unfold sleep_for_microseconds. assert (Hm := Z.mod_pos_bound us 1000000 ltac:(lia)). rewrite u64_small by (unfold is_u64; lia). split; [lia|].
  pose proof (Z.div_mod us 1000000 ltac:(lia)). lia.
Qed.

(** Until the year 584542046 milliseconds do not wrap. *)
Lemma time_exact sec nsec : 0 <= sec < 2 ^ 54 -> 0 <= nsec < 1000000000 -> get_current_time_ms (Some (sec, nsec)) = (sec * 1000000000 + nsec) / 1000000.
Proof.
  intros Hs Hn. cbn [get_current_time_ms]. assert (0 <= nsec / 1000000 < 1000) by (split; [apply Z.div_pos; lia|apply Z.div_lt_upper_bound; lia]).
  rewrite (u64_small (sec * 1000)), u64_small by (unfold is_u64; lia). replace (sec * 1000000000) with (sec * 1000 * 1000000) by lia. rewrite Z.div_add_l by lia. lia.
Qed.

(** ** Hexadecimal output *)

Definition AddressToHexString (address : bytes) : bytes := to_hex address.

(** [printf("%02x", b)] for each byte. *)
Fixpoint PrintHexBytes (bs : bytes) : bytes :=
  match bs with
  | [] => []
  | b :: r => [hex_digit (b / 16); hex_digit (b mod 16)] ++ PrintHexBytes r
  end.

(** What is printed is what an address is read from. *)
Lemma print_hex bs : bytes_ok bs -> PrintHexBytes bs = to_hex bs /\ parse_hex_pairs (PrintHexBytes bs) = Some bs.
Proof.
  intros Hb. assert (E : PrintHexBytes bs = to_hex bs).
  { clear Hb. induction bs as [|b r IH]; [done|]. cbn [PrintHexBytes]. rewrite IH. unfold to_hex. cbn [map concat].
    rewrite Z.shiftr_div_pow2 by lia. change 15 with (Z.ones 4). rewrite Z.land_ones by lia. done. }
  split; [exact E|]. rewrite E. by apply parse_to_hex.
Qed.

(** ** Paths ([chain.c]) *)

(** The path and its final NUL in a buffer of [outSize] bytes, or nothing. *)
Definition BuildPath (outSize : nat) (dirpath filename : bytes) : option bytes :=
  if (outSize <=? length dirpath + 1 + length filename)%nat then None else Some (dirpath ++ [47] ++ filename ++ [0]).

Lemma path_fits outSize dirpath filename p : BuildPath outSize dirpath filename = Some p -> (length p <= outSize)%nat /\ p = dirpath ++ [47] ++ filename ++ [0].
Proof. unfold BuildPath. destruct (_ <=? _)%nat eqn:E; [done|]. apply Nat.leb_gt in E. intros H. injection H as <-. split; [|done]. rewrite length_app. cbn. rewrite length_app. cbn. lia. Qed.

Inductive entry := Absent | Directory | Other.

(** [found] and [again]: what [stat] sees before and after [mkdir], which may fail because someone else was first. *)
Definition EnsureDirectoryExists (empty : bool) (found : entry) (created raced : bool) (again : entry) : bool :=
  if empty then false
  else
    match found with
    | Directory => true
    | Other => false
    | Absent =>
        if created then true
        else if raced then match again with Directory => true | _ => false end else false
    end.

(** Success means there is a directory: it was there, was made, or someone else made it. *)
Lemma directory_exists empty found created raced again : EnsureDirectoryExists empty found created raced again = true ->
  found = Directory \/ (found = Absent /\ (created = true \/ again = Directory)).
Proof. unfold EnsureDirectoryExists. destruct empty, found, created, raced, again; naive_solver. Qed.

(** ** The table of epochs ([chain.c]) *)

(** The doubling loop; [None] where the next doubling would not fit into 64 bits. *)
Fixpoint grow_capacity (fuel : nat) (capacity needed : Z) : option Z :=
  if needed <=? capacity then Some capacity
  else match fuel with
  | O => None
  | S fuel => if UINT64_MAX / 2 <? capacity then None else grow_capacity fuel (u64 (capacity * 2)) needed
  end.

(** The new capacity; [fits]: whether [realloc] gave the memory. *)
Definition Chain_ReserveDagEpochsLocked (capacity needed : Z) (fits : bool) : bool * Z :=
  if needed <=? capacity then (true, capacity)
  else
    match grow_capacity 64 (if capacity =? 0 then 8 else capacity) needed with
    | None => (false, capacity)
    | Some grown => if fits then (true, grown) else (false, capacity)
    end.

(** Sixty-four doublings are enough, and the result is less than twice what was needed. *)
Lemma grow_enough fuel capacity needed : 0 < capacity -> needed <= 2 ^ 63 -> needed <= capacity * 2 ^ Z.of_nat fuel ->
  exists grown, grow_capacity fuel capacity needed = Some grown /\ needed <= grown /\ (grown = capacity \/ grown < 2 * needed).
Proof.
  revert capacity; induction fuel as [|fuel IH]; intros capacity Hc Hn Hf; cbn [grow_capacity]; destruct (needed <=? capacity) eqn:E; zbool; try (exists capacity; split; [done|]; split; [lia|by left]).
  - exfalso. cbn in Hf. lia.
  - replace (UINT64_MAX / 2 <? capacity) with false by (symmetry; apply Z.ltb_ge; change (UINT64_MAX / 2) with (2 ^ 63 - 1); lia).
    rewrite u64_small by (unfold is_u64; lia). destruct (IH (capacity * 2)) as (g & Eg & H1 & H2); [lia|lia| |].
    + rewrite Nat2Z.inj_succ, Z.pow_succ_r in Hf by lia. lia.
    + exists g. split; [exact Eg|]. split; [exact H1|]. right. destruct H2; lia.
Qed.

Lemma reserve_enough capacity needed : 0 <= capacity -> 0 < needed <= 2 ^ 63 ->
  exists grown, Chain_ReserveDagEpochsLocked capacity needed true = (true, grown) /\ needed <= grown.
Proof.
  intros Hc Hn. unfold Chain_ReserveDagEpochsLocked. destruct (needed <=? capacity) eqn:E; zbool; [by exists capacity|].
  destruct (grow_enough 64 (if capacity =? 0 then 8 else capacity) needed) as (g & -> & Hg & _); [destruct (capacity =? 0) eqn:E0; zbool; lia|lia| |by exists g].
  change (2 ^ Z.of_nat 64) with (2 * 2 ^ 63). destruct (capacity =? 0) eqn:E0; zbool; lia.
Qed.
