(* ===== verification/SaveFailure.v ===== *)
(** * A save that fails ([Chain_SaveToFile] of [src/block/chain.c], every exit)

    The save with files that cannot be opened, writes that come up short and renames that fail, each of the
    three files on its own.  A block gives up its transactions as soon as it was written to the temporary file,
    before anything was renamed; what that means when a later write fails. *)
From S2P Require Import Prelude Bytes UInt256 Utils Crypto Transaction Autolykos2 Block Emission.
From S2P Require Import BalanceSheet Ledger Difficulty DagEpochs Mempool Storage Chain ChainInvariant History ChainTheorems.

(** The three files, each there or not; a reader wants all of them. *)
Record disk := mkDisk { d_meta : option bytes; d_data : option bytes; d_table : option bytes }.

Definition disk_of (f : option chain_files) : disk :=
  match f with
  | Some f => mkDisk (Some (chain_meta f)) (Some (chain_data f)) (Some (chain_table f))
  | None => mkDisk None None None
  end.
Definition files_of (d : disk) : option chain_files := m ← d_meta d; c ← d_data d; t ← d_table d; Some (mkFiles m c t).

Lemma files_of_disk f : files_of (disk_of f) = f.
Proof. by destruct f as [[]|]. Qed.

(** [writes i]: the block [i] and its table entry reach the temporary files. *)
Fixpoint save_loop_io (writes : nat -> bool) (old : option chain_files) (i : nat) (byteCount : Z) (blocks : list block) : bool * list block * bytes * bytes :=
  match blocks with
  | [] => (true, [], [], [])
  | b :: r =>
      match disk_copy old (Z.of_nat i) b with
      | Some (mkBlock hdr (Some txs)) =>
          if negb (writes i) then (false, b :: r, [], [])
          else
            let blockStart := byteCount in
            let byteCount := byteCount +u64 (96 + 8) in
            let byteCount := byteCount +u64 (Z.of_nat (length txs) * 232) in
            let entry := mkLoc (Z.of_nat i) blockStart (byteCount -u64 blockStart) in
            let '(ok, r', data, table) := save_loop_io writes old (S i) byteCount r in
            (ok, compact b :: r', block_image hdr txs ++ data, table_entry_bytes entry ++ table)
      | _ => (false, b :: r, [], [])
      end
  end.

(** How far the renames get: [chain.meta] first, then [chain.data], then [chain.table]. *)
Definition rename_files (renamed : nat) (new : chain_files) (old : disk) : disk :=
  match renamed with
  | O => old
  | 1%nat => mkDisk (Some (chain_meta new)) (d_data old) (d_table old)
  | 2%nat => mkDisk (Some (chain_meta new)) (Some (chain_data new)) (d_table old)
  | _ => mkDisk (Some (chain_meta new)) (Some (chain_data new)) (Some (chain_table new))
  end.

(** What the system answers during one save. *)
Record save_answers := mkAnswers { opened : bool; writes : nat -> bool; renamed : nat }.

Section Failing.
Context {ops : CryptoOps}.

Definition Chain_SaveToFile_io (a : save_answers) (d : disk) (blocks : list block) (supply : uint256) (reward : Z) : bool * disk * list block :=
  if negb (opened a) then (false, d, blocks)
  else
    let '(ok, blocks', data, table) := save_loop_io (writes a) (files_of d) 0 0 blocks in
    if negb ok then (false, d, blocks')
    else
      let '(lastHash, difficulty) := tip_fields blocks in
      let new := mkFiles (meta_bytes (Z.of_nat (length blocks)) lastHash supply difficulty reward) data table in
      ((3 <=? renamed a)%nat, rename_files (renamed a) new d, blocks').

Definition node_save_io (a : save_answers) (st : node) : bool * node :=
  let '(ok, d, chain) := Chain_SaveToFile_io a (disk_of (g_files st)) (blocks st) (g_currentSupply st) (g_currentReward st) in
  (ok, mkNode chain (dagEpochs st) (g_sheetMap st) (g_txMempool st) (g_currentSupply st) (g_currentReward st)
         (g_currentBlockHeight st) (g_difficultyTarget st) (files_of d) (g_pow st)).

(** ** Without failures it is the save of the other files *)

Lemma save_loop_io_ok old i bc l : save_loop_io (fun _ => true) old i bc l = save_loop old (Z.of_nat i) bc l.
Proof.
  revert i bc; induction l as [|b r IH]; intros i bc; cbn [save_loop_io save_loop]; [done|].
  destruct (disk_copy old (Z.of_nat i) b) as [[hdr [txs|]]|]; [|done|done]. cbn [negb]. rewrite IH, Nat2Z.inj_succ. done.
Qed.

Lemma save_io_refines st : node_save_io (mkAnswers true (fun _ => true) 3) st = node_save st.
Proof.
  unfold node_save_io, node_save, Chain_SaveToFile_io, Chain_SaveToFile. cbn [opened writes renamed negb]. rewrite files_of_disk.
  rewrite save_loop_io_ok. change (Z.of_nat 0) with 0. destruct (save_loop _ 0 0 _) as [[[ok l] data] table]. destruct ok; cbn [negb].
  - destruct (tip_fields (blocks st)) as [h d]. done.
  - by rewrite files_of_disk.
Qed.

(** ** A write that fails *)

(** What a block is written from, for the block of index [i]. *)
Definition source (old : option chain_files) (i : nat) (b : block) : option (list signed_transaction) :=
  d ← disk_copy old (Z.of_nat i) b; transactions d.

Lemma borrow_source st i b : blocks st !! i = Some b -> Chain_BorrowBlockTransactions st i = source (g_files st) i b.
Proof.
  intros Hb. unfold Chain_BorrowBlockTransactions, source, disk_copy. rewrite Hb. cbn. destruct (transactions b) as [txs|] eqn:E; cbn; [by rewrite E|].
  by destruct (Chain_LoadBlockFromFile _ _ _) as [[d n]|].
Qed.

(** The loop stops at the first write that fails, with the blocks before it compacted. *)
Lemma loop_stops w old i bc l m : (forall j b, (j <= m)%nat -> l !! j = Some b -> is_Some (source old (i + j) b)) -> (m < length l)%nat ->
  (forall j, (j < m)%nat -> w (i + j)%nat = true) -> w (i + m)%nat = false ->
  exists data table, save_loop_io w old i bc l = (false, map compact (take m l) ++ drop m l, data, table).
Proof.
  revert i bc m; induction l as [|b r IH]; intros i bc m Hs Hm Hw Hf; cbn in Hm; [lia|]. cbn [save_loop_io].
  destruct (Hs 0%nat b ltac:(lia) eq_refl) as [txs Ht]. rewrite Nat.add_0_r in Ht. unfold source in Ht. destruct (disk_copy old (Z.of_nat i) b) as [[hdr t]|]; [|done].
  cbn in Ht. subst t. destruct m as [|m].
  - rewrite Nat.add_0_r in Hf. rewrite Hf. by exists [], [].
  - specialize (Hw 0%nat ltac:(lia)) as H0. rewrite Nat.add_0_r in H0. rewrite H0. cbn [negb].
    edestruct (IH (S i)) as (data & table & E); [..|rewrite E; cbn [take drop map app]; eauto].
    + intros j b' Hj Hb. replace (S i + j)%nat with (i + S j)%nat by lia. apply Hs; [lia|exact Hb].
    + lia.
    + intros j Hj. replace (S i + j)%nat with (i + S j)%nat by lia. apply Hw. lia.
    + by replace (S i + m)%nat with (i + S m)%nat by lia.
Qed.

(** A block without a source stops every save. *)
Lemma loop_fails w old i bc l j b : l !! j = Some b -> source old (i + j) b = None -> exists l' data table, save_loop_io w old i bc l = (false, l', data, table).
Proof.
  revert i bc j; induction l as [|c r IH]; intros i bc j Hj Hs; [done|]. cbn [save_loop_io]. destruct j as [|j].
  - injection Hj as ->. rewrite Nat.add_0_r in Hs. unfold source in Hs. destruct (disk_copy old (Z.of_nat i) b) as [[hdr [txs|]]|]; [done|eauto..].
  - destruct (disk_copy old (Z.of_nat i) c) as [[hdr [txs|]]|]; [|eauto..]. destruct (negb (w i)); [eauto|].
    edestruct (IH (S i)) as (l' & data & table & E); [exact Hj|by replace (S i + j)%nat with (i + S j)%nat by lia|]. rewrite E. eauto.
Qed.

(** A block without transactions stops every replay over it. *)
Lemma replay_stops st i n j acc : (i <= j < i + n)%nat -> Chain_BorrowBlockTransactions st j = None -> fst (replay_blocks st i n acc) = false.
Proof.
  revert i acc; induction n as [|n IH]; intros i acc Hj Hb; [lia|]. cbn [replay_blocks]. destruct (decide (i = j)) as [->|]; [by rewrite Hb|].
  destruct (Chain_BorrowBlockTransactions st i); [|done]. apply IH; [lia|done].
Qed.

Lemma rollback_stops st i h : (i < h < length (blocks st))%nat -> Chain_BorrowBlockTransactions st i = None -> fst (Chain_RollbackToHeightLocked st h) = false.
Proof.
  intros Hi Hb. unfold Chain_RollbackToHeightLocked. destruct (Nat.leb_spec (length (blocks st)) h); [lia|].
  match goal with |- context [replay_blocks ?s 0 ?n ?acc] => assert (Hf : fst (replay_blocks s 0 n acc) = false); [|by destruct (replay_blocks s 0 n acc) as [[] [? ?]]] end.
  apply (replay_stops _ _ _ i); [rewrite length_take; lia|]. unfold Chain_BorrowBlockTransactions in *. cbn [blocks g_files]. by rewrite lookup_take_lt by lia.
Qed.

(** ** The gap stays *)

(** Block [i] has only its header in memory and cannot be read from disk. *)
Definition gap (i : nat) (st : node) : Prop :=
  exists b, blocks st !! i = Some b /\ transactions b = None /\ Chain_LoadBlockFromFile (g_files st) (Z.of_nat i) true = None.

(** Everything a node does that leaves block [i] on its chain: appends of any block, saves however they end,
    rollbacks to heights above it, swaps of branches above it, and the upkeep of pool and DAG. *)
Inductive step_above (i : nat) : node -> node -> Prop :=
| above_add st b : step_above i st (snd (Chain_AddBlock st b))
| above_save a st : step_above i st (snd (node_save_io a st))
| above_rollback st h : (i < h)%nat -> step_above i st (snd (Chain_RollbackToHeight st h))
| above_replace st f l o bp now : (i < f)%nat -> step_above i st (snd (Chain_ReplaceBranch st f l o bp now))
| above_pow st p : step_above i st (set_pow st p)
| above_dag st h : step_above i st (snd (Chain_DagParamsForHeight st h))
| above_pool st pool : step_above i st (set_pool st pool).

Lemma gap_source i st : gap i st -> exists b, blocks st !! i = Some b /\ source (g_files st) i b = None.
Proof. intros (b & Hb & Ht & Hl). exists b. split; [done|]. unfold source, disk_copy. by rewrite Ht, Hl. Qed.

Lemma gap_borrow i st : gap i st -> Chain_BorrowBlockTransactions st i = None.
Proof. intros (b & Hb & Hs)%gap_source. by rewrite (borrow_source st i b). Qed.

Lemma gap_kept i st st' : gap i st -> take (S i) (blocks st) `prefix_of` blocks st' -> g_files st' = g_files st -> gap i st'.
Proof.
  intros (b & Hb & Ht & Hl) [k E] Ef. exists b. rewrite Ef, E. split; [|done].
  assert (Hk : take (S i) (blocks st) !! i = Some b) by (by rewrite lookup_take_lt by lia).
  rewrite lookup_app_l; [done|]. by eapply lookup_lt_Some.
Qed.

Lemma AddBlockLocked_files st b : g_files (snd (Chain_AddBlockLocked st b)) = g_files st.
Proof.
  unfold Chain_AddBlockLocked, check_pow. destruct (transactions b); [|done]. destruct (links_to_tip _ b); cbn [negb]; [|done].
  destruct (Chain_DagParamsForHeightLocked _ _ _) as [[[n s]|] c]; [|done].
  destruct (Block_HasValidProofOfWorkWithParams _ _ _ _ _); cbn [negb]; [|done].
  destruct (_ =? _); cbn [negb]; [|done]. destruct (admission _ b _) as [e|]; [|done]. unfold commit. by destruct (ledger_pass _ _) as [ok m].
Qed.

Lemma RollbackLocked_files st h : g_files (snd (Chain_RollbackToHeightLocked st h)) = g_files st.
Proof. unfold Chain_RollbackToHeightLocked. destruct (_ <=? _)%nat; [done|]. by destruct (replay_blocks _ _ _ _) as [ok [s m]]. Qed.

Lemma apply_blocks_files st l : g_files (snd (apply_blocks st l)) = g_files st.
Proof.
  revert st; induction l as [|b r IH]; intros st; cbn [apply_blocks]; [done|]. pose proof (AddBlockLocked_files st b) as E.
  destruct (Chain_AddBlockLocked st b) as [[] st1]; cbn [snd] in *; [by rewrite IH|done].
Qed.

Lemma ReplaceBranch_files st f l o bp now : g_files (snd (Chain_ReplaceBranch st f l o bp now)) = g_files st.
Proof.
  unfold Chain_ReplaceBranch. destruct (_ || _); [done|]. destruct (negb _); [done|]. destruct (snapshot_blocks _ _ _) as [snap|]; [|done].
  assert (E : forall l, g_files (snd (swap_branch st f snap l)) = g_files st); [|specialize (E (map Block_Copy l)); by destruct (swap_branch _ _ _ _)].
  intros k. unfold swap_branch. pose proof (RollbackLocked_files st f) as E1. destruct (Chain_RollbackToHeightLocked st f) as [[] st1]; cbn [negb snd] in *; [|done].
  pose proof (apply_blocks_files st1 k) as E2. destruct (apply_blocks st1 k) as [[] st2]; cbn [snd] in *; [congruence|].
  pose proof (RollbackLocked_files st2 f) as E3. destruct (Chain_RollbackToHeightLocked st2 f) as [[] st3]; cbn [negb snd] in *; [|congruence].
  rewrite apply_blocks_files. congruence.
Qed.

(** The blocks below the fork stay. *)
Lemma ReplaceBranch_prefix st f l o bp now : take f (blocks st) `prefix_of` blocks (snd (Chain_ReplaceBranch st f l o bp now)).
Proof.
  assert (H : take f (blocks st) `prefix_of` blocks st) by (exists (drop f (blocks st)); by rewrite take_drop).
  unfold Chain_ReplaceBranch. destruct (_ || _); [done|]. destruct (negb _); [done|]. destruct (snapshot_blocks _ _ _) as [snap|]; [|done].
  pose proof (swap_branch_blocks st f snap (map Block_Copy l)) as [Hp _]. by destruct (swap_branch _ _ _ _).
Qed.

Lemma loop_keeps w old i bc l j b ok l' d t : save_loop_io w old i bc l = (ok, l', d, t) -> l !! j = Some b -> transactions b = None -> l' !! j = Some b.
Proof.
  revert i bc j ok l' d t; induction l as [|c r IH]; intros i bc j ok l' d t E Hj Ht; [done|]. cbn [save_loop_io] in E.
  destruct (disk_copy old (Z.of_nat i) c) as [[hdr [txs|]]|]; [|by injection E as _ <- _ _..]. destruct (negb (w i)); [by injection E as _ <- _ _|].
  destruct (save_loop_io w old (S i) _ r) as [[[ok1 l1] d1] t1] eqn:E1. injection E as _ <- _ _. destruct j as [|j]; [|exact (IH _ _ j _ _ _ _ E1 Hj Ht)].
  injection Hj as ->. cbn. f_equal. destruct b as [hd tx]. cbn in Ht. by rewrite Ht.
Qed.

(** Over a gap every save fails and leaves the files alone. *)
Lemma gap_save i a st : gap i st -> fst (node_save_io a st) = false /\ gap i (snd (node_save_io a st)).
Proof.
  intros Hg. pose proof Hg as (b & Hb & Ht & Hl). destruct (gap_source i st Hg) as (b' & Hb' & Hs). assert (b' = b) as -> by congruence.
  unfold node_save_io, Chain_SaveToFile_io. rewrite files_of_disk. destruct (opened a); cbn [negb].
  - destruct (loop_fails (writes a) (g_files st) 0 0 (blocks st) i b Hb Hs) as (l' & d & t & E). rewrite E. cbn [negb fst snd]. split; [done|].
    exists b. cbn [blocks g_files]. rewrite files_of_disk. split; [by eapply loop_keeps|done].
  - cbn [fst snd]. split; [done|]. exists b. cbn [blocks g_files]. by rewrite files_of_disk.
Qed.

Lemma gap_step i st st' : step_above i st st' -> gap i st -> gap i st'.
Proof.
  assert (Hpre : forall n (l : list block), (i < n)%nat -> take (S i) l `prefix_of` take n l).
  { intros n l Hn. exists (drop (S i) (take n l)). rewrite <- (take_drop (S i) (take n l)) at 1. by rewrite take_take, Nat.min_l by lia. }
  assert (Hall : forall l : list block, take (S i) l `prefix_of` l) by (intros l; exists (drop (S i) l); by rewrite take_drop).
  intros Hs Hg. destruct Hs as [st b|a st|st h Hh|st f l o bp now Hf|st p|st h|st pool].
  - assert (E : blocks (snd (Chain_AddBlock st b)) = blocks (snd (Chain_AddBlockLocked st b)) /\ g_files (snd (Chain_AddBlock st b)) = g_files (snd (Chain_AddBlockLocked st b)))
      by (unfold Chain_AddBlock; by destruct (Chain_AddBlockLocked st b) as [[] ?]).
    destruct E as [E1 E2]. apply (gap_kept i st); [done|rewrite E1|by rewrite E2, AddBlockLocked_files].
    destruct (AddBlockLocked_blocks st b) as [->|[_ ->]]; [by apply prefix_app_r|done].
  - by apply gap_save.
  - assert (E : blocks (snd (Chain_RollbackToHeight st h)) = take h (blocks st) /\ g_files (snd (Chain_RollbackToHeight st h)) = g_files st).
    { pose proof (RollbackLocked_blocks st h). pose proof (RollbackLocked_files st h). unfold Chain_RollbackToHeight. by destruct (Chain_RollbackToHeightLocked st h). }
    destruct E as [E1 E2]. apply (gap_kept i st); [done|rewrite E1; by apply Hpre|done].
  - apply (gap_kept i st); [done|etrans; [by apply (Hpre f)|apply ReplaceBranch_prefix]|apply ReplaceBranch_files].
  - exact Hg.
  - apply (gap_kept i st); [done|..]; unfold Chain_DagParamsForHeight; by destruct (Chain_DagParamsForHeightLocked _ _ _).
  - exact Hg.
Qed.

Lemma gap_steps i st st' : rtc (step_above i) st st' -> gap i st -> gap i st'.
Proof. induction 1 as [|x y z Hs _ IH]; [done|]. intros Hx. by apply IH, (gap_step i x). Qed.

(** C35: when the write of block [k] fails, the files stay as they were, but the blocks before [k] have given up their
    transactions: those of a block [i] that was not on disk are gone.  From then on, as long as block [i] stays on the
    chain -- through any appends, saves, rollbacks to heights above it, replacements of branches above it and changes
    of pool and DAG -- no save succeeds, whatever the disk does, and no rollback to a height above it can rebuild the
    balances.  (Rolling back to its height or below, or wiping the chain, takes the block away and ends this.) *)
Theorem failed_save_loses_transactions a st k i b :
  opened a = true -> (forall j, (j < k)%nat -> writes a j = true) -> writes a k = false -> (k < length (blocks st))%nat ->
  (forall j, (j <= k)%nat -> is_Some (Chain_BorrowBlockTransactions st j)) ->
  (i < k)%nat -> blocks st !! i = Some b -> Chain_LoadBlockFromFile (g_files st) (Z.of_nat i) true = None ->
  let '(ok, st') := node_save_io a st in
  ok = false /\ g_files st' = g_files st /\ map header (blocks st') = map header (blocks st) /\
  forall st'', rtc (step_above i) st' st'' ->
    Chain_BorrowBlockTransactions st'' i = None /\ (forall a', fst (node_save_io a' st'') = false) /\
    (forall h, (i < h < length (blocks st''))%nat -> fst (Chain_RollbackToHeight st'' h) = false).
Proof.
  intros Ho Hw Hf Hk Hrec Hi Hb Hload. unfold node_save_io at 1, Chain_SaveToFile_io. rewrite Ho, files_of_disk. cbn [negb].
  destruct (loop_stops (writes a) (g_files st) 0 0 (blocks st) k) as (data & table & E); [|done|done|done|].
  { intros j c Hj Hc. cbn. rewrite <- (borrow_source st j c Hc). by apply Hrec. }
  rewrite E. cbn [negb]. rewrite files_of_disk. set (l := map compact (take k (blocks st)) ++ drop k (blocks st)).
  split; [done|]. split; [done|]. split.
  { cbn [blocks]. unfold l. rewrite map_app, map_map. rewrite (map_ext _ header) by done. by rewrite <- map_app, take_drop. }
  intros st'' Hr. assert (Hg : gap i st'').
  { apply (gap_steps i _ _ Hr). exists (compact b). cbn [blocks g_files]. split; [|done].
    unfold l. rewrite lookup_app_l by (rewrite length_map, length_take; lia). rewrite list_lookup_fmap, lookup_take_lt by lia. by rewrite Hb. }
  split; [by apply gap_borrow|]. split; [intros a'; by apply (gap_save i)|]. intros h Hh.
  pose proof (rollback_stops st'' i h Hh (gap_borrow i st'' Hg)) as Hn. unfold Chain_RollbackToHeight. by destruct (Chain_RollbackToHeightLocked st'' h).
Qed.
End Failing.

Import Scenario.

(** A node with two blocks and nothing on disk, whose disk is full after the first. *)
Lemma failed_save_loses_transactions_witness : let '(ok, st') := node_save_io (mkAnswers true (fun j => (j =? 0)%nat) 3) node2 in
  length (blocks st') = 2%nat /\ ok = false /\
  forall b a', fst (node_save_io a' (snd (Chain_AddBlock st' b))) = false.
Proof.
  pose proof (failed_save_loses_transactions (mkAnswers true (fun j => (j =? 0)%nat) 3) node2 1 0 genesis) as H.
  assert (Hl : length (blocks (snd (node_save_io (mkAnswers true (fun j => (j =? 0)%nat) 3) node2))) = 2%nat) by (vm_compute; reflexivity).
  destruct (node_save_io (mkAnswers true (fun j => (j =? 0)%nat) 3) node2) as [ok st'].
  destruct H as (H1 & _ & _ & H2); [reflexivity|intros j Hj; by replace j with 0%nat by lia|reflexivity|vm_compute; lia| |lia|vm_compute; reflexivity|vm_compute; reflexivity|].
  - intros j Hj. assert (j = 0 \/ j = 1)%nat as [->| ->] by lia; vm_compute; by eexists.
  - split; [exact Hl|]. split; [exact H1|]. intros b a'. exact (proj1 (proj2 (H2 _ (rtc_once _ _ (above_add 0 st' b)))) a').
Defined.
